(* ===== verification/_CoqProject ===== *)
-Q . S2P
Prelude.v
Fixed.v
Charges.v
Regions.v
Sweep.v
PhysicalMap.v
Frames.v
FrameSearch.v
FrameSpec.v
FrameAlloc.v
FrameClaims.v
Ipc.v
Interrupt.v
IrqChip.v
IrqRouter.v
ObjectPool.v
EntryStack.v
Wait.v
Signals.v
Slab.v
SlabInv.v
SlabSmall.v
SlabAlloc.v
SlabRelease.v
SlabLarge.v
SlabClaims.v
Memory.v
PageCache.v
PageCacheInv.v
PageCacheOps.v
PageCacheClaims.v
Epoch.v
Realtime.v
Timer.v
Clock.v
Wire.v
Checksum.v
Ip.v
Packets.v
TcpPackets.v
LinkPackets.v
Route.v
RouteClaims.v
Congestion.v
Neighbour.v
NeighbourInv.v
NeighbourClaims.v
Address.v
TransportState.v
Transport.v
Serial.v
TransportReceive.v
TransportSend.v
TransportInv.v
TransportPackets.v
TransportOps.v
TransportIngress.v
TransportHistory.v
TransportWorld.v
TransportClaims.v
Firmware.v
FdtTree.v
FdtUnique.v
FdtNodes.v
FdtClaims.v
E820Claims.v
