(* ===== verification/Prelude.v ===== *)
(** * ObfuscationKernel: a verification development (root file)

    ObfuscationKernel is a freestanding C++ kernel for ten 32-bit and 64-bit
    profiles.  This library models its memory, interrupt, message, scheduling,
    time and network primitives as Rocq functions and proves what they promise
    to the rest of the kernel.  Paths are relative to the source tree (src/).

    ** Parts and how they interact

    Boot firmware describes memory; [Firmware] parses its device trees and
    tables.  [PhysicalMap] (memory/physical_map) merges and cuts region lists; [Sweep] is the sweep of memory.cpp that turns any
    region list into page runs; [Frames] hands those pages out under
    generation-checked handles and charges [Charges] accounts.  [Slab] builds
    kernel objects from frames.  [Memory] boots map, frames and slab together,
    and [PageCache] keeps file pages in frames and its index in a slab object.
    [ObjectPool] builds typed objects from the pages of a provider;
    [EntryStack] leases kernel stacks.  [Interrupt]
    dispatches traps; [IrqRouter] drives an interrupt chip ([IrqChip]: the
    model chip and the 8259 pair).  [Ipc] carries messages in the containers
    of [Fixed].  [Wait] blocks and wakes threads, [Signals] queues signals.
    [Epoch] reads the clock devices and anchors wall-clock time, [Realtime]
    keeps it settable on top of the monotonic clock of [Clock], and [Timer]
    counts the expiries of interval timers.  [Wire] and [Ip] parse and build
    packets, [Route] chooses the next hop, [Neighbour] resolves it to a
    link-layer address and holds packets meanwhile.  [Transport] is the TCP
    connection over those packets and the addresses of [Address], and
    [Congestion] sizes its window.

    ** Files

    - Prelude: machine integers at their width (class [Arch] for [usize]),
      status codes, results, arrays as lists with [l.[i]] and [l.[i := v]],
      the tactics and the hint database [kernel].
    - Fixed: core/fixed.hpp.  FixedString, StaticVector and StaticQueue, and
      their refinement of bounded lists.
    - Charges, Regions: memory/charges.hpp and the region type of
      memory/frames.hpp.
    - Sweep: sweep_usable() and count_usable() of memory/memory.cpp.  The
      emitter is a parameter; the runs are shown exact.
    - PhysicalMap: memory/physical_map.{hpp,cpp}.
    - Frames (definitions and invariant), FrameSearch (bit scan and the two
      binary searches), FrameSpec (initialisation), FrameAlloc (taking and
      dropping frames and runs), FrameClaims (contracts and histories):
      class FrameAllocator.
    - Ipc: ipc/ipc.{hpp,cpp}, with the abstract router [RouterSpec].
    - Interrupt: interrupt/interrupt.{hpp,cpp}.  Handlers are functions on an
      arbitrary world; an access outside a table is the value [None].
    - IrqChip: the chip concept as class [IrqChip] and its laws as class
      [IrqChipLaws], with instances for ModelIrqChip and Pic8259.  IrqRouter
      is proved against the laws alone.
    - ObjectPool: memory/object_pool.hpp over the class [ObjectPageProvider],
      of which nothing is assumed but unsigned addresses.
    - EntryStack: memory/kernel_entry_stack_pool.hpp and
      arch/kernel_entry_stack.hpp; the arena is a function from offsets to
      bytes, and histories contain arbitrary stores.
    - Wait: sched/wait_registration.hpp, wait_queue.hpp, deadline.hpp; the
      registrations threads own are a store indexed by address, shared by
      queue and threads.
    - Signals: sched/signal_mask.hpp, child_exit.hpp, pending_signals.hpp,
      signal_action.hpp.
    - Slab (definitions), SlabInv (slot bitmaps, page lists, invariant),
      SlabSmall (disjointness of objects, page relinking), SlabAlloc and
      SlabRelease (small objects), SlabLarge (runs of pages), SlabClaims
      (contracts, the abstract heap and its refinement):
      memory/slab.{hpp,cpp}.  The state is the allocator and a world of
      frames, page headers and bytes; a dereference of an empty result is the
      value [None].
    - Memory: memory/memory.{hpp,cpp}, class MemoryManager: both forms of
      initialize() and initialize_objects().
    - PageCache (definitions), PageCacheInv (invariant and index lemmas),
      PageCacheOps (growing and adding), PageCacheClaims (contracts):
      fs/page_cache.{hpp,cpp}.
    - Epoch: time/epoch.hpp, rtc.hpp and public_clock.hpp; a clock device is an
      instance of the class [RtcReadBus].  Realtime: time/realtime_clock.hpp.
      Timer: time/interval_timer.hpp.  Clock: time/clocksource.hpp (class
      [ClockSource]) and latency_histogram.hpp.
    - Wire: net/wire.hpp and tcp_wire.hpp.  A buffer is its list of bytes, an
      input span also has its address.  Ip: net/ip.hpp; the concept
      AddressFamily is the class [AddressFamily].  Checksum: one's complement
      sums and writes into buffers.  Packets: the laws of a family as the class
      [FamilyLaws], with instances for IPv4 and IPv6, and the UDP codec.
      TcpPackets: the TCP codec, and the IPv4 codecs against the generic ones.
      LinkPackets: Ethernet and ARP, and the types of parsed packets.
    - Route (definitions) and RouteClaims (prefixes as bits, refinement):
      net/route.hpp.  Congestion: net/tcp_congestion.hpp, with the policy
      concept as the class [CongestionControl] and what a connection needs of a
      policy as the class [CongestionLaws].
    - Neighbour (definitions), NeighbourInv (invariant of each operation) and
      NeighbourClaims (histories, flushing, timers): net/neighbour.hpp.  The
      sink of flush() is a function on an arbitrary world.
    - Address: net/address.hpp.  TransportState (types and fields of a
      connection) and Transport (every operation): net/tcp_transport.hpp, class
      Connection, for any policy and any capacities.  Serial: sequence numbers
      as positions of a stream.  TransportReceive: the receive ring and the
      records of out-of-order data against what is known of the peer's stream.
      TransportSend and TransportInv: the retained bytes against the written
      stream, and the invariant of each operation.  TransportPackets: emitted
      packets and what they carry.  TransportOps and TransportIngress: writing,
      timers, preparing, completing and arriving segments.  TransportHistory:
      sequences of calls.  TransportWorld: two connections and a network.
      TransportClaims: the theorems.
    - Firmware: boot/fdt.{hpp,cpp} and boot/e820.hpp.  A read outside the blob
      is the value [None].  FdtTree: trees, what they say about memory, and how
      a blob spells one; the loops that read the blob.  FdtUnique: a blob spells
      one tree.  FdtNodes: the node the parser keeps for an open node.
      FdtClaims: the loop of the parser, and the theorems.  E820Claims: the
      table of the BIOS collector.

    State is passed explicitly; a method of a class becomes a function from
    the record of its fields to the new record and the result.  Pointers are
    integers, 0 is nullptr.

    ** What the theorems show

    - Containers and channels: every script of calls gets the answers of a
      bounded list or of a map of bounded queues (refinement).
    - Firmware: the parsers answer on every input, and the ranges they return
      are those of the device tree the blob spells, or of the table.
    - Memory map and sweep: exactly the free pages come out, in order, without
      overlap; for inputs of the map that are not whole pages, exactly which
      pages its rounding adds or loses.
    - Frames: success and failure of each operation, exact sets of valid
      handles, handles that stay invalid after release, conservation of
      charges over histories, address/index round trip, metadata bounds; what
      a contiguous request does to an exhausted generation sequence.
    - Slab: each call answers, objects are zeroed, aligned, disjoint and
      charged, releases accept exactly live objects, and every history of
      calls is a history of an abstract heap.
    - Boot: the manager owns exactly the usable pages outside its metadata, and
      the slab allocator starts as the empty heap.
    - Page cache: the state machine of a page, exact sets of cached pages after
      each operation, frames and bytes of the rest of the kernel untouched.
    - Object pool and entry stacks: fresh handles, disjoint storage,
      quarantine, detection of canary damage and absence of false alarms.
    - Interrupts: dispatch and which counter it counts, exact service of pending
      lines, lines that reopen, registers that follow the shadow mask.
    - Waiting and signals: no lost wakeup, no wakeup by stale entries, the order
      in which waiters are woken, priority order of delivery, tickets consumed
      at most once.
    - Time: the calendar counts the seconds of an independently stated Gregorian
      calendar, samples of a clock setting are exact and monotonic, overruns of
      timers are exact up to the horizon, the 64-bit conversions against the
      exact ones with the range in which they wrap, and percentiles are within
      an eighth.
    - Packets: what a builder emits its parser reads back, for both families; a
      refused call changes no byte; the parsers end on every input and return
      fields of their types; the IPv4 codecs equal the generic ones.
    - Routing and congestion: the table is the list of its routes and lookup is
      the longest prefix match; the windows stay in their bounds.
    - Neighbours: the invariant of the cache in every history, packets flushed
      in arrival order, permanent neighbours that stay, and neighbours that
      never answer given up after their solicitations, however few fit a tick.
    - TCP: a connection answers every call and stays within its bounds whatever
      arrives, its packets carry the bytes written to it, what is due is sent
      again until the connection is given up, and over a network that loses,
      repeats and reorders packets the bytes read are those written.

    ** Bounds and fuel

    Loops with a bound in the code recurse on that bound.  The two binary
    searches take one step more than there are ranges, the sweep as many steps
    as boundaries, and the lemmas that use them show that this is enough: the
    results are total and exact.  The bit scan of allocate() visits each word
    and the first again, as the code does.  The handler loop of drain() is
    bounded by the handler limit, which its own condition never exceeds
    ([drain_reentrant_wf]).  The slot search of the slab allocator and the loops
    of the page cache recurse on the number of slots or entries.  The loops over
    TCP options and IPv6 headers take one step more than there are bytes, and
    [packet_parsers_total] shows that this is enough; the last loop of a
    checksum folds three times, enough for its 17 bits ([fold_loop_spec]).  The
    loop of flush() takes one step more than there are packets, and
    [flush_in_order] shows that it ends.  In a TCP connection the search for the
    segment size option takes one step more than there are option bytes, and the
    loops over out-of-order records recurse on the number of records, each step
    removing or passing one ([calls_always_answered]: every call answers).  The
    loops of the device tree parser take one step more than there are bytes;
    each advances, and [fdt_parser_total] shows that they end.

    ** Assumptions

    The page lists of the slab allocator end in address 0, so its invariant
    asks that no managed frame lies there.  A run of frames, a slab request
    above the large threshold and a page of the cache ask for a generation
    sequence that is not exhausted; [contiguous_after_exhaustion] shows what
    happens otherwise, and that histories of frames need the condition.  The
    theorems about normalize() keep usable memory out of the topmost page of
    the address space ([normalize_top_overlap] has an input there), and its
    contract [normalize_exact] asks for inputs of whole pages, the rest being
    [normalize_rounding_gaps].  Timers are read before the horizon of their
    clock.  A visitor of notify() may take a waiter out of the queue without
    completing it; the theorem on lost wakeups is about the other waiters.
    Interrupt handlers in [bound_lines_reopen] do not call the router.  The size of a page cache entry
    is a parameter of 28 to 64 bytes, and the account that pays for cached
    pages is not the slab allocator's own.  The counters that number routes
    and held packets are 64 bits wide, so histories are shorter than that; a TCP
    segment size is 16 bits and data in flight at most 2 GiB.  Delivery of a TCP
    stream ([stream_delivered]) is stated for streams of at most 2^30 bytes, one
    opening of each side, and a network on which nobody else sends from the
    writer's endpoint: sequence numbers have 32 bits and no authentication.

    ** Not modelled

    Diagnostic texts of statuses; assembly, device drivers and graphics (device
    access); boot protocols, and the qualification of firmware maps against the
    loaded image and the managed window, which choose among the parsers and
    their ranges; multiprocessing (the modelled code runs with interrupts off on
    one processor); schedulers, processes, file systems above the page cache,
    network interfaces, tables of endpoints and system calls, which need the
    parts here first. *)

From stdpp Require Export base tactics list numbers sets gmap.
From Stdlib Require Export ZArith Lia.

#[export] Set Default Goal Selector "!".
#[global] Open Scope Z_scope.

(** ** Machine integers *)

(** The kernel builds for five 32-bit and five 64-bit profiles; [usize] and
    [uptr] have the width of the profile.  Every definition that uses them is
    parametric in the profile. *)
Class Arch := {
  word_bits : Z;
  word_bits_cases : word_bits = 32 \/ word_bits = 64
}.

(** The 64-bit and the 32-bit profiles. *)
Definition arch64 : Arch := {| word_bits := 64; word_bits_cases := or_intror eq_refl |}.
Definition arch32 : Arch := {| word_bits := 32; word_bits_cases := or_introl eq_refl |}.

(** [~usize{0}], and the wrap-around of unsigned arithmetic. *)
Definition usize_max `{Arch} : Z := 2 ^ word_bits - 1.
Definition usize_wrap `{Arch} (x : Z) : Z := x mod 2 ^ word_bits.
Definition u8_max : Z := 2 ^ 8 - 1.
Definition u16_max : Z := 2 ^ 16 - 1.
Definition u32_max : Z := 2 ^ 32 - 1.
Definition u64_max : Z := 2 ^ 64 - 1.
Definition u64_wrap (x : Z) : Z := x mod 2 ^ 64.
Definition u32_wrap (x : Z) : Z := x mod 2 ^ 32.
Definition u16_wrap (x : Z) : Z := x mod 2 ^ 16.
Definition u8_wrap (x : Z) : Z := x mod 2 ^ 8.

(** [~x] on a 64-bit word. *)
Definition u64_not (x : Z) : Z := Z.land (Z.lnot x) u64_max.

(** [~x] on a [usize]. *)
Definition usize_not `{Arch} (x : Z) : Z := Z.land (Z.lnot x) usize_max.

(** [u64{1} << n]. *)
Definition bit64 (n : Z) : Z := u64_wrap (Z.shiftl 1 n).

(** A nonzero power of two, as the sources test it: [x && !(x & (x - 1))]. *)
Definition is_pow2b (x : Z) : bool := negb (x =? 0) && (Z.land x (x - 1) =? 0).

(** ** Status codes and results (include/ok/core/types.hpp)

    A [Status] is a code and a diagnostic text; no code branches on the text,
    so the model keeps the code.  A [Result<T>] is a value or a status. *)
Module StatusCode.
Inductive t : Set :=
  | ok | invalid_argument | no_memory | not_found | already_exists | busy
  | denied | unsupported | overflow | would_block | interrupted | fault
  | not_initialized | broken_pipe | bad_descriptor | not_seekable | io_error
  | cross_device | not_directory | is_directory | not_empty | link_limit
  | no_space | permission | too_many_symlinks | process_file_limit
  | system_file_limit | name_too_long | message_size | no_process
  | not_terminal | exec_format | argument_list_too_long.
#[global] Instance t_eq_dec : EqDecision t.
Proof. solve_decision. Defined.
End StatusCode.

(** A Status, and Status::ok(). *)
Abbreviation Status := StatusCode.t.
Definition status_ok (s : Status) : bool :=
  match s with StatusCode.ok => true | _ => false end.

(** Result<T>. *)
Inductive result (A : Type) : Type :=
  | Ok (a : A)
  | Err (e : Status).
Arguments Ok {A} a.
Arguments Err {A} e.

(** Result<T>::ok() and Result<T>::status(). *)
Definition result_ok {A} (r : result A) : bool :=
  match r with Ok _ => true | Err _ => false end.
Definition result_status {A} (r : result A) : Status :=
  match r with Ok _ => StatusCode.ok | Err e => e end.

(** ** Arrays

    A C++ array or span is a list indexed by an unsigned integer.  [arr.[i]]
    reads and [arr.[i := v]] writes; the invariants of the components keep
    every index in range. *)
Declare Scope array_scope.
Delimit Scope array_scope with arr.
Definition aget {A} `{Inhabited A} (l : list A) (i : Z) : A := l !!! Z.to_nat i.
Definition aset {A} (l : list A) (i : Z) (v : A) : list A := <[Z.to_nat i := v]> l.
Definition zlen {A} (l : list A) : Z := Z.of_nat (length l).
Arguments zlen : simpl never.
Arguments aget : simpl never.
Arguments aset : simpl never.
Notation "l .[ i ]" := (aget l i)
  (at level 1, left associativity, format "l .[ i ]") : array_scope.
Notation "l .[ i := v ]" := (aset l i v)
  (at level 1, left associativity, format "l .[ i  :=  v ]") : array_scope.
#[global] Open Scope array_scope.

(** The indices [0 .. n-1] of a counted loop. *)
Definition indices (n : Z) : list Z := seqZ 0 n.

(** ** Tactics *)

(** Case analysis on the head condition or match of the goal or a hypothesis. *)
Ltac case_cond :=
  match goal with
  | |- context [if ?b then _ else _] => let E := fresh "E" in destruct b eqn:E
  | |- context [match ?x with _ => _ end] => let E := fresh "E" in destruct x eqn:E
  end.
Ltac case_in H :=
  match type of H with
  | context [if ?b then _ else _] => let E := fresh "E" in destruct b eqn:E
  | context [match ?x with _ => _ end] => let E := fresh "E" in destruct x eqn:E
  end.

(** Boolean comparisons of hypotheses and goal as propositions. *)
Ltac b2p :=
  repeat match goal with
  | H : (_ && _) = true |- _ => apply andb_true_iff in H as [? ?]
  | H : (_ && _) = false |- _ => apply andb_false_iff in H
  | H : (_ || _) = false |- _ => apply orb_false_iff in H as [? ?]
  | H : (_ || _) = true |- _ => apply orb_true_iff in H
  | H : negb _ = true |- _ => apply negb_true_iff in H
  | H : negb _ = false |- _ => apply negb_false_iff in H
  | H : (_ =? _) = true |- _ => apply Z.eqb_eq in H
  | H : (_ =? _) = false |- _ => apply Z.eqb_neq in H
  | H : (_ <? _) = true |- _ => apply Z.ltb_lt in H
  | H : (_ <? _) = false |- _ => apply Z.ltb_ge in H
  | H : (_ <=? _) = true |- _ => apply Z.leb_le in H
  | H : (_ <=? _) = false |- _ => apply Z.leb_gt in H
  end.

(** Decide the integer comparisons of the goal that follow from the context. *)
Ltac cmp1 :=
  match goal with
  | |- context [?a <? ?b] =>
      first [rewrite (proj2 (Z.ltb_lt a b)) by lia | rewrite (proj2 (Z.ltb_ge a b)) by lia]
  | |- context [?a <=? ?b] =>
      first [rewrite (proj2 (Z.leb_le a b)) by lia | rewrite (proj2 (Z.leb_gt a b)) by lia]
  | |- context [?a =? ?b] =>
      first [rewrite (proj2 (Z.eqb_eq a b)) by lia | rewrite (proj2 (Z.eqb_neq a b)) by lia]
  end.
Ltac cmp := repeat cmp1; cbn [andb orb negb].

(** Facts about closed terms: comparisons and pointwise facts of a list. *)
Ltac concrete :=
  repeat first [apply List.Forall_nil | apply List.Forall_cons];
  vm_compute; repeat split; intros; try congruence.

Create HintDb kernel.
Create Rewrite HintDb kernel.

(** ** Integer lemmas *)

Lemma usize_max_pos `{Arch} : 2 ^ 32 - 1 <= usize_max.
Proof. unfold usize_max. destruct word_bits_cases as [-> | ->]; lia. Qed.

Lemma usize_max_le_u64 `{Arch} : usize_max <= u64_max.
Proof. unfold usize_max, u64_max. destruct word_bits_cases as [-> | ->]; lia. Qed.

Lemma pow_word_bits `{Arch} : 2 ^ word_bits = usize_max + 1.
Proof. unfold usize_max; lia. Qed.

Lemma usize_wrap_small `{Arch} x : 0 <= x <= usize_max -> usize_wrap x = x.
Proof.
  intros. unfold usize_wrap. rewrite pow_word_bits.
  apply Z.mod_small; lia.
Qed.

Lemma usize_wrap_range `{Arch} x : 0 <= usize_wrap x <= usize_max.
Proof.
  unfold usize_wrap. rewrite pow_word_bits. pose proof usize_max_pos.
  pose proof (Z.mod_pos_bound x (usize_max + 1)). lia.
Qed.

Lemma u64_wrap_small x : 0 <= x <= u64_max -> u64_wrap x = x.
Proof. intros. unfold u64_wrap, u64_max in *. apply Z.mod_small; lia. Qed.

Lemma testbit_u64_not x i :
  0 <= i < 64 -> Z.testbit (u64_not x) i = negb (Z.testbit x i).
Proof.
  intros. unfold u64_not, u64_max.
  rewrite Z.land_spec, Z.lnot_spec by lia.
  replace (2 ^ 64 - 1) with (Z.ones 64) by (rewrite Z.ones_equiv; lia).
  rewrite Z.ones_spec_low by lia. apply andb_true_r.
Qed.

Lemma testbit_high x n i : 0 <= x < 2 ^ n -> 0 <= n <= i -> Z.testbit x i = false.
Proof.
  intros. rewrite <- (Z.mod_small x (2 ^ n)) by lia.
  apply Z.mod_pow2_bits_high; lia.
Qed.

Lemma bit64_pow n : 0 <= n < 64 -> bit64 n = 2 ^ n.
Proof.
  intros. unfold bit64. rewrite Z.shiftl_mul_pow2, Z.mul_1_l by lia.
  apply u64_wrap_small. unfold u64_max.
  pose proof (Z.pow_lt_mono_r 2 n 64). pose proof (Z.pow_pos_nonneg 2 n). lia.
Qed.

Lemma testbit_bit64 n i :
  0 <= n < 64 -> 0 <= i -> Z.testbit (bit64 n) i = (i =? n).
Proof.
  intros. rewrite bit64_pow by lia. rewrite Z.pow2_bits_eqb by lia.
  apply Z.eqb_sym.
Qed.

(** [x] is bounded by [2 ^ n] when its bits from [n] on are clear. *)
(** [x & (1 << k)] as a condition. *)
Lemma land_bit_testbit x k : 0 <= k < 64 -> negb (Z.land x (bit64 k) =? 0) = Z.testbit x k.
Proof.
  intros Hk. destruct (Z.testbit x k) eqn:Hb.
  - apply negb_true_iff, Z.eqb_neq. intros E. assert (Z.testbit (Z.land x (bit64 k)) k = false) as Ht by (by rewrite E, Z.bits_0).
    rewrite Z.land_spec, Hb, testbit_bit64 in Ht by lia. rewrite Z.eqb_refl in Ht. done.
  - apply negb_false_iff, Z.eqb_eq, Z.bits_inj'. intros i Hi. rewrite Z.land_spec, Z.bits_0, testbit_bit64 by lia.
    destruct (Z.eqb_spec i k) as [-> |]; [by rewrite Hb | apply andb_false_r].
Qed.

Lemma bound_of_testbit x n :
  0 <= x -> 0 <= n -> (forall i, n <= i -> Z.testbit x i = false) -> x < 2 ^ n.
Proof.
  intros Hx Hn Hb. destruct (Z.eq_dec x 0) as [-> | Hne].
  { apply Z.pow_pos_nonneg; lia. }
  apply Z.log2_lt_pow2; [lia |].
  destruct (Z.lt_ge_cases (Z.log2 x) n) as [| Hge]; [done |].
  pose proof (Z.bit_log2 x ltac:(lia)) as Hbit. rewrite Hb in Hbit; done.
Qed.

Lemma lor_bound x y n : 0 <= n -> 0 <= x < 2 ^ n -> 0 <= y < 2 ^ n -> 0 <= Z.lor x y < 2 ^ n.
Proof.
  intros. assert (0 <= Z.lor x y) by (apply Z.lor_nonneg; lia).
  split; [done |]. apply bound_of_testbit; [done | done |]. intros.
  rewrite Z.lor_spec, !(testbit_high _ n) by lia. done.
Qed.

Lemma land_bound x y n : 0 <= n -> 0 <= x < 2 ^ n -> 0 <= y -> 0 <= Z.land x y < 2 ^ n.
Proof.
  intros. assert (0 <= Z.land x y) by (apply Z.land_nonneg; lia).
  split; [done |]. apply bound_of_testbit; [done | done |]. intros.
  rewrite Z.land_spec, (testbit_high x n) by lia. done.
Qed.

Lemma u64_not_bound x : 0 <= u64_not x < 2 ^ 64.
Proof.
  unfold u64_not, u64_max.
  replace (2 ^ 64 - 1) with (Z.ones 64) by (rewrite Z.ones_equiv; lia).
  rewrite Z.land_ones by lia. apply Z.mod_pos_bound. lia.
Qed.

(** A power of two, and alignment masks. *)
Lemma is_pow2b_spec x : 0 <= x -> is_pow2b x = true -> exists k, 0 <= k /\ x = 2 ^ k.
Proof.
  unfold is_pow2b. intros Hx Hp. b2p. exists (Z.log2 x). split; [apply Z.log2_nonneg |].
  destruct (Z.log2_spec x ltac:(lia)) as [Hlo Hhi]. pose proof (Z.log2_nonneg x) as Hk.
  revert Hlo Hhi Hk. generalize (Z.log2 x). intros k Hlo Hhi Hk. destruct (Z.eq_dec x (2 ^ k)) as [| Hne]; [done | exfalso].
  assert (forall y, 2 ^ k <= y < 2 ^ Z.succ k -> Z.testbit y k = true) as Hbit.
  { intros y Hy. rewrite <- (Z.log2_unique y k) by lia. apply Z.bit_log2. pose proof (Z.pow_pos_nonneg 2 k). lia. }
  assert (Z.testbit (Z.land x (x - 1)) k = true) as Hc
    by (rewrite Z.land_spec, !Hbit by lia; done).
  match goal with Hz : Z.land _ _ = 0 |- _ => rewrite Hz, Z.bits_0 in Hc end. done.
Qed.

Lemma land_not_mask `{Arch} v k :
  0 <= v <= usize_max -> 0 <= k -> Z.land v (usize_not (2 ^ k - 1)) = v - v mod 2 ^ k.
Proof.
  intros Hv Hk. unfold usize_not.
  assert (usize_max = Z.ones word_bits) as Hm by (unfold usize_max; rewrite Z.ones_equiv; lia).
  assert (0 <= word_bits) by (destruct word_bits_cases as [-> | ->]; lia).
  rewrite (Z.land_comm (Z.lnot _)), Z.land_assoc, Hm, Z.land_ones by done.
  rewrite (Z.mod_small v) by (unfold usize_max in *; lia).
  replace (2 ^ k - 1) with (Z.ones k) by (rewrite Z.ones_equiv; lia).
  rewrite <- Z.ldiff_land, Z.ldiff_ones_r, Z.shiftl_mul_pow2, Z.shiftr_div_pow2 by done.
  pose proof (Z.div_mod v (2 ^ k)). pose proof (Z.pow_pos_nonneg 2 k). lia.
Qed.

(** Rounding up and down to a page boundary. *)
Lemma round_up_spec ps s :
  0 < ps -> let b := s + (ps - s mod ps) mod ps in b mod ps = 0 /\ s <= b < s + ps.
Proof.
  intros Hps b. pose proof (Z.mod_pos_bound s ps Hps). subst b.
  destruct (Z.eq_dec (s mod ps) 0) as [Hz | Hz].
  - rewrite Hz, Z.sub_0_r, Z_mod_same_full, Z.add_0_r. lia.
  - rewrite (Z.mod_small (ps - s mod ps)) by lia. split; [| lia].
    rewrite (Z.div_mod s ps) at 1 by lia.
    replace (ps * (s / ps) + s mod ps + (ps - s mod ps)) with ((s / ps + 1) * ps) by lia.
    apply Z_mod_mult.
Qed.

Lemma round_down_spec ps e :
  0 < ps -> let d := e - e mod ps in d mod ps = 0 /\ e - ps < d <= e.
Proof.
  intros Hps d. pose proof (Z.mod_pos_bound e ps Hps). subst d. split; [| lia].
  replace (e - e mod ps) with ((e / ps) * ps) by (pose proof (Z.div_mod e ps); lia).
  apply Z_mod_mult.
Qed.

(** Two multiples of the page size less than a page apart are equal. *)
Lemma aligned_le ps p q : 0 < ps -> p mod ps = 0 -> q mod ps = 0 -> p < q + ps -> p <= q.
Proof.
  intros Hps Hp Hq Hlt. apply Z.mod_divide in Hp as [x ->]; [| lia].
  apply Z.mod_divide in Hq as [y ->]; [| lia].
  assert (x < y + 1) by nia. nia.
Qed.

(** ** Array lemmas *)

Section Arrays.
Context {A : Type} `{Inhabited A}.
Implicit Types (l : list A) (i j : Z).

Lemma zlen_nonneg l : 0 <= zlen l.
Proof. unfold zlen; lia. Qed.

Lemma zlen_aset l i v : zlen (aset l i v) = zlen l.
Proof. unfold zlen, aset. by rewrite length_insert. Qed.

Lemma aget_aset_eq l i (v : A) : 0 <= i < zlen l -> aget (aset l i v) i = v.
Proof.
  unfold zlen, aget, aset. intros. apply list_lookup_total_insert_eq. lia.
Qed.

Lemma aget_aset_ne l i j v : 0 <= i -> 0 <= j -> i <> j -> aget (aset l i v) j = aget l j.
Proof.
  unfold aget, aset. intros. apply list_lookup_total_insert_ne. lia.
Qed.

Lemma aget_aset l i j v :
  0 <= i < zlen l -> 0 <= j -> aget (aset l i v) j = if j =? i then v else aget l j.
Proof.
  intros. destruct (Z.eqb_spec j i) as [-> | ].
  - by apply aget_aset_eq.
  - apply aget_aset_ne; lia.
Qed.

Lemma aget_replicate n (v : A) i : 0 <= i < Z.of_nat n -> aget (replicate n v) i = v.
Proof. unfold aget. intros. apply lookup_total_replicate_2. lia. Qed.

Lemma aget_lookup l i (v : A) : 0 <= i -> l !! Z.to_nat i = Some v -> aget l i = v.
Proof. unfold aget. intros _ Hl. by apply list_lookup_total_correct. Qed.

Lemma lookup_aget l i : 0 <= i < zlen l -> l !! Z.to_nat i = Some (aget l i).
Proof.
  unfold aget, zlen. intros. apply list_lookup_lookup_total_lt. lia.
Qed.

Lemma aget_app_l l1 l2 i : 0 <= i < zlen l1 -> aget (l1 ++ l2) i = aget l1 i.
Proof. unfold aget, zlen. intros. apply lookup_total_app_l. lia. Qed.

Lemma aget_app_r l1 l2 i : zlen l1 <= i -> aget (l1 ++ l2) i = aget l2 (i - zlen l1).
Proof.
  unfold aget, zlen. intros. rewrite lookup_total_app_r by lia. f_equal. lia.
Qed.

Lemma aget_cons_pos (x : A) l i : 0 < i -> aget (x :: l) i = aget l (i - 1).
Proof. intros. unfold aget. by replace (Z.to_nat i) with (S (Z.to_nat (i - 1))) by lia. Qed.

Lemma zlen_nil : zlen (@nil A) = 0.
Proof. done. Qed.

Lemma zlen_cons (x : A) l : zlen (x :: l) = zlen l + 1.
Proof. unfold zlen. cbn. lia. Qed.

Lemma zlen_app l1 l2 : zlen (l1 ++ l2) = zlen l1 + zlen l2.
Proof. unfold zlen. rewrite length_app. lia. Qed.

Lemma zlen_take n l : zlen (take n l) = Z.min (Z.of_nat n) (zlen l).
Proof. unfold zlen. rewrite length_take. lia. Qed.

Lemma zlen_drop n l : zlen (drop n l) = Z.max 0 (zlen l - Z.of_nat n).
Proof. unfold zlen. rewrite length_drop. lia. Qed.

Lemma zlen_replicate n (v : A) : zlen (replicate n v) = Z.of_nat n.
Proof. unfold zlen. by rewrite length_replicate. Qed.

Lemma aget_take n l i : 0 <= i < Z.of_nat n -> aget (take n l) i = aget l i.
Proof. unfold aget. intros. apply lookup_total_take_lt. lia. Qed.

Lemma aget_drop n l i : 0 <= i -> aget (drop n l) i = aget l (Z.of_nat n + i).
Proof. unfold aget. intros. rewrite lookup_total_drop. f_equal. lia. Qed.

Lemma list_eq_aget l1 l2 :
  zlen l1 = zlen l2 -> (forall i, 0 <= i < zlen l1 -> aget l1 i = aget l2 i) -> l1 = l2.
Proof.
  unfold zlen. intros Hlen Heq. apply list_eq_same_length with (length l1); [lia | lia |].
  intros i x y Hi Hx Hy. specialize (Heq (Z.of_nat i) ltac:(lia)).
  unfold aget in Heq. rewrite Nat2Z.id in Heq.
  apply list_lookup_total_correct in Hx. apply list_lookup_total_correct in Hy. congruence.
Qed.
End Arrays.

Lemma zlen_fmap {A B} (f : A -> B) (l : list A) : zlen (f <$> l) = zlen l.
Proof. unfold zlen. by rewrite length_fmap. Qed.

Lemma aget_fmap {A B} `{Inhabited A, Inhabited B} (f : A -> B) (l : list A) i :
  0 <= i < zlen l -> aget (f <$> l) i = f (aget l i).
Proof.
  unfold aget, zlen. intros. apply list_lookup_total_fmap. lia.
Qed.

Lemma zlen_indices n : 0 <= n -> zlen (indices n) = n.
Proof. intros. unfold zlen, indices. rewrite length_seqZ. lia. Qed.

Lemma aget_indices n i : 0 <= i < n -> aget (indices n) i = i.
Proof.
  intros. apply aget_lookup; [lia |]. unfold indices. apply lookup_seqZ. lia.
Qed.

#[export] Hint Rewrite @zlen_aset @zlen_nil @zlen_cons @zlen_app @zlen_take @zlen_drop
  @zlen_replicate @zlen_fmap : kernel.

(** Lengths of array expressions, then linear arithmetic. *)
Ltac lens := autorewrite with kernel in *; lia.

Lemma elem_of_indices n i : i ∈ indices n <-> 0 <= i < n.
Proof. unfold indices. rewrite elem_of_seqZ. lia. Qed.

Lemma indices_succ n : 0 <= n -> indices (n + 1) = indices n ++ [n].
Proof.
  intros. unfold indices. rewrite seqZ_app by lia. by rewrite Z.add_0_l.
Qed.

Lemma existsb_indices_false (f : Z -> bool) n k : existsb f (indices n) = false -> 0 <= k < n -> f k = false.
Proof.
  intros He Hk. destruct (f k) eqn:E; [| done]. rewrite <- He. symmetry. apply existsb_exists. exists k.
  split; [by apply list_elem_of_In, elem_of_indices | done].
Qed.

(** ** Sums over arrays *)
Definition zsum {A} (f : A -> Z) (l : list A) : Z := foldr (fun x acc => f x + acc) 0 l.
#[global] Arguments zsum {A} f l : simpl never.

Section Sums.
Context {A : Type} `{Inhabited A} (f : A -> Z).
Implicit Types l : list A.

Lemma zsum_cons x l : zsum f (x :: l) = f x + zsum f l.
Proof. done. Qed.

Lemma aset_cons_pos x l i v : 0 < i -> (x :: l).[i := v] = x :: l.[i - 1 := v].
Proof. intros. unfold aset. by replace (Z.to_nat i) with (S (Z.to_nat (i - 1))) by lia. Qed.

Lemma zsum_aset l i v : 0 <= i < zlen l -> zsum f l.[i := v] = zsum f l - f l.[i] + f v.
Proof.
  revert i. induction l as [| x l IH]; intros i Hi; [change (zlen []) with 0 in Hi; lia |].
  rewrite zlen_cons in Hi. destruct (Z.eq_dec i 0) as [-> | Hne].
  - change ((x :: l).[0 := v]) with (v :: l). change ((x :: l).[0]) with x. rewrite !zsum_cons. lia.
  - rewrite aget_cons_pos, aset_cons_pos, !zsum_cons, IH by lia. lia.
Qed.

Lemma zsum_replicate n v : f v = 0 -> zsum f (replicate n v) = 0.
Proof. intros Hv. induction n as [| n IH]; [done |]. cbn [replicate]. rewrite zsum_cons. lia. Qed.

Lemma zsum_bounds l : (forall x, 0 <= f x <= 1) -> 0 <= zsum f l <= zlen l.
Proof.
  intros Hf. induction l as [| x l IH]; [done |]. rewrite zlen_cons, zsum_cons. specialize (Hf x). lia.
Qed.

Lemma zsum_nonneg l : Forall (fun x => 0 <= f x) l -> 0 <= zsum f l.
Proof. induction 1 as [| x l Hx _ IH]; [done |]. rewrite zsum_cons. lia. Qed.

(** A member is at most the sum. *)
Lemma zsum_elem l i : Forall (fun x => 0 <= f x) l -> 0 <= i < zlen l -> f l.[i] <= zsum f l.
Proof.
  revert i. induction l as [| x l IH]; intros i Hl Hi; [change (zlen []) with 0 in Hi; lia |].
  inversion_clear Hl as [| ? ? Hx Hl']. rewrite zlen_cons in Hi. rewrite zsum_cons. pose proof (zsum_nonneg l Hl').
  destruct (Z.eq_dec i 0) as [-> | Hne]; [change ((x :: l).[0]) with x; lia |].
  rewrite aget_cons_pos by lia. specialize (IH (i - 1) Hl' ltac:(lia)). lia.
Qed.

(** A 0/1 sum below the length has a zero. *)
Lemma zsum_zero l : (forall x, 0 <= f x <= 1) -> zsum f l < zlen l -> exists i, 0 <= i < zlen l /\ f l.[i] = 0.
Proof.
  intros Hf. induction l as [| x l IH]; [by change (0 < 0 -> exists i, 0 <= i < 0 /\ f (@nil A).[i] = 0) |]. rewrite zlen_cons, zsum_cons.
  pose proof (Hf x). pose proof (zlen_nonneg l). destruct (Z.eq_dec (f x) 0) as [Hz | Hz].
  - intros _. exists 0. split; [lia | done].
  - intros. destruct IH as (i & Hi & Hl); [lia |]. exists (i + 1). split; [lia |].
    rewrite aget_cons_pos by lia. by replace (i + 1 - 1) with i by lia.
Qed.

Lemma zsum_ext g l l' : zlen l = zlen l' -> (forall i, 0 <= i < zlen l -> f l.[i] = g l'.[i]) -> zsum f l = zsum g l'.
Proof.
  revert l'. induction l as [| x l IH]; intros [| y l'] Hlen Hall; rewrite ?zlen_cons in *; try done.
  - pose proof (zlen_nonneg l'). rewrite zlen_nil in Hlen. lia.
  - pose proof (zlen_nonneg l). rewrite zlen_nil in Hlen. lia.
  - pose proof (zlen_nonneg l). rewrite zsum_cons. change (zsum g (y :: l')) with (g y + zsum g l').
    specialize (Hall 0 ltac:(lia)) as Hxy. change (f x = g y) in Hxy.
    rewrite Hxy. f_equal. apply IH; [lia |]. intros i Hi. specialize (Hall (i + 1) ltac:(lia)).
    rewrite !aget_cons_pos in Hall by lia. by replace (i + 1 - 1) with i in Hall by lia.
Qed.

Lemma zsum_app l l' : zsum f (l ++ l') = zsum f l + zsum f l'.
Proof. induction l as [| x l IH]; [done |]. cbn [app]. rewrite !zsum_cons, IH. lia. Qed.

End Sums.

Lemma zsum_indices {A} `{Inhabited A} (f : A -> Z) (l : list A) : zsum f l = zsum (fun j => f l.[j]) (indices (zlen l)).
Proof.
  induction l as [| x l IH] using rev_ind; [done |]. rewrite zlen_app, (zlen_cons x []), zlen_nil. pose proof (zlen_nonneg l).
  rewrite indices_succ, !zsum_app, IH, !zsum_cons by lia. rewrite aget_app_r, Z.sub_diag by lia. f_equal.
  apply zsum_ext; [done |]. intros i Hi. rewrite zlen_indices in Hi by lia. by rewrite aget_indices, aget_app_l by lia.
Qed.

Lemma zsum_indices_le (f g : Z -> Z) n : (forall j, 0 <= j < n -> f j <= g j) -> zsum f (indices n) <= zsum g (indices n).
Proof.
  intros Hle. assert (forall j, j ∈ indices n -> f j <= g j) as Hm by (intros j Hj%elem_of_indices; by apply Hle). clear Hle.
  revert Hm. generalize (indices n) as l. intros l. induction l as [| x l IH]; intros Hm; [done |]. rewrite !zsum_cons.
  specialize (Hm x ltac:(by left)) as Hx. enough (zsum f l <= zsum g l) by lia. apply IH. intros j Hj. apply Hm. by right.
Qed.

(** A function that is [u] at [i], [v] in the rest of [i, i + n), 0 elsewhere. *)
Definition on_run (i n u v j : Z) : Z := if (i <=? j) && (j <? i + n) then (if j =? i then u else v) else 0.

Lemma zsum_on_run i n u v m : 0 <= i -> 0 < n -> 0 <= m ->
  zsum (on_run i n u v) (indices m) = if m <=? i then 0 else u + (Z.min m (i + n) - i - 1) * v.
Proof.
  intros Hi Hn Hm. pattern m. apply natlike_ind; [by replace (0 <=? i) with true by lia | | done].
  intros x Hx IH. rewrite <- Z.add_1_r, indices_succ, zsum_app, IH, zsum_cons by lia. change (zsum ?h []) with 0. unfold on_run.
  destruct (Z.leb_spec x i), (Z.leb_spec (x + 1) i), (Z.leb_spec i x), (Z.ltb_spec x (i + n)), (Z.eqb_spec x i); cbn [andb]; try lia;
    rewrite ?(Z.min_l (x + 1)), ?(Z.min_r (x + 1)), ?(Z.min_l x), ?(Z.min_r x) by lia; lia.
Qed.

(** Changing the elements of [i, i + n) by [u] and by [v] each. *)
Lemma zsum_run {A} `{Inhabited A} (f : A -> Z) (l l' : list A) i n u v : zlen l' = zlen l -> 0 <= i -> 0 < n -> i + n <= zlen l ->
  (forall j, 0 <= j < zlen l -> f l'.[j] = f l.[j] + on_run i n u v j) -> zsum f l' = zsum f l + u + (n - 1) * v.
Proof.
  intros Hlen Hi Hn Hle Hall. rewrite (zsum_indices f l), (zsum_indices f l'), Hlen.
  rewrite (zsum_ext _ (fun j => f l.[j] + on_run i n u v j) _ (indices (zlen l))); [| done |].
  - assert (forall m, zsum (fun j => f l.[j] + on_run i n u v j) m = zsum (fun j => f l.[j]) m + zsum (on_run i n u v) m) as ->.
    { intros m. induction m as [| x m IH]; [done |]. rewrite !zsum_cons, IH. lia. }
    rewrite zsum_on_run by lia. replace (zlen l <=? i) with false by lia. lia.
  - intros j Hj. rewrite zlen_indices in Hj by lia. rewrite aget_indices by lia. by apply Hall.
Qed.

(** Changing a function at one index changes the sum by the difference there. *)
Lemma zsum_indices_update (f g : Z -> Z) n k : 0 <= k < n -> (forall j, 0 <= j < n -> j <> k -> g j = f j) ->
  zsum g (indices n) = zsum f (indices n) - f k + g k.
Proof.
  intros Hk Hg.
  enough (forall m, 0 <= m <= n -> zsum g (indices m) = zsum f (indices m) + (if k <? m then g k - f k else 0)) as Hm.
  { rewrite (Hm n) by lia. replace (k <? n) with true by lia. lia. }
  intros m. assert (0 <= m -> m <= n -> zsum g (indices m) = zsum f (indices m) + (if k <? m then g k - f k else 0)) as Hi; [| intros [? ?]; by apply Hi].
  intros Hm0. pattern m. apply natlike_ind; [| | done].
  - intros _. by replace (k <? 0) with false by lia.
  - intros x Hx IH Hle. rewrite <- Z.add_1_r, indices_succ, !zsum_app, IH by lia. rewrite !zsum_cons. change (zsum ?h []) with 0.
    destruct (Z.eq_dec x k) as [-> |].
    + replace (k <? k) with false by lia. replace (k <? k + 1) with true by lia. lia.
    + rewrite (Hg x) by lia. destruct (Z.ltb_spec k x), (Z.ltb_spec k (x + 1)); lia.
Qed.
