(* ===== verification/Fixed.v ===== *)
(** * Fixed-capacity containers (include/ok/core/fixed.hpp)

    [FixedString], [StaticVector] and [StaticQueue]: a fixed array and a
    length (a head, a tail and a length for the ring).  Each has an
    abstraction to a plain list, and every operation refines the list
    operation it stands for. *)

From S2P Require Import Prelude.

(** ** FixedString<Capacity>: a NUL-terminated character buffer *)
Module FixedString.
Section Defs.
Context `{Arch} (Capacity : Z).

Record t := mk {
  data_ : list Z;   (* std::array<char, Capacity> *)
  size_ : Z
}.

Definition empty_string : t := mk (replicate (Z.to_nat Capacity) 0) 0.

(** The copy loop of assign() and append(): [data_[at + i] = value[i]]. *)
Fixpoint copy_chars (data : list Z) (at_ : Z) (value : list Z) : list Z :=
  match value with
  | [] => data
  | c :: rest => copy_chars (data.[at_ := c]) (at_ + 1) rest
  end.

Definition assign (s : t) (value : list Z) : t * Status :=
  if Capacity <=? zlen value then (s, StatusCode.overflow)
  else
    let size := zlen value in
    let data := copy_chars (data_ s) 0 value in
    (mk (data.[size := 0]) size, StatusCode.ok).

(** The constructor ignores the status of assign(). *)
Definition of_view (value : list Z) : t := fst (assign empty_string value).

Definition clear (s : t) : t := mk ((data_ s).[0 := 0]) 0.

Definition append_char (s : t) (value : Z) : t * Status :=
  if Capacity <=? usize_wrap (size_ s + 1) then (s, StatusCode.overflow)
  else
    let data := (data_ s).[size_ s := value] in
    let size := size_ s + 1 in
    (mk (data.[size := 0]) size, StatusCode.ok).

Definition append (s : t) (value : list Z) : t * Status :=
  if Capacity <=? usize_wrap (size_ s + zlen value) then (s, StatusCode.overflow)
  else
    let data := copy_chars (data_ s) (size_ s) value in
    let size := size_ s + zlen value in
    (mk (data.[size := 0]) size, StatusCode.ok).

Definition pop_back (s : t) : t :=
  if size_ s =? 0 then s
  else
    let size := size_ s - 1 in
    mk ((data_ s).[size := 0]) size.

Definition view (s : t) : list Z := take (Z.to_nat (size_ s)) (data_ s).
Definition size (s : t) : Z := size_ s.
Definition empty (s : t) : bool := size_ s =? 0.

(** The buffer has its capacity, room for the terminator, and the terminator. *)
Definition wf (s : t) : Prop :=
  zlen (data_ s) = Capacity /\ 0 <= size_ s < Capacity /\ (data_ s).[size_ s] = 0.
End Defs.
End FixedString.

(** ** StaticVector<T, Capacity> *)
Module StaticVector.
Section Defs.
Context {T : Type} `{Inhabited T} (Capacity : Z).

Record t := mk {
  values_ : list T;   (* std::array<T, Capacity> *)
  size_ : Z
}.

(** [inhabitant] stands for the value-initialised [T{}]. *)
Definition new : t := mk (replicate (Z.to_nat Capacity) inhabitant) 0.
Definition size (v : t) : Z := size_ v.
Definition empty (v : t) : bool := size_ v =? 0.
Definition full (v : t) : bool := size_ v =? Capacity.
Definition clear (v : t) : t := mk (values_ v) 0.

Definition pop_back (v : t) : t * Status :=
  if size_ v =? 0 then (v, StatusCode.invalid_argument)
  else (mk ((values_ v).[size_ v - 1 := inhabitant]) (size_ v - 1), StatusCode.ok).

(** Returns the reserved slot's index; its old contents stay. *)
Definition push_back_slot (v : t) : t * result Z :=
  if full v then (v, Err StatusCode.overflow)
  else (mk (values_ v) (size_ v + 1), Ok (size_ v)).

Definition push_back (v : t) (value : T) : t * Status :=
  if full v then (v, StatusCode.overflow)
  else (mk ((values_ v).[size_ v := value]) (size_ v + 1), StatusCode.ok).

(** [for (i = index; i + 1 < size_; ++i) values_[i] = values_[i + 1]]. *)
Fixpoint shift_down (values : list T) (i : Z) (steps : nat) : list T :=
  match steps with
  | O => values
  | S n => shift_down (values.[i := values.[i + 1]]) (i + 1) n
  end.

Definition erase_at (v : t) (index : Z) : t * Status :=
  if size_ v <=? index then (v, StatusCode.invalid_argument)
  else (mk (shift_down (values_ v) index (Z.to_nat (size_ v - 1 - index))) (size_ v - 1),
        StatusCode.ok).

Definition get (v : t) (index : Z) : T := (values_ v).[index].
Definition set (v : t) (index : Z) (x : T) : t := mk ((values_ v).[index := x]) (size_ v).

(** The elements between begin() and end(). *)
Definition elements (v : t) : list T := take (Z.to_nat (size_ v)) (values_ v).

Definition wf (v : t) : Prop := zlen (values_ v) = Capacity /\ 0 <= size_ v <= Capacity.
End Defs.
Arguments t : clear implicits.
Arguments mk {T} _ _.
End StaticVector.

(** ** StaticQueue<T, Capacity>: a ring buffer *)
Module StaticQueue.
Section Defs.
Context {T : Type} `{Inhabited T} (Capacity : Z).

Record t := mk {
  values_ : list T;   (* std::array<T, Capacity> *)
  head_ : Z;
  tail_ : Z;
  size_ : Z
}.

Definition new : t := mk (replicate (Z.to_nat Capacity) inhabitant) 0 0 0.
Definition size (q : t) : Z := size_ q.
Definition empty (q : t) : bool := size_ q =? 0.
Definition full (q : t) : bool := size_ q =? Capacity.

Definition push (q : t) (value : T) : t * Status :=
  if full q then (q, StatusCode.would_block)
  else (mk ((values_ q).[tail_ q := value]) (head_ q) ((tail_ q + 1) mod Capacity) (size_ q + 1),
        StatusCode.ok).

Definition pop (q : t) : t * result T :=
  if empty q then (q, Err StatusCode.would_block)
  else
    let value := (values_ q).[head_ q] in
    (mk (values_ q) ((head_ q + 1) mod Capacity) (tail_ q) (size_ q - 1), Ok value).

(** The queued values, oldest first. *)
Definition contents (q : t) : list T :=
  (fun i => (values_ q).[(head_ q + i) mod Capacity]) <$> indices (size_ q).

Definition wf (q : t) : Prop :=
  zlen (values_ q) = Capacity /\ 0 < Capacity /\ 0 <= size_ q <= Capacity /\
  0 <= head_ q < Capacity /\ tail_ q = (head_ q + size_ q) mod Capacity.
End Defs.
Arguments t : clear implicits.
Arguments mk {T} _ _ _ _.
End StaticQueue.

(** ** Abstract machines

    The containers as bounded lists, driven by a script of calls; [run]
    collects what the caller sees. *)
Section Machine.
Context {State Op Out : Type} (step : State -> Op -> State * Out).

Fixpoint run (s : State) (ops : list Op) : list Out :=
  match ops with
  | [] => []
  | o :: rest => let '(s', out) := step s o in out :: run s' rest
  end.
End Machine.

Module QueueSpec.
Section Defs.
Context {T : Type} `{Inhabited T} (Capacity : Z).
Inductive op := Push (v : T) | Pop.
Inductive out := Pushed (s : Status) | Popped (r : result T).

Definition step (l : list T) (o : op) : list T * out :=
  match o with
  | Push v => if zlen l <? Capacity then (l ++ [v], Pushed StatusCode.ok)
              else (l, Pushed StatusCode.would_block)
  | Pop => match l with
           | [] => ([], Popped (Err StatusCode.would_block))
           | x :: rest => (rest, Popped (Ok x))
           end
  end.

(** The same calls on the ring buffer. *)
Definition impl_step (q : StaticQueue.t T) (o : op) : StaticQueue.t T * out :=
  match o with
  | Push v => let '(q', s) := StaticQueue.push Capacity q v in (q', Pushed s)
  | Pop => let '(q', r) := StaticQueue.pop Capacity q in (q', Popped r)
  end.
End Defs.
Arguments op : clear implicits.
Arguments out : clear implicits.
End QueueSpec.

Module VectorSpec.
Section Defs.
Context {T : Type} `{Inhabited T} (Capacity : Z).
Inductive op := PushBack (v : T) | PopBack | EraseAt (i : Z) | Clear.

Definition step (l : list T) (o : op) : list T * (Status * list T) :=
  match o with
  | PushBack v => if zlen l <? Capacity then (l ++ [v], (StatusCode.ok, l ++ [v]))
                  else (l, (StatusCode.overflow, l))
  | PopBack => match l with
               | [] => (l, (StatusCode.invalid_argument, l))
               | _ => (take (length l - 1) l, (StatusCode.ok, take (length l - 1) l))
               end
  | EraseAt i => if i <? zlen l then (delete (Z.to_nat i) l, (StatusCode.ok, delete (Z.to_nat i) l))
                 else (l, (StatusCode.invalid_argument, l))
  | Clear => ([], (StatusCode.ok, []))
  end.

(** The same calls on the array; the caller sees the status and begin()..end(). *)
Definition impl_step (v : StaticVector.t T) (o : op) : StaticVector.t T * (Status * list T) :=
  let '(v', s) := match o with
    | PushBack x => StaticVector.push_back Capacity v x
    | PopBack => StaticVector.pop_back v
    | EraseAt i => StaticVector.erase_at v i
    | Clear => (StaticVector.clear v, StatusCode.ok)
    end in
  (v', (s, StaticVector.elements v')).

(** An index argument is unsigned. *)
Definition valid_op (o : op) : Prop := match o with EraseAt i => 0 <= i | _ => True end.
End Defs.
Arguments op : clear implicits.
End VectorSpec.

(** ** Theorems *)

Section FixedStringFacts.
Context `{Arch} (Capacity : Z).
Import FixedString.

Lemma zlen_copy_chars data at_ value : zlen (copy_chars data at_ value) = zlen data.
Proof.
  revert data at_; induction value as [| c rest IH]; intros; [done |].
  cbn. by rewrite IH, zlen_aset.
Qed.

Lemma aget_copy_chars data at_ value i :
  0 <= at_ -> at_ + zlen value <= zlen data -> 0 <= i ->
  (copy_chars data at_ value).[i] =
    if (at_ <=? i) && (i <? at_ + zlen value) then value.[i - at_] else data.[i].
Proof.
  revert data at_; induction value as [| c rest IH]; intros data at_ Hat Hlen Hi.
  { unfold zlen; cbn. rewrite Z.add_0_r.
    destruct (at_ <=? i) eqn:E1, (i <? at_) eqn:E2; b2p; cbn; [lia | done..]. }
  assert (zlen (c :: rest) = zlen rest + 1) as Hc by (unfold zlen; cbn; lia).
  pose proof (zlen_nonneg rest).
  cbn [copy_chars]. rewrite IH by (rewrite ?zlen_aset; lia).
  rewrite aget_aset by lia. rewrite Hc.
  destruct (Z.eqb_spec i at_) as [-> |].
  - cmp. unfold aget. by rewrite Z.sub_diag.
  - destruct (at_ + 1 <=? i) eqn:E1, (i <? at_ + 1 + zlen rest) eqn:E2; b2p;
      [cmp | by cmp | by cmp | lia].
    unfold aget. replace (Z.to_nat (i - at_)) with (S (Z.to_nat (i - (at_ + 1)))) by lia. done.
Qed.

Lemma view_write s value :
  wf Capacity s -> size_ s + zlen value < Capacity ->
  view (mk ((copy_chars (data_ s) (size_ s) value).[size_ s + zlen value := 0])
           (size_ s + zlen value)) = view s ++ value.
Proof.
  intros (Hd & Hs & Hz) Hfit. unfold view; cbn [size_ data_].
  pose proof (zlen_nonneg value).
  assert (zlen (copy_chars (data_ s) (size_ s) value) = Capacity) as Hcopy
    by (by rewrite zlen_copy_chars).
  apply list_eq_aget; [lens |].
  intros i Hi. autorewrite with kernel in Hi.
  rewrite aget_take, aget_aset_ne, aget_copy_chars by lia.
  destruct (size_ s <=? i) eqn:E; b2p.
  - replace (i <? size_ s + zlen value) with true by lia. cbn.
    rewrite aget_app_r by lens. f_equal. lens.
  - cbn. rewrite aget_app_l by lens. by rewrite aget_take by lia.
Qed.
End FixedStringFacts.

Section FixedStringRefinement.
Context `{Arch} (Capacity : Z).
Import FixedString.

Lemma wf_write s value :
  wf Capacity s -> size_ s + zlen value < Capacity ->
  wf Capacity (mk ((copy_chars (data_ s) (size_ s) value).[size_ s + zlen value := 0])
                  (size_ s + zlen value)).
Proof.
  intros (Hd & Hs & Hz) Hfit. pose proof (zlen_nonneg value).
  unfold wf; cbn. rewrite zlen_aset, zlen_copy_chars.
  split_and!; [lia | lia | lia |]. apply aget_aset_eq. rewrite zlen_copy_chars. lia.
Qed.

Lemma wf_clear s : wf Capacity s -> wf Capacity (clear s) /\ view (clear s) = [].
Proof.
  intros (Hd & Hs & Hz). unfold wf, clear, view; cbn.
  rewrite zlen_aset. split_and!; [lia | lia | lia | | done].
  apply aget_aset_eq. lia.
Qed.

Lemma assign_spec s value :
  wf Capacity s -> zlen value < Capacity ->
  let s' := fst (assign Capacity s value) in
  snd (assign Capacity s value) = StatusCode.ok /\ wf Capacity s' /\ view s' = value.
Proof.
  intros Hwf Hfit. unfold assign. replace (Capacity <=? zlen value) with false by lia.
  destruct Hwf as (Hd & Hs & Hz). pose proof (zlen_nonneg value).
  set (z := mk ((data_ s).[0 := 0]) 0).
  assert (wf Capacity z) as Hwfz by (apply wf_clear; done).
  cbn. split; [done |]. split.
  - unfold wf; cbn. rewrite zlen_aset, zlen_copy_chars. split_and!; try lia.
    apply aget_aset_eq. rewrite zlen_copy_chars. lia.
  - unfold view; cbn. apply list_eq_aget.
    { rewrite zlen_take, zlen_aset, zlen_copy_chars. lia. }
    intros i Hi. rewrite zlen_take, zlen_aset, zlen_copy_chars in Hi.
    rewrite aget_take, aget_aset_ne, aget_copy_chars by lia.
    replace (0 <=? i) with true by lia. replace (i <? 0 + zlen value) with true by lia.
    cbn. by rewrite Z.sub_0_r.
Qed.

Lemma append_spec s value :
  wf Capacity s -> size_ s + zlen value < Capacity -> Capacity <= usize_max ->
  let s' := fst (append Capacity s value) in
  snd (append Capacity s value) = StatusCode.ok /\ wf Capacity s' /\ view s' = view s ++ value.
Proof.
  intros Hwf Hfit Hcap. pose proof Hwf as (Hd & Hs & Hz). pose proof (zlen_nonneg value).
  unfold append. rewrite usize_wrap_small by lia.
  replace (Capacity <=? size_ s + zlen value) with false by lia.
  cbn. split_and!; [done | by apply wf_write | by apply view_write with Capacity].
Qed.

Lemma append_char_append s c : append_char Capacity s c = append Capacity s [c].
Proof. done. Qed.

Lemma pop_back_spec s :
  wf Capacity s ->
  wf Capacity (pop_back s) /\ view (pop_back s) = take (length (view s) - 1) (view s).
Proof.
  intros (Hd & Hs & Hz). unfold pop_back. destruct (size_ s =? 0) eqn:E; b2p.
  { split; [done |]. unfold view. rewrite E. done. }
  split.
  - unfold wf; cbn. rewrite zlen_aset. split_and!; try lia. apply aget_aset_eq. lia.
  - unfold view; cbn. unfold zlen in Hd. unfold aset. rewrite take_take, length_take, take_insert_ge by lia.
    f_equal. lia.
Qed.
End FixedStringRefinement.

Section StaticVectorFacts.
Context {T : Type} `{Inhabited T} (Capacity : Z).
Import StaticVector.
Implicit Types v : StaticVector.t T.

Lemma zlen_elements v : wf Capacity v -> zlen (elements v) = size_ v.
Proof. intros [Hl Hs]. unfold elements. rewrite zlen_take. lia. Qed.

Lemma aget_elements v i : 0 <= i < size_ v -> (elements v).[i] = (values_ v).[i].
Proof. intros. unfold elements. apply aget_take. lia. Qed.

Lemma wf_new : 0 <= Capacity -> wf Capacity (new Capacity : StaticVector.t T).
Proof. intros. unfold wf, new; cbn. rewrite zlen_replicate. lia. Qed.

Lemma push_back_spec v x :
  wf Capacity v -> size_ v < Capacity ->
  wf Capacity (fst (push_back Capacity v x)) /\
  elements (fst (push_back Capacity v x)) = elements v ++ [x].
Proof.
  intros [Hl Hs] Hlt. unfold push_back, full. replace (size_ v =? Capacity) with false by lia.
  cbn. split; [unfold wf; cbn; rewrite zlen_aset; lia |].
  unfold elements; cbn. replace (Z.to_nat (size_ v + 1)) with (S (Z.to_nat (size_ v))) by lia.
  unfold zlen in Hl. unfold aset. rewrite (take_S_r _ _ x); [| apply list_lookup_insert_eq; lia].
  by rewrite take_insert_ge by lia.
Qed.

Lemma zlen_shift_down values i n : zlen (shift_down values i n : list T) = zlen values.
Proof.
  revert values i. induction n as [| n IH]; intros; [done |]. cbn. by rewrite IH, zlen_aset.
Qed.

Lemma aget_shift_down (values : list T) i n j :
  0 <= i -> i + Z.of_nat n < zlen values -> 0 <= j ->
  (shift_down values i n).[j] =
    if (i <=? j) && (j <? i + Z.of_nat n) then values.[j + 1] else values.[j].
Proof.
  revert values i. induction n as [| n IH]; intros values i Hi Hn Hj.
  { cbn [shift_down]. destruct (i <=? j) eqn:E1, (j <? i + Z.of_nat 0) eqn:E2; b2p; [lia | done..]. }
  cbn [shift_down]. rewrite IH by (rewrite ?zlen_aset; lia).
  destruct (i + 1 <=? j) eqn:E1, (j <? i + 1 + Z.of_nat n) eqn:E2; b2p; cbn [andb].
  - cmp. by rewrite aget_aset_ne by lia.
  - cmp. by rewrite aget_aset_ne by lia.
  - rewrite aget_aset by lia. destruct (Z.eqb_spec j i) as [-> |]; by cmp.
  - lia.
Qed.

Lemma erase_at_spec v i :
  wf Capacity v -> 0 <= i < size_ v ->
  wf Capacity (fst (erase_at v i)) /\
  elements (fst (erase_at v i)) = delete (Z.to_nat i) (elements v).
Proof.
  intros [Hl Hs] Hi. unfold erase_at. replace (size_ v <=? i) with false by lia.
  cbn. split; [unfold wf; cbn; rewrite zlen_shift_down; lia |].
  unfold elements; cbn. rewrite delete_take_drop. apply list_eq_aget.
  { autorewrite with kernel. rewrite zlen_shift_down. lia. }
  intros j Hj. rewrite zlen_take, zlen_shift_down in Hj.
  rewrite aget_take, aget_shift_down by lia.
  destruct (i <=? j) eqn:E; b2p; cbn [andb].
  - cmp.
    rewrite aget_app_r, aget_drop, aget_take by lens. f_equal. lens.
  - rewrite aget_app_l, !aget_take by lens. done.
Qed.

Lemma pop_back_vector_spec v :
  wf Capacity v -> 0 < size_ v ->
  wf Capacity (fst (pop_back v)) /\
  elements (fst (pop_back v)) = take (length (elements v) - 1) (elements v).
Proof.
  intros [Hl Hs] Hpos. unfold pop_back. replace (size_ v =? 0) with false by lia. cbn.
  split; [unfold wf; cbn; rewrite zlen_aset; lia |].
  unfold elements; cbn. unfold zlen in Hl. unfold aset.
  rewrite take_take, length_take, take_insert_ge by lia. f_equal. lia.
Qed.

(** One call of the vector against one call of the bounded list. *)
Lemma vector_step_refines v o :
  wf Capacity v -> VectorSpec.valid_op o ->
  let '(v', out) := VectorSpec.impl_step Capacity v o in
  let '(l', out') := VectorSpec.step Capacity (elements v) o in
  wf Capacity v' /\ elements v' = l' /\ out = out'.
Proof.
  intros Hwf Hv. pose proof (zlen_elements v Hwf) as Hlen. pose proof Hwf as [Hl Hs].
  destruct o as [x | | i |]; unfold VectorSpec.impl_step, VectorSpec.step.
  - rewrite Hlen. destruct (Z.ltb_spec (size_ v) Capacity).
    + destruct (push_back_spec v x Hwf ltac:(lia)) as [Hw He].
      unfold push_back, full in *. replace (size_ v =? Capacity) with false in * by lia.
      cbn [fst] in *. by rewrite He.
    + unfold push_back, full. by replace (size_ v =? Capacity) with true by lia.
  - destruct (Z.eq_dec (size_ v) 0) as [Hz | Hz].
    + unfold pop_back. rewrite Hz; cbn. unfold elements. by rewrite Hz.
    + destruct (pop_back_vector_spec v Hwf ltac:(lia)) as [Hw He].
      destruct (elements v) as [| y ys] eqn:Ev; [rewrite zlen_nil in Hlen; lia |].
      unfold pop_back in *. replace (size_ v =? 0) with false in * by lia.
      cbn [fst] in *. by rewrite He.
  - rewrite Hlen. destruct (Z.ltb_spec i (size_ v)) as [Hlt | Hge].
    + destruct (erase_at_spec v i Hwf) as [Hw He]; [cbn in Hv; lia |].
      unfold erase_at in *. replace (size_ v <=? i) with false in * by lia.
      cbn [fst] in *. by rewrite He.
    + unfold erase_at. by replace (size_ v <=? i) with true by lia.
  - unfold clear, elements, wf; cbn. rewrite take_0. split_and!; try done; lia.
Qed.
End StaticVectorFacts.

Section StaticQueueFacts.
Context {T : Type} `{Inhabited T} (Capacity : Z).
Import StaticQueue.
Implicit Types q : StaticQueue.t T.

Lemma queue_wf_new : 0 < Capacity -> wf Capacity (new Capacity : StaticQueue.t T).
Proof.
  intros. unfold wf, new; cbn. rewrite zlen_replicate.
  split_and!; try lia. by rewrite Z.mod_0_l by lia.
Qed.

Lemma zlen_contents q : wf Capacity q -> zlen (contents Capacity q) = size_ q.
Proof. intros (_ & _ & Hs & _). unfold contents. rewrite zlen_fmap, zlen_indices; lia. Qed.

Lemma aget_contents q i :
  wf Capacity q -> 0 <= i < size_ q ->
  (contents Capacity q).[i] = (values_ q).[(head_ q + i) mod Capacity].
Proof.
  intros (_ & _ & Hs & _) Hi. unfold contents.
  rewrite aget_fmap by (rewrite zlen_indices; lia). by rewrite aget_indices by lia.
Qed.

(** Distinct queue positions are distinct array cells. *)
Lemma ring_ne h i j c :
  0 < c -> 0 <= i < c -> 0 <= j < c -> i <> j -> (h + i) mod c <> (h + j) mod c.
Proof.
  intros Hc Hi Hj Hne Heq.
  pose proof (Z.div_mod (h + i) c ltac:(lia)) as H1.
  pose proof (Z.div_mod (h + j) c ltac:(lia)) as H2.
  rewrite Heq in H1. clear Heq. revert H1 H2.
  generalize ((h + i) / c) ((h + j) / c) ((h + j) mod c). intros a b m H1 H2.
  destruct (Z.lt_trichotomy a b) as [| []]; nia.
Qed.

Lemma push_spec q v :
  wf Capacity q -> size_ q < Capacity ->
  wf Capacity (fst (push Capacity q v)) /\
  contents Capacity (fst (push Capacity q v)) = contents Capacity q ++ [v].
Proof.
  intros Hwf Hlt. pose proof Hwf as (Hl & Hc & Hs & Hh & Ht).
  unfold push, full. replace (size_ q =? Capacity) with false by lia.
  assert (wf Capacity (mk (values_ q).[tail_ q := v] (head_ q) ((tail_ q + 1) mod Capacity)
                          (size_ q + 1))) as Hwf'.
  { unfold wf; cbn. rewrite zlen_aset. split_and!; try lia.
    rewrite Ht, Zplus_mod_idemp_l. f_equal. lia. }
  split; [done |]. cbn [fst]. apply list_eq_aget.
  { autorewrite with kernel. rewrite !zlen_contents by done. cbn. lia. }
  intros i Hi. rewrite zlen_contents in Hi by done. cbn in Hi.
  pose proof (Z.mod_pos_bound (head_ q + size_ q) Capacity Hc).
  rewrite aget_contents by (try done; cbn; lia). cbn.
  destruct (Z.eq_dec i (size_ q)) as [-> | Hne].
  - rewrite aget_app_r by (rewrite zlen_contents; [lia | done]).
    rewrite zlen_contents, Z.sub_diag by done.
    rewrite <- Ht, aget_aset_eq by lia. done.
  - rewrite aget_app_l by (rewrite zlen_contents; [lia | done]).
    pose proof (Z.mod_pos_bound (head_ q + i) Capacity Hc).
    rewrite aget_contents by (done || lia). rewrite aget_aset_ne; [done | lia | lia |].
    rewrite Ht. apply ring_ne; lia.
Qed.

Lemma pop_spec q :
  wf Capacity q -> 0 < size_ q ->
  exists x, snd (pop Capacity q) = Ok x /\ wf Capacity (fst (pop Capacity q)) /\
            contents Capacity q = x :: contents Capacity (fst (pop Capacity q)).
Proof.
  intros Hwf Hpos. pose proof Hwf as (Hl & Hc & Hs & Hh & Ht).
  unfold pop, empty. replace (size_ q =? 0) with false by lia. cbn [fst snd].
  exists (values_ q).[head_ q].
  assert (wf Capacity (mk (values_ q) ((head_ q + 1) mod Capacity) (tail_ q) (size_ q - 1))) as Hwf'.
  { unfold wf; cbn. pose proof (Z.mod_pos_bound (head_ q + 1) Capacity Hc).
    split_and!; try lia. rewrite Ht, Zplus_mod_idemp_l. f_equal. lia. }
  split_and!; [done | done |]. apply list_eq_aget.
  { autorewrite with kernel. rewrite !zlen_contents by done. cbn. lia. }
  intros i Hi. rewrite zlen_contents in Hi by done. rewrite aget_contents by done.
  destruct (Z.eq_dec i 0) as [-> | Hne].
  - rewrite Z.add_0_r, Z.mod_small by lia. done.
  - change (?x :: ?l) with ([x] ++ l).
    rewrite aget_app_r by (autorewrite with kernel; lia). autorewrite with kernel.
    rewrite aget_contents by (try done; cbn; lia). cbn.
    rewrite Zplus_mod_idemp_l. do 2 f_equal. lia.
Qed.

(** One call of the ring buffer against one call of the bounded queue. *)
Lemma queue_step_refines q o :
  wf Capacity q ->
  let '(q', out) := QueueSpec.impl_step Capacity q o in
  let '(l', out') := QueueSpec.step Capacity (contents Capacity q) o in
  wf Capacity q' /\ contents Capacity q' = l' /\ out = out'.
Proof.
  intros Hwf. pose proof (zlen_contents q Hwf) as Hlen. pose proof Hwf as (Hl & Hc & Hs & _).
  destruct o as [v |]; unfold QueueSpec.impl_step, QueueSpec.step.
  - rewrite Hlen. destruct (Z.ltb_spec (size_ q) Capacity) as [Hlt | Hge].
    + destruct (push_spec q v Hwf Hlt) as [Hw He]. unfold push, full in *.
      replace (size_ q =? Capacity) with false in * by lia. done.
    + unfold push, full. by replace (size_ q =? Capacity) with true by lia.
  - destruct (Z.eq_dec (size_ q) 0) as [Hz | Hz].
    + assert (contents Capacity q = []) as Hnil by (unfold contents; by rewrite Hz).
      unfold pop, empty. rewrite Hz, Hnil. cbn. done.
    + destruct (pop_spec q Hwf ltac:(lia)) as (x & Hr & Hw & He). rewrite He.
      destruct (pop Capacity q) as [q' r]. cbn in *. by subst r.
Qed.
End StaticQueueFacts.

(** A step-wise refinement lifts to scripts. *)
Section Lifting.
Context {SI SA Op Out : Type} (stepI : SI -> Op -> SI * Out) (stepA : SA -> Op -> SA * Out).
Context (R : SI -> SA -> Prop) (valid : Op -> Prop).
Hypothesis step_refines : forall si sa o, R si sa -> valid o ->
  R (fst (stepI si o)) (fst (stepA sa o)) /\ snd (stepI si o) = snd (stepA sa o).

Lemma run_refines si sa ops :
  R si sa -> Forall valid ops -> run stepI si ops = run stepA sa ops.
Proof.
  revert si sa. induction ops as [| o ops IH]; intros si sa HR Hv; [done |].
  inversion_clear Hv as [| ? ? Hvo Hvs].
  destruct (step_refines si sa o HR Hvo) as [HR' Hout]. cbn.
  destruct (stepI si o) as [si' out], (stepA sa o) as [sa' out']. cbn in *. subst out'.
  f_equal. by apply IH.
Qed.
End Lifting.

Section Traces.
Context {T : Type} `{Inhabited T} (Capacity : Z).

(** A StaticQueue is a bounded FIFO: for every script of push() and
    pop() calls on a new queue, the statuses and values the caller sees are
    those of a list with that capacity. *)
Theorem static_queue_is_bounded_fifo (ops : list (QueueSpec.op T)) :
  0 < Capacity ->
  run (QueueSpec.impl_step Capacity) (StaticQueue.new Capacity) ops =
  run (QueueSpec.step Capacity) [] ops.
Proof.
  intros Hc. apply run_refines
    with (R := fun q l => StaticQueue.wf Capacity q /\ StaticQueue.contents Capacity q = l)
         (valid := fun _ => True); [| split; [by apply queue_wf_new | done] | by apply Forall_true].
  intros q l o [Hwf <-] _. pose proof (queue_step_refines Capacity q o Hwf) as Hstep.
  destruct (QueueSpec.impl_step Capacity q o), (QueueSpec.step Capacity _ o). by destruct Hstep as (? & ? & ?).
Qed.

(** A StaticVector is a bounded list: for every script of push_back(),
    pop_back(), erase_at() and clear() calls on a new vector, the statuses and
    the elements between begin() and end() are those of a list with that
    capacity. *)
Theorem static_vector_is_bounded_list (ops : list (VectorSpec.op T)) :
  0 <= Capacity -> Forall VectorSpec.valid_op ops ->
  run (VectorSpec.impl_step Capacity) (StaticVector.new Capacity) ops =
  run (VectorSpec.step Capacity) [] ops.
Proof.
  intros Hc Hv. apply run_refines
    with (R := fun v l => StaticVector.wf Capacity v /\ StaticVector.elements v = l)
         (valid := VectorSpec.valid_op); [| split; [by apply wf_new | done] | done].
  intros v l o [Hwf <-] Ho. pose proof (vector_step_refines Capacity v o Hwf Ho) as Hstep.
  destruct (VectorSpec.impl_step Capacity v o), (VectorSpec.step Capacity _ o). by destruct Hstep as (? & ? & ?).
Qed.
End Traces.

(** ** Witnesses *)
Lemma static_queue_witness :
  run (QueueSpec.impl_step 2) (StaticQueue.new 2) [QueueSpec.Push 7; QueueSpec.Push 8; QueueSpec.Push 9; QueueSpec.Pop] =
  [QueueSpec.Pushed StatusCode.ok; QueueSpec.Pushed StatusCode.ok; QueueSpec.Pushed StatusCode.would_block;
   QueueSpec.Popped (Ok 7)].
Proof. rewrite (static_queue_is_bounded_fifo 2); [reflexivity | lia]. Defined.

Lemma static_vector_witness :
  run (VectorSpec.impl_step 2) (StaticVector.new 2) [VectorSpec.PushBack 7; VectorSpec.PushBack 8; VectorSpec.EraseAt 0] =
  [(StatusCode.ok, [7]); (StatusCode.ok, [7; 8]); (StatusCode.ok, [8])].
Proof.
  rewrite (static_vector_is_bounded_list 2); [reflexivity | lia |].
  repeat constructor; cbn; lia.
Defined.
