(* ===== verification/Charges.v ===== *)
(** * Charge accounts (include/ok/memory/charges.hpp)

    Per-owner accounting with an optional limit.  The invariant [wf] keeps the
    usage within the limit and the counter, and the peak above the usage. *)

From S2P Require Import Prelude.

Module ChargeAccount.
Section Defs.
Context `{Arch}.

Record t := mk {
  limit_ : Z;   (* 0 means unlimited *)
  used_ : Z;
  peak_ : Z
}.

Definition new (limit : Z) : t := mk limit 0 0.

Definition charge (a : t) (units : Z) : t * Status :=
  if usize_max - used_ a <? units then (a, StatusCode.overflow)
  else if negb (limit_ a =? 0) && (limit_ a <? used_ a + units) then (a, StatusCode.no_memory)
  else
    let used := used_ a + units in
    (mk (limit_ a) used (if peak_ a <? used then used else peak_ a), StatusCode.ok).

Definition uncharge (a : t) (units : Z) : t * bool :=
  if used_ a <? units then (a, false)
  else (mk (limit_ a) (used_ a - units) (peak_ a), true).

Definition set_limit (a : t) (limit : Z) : t * Status :=
  if negb (limit =? 0) && (limit <? used_ a) then (a, StatusCode.busy)
  else (mk limit (used_ a) (peak_ a), StatusCode.ok).

Definition used (a : t) : Z := used_ a.
Definition limit (a : t) : Z := limit_ a.
Definition peak (a : t) : Z := peak_ a.

Definition wf (a : t) : Prop :=
  0 <= used_ a <= usize_max /\ 0 <= limit_ a <= usize_max /\
  (limit_ a = 0 \/ used_ a <= limit_ a) /\ used_ a <= peak_ a <= usize_max.
End Defs.
End ChargeAccount.

(** ** Theorems *)
Section Facts.
Context `{Arch}.
Import ChargeAccount.

Lemma charge_ok a n a' : charge a n = (a', StatusCode.ok) -> used_ a' = used_ a + n.
Proof. unfold charge. repeat case_cond; intros [= <-]; done. Qed.

Lemma charge_err a n a' e : charge a n = (a', e) -> e <> StatusCode.ok -> a' = a.
Proof. unfold charge. repeat case_cond; intros [= <- <-]; done. Qed.

Lemma charge_wf a n a' e : wf a -> 0 <= n -> charge a n = (a', e) -> wf a'.
Proof.
  intros (Hu & Hl & Hlim & Hp) Hn. unfold charge.
  destruct (usize_max - used_ a <? n) eqn:E1; [by intros [= <- <-] |].
  destruct (negb _ && _) eqn:E2; [by intros [= <- <-] |].
  intros [= <- <-]. unfold wf; cbn. b2p.
  assert (limit_ a = 0 \/ used_ a + n <= limit_ a) by (destruct E2; b2p; lia).
  destruct (peak_ a <? used_ a + n) eqn:E3; b2p; lia.
Qed.

Lemma uncharge_spec a n : n <= used_ a ->
  uncharge a n = (mk (limit_ a) (used_ a - n) (peak_ a), true).
Proof. intros. unfold uncharge. by cmp. Qed.

Lemma uncharge_wf a n a' b : wf a -> 0 <= n -> uncharge a n = (a', b) -> wf a'.
Proof.
  intros (Hu & Hl & Hlim & Hp) Hn. unfold uncharge.
  destruct (used_ a <? n) eqn:E; intros [= <- <-]; [done |].
  b2p. unfold wf; cbn. lia.
Qed.

Lemma uncharge_wf_fst a n : wf a -> 0 <= n -> wf (fst (uncharge a n)).
Proof. intros. destruct (uncharge a n) eqn:E. by eapply uncharge_wf. Qed.

Lemma set_limit_wf a l a' e : wf a -> 0 <= l <= usize_max -> set_limit a l = (a', e) -> wf a'.
Proof.
  intros (Hu & Hl & Hlim & Hp) Hr. unfold set_limit.
  destruct (negb (l =? 0) && (l <? used_ a)) eqn:E; intros [= <- <-]; [done |].
  b2p. unfold wf; cbn. destruct E; b2p; lia.
Qed.

(** Charging and uncharging the same units restores the usage. *)
Lemma charge_uncharge a n a' :
  wf a -> 0 <= n -> charge a n = (a', StatusCode.ok) ->
  exists a'', uncharge a' n = (a'', true) /\ used_ a'' = used_ a /\ limit_ a'' = limit_ a.
Proof.
  intros (Hu & _) Hn Hc. pose proof (charge_ok _ _ _ Hc) as Hu'.
  exists (mk (limit_ a') (used_ a' - n) (peak_ a')). split; [apply uncharge_spec; lia |].
  split; [cbn; lia |]. revert Hc. unfold charge. repeat case_cond; by intros [= <-].
Qed.

Lemma charge_undone a n a' : wf a -> 0 <= n -> charge a n = (a', StatusCode.ok) ->
  wf (fst (uncharge a' n)) /\ used (fst (uncharge a' n)) = used a.
Proof.
  intros Hwf Hn Hc. destruct (charge_uncharge a n a' Hwf Hn Hc) as (a'' & E & Hu & _). pose proof (charge_wf _ _ _ _ Hwf Hn Hc) as Hwf'.
  rewrite E. split; [by apply (uncharge_wf _ _ _ _ Hwf' Hn E) | done].
Qed.

Lemma uncharge_ok a n : wf a -> 0 <= n <= used a -> wf (fst (uncharge a n)) /\ used (fst (uncharge a n)) = used a - n.
Proof. intros Hwf Hn. split; [apply uncharge_wf_fst; [done | lia] |]. rewrite uncharge_spec by apply Hn. done. Qed.

Lemma used_nonneg a : wf a -> 0 <= used a.
Proof. by intros [[? _] _]. Qed.
End Facts.
