(* ===== verification/Regions.v ===== *)
(** * Physical regions (include/ok/memory/frames.hpp)

    The region descriptions shared by memory maps and the frame allocator, and
    the byte-level meaning of a set of regions: a byte is free when a usable
    region covers it and no other region does ("reservations always win"). *)

From S2P Require Import Prelude.

Module RegionType.
Inductive t : Set := usable | reserved | device_mmio | kernel_image.
#[global] Instance t_eq_dec : EqDecision t.
Proof. solve_decision. Defined.
Definition is_usable (x : t) : bool := match x with usable => true | _ => false end.
End RegionType.

Module MemoryRegion.
Record t := mk {
  base : Z;   (* uptr *)
  size : Z;   (* usize *)
  type : RegionType.t
}.
#[global] Instance t_inhabited : Inhabited t := populate (mk 0 0 RegionType.reserved).

(** [usable] on the type. *)
Definition usable (r : t) : bool := RegionType.is_usable (type r).

(** The region covers the byte at [a]. *)
Definition covers (r : t) (a : Z) : bool := (base r <=? a) && (a <? base r + size r).
End MemoryRegion.

(** The byte-level meaning of a region set. *)
Definition byte_usable (regions : list MemoryRegion.t) (a : Z) : bool :=
  existsb (fun r => MemoryRegion.usable r && MemoryRegion.covers r a) regions.
Definition byte_reserved (regions : list MemoryRegion.t) (a : Z) : bool :=
  existsb (fun r => negb (MemoryRegion.usable r) && MemoryRegion.covers r a) regions.
Definition byte_free (regions : list MemoryRegion.t) (a : Z) : bool :=
  byte_usable regions a && negb (byte_reserved regions a).

(** Base and size are machine words. *)
Definition region_ok `{Arch} (r : MemoryRegion.t) : Prop :=
  0 <= MemoryRegion.base r <= usize_max /\ 0 <= MemoryRegion.size r <= usize_max.
