(* ===== verification/Sweep.v ===== *)
(** * The usable-page sweep (src/memory/memory.cpp, sweep_usable and count_usable)

    The boot memory sweep: from an unordered, overlapping region list it emits
    the runs of whole pages that are free, in ascending order.  The main result
    is that the emitted pages are exactly the pages all of whose bytes are
    free; the loop's fuel is one more than the number of region boundaries. *)

From S2P Require Import Prelude Regions.
Import MemoryRegion.

Section Sweep.
Context `{Arch}.

(** The check of every region and the lowest base of a nonempty one. *)
Fixpoint sweep_start (regions : list MemoryRegion.t) (cursor : Z) : result Z :=
  match regions with
  | [] => Ok cursor
  | r :: rest =>
      if usize_max - base r <? size r then Err StatusCode.overflow
      else sweep_start rest (if negb (size r =? 0) && (base r <? cursor) then base r else cursor)
  end.

(** What one pass over the regions computes at [cursor]. *)
Record scan := mk_scan {
  sc_usable : bool;
  sc_reserved : bool;
  sc_found : bool;
  sc_next : Z
}.

Definition scan_boundary (cursor : Z) (s : scan) (boundary : Z) : scan :=
  if (cursor <? boundary) && (negb (sc_found s) || (boundary <? sc_next s))
  then mk_scan (sc_usable s) (sc_reserved s) true boundary
  else s.

Definition scan_region (cursor : Z) (s : scan) (r : MemoryRegion.t) : scan :=
  if size r =? 0 then s
  else
    let end_ := usize_wrap (base r + size r) in
    let s := if (base r <=? cursor) && (cursor <? end_)
             then mk_scan (sc_usable s || usable r) (sc_reserved s || negb (usable r))
                          (sc_found s) (sc_next s)
             else s in
    fold_left (scan_boundary cursor) [base r; end_] s.

Definition scan_regions (regions : list MemoryRegion.t) (cursor : Z) : scan :=
  fold_left (scan_region cursor) regions (mk_scan false false false usize_max).

Section Emit.
Context {A : Type} (page_size : Z) (emit : A -> Z -> Z -> A * Status).

(** The [append] lambda: the whole pages inside the byte run [start, end_). *)
Definition append (acc : A) (start end_ : Z) : A * Status :=
  let adjustment := (page_size - start mod page_size) mod page_size in
  if end_ - start <=? adjustment then (acc, StatusCode.ok)
  else
    let start := start + adjustment in
    let end_ := end_ - end_ mod page_size in
    if end_ <=? start then (acc, StatusCode.ok)
    else emit acc start ((end_ - start) / page_size).

Fixpoint sweep_loop (fuel : nat) (regions : list MemoryRegion.t) (acc : A)
    (cursor : Z) (in_usable_run : bool) (run_start : Z) : A * Status :=
  let s := scan_regions regions cursor in
  match fuel with
  | S fuel' =>
      if negb (sc_found s)
      then if in_usable_run then append acc run_start cursor else (acc, StatusCode.ok)
      else if sc_usable s && negb (sc_reserved s)
      then sweep_loop fuel' regions acc (sc_next s) true
             (if in_usable_run then run_start else cursor)
      else if in_usable_run
      then
        let '(acc', status) := append acc run_start cursor in
        if status_ok status then sweep_loop fuel' regions acc' (sc_next s) false run_start
        else (acc', status)
      else sweep_loop fuel' regions acc (sc_next s) false run_start
  | O => if in_usable_run then append acc run_start cursor else (acc, StatusCode.ok)
  end.

Definition sweep_usable (regions : list MemoryRegion.t) (acc : A) : A * Status :=
  if negb (is_pow2b page_size) then (acc, StatusCode.invalid_argument)
  else
    match sweep_start regions usize_max with
    | Err e => (acc, e)
    | Ok cursor => sweep_loop (S (2 * length regions)) regions acc cursor false 0
    end.
End Emit.

(** struct SweepTotals. *)
Record SweepTotals := mk_totals { frames : Z; ranges : Z }.

(** sizeof(PageDescriptor), sizeof(FrameAllocator::FrameRange), metadata_alignment. *)
Definition sizeof_PageDescriptor : Z := 16.
Definition sizeof_FrameRange : Z := 3 * (word_bits / 8).
Definition metadata_alignment : Z := 8.

Definition count_emit (totals : SweepTotals) (_base count : Z) : SweepTotals * Status :=
  if usize_max - frames totals <? count then (totals, StatusCode.overflow)
  else (mk_totals (frames totals + count) (ranges totals + 1), StatusCode.ok).

Definition count_usable (regions : list MemoryRegion.t) (page_size : Z) : result SweepTotals :=
  let '(totals, status) := sweep_usable page_size count_emit regions (mk_totals 0 0) in
  if negb (status_ok status) then Err status
  else if frames totals =? 0 then Err StatusCode.no_memory
  else if ((usize_max - metadata_alignment) / (sizeof_PageDescriptor + 1) <? frames totals)
          || (usize_max / sizeof_FrameRange / 2 <? ranges totals)
  then Err StatusCode.overflow
  else Ok totals.

(** ** Specification *)

(** The maximal runs of free bytes the loop hands to [append]. *)
Fixpoint byte_runs (fuel : nat) (regions : list MemoryRegion.t)
    (cursor : Z) (in_run : bool) (run_start : Z) : list (Z * Z) :=
  let s := scan_regions regions cursor in
  match fuel with
  | S fuel' =>
      if negb (sc_found s) then if in_run then [(run_start, cursor)] else []
      else if sc_usable s && negb (sc_reserved s)
      then byte_runs fuel' regions (sc_next s) true (if in_run then run_start else cursor)
      else if in_run
      then (run_start, cursor) :: byte_runs fuel' regions (sc_next s) false run_start
      else byte_runs fuel' regions (sc_next s) false run_start
  | O => if in_run then [(run_start, cursor)] else []
  end.

(** Feeding a list of runs to a fallible consumer, stopping at the first error. *)
Fixpoint feed {A B} (f : A -> B -> A * Status) (acc : A) (l : list B) : A * Status :=
  match l with
  | [] => (acc, StatusCode.ok)
  | x :: rest => let '(acc', status) := f acc x in
                 if status_ok status then feed f acc' rest else (acc', status)
  end.

(** The whole pages of a byte run, if it holds any: (first address, pages). *)
Definition run_pages (page_size : Z) (run : Z * Z) : list (Z * Z) :=
  let start := run.1 + (page_size - run.1 mod page_size) mod page_size in
  let end_ := run.2 - run.2 mod page_size in
  if run.2 - run.1 <=? (page_size - run.1 mod page_size) mod page_size then []
  else if end_ <=? start then [] else [(start, (end_ - start) / page_size)].

(** The page runs of a region list. *)
Definition page_runs (regions : list MemoryRegion.t) (page_size : Z) : list (Z * Z) :=
  match sweep_start regions usize_max with
  | Ok cursor => flat_map (run_pages page_size) (byte_runs (S (2 * length regions)) regions cursor false 0)
  | Err _ => []
  end.

(** The page at [p] belongs to one of the runs. *)
Definition page_in (page_size : Z) (runs : list (Z * Z)) (p : Z) : Prop :=
  exists b n, (b, n) ∈ runs /\ b <= p < b + n * page_size.

(** Ascending, disjoint, aligned, nonempty page runs inside the address space. *)
Fixpoint runs_ok (page_size : Z) (low : Z) (runs : list (Z * Z)) : Prop :=
  match runs with
  | [] => True
  | (b, n) :: rest =>
      low <= b /\ b mod page_size = 0 /\ 0 < n /\ b + n * page_size <= usize_max /\
      runs_ok page_size (b + n * page_size) rest
  end.
End Sweep.

(** ** Theorems *)
Section SweepFacts.
Context `{Arch}.
Implicit Types regions : list MemoryRegion.t.

(** What [sweep_start] has checked: no region wraps the address space. *)
Definition no_wrap (r : MemoryRegion.t) : Prop :=
  0 <= base r /\ 0 <= size r /\ base r + size r <= usize_max.

Definition is_boundary regions (b : Z) : Prop :=
  exists r, r ∈ regions /\ size r <> 0 /\ (b = base r \/ b = base r + size r).

Lemma byte_usable_snoc regions r a :
  byte_usable (regions ++ [r]) a = byte_usable regions a || (usable r && covers r a).
Proof. unfold byte_usable. rewrite existsb_app. cbn. by rewrite orb_false_r. Qed.

Lemma byte_reserved_snoc regions r a :
  byte_reserved (regions ++ [r]) a = byte_reserved regions a || (negb (usable r) && covers r a).
Proof. unfold byte_reserved. rewrite existsb_app. cbn. by rewrite orb_false_r. Qed.

Lemma is_boundary_snoc regions r b :
  is_boundary (regions ++ [r]) b <->
  is_boundary regions b \/ (size r <> 0 /\ (b = base r \/ b = base r + size r)).
Proof.
  unfold is_boundary. split.
  - intros (x & [Hx | ->%list_elem_of_singleton]%elem_of_app & Hsz & Hb); [left; eauto | by right].
  - intros [(x & Hx & Hsz & Hb) | [Hsz Hb]].
    + exists x. rewrite elem_of_app. auto.
    + exists r. rewrite elem_of_app, list_elem_of_singleton. auto.
Qed.

(** [sc_next] is the least boundary of the set [P] above the cursor, if any. *)
Definition next_spec (cursor : Z) (P : Z -> Prop) (s : scan) : Prop :=
  if sc_found s
  then cursor < sc_next s /\ P (sc_next s) /\ forall b, P b -> cursor < b -> sc_next s <= b
  else forall b, P b -> b <= cursor.

Lemma scan_boundary_next cursor P s b :
  next_spec cursor P s -> next_spec cursor (fun x => P x \/ x = b) (scan_boundary cursor s b).
Proof.
  unfold next_spec, scan_boundary. destruct (sc_found s) eqn:Ef.
  - intros (Hlt & HP & Hmin). cbn [negb orb].
    destruct ((cursor <? b) && (b <? sc_next s)) eqn:E; cbn [sc_found sc_next].
    + b2p. split_and!; [lia | by right |]. intros x [Hx | ->] Hcx; [| lia].
      specialize (Hmin x Hx Hcx). lia.
    + rewrite Ef. split_and!; [done | by left |]. intros x [Hx | ->] Hcx; [by apply Hmin |].
      b2p. destruct E; b2p; lia.
  - intros Hall. cbn [negb orb]. destruct (cursor <? b) eqn:E; cbn [andb sc_found sc_next].
    + b2p. split_and!; [lia | by right |]. intros x [Hx | ->] Hcx; [| lia].
      specialize (Hall x Hx). lia.
    + rewrite Ef. b2p. intros x [Hx | ->]; [by apply Hall | lia].
Qed.

Lemma scan_boundary_flags cursor s b :
  sc_usable (scan_boundary cursor s b) = sc_usable s /\
  sc_reserved (scan_boundary cursor s b) = sc_reserved s.
Proof. unfold scan_boundary. by case_match. Qed.

Lemma next_spec_iff cursor (P Q : Z -> Prop) s :
  (forall x, P x <-> Q x) -> next_spec cursor P s -> next_spec cursor Q s.
Proof.
  unfold next_spec. intros HPQ. destruct (sc_found s).
  - intros (? & ? & ?). split_and!; [done | by apply HPQ |]. intros b Hb. apply HPQ in Hb. auto.
  - intros Hall b Hb. by apply Hall, HPQ.
Qed.

Lemma scan_regions_snoc regions r cursor :
  scan_regions (regions ++ [r]) cursor = scan_region cursor (scan_regions regions cursor) r.
Proof. unfold scan_regions. by rewrite fold_left_app. Qed.

Lemma scan_regions_spec regions cursor :
  Forall no_wrap regions -> 0 <= cursor ->
  let s := scan_regions regions cursor in
  sc_usable s = byte_usable regions cursor /\
  sc_reserved s = byte_reserved regions cursor /\
  next_spec cursor (is_boundary regions) s.
Proof.
  intros Hok Hc. induction regions as [| r regions IH] using rev_ind.
  { cbn. split_and!; try done. intros b (r & Hr & _). by apply not_elem_of_nil in Hr. }
  apply Forall_app in Hok as [Hok Hr]. apply Forall_singleton in Hr as (Hb & Hs & Hend).
  destruct (IH Hok) as (Hu & Hres & Hnext). clear IH.
  rewrite scan_regions_snoc, byte_usable_snoc, byte_reserved_snoc.
  set (s := scan_regions regions cursor) in *.
  unfold scan_region. destruct (size r =? 0) eqn:Ez; b2p.
  { assert (covers r cursor = false) as -> by (unfold covers; destruct (base r <=? cursor) eqn:?; b2p; cmp; done).
    rewrite !andb_false_r, !orb_false_r. split_and!; [done | done |].
    eapply next_spec_iff; [| exact Hnext]. intros x. rewrite is_boundary_snoc. tauto. }
  rewrite usize_wrap_small by lia. cbn [fold_left].
  fold (covers r cursor).
  set (s1 := if covers r cursor then _ else s).
  assert (sc_usable s1 = byte_usable regions cursor || (usable r && covers r cursor)) as Hu1.
  { unfold s1. rewrite <- Hu. destruct (covers r cursor); cbn; [by rewrite andb_true_r |].
    by rewrite andb_false_r, orb_false_r. }
  assert (sc_reserved s1 = byte_reserved regions cursor || (negb (usable r) && covers r cursor)) as Hr1.
  { unfold s1. rewrite <- Hres. destruct (covers r cursor); cbn; [by rewrite andb_true_r |].
    by rewrite andb_false_r, orb_false_r. }
  assert (next_spec cursor (is_boundary regions) s1) as Hn1.
  { unfold s1. by destruct (covers r cursor). }
  rewrite !(proj1 (scan_boundary_flags _ _ _)), !(proj2 (scan_boundary_flags _ _ _)).
  split_and!; [done | done |].
  eapply next_spec_iff; [| apply scan_boundary_next, scan_boundary_next, Hn1].
  intros x. rewrite is_boundary_snoc. tauto.
Qed.

(** Between two neighbouring boundaries nothing changes. *)
Lemma covers_const r c n a :
  no_wrap r -> (size r <> 0 -> forall b, b = base r \/ b = base r + size r -> c < b -> n <= b) ->
  c <= a < n -> covers r a = covers r c.
Proof.
  intros (Hb & Hs & He) Hnb Ha. unfold covers. destruct (Z.eq_dec (size r) 0) as [Hz | Hz].
  { rewrite Hz, Z.add_0_r. destruct (base r <=? a) eqn:?, (base r <=? c) eqn:?; b2p; first [lia | by cmp]. }
  pose proof (Hnb Hz _ (or_introl eq_refl)). pose proof (Hnb Hz _ (or_intror eq_refl)).
  destruct (base r <=? c) eqn:?, (c <? base r + size r) eqn:?; b2p; first [lia | by cmp].
Qed.

Lemma existsb_ext_in {X} (f g : X -> bool) l :
  (forall x, x ∈ l -> f x = g x) -> existsb f l = existsb g l.
Proof.
  induction l as [| x l IH]; intros Hfg; [done |]. cbn.
  rewrite (Hfg x), IH; [done | |]; intros; try apply Hfg; set_unfold; auto.
Qed.

Lemma byte_free_const regions c n a :
  Forall no_wrap regions -> (forall b, is_boundary regions b -> c < b -> n <= b) ->
  c <= a < n -> byte_free regions a = byte_free regions c.
Proof.
  intros Hok Hnb Ha. unfold byte_free, byte_usable, byte_reserved.
  assert (forall r, r ∈ regions -> covers r a = covers r c) as Hcov.
  { intros r Hr. apply covers_const with n; [by eapply Forall_forall in Hr | | done].
    intros Hsz b Hb. apply Hnb. by exists r. }
  f_equal; [| f_equal]; apply existsb_ext_in; intros r Hr; by rewrite Hcov.
Qed.

(** No byte is free above the last boundary or below the first base. *)
Lemma byte_free_above regions c a :
  Forall no_wrap regions -> (forall b, is_boundary regions b -> b <= c) -> c <= a ->
  byte_free regions a = false.
Proof.
  intros Hok Hnb Ha. unfold byte_free. apply andb_false_iff. left. unfold byte_usable.
  apply not_true_is_false. intros (r & Hr & Hc)%existsb_exists.
  apply list_elem_of_In in Hr. pose proof (proj1 (Forall_forall _ _) Hok r Hr) as (Hb & Hs & He).
  unfold covers in Hc. b2p.
  assert (base r + size r <= c) by (apply Hnb; exists r; split_and!; [done | lia | by right]). lia.
Qed.

(** The boundaries as a list, and how many lie above the cursor: the measure. *)
Definition boundaries regions : list Z := flat_map (fun r => [base r; base r + size r]) regions.
Definition above (c : Z) (l : list Z) : nat := length (List.filter (fun b => c <? b) l).

Lemma is_boundary_In regions b : is_boundary regions b -> In b (boundaries regions).
Proof.
  intros (r & Hr & _ & Hb). apply in_flat_map. exists r. rewrite <- list_elem_of_In.
  split; [done |]. cbn. destruct Hb as [-> | ->]; auto.
Qed.

Lemma above_le c l : (above c l <= length l)%nat.
Proof. unfold above. apply filter_length_le. Qed.

Lemma length_boundaries regions : length (boundaries regions) = (2 * length regions)%nat.
Proof.
  unfold boundaries. induction regions as [| r l IH]; [done |].
  cbn [flat_map]. rewrite length_app, IH. cbn [length]. lia.
Qed.

Lemma above_mono c n l : c <= n -> (above n l <= above c l)%nat.
Proof.
  intros Hcn. unfold above. induction l as [| b l IH]; cbn [List.filter]; [done |].
  destruct (n <? b) eqn:?, (c <? b) eqn:?; b2p; cbn [length]; lia.
Qed.

Lemma above_lt c n l : c < n -> In n l -> (above n l < above c l)%nat.
Proof.
  intros Hcn. induction l as [| b l IH]; cbn; [done |]. pose proof (above_mono c n l).
  unfold above in *. cbn [List.filter]. intros [-> | Hin].
  - cmp. cbn [length]. lia.
  - specialize (IH Hin). destruct (n <? b) eqn:?, (c <? b) eqn:?; b2p; cbn [length]; lia.
Qed.

(** The runs of [byte_runs]: ascending and separated, each delimited by bytes
    that are not free. *)
Fixpoint separated (free : Z -> bool) (low : Z) (runs : list (Z * Z)) : Prop :=
  match runs with
  | [] => True
  | (s, e) :: rest => low <= s /\ s < e <= usize_max /\ free e = false /\ separated free (e + 1) rest
  end.

Definition in_runs (runs : list (Z * Z)) (a : Z) : Prop :=
  exists s e, (s, e) ∈ runs /\ s <= a < e.

Lemma in_runs_cons s e runs a : in_runs ((s, e) :: runs) a <-> s <= a < e \/ in_runs runs a.
Proof.
  unfold in_runs. split.
  - intros (s' & e' & [[= -> ->] | Hin]%elem_of_cons & Ha); [by left | right; eauto].
  - intros [Ha | (s' & e' & Hin & Ha)]; [exists s, e | exists s', e']; rewrite elem_of_cons; auto.
Qed.

Lemma separated_weaken free low low' runs :
  low' <= low -> separated free low runs -> separated free low' runs.
Proof. destruct runs as [| [s e] runs]; cbn; [done |]. intros. split_and!; try tauto; lia. Qed.

Lemma separated_low free low runs a : separated free low runs -> in_runs runs a -> low <= a.
Proof.
  revert low. induction runs as [| [s e] runs IH]; intros low.
  - intros _ (? & ? & Hx & _). by apply not_elem_of_nil in Hx.
  - intros (? & ? & ? & Hsep) [? | Hin]%in_runs_cons; [lia |]. specialize (IH _ Hsep Hin). lia.
Qed.

Lemma is_boundary_le regions b : Forall no_wrap regions -> is_boundary regions b -> b <= usize_max.
Proof.
  intros Hok (r & Hr & _ & Hb). pose proof (proj1 (Forall_forall _ _) Hok r Hr) as (? & ? & ?). lia.
Qed.

(** A run that ends at [cursor], in front of exact runs from there on. *)
Lemma run_closed free start cursor runs : start < cursor <= usize_max -> free cursor = false ->
  (forall a, start <= a < cursor -> free a = true) -> separated free (cursor + 1) runs ->
  (forall a, cursor <= a -> in_runs runs a <-> free a = true) ->
  separated free start ((start, cursor) :: runs) /\ forall a, start <= a -> (in_runs ((start, cursor) :: runs) a <-> free a = true).
Proof.
  intros Hlt Hend Hrun Hsep Hin. split; [cbn; split_and!; done || lia |].
  intros a Ha. rewrite in_runs_cons. destruct (Z.lt_ge_cases a cursor) as [Hac | Hac].
  - rewrite Hrun by lia. split; [done |]. intros _. left; lia.
  - rewrite <- Hin by lia. split; [intros [? | ?]; [lia | done] | by right].
Qed.

(** With fuel above the measure, [byte_runs] lists exactly the free bytes. *)
Lemma byte_runs_spec fuel regions cursor in_run run_start :
  Forall no_wrap regions -> 0 <= cursor <= usize_max ->
  (above cursor (boundaries regions) < fuel)%nat ->
  (in_run = true -> run_start < cursor /\ forall a, run_start <= a < cursor -> byte_free regions a = true) ->
  let low := if in_run then run_start else cursor in
  let runs := byte_runs fuel regions cursor in_run run_start in
  separated (byte_free regions) low runs /\
  forall a, low <= a -> (in_runs runs a <-> byte_free regions a = true).
Proof.
  intros Hok. revert cursor in_run run_start.
  induction fuel as [| fuel IH]; intros cursor in_run run_start Hc Hfuel Hrun; [lia |].
  cbn [byte_runs].
  destruct (scan_regions_spec regions cursor Hok ltac:(lia)) as (Hu & Hr & Hn).
  set (s := scan_regions regions cursor) in *.
  assert (sc_usable s && negb (sc_reserved s) = byte_free regions cursor) as Hfree
    by (rewrite Hu, Hr; done).
  unfold next_spec in Hn. destruct (sc_found s); cbn [negb].
  - destruct Hn as (Hlt & Hbn & Hmin).
    pose proof (is_boundary_le _ _ Hok Hbn).
    assert (above (sc_next s) (boundaries regions) < fuel)%nat as Hfuel'.
    { pose proof (above_lt cursor (sc_next s) (boundaries regions) Hlt (is_boundary_In _ _ Hbn)). lia. }
    assert (forall a, cursor <= a < sc_next s -> byte_free regions a = byte_free regions cursor) as Hconst
      by (intros; by apply byte_free_const with (sc_next s)).
    rewrite Hfree. destruct (byte_free regions cursor) eqn:Ef.
    + specialize (IH (sc_next s) true (if in_run then run_start else cursor)
                     ltac:(lia) Hfuel').
      cbn zeta in IH. assert (low_eq : (if in_run then run_start else cursor) <= cursor)
        by (destruct in_run; [destruct (Hrun eq_refl) |]; lia).
      apply IH. intros _. split; [lia |]. intros a Ha.
      destruct (Z.lt_ge_cases a cursor).
      * destruct in_run; [apply (Hrun eq_refl); lia | lia].
      * apply Hconst; lia.
    + destruct (IH (sc_next s) false run_start ltac:(lia) Hfuel' ltac:(done)) as [Hsep Hin].
      assert (forall a, cursor <= a -> in_runs (byte_runs fuel regions (sc_next s) false run_start) a <->
                byte_free regions a = true) as Hin'.
      { intros a Ha. destruct (Z.lt_ge_cases a (sc_next s)) as [Han | Han]; [| by apply Hin].
        rewrite Hconst by lia. split; [| done]. intros Hr'.
        pose proof (separated_low _ _ _ _ Hsep Hr'). lia. }
      destruct in_run; cbn zeta.
      * destruct (Hrun eq_refl) as [Hrs Hrf]. apply run_closed; try done; [lia |]. eapply separated_weaken; [| exact Hsep]. lia.
      * split; [eapply separated_weaken; [| exact Hsep]; lia |]. done.
  - assert (forall a, cursor <= a -> in_runs [] a <-> byte_free regions a = true) as Hnone.
    { intros a Ha. rewrite (byte_free_above regions cursor a) by done. split; [| done]. intros (? & ? & Hx & _). by apply not_elem_of_nil in Hx. }
    destruct in_run; cbn zeta; [| by split].
    destruct (Hrun eq_refl) as [Hrs Hrf]. apply run_closed; try done; [lia |]. by apply (byte_free_above regions cursor).
Qed.

(** The start check succeeds exactly on region lists that do not wrap. *)
Lemma sweep_start_ok regions c0 c :
  Forall region_ok regions -> 0 <= c0 -> sweep_start regions c0 = Ok c ->
  Forall no_wrap regions /\ 0 <= c <= c0 /\
  forall r, r ∈ regions -> size r <> 0 -> c <= base r.
Proof.
  intros Hok. revert c0. induction Hok as [| r regions [Hb Hs] _ IH]; intros c0 Hc0; cbn.
  { intros [= ->]. split_and!; [constructor | lia | lia |]. intros r Hr. by apply not_elem_of_nil in Hr. }
  destruct (usize_max - base r <? size r) eqn:E; [done |]. intros Hst.
  apply IH in Hst as (Hall & Hc & Hmin); [| case_match; lia]. b2p.
  split_and!; [constructor; [split_and!; lia | done] | | |].
  - lia.
  - destruct (negb (size r =? 0) && (base r <? c0)) eqn:?; b2p; lia.
  - intros r' [-> | Hr']%elem_of_cons Hsz; [| by apply Hmin].
    destruct (negb (size r =? 0)) eqn:E1; [| b2p; lia].
    destruct (base r <? c0) eqn:E2; cbn [andb] in Hc; b2p; lia.
Qed.

Lemma sweep_start_err regions c0 e :
  sweep_start regions c0 = Err e -> e = StatusCode.overflow /\ ~ Forall no_wrap regions.
Proof.
  revert c0. induction regions as [| r regions IH]; intros c0; cbn; [done |].
  destruct (usize_max - base r <? size r) eqn:E.
  - intros [= <-]. split; [done |]. inversion_clear 1 as [| ? ? (? & ? & ?)]. b2p. lia.
  - intros Hst. apply IH in Hst as [-> Hn]. split; [done |]. inversion_clear 1. by apply Hn.
Qed.

(** The loop hands the runs of [byte_runs] to [append], in order. *)
Lemma sweep_loop_feed {A} ps (emit : A -> Z -> Z -> A * Status) fuel regions acc cursor in_run rs :
  sweep_loop ps emit fuel regions acc cursor in_run rs =
  feed (fun acc run => append ps emit acc run.1 run.2) acc (byte_runs fuel regions cursor in_run rs).
Proof.
  assert (forall acc s e, append ps emit acc s e =
    feed (fun acc run => append ps emit acc run.1 run.2) acc [(s, e)]) as Hone.
  { intros. cbn. destruct (append _ _ _ _ _) as [? st]. by destruct st. }
  revert acc cursor in_run rs. induction fuel as [| fuel IH]; intros; cbn [sweep_loop byte_runs].
  { destruct in_run; [apply Hone | done]. }
  destruct (negb (sc_found _)); [destruct in_run; [apply Hone | done] |].
  destruct (sc_usable _ && _); [apply IH |].
  destruct in_run; [| apply IH]. cbn [feed fst snd].
  destruct (append _ _ _ _ _) as [? st]. by destruct (status_ok st).
Qed.

Lemma append_feed {A} ps (emit : A -> Z -> Z -> A * Status) acc run :
  append ps emit acc run.1 run.2 = feed (fun acc r => emit acc r.1 r.2) acc (run_pages ps run).
Proof.
  unfold append, run_pages. destruct run as [s e]; cbn [fst snd].
  destruct (e - s <=? _); [done |]. case_match; [done |]. cbn.
  destruct (emit _ _ _) as [? st]. by destruct st.
Qed.

Lemma feed_app {A B} (f : A -> B -> A * Status) acc l1 l2 :
  feed f acc (l1 ++ l2) =
  let '(acc', st) := feed f acc l1 in if status_ok st then feed f acc' l2 else (acc', st).
Proof.
  revert acc. induction l1 as [| x l1 IH]; intros; cbn [feed app].
  - done.
  - destruct (f acc x) as [? st]. destruct (status_ok st) eqn:E; [apply IH | by rewrite E].
Qed.

Lemma feed_flat_map {A B C} (f : A -> C -> A * Status) (g : B -> list C) acc l :
  feed (fun acc x => feed f acc (g x)) acc l = feed f acc (flat_map g l).
Proof.
  revert acc. induction l as [| x l IH]; intros; cbn [feed flat_map]; [done |].
  rewrite feed_app. destruct (feed f acc (g x)) as [? st]. destruct (status_ok st); auto.
Qed.

Lemma feed_ext {A B} (f g : A -> B -> A * Status) acc l :
  (forall acc x, f acc x = g acc x) -> feed f acc l = feed g acc l.
Proof.
  intros Hfg. revert acc. induction l as [| x l IH]; intros; cbn; [done |].
  rewrite Hfg. destruct (g acc x) as [? st]. by destruct (status_ok st).
Qed.

(** sweep_usable() emits the page runs, in order, until an error. *)
Lemma sweep_usable_feed {A} ps (emit : A -> Z -> Z -> A * Status) regions acc :
  is_pow2b ps = true -> result_ok (sweep_start regions usize_max) = true ->
  sweep_usable ps emit regions acc = feed (fun acc r => emit acc r.1 r.2) acc (page_runs regions ps).
Proof.
  intros Hps Hst. unfold sweep_usable, page_runs. rewrite Hps. cbn [negb].
  destruct (sweep_start regions usize_max) as [c |]; [| done].
  rewrite sweep_loop_feed, <- feed_flat_map. apply feed_ext. intros. apply append_feed.
Qed.

Lemma pow2_pos ps : is_pow2b ps = true -> 0 <= ps -> 0 < ps.
Proof. unfold is_pow2b. intros. b2p. lia. Qed.

(** The byte runs of a whole region list. *)
Lemma byte_runs_all regions c :
  Forall region_ok regions -> sweep_start regions usize_max = Ok c ->
  let runs := byte_runs (S (2 * length regions)) regions c false 0 in
  separated (byte_free regions) c runs /\ 0 <= c /\
  forall a, in_runs runs a <-> byte_free regions a = true.
Proof.
  intros Hok Hst. pose proof usize_max_pos.
  apply sweep_start_ok in Hst as (Hnw & Hc & Hmin); [| done | lia].
  destruct (byte_runs_spec (S (2 * length regions)) regions c false 0) as [Hsep Hin]; [done | lia | | done |].
  { pose proof (above_le c (boundaries regions)). rewrite length_boundaries in *. lia. }
  cbn zeta in *. split_and!; [done | lia |]. intros a.
  destruct (Z.lt_ge_cases a c) as [Hac | Hac]; [| by apply Hin].
  split; [intros Hr; pose proof (separated_low _ _ _ _ Hsep Hr); lia |].
  intros [Hu _]%andb_true_iff. apply existsb_exists in Hu as (r & Hr & Hcov). unfold covers in Hcov. b2p. apply list_elem_of_In in Hr.
  specialize (Hmin r Hr). lia.
Qed.

Lemma run_pages_spec ps s e :
  0 < ps -> s < e ->
  (forall b n, (b, n) ∈ run_pages ps (s, e) -> s <= b /\ b mod ps = 0 /\ 0 < n /\ b + n * ps <= e) /\
  (forall p, p mod ps = 0 -> page_in ps (run_pages ps (s, e)) p <-> s <= p /\ p + ps <= e) /\
  (length (run_pages ps (s, e)) <= 1)%nat.
Proof.
  intros Hps Hse. unfold run_pages. cbn [fst snd].
  destruct (round_up_spec ps s Hps) as [Hb Hbr]. destruct (round_down_spec ps e Hps) as [Hd Hdr].
  set (adj := (ps - s mod ps) mod ps) in *. set (b := s + adj) in *. set (d := e - e mod ps) in *.
  assert (forall p, p mod ps = 0 -> s <= p /\ p + ps <= e -> b <= p /\ p + ps <= d) as Hin.
  { intros p Hp [? ?]. assert (b <= p) by (apply (aligned_le ps); [lia | done | done | lia]).
    split; [done |]. assert (p <= d - ps); [| lia].
    apply (aligned_le ps); [lia | done | | lia]. by rewrite Zminus_mod, Hd, Z_mod_same_full. }
  destruct (e - s <=? adj) eqn:E1; [| destruct (d <=? b) eqn:E2]; b2p.
  1, 2: split_and!; [by intros ? ? ?%not_elem_of_nil | | cbn; lia].
  1, 2: intros p Hp; split; [intros (? & ? & Hx & _); by apply not_elem_of_nil in Hx |].
  1, 2: intros Hsp; destruct (Hin p Hp Hsp); lia.
  assert ((d - b) / ps * ps = d - b) as Hdiv.
  { rewrite Z.mul_comm. symmetry. apply Z.div_exact; [lia |]. by rewrite Zminus_mod, Hb, Hd. }
  assert (0 < (d - b) / ps) by nia.
  split_and!; [| | cbn; lia].
  - intros b' n' [= -> ->]%list_elem_of_singleton. split_and!; try lia; done.
  - intros p Hp. split.
    + intros (b' & n' & [= -> ->]%list_elem_of_singleton & Hr). split; [lia |].
      rewrite Hdiv in Hr. assert (p <= d - ps); [| lia].
      apply (aligned_le ps); [lia | done | | lia]. by rewrite Zminus_mod, Hd, Z_mod_same_full.
    + intros Hsp. destruct (Hin p Hp Hsp). exists b, ((d - b) / ps).
      rewrite list_elem_of_singleton. split; [done |]. lia.
Qed.

Lemma runs_ok_weaken ps low low' runs : low' <= low -> runs_ok ps low runs -> runs_ok ps low' runs.
Proof. destruct runs as [| [b n] runs]; cbn; [done |]. intros. split_and!; try tauto; lia. Qed.

Lemma runs_ok_flat free ps low runs :
  0 < ps -> separated free low runs -> runs_ok ps low (flat_map (run_pages ps) runs).
Proof.
  intros Hps. revert low. induction runs as [| [s e] runs IH]; intros low; [done |].
  intros (Hlow & Hse & _ & Hsep). specialize (IH _ Hsep). cbn [flat_map].
  destruct (run_pages_spec ps s e Hps ltac:(lia)) as (Hr & _ & Hlen).
  destruct (run_pages ps (s, e)) as [| [b n] [| ? ?]]; [| | cbn in Hlen; lia].
  - eapply runs_ok_weaken; [| exact IH]. lia.
  - destruct (Hr b n ltac:(by left)) as (? & ? & ? & ?). cbn. split_and!; try lia.
    eapply runs_ok_weaken; [| exact IH]. lia.
Qed.

Lemma page_in_flat ps runs p :
  page_in ps (flat_map (run_pages ps) runs) p <->
  exists run, run ∈ runs /\ page_in ps (run_pages ps run) p.
Proof.
  unfold page_in. setoid_rewrite list_elem_of_In. setoid_rewrite in_flat_map.
  split; [intros (b & n & (run & ? & ?) & ?) | intros (run & ? & b & n & ? & ?)]; eauto 10.
Qed.

(** A page is in the page runs exactly when all its bytes are free. *)
Lemma page_runs_exact regions ps c p :
  Forall region_ok regions -> 0 < ps -> sweep_start regions usize_max = Ok c ->
  p mod ps = 0 ->
  page_in ps (page_runs regions ps) p <-> forall a, p <= a < p + ps -> byte_free regions a = true.
Proof.
  intros Hok Hps Hst Hp. unfold page_runs. rewrite Hst.
  destruct (byte_runs_all regions c Hok Hst) as (Hsep & Hc & Hin). cbn zeta in *.
  set (runs := byte_runs _ regions c false 0) in *. rewrite page_in_flat.
  assert (forall s e, (s, e) ∈ runs -> s < e /\ byte_free regions e = false) as Hrun.
  { clearbody runs. clear -Hsep. revert c Hsep. induction runs as [| [s e] runs IH]; intros c.
    - by intros _ ? ? ?%not_elem_of_nil.
    - intros (? & ? & ? & Hsep) s' e' [[= -> ->] | Hin]%elem_of_cons; [split; [lia | done] |].
      by apply (IH _ Hsep). }
  split.
  - intros ([s e] & Hr & Hpg) a Ha. destruct (Hrun s e Hr).
    apply (run_pages_spec ps s e Hps ltac:(lia)) in Hpg as [? ?]; [| done].
    apply Hin. exists s, e. split; [done | lia].
  - intros Hfree. destruct (proj2 (Hin p) (Hfree p ltac:(lia))) as (s & e & Hr & Hse).
    destruct (Hrun s e Hr) as [? He]. exists (s, e). split; [done |].
    apply (run_pages_spec ps s e Hps ltac:(lia)); [done |]. split; [lia |].
    destruct (Z.le_gt_cases (p + ps) e) as [| Hgt]; [done |].
    rewrite Hfree in He; [done | lia].
Qed.

Lemma page_runs_ok regions ps :
  Forall region_ok regions -> 0 < ps -> runs_ok ps 0 (page_runs regions ps).
Proof.
  intros Hok Hps. unfold page_runs. destruct (sweep_start regions usize_max) as [c |] eqn:Hst; [| done].
  destruct (byte_runs_all regions c Hok Hst) as (Hsep & Hc & _).
  eapply runs_ok_weaken; [| eapply runs_ok_flat; [done | exact Hsep]]. lia.
Qed.

Lemma sweep_start_no_wrap regions :
  Forall no_wrap regions -> exists c, sweep_start regions usize_max = Ok c.
Proof.
  intros Hnw. destruct (sweep_start regions usize_max) as [c | e] eqn:E; [by exists c |].
  by apply sweep_start_err in E as [_ Hn].
Qed.

(** Pages of a list of runs. *)
Definition total_pages (runs : list (Z * Z)) : Z := foldr (fun r acc => r.2 + acc) 0 runs.

Lemma total_pages_bound ps low runs :
  0 < ps -> low <= usize_max -> runs_ok ps low runs ->
  low + total_pages runs * ps <= usize_max /\ zlen runs <= total_pages runs.
Proof.
  intros Hps. revert low. induction runs as [| [b n] runs IH]; intros low Hlow; cbn.
  { change (zlen (@nil (Z * Z))) with 0. lia. }
  intros (? & ? & ? & ? & Hr). destruct (IH _ ltac:(done) Hr). rewrite zlen_cons.
  fold (total_pages runs). split; [nia | lia].
Qed.

Lemma feed_count t runs ps low :
  0 < ps -> 0 <= low -> 0 <= frames t -> frames t * ps <= low -> low <= usize_max -> runs_ok ps low runs ->
  feed (fun acc r => count_emit acc r.1 r.2) t runs =
  (mk_totals (frames t + total_pages runs) (ranges t + zlen runs), StatusCode.ok).
Proof.
  intros Hps. revert t low. induction runs as [| [b n] runs IH]; intros t low Hl0 Hf Hfl Hl; cbn [feed].
  { intros _. change (zlen (@nil (Z * Z))) with 0. cbn. rewrite !Z.add_0_r. by destruct t. }
  intros (? & ? & ? & ? & Hr). unfold count_emit; cbn [fst snd].
  replace (usize_max - frames t <? n) with false by (symmetry; apply Z.ltb_ge; nia). cbn [status_ok].
  rewrite (IH _ (b + n * ps)); cbn [frames ranges]; try done; try nia.
  f_equal. rewrite zlen_cons. change (total_pages ((b, n) :: runs)) with (n + total_pages runs).
  f_equal; lia.
Qed.

(** count_usable() on a valid request: the number of free pages and of runs. *)
Lemma count_usable_eq regions ps :
  Forall region_ok regions -> Forall no_wrap regions -> is_pow2b ps = true -> 0 < ps ->
  let f := total_pages (page_runs regions ps) in
  let k := zlen (page_runs regions ps) in
  count_usable regions ps =
    if f =? 0 then Err StatusCode.no_memory
    else if ((usize_max - metadata_alignment) / (sizeof_PageDescriptor + 1) <? f)
            || (usize_max / sizeof_FrameRange / 2 <? k) then Err StatusCode.overflow
    else Ok (mk_totals f k).
Proof.
  intros Hok Hnw Hp Hps f k. unfold count_usable. pose proof usize_max_pos.
  destruct (sweep_start_no_wrap regions Hnw) as [c Hc].
  rewrite sweep_usable_feed by (done || by rewrite Hc).
  rewrite (feed_count _ _ ps 0); cbn [frames ranges]; try lia; [done |].
  by apply page_runs_ok.
Qed.

(** C16: The boot sweep is exact: for every region list that stays inside
    the address space, in any order and with any overlaps, it succeeds and the
    runs it emits are ascending, disjoint and page aligned, and hold exactly the
    pages all of whose bytes lie in a usable region and in no reserved, device
    or kernel-image region. *)
Theorem sweep_emits_exactly_free_pages regions page_size :
  Forall region_ok regions -> Forall no_wrap regions -> is_pow2b page_size = true -> 0 < page_size ->
  let '(runs, status) :=
    sweep_usable page_size (fun acc b n => (acc ++ [(b, n)], StatusCode.ok)) regions [] in
  status = StatusCode.ok /\ runs_ok page_size 0 runs /\
  forall p, p mod page_size = 0 ->
    (page_in page_size runs p <-> forall a, p <= a < p + page_size -> byte_free regions a = true).
Proof.
  intros Hok Hnw Hp Hps. destruct (sweep_start_no_wrap regions Hnw) as [c Hc].
  rewrite sweep_usable_feed by (done || by rewrite Hc).
  assert (forall l acc, feed (fun acc (r : Z * Z) => (acc ++ [(r.1, r.2)], StatusCode.ok)) acc l
                        = (acc ++ l, StatusCode.ok)) as Hfeed.
  { induction l as [| [b n] l IH]; intros acc; cbn [feed status_ok].
    - by rewrite app_nil_r.
    - rewrite IH, <- app_assoc. done. }
  rewrite Hfeed. cbn [app]. split_and!; [done | by apply page_runs_ok |].
  intros p Hal. by apply page_runs_exact with c.
Qed.

(** The sweep refuses a page size that is not a power of two, and a
    region list with a region that wraps the address space, before it emits
    anything. *)
Lemma sweep_refuses_bad_input {A} page_size (emit : A -> Z -> Z -> A * Status) regions acc :
  (is_pow2b page_size = false ->
     sweep_usable page_size emit regions acc = (acc, StatusCode.invalid_argument)) /\
  (is_pow2b page_size = true -> Forall region_ok regions -> ~ Forall no_wrap regions ->
     sweep_usable page_size emit regions acc = (acc, StatusCode.overflow)).
Proof.
  unfold sweep_usable. split; [by intros -> |]. intros -> Hok Hn. cbn [negb].
  destruct (sweep_start regions usize_max) as [c | e] eqn:E.
  - pose proof usize_max_pos. apply sweep_start_ok in E as [Hnw _]; [done | done | lia].
  - by apply sweep_start_err in E as [-> _].
Qed.
End SweepFacts.

(** ** Witness *)
Section SweepWitness.
#[local] Existing Instance arch64.

(** Four pages, the second of them reserved in part. *)
Definition sample_regions : list MemoryRegion.t :=
  [MemoryRegion.mk 4096 16384 RegionType.usable; MemoryRegion.mk 9000 10 RegionType.reserved].

Lemma sweep_witness :
  let emit := fun acc b n => (acc ++ [(b, n)], StatusCode.ok) in
  sweep_usable 4096 emit sample_regions [] = ([(4096, 1); (12288, 2)], StatusCode.ok) /\
  forall p, p mod 4096 = 0 ->
    (page_in 4096 [(4096, 1); (12288, 2)] p <-> forall a, p <= a < p + 4096 -> byte_free sample_regions a = true).
Proof.
  pose proof (@sweep_emits_exactly_free_pages arch64 sample_regions 4096) as Hs. cbv zeta.
  assert (sweep_usable 4096 (fun acc b n => (acc ++ [(b, n)], StatusCode.ok)) sample_regions [] =
          ([(4096, 1); (12288, 2)], StatusCode.ok)) as He by (vm_compute; reflexivity).
  rewrite He in *. split; [done |]. apply Hs; concrete.
Defined.
End SweepWitness.
