(* ===== verification/PhysicalMap.v ===== *)
(** * The physical memory map (include/ok/memory/physical_map.hpp, src/memory/physical_map.cpp)

    Discovered regions are added in any order; normalize() computes the sorted,
    disjoint, page-aligned usable ranges.  The model follows the four phases of
    normalize(): collect the usable candidates, subtract every reservation,
    sort, merge.  [normalize_exact] is the contract, "reservations always win",
    on inputs of whole pages; [normalize_rounding_gaps] says which pages the
    rounding adds or loses on the others. *)

From S2P Require Import Prelude Regions.
Import MemoryRegion.

Module MapSource.
Inductive t : Set := synthetic | e820 | fdt | board_table | linker.
Definition is_synthetic (x : t) : bool := match x with synthetic => true | _ => false end.
End MapSource.

Module DiscoveredRegion.
Record t := mk { region : MemoryRegion.t; source : MapSource.t }.
End DiscoveredRegion.

Module PhysicalMemoryMap.
Section Defs.
Context `{Arch}.

Definition max_discovered_regions : Z := 64.

(** [inputs_] and [usable_] are the used prefixes of the two fixed arrays. *)
Record t := mk {
  inputs_ : list DiscoveredRegion.t;
  usable_ : list MemoryRegion.t;
  normalized_ : bool
}.

Definition new : t := mk [] [] false.
Definition reset (_ : t) : t := mk [] [] false.

(** range_end(): false for an empty range or one that passes the top of the
    address space; the end itself may wrap to 0. *)
Definition range_end (base size : Z) : option Z :=
  if size =? 0 then None
  else if usize_max - (size - 1) <? base then None
  else if base <=? usize_wrap (base + (size - 1)) then Some (usize_wrap (base + size)) else None.

Definition align_down (value alignment : Z) : Z := Z.land value (usize_not (alignment - 1)).

(** The flag is the [overflow] out-parameter. *)
Definition align_up_checked (value alignment : Z) : Z * bool :=
  let mask := alignment - 1 in
  if usize_max - mask <? value then (value, true)
  else (Z.land (value + mask) (usize_not mask), false).

Definition add (m : t) (region : MemoryRegion.t) (source : MapSource.t) : t * Status :=
  if size region =? 0 then (m, StatusCode.ok)
  else
    match range_end (base region) (size region) with
    | None => (m, StatusCode.invalid_argument)
    | Some _ =>
        if zlen (inputs_ m) =? max_discovered_regions then (m, StatusCode.overflow)
        else (mk (inputs_ m ++ [DiscoveredRegion.mk region source]) (usable_ m) false, StatusCode.ok)
    end.

Definition reserve (m : t) (base size : Z) (type : RegionType.t) : t * Status :=
  if RegionType.is_usable type then (m, StatusCode.invalid_argument)
  else add m (MemoryRegion.mk base size type) MapSource.linker.

(** Phase 1: one usable input, page-aligned. *)
Definition candidate (page_size : Z) (r : MemoryRegion.t) : option MemoryRegion.t :=
  if negb (usable r) then None
  else
    let '(start, overflow) := align_up_checked (base r) page_size in
    if overflow then None
    else
      let last := usize_wrap (base r + (size r - 1)) in
      let end_aligned := align_down last page_size in
      if end_aligned <? start then None
      else Some (MemoryRegion.mk start (usize_wrap (end_aligned - start + page_size)) RegionType.usable).

Fixpoint collect (page_size : Z) (inputs : list DiscoveredRegion.t) (work : list MemoryRegion.t)
    : result (list MemoryRegion.t) :=
  match inputs with
  | [] => Ok work
  | d :: rest =>
      match candidate page_size (DiscoveredRegion.region d) with
      | None => collect page_size rest work
      | Some c =>
          if zlen work =? max_discovered_regions then Err StatusCode.overflow
          else collect page_size rest (work ++ [c])
      end
  end.

(** Phase 2: a reservation widened to whole pages: [rstart, rend) or to the top. *)
Record extent := mk_extent { rstart : Z; rend : Z; to_top : bool }.

Definition reservation (page_size : Z) (r : MemoryRegion.t) : extent :=
  let rlast := usize_wrap (base r + (size r - 1)) in
  let '(rend, overflow) := align_up_checked rlast page_size in
  mk_extent (align_down (base r) page_size) rend (overflow || (rend =? 0)).

Definition misses (x : extent) (w : MemoryRegion.t) : bool :=
  let wend := usize_wrap (base w + size w) in
  let before := negb (wend =? 0) && (wend <=? rstart x) in
  let after := negb (to_top x) && (rend x <=? base w) in
  before || after.

(** The first element of [work] the scan stops at. *)
Fixpoint first_overlap (x : extent) (work : list MemoryRegion.t) : option nat :=
  match work with
  | [] => None
  | w :: rest => if misses x w then S <$> first_overlap x rest else Some O
  end.

(** The pieces of [w] left and right of the reservation. *)
Definition split_left (x : extent) (w : MemoryRegion.t) : list MemoryRegion.t :=
  if base w <? rstart x
  then [MemoryRegion.mk (base w) (usize_wrap (rstart x - base w)) RegionType.usable] else [].
Definition split_right (x : extent) (w : MemoryRegion.t) : list MemoryRegion.t :=
  let wend := usize_wrap (base w + size w) in
  if negb (to_top x) && ((wend =? 0) || (rend x <? wend))
  then [MemoryRegion.mk (rend x) (usize_wrap ((if wend =? 0 then 0 else wend) - rend x))
                        RegionType.usable]
  else [].

(** Append the pieces, each against the array's capacity. *)
Fixpoint append_pieces (work pieces : list MemoryRegion.t) : result (list MemoryRegion.t) :=
  match pieces with
  | [] => Ok work
  | p :: rest => if zlen work =? max_discovered_regions then Err StatusCode.overflow
                 else append_pieces (work ++ [p]) rest
  end.

(** The scan restarts after each split; the fuel bounds the splits. *)
Fixpoint subtract (fuel : nat) (x : extent) (work : list MemoryRegion.t)
    : result (list MemoryRegion.t) :=
  match fuel with
  | O => Ok work
  | S fuel' =>
      match first_overlap x work with
      | None => Ok work
      | Some i =>
          let w := work !!! i in
          match append_pieces (delete i work) (split_left x w ++ split_right x w) with
          | Err e => Err e
          | Ok work' => subtract fuel' x work'
          end
      end
  end.

Fixpoint subtract_all (page_size : Z) (inputs : list DiscoveredRegion.t) (work : list MemoryRegion.t)
    : result (list MemoryRegion.t) :=
  match inputs with
  | [] => Ok work
  | d :: rest =>
      let r := DiscoveredRegion.region d in
      if usable r then subtract_all page_size rest work
      else
        match subtract (S (length work)) (reservation page_size r) work with
        | Err e => Err e
        | Ok work' => subtract_all page_size rest work'
        end
  end.

(** Phase 3: insertion sort by base.  The sorted prefix is kept reversed, as the
    inner loop walks it from its end. *)
Fixpoint sift (key : MemoryRegion.t) (rev_prefix : list MemoryRegion.t) : list MemoryRegion.t :=
  match rev_prefix with
  | [] => [key]
  | x :: rest => if base key <? base x then x :: sift key rest else key :: x :: rest
  end.

Definition sort_by_base (work : list MemoryRegion.t) : list MemoryRegion.t :=
  rev (fold_left (fun acc key => sift key acc) work []).

(** Phase 4: merge adjacent and overlapping ranges; [acc] is [usable_] reversed. *)
Definition merge_step (acc : list MemoryRegion.t) (w : MemoryRegion.t) : list MemoryRegion.t :=
  match acc with
  | [] => [w]
  | prev :: rest =>
      let prev_end := usize_wrap (base prev + size prev) in
      if negb (prev_end =? 0) && (base w <=? prev_end) then
        let cur_end := usize_wrap (base w + size w) in
        if (cur_end =? 0) || (prev_end <? cur_end)
        then MemoryRegion.mk (base prev) (usize_wrap ((if cur_end =? 0 then 0 else cur_end) - base prev))
                             (type prev) :: rest
        else acc
      else w :: acc
  end.

Definition merge_sorted (work : list MemoryRegion.t) : list MemoryRegion.t :=
  rev (fold_left merge_step work []).

Definition normalize (m : t) (page_size : Z) : t * Status :=
  if negb (is_pow2b page_size) then (m, StatusCode.invalid_argument)
  else
    match collect page_size (inputs_ m) [] with
    | Err e => (m, e)
    | Ok work =>
        match subtract_all page_size (inputs_ m) work with
        | Err e => (m, e)
        | Ok work => (mk (inputs_ m) (merge_sorted (sort_by_base work)) true, StatusCode.ok)
        end
    end.

Definition usable_bytes (m : t) : Z :=
  fold_left (fun total r => usize_wrap (total + size r)) (usable_ m) 0.

Definition usable_pages (m : t) (page_size : Z) : Z :=
  if page_size =? 0 then 0 else usable_bytes m / page_size.

Definition product_grade (m : t) : bool :=
  if negb (normalized_ m) || (zlen (usable_ m) =? 0) then false
  else forallb (fun d => negb (usable (DiscoveredRegion.region d)
                               && MapSource.is_synthetic (DiscoveredRegion.source d))) (inputs_ m).
End Defs.
End PhysicalMemoryMap.

Import PhysicalMemoryMap.

(** ** Specification *)
Section Spec.
Context `{Arch} (page_size : Z).

(** The page that starts at [p] lies in one of the ranges. *)
Definition in_ranges (work : list MemoryRegion.t) (p : Z) : Prop :=
  exists w, w ∈ work /\ base w <= p < base w + size w.

(** A nonempty page-aligned range that ends below the top of the address space. *)
Definition piece (w : MemoryRegion.t) : Prop :=
  0 <= base w /\ 0 < size w /\ base w + size w <= usize_max /\
  base w mod page_size = 0 /\ (base w + size w) mod page_size = 0.

(** Sorted ranges with a gap between neighbours. *)
Fixpoint gapped (low : Z) (work : list MemoryRegion.t) : Prop :=
  match work with
  | [] => True
  | w :: rest => low <= base w /\ gapped (base w + size w + 1) rest
  end.

(** An input as add() accepts it. *)
Definition input_ok (r : MemoryRegion.t) : Prop :=
  0 <= base r /\ 0 < size r <= usize_max /\ base r + size r <= usize_max + 1.

(** A usable input outside the topmost page. *)
Definition below_top (r : MemoryRegion.t) : Prop := base r + size r + page_size <= usize_max + 1.

(** What the reservation [r] removes: the pages from the one that holds its
    first byte, up to but excluding a page that starts at its last byte; a
    reservation of byte 0 alone removes everything. *)
Definition removes (r : MemoryRegion.t) (p : Z) : Prop :=
  base r < p + page_size /\ (p < base r + size r - 1 \/ base r + size r = 1).
End Spec.

Definition regions_of (m : t) : list MemoryRegion.t := DiscoveredRegion.region <$> inputs_ m.

(** ** Theorems *)
Section Facts.
Context `{Arch} (page_size : Z).
Hypothesis page_pow2 : is_pow2b page_size = true.
Hypothesis page_range : 0 < page_size <= usize_max.

Lemma page_pow : exists k, 0 <= k /\ page_size = 2 ^ k.
Proof. by apply is_pow2b_spec; [lia |]. Qed.

Lemma align_down_eq v : 0 <= v <= usize_max -> align_down v page_size = v - v mod page_size.
Proof. intros. destruct page_pow as (k & ? & ->). by apply land_not_mask. Qed.

Lemma top_aligned : (usize_max + 1) mod page_size = 0.
Proof.
  rewrite <- pow_word_bits. destruct page_pow as (k & Hk & Hp).
  assert (k <= word_bits).
  { apply Z.nlt_ge. intros Hlt. pose proof (Z.pow_lt_mono_r 2 word_bits k).
    pose proof pow_word_bits. destruct word_bits_cases; lia. }
  rewrite Hp. replace word_bits with ((word_bits - k) + k) by lia.
  rewrite Z.pow_add_r by lia. apply Z_mod_mult.
Qed.

(** For an aligned [p], rounding disappears. *)
Lemma le_align_down v p : 0 <= v -> p mod page_size = 0 -> p <= v - v mod page_size <-> p <= v.
Proof.
  intros Hv Hp. pose proof (Z.mod_pos_bound v page_size ltac:(lia)). split; [lia |]. intros Hle.
  apply Z.mod_divide in Hp as [x ->]; [| lia].
  pose proof (Z.div_mod v page_size ltac:(lia)).
  assert (x <= v / page_size) by (apply Z.div_le_lower_bound; lia). nia.
Qed.

(** align_up_checked() without overflow rounds up. *)
Lemma align_up_eq v : 0 <= v -> v + (page_size - 1) <= usize_max ->
  exists u, align_up_checked v page_size = (u, false) /\ u mod page_size = 0 /\ v <= u < v + page_size.
Proof.
  intros Hv Hle. unfold align_up_checked. cmp. fold (align_down (v + (page_size - 1)) page_size).
  rewrite align_down_eq by lia. eexists; split; [done |]. set (x := v + (page_size - 1)). pose proof (Z.mod_pos_bound x page_size ltac:(lia)).
  split; [| lia].
  replace (x - x mod page_size) with (x / page_size * page_size) by (pose proof (Z.div_mod x page_size); lia).
  apply Z_mod_mult.
Qed.

Lemma align_up_le v u p : p mod page_size = 0 -> u mod page_size = 0 -> v <= u < v + page_size ->
  u <= p <-> v <= p.
Proof.
  intros Hp Hu Hr. split; [lia |]. intros Hle.
  apply Z.mod_divide in Hp as [x ->]; [| lia]. apply Z.mod_divide in Hu as [y ->]; [| lia].
  assert (y < x + 1) by nia. nia.
Qed.

(** Phase 1: a page is a candidate when its first byte is in the usable input. *)
Lemma candidate_spec r :
  usable r = true -> input_ok r -> below_top page_size r ->
  match candidate page_size r with
  | Some c => piece page_size c /\
      forall p, p mod page_size = 0 -> base c <= p < base c + size c <-> base r <= p < base r + size r
  | None => forall p, p mod page_size = 0 -> ~ (base r <= p < base r + size r)
  end.
Proof.
  intros Hu (Hb & Hs & He) Hbt. unfold below_top in Hbt. unfold candidate. rewrite Hu. cbn [negb].
  destruct (align_up_eq (base r) ltac:(lia) ltac:(lia)) as (start & -> & Hst & Hsr).
  rewrite usize_wrap_small by lia. set (last := base r + (size r - 1)).
  rewrite align_down_eq by lia. pose proof (Z.mod_pos_bound last page_size ltac:(lia)).
  set (d := last - last mod page_size).
  assert (d mod page_size = 0) as Hd.
  { unfold d. rewrite Zminus_mod, Zmod_mod, Z.sub_diag. apply Z.mod_0_l. lia. }
  destruct (d <? start) eqn:E; b2p.
  - intros p Hp [Hlo Hhi]. apply (align_up_le (base r) start p) in Hlo; [| done..].
    assert (p <= d) by (apply le_align_down; [lia | done | lia]). lia.
  - rewrite usize_wrap_small by lia. split.
    + unfold piece; cbn. split_and!; try lia.
      replace (start + (d - start + page_size)) with (d + page_size) by lia.
      by rewrite Zplus_mod, Hd, Z_mod_same_full.
    + intros p Hp. cbn. rewrite (align_up_le (base r) start p) by done.
      pose proof (le_align_down last p ltac:(lia) Hp) as Hle. fold d in Hle.
      assert (p < start + (d - start + page_size) <-> p <= d); [| lia].
      split; [| lia]. intros Hlt. apply (aligned_le page_size); [lia | done | done | lia].
Qed.

Lemma collect_spec inputs work work' :
  Forall (fun d => input_ok (DiscoveredRegion.region d)) inputs ->
  Forall (fun d => usable (DiscoveredRegion.region d) = true ->
                   below_top page_size (DiscoveredRegion.region d)) inputs ->
  Forall (piece page_size) work -> collect page_size inputs work = Ok work' ->
  Forall (piece page_size) work' /\
  forall p, p mod page_size = 0 ->
    in_ranges work' p <-> in_ranges work p \/ byte_usable (DiscoveredRegion.region <$> inputs) p = true.
Proof.
  intros Hok. revert work. induction Hok as [| d inputs Hd Hok IH]; intros work Hbt Hw; cbn [collect].
  { intros [= <-]. split; [done |]. intros p _. cbn. split; [by left | by intros [|]]. }
  inversion_clear Hbt as [| ? ? Hbd Hbt']. specialize (IH) as IH.
  assert (forall p, byte_usable (DiscoveredRegion.region <$> (d :: inputs)) p =
    (usable (DiscoveredRegion.region d) && covers (DiscoveredRegion.region d) p)
    || byte_usable (DiscoveredRegion.region <$> inputs) p) as Hcons by done.
  set (r := DiscoveredRegion.region d) in *.
  assert (forall p, covers r p = true <-> base r <= p < base r + size r) as Hcov.
  { intros p. unfold covers. rewrite andb_true_iff, Z.leb_le, Z.ltb_lt. done. }
  destruct (usable r) eqn:Eu.
  - pose proof (candidate_spec r Eu Hd (Hbd eq_refl)) as Hc.
    destruct (candidate page_size r) as [c |] eqn:Ec.
    + destruct Hc as [Hpc Hcm]. destruct (zlen work =? _); [done |].
      intros Hcol. apply IH in Hcol as [Hw' Hin]; [| done | by apply Forall_app_2; [| apply Forall_singleton]].
      split; [done |]. intros p Hp. rewrite Hin, Hcons by done. cbn [andb].
      rewrite orb_true_iff, Hcov, <- (Hcm p Hp). unfold in_ranges. setoid_rewrite elem_of_app.
      setoid_rewrite list_elem_of_singleton. split.
      * intros [(w & [Hin' | ->] & ?) | ?]; [left | |]; eauto.
      * intros [(w & ? & ?) | [? | ?]]; [left; exists w | left; exists c |]; eauto.
    + intros Hcol. apply IH in Hcol as [Hw' Hin]; [| done | done].
      split; [done |]. intros p Hp. rewrite Hin, Hcons by done. cbn [andb].
      rewrite orb_true_iff, Hcov. specialize (Hc p Hp). tauto.
  - unfold candidate. rewrite Eu. cbn [negb]. intros Hcol.
    apply IH in Hcol as [Hw' Hin]; [| done | done]. split; [done |].
    intros p Hp. rewrite Hin, Hcons by done. done.
Qed.

(** Phase 2.  [x_hi] is the exclusive end of the widened reservation. *)
Definition x_hi (x : extent) : Z := if to_top x then usize_max + 1 else rend x.
Definition extent_ok (x : extent) : Prop :=
  0 <= rstart x <= usize_max /\ rstart x mod page_size = 0 /\ rstart x <= x_hi x /\
  (to_top x = false -> 0 < rend x <= usize_max /\ rend x mod page_size = 0).

Lemma misses_spec x w : extent_ok x -> piece page_size w ->
  misses x w = true <-> base w + size w <= rstart x \/ x_hi x <= base w.
Proof.
  intros (Hr & _ & _ & Ht) (Hb & Hs & He & _). unfold misses, x_hi.
  rewrite usize_wrap_small by lia.
  replace (base w + size w =? 0) with false by lia. cbn [negb andb].
  rewrite orb_true_iff, Z.leb_le. destruct (to_top x); cbn [negb andb].
  - split; [intros [|]; [by left | done] | intros [|]; [by left | lia]].
  - by rewrite Z.leb_le.
Qed.

Lemma in_ranges_nil p : ~ in_ranges [] p.
Proof. by intros (? & ?%not_elem_of_nil & _). Qed.

Lemma in_ranges_one q p : in_ranges [q] p <-> base q <= p < base q + size q.
Proof.
  unfold in_ranges. split.
  - by intros (? & ->%list_elem_of_singleton & ?).
  - intros. exists q. by rewrite list_elem_of_singleton.
Qed.

Lemma in_ranges_app l1 l2 p : in_ranges (l1 ++ l2) p <-> in_ranges l1 p \/ in_ranges l2 p.
Proof.
  unfold in_ranges. setoid_rewrite elem_of_app. split.
  - intros (q & [? | ?] & ?); [left | right]; eauto.
  - intros [(q & ? & ?) | (q & ? & ?)]; eauto.
Qed.

Lemma in_ranges_cons q l p : in_ranges (q :: l) p <-> (base q <= p < base q + size q) \/ in_ranges l p.
Proof. change (q :: l) with ([q] ++ l). by rewrite in_ranges_app, in_ranges_one. Qed.

(** The pieces that remain of an overlapped range. *)
Lemma split_left_spec x w : extent_ok x -> piece page_size w -> rstart x < base w + size w ->
  Forall (fun q => piece page_size q /\ misses x q = true) (split_left x w) /\
  forall p, in_ranges (split_left x w) p <-> base w <= p < rstart x.
Proof.
  intros Hx Hw Hov. pose proof Hx as (Hr & Hra & _ & _). pose proof Hw as (Hb & Hs & He & Hal & Hae).
  unfold split_left. destruct (base w <? rstart x) eqn:E; b2p.
  - rewrite usize_wrap_small by lia.
    assert (piece page_size (MemoryRegion.mk (base w) (rstart x - base w) RegionType.usable)) as Hp.
    { unfold piece; cbn. split_and!; try lia. by replace (base w + (rstart x - base w)) with (rstart x) by lia. }
    split; [| intros p; rewrite in_ranges_one; cbn; lia].
    apply Forall_singleton. split; [done |]. apply misses_spec; [done | done |]. cbn. lia.
  - split; [constructor |]. intros p. split; [by intros ?%in_ranges_nil | lia].
Qed.

Lemma split_right_spec x w : extent_ok x -> piece page_size w -> base w < x_hi x ->
  Forall (fun q => piece page_size q /\ misses x q = true) (split_right x w) /\
  forall p, in_ranges (split_right x w) p <-> x_hi x <= p < base w + size w.
Proof.
  intros Hx Hw Hov. pose proof Hx as (Hr & _ & Hrx & Ht). pose proof Hw as (Hb & Hs & He & Hal & Hae).
  unfold split_right. rewrite (usize_wrap_small (base w + size w)) by lia.
  replace (base w + size w =? 0) with false by lia. cbn [orb].
  unfold x_hi in *. destruct (to_top x) eqn:Et; cbn [negb andb].
  - split; [constructor |]. intros p. split; [by intros ?%in_ranges_nil | lia].
  - destruct (Ht eq_refl) as [Hrr Hre]. destruct (rend x <? base w + size w) eqn:E; b2p.
    + rewrite usize_wrap_small by lia.
      assert (piece page_size (MemoryRegion.mk (rend x) (base w + size w - rend x) RegionType.usable)) as Hp.
      { unfold piece; cbn. split_and!; try lia.
        by replace (rend x + (base w + size w - rend x)) with (base w + size w) by lia. }
      split; [| intros p; rewrite in_ranges_one; cbn; lia].
      apply Forall_singleton. split; [done |]. apply misses_spec; [done | done |].
      unfold x_hi. rewrite Et. cbn. lia.
    + split; [constructor |]. intros p. split; [by intros ?%in_ranges_nil | lia].
Qed.

Lemma split_spec x w : extent_ok x -> piece page_size w -> misses x w = false ->
  Forall (fun q => piece page_size q /\ misses x q = true) (split_left x w ++ split_right x w) /\
  forall p, in_ranges (split_left x w ++ split_right x w) p <->
            base w <= p < base w + size w /\ ~ (rstart x <= p < x_hi x).
Proof.
  intros Hx Hw Hm.
  assert (~ (base w + size w <= rstart x \/ x_hi x <= base w)) as Hov.
  { rewrite <- (misses_spec x w Hx Hw). by rewrite Hm. }
  destruct (split_left_spec x w Hx Hw ltac:(lia)) as [HL HLp].
  destruct (split_right_spec x w Hx Hw ltac:(lia)) as [HR HRp].
  split; [by apply Forall_app_2 |]. intros p. pose proof Hx as (_ & _ & ? & _).
  rewrite in_ranges_app, HLp, HRp. lia.
Qed.

Lemma append_pieces_ok work pieces work' :
  append_pieces work pieces = Ok work' -> work' = work ++ pieces.
Proof.
  revert work. induction pieces as [| q pieces IH]; intros work; cbn.
  - intros [= <-]. by rewrite app_nil_r.
  - case_match; [done |]. intros Ha. apply IH in Ha as ->. by rewrite <- app_assoc.
Qed.

Lemma first_overlap_None x work :
  first_overlap x work = None -> Forall (fun w => misses x w = true) work.
Proof.
  induction work as [| w work IH]; cbn; [constructor |].
  destruct (misses x w) eqn:E; [| done]. destruct (first_overlap x work); [done |].
  intros _. constructor; auto.
Qed.

Lemma first_overlap_Some x work i :
  first_overlap x work = Some i -> exists w, work !! i = Some w /\ misses x w = false.
Proof.
  revert i. induction work as [| w work IH]; intros i; cbn; [done |].
  destruct (misses x w) eqn:E.
  - destruct (first_overlap x work) as [j |]; [| done]. intros [= <-]. by apply IH.
  - intros [= <-]. by exists w.
Qed.

(** How many ranges the reservation still overlaps: the measure of the scan. *)
Definition overlapping (x : extent) (work : list MemoryRegion.t) : nat :=
  length (List.filter (fun w => negb (misses x w)) work).

Lemma overlapping_app x l1 l2 : overlapping x (l1 ++ l2) = (overlapping x l1 + overlapping x l2)%nat.
Proof. unfold overlapping. by rewrite List.filter_app, length_app. Qed.

Lemma overlapping_zero x l : Forall (fun w => misses x w = true) l -> overlapping x l = O.
Proof. unfold overlapping. induction 1 as [| w l Hm _ IH]; cbn; [done |]. by rewrite Hm. Qed.

Lemma subtract_spec fuel x work work' :
  extent_ok x -> Forall (piece page_size) work -> (overlapping x work < fuel)%nat ->
  subtract fuel x work = Ok work' ->
  Forall (piece page_size) work' /\
  forall p, in_ranges work' p <-> in_ranges work p /\ ~ (rstart x <= p < x_hi x).
Proof.
  intros Hx. revert work. induction fuel as [| fuel IH]; intros work Hw Hfuel; [lia |]. cbn [subtract].
  destruct (first_overlap x work) as [i |] eqn:Ef.
  - apply first_overlap_Some in Ef as (w & Hi & Hm). rewrite (list_lookup_total_correct _ _ _ Hi).
    destruct (append_pieces _ _) as [work1 |] eqn:Ea; [| done]. apply append_pieces_ok in Ea as ->.
    pose proof (take_drop_middle _ _ _ Hi) as Hmid. rewrite delete_take_drop.
    rewrite <- Hmid in Hw, Hfuel. apply Forall_app in Hw as [Hw1 Hw2].
    inversion_clear Hw2 as [| ? ? Hww Hw3]. destruct (split_spec x w Hx Hww Hm) as [Hs Hsp].
    intros Hsub. apply IH in Hsub as [Hok Hin].
    + split; [done |]. intros p. rewrite Hin, (in_ranges_app (_ ++ _)), Hsp, in_ranges_app.
      assert (in_ranges work p <-> in_ranges (take i work) p \/ (base w <= p < base w + size w) \/
                in_ranges (drop (S i) work) p) as ->; [| tauto].
      rewrite <- Hmid at 1. by rewrite in_ranges_app, in_ranges_cons.
    + apply Forall_app_2; [by apply Forall_app_2 |]. eapply Forall_impl; [exact Hs |]. by intros ? [? _].
    + assert (overlapping x (split_left x w ++ split_right x w) = O) as Hz.
      { apply overlapping_zero. eapply Forall_impl; [exact Hs |]. by intros ? [_ ?]. }
      rewrite (overlapping_app x (_ ++ _)), Hz. rewrite overlapping_app in Hfuel |- *.
      revert Hfuel. unfold overlapping. cbn [List.filter]. rewrite Hm. cbn [negb length]. lia.
  - intros [= <-]. split; [done |]. apply first_overlap_None in Ef.
    intros p. split; [| by intros [? _]]. intros (w & Hin & Hp). split; [by exists w |].
    pose proof (proj1 (Forall_forall _ _) Ef w Hin) as Hm. cbn in Hm.
    apply misses_spec in Hm; [lia | done |]. by eapply Forall_forall in Hw.
Qed.

Lemma aligned_below_top p : p mod page_size = 0 -> p <= usize_max -> p + page_size <= usize_max + 1.
Proof.
  intros Hp Hle. assert (p <= usize_max + 1 - page_size); [| lia].
  apply (aligned_le page_size); [lia | done | | lia].
  by rewrite Zminus_mod, top_aligned, Z_mod_same_full.
Qed.

Lemma reservation_spec r : input_ok r ->
  extent_ok (reservation page_size r) /\
  forall p, p mod page_size = 0 -> p <= usize_max ->
    rstart (reservation page_size r) <= p < x_hi (reservation page_size r) <-> removes page_size r p.
Proof.
  intros (Hb & Hs & He). unfold reservation. rewrite usize_wrap_small by lia.
  rewrite align_down_eq by lia. set (rlast := base r + (size r - 1)).
  pose proof (Z.mod_pos_bound (base r) page_size ltac:(lia)).
  pose proof (Z.mod_le (base r) page_size ltac:(lia) ltac:(lia)).
  set (rs := base r - base r mod page_size).
  assert (rs mod page_size = 0) as Hrs.
  { unfold rs. rewrite Zminus_mod, Zmod_mod, Z.sub_diag. apply Z.mod_0_l. lia. }
  assert (forall p, p mod page_size = 0 -> rs <= p <-> base r < p + page_size) as Hlo.
  { intros p Hp. split; [lia |]. intros. apply (aligned_le page_size); [lia | done | done | lia]. }
  destruct (Z.le_gt_cases (rlast + (page_size - 1)) usize_max) as [Hfit | Hover].
  - destruct (align_up_eq rlast ltac:(lia) Hfit) as (u & -> & Hu & Hur).
    unfold extent_ok, x_hi, removes; cbn [rstart rend to_top orb].
    destruct (u =? 0) eqn:Eu; b2p.
    + split; [split_and!; lia |]. intros p Hp Hpm. rewrite (Hlo p Hp). lia.
    + split; [split_and!; lia |].
      intros p Hp Hpm. rewrite (Hlo p Hp). pose proof (align_up_le rlast u p Hp Hu Hur).
      assert (rlast <> 0 \/ rlast = 0) as [| Hz] by lia; [lia |]. exfalso. apply Eu.
      assert (u <= 0); [| lia]. apply (aligned_le page_size); [lia | done | by apply Z.mod_0_l; lia | lia].
  - unfold align_up_checked. cmp. unfold extent_ok, x_hi, removes; cbn [rstart rend to_top orb].
    split; [split_and!; try lia; done |]. intros p Hp Hpm. rewrite (Hlo p Hp).
    pose proof (aligned_below_top p Hp Hpm). lia.
Qed.

Lemma subtract_all_spec inputs work work' :
  Forall (fun d => input_ok (DiscoveredRegion.region d)) inputs -> Forall (piece page_size) work ->
  subtract_all page_size inputs work = Ok work' ->
  Forall (piece page_size) work' /\
  forall p, p mod page_size = 0 -> p <= usize_max ->
    in_ranges work' p <-> in_ranges work p /\
      forall d, d ∈ inputs -> usable (DiscoveredRegion.region d) = false ->
        ~ removes page_size (DiscoveredRegion.region d) p.
Proof.
  intros Hok. revert work. induction Hok as [| d inputs Hd Hok IH]; intros work Hw; cbn [subtract_all].
  { intros [= <-]. split; [done |]. intros p _ _. split; [| by intros [? _]].
    intros ?. split; [done |]. by intros ? ?%not_elem_of_nil. }
  assert (forall p, (forall d', d' ∈ d :: inputs -> usable (DiscoveredRegion.region d') = false ->
                      ~ removes page_size (DiscoveredRegion.region d') p) <->
                    (usable (DiscoveredRegion.region d) = false -> ~ removes page_size (DiscoveredRegion.region d) p) /\
                    (forall d', d' ∈ inputs -> usable (DiscoveredRegion.region d') = false ->
                      ~ removes page_size (DiscoveredRegion.region d') p)) as Hcons.
  { intros p. setoid_rewrite elem_of_cons. split; [intros Hx; split; auto |].
    intros [? ?] d' [-> | ?]; auto. }
  destruct (usable (DiscoveredRegion.region d)) eqn:Eu.
  - intros Hsub. apply IH in Hsub as [Hok' Hin]; [| done]. split; [done |].
    intros p Hp Hpm. rewrite Hin, Hcons by done. split; [by intros [? ?] | by intros [? [_ ?]]].
  - destruct (reservation_spec _ Hd) as [Hx Hrem].
    destruct (subtract _ _ work) as [work1 |] eqn:Es; [| done].
    apply subtract_spec in Es as [Hw1 Hin1]; [| done | done |].
    2: { unfold overlapping. pose proof (filter_length_le (fun w => negb (misses (reservation page_size
           (DiscoveredRegion.region d)) w)) work). lia. }
    intros Hsub. apply IH in Hsub as [Hok' Hin]; [| done]. split; [done |].
    intros p Hp Hpm. rewrite Hin, Hcons, Hin1, Hrem by done. tauto.
Qed.

(** Phase 3: a sorted permutation. *)
Fixpoint ascending (low : Z) (work : list MemoryRegion.t) : Prop :=
  match work with
  | [] => True
  | w :: rest => low <= base w /\ ascending (base w) rest
  end.

Fixpoint descending (work : list MemoryRegion.t) : Prop :=
  match work with
  | [] => True
  | w :: rest => Forall (fun v => base v <= base w) rest /\ descending rest
  end.

Lemma sift_perm key l : sift key l ≡ₚ key :: l.
Proof.
  induction l as [| x l IH]; cbn; [done |]. case_match; [| done].
  rewrite IH. by rewrite Permutation_swap.
Qed.

Lemma sift_descending key l : descending l -> descending (sift key l).
Proof.
  induction l as [| x l IH]; cbn; [by repeat constructor |]. intros [Hx Hl].
  destruct (base key <? base x) eqn:E; b2p.
  - cbn. split; [| by apply IH]. rewrite sift_perm. constructor; [lia | done].
  - cbn. split; [| done]. constructor; [lia |]. eapply Forall_impl; [exact Hx |]. cbn. lia.
Qed.

Lemma sort_fold work acc : descending acc ->
  let out := fold_left (fun acc key => sift key acc) work acc in descending out /\ out ≡ₚ work ++ acc.
Proof.
  revert acc. induction work as [| w work IH]; intros acc Ha; cbn; [done |].
  destruct (IH (sift w acc) (sift_descending w acc Ha)) as [Hd Hp]. split; [done |].
  rewrite Hp, sift_perm. by rewrite Permutation_middle.
Qed.

Lemma ascending_snoc low l w :
  ascending low l -> Forall (fun v => base v <= base w) l -> low <= base w -> ascending low (l ++ [w]).
Proof.
  revert low. induction l as [| x l IH]; intros low; cbn; [done |].
  intros [? ?] Hf ?. inversion_clear Hf. split; [done |]. by apply IH.
Qed.

Lemma descending_rev l : Forall (fun w => 0 <= base w) l -> descending l -> ascending 0 (rev l).
Proof.
  induction l as [| w l IH]; cbn; [done |]. intros Hn [Hw Hl]. inversion_clear Hn.
  apply ascending_snoc; [by apply IH | | done]. by rewrite rev_Permutation || (apply Forall_rev; done).
Qed.

Lemma sort_by_base_spec work : Forall (fun w => 0 <= base w) work ->
  sort_by_base work ≡ₚ work /\ ascending 0 (sort_by_base work).
Proof.
  intros Hn. unfold sort_by_base. destruct (sort_fold work [] I) as [Hd Hp]. rewrite app_nil_r in Hp.
  split; [by rewrite <- Permutation_rev |]. apply descending_rev; [by rewrite Hp | done].
Qed.

(** Phase 4: the reversed accumulator keeps a gap between neighbours. *)
Fixpoint rgapped (acc : list MemoryRegion.t) : Prop :=
  match acc with
  | [] => True
  | w :: rest => match rest with [] => True | v :: _ => base v + size v < base w end /\ rgapped rest
  end.

Definition head_le (acc : list MemoryRegion.t) (b : Z) : Prop :=
  match acc with [] => True | w :: _ => base w <= b end.

Lemma merge_step_spec acc w :
  Forall (piece page_size) acc -> rgapped acc -> piece page_size w -> head_le acc (base w) ->
  let acc' := merge_step acc w in
  Forall (piece page_size) acc' /\ rgapped acc' /\ (forall b, base w <= b -> head_le acc' b) /\
  forall p, in_ranges acc' p <-> in_ranges acc p \/ base w <= p < base w + size w.
Proof.
  intros Hacc Hg Hw Hle. destruct acc as [| prev rest]; cbn [merge_step].
  { split_and!; [by constructor | done | done |]. intros p. rewrite in_ranges_one.
    split; [by right |]. intros [?%in_ranges_nil |]; done. }
  inversion_clear Hacc as [| ? ? Hp Hrest]. pose proof Hp as (? & ? & ? & Hpa & Hpe).
  pose proof Hw as (? & ? & ? & Hwa & Hwe). cbn in Hle. rewrite !usize_wrap_small by lia.
  replace (base prev + size prev =? 0) with false by lia.
  replace (base w + size w =? 0) with false by lia. cbn [negb andb orb].
  destruct (base w <=? base prev + size prev) eqn:E1; [destruct (_ <? _) eqn:E2 |]; b2p.
  - rewrite usize_wrap_small by lia. cbn [rgapped] in *. split_and!.
    + constructor; [| done]. unfold piece; cbn. split_and!; try lia.
      by replace (base prev + (base w + size w - base prev)) with (base w + size w) by lia.
    + destruct rest; [done |]. cbn in *. tauto.
    + tauto.
    + cbn. lia.
    + intros p. rewrite !in_ranges_cons. cbn. split; [intros [|]; [| tauto] | intros [[|] |]; try tauto]; lia.
  - split_and!; [by constructor | done | cbn; lia |].
    intros p. rewrite !in_ranges_cons. split; [tauto |]. intros [? | ?]; [done |]. left. lia.
  - split_and!; [by repeat constructor | by cbn in *; split_and!; [lia | tauto..] | cbn; lia |].
    intros p. rewrite !in_ranges_cons. tauto.
Qed.

Lemma merge_fold work low acc :
  ascending low work -> (forall b, low <= b -> head_le acc b) ->
  Forall (piece page_size) work -> Forall (piece page_size) acc -> rgapped acc ->
  let out := fold_left merge_step work acc in
  Forall (piece page_size) out /\ rgapped out /\
  forall p, in_ranges out p <-> in_ranges acc p \/ in_ranges work p.
Proof.
  revert low acc. induction work as [| w work IH]; intros low acc Hasc Hh Hw Ha Hg; cbn [fold_left].
  { split_and!; [done | done |]. intros p. pose proof (in_ranges_nil p). tauto. }
  destruct Hasc as [Hlow Hasc]. inversion_clear Hw as [| ? ? Hww Hws].
  destruct (merge_step_spec acc w Ha Hg Hww (Hh _ Hlow)) as (Ha' & Hg' & Hh' & Hin').
  destruct (IH (base w) _ Hasc Hh' Hws Ha' Hg') as (Ho & Hgo & Hino).
  split_and!; [done | done |]. intros p. rewrite Hino, Hin', in_ranges_cons. tauto.
Qed.

Lemma gapped_snoc low l w :
  gapped low l -> Forall (fun v => base v + size v < base w) l -> low <= base w -> gapped low (l ++ [w]).
Proof.
  revert low. induction l as [| x l IH]; intros low; cbn; [done |].
  intros [? ?] Hf ?. inversion_clear Hf. split; [done |]. apply IH; [done | done | lia].
Qed.

Lemma rgapped_below w acc :
  Forall (piece page_size) acc -> rgapped (w :: acc) -> Forall (fun v => base v + size v < base w) acc.
Proof.
  revert w. induction acc as [| v acc IH]; intros w Hp Hg; [constructor |].
  inversion_clear Hp as [| ? ? (? & ? & ?) Hps]. destruct Hg as [Hv Hg].
  constructor; [done |]. eapply Forall_impl; [by apply IH |]. cbn. lia.
Qed.

Lemma rgapped_rev acc : Forall (piece page_size) acc -> rgapped acc -> gapped 0 (rev acc).
Proof.
  induction acc as [| w acc IH]; cbn [rev]; [done |]. intros Hp Hg.
  pose proof Hp as Hp'. inversion_clear Hp' as [| ? ? (? & ?) Hps].
  apply gapped_snoc; [apply IH; [done | by destruct Hg] | apply Forall_rev, rgapped_below; done | done].
Qed.

Lemma in_ranges_perm l1 l2 p : l1 ≡ₚ l2 -> in_ranges l1 p <-> in_ranges l2 p.
Proof. intros Hp. unfold in_ranges. by setoid_rewrite Hp. Qed.

Lemma sort_merge_spec work :
  Forall (piece page_size) work ->
  let out := merge_sorted (sort_by_base work) in
  Forall (piece page_size) out /\ gapped 0 out /\ forall p, in_ranges out p <-> in_ranges work p.
Proof.
  intros Hw. destruct (sort_by_base_spec work) as [Hperm Hasc].
  { eapply Forall_impl; [exact Hw |]. by intros ? (? & _). }
  unfold merge_sorted.
  destruct (merge_fold (sort_by_base work) 0 [] Hasc) as (Ho & Hg & Hin);
    [done | by rewrite Hperm | constructor | done |].
  cbn zeta. split_and!; [by apply Forall_rev | by apply rgapped_rev |]. intros p.
  rewrite (in_ranges_perm (rev _) _ p) by (symmetry; apply Permutation_rev).
  rewrite Hin, (in_ranges_perm _ _ p Hperm). pose proof (in_ranges_nil p). tauto.
Qed.

(** Every failure of the phases is an exhausted array. *)
Lemma collect_err inputs work e : collect page_size inputs work = Err e -> e = StatusCode.overflow.
Proof.
  revert work. induction inputs as [| d inputs IH]; intros work; cbn; [done |].
  destruct (candidate _ _); [| apply IH]. case_match; [by intros [= <-] | apply IH].
Qed.

Lemma append_pieces_err work pieces e : append_pieces work pieces = Err e -> e = StatusCode.overflow.
Proof.
  revert work. induction pieces as [| q pieces IH]; intros work; cbn; [done |].
  case_match; [by intros [= <-] | apply IH].
Qed.

Lemma subtract_err fuel x work e : subtract fuel x work = Err e -> e = StatusCode.overflow.
Proof.
  revert work. induction fuel as [| fuel IH]; intros work; cbn [subtract]; [done |].
  destruct (first_overlap _ _); [| done]. destruct (append_pieces _ _) eqn:Ea; [apply IH |].
  intros [= <-]. by eapply append_pieces_err.
Qed.

Lemma subtract_all_err inputs work e :
  subtract_all page_size inputs work = Err e -> e = StatusCode.overflow.
Proof.
  revert work. induction inputs as [| d inputs IH]; intros work; cbn [subtract_all]; [done |].
  destruct (usable _); [apply IH |]. destruct (subtract _ _ _) eqn:Es; [apply IH |].
  intros [= <-]. by eapply subtract_err.
Qed.

Lemma normalize_err m m' e :
  normalize m page_size = (m', e) -> e <> StatusCode.ok -> m' = m /\ e = StatusCode.overflow.
Proof.
  unfold normalize. rewrite page_pow2. cbn [negb].
  destruct (collect _ _ _) eqn:Ec; [destruct (subtract_all _ _ _) eqn:Es |]; intros [= <- <-] He.
  - done.
  - by apply subtract_all_err in Es.
  - by apply collect_err in Ec.
Qed.

(** What normalize() computes, when it succeeds. *)
Lemma normalize_ok m m' :
  Forall input_ok (regions_of m) ->
  Forall (fun r => usable r = true -> below_top page_size r) (regions_of m) ->
  normalize m page_size = (m', StatusCode.ok) ->
  inputs_ m' = inputs_ m /\ normalized_ m' = true /\
  Forall (piece page_size) (usable_ m') /\ gapped 0 (usable_ m') /\
  forall p, p mod page_size = 0 -> p <= usize_max ->
    in_ranges (usable_ m') p <->
    byte_usable (regions_of m) p = true /\
    forall r, r ∈ regions_of m -> usable r = false -> ~ removes page_size r p.
Proof.
  intros Hok Hbt. unfold normalize. rewrite page_pow2. cbn [negb].
  unfold regions_of in Hok, Hbt. rewrite Forall_fmap in Hok, Hbt.
  destruct (collect _ _ _) as [work |] eqn:Ec; [| intros [= <- ->]; by apply collect_err in Ec].
  destruct (subtract_all _ _ _) as [work' |] eqn:Es; [| intros [= <- ->]; by apply subtract_all_err in Es].
  intros [= <-]. cbn [inputs_ normalized_ usable_].
  apply collect_spec in Ec as [Hw Hin]; [| done | done | constructor].
  apply subtract_all_spec in Es as [Hw' Hin']; [| done | done].
  destruct (sort_merge_spec work' Hw') as (Ho & Hg & Hino).
  split_and!; [done | done | done | done |]. intros p Hp Hpm.
  rewrite Hino, Hin', Hin by done. fold (regions_of m). pose proof (in_ranges_nil p).
  assert ((forall d, d ∈ inputs_ m -> usable (DiscoveredRegion.region d) = false ->
             ~ removes page_size (DiscoveredRegion.region d) p) <->
          (forall r, r ∈ regions_of m -> usable r = false -> ~ removes page_size r p)) as ->; [| tauto].
  unfold regions_of. setoid_rewrite list_elem_of_fmap. split.
  - intros Hd r (d & -> & Hin2). by apply Hd.
  - intros Hr d Hin2. apply Hr. by exists d.
Qed.
End Facts.

(** ** The contract in bytes *)
Section Contract.
Context `{Arch} (page_size : Z).
Implicit Types regions : list MemoryRegion.t.

(** The documented contract: every byte of the page is usable and none is reserved. *)
Definition page_free regions (p : Z) : Prop := forall a, p <= a < p + page_size -> byte_free regions a = true.

(** The first byte of memory is reserved, and nothing behind it by the same reservation. *)
Definition first_byte_reserved regions : Prop :=
  exists r, r ∈ regions /\ usable r = false /\ base r = 0 /\ size r = 1.

(** Every reservation that meets the page ends at its first byte. *)
Definition reserved_at_most_at_start regions (p : Z) : Prop :=
  forall r, r ∈ regions -> usable r = false -> base r < p + page_size -> p <= base r + size r - 1 -> base r + size r - 1 = p.

(** Inputs on which the rounding is harmless: usable memory ends on page
    boundaries, and no reservation ends at the first byte of a page. *)
Definition whole_pages regions : Prop :=
  forall r, r ∈ regions -> if usable r then (base r + size r) mod page_size = 0 else (base r + size r - 1) mod page_size <> 0.

Lemma byte_usable_spec regions a : byte_usable regions a = true <->
  exists r, r ∈ regions /\ usable r = true /\ base r <= a < base r + size r.
Proof.
  unfold byte_usable, covers. rewrite existsb_exists. setoid_rewrite <- list_elem_of_In.
  setoid_rewrite andb_true_iff. setoid_rewrite andb_true_iff. setoid_rewrite Z.leb_le. by setoid_rewrite Z.ltb_lt.
Qed.

Lemma byte_reserved_spec regions a : byte_reserved regions a = true <->
  exists r, r ∈ regions /\ usable r = false /\ base r <= a < base r + size r.
Proof.
  unfold byte_reserved, covers. rewrite existsb_exists. setoid_rewrite <- list_elem_of_In.
  setoid_rewrite andb_true_iff. setoid_rewrite andb_true_iff. setoid_rewrite negb_true_iff.
  setoid_rewrite Z.leb_le. by setoid_rewrite Z.ltb_lt.
Qed.

Lemma not_reserved regions r a : byte_free regions a = true -> r ∈ regions -> usable r = false ->
  ~ base r <= a < base r + size r.
Proof.
  unfold byte_free. rewrite andb_true_iff, negb_true_iff. intros [_ Hf] Hin Hr Ha.
  apply not_true_iff_false in Hf. apply Hf, byte_reserved_spec. eauto.
Qed.

Lemma page_free_start regions p : 0 < page_size -> Forall input_ok regions -> page_free regions p ->
  byte_usable regions p = true /\ reserved_at_most_at_start regions p.
Proof.
  intros Hps Hok Hf. split; [specialize (Hf p ltac:(lia)); unfold byte_free in Hf; by b2p |].
  intros r Hin Hr Hlo Hhi. rewrite Forall_forall in Hok. destruct (Hok r Hin) as (? & ? & _). exfalso.
  apply (not_reserved regions r (Z.max p (base r)) (Hf (Z.max p (base r)) ltac:(lia)) Hin Hr). lia.
Qed.

(** A page whose reservations stop at its start is not free for one of two reasons. *)
Lemma page_not_free regions p : 0 < page_size -> reserved_at_most_at_start regions p -> Forall input_ok regions ->
  ~ page_free regions p <->
  (exists r, r ∈ regions /\ usable r = false /\ base r + size r - 1 = p) \/
  (exists a, p <= a < p + page_size /\ byte_usable regions a = false).
Proof.
  intros Hps Hat Hok. split.
  - intros Hnf. destruct (decide (Exists (fun r => usable r = false /\ base r + size r - 1 = p) regions)) as [He | Hne].
    { left. by apply Exists_exists in He. }
    destruct (decide (Forall (fun a => byte_usable regions a = true) (seqZ p page_size))) as [Hall | Hex].
    + destruct Hnf. intros a Ha. unfold byte_free. rewrite andb_true_iff, negb_true_iff. rewrite Forall_forall in Hall.
      split; [apply Hall, elem_of_seqZ; lia |]. apply not_true_is_false. intros (r & Hin & Hu & Hr)%byte_reserved_spec.
      apply Hne, Exists_exists. exists r. split_and!; try done. apply Hat; done || lia.
    + right. apply not_Forall_Exists, Exists_exists in Hex as (a & Ha%elem_of_seqZ & Hu); [| apply _].
      exists a. split; [lia | by apply not_true_is_false].
  - intros [(r & Hin & Hu & He) | (a & Ha & Hu)] Hf.
    + rewrite Forall_forall in Hok. destruct (Hok r Hin) as (? & ? & _).
      apply (not_reserved regions r p (Hf p ltac:(lia)) Hin Hu). lia.
    + specialize (Hf a Ha). unfold byte_free in Hf. by rewrite Hu in Hf.
Qed.

(** What no reservation removes, in bytes. *)
Lemma not_removed regions p : 0 < page_size -> 0 <= p -> Forall input_ok regions ->
  (forall r, r ∈ regions -> usable r = false -> ~ removes page_size r p) <->
  reserved_at_most_at_start regions p /\ ~ first_byte_reserved regions.
Proof.
  intros Hps Hp Hok. rewrite Forall_forall in Hok. unfold removes. split.
  - intros Hr. split.
    + intros r Hin Hu Hlo Hhi. specialize (Hr r Hin Hu). destruct (decide (base r + size r - 1 = p)); [done | exfalso]. apply Hr. lia.
    + intros (r & Hin & Hu & Hb & Hs). apply (Hr r Hin Hu). lia.
  - intros [Hat Hz] r Hin Hu [Hlo [Hhi | He]].
    + specialize (Hat r Hin Hu Hlo ltac:(lia)). lia.
    + destruct (Hok r Hin) as (? & ? & _). apply Hz. exists r. split_and!; done || lia.
Qed.
End Contract.

Section Normalized.
Context `{Arch} (page_size : Z) (m : t).
Hypothesis page_pow2 : is_pow2b page_size = true.
Hypothesis page_range : 0 < page_size <= usize_max.
Hypothesis accepted : Forall input_ok (regions_of m).
Hypothesis below : Forall (fun r => usable r = true -> below_top page_size r) (regions_of m).

(** The pages that come out, in bytes of the inputs. *)
Lemma normalize_pages m' : normalize m page_size = (m', StatusCode.ok) ->
  forall p, p mod page_size = 0 -> 0 <= p <= usize_max ->
    in_ranges (usable_ m') p <->
    byte_usable (regions_of m) p = true /\ reserved_at_most_at_start page_size (regions_of m) p /\
    ~ first_byte_reserved (regions_of m).
Proof.
  intros Hn p Hal Hp. destruct (normalize_ok page_size page_pow2 page_range m m' accepted below Hn) as (_ & _ & _ & _ & ->); [| done | lia].
  by rewrite (not_removed page_size (regions_of m) p) by (done || lia).
Qed.

Lemma whole_pages_free p : whole_pages page_size (regions_of m) -> p mod page_size = 0 -> 0 <= p ->
  byte_usable (regions_of m) p = true -> reserved_at_most_at_start page_size (regions_of m) p -> page_free page_size (regions_of m) p.
Proof.
  intros Hw Hal Hp (r & Hin & Hu & Hr)%byte_usable_spec Hat a Ha. unfold byte_free. rewrite andb_true_iff, negb_true_iff. split.
  - apply byte_usable_spec. exists r. split_and!; try done; [lia |]. specialize (Hw r Hin). rewrite Hu in Hw.
    assert (p <= base r + size r - page_size); [| lia].
    apply (aligned_le page_size); [lia | done | | lia]. by rewrite Zminus_mod, Hw, Z_mod_same_full.
  - apply not_true_is_false. intros (x & Hx & Hux & Hc)%byte_reserved_spec. specialize (Hw x Hx). rewrite Hux in Hw.
    specialize (Hat x Hx Hux ltac:(lia) ltac:(lia)). by rewrite Hat in Hw.
Qed.

Lemma whole_pages_first : whole_pages page_size (regions_of m) -> ~ first_byte_reserved (regions_of m).
Proof. intros Hw (r & Hin & Hu & Hb & Hs). specialize (Hw r Hin). rewrite Hu, Hb, Hs in Hw. apply Hw. by apply Z.mod_0_l; lia. Qed.
End Normalized.

(** C15: normalize() is total and keeps its contract on inputs for which the
    rounding is harmless ([whole_pages]: usable memory ends on page boundaries,
    no reservation ends at the first byte of a page) and whose usable memory
    stays out of the topmost page of the address space.  It fails with overflow
    and changes nothing, or produces ranges that are page aligned, sorted and
    separated by gaps and that hold exactly the pages all of whose bytes are
    usable and unreserved: reservations always win. *)
Theorem normalize_exact `{Arch} page_size m :
  is_pow2b page_size = true -> 0 < page_size <= usize_max ->
  Forall input_ok (regions_of m) ->
  Forall (fun r => usable r = true -> below_top page_size r) (regions_of m) ->
  whole_pages page_size (regions_of m) ->
  let '(m', status) := normalize m page_size in
  (status = StatusCode.overflow /\ m' = m) \/
  (status = StatusCode.ok /\ normalized_ m' = true /\ inputs_ m' = inputs_ m /\
   Forall (piece page_size) (usable_ m') /\ gapped 0 (usable_ m') /\
   forall p, p mod page_size = 0 -> 0 <= p <= usize_max ->
     in_ranges (usable_ m') p <-> page_free page_size (regions_of m) p).
Proof.
  intros Hp Hr Hok Hbt Hw. destruct (normalize m page_size) as [m' st] eqn:En.
  destruct (decide (st = StatusCode.ok)) as [-> | Hne]; [right | left; by destruct (normalize_err page_size Hp m m' st En Hne)].
  destruct (normalize_ok page_size Hp Hr m m' Hok Hbt En) as (? & ? & ? & ? & _). split_and!; try done.
  intros p Hal Hpm. rewrite (normalize_pages page_size m Hp Hr Hok Hbt m' En p Hal Hpm). split.
  - intros (Hu & Hat & _). by apply whole_pages_free; try lia.
  - intros Hf. destruct (page_free_start page_size (regions_of m) p ltac:(lia) Hok Hf).
    split_and!; try done. by apply (whole_pages_first page_size m).
Qed.

(** C37: what the rounding does on any accepted inputs with usable memory below
    the topmost page.  A page comes out exactly when its first byte is usable,
    every reservation that meets it ends at that byte, and byte 0 is not
    reserved alone.  So a page that is not wholly free is handed out exactly
    when, besides, a reservation ends at its first byte or some byte of it is
    not usable; and a wholly free page is lost exactly when byte 0 is reserved
    alone, and then every page is. *)
Theorem normalize_rounding_gaps `{Arch} page_size m m' :
  is_pow2b page_size = true -> 0 < page_size <= usize_max ->
  Forall input_ok (regions_of m) ->
  Forall (fun r => usable r = true -> below_top page_size r) (regions_of m) ->
  normalize m page_size = (m', StatusCode.ok) ->
  let regions := regions_of m in
  forall p, p mod page_size = 0 -> 0 <= p <= usize_max ->
    let out := in_ranges (usable_ m') p in
    (out <-> byte_usable regions p = true /\ reserved_at_most_at_start page_size regions p /\ ~ first_byte_reserved regions) /\
    (out -> ~ page_free page_size regions p <->
       (exists r, r ∈ regions /\ usable r = false /\ base r + size r - 1 = p) \/
       (exists a, p <= a < p + page_size /\ byte_usable regions a = false)) /\
    (page_free page_size regions p -> ~ out <-> first_byte_reserved regions) /\
    (first_byte_reserved regions -> ~ out).
Proof.
  intros Hp Hr Hok Hbt Hn regions p Hal Hpm out.
  pose proof (normalize_pages page_size m Hp Hr Hok Hbt m' Hn p Hal Hpm) as Hout. fold regions out in Hout.
  split_and!; [done | | | tauto].
  - intros (_ & Hat & _)%Hout. apply page_not_free; done || lia.
  - intros Hf. destruct (page_free_start page_size regions p ltac:(lia) Hok Hf) as [Hu Hat].
    rewrite Hout. split; [| tauto]. intros Hno. destruct (decide (Exists (fun r => usable r = false /\ base r = 0 /\ size r = 1) regions)) as [He | Hne].
    + by apply Exists_exists in He.
    + destruct Hno. split_and!; try done. intros (r & ? & ?). by apply Hne, Exists_exists; exists r.
Qed.

(** ** Witnesses *)
Section MapWitnesses.
#[local] Existing Instance arch64.

(** Memory from 64 KiB with a kernel image in the second of its four pages. *)
Definition sample_map : t :=
  mk [DiscoveredRegion.mk (MemoryRegion.mk 65536 16384 RegionType.usable) MapSource.fdt;
      DiscoveredRegion.mk (MemoryRegion.mk 69632 100 RegionType.kernel_image) MapSource.linker] [] false.

Lemma sample_whole_pages : whole_pages 4096 (regions_of sample_map).
Proof. intros r Hr. repeat (apply elem_of_cons in Hr as [-> | Hr]; [by vm_compute |]). by apply not_elem_of_nil in Hr. Qed.

Lemma normalize_witness :
  exists m', normalize sample_map 4096 = (m', StatusCode.ok) /\
    usable_ m' = [MemoryRegion.mk 65536 4096 RegionType.usable; MemoryRegion.mk 73728 8192 RegionType.usable] /\
    forall p, p mod 4096 = 0 -> 0 <= p <= usize_max ->
      in_ranges (usable_ m') p <-> page_free 4096 (regions_of sample_map) p.
Proof.
  pose proof (normalize_exact 4096 sample_map) as Hn.
  assert (exists m', normalize sample_map 4096 = (m', StatusCode.ok) /\
    usable_ m' = [MemoryRegion.mk 65536 4096 RegionType.usable; MemoryRegion.mk 73728 8192 RegionType.usable])
    as (m' & He & Hu) by (eexists; split; vm_compute; reflexivity).
  exists m'. rewrite He in Hn.
  destruct Hn as [[Hf _] | (_ & _ & _ & _ & _ & Hn)]; [concrete.. | exact sample_whole_pages | done | done].
Defined.

(** Three usable pages of which the second starts with a reserved byte and the
    third holds 100 usable bytes: all three come out, one of them free. *)
Definition ragged_map : t :=
  mk [DiscoveredRegion.mk (MemoryRegion.mk 0 8292 RegionType.usable) MapSource.fdt;
      DiscoveredRegion.mk (MemoryRegion.mk 4096 1 RegionType.reserved) MapSource.linker] [] false.

Lemma rounding_witness :
  exists m', normalize ragged_map 4096 = (m', StatusCode.ok) /\ usable_ m' = [MemoryRegion.mk 0 12288 RegionType.usable] /\
    ~ page_free 4096 (regions_of ragged_map) 4096 /\ ~ page_free 4096 (regions_of ragged_map) 8192.
Proof.
  assert (exists m', normalize ragged_map 4096 = (m', StatusCode.ok) /\ usable_ m' = [MemoryRegion.mk 0 12288 RegionType.usable])
    as (m' & He & Hu) by (eexists; split; vm_compute; reflexivity).
  pose proof (fun p Hal Hp => proj1 (proj2 (normalize_rounding_gaps 4096 ragged_map m' ltac:(by concrete) ltac:(by concrete)
    ltac:(by concrete) ltac:(by concrete) He p Hal Hp))) as Hn. cbv zeta in Hn.
  assert (in_ranges (usable_ m') 4096 /\ in_ranges (usable_ m') 8192) as [H1 H2]
    by (rewrite Hu; split; (eexists; split; [left | by concrete])).
  exists m'. split_and!; [exact He | exact Hu | |].
  - apply (proj2 (Hn 4096 ltac:(by concrete) ltac:(by concrete) H1)). left.
    exists (MemoryRegion.mk 4096 1 RegionType.reserved). split; [right; left | done].
  - apply (proj2 (Hn 8192 ltac:(by concrete) ltac:(by concrete) H2)). right. exists 8292. by concrete.
Defined.

(** Two usable regions that both reach the top of the address space come out overlapping. *)
Example normalize_top_overlap :
  let u b s := DiscoveredRegion.mk (MemoryRegion.mk b s RegionType.usable) MapSource.fdt in
  usable_ (fst (normalize (mk [u (2 ^ 64 - 8192) 8192; u (2 ^ 64 - 4096) 4096] [] false) 4096)) =
    [MemoryRegion.mk (2 ^ 64 - 8192) 8192 RegionType.usable; MemoryRegion.mk (2 ^ 64 - 4096) 4096 RegionType.usable].
Proof. vm_compute. reflexivity. Qed.
End MapWitnesses.
