(* ===== verification/Frames.v ===== *)
(** * The physical frame allocator (include/ok/memory/frames.hpp, src/memory/memory.cpp)

    A bitmap and a descriptor array over the free pages of the sweep.  A handle
    names its allocator, the frame and the generation of the allocation; every
    operation checks it.  [wf] is the allocator's invariant. *)

From S2P Require Import Prelude Charges Regions Sweep.

Module PageDescriptor.
Record t := mk {
  generation : Z;   (* u64, zero while the frame is free *)
  references : Z;   (* u32 *)
  pins : Z;         (* u16 *)
  kind : Z;         (* u8 *)
  flags : Z         (* u8 *)
}.
Definition zero : t := mk 0 0 0 0 0.
#[global] Instance t_inhabited : Inhabited t := populate zero.
End PageDescriptor.

(** enum class PageKind. *)
Module PageKind.
Definition unowned : Z := 0.
Definition native_user : Z := 1.
Definition native_object : Z := 2.
Definition kernel_slab : Z := 3.
Definition kernel_large : Z := 4.
Definition page_cache : Z := 5.
End PageKind.

(** [owner] is the address of the allocator object. *)
Module PhysicalFrame.
Record t := mk { address : Z; index : Z; owner : Z; generation : Z }.
End PhysicalFrame.

Module FrameRange.
Record t := mk { base : Z; first_index : Z; count : Z }.
#[global] Instance t_inhabited : Inhabited t := populate (mk 0 0 0).
End FrameRange.

Module FrameAllocator.
Section Defs.
Context `{Arch}.

(** [this] is the object's address; [*_data] are the data pointers of the spans. *)
Record t := mk {
  this : Z;
  page_size_ : Z;
  frame_count_ : Z;
  used_count_ : Z;
  next_free_hint_ : Z;
  next_generation_ : Z;
  bitmap_ : list Z;
  descriptors_ : list PageDescriptor.t;
  ranges_ : list FrameRange.t;
  bitmap_data : Z;
  descriptors_data : Z;
  ranges_data : Z
}.

Definition new (this : Z) : t := mk this 4096 0 0 0 1 [] [] [] 0 0 0.

(** Field updates. *)
Definition with_bitmap (a : t) (b : list Z) : t :=
  mk (this a) (page_size_ a) (frame_count_ a) (used_count_ a) (next_free_hint_ a)
     (next_generation_ a) b (descriptors_ a) (ranges_ a) (bitmap_data a) (descriptors_data a) (ranges_data a).
Definition with_descriptors (a : t) (d : list PageDescriptor.t) : t :=
  mk (this a) (page_size_ a) (frame_count_ a) (used_count_ a) (next_free_hint_ a)
     (next_generation_ a) (bitmap_ a) d (ranges_ a) (bitmap_data a) (descriptors_data a) (ranges_data a).
Definition with_used (a : t) (u : Z) : t :=
  mk (this a) (page_size_ a) (frame_count_ a) u (next_free_hint_ a)
     (next_generation_ a) (bitmap_ a) (descriptors_ a) (ranges_ a) (bitmap_data a) (descriptors_data a) (ranges_data a).
Definition with_hint (a : t) (h : Z) : t :=
  mk (this a) (page_size_ a) (frame_count_ a) (used_count_ a) h
     (next_generation_ a) (bitmap_ a) (descriptors_ a) (ranges_ a) (bitmap_data a) (descriptors_data a) (ranges_data a).
Definition with_generation (a : t) (g : Z) : t :=
  mk (this a) (page_size_ a) (frame_count_ a) (used_count_ a) (next_free_hint_ a)
     g (bitmap_ a) (descriptors_ a) (ranges_ a) (bitmap_data a) (descriptors_data a) (ranges_data a).

(** Storage for [frames] descriptors in [ranges] ranges, with alignment slack. *)
Definition metadata_bytes_for (frames ranges : Z) : Z :=
  usize_wrap (usize_wrap (frames + 63) / 64 * 8 + frames * sizeof_PageDescriptor
              + ranges * sizeof_FrameRange + metadata_alignment - 1).

Definition metadata_bytes (regions : list MemoryRegion.t) (page_size : Z) : result Z :=
  match count_usable regions page_size with
  | Err e => Err e
  | Ok totals => Ok (metadata_bytes_for (frames totals) (ranges totals))
  end.

(** The placement of the three arrays in the storage that starts at [start]. *)
Definition metadata_layout (start frames : Z) : Z * Z * Z :=
  let aligned := Z.land (usize_wrap (start + metadata_alignment - 1)) (usize_not (metadata_alignment - 1)) in
  let cursor := start + (aligned - start) in
  let words := (frames + 63) / 64 in
  (cursor, cursor + words * 8, cursor + words * 8 + frames * sizeof_PageDescriptor).

(** The range-building callback of initialize(): (next index, ranges so far). *)
Definition range_emit (acc : Z * list FrameRange.t) (base count : Z) : (Z * list FrameRange.t) * Status :=
  ((acc.1 + count, acc.2 ++ [FrameRange.mk base acc.1 count]), StatusCode.ok).

Definition initialize (a : t) (regions : list MemoryRegion.t) (page_size : Z)
    (metadata_data metadata_size : Z) : t * Status :=
  if negb (used_count_ a =? 0) then (a, StatusCode.busy)
  else
    match count_usable regions page_size with
    | Err e => (a, e)
    | Ok totals =>
        let frames := frames totals in
        if (metadata_data =? 0) || (metadata_size <? metadata_bytes_for frames (ranges totals))
        then (a, StatusCode.no_memory)
        else
          let '(bitmap_at, descriptors_at, ranges_at) := metadata_layout metadata_data frames in
          let words := (frames + 63) / 64 in
          let bitmap := replicate (Z.to_nat words) 0 in
          let bitmap := if negb (frames mod 64 =? 0)
                        then bitmap.[words - 1 := u64_wrap (Z.shiftl u64_max (frames mod 64))]
                        else bitmap in
          let descriptors := replicate (Z.to_nat frames) PageDescriptor.zero in
          let built := fst (sweep_usable page_size range_emit regions (0, [])) in
          (mk (this a) page_size frames (used_count_ a) 0 (next_generation_ a) bitmap descriptors
              built.2 bitmap_at descriptors_at ranges_at, StatusCode.ok)
    end.

(** Accessors. *)
Definition initialized (a : t) : bool := negb (frame_count_ a =? 0).
Definition page_size (a : t) : Z := page_size_ a.
Definition total_frames (a : t) : Z := frame_count_ a.
Definition free_frames (a : t) : Z := frame_count_ a - used_count_ a.
Definition used_frames (a : t) : Z := used_count_ a.

Definition used (a : t) (index : Z) : bool :=
  negb (Z.land (Z.shiftr (bitmap_ a).[index / 64] (index mod 64)) 1 =? 0).

Definition mark (a : t) (index : Z) (value : bool) : t :=
  let mask := bit64 (index mod 64) in
  let word := (bitmap_ a).[index / 64] in
  with_bitmap a (bitmap_ a).[index / 64 := if value then Z.lor word mask else Z.land word (u64_not mask)].

(** The binary search of address_for(). *)
Fixpoint address_search (fuel : nat) (ranges : list FrameRange.t) (page_size index low high : Z) : Z :=
  match fuel with
  | O => 0
  | S fuel' =>
      if low <? high then
        let middle := low + (high - low) / 2 in
        let range := ranges.[middle] in
        if index <? FrameRange.first_index range
        then address_search fuel' ranges page_size index low middle
        else if FrameRange.count range <=? index - FrameRange.first_index range
        then address_search fuel' ranges page_size index (middle + 1) high
        else usize_wrap (FrameRange.base range + (index - FrameRange.first_index range) * page_size)
      else 0
  end.

Definition address_for (a : t) (index : Z) : Z :=
  address_search (S (length (ranges_ a))) (ranges_ a) (page_size_ a) index 0 (zlen (ranges_ a)).

(** The binary search of index_of(). *)
Fixpoint index_search (fuel : nat) (ranges : list FrameRange.t) (page_size address low high : Z) : result Z :=
  match fuel with
  | O => Err StatusCode.not_found
  | S fuel' =>
      if low <? high then
        let middle := low + (high - low) / 2 in
        let range := ranges.[middle] in
        if address <? FrameRange.base range
        then index_search fuel' ranges page_size address low middle
        else if FrameRange.count range <=? (address - FrameRange.base range) / page_size
        then index_search fuel' ranges page_size address (middle + 1) high
        else if negb ((address - FrameRange.base range) mod page_size =? 0)
        then Err StatusCode.invalid_argument
        else Ok (FrameRange.first_index range + (address - FrameRange.base range) / page_size)
      else Err StatusCode.not_found
  end.

Definition index_of (a : t) (address : Z) : result Z :=
  if frame_count_ a =? 0 then Err StatusCode.not_initialized
  else index_search (S (length (ranges_ a))) (ranges_ a) (page_size_ a) address 0 (zlen (ranges_ a)).

Definition exact (a : t) (frame : PhysicalFrame.t) : bool :=
  (PhysicalFrame.owner frame =? this a) && (PhysicalFrame.index frame <? frame_count_ a)
  && negb (PhysicalFrame.generation frame =? 0)
  && (PageDescriptor.generation (descriptors_ a).[PhysicalFrame.index frame]
      =? PhysicalFrame.generation frame)
  && (address_for a (PhysicalFrame.index frame) =? PhysicalFrame.address frame).

(** descriptor(): the descriptor of a live exact handle, and the write through
    the returned pointer. *)
Definition descriptor (a : t) (frame : PhysicalFrame.t) : option PageDescriptor.t :=
  if exact a frame then Some (descriptors_ a).[PhysicalFrame.index frame] else None.
Definition write_descriptor (a : t) (frame : PhysicalFrame.t) (d : PageDescriptor.t) : t :=
  with_descriptors a (descriptors_ a).[PhysicalFrame.index frame := d].
Definition live (a : t) (frame : PhysicalFrame.t) : bool := exact a frame.

Definition handle (a : t) (index : Z) : PhysicalFrame.t :=
  PhysicalFrame.mk (address_for a index) index (this a) (PageDescriptor.generation (descriptors_ a).[index]).

Definition handle_at (a : t) (index : Z) : result PhysicalFrame.t :=
  if (frame_count_ a <=? index) || (PageDescriptor.generation (descriptors_ a).[index] =? 0)
  then Err StatusCode.not_found
  else Ok (handle a index).

Definition take (a : t) (index : Z) : t * PhysicalFrame.t :=
  let a := mark a index true in
  let a := with_used a (used_count_ a + 1) in
  let a := with_descriptors a (descriptors_ a).[index := PageDescriptor.mk (next_generation_ a) 0 0 0 0] in
  let a := with_generation a (u64_wrap (next_generation_ a + 1)) in
  (a, handle a index).

(** lowest_clear_bit(): halving widths. *)
Definition lowest_clear_bit_step (s : Z * Z) (width : Z) : Z * Z :=
  let '(clear, index) := s in
  let mask := bit64 width - 1 in
  if Z.land clear mask =? 0 then (Z.shiftr clear width, index + width) else (clear, index).
Definition lowest_clear_bit (bits : Z) : Z :=
  snd (fold_left lowest_clear_bit_step [32; 16; 8; 4; 2; 1] (u64_not bits, 0)).

(** The word scan of allocate(), from [scanned] on, for [n] more words. *)
Fixpoint scan_words (n : nat) (bitmap : list Z) (hint scanned : Z) : option Z :=
  match n with
  | O => None
  | S n' =>
      let word := (hint / 64 + scanned) mod zlen bitmap in
      let bits := bitmap.[word] in
      if bits =? u64_max then scan_words n' bitmap hint (scanned + 1)
      else Some (word * 64 + lowest_clear_bit bits)
  end.

Definition allocate (a : t) : t * result PhysicalFrame.t :=
  if frame_count_ a =? 0 then (a, Err StatusCode.not_initialized)
  else if frame_count_ a <=? used_count_ a then (a, Err StatusCode.no_memory)
  else if next_generation_ a =? 0 then (a, Err StatusCode.overflow)
  else
    match scan_words (S (length (bitmap_ a))) (bitmap_ a) (next_free_hint_ a) 0 with
    | None => (a, Err StatusCode.no_memory)
    | Some index =>
        let '(a, frame) := take a index in
        (with_hint a (if index + 1 <? frame_count_ a then index + 1 else 0), Ok frame)
    end.

Definition allocate_charged (a : t) (account : ChargeAccount.t)
    : t * ChargeAccount.t * result PhysicalFrame.t :=
  if frame_count_ a =? 0 then (a, account, Err StatusCode.not_initialized)
  else
    let '(account, status) := ChargeAccount.charge account 1 in
    if negb (status_ok status) then (a, account, Err status)
    else
      let '(a, frame) := allocate a in
      if negb (result_ok frame) then (a, fst (ChargeAccount.uncharge account 1), frame)
      else (a, account, frame).

(** The run search of allocate_contiguous(): over the offsets of one range, then
    over the ranges; the index of the first frame of the first run that fits. *)
Fixpoint find_in_range (n : nat) (a : t) (count alignment : Z) (range : FrameRange.t)
    (offset run : Z) : option Z :=
  match n with
  | O => None
  | S n' =>
      let run := if used a (FrameRange.first_index range + offset) then 0 else run + 1 in
      let first := usize_wrap (FrameRange.first_index range + offset + 1 - count) in
      if (run <? count) || (negb (alignment =? 0) && negb (address_for a first mod alignment =? 0))
      then find_in_range n' a count alignment range (offset + 1) run
      else Some first
  end.

Fixpoint find_run (a : t) (count alignment : Z) (ranges : list FrameRange.t) : option Z :=
  match ranges with
  | [] => None
  | range :: rest =>
      match find_in_range (Z.to_nat (FrameRange.count range)) a count alignment range 0 0 with
      | Some first => Some first
      | None => find_run a count alignment rest
      end
  end.

(** [for (i = 0; i < count; ++i) take(first + i)]. *)
Fixpoint take_run (n : nat) (a : t) (index : Z) : t :=
  match n with
  | O => a
  | S n' => take_run n' (fst (take a index)) (index + 1)
  end.

Definition allocate_contiguous (a : t) (count : Z) (account : ChargeAccount.t) (alignment : Z)
    : t * ChargeAccount.t * result PhysicalFrame.t :=
  if frame_count_ a =? 0 then (a, account, Err StatusCode.not_initialized)
  else if count =? 0 then (a, account, Err StatusCode.invalid_argument)
  else if negb (Z.land alignment (usize_wrap (alignment - 1)) =? 0)
  then (a, account, Err StatusCode.invalid_argument)
  else if frame_count_ a - used_count_ a <? count then (a, account, Err StatusCode.no_memory)
  else if u64_max - next_generation_ a <? count then (a, account, Err StatusCode.overflow)
  else
    match find_run a count alignment (ranges_ a) with
    | None => (a, account, Err StatusCode.no_memory)
    | Some first =>
        let '(account, status) := ChargeAccount.charge account count in
        if negb (status_ok status) then (a, account, Err status)
        else
          let a := take_run (Z.to_nat count) a first in
          (a, account, handle_at a first)
    end.

(** [for (i = 1; i < count; ++i)]: every further frame is used and adjacent. *)
Fixpoint run_owned (n : nat) (a : t) (first : PhysicalFrame.t) (i : Z) : bool :=
  match n with
  | O => true
  | S n' =>
      if negb (used a (PhysicalFrame.index first + i))
         || negb (address_for a (PhysicalFrame.index first + i)
                  =? usize_wrap (PhysicalFrame.address first + i * page_size_ a))
      then false
      else run_owned n' a first (i + 1)
  end.

(** Clear the bits and descriptors of [n] frames from [index] on. *)
Fixpoint drop_run (n : nat) (a : t) (index : Z) : t :=
  match n with
  | O => a
  | S n' =>
      let a := mark a index false in
      let a := with_descriptors a (descriptors_ a).[index := PageDescriptor.zero] in
      drop_run n' a (index + 1)
  end.

Definition release_contiguous (a : t) (first : PhysicalFrame.t) (count : Z) (account : ChargeAccount.t)
    : t * ChargeAccount.t * Status :=
  if (count =? 0) || negb (exact a first) || (frame_count_ a - PhysicalFrame.index first <? count)
  then (a, account, StatusCode.invalid_argument)
  else if negb (run_owned (Z.to_nat (count - 1)) a first 1)
  then (a, account, StatusCode.invalid_argument)
  else if ChargeAccount.used account <? count then (a, account, StatusCode.invalid_argument)
  else
    let a := drop_run (Z.to_nat count) a (PhysicalFrame.index first) in
    let a := with_used a (used_count_ a - count) in
    let a := if PhysicalFrame.index first <? next_free_hint_ a
             then with_hint a (PhysicalFrame.index first) else a in
    (a, fst (ChargeAccount.uncharge account count), StatusCode.ok).

Definition release (a : t) (frame : PhysicalFrame.t) : t * Status :=
  if negb (exact a frame) || negb (used a (PhysicalFrame.index frame))
  then (a, StatusCode.invalid_argument)
  else
    let a := drop_run 1 a (PhysicalFrame.index frame) in
    let a := with_used a (used_count_ a - 1) in
    let a := if PhysicalFrame.index frame <? next_free_hint_ a
             then with_hint a (PhysicalFrame.index frame) else a in
    (a, StatusCode.ok).

Definition release_charged (a : t) (frame : PhysicalFrame.t) (account : ChargeAccount.t)
    : t * ChargeAccount.t * Status :=
  if negb (exact a frame) || negb (used a (PhysicalFrame.index frame))
  then (a, account, StatusCode.invalid_argument)
  else if ChargeAccount.used account =? 0 then (a, account, StatusCode.invalid_argument)
  else
    let '(a, status) := release a frame in
    if negb (status_ok status) then (a, account, status)
    else (a, fst (ChargeAccount.uncharge account 1), StatusCode.ok).
End Defs.
End FrameAllocator.

(** ** Invariant *)
Section Invariant.
Context `{Arch}.
Import FrameAllocator.

(** Ascending, disjoint, aligned ranges with consecutive frame indices. *)
Fixpoint ranges_wf (page_size low idx : Z) (ranges : list FrameRange.t) : Prop :=
  match ranges with
  | [] => True
  | r :: rest =>
      low <= FrameRange.base r /\ FrameRange.base r mod page_size = 0 /\
      FrameRange.first_index r = idx /\ 0 < FrameRange.count r /\
      FrameRange.base r + FrameRange.count r * page_size <= usize_max /\
      ranges_wf page_size (FrameRange.base r + FrameRange.count r * page_size)
                (idx + FrameRange.count r) rest
  end.

(** Frames of a range list. *)
Definition total_count (ranges : list FrameRange.t) : Z :=
  foldr (fun r acc => FrameRange.count r + acc) 0 ranges.

(** Allocated descriptors. *)
Definition is_live (d : PageDescriptor.t) : bool := negb (PageDescriptor.generation d =? 0).
Definition live_unit (d : PageDescriptor.t) : Z := if is_live d then 1 else 0.
Definition count_live (l : list PageDescriptor.t) : Z := zsum live_unit l.

(** The last generation handed out. *)
Definition issued (a : t) : Z := if next_generation_ a =? 0 then u64_max else next_generation_ a - 1.

Definition generation_at (a : t) (i : Z) : Z := PageDescriptor.generation (descriptors_ a).[i].

Record wf (a : t) : Prop := {
  wf_page : is_pow2b (page_size_ a) = true /\ 0 < page_size_ a;
  wf_ranges : ranges_wf (page_size_ a) 0 0 (ranges_ a);
  wf_total : total_count (ranges_ a) = frame_count_ a;
  wf_descriptors : zlen (descriptors_ a) = frame_count_ a;
  wf_bitmap : zlen (bitmap_ a) = (frame_count_ a + 63) / 64;
  wf_words : Forall (fun w => 0 <= w < 2 ^ 64) (bitmap_ a);
  wf_bits : forall i, 0 <= i < 64 * zlen (bitmap_ a) ->
    used a i = (frame_count_ a <=? i) || negb (generation_at a i =? 0);
  wf_used : used_count_ a = count_live (descriptors_ a);
  wf_hint : 0 <= next_free_hint_ a /\ (0 < frame_count_ a -> next_free_hint_ a < frame_count_ a);
  wf_next : 0 <= next_generation_ a <= u64_max;
  wf_issued : forall i, 0 <= i < frame_count_ a -> 0 <= generation_at a i <= issued a;
  wf_distinct : forall i j, 0 <= i < frame_count_ a -> 0 <= j < frame_count_ a ->
    generation_at a i <> 0 -> generation_at a i = generation_at a j -> i = j
}.
End Invariant.
