(* ===== verification/FrameSearch.v ===== *)
(** * Bit and range searches of the frame allocator

    lowest_clear_bit() finds the lowest clear bit; the bitmap behaves as a set
    of indices; the two binary searches address_for() and index_of() are
    inverse to each other on the managed frames. *)

From S2P Require Import Prelude Charges Regions Sweep Frames.
Import FrameAllocator.

Section Bits.
Context `{Arch}.

(** The state of the halving search: everything below [index] is zero and a
    one is within the next [n] bits. *)
Definition search_inv (clear0 : Z) (n : Z) (s : Z * Z) : Prop :=
  0 <= s.2 /\ s.1 = Z.shiftr clear0 s.2 /\ (forall j, 0 <= j < s.2 -> Z.testbit clear0 j = false) /\
  exists k, 0 <= k < n /\ Z.testbit clear0 (s.2 + k) = true.

Lemma lowest_clear_bit_step_inv clear0 w s :
  0 < w < 64 -> search_inv clear0 (2 * w) s -> search_inv clear0 w (lowest_clear_bit_step s w).
Proof.
  intros Hw (Hi & Hc & Hlow & k & Hk & Hbit). destruct s as [clear index]; cbn [fst snd] in *.
  unfold lowest_clear_bit_step. rewrite bit64_pow by lia.
  replace (2 ^ w - 1) with (Z.ones w) by (rewrite Z.ones_equiv; lia).
  assert (forall j, 0 <= j < w -> Z.testbit (Z.land clear (Z.ones w)) j = Z.testbit clear0 (index + j)) as Hland.
  { intros j Hj. rewrite Z.land_spec, Z.ones_spec_low, andb_true_r by lia.
    rewrite Hc, Z.shiftr_spec by lia. f_equal. lia. }
  destruct (Z.land clear (Z.ones w) =? 0) eqn:E; b2p.
  - assert (forall j, 0 <= j < w -> Z.testbit clear0 (index + j) = false) as Hz.
    { intros j Hj. rewrite <- Hland, E by lia. apply Z.bits_0. }
    unfold search_inv; cbn. split_and!; [lia | | |].
    + rewrite Hc, Z.shiftr_shiftr by lia. done.
    + intros j Hj. destruct (Z.lt_ge_cases j index); [by apply Hlow; lia |].
      rewrite <- (Hz (j - index)) by lia. f_equal. lia.
    + exists (k - w). destruct (Z.lt_ge_cases k w) as [Hkw | Hkw].
      * rewrite Hz in Hbit by lia. done.
      * split; [lia |]. rewrite <- Hbit. f_equal. lia.
  - unfold search_inv; cbn. split_and!; [lia | done | done |].
    destruct (Z.lt_ge_cases k w) as [Hkw | Hkw]; [by exists k; split; [lia |] |].
    set (x := Z.land clear (Z.ones w)) in *.
    assert (0 <= x < 2 ^ w).
    { unfold x. rewrite Z.land_ones by lia. apply Z.mod_pos_bound. apply Z.pow_pos_nonneg; lia. }
    exists (Z.log2 x). pose proof (Z.log2_nonneg x).
    assert (Z.log2 x < w) by (apply Z.log2_lt_pow2; lia). split; [lia |].
    rewrite <- Hland by lia. apply Z.bit_log2. lia.
Qed.

(** lowest_clear_bit() of a word that is not full is its lowest clear bit. *)
Lemma lowest_clear_bit_spec bits :
  0 <= bits < 2 ^ 64 -> bits <> u64_max ->
  0 <= lowest_clear_bit bits < 64 /\ Z.testbit bits (lowest_clear_bit bits) = false /\
  forall j, 0 <= j < lowest_clear_bit bits -> Z.testbit bits j = true.
Proof.
  intros Hb Hne. set (c := u64_not bits).
  assert (forall j, 0 <= j < 64 -> Z.testbit c j = negb (Z.testbit bits j)) as Hc
    by (intros; by apply testbit_u64_not).
  assert (forall j, 64 <= j -> Z.testbit c j = false) as Hc64.
  { intros j Hj. apply (testbit_high _ 64); [apply u64_not_bound | lia]. }
  assert (c <> 0) as Hc0.
  { intros Hz. apply Hne. apply Z.bits_inj'. intros j Hj. unfold u64_max.
    replace (2 ^ 64 - 1) with (Z.ones 64) by (rewrite Z.ones_equiv; lia).
    destruct (Z.lt_ge_cases j 64).
    - rewrite Z.ones_spec_low by lia. specialize (Hc j ltac:(lia)).
      rewrite Hz, Z.bits_0 in Hc. by destruct (Z.testbit bits j).
    - rewrite Z.ones_spec_high, (testbit_high bits 64) by lia. done. }
  assert (search_inv c 64 (c, 0)) as H64.
  { unfold search_inv; cbn. split_and!; [lia | done | lia |]. exists (Z.log2 c).
    pose proof (u64_not_bound bits) as Hr. fold c in Hr. pose proof (Z.log2_nonneg c).
    split; [split; [lia | apply Z.log2_lt_pow2; lia] |]. apply Z.bit_log2. lia. }
  assert (search_inv c 1 (fold_left lowest_clear_bit_step [32; 16; 8; 4; 2; 1] (c, 0))) as Hfin.
  { cbn [fold_left]. do 6 (apply lowest_clear_bit_step_inv; [lia |]). done. }
  unfold lowest_clear_bit. fold c. destruct (fold_left _ _ _) as [clear i].
  destruct Hfin as (Hi & _ & Hlow & k & Hk & Hbit). cbn [fst snd] in *.
  replace (i + k) with i in Hbit by lia.
  assert (i < 64) by (apply Z.nle_gt; intros Hge; by rewrite (Hc64 i Hge) in Hbit).
  split_and!; [lia | done | |].
  - rewrite Hc in Hbit by lia. by apply negb_true_iff.
  - intros j Hj. specialize (Hlow j Hj). rewrite Hc in Hlow by lia. by apply negb_false_iff.
Qed.

(** The bitmap as a set of indices. *)
Lemma used_testbit a i : 0 <= i -> used a i = Z.testbit (bitmap_ a).[i / 64] (i mod 64).
Proof.
  intros Hi. unfold used. pose proof (Z.mod_pos_bound i 64 ltac:(lia)).
  change 1 with (Z.ones 1). rewrite Z.land_ones by lia. change (2 ^ 1) with 2.
  rewrite <- Z.bit0_mod, Z.shiftr_spec, Z.add_0_l by lia. by destruct (Z.testbit _ _).
Qed.

Lemma word_index i n : 0 <= i < 64 * n -> 0 <= i / 64 < n.
Proof.
  intros. split; [apply Z.div_pos; lia | apply Z.div_lt_upper_bound; lia].
Qed.

Lemma used_mark a i j v :
  0 <= i < 64 * zlen (bitmap_ a) -> 0 <= j ->
  used (mark a i v) j = if j =? i then v else used a j.
Proof.
  intros Hi Hj. rewrite !used_testbit by lia. unfold mark; cbn [bitmap_ with_bitmap].
  pose proof (word_index _ _ Hi). pose proof (Z.mod_pos_bound i 64 ltac:(lia)).
  pose proof (Z.mod_pos_bound j 64 ltac:(lia)). pose proof (Z.div_pos j 64 ltac:(lia)).
  rewrite aget_aset by lia.
  pose proof (Z.div_mod i 64 ltac:(lia)). pose proof (Z.div_mod j 64 ltac:(lia)).
  destruct (Z.eqb_spec (j / 64) (i / 64)) as [Hw | Hw].
  - assert (Z.testbit (bit64 (i mod 64)) (j mod 64) = (j =? i)) as Hbit.
    { rewrite testbit_bit64 by lia. destruct (Z.eqb_spec (j mod 64) (i mod 64)), (Z.eqb_spec j i); lia. }
    rewrite <- Hw. destruct v.
    + rewrite Z.lor_spec, Hbit. destruct (j =? i); [apply orb_true_r | apply orb_false_r].
    + rewrite Z.land_spec, testbit_u64_not, Hbit by lia.
      destruct (j =? i); [apply andb_false_r | apply andb_true_r].
  - destruct (Z.eqb_spec j i) as [-> |]; done.
Qed.

Lemma mark_words a i v :
  0 <= i < 64 * zlen (bitmap_ a) -> Forall (fun w => 0 <= w < 2 ^ 64) (bitmap_ a) ->
  Forall (fun w => 0 <= w < 2 ^ 64) (bitmap_ (mark a i v)).
Proof.
  intros Hi Hw. unfold mark; cbn. pose proof (word_index _ _ Hi) as Hr.
  pose proof (Z.mod_pos_bound i 64 ltac:(lia)).
  pose proof (lookup_aget _ _ Hr) as Hl. pose proof (Forall_lookup_1 _ _ _ _ Hw Hl) as Hb. cbn in Hb.
  apply Forall_insert; [done |]. destruct v.
  - apply lor_bound; [lia | done |]. rewrite bit64_pow by lia.
    pose proof (Z.pow_lt_mono_r 2 (i mod 64) 64). pose proof (Z.pow_pos_nonneg 2 (i mod 64)). lia.
  - apply land_bound; [lia | done |]. apply u64_not_bound.
Qed.
End Bits.

Section Ranges.
Context `{Arch} (page_size : Z).
Hypothesis page_pos : 0 < page_size.
Implicit Types ranges : list FrameRange.t.
Import FrameRange.

(** The reference definition: walk the ranges in order. *)
Fixpoint addr_of ranges (index : Z) : Z :=
  match ranges with
  | [] => 0
  | r :: rest => if index <? count r then base r + index * page_size else addr_of rest (index - count r)
  end.

Lemma ranges_wf_nth low idx ranges k :
  ranges_wf page_size low idx ranges -> 0 <= k < zlen ranges ->
  let r := ranges.[k] in
  low <= base r /\ base r mod page_size = 0 /\ idx <= first_index r /\ 0 < count r /\
  base r + count r * page_size <= usize_max.
Proof.
  revert low idx k. induction ranges as [| r ranges IH]; intros low idx k Hwf Hk.
  { change (zlen []) with 0 in Hk. lia. }
  destruct Hwf as (? & ? & ? & ? & ? & Hwf). rewrite zlen_cons in Hk.
  destruct (Z.eq_dec k 0) as [-> | Hne]; [change ((r :: ranges).[0]) with r; cbn zeta; split_and!; try done; lia |].
  rewrite aget_cons_pos by lia.
  destruct (IH _ _ (k - 1) Hwf ltac:(lia)) as (? & ? & ? & ? & ?). cbn. split_and!; try done; nia.
Qed.

(** Later ranges have larger addresses and indices. *)
Lemma ranges_wf_order low idx ranges j k :
  ranges_wf page_size low idx ranges -> 0 <= j < k -> k < zlen ranges ->
  base ranges.[j] + count ranges.[j] * page_size <= base ranges.[k] /\
  first_index ranges.[j] + count ranges.[j] <= first_index ranges.[k].
Proof.
  revert low idx j k. induction ranges as [| r ranges IH]; intros low idx j k Hwf Hj Hk.
  { change (zlen []) with 0 in Hk. lia. }
  destruct Hwf as (? & ? & ? & ? & ? & Hwf). rewrite zlen_cons in Hk.
  rewrite (aget_cons_pos _ _ k) by lia. destruct (Z.eq_dec j 0) as [-> | Hne].
  - destruct (ranges_wf_nth _ _ ranges (k - 1) Hwf ltac:(lia)) as (? & ? & ? & ? & ?).
    change ((r :: ranges).[0]) with r. lia.
  - rewrite aget_cons_pos by lia. eapply IH; [exact Hwf | lia | lia].
Qed.

Lemma total_count_nonneg low idx ranges : ranges_wf page_size low idx ranges -> 0 <= total_count ranges.
Proof.
  revert low idx. induction ranges as [| r ranges IH]; intros low idx; [done |].
  intros (? & ? & ? & ? & ? & Hwf). specialize (IH _ _ Hwf).
  change (total_count (r :: ranges)) with (count r + total_count ranges). lia.
Qed.

Lemma ranges_wf_total low idx ranges k :
  ranges_wf page_size low idx ranges -> 0 <= k < zlen ranges -> 0 <= idx ->
  let r := ranges.[k] in 0 <= first_index r /\ first_index r + count r <= idx + total_count ranges.
Proof.
  revert low idx k. induction ranges as [| r ranges IH]; intros low idx k Hwf Hk Hidx.
  { change (zlen []) with 0 in Hk. lia. }
  destruct Hwf as (? & ? & ? & ? & ? & Hwf). rewrite zlen_cons in Hk.
  pose proof (total_count_nonneg _ _ _ Hwf).
  change (total_count (r :: ranges)) with (count r + total_count ranges).
  destruct (Z.eq_dec k 0) as [-> | Hne]; [change ((r :: ranges).[0]) with r; cbn zeta; lia |].
  rewrite aget_cons_pos by lia.
  destruct (IH _ _ (k - 1) Hwf ltac:(lia) ltac:(lia)). cbn zeta in *. lia.
Qed.

(** Every managed index is in exactly the range the reference finds. *)
Lemma ranges_locate low idx ranges index :
  ranges_wf page_size low idx ranges -> 0 <= index < total_count ranges ->
  exists k, 0 <= k < zlen ranges /\
    first_index ranges.[k] <= idx + index < first_index ranges.[k] + count ranges.[k] /\
    addr_of ranges index = base ranges.[k] + (idx + index - first_index ranges.[k]) * page_size.
Proof.
  revert low idx index. induction ranges as [| r ranges IH]; intros low idx index Hwf Hi; [cbn in Hi; lia |].
  destruct Hwf as (? & ? & Hf & ? & ? & Hwf). pose proof (zlen_nonneg ranges). cbn [addr_of].
  change (total_count (r :: ranges)) with (count r + total_count ranges) in Hi.
  destruct (index <? count r) eqn:E; b2p.
  - exists 0. change ((r :: ranges).[0]) with r. rewrite zlen_cons, Hf. split_and!; lia.
  - destruct (IH _ _ (index - count r) Hwf ltac:(lia)) as (k & Hk & Hr & ->). exists (k + 1).
    rewrite aget_cons_pos, zlen_cons by lia. replace (k + 1 - 1) with k by lia. split_and!; lia.
Qed.

(** The binary search of address_for() reaches the range that holds the index. *)
Lemma address_search_hit ranges idx k index fuel lo hi :
  ranges_wf page_size 0 idx ranges -> 0 <= lo <= k -> k < hi <= zlen ranges -> hi - lo < Z.of_nat fuel ->
  first_index ranges.[k] <= index < first_index ranges.[k] + count ranges.[k] ->
  address_search fuel ranges page_size index lo hi =
  base ranges.[k] + (index - first_index ranges.[k]) * page_size.
Proof.
  intros Hwf. revert lo hi. induction fuel as [| fuel IH]; intros lo hi Hlo Hhi Hfuel Hi; [lia |].
  cbn [address_search]. cmp. set (m := lo + (hi - lo) / 2).
  assert (lo <= m < hi) as Hm by (unfold m; pose proof (Z.div_mod (hi - lo) 2); pose proof (Z.mod_pos_bound (hi - lo) 2); lia).
  destruct (Z.lt_trichotomy k m) as [Hkm | [-> | Hkm]].
  - destruct (ranges_wf_order _ _ ranges k m Hwf) as [_ Ho]; [lia | lia |]. cmp. apply IH; lia.
  - cmp. apply usize_wrap_small. destruct (ranges_wf_nth _ _ ranges m Hwf) as (? & ? & ? & ? & ?); [lia |]. nia.
  - destruct (ranges_wf_order _ _ ranges m k Hwf) as [_ Ho]; [lia | lia |].
    destruct (ranges_wf_nth _ _ ranges m Hwf) as (? & ? & ? & ? & ?); [lia |]. cmp. apply IH; lia.
Qed.

(** The binary search of index_of() on an address inside range [k]. *)
Lemma index_search_hit ranges idx k address fuel lo hi :
  ranges_wf page_size 0 idx ranges -> 0 <= lo <= k -> k < hi <= zlen ranges -> hi - lo < Z.of_nat fuel ->
  base ranges.[k] <= address < base ranges.[k] + count ranges.[k] * page_size ->
  index_search fuel ranges page_size address lo hi =
  if (address - base ranges.[k]) mod page_size =? 0
  then Ok (first_index ranges.[k] + (address - base ranges.[k]) / page_size)
  else Err StatusCode.invalid_argument.
Proof.
  intros Hwf. revert lo hi. induction fuel as [| fuel IH]; intros lo hi Hlo Hhi Hfuel Hi; [lia |].
  cbn [index_search]. replace (lo <? hi) with true by lia. set (m := lo + (hi - lo) / 2).
  assert (lo <= m < hi) as Hm by (unfold m; pose proof (Z.div_mod (hi - lo) 2); pose proof (Z.mod_pos_bound (hi - lo) 2); lia).
  destruct (Z.lt_trichotomy k m) as [Hkm | [-> | Hkm]].
  - destruct (ranges_wf_order _ _ ranges k m Hwf) as [Ho _]; [lia | lia |].
    replace (address <? base ranges.[m]) with true by lia. apply IH; lia.
  - replace (address <? base ranges.[m]) with false by lia.
    replace (count ranges.[m] <=? _) with false
      by (symmetry; apply Z.leb_gt, Z.div_lt_upper_bound; lia).
    by destruct (_ =? 0).
  - destruct (ranges_wf_order _ _ ranges m k Hwf) as [Ho _]; [lia | lia |].
    destruct (ranges_wf_nth _ _ ranges m Hwf) as (? & ? & ? & ? & ?); [lia |].
    replace (address <? base ranges.[m]) with false by nia.
    replace (count ranges.[m] <=? _) with true
      by (symmetry; apply Z.leb_le, Z.div_le_lower_bound; lia). apply IH; lia.
Qed.

Lemma index_search_miss ranges idx address fuel lo hi :
  ranges_wf page_size 0 idx ranges -> 0 <= lo -> hi <= zlen ranges ->
  (forall k, 0 <= k < zlen ranges ->
     ~ (base ranges.[k] <= address < base ranges.[k] + count ranges.[k] * page_size)) ->
  index_search fuel ranges page_size address lo hi = Err StatusCode.not_found.
Proof.
  intros Hwf. revert lo hi. induction fuel as [| fuel IH]; intros lo hi Hlo Hhi Hno; [done |].
  cbn [index_search]. destruct (lo <? hi) eqn:E; [| done]. b2p. set (m := lo + (hi - lo) / 2).
  assert (lo <= m < hi) as Hm by (unfold m; pose proof (Z.div_mod (hi - lo) 2); pose proof (Z.mod_pos_bound (hi - lo) 2); lia).
  specialize (Hno m ltac:(lia)) as Hnm.
  destruct (address <? base ranges.[m]) eqn:E1; b2p; [apply IH; try lia; done |].
  replace (count ranges.[m] <=? _) with true
    by (symmetry; apply Z.leb_le, Z.div_le_lower_bound; lia). apply IH; try lia; done.
Qed.
End Ranges.

Section Addresses.
Context `{Arch} (a : FrameAllocator.t).
Hypothesis Hwf : wf a.

Lemma page_pos : 0 < page_size_ a.
Proof. by destruct (wf_page a Hwf). Qed.

(** The range of a frame, and its address there. *)
Lemma frame_range i : 0 <= i < frame_count_ a ->
  exists k, let r := (ranges_ a).[k] in 0 <= k < zlen (ranges_ a) /\
    FrameRange.first_index r <= i < FrameRange.first_index r + FrameRange.count r /\
    addr_of (page_size_ a) (ranges_ a) i = FrameRange.base r + (i - FrameRange.first_index r) * page_size_ a.
Proof.
  intros Hi. destruct (ranges_locate (page_size_ a) 0 0 (ranges_ a) i) as (k & Hk & Hr & He);
    [apply Hwf | rewrite wf_total by done; lia |].
  exists k. cbn zeta. rewrite Z.add_0_l in *. done.
Qed.

Lemma address_for_eq i : 0 <= i < frame_count_ a ->
  address_for a i = addr_of (page_size_ a) (ranges_ a) i.
Proof.
  intros Hi. destruct (frame_range i Hi) as (k & Hk & Hr & ->). unfold address_for. pose proof page_pos.
  apply address_search_hit with 0; [done | apply Hwf | lia | lia | unfold zlen; lia | done].
Qed.

Lemma index_of_inside k p : 0 < frame_count_ a -> 0 <= k < zlen (ranges_ a) ->
  let r := (ranges_ a).[k] in
  FrameRange.base r <= p < FrameRange.base r + FrameRange.count r * page_size_ a ->
  index_of a p = if (p - FrameRange.base r) mod page_size_ a =? 0
                 then Ok (FrameRange.first_index r + (p - FrameRange.base r) / page_size_ a)
                 else Err StatusCode.invalid_argument.
Proof.
  intros Hf Hk r Hp. unfold index_of. pose proof page_pos. replace (frame_count_ a =? 0) with false by lia.
  apply index_search_hit with 0; [done | apply Hwf | lia | lia | unfold zlen; lia | done].
Qed.

(** address_for() and index_of() are inverse. *)
Lemma index_of_address_for i : 0 <= i < frame_count_ a -> index_of a (address_for a i) = Ok i.
Proof.
  intros Hi. pose proof page_pos. rewrite address_for_eq by done.
  destruct (frame_range i Hi) as (k & Hk & Hr & ->). set (r := (ranges_ a).[k]) in *.
  rewrite (index_of_inside k); [| lia | done | fold r; nia]. fold r.
  replace (FrameRange.base r + _ - FrameRange.base r) with ((i - FrameRange.first_index r) * page_size_ a) by lia.
  rewrite Z_mod_mult, Z.div_mul by lia. cbn. f_equal. lia.
Qed.

Lemma address_for_inj i j :
  0 <= i < frame_count_ a -> 0 <= j < frame_count_ a -> address_for a i = address_for a j -> i = j.
Proof.
  intros Hi Hj He. pose proof (index_of_address_for i Hi) as H1.
  rewrite He, (index_of_address_for j Hj) in H1. by injection H1.
Qed.

Lemma address_for_range i : 0 <= i < frame_count_ a ->
  0 <= address_for a i /\ address_for a i + page_size_ a <= usize_max /\
  address_for a i mod page_size_ a = 0.
Proof.
  intros Hi. pose proof page_pos. rewrite address_for_eq by done.
  destruct (frame_range i Hi) as (k & Hk & Hr & ->).
  destruct (ranges_wf_nth (page_size_ a) page_pos 0 0 (ranges_ a) k) as (? & Hal & ? & ? & ?); [apply Hwf | done |].
  cbn zeta in *. split_and!; [nia | nia |]. by rewrite Z_mod_plus_full.
Qed.

(** Every range offset is a frame. *)
Lemma range_frame k off : 0 <= k < zlen (ranges_ a) ->
  let r := (ranges_ a).[k] in 0 <= off < FrameRange.count r ->
  0 <= FrameRange.first_index r + off < frame_count_ a.
Proof.
  intros Hk r Hoff. rewrite <- wf_total by done.
  destruct (ranges_wf_total (page_size_ a) 0 0 (ranges_ a) k) as [? ?]; [apply Hwf | done | lia |].
  cbn zeta in *. unfold r in *. lia.
Qed.

Lemma index_of_ok p i : index_of a p = Ok i -> 0 <= i < frame_count_ a /\ address_for a i = p.
Proof.
  intros Hio. pose proof page_pos as Hpp.
  assert (frame_count_ a <> 0) as Hfc.
  { intros Hz. unfold index_of in Hio. by rewrite Hz in Hio. }
  destruct (decide (Exists (fun k => FrameRange.base (ranges_ a).[k] <= p <
      FrameRange.base (ranges_ a).[k] + FrameRange.count (ranges_ a).[k] * page_size_ a)
      (indices (zlen (ranges_ a))))) as [Hex | Hno].
  - apply Exists_exists in Hex as (k & Hk & Hp). apply elem_of_indices in Hk.
    assert (0 < frame_count_ a) as Hpos.
    { destruct (range_frame k 0 Hk); [|lia]. destruct (ranges_wf_nth (page_size_ a) page_pos 0 0 (ranges_ a) k); [apply Hwf | done | lia]. }
    rewrite (index_of_inside k p Hpos Hk Hp) in Hio.
    set (r := (ranges_ a).[k]) in *. destruct (_ =? 0) eqn:E; [| done]. b2p. injection Hio as <-.
    assert (p - FrameRange.base r = (p - FrameRange.base r) / page_size_ a * page_size_ a) as Hd
      by (pose proof (Z.div_mod (p - FrameRange.base r) (page_size_ a)); lia).
    set (q := (p - FrameRange.base r) / page_size_ a) in *.
    assert (0 <= q < FrameRange.count r) as Hq by nia.
    pose proof (range_frame k q Hk Hq) as Hfr. fold r in Hfr. split; [done |].
    unfold address_for. rewrite (address_search_hit (page_size_ a) Hpp (ranges_ a) 0 k); fold r;
      [lia | apply Hwf | lia | lia | unfold zlen; lia | lia].
  - unfold index_of in Hio. replace (frame_count_ a =? 0) with false in Hio by lia.
    rewrite (index_search_miss (page_size_ a) Hpp _ 0) in Hio; [done | apply Hwf | lia | lia |].
    intros k Hk Hc. apply Hno, Exists_exists. exists k. by rewrite elem_of_indices.
Qed.
End Addresses.
