(* ===== verification/FrameSpec.v ===== *)
(** * The frame allocator meets its contract

    initialize() manages exactly the free pages inside the metadata it was
    given; allocation succeeds exactly when a frame is free; a handle is valid
    from its allocation to its release and never again; contiguous requests are
    first fit and complete; every operation keeps [wf]. *)

From S2P Require Import Prelude Charges Regions Sweep Frames FrameSearch.
Import FrameAllocator.

Section Updates.
Context `{Arch}.
Implicit Types a : FrameAllocator.t.

Lemma count_live_aset l i d :
  0 <= i < zlen l ->
  count_live l.[i := d] =
  count_live l - (if is_live l.[i] then 1 else 0) + (if is_live d then 1 else 0).
Proof. exact (zsum_aset live_unit l i d). Qed.

Lemma live_unit_range d : 0 <= live_unit d <= 1.
Proof. unfold live_unit. case_match; lia. Qed.

Lemma is_live_generation a i : is_live (descriptors_ a).[i] = negb (generation_at a i =? 0).
Proof. done. Qed.

(** Indices of frames are indices of bitmap bits. *)
Lemma frame_bit a i : wf a -> 0 <= i < frame_count_ a -> 0 <= i < 64 * zlen (bitmap_ a).
Proof.
  intros Hwf Hi. rewrite wf_bitmap by done. pose proof (Z.div_mod (frame_count_ a + 63) 64 ltac:(lia)).
  pose proof (Z.mod_pos_bound (frame_count_ a + 63) 64 ltac:(lia)). lia.
Qed.

Lemma used_generation a i : wf a -> 0 <= i < frame_count_ a -> used a i = negb (generation_at a i =? 0).
Proof.
  intros Hwf Hi. rewrite wf_bits by (try done; by apply frame_bit).
  by replace (frame_count_ a <=? i) with false by lia.
Qed.

(** The handles of the allocator are those of its live frames. *)
Lemma exact_iff a h : wf a -> 0 <= PhysicalFrame.index h ->
  exact a h = true <->
  PhysicalFrame.index h < frame_count_ a /\ generation_at a (PhysicalFrame.index h) <> 0 /\
  h = handle a (PhysicalFrame.index h).
Proof.
  intros Hwf Hi. unfold exact, handle, generation_at. destruct h as [ad ix ow gen]; cbn in *.
  rewrite !andb_true_iff, negb_true_iff, !Z.eqb_eq, Z.eqb_neq, Z.ltb_lt. split.
  - intros [[[[-> ?] ?] <-] ->]. done.
  - intros (? & ? & [= -> -> ->]). done.
Qed.

(** ** take() *)
Definition taken a i : FrameAllocator.t := fst (take a i).

Lemma taken_same a i :
  this (taken a i) = this a /\ page_size_ (taken a i) = page_size_ a /\
  frame_count_ (taken a i) = frame_count_ a /\ ranges_ (taken a i) = ranges_ a /\
  next_free_hint_ (taken a i) = next_free_hint_ a /\
  used_count_ (taken a i) = used_count_ a + 1 /\
  next_generation_ (taken a i) = u64_wrap (next_generation_ a + 1).
Proof. done. Qed.

Lemma taken_generation a i j : 0 <= i < zlen (descriptors_ a) -> 0 <= j ->
  generation_at (taken a i) j = if j =? i then next_generation_ a else generation_at a j.
Proof.
  intros Hi Hj. unfold generation_at, taken, take; cbn. rewrite aget_aset by done.
  by destruct (j =? i).
Qed.

Lemma taken_issued a i : next_generation_ a <> 0 -> 0 <= next_generation_ a <= u64_max ->
  issued (taken a i) = next_generation_ a.
Proof.
  intros Hne Hr. unfold issued. change (next_generation_ (taken a i)) with (u64_wrap (next_generation_ a + 1)).
  destruct (Z.eq_dec (next_generation_ a) u64_max) as [He | He].
  - rewrite He. done.
  - rewrite u64_wrap_small by lia. replace (next_generation_ a + 1 =? 0) with false by lia. lia.
Qed.

Lemma taken_wf a i :
  wf a -> 0 <= i < frame_count_ a -> generation_at a i = 0 -> next_generation_ a <> 0 -> wf (taken a i).
Proof.
  intros Hwf Hi Hfree Hne. pose proof (wf_next a Hwf) as Hn.
  assert (0 <= i < zlen (descriptors_ a)) as Hd by (by rewrite wf_descriptors).
  assert (issued a = next_generation_ a - 1) as Hiss
    by (unfold issued; by replace (next_generation_ a =? 0) with false by lia).
  pose proof (frame_bit a i Hwf Hi) as Hb.
  constructor; try (by apply Hwf); cbn [page_size_ ranges_ frame_count_].
  - unfold taken, take; cbn. rewrite zlen_aset. apply Hwf.
  - unfold taken, take; cbn. rewrite zlen_aset. apply Hwf.
  - apply (mark_words a i true Hb), Hwf.
  - intros j Hj. change (used (taken a i) j) with (used (mark a i true) j).
    assert (zlen (bitmap_ (taken a i)) = zlen (bitmap_ a)) as Hz by (unfold taken, take; cbn; by rewrite zlen_aset).
    rewrite Hz in Hj. rewrite used_mark, taken_generation by lia.
    change (frame_count_ (taken a i)) with (frame_count_ a).
    destruct (Z.eqb_spec j i) as [-> |]; [| by apply wf_bits].
    by replace (next_generation_ a =? 0) with false by lia; rewrite orb_true_r.
  - unfold taken, take; cbn. rewrite count_live_aset by done.
    rewrite is_live_generation, Hfree. unfold is_live; cbn.
    replace (next_generation_ a =? 0) with false by lia. rewrite wf_used by done. cbn. lia.
  - change (next_generation_ (taken a i)) with (u64_wrap (next_generation_ a + 1)).
    unfold u64_wrap, u64_max. pose proof (Z.mod_pos_bound (next_generation_ a + 1) (2 ^ 64) ltac:(lia)). lia.
  - intros j Hj. rewrite taken_issued, taken_generation by lia. case_match; [lia |].
    pose proof (wf_issued a Hwf j Hj). lia.
  - change (frame_count_ (taken a i)) with (frame_count_ a). intros j k Hj Hk. rewrite !taken_generation by lia.
    pose proof (wf_issued a Hwf j Hj). pose proof (wf_issued a Hwf k Hk).
    destruct (Z.eqb_spec j i), (Z.eqb_spec k i); subst; intros; try lia; by apply (wf_distinct a Hwf).
Qed.

(** The address of a frame depends only on the ranges. *)
Lemma address_for_same a b i :
  ranges_ a = ranges_ b -> page_size_ a = page_size_ b -> address_for a i = address_for b i.
Proof. unfold address_for. by intros -> ->. Qed.

(** ** Clearing one frame *)
Definition freed a i : FrameAllocator.t := with_used (drop_run 1 a i) (used_count_ a - 1).

Lemma freed_generation a i j : 0 <= i < zlen (descriptors_ a) -> 0 <= j ->
  generation_at (freed a i) j = if j =? i then 0 else generation_at a j.
Proof.
  intros Hi Hj. unfold generation_at, freed, drop_run; cbn. rewrite aget_aset by done.
  by destruct (j =? i).
Qed.

Lemma freed_wf a i :
  wf a -> 0 <= i < frame_count_ a -> generation_at a i <> 0 -> wf (freed a i).
Proof.
  intros Hwf Hi Hlive.
  assert (0 <= i < zlen (descriptors_ a)) as Hd by (by rewrite wf_descriptors).
  pose proof (frame_bit a i Hwf Hi) as Hb.
  constructor; try (by apply Hwf); cbn [page_size_ ranges_ frame_count_].
  - unfold freed, drop_run; cbn. rewrite zlen_aset. apply Hwf.
  - unfold freed, drop_run; cbn. rewrite zlen_aset. apply Hwf.
  - apply (mark_words a i false Hb), Hwf.
  - intros j Hj. change (used (freed a i) j) with (used (mark a i false) j).
    assert (zlen (bitmap_ (freed a i)) = zlen (bitmap_ a)) as Hz by (unfold freed, drop_run; cbn; by rewrite zlen_aset).
    rewrite Hz in Hj. rewrite used_mark, freed_generation by lia.
    change (frame_count_ (freed a i)) with (frame_count_ a).
    destruct (Z.eqb_spec j i) as [-> |]; [| by apply wf_bits].
    by replace (frame_count_ a <=? i) with false by lia.
  - unfold freed, drop_run; cbn. rewrite count_live_aset by done.
    rewrite is_live_generation. replace (generation_at a i =? 0) with false by lia.
    rewrite wf_used by done. cbn. lia.
  - intros j Hj. change (issued (freed a i)) with (issued a). rewrite freed_generation by lia.
    pose proof (wf_issued a Hwf i Hi). case_match; [lia |]. by apply wf_issued.
  - change (frame_count_ (freed a i)) with (frame_count_ a). intros j k Hj Hk. rewrite !freed_generation by lia.
    destruct (Z.eqb_spec j i), (Z.eqb_spec k i); subst; intros; try lia; by apply (wf_distinct a Hwf).
Qed.

Lemma hint_wf a h : wf a -> 0 <= h < frame_count_ a -> wf (with_hint a h).
Proof. intros Hwf Hh. constructor; try (by apply Hwf). cbn. lia. Qed.

(** Writing a descriptor's owner fields keeps the invariant. *)
Lemma write_descriptor_wf a i d :
  wf a -> 0 <= i < frame_count_ a -> PageDescriptor.generation d = generation_at a i ->
  wf (with_descriptors a (descriptors_ a).[i := d]).
Proof.
  intros Hwf Hi Hg. assert (0 <= i < zlen (descriptors_ a)) as Hd by (by rewrite wf_descriptors).
  assert (forall j, 0 <= j -> generation_at (with_descriptors a (descriptors_ a).[i := d]) j = generation_at a j) as Hgen.
  { intros j Hj. unfold generation_at; cbn. rewrite aget_aset by done.
    destruct (Z.eqb_spec j i) as [-> |]; done. }
  constructor; try (by apply Hwf).
  - cbn. rewrite zlen_aset. apply Hwf.
  - cbn. intros j Hj. fold (generation_at (with_descriptors a (descriptors_ a).[i := d]) j).
    rewrite Hgen by lia. by apply (wf_bits a Hwf).
  - cbn. rewrite count_live_aset by done. rewrite wf_used by done.
    assert (is_live d = is_live (descriptors_ a).[i]) as ->; [| lia]. unfold is_live. by rewrite Hg.
  - intros j Hj. rewrite Hgen by lia. by apply (wf_issued a Hwf).
  - intros j k Hj Hk. rewrite !Hgen by lia. by apply (wf_distinct a Hwf).
Qed.
End Updates.

(** ** initialize() *)
Section Init.
Context `{Arch}.

(** The ranges that [range_emit] builds. *)
Fixpoint build_ranges (idx : Z) (runs : list (Z * Z)) : list FrameRange.t :=
  match runs with
  | [] => []
  | (b, n) :: rest => FrameRange.mk b idx n :: build_ranges (idx + n) rest
  end.

Lemma feed_ranges idx acc runs :
  feed (fun s r => range_emit s r.1 r.2) (idx, acc) runs =
  ((idx + total_pages runs, acc ++ build_ranges idx runs), StatusCode.ok).
Proof.
  revert idx acc. induction runs as [| [b n] runs IH]; intros idx acc; cbn.
  - by rewrite Z.add_0_r, app_nil_r.
  - fold (total_pages runs). rewrite IH, <- app_assoc. cbn. by rewrite Z.add_assoc.
Qed.

Lemma build_ranges_wf ps low idx runs :
  runs_ok ps low runs -> ranges_wf ps low idx (build_ranges idx runs).
Proof.
  revert low idx. induction runs as [| [b n] runs IH]; intros low idx; cbn; [done |].
  intros (? & ? & ? & ? & Hr). split_and!; try done. by apply IH.
Qed.

Lemma build_ranges_total idx runs : total_count (build_ranges idx runs) = total_pages runs.
Proof. revert idx. induction runs as [| [b n] runs IH]; intros idx; cbn; [done |]. f_equal. apply IH. Qed.

Lemma build_ranges_length idx runs : zlen (build_ranges idx runs) = zlen runs.
Proof.
  revert idx. induction runs as [| [b n] runs IH]; intros idx; cbn [build_ranges]; [done |].
  by rewrite !zlen_cons, IH.
Qed.

Lemma build_ranges_in idx runs b n :
  (b, n) ∈ runs <-> exists f, FrameRange.mk b f n ∈ build_ranges idx runs.
Proof.
  revert idx. induction runs as [| [b' n'] runs IH]; intros idx; cbn [build_ranges].
  - split; [by intros ?%not_elem_of_nil | intros [f Hf]; by apply not_elem_of_nil in Hf].
  - rewrite elem_of_cons, (IH (idx + n')). split.
    + intros [[= -> ->] | [f Hf]]; [exists idx; by left | exists f; by right].
    + intros [f [[= -> -> ->] | Hf]%elem_of_cons]; [by left | right; eauto].
Qed.

(** The bitmap initialize() writes: exactly the bits past the last frame are set. *)
Definition fresh_bitmap (frames : Z) : list Z :=
  let words := (frames + 63) / 64 in
  let bitmap := replicate (Z.to_nat words) 0 in
  if negb (frames mod 64 =? 0)
  then bitmap.[words - 1 := u64_wrap (Z.shiftl u64_max (frames mod 64))] else bitmap.

Lemma word_count frames : 0 < frames ->
  let words := (frames + 63) / 64 in
  0 < words /\ (frames mod 64 = 0 -> frames = 64 * words) /\
  (frames mod 64 <> 0 -> frames = 64 * (words - 1) + frames mod 64).
Proof.
  intros Hf words. pose proof (Z.div_mod frames 64 ltac:(lia)). pose proof (Z.mod_pos_bound frames 64 ltac:(lia)).
  unfold words. clear words. pose proof (Z.div_mod (frames + 63) 64 ltac:(lia)).
  pose proof (Z.mod_pos_bound (frames + 63) 64 ltac:(lia)). lia.
Qed.

Lemma fresh_bitmap_length frames : 0 < frames -> zlen (fresh_bitmap frames) = (frames + 63) / 64.
Proof.
  intros Hf. destruct (word_count frames Hf) as (? & _ & _). unfold fresh_bitmap.
  case_match; rewrite ?zlen_aset; unfold zlen; rewrite length_replicate; lia.
Qed.

Lemma tail_mask m j : 0 < m < 64 -> 0 <= j < 64 ->
  Z.testbit (u64_wrap (Z.shiftl u64_max m)) j = (m <=? j).
Proof.
  intros Hm Hj. unfold u64_wrap. rewrite Z.mod_pow2_bits_low, Z.shiftl_spec by lia.
  change u64_max with (Z.ones 64). rewrite Z.testbit_ones by lia.
  destruct (Z.leb_spec m j); [| cmp; done]. by cmp.
Qed.

Lemma fresh_bitmap_bits frames i : 0 < frames -> 0 <= i < 64 * ((frames + 63) / 64) ->
  Z.testbit (fresh_bitmap frames).[i / 64] (i mod 64) = (frames <=? i).
Proof.
  intros Hf Hi. destruct (word_count frames Hf) as (Hw & Hz & Hnz). set (words := (frames + 63) / 64) in *.
  pose proof (word_index _ _ Hi). pose proof (Z.mod_pos_bound i 64 ltac:(lia)). pose proof (Z.div_mod i 64 ltac:(lia)).
  pose proof (Z.mod_pos_bound frames 64 ltac:(lia)).
  assert ((replicate (Z.to_nat words) 0).[i / 64] = 0) as Hzero by (apply aget_lookup; [lia |]; apply lookup_replicate; split; [done | lia]).
  unfold fresh_bitmap. fold words. destruct (Z.eqb_spec (frames mod 64) 0) as [E | E]; cbn [negb].
  - rewrite Hzero, Z.testbit_0_l. by cmp.
  - assert (zlen (replicate (Z.to_nat words) 0) = words) by (unfold zlen; rewrite length_replicate; lia).
    rewrite aget_aset by lia. destruct (Z.eqb_spec (i / 64) (words - 1)) as [Ei | Ei].
    + rewrite tail_mask by lia. destruct (Z.leb_spec (frames mod 64) (i mod 64)); by cmp.
    + rewrite Hzero, Z.testbit_0_l. by cmp.
Qed.

Lemma fresh_bitmap_words frames : 0 < frames -> Forall (fun w => 0 <= w < 2 ^ 64) (fresh_bitmap frames).
Proof.
  intros Hf. unfold fresh_bitmap. assert (forall n, Forall (fun w => 0 <= w < 2 ^ 64) (replicate n 0)).
  { intros n. apply Forall_replicate. lia. }
  case_match; [| done]. apply Forall_insert; [done |]. apply Z.mod_pos_bound. lia.
Qed.

(** count_usable() succeeds only on a region list the sweep accepts. *)
Lemma count_usable_ok regions ps t :
  Forall region_ok regions -> 0 <= ps -> count_usable regions ps = Ok t ->
  is_pow2b ps = true /\ 0 < ps /\ (exists c, sweep_start regions usize_max = Ok c) /\
  t = mk_totals (total_pages (page_runs regions ps)) (zlen (page_runs regions ps)) /\
  0 < frames t <= (usize_max - metadata_alignment) / (sizeof_PageDescriptor + 1) /\
  ranges t <= usize_max / sizeof_FrameRange / 2.
Proof.
  intros Hok Hps Hc. destruct (is_pow2b ps) eqn:Hp.
  2: { unfold count_usable, sweep_usable in Hc. by rewrite Hp in Hc. }
  pose proof (pow2_pos _ Hp Hps). destruct (sweep_start regions usize_max) as [c | e] eqn:Hst.
  2: { unfold count_usable, sweep_usable in Hc. rewrite Hp, Hst in Hc. by apply sweep_start_err in Hst as [-> _]. }
  pose proof usize_max_pos. pose proof Hst as Hnw. apply sweep_start_ok in Hnw as (Hnw & _ & _); [| done | lia].
  rewrite count_usable_eq in Hc by done. cbn zeta in Hc.
  destruct (total_pages_bound ps 0 (page_runs regions ps)) as [_ Hk]; [done | lia | by apply page_runs_ok |].
  pose proof (zlen_nonneg (page_runs regions ps)).
  destruct (_ =? 0) eqn:E0; [done |]. destruct (_ || _) eqn:E1; [done |]. injection Hc as <-. b2p. cbn [frames ranges].
  split_and!; try done; [by exists c | lia..].
Qed.

(** The frame at an address, from the runs the ranges were built from. *)
Lemma page_in_frame a runs p :
  wf a -> ranges_ a = build_ranges 0 runs -> p mod page_size_ a = 0 ->
  page_in (page_size_ a) runs p <-> exists i, 0 <= i < frame_count_ a /\ address_for a i = p.
Proof.
  intros Hwf Hr Hp. pose proof (page_pos a Hwf) as Hps. split.
  - intros (b & n & Hin & Hb). apply (build_ranges_in 0) in Hin as [f Hin]. rewrite <- Hr in Hin.
    apply list_elem_of_lookup in Hin as [k Hk]. pose proof (lookup_lt_Some _ _ _ Hk) as Hlt.
    assert ((ranges_ a).[Z.of_nat k] = FrameRange.mk b f n) as Hak.
    { apply aget_lookup; [lia |]. by rewrite Nat2Z.id. }
    assert (0 <= Z.of_nat k < zlen (ranges_ a)) as Hkr by (unfold zlen; lia).
    assert ((p - b) mod page_size_ a = 0) as Hmod.
    { destruct (ranges_wf_nth (page_size_ a) Hps 0 0 _ _ (wf_ranges a Hwf) Hkr) as (_ & Hal & _).
      rewrite Hak in Hal. cbn in Hal. rewrite Zminus_mod, Hp, Hal. done. }
    pose proof (total_count_nonneg (page_size_ a) 0 0 _ (wf_ranges a Hwf)).
    pose proof (range_frame a Hwf (Z.of_nat k) 0 Hkr) as Hfr. rewrite Hak in Hfr. cbn in Hfr.
    pose proof (index_of_inside a Hwf (Z.of_nat k) p ltac:(nia) Hkr) as Hio. rewrite Hak in Hio. cbn in Hio.
    rewrite Hmod in Hio. specialize (Hio Hb). apply (index_of_ok a Hwf) in Hio as [? ?]. eauto.
  - intros (i & Hi & <-). rewrite address_for_eq by done. destruct (frame_range a Hwf i Hi) as (k & Hk & Hik & ->).
    set (r := (ranges_ a).[k]) in *. exists (FrameRange.base r), (FrameRange.count r). split; [| nia].
    apply (build_ranges_in 0). exists (FrameRange.first_index r). rewrite <- Hr.
    replace (FrameRange.mk _ _ _) with r by (by destruct r). apply list_elem_of_lookup. exists (Z.to_nat k).
    by apply lookup_aget.
Qed.
End Init.

(** ** What initialize() establishes *)
Section InitSpec.
Context `{Arch}.

Lemma initialize_unfold a regions ps data size a' :
  initialize a regions ps data size = (a', StatusCode.ok) ->
  used_count_ a = 0 /\ data <> 0 /\
  exists t, count_usable regions ps = Ok t /\ metadata_bytes_for (frames t) (ranges t) <= size /\
  let '(b, d, r) := metadata_layout data (frames t) in
  a' = mk (this a) ps (frames t) 0 0 (next_generation_ a) (fresh_bitmap (frames t))
          (replicate (Z.to_nat (frames t)) PageDescriptor.zero)
          (fst (sweep_usable ps range_emit regions (0, []))).2 b d r.
Proof.
  unfold initialize. destruct (used_count_ a =? 0) eqn:E; cbn [negb]; [| done]. b2p.
  destruct (count_usable regions ps) as [t | e] eqn:Hc.
  2: { intros [= _ ->]. unfold count_usable in Hc. destruct (sweep_usable _ _ _ _) as [tt st].
       destruct st; cbn in Hc; repeat case_match; congruence. }
  destruct (_ || _) eqn:E1; [done |]. b2p. destruct (metadata_layout data (frames t)) as [[b d] r] eqn:Hl.
  intros [= <-]. split_and!; [done | done |]. exists t. rewrite Hl, E. split_and!; [done | lia | done].
Qed.

Lemma fresh_wf a' ps f runs :
  is_pow2b ps = true -> 0 < ps -> runs_ok ps 0 runs -> total_pages runs = f -> 0 < f ->
  page_size_ a' = ps -> frame_count_ a' = f -> used_count_ a' = 0 -> next_free_hint_ a' = 0 ->
  0 <= next_generation_ a' <= u64_max -> bitmap_ a' = fresh_bitmap f ->
  descriptors_ a' = replicate (Z.to_nat f) PageDescriptor.zero -> ranges_ a' = build_ranges 0 runs -> wf a'.
Proof.
  intros Hp Hps Hr Hf Hpos E1 E2 E3 E4 Hng E5 E6 E7.
  assert (forall i, 0 <= i < f -> generation_at a' i = 0) as Hgen.
  { intros i Hi. unfold generation_at. rewrite E6.
    assert ((replicate (Z.to_nat f) PageDescriptor.zero).[i] = PageDescriptor.zero) as ->; [| done].
    apply aget_lookup; [lia |]. apply lookup_replicate. split; [done | lia]. }
  constructor; rewrite ?E1, ?E2, ?E3, ?E4, ?E5, ?E6, ?E7; try done.
  - by apply build_ranges_wf.
  - by rewrite build_ranges_total.
  - unfold zlen. rewrite length_replicate. lia.
  - by apply fresh_bitmap_length.
  - by apply fresh_bitmap_words.
  - intros i Hi. rewrite fresh_bitmap_length in Hi by done. rewrite used_testbit, E5, fresh_bitmap_bits by lia.
    destruct (Z.leb_spec f i); [done |]. by rewrite Hgen by lia.
  - unfold count_live. by rewrite zsum_replicate.
  - intros i Hi. rewrite Hgen by done. unfold issued. case_match; unfold u64_max in *; b2p; lia.
  - intros i j Hi _ Hg. by rewrite Hgen in Hg.
Qed.

Lemma initialize_ok a regions ps data size a' :
  Forall region_ok regions -> 0 <= ps -> 0 <= next_generation_ a <= u64_max ->
  initialize a regions ps data size = (a', StatusCode.ok) ->
  wf a' /\ this a' = this a /\ page_size_ a' = ps /\ used_count_ a' = 0 /\
  next_generation_ a' = next_generation_ a /\
  ranges_ a' = build_ranges 0 (page_runs regions ps) /\ exists c, sweep_start regions usize_max = Ok c.
Proof.
  intros Hok Hps Hng Hi. apply initialize_unfold in Hi as (_ & _ & t & Hc & _ & Ha).
  apply count_usable_ok in Hc as (Hp & Hps' & (c & Hst) & -> & Hf & _); [| done | done]. cbn [frames ranges] in *.
  destruct (metadata_layout _ _) as [[b d] r]. rewrite sweep_usable_feed, feed_ranges in Ha by (by rewrite ?Hst).
  cbn in Ha. subst a'; cbn. split_and!; try done; [| by exists c].
  eapply (fresh_wf _ ps _ (page_runs regions ps)); try done; [by apply page_runs_ok | cbn; lia].
Qed.

(** Number of page runs of a region list. *)
Lemma byte_runs_length fuel regions c b s : (length (byte_runs fuel regions c b s) <= S fuel)%nat.
Proof.
  revert c b s. induction fuel as [| fuel IH]; intros c b s; cbn; [by case_match; cbn; lia |].
  repeat case_match; cbn [length]; try lia.
  - pose proof (IH (sc_next (scan_regions regions c)) true s). lia.
  - pose proof (IH (sc_next (scan_regions regions c)) true c). lia.
  - pose proof (IH (sc_next (scan_regions regions c)) false s). lia.
  - pose proof (IH (sc_next (scan_regions regions c)) false s). lia.
Qed.

Lemma page_runs_length regions ps : zlen (page_runs regions ps) <= 2 * zlen regions + 2.
Proof.
  unfold page_runs, zlen. case_match; [| cbn; lia].
  pose proof (byte_runs_length (S (2 * length regions)) regions a false 0) as Hl.
  assert (forall l, (length (flat_map (run_pages ps) l) <= length l)%nat) as Hfl.
  { induction l as [| x l IH]; [done |]. cbn [flat_map]. rewrite length_app.
    assert (length (run_pages ps x) <= 1)%nat by (unfold run_pages; repeat case_match; cbn; lia). cbn. lia. }
  specialize (Hfl (byte_runs (S (2 * length regions)) regions a false 0)). lia.
Qed.

Lemma sizeof_FrameRange_bound : 0 < sizeof_FrameRange <= 24.
Proof. unfold sizeof_FrameRange. destruct word_bits_cases as [-> | ->]; done. Qed.

(** [metadata_bytes_for] does not wrap for the totals of a region list of realistic length. *)
Lemma metadata_bytes_exact f k :
  0 < f <= (usize_max - metadata_alignment) / (sizeof_PageDescriptor + 1) -> 0 <= k <= 2 ^ 16 ->
  metadata_bytes_for f k = (f + 63) / 64 * 8 + f * 16 + k * sizeof_FrameRange + 7 /\
  (f + 63) / 64 * 8 + f * 16 + k * sizeof_FrameRange + 7 <= usize_max.
Proof.
  intros Hf Hk. unfold metadata_alignment, sizeof_PageDescriptor in Hf.
  pose proof usize_max_pos. pose proof (Z.div_mod (usize_max - 8) 17 ltac:(lia)).
  pose proof (Z.mod_pos_bound (usize_max - 8) 17 ltac:(lia)). change (16 + 1) with 17 in Hf.
  pose proof (Z.div_mod (f + 63) 64 ltac:(lia)). pose proof (Z.mod_pos_bound (f + 63) 64 ltac:(lia)).
  pose proof sizeof_FrameRange_bound.
  assert (0 <= k * sizeof_FrameRange <= 2 ^ 16 * 24) by nia.
  assert ((f + 63) / 64 * 8 + f * 16 + k * sizeof_FrameRange + 7 <= usize_max) by lia.
  split; [| done]. unfold metadata_bytes_for, metadata_alignment, sizeof_PageDescriptor.
  rewrite (usize_wrap_small (f + 63)) by lia. rewrite usize_wrap_small by lia. lia.
Qed.

Lemma metadata_layout_eq start f : 0 <= start -> start + 7 <= usize_max ->
  let cursor := start + (- start) mod 8 in
  metadata_layout start f =
    (cursor, cursor + (f + 63) / 64 * 8, cursor + (f + 63) / 64 * 8 + f * 16) /\
  start <= cursor < start + 8 /\ cursor mod 8 = 0.
Proof.
  intros Hs Hm cursor. unfold metadata_layout, metadata_alignment, sizeof_PageDescriptor.
  rewrite usize_wrap_small by lia. change (8 - 1) with (2 ^ 3 - 1). rewrite land_not_mask by lia.
  change (2 ^ 3) with 8.
  assert (start + 8 - 1 - (start + 8 - 1) mod 8 = cursor) as Hc by (unfold cursor; Z.to_euclidean_division_equations; lia).
  replace (start + (2 ^ 3 - 1)) with (start + 8 - 1) by lia.
  replace (start + (start + 8 - 1 - (start + 8 - 1) mod 8 - start)) with cursor by lia.
  split; [done | unfold cursor; Z.to_euclidean_division_equations; lia].
Qed.
End InitSpec.

(** ** Claims about initialize() *)
Section InitClaims.
Context `{Arch}.

(** The frames of an initialized allocator are the free pages of the regions. *)
Lemma managed_pages a regions ps data size a' p :
  Forall region_ok regions -> 0 <= ps -> 0 <= next_generation_ a <= u64_max ->
  initialize a regions ps data size = (a', StatusCode.ok) -> p mod ps = 0 ->
  (exists i, 0 <= i < total_frames a' /\ address_for a' i = p) <-> (forall b, p <= b < p + ps -> byte_free regions b = true).
Proof.
  intros Hok Hps Hng E Hp. apply initialize_ok in E as (Hwf & _ & Hpg & _ & _ & Hr & c & Hst); [| done..].
  pose proof (page_pos a' Hwf) as Hpos. rewrite Hpg in Hpos. rewrite <- (page_runs_exact regions ps c p) by done. rewrite <- Hpg.
  symmetry. apply page_in_frame; [done | by rewrite Hpg | by rewrite Hpg].
Qed.

Lemma initialize_fresh a regions ps data size a' :
  Forall region_ok regions -> 0 <= ps -> initialize a regions ps data size = (a', StatusCode.ok) ->
  0 < frame_count_ a' /\ forall i, 0 <= i < frame_count_ a' -> (descriptors_ a').[i] = PageDescriptor.zero.
Proof.
  intros Hok Hps Hi. apply initialize_unfold in Hi as (_ & _ & t & Hc & _ & Ha).
  apply count_usable_ok in Hc as (_ & _ & _ & -> & Hf & _); [| done | done]. cbn [frames ranges] in *.
  destruct (metadata_layout data _) as [[b d] r]. subst a'. cbn. split; [lia |]. intros i Hi. apply aget_replicate. lia.
Qed.

Lemma initialize_refused a regions ps data size a' st : initialize a regions ps data size = (a', st) -> st <> StatusCode.ok ->
  a' = a /\
  (st = StatusCode.busy /\ used_count_ a <> 0 \/ count_usable regions ps = Err st \/
   st = StatusCode.no_memory /\ exists t, count_usable regions ps = Ok t /\ (data = 0 \/ size < metadata_bytes_for (frames t) (ranges t))).
Proof.
  intros E Hst. revert E. unfold initialize. destruct (negb (used_count_ a =? 0)) eqn:Hu; [intros [= <- <-]; b2p; by auto |].
  destruct (count_usable regions ps) as [t | e] eqn:Hc; [| intros [= <- <-]; by auto].
  destruct (_ || _) eqn:Ho; [intros [= <- <-] | repeat case_match; intros [= <- <-]; done].
  split; [done |]. right; right. split; [done |]. exists t. split; [done |]. apply orb_true_iff in Ho as [Ho | Ho]; lia.
Qed.

(** initialize() either yields a well-formed allocator with no used frame,
    the generation sequence continued, and one frame for every page all of whose
    bytes are usable and unreserved in the region list, and for no other page;
    or it refuses and leaves the allocator as it was, because frames are in use,
    the region list is unusable, or the metadata storage is absent or too
    small. *)
Theorem initialize_manages_free_pages a regions ps data size :
  Forall region_ok regions -> 0 <= ps -> 0 <= next_generation_ a <= u64_max ->
  let '(a', status) := initialize a regions ps data size in
  if status_ok status then
    wf a' /\ used_count_ a' = 0 /\ next_generation_ a' = next_generation_ a /\
    forall p, p mod ps = 0 ->
      (exists i, 0 <= i < total_frames a' /\ address_for a' i = p) <->
      (forall b, p <= b < p + ps -> byte_free regions b = true)
  else
    a' = a /\
    (status = StatusCode.busy /\ used_count_ a <> 0 \/ count_usable regions ps = Err status \/
     status = StatusCode.no_memory /\
     exists t, count_usable regions ps = Ok t /\ (data = 0 \/ size < metadata_bytes_for (frames t) (ranges t))).
Proof.
  intros Hok Hps Hng. destruct (initialize a regions ps data size) as [a' status] eqn:E.
  destruct (status_ok status) eqn:Es.
  - assert (status = StatusCode.ok) as -> by (by destruct status).
    pose proof (fun p => managed_pages a regions ps data size a' p Hok Hps Hng E) as Hpages.
    by apply initialize_ok in E as (Hwf & _ & _ & Hu & Hn & _); [| done..].
  - apply (initialize_refused a regions ps data size); [done | by intros ->].
Qed.

(** The three metadata arrays initialize() lays out are aligned,
    disjoint, in order, and end inside the storage the caller passed. *)
Lemma initialize_metadata_in_storage a regions ps data size a' :
  Forall region_ok regions -> 0 <= ps -> zlen regions <= 2 ^ 14 ->
  0 <= data -> data + size <= usize_max ->
  initialize a regions ps data size = (a', StatusCode.ok) ->
  data <= bitmap_data a' /\ bitmap_data a' mod 8 = 0 /\
  bitmap_data a' + 8 * zlen (bitmap_ a') = descriptors_data a' /\
  descriptors_data a' + sizeof_PageDescriptor * zlen (descriptors_ a') = ranges_data a' /\
  ranges_data a' + sizeof_FrameRange * zlen (ranges_ a') <= data + size.
Proof.
  intros Hok Hps Hlen Hd Hds Hi. apply initialize_unfold in Hi as (_ & _ & t & Hc & Hbytes & Ha).
  apply count_usable_ok in Hc as (Hp & Hps' & (c & Hst) & -> & Hf & _); [| done | done]. cbn [frames ranges] in *.
  rewrite sweep_usable_feed, feed_ranges in Ha by (by rewrite ?Hst).
  set (f := total_pages (page_runs regions ps)) in *. set (k := zlen (page_runs regions ps)) in *.
  pose proof (page_runs_length regions ps) as Hk. fold k in Hk. pose proof (zlen_nonneg (page_runs regions ps)) as Hk0. fold k in Hk0.
  destruct (metadata_bytes_exact f k Hf ltac:(lia)) as [Hb Hmax]. rewrite Hb in Hbytes.
  assert (0 <= (f + 63) / 64) by (apply Z.div_pos; lia).
  assert (0 <= k * sizeof_FrameRange) by (pose proof sizeof_FrameRange_bound; nia).
  assert (data + 7 <= usize_max) as Hd7 by lia.
  destruct (metadata_layout_eq data f Hd Hd7) as (Hl & Hr & Hal). rewrite Hl in Ha. subst a'; cbn.
  rewrite build_ranges_length, fresh_bitmap_length by lia. fold k.
  assert (zlen (replicate (Z.to_nat f) PageDescriptor.zero) = f) as -> by (unfold zlen; rewrite length_replicate; lia).
  unfold sizeof_PageDescriptor. split_and!; lia.
Qed.
End InitClaims.

(** ** Witnesses *)
Section InitWitnesses.
#[local] Existing Instance arch64.

(** Four usable pages, metadata at 1 MiB. *)
Definition sample_region : list MemoryRegion.t := [MemoryRegion.mk 65536 16384 RegionType.usable].
Definition sample_frames : t := fst (initialize (new 1) sample_region 4096 1048576 4096).

Lemma sample_frames_initialized :
  initialize (new 1) sample_region 4096 1048576 4096 = (sample_frames, StatusCode.ok).
Proof. vm_compute. reflexivity. Qed.

Lemma sample_frames_wf : wf sample_frames.
Proof. by apply (initialize_ok (new 1) sample_region 4096 1048576 4096 _ ltac:(concrete) ltac:(lia) ltac:(concrete)), sample_frames_initialized. Qed.

Lemma initialize_witness :
  total_frames sample_frames = 4 /\
  forall p, p mod 4096 = 0 ->
    (exists i, 0 <= i < 4 /\ address_for sample_frames i = p) <->
    (forall b, p <= b < p + 4096 -> byte_free sample_region b = true).
Proof.
  pose proof (initialize_manages_free_pages (new 1) sample_region 4096 1048576 4096 ltac:(concrete) ltac:(lia) ltac:(concrete)) as Hi.
  rewrite sample_frames_initialized in Hi. split; [vm_compute; reflexivity | apply Hi].
Defined.
End InitWitnesses.
