(* ===== verification/FrameAlloc.v ===== *)
(** * Allocation and release of frames (src/memory/memory.cpp)

    Single and contiguous allocation, release and the charged variants: each
    succeeds exactly under the stated condition, keeps [wf], and changes the
    ownership of exactly the frames it names.  A step relation over the public
    operations shows that a released handle is never valid again. *)

From S2P Require Import Prelude Charges Regions Sweep Frames FrameSearch FrameSpec.
Import FrameAllocator.

Section Scan.
Context `{Arch}.
Implicit Types a : FrameAllocator.t.

Lemma scan_words_sound n bm hint s i :
  0 < zlen bm -> scan_words n bm hint s = Some i ->
  exists w, 0 <= w < zlen bm /\ bm.[w] <> u64_max /\ i = w * 64 + lowest_clear_bit bm.[w].
Proof.
  intros Hz. revert s. induction n as [| n IH]; intros s; cbn; [done |].
  destruct (Z.eqb_spec bm.[(hint / 64 + s) mod zlen bm] u64_max) as [_ | Hne]; [apply IH |].
  intros [= <-]. exists ((hint / 64 + s) mod zlen bm). split_and!; try done; by apply Z.mod_pos_bound.
Qed.

Lemma scan_words_complete n bm hint s t :
  s <= t < s + Z.of_nat n -> bm.[(hint / 64 + t) mod zlen bm] <> u64_max ->
  scan_words n bm hint s <> None.
Proof.
  revert s. induction n as [| n IH]; intros s Ht Hne; [lia |]. cbn.
  case_match; [| done]. apply IH; [| done]. b2p. enough (t <> s) by lia. by intros ->.
Qed.

Lemma word_not_full a i : 0 <= i -> used a i = false -> (bitmap_ a).[i / 64] <> u64_max.
Proof.
  intros Hi Hu E. pose proof (Z.mod_pos_bound i 64 ltac:(lia)). rewrite used_testbit, E in Hu by done.
  change u64_max with (Z.ones 64) in Hu. rewrite Z.ones_spec_low in Hu by lia. done.
Qed.

Lemma free_frame_exists a : wf a -> used_count_ a < frame_count_ a ->
  exists i, 0 <= i < frame_count_ a /\ generation_at a i = 0.
Proof.
  intros Hwf Hlt. rewrite wf_used, <- wf_descriptors in Hlt by done.
  destruct (zsum_zero _ _ live_unit_range Hlt) as (i & Hi & Hl). rewrite wf_descriptors in Hi by done.
  exists i. split; [done |]. unfold live_unit in Hl. rewrite is_live_generation in Hl. case_match; b2p; lia.
Qed.

(** The word scan meets a free frame whenever there is one. *)
Lemma scan_words_free a : wf a -> used_count_ a < frame_count_ a ->
  exists i, scan_words (S (length (bitmap_ a))) (bitmap_ a) (next_free_hint_ a) 0 = Some i /\
            0 <= i < frame_count_ a /\ generation_at a i = 0.
Proof.
  intros Hwf Hlt. destruct (free_frame_exists a Hwf Hlt) as (i & Hi & Hg).
  pose proof (frame_bit a i Hwf Hi) as Hb. pose proof (word_index _ _ Hb) as Hw.
  assert (used a i = false) as Hu by (rewrite used_generation, Hg by done; done).
  set (h := next_free_hint_ a / 64). set (z := zlen (bitmap_ a)) in *.
  pose proof (Z.mod_pos_bound (i / 64 - h) z ltac:(lia)) as Ht.
  destruct (scan_words _ _ _ _) as [j |] eqn:E.
  - exists j. split; [done |]. apply scan_words_sound in E as (w & Hwr & Hne & Hj); [| fold z; lia].
    pose proof (Forall_lookup_1 _ _ _ _ (wf_words a Hwf) (lookup_aget _ _ Hwr)) as Hbits. cbn in Hbits.
    destruct (lowest_clear_bit_spec _ Hbits Hne) as (Hl & Hbit & _).
    assert (used a j = false) as Huj.
    { rewrite used_testbit, Hj by lia. by rewrite Z.div_add_l, Z.div_small, Z.add_0_r, Z.add_comm, Z_mod_plus_full, Z.mod_small by lia. }
    rewrite (wf_bits a Hwf) in Huj by lia. b2p. lia.
  - exfalso. revert E. apply (scan_words_complete _ _ _ _ ((i / 64 - h) mod z)); [unfold z, zlen in *; lia |].
    fold h z. rewrite Zplus_mod_idemp_r. replace (h + (i / 64 - h)) with (i / 64) by lia.
    rewrite Z.mod_small by lia. apply word_not_full; [lia | done].
Qed.

Lemma allocate_taken a : wf a -> used_count_ a < frame_count_ a -> next_generation_ a <> 0 ->
  exists i h, 0 <= i < frame_count_ a /\ generation_at a i = 0 /\ 0 <= h < frame_count_ a /\
    allocate a = (with_hint (taken a i) h, Ok (handle (taken a i) i)).
Proof.
  intros Hwf Hlt Hng. destruct (scan_words_free a Hwf Hlt) as (i & Hs & Hi & Hg).
  exists i, (if i + 1 <? frame_count_ a then i + 1 else 0). split_and!; try lia.
  - case_match; b2p; lia.
  - case_match; b2p; lia.
  - unfold allocate. rewrite Hs. by cmp.
Qed.

(** Handles across a take: exactly one more is valid. *)
Lemma exact_taken a i h :
  wf a -> 0 <= i < frame_count_ a -> generation_at a i = 0 -> next_generation_ a <> 0 ->
  0 <= PhysicalFrame.index h ->
  exact (taken a i) h = true <-> exact a h = true \/ h = handle (taken a i) i.
Proof.
  intros Hwf Hi Hg Hng Hh. pose proof (taken_wf a i Hwf Hi Hg Hng) as Hwf'.
  assert (0 <= i < zlen (descriptors_ a)) as Hd by (by rewrite wf_descriptors).
  rewrite !exact_iff, taken_generation by done. change (frame_count_ (taken a i)) with (frame_count_ a).
  assert (forall j, j <> i -> 0 <= j -> handle (taken a i) j = handle a j) as Hsame.
  { intros j Hj Hj0. pose proof (taken_generation a i j Hd Hj0) as Hgj. unfold generation_at in Hgj.
    unfold handle. rewrite Hgj. by cmp. }
  destruct (Z.eqb_spec (PhysicalFrame.index h) i) as [E | E].
  - rewrite E. split; [intros (? & ? & ?); by right | intros [(_ & ? & _) | ->]; [done | split_and!; [lia | done | done]]].
  - rewrite Hsame by done. split; [by left | intros [? | ->]; [done |]]. by destruct E.
Qed.
End Scan.

(** ** Runs of frames *)
Section Runs.
Context `{Arch}.
Implicit Types a : FrameAllocator.t.

(** Operations that keep the geometry of the allocator. *)
Definition same_geometry a b : Prop :=
  this a = this b /\ page_size_ a = page_size_ b /\ frame_count_ a = frame_count_ b /\ ranges_ a = ranges_ b.

Lemma same_geometry_address a b i : same_geometry a b -> address_for a i = address_for b i.
Proof. intros (_ & ? & _ & ?). by apply address_for_same. Qed.

(** The fields a contiguous take leaves, whatever the state of the generation
    sequence: consecutive generations and used bits, nothing else. *)
Lemma take_run_fields n a i :
  0 <= i -> i + Z.of_nat n <= zlen (descriptors_ a) -> zlen (descriptors_ a) <= 64 * zlen (bitmap_ a) ->
  0 <= next_generation_ a -> next_generation_ a + Z.of_nat n <= u64_max ->
  let a' := take_run n a i in
  same_geometry a' a /\ next_generation_ a' = next_generation_ a + Z.of_nat n /\
  used_count_ a' = used_count_ a + Z.of_nat n /\
  forall j, 0 <= j ->
    generation_at a' j = (if (i <=? j) && (j <? i + Z.of_nat n) then next_generation_ a + (j - i) else generation_at a j) /\
    used a' j = (i <=? j) && (j <? i + Z.of_nat n) || used a j.
Proof.
  revert a i. induction n as [| n IH]; intros a i Hi Hd Hb Hne Hov; cbn zeta; cbn [take_run].
  { split_and!; try done; try (cbn; lia). intros j Hj.
    destruct (Z.leb_spec i j), (Z.ltb_spec j (i + Z.of_nat 0)); try done; lia. }
  fold (taken a i).
  assert (next_generation_ (taken a i) = next_generation_ a + 1) as Hng1.
  { change (next_generation_ (taken a i)) with (u64_wrap (next_generation_ a + 1)). apply u64_wrap_small. lia. }
  assert (zlen (descriptors_ (taken a i)) = zlen (descriptors_ a)) as Hz1 by (unfold taken, take; cbn; by rewrite zlen_aset).
  assert (zlen (bitmap_ (taken a i)) = zlen (bitmap_ a)) as Hz2 by (unfold taken, take; cbn; by rewrite zlen_aset).
  destruct (IH (taken a i) (i + 1)) as (Hgeo & Hng & Hus & Hgen); try lia. split_and!; [done | lia | |].
  - rewrite Hus. change (used_count_ (taken a i)) with (used_count_ a + 1). lia.
  - intros j Hj. destruct (Hgen j Hj) as [-> ->]. rewrite taken_generation, Hng1 by lia.
    change (used (taken a i) j) with (used (mark a i true) j). rewrite used_mark by lia.
    destruct (Z.eqb_spec j i) as [-> | Hji]; [cmp; split; [lia | done] |].
    destruct (Z.leb_spec i j), (Z.ltb_spec j (i + Z.of_nat (S n))); cmp; try done; lia.
Qed.

Lemma frame_bits a : wf a -> frame_count_ a <= 64 * zlen (bitmap_ a).
Proof.
  intros Hwf. destruct (Z_lt_le_dec 0 (frame_count_ a)); [| unfold zlen; lia].
  pose proof (frame_bit a (frame_count_ a - 1) Hwf ltac:(lia)). lia.
Qed.

Lemma take_run_wf n a i :
  wf a -> 0 <= i -> i + Z.of_nat n <= frame_count_ a ->
  (forall j, i <= j < i + Z.of_nat n -> generation_at a j = 0) ->
  next_generation_ a <> 0 -> next_generation_ a + Z.of_nat n <= u64_max -> wf (take_run n a i).
Proof.
  revert a i. induction n as [| n IH]; intros a i Hwf Hi Hle Hfree Hne Hov; cbn [take_run]; [done |].
  fold (taken a i). pose proof (wf_next a Hwf) as Hn.
  assert (0 <= i < zlen (descriptors_ a)) as Hd by (rewrite wf_descriptors by done; lia).
  assert (next_generation_ (taken a i) = next_generation_ a + 1) as Hng1.
  { change (next_generation_ (taken a i)) with (u64_wrap (next_generation_ a + 1)). apply u64_wrap_small. lia. }
  apply IH; try lia.
  - apply taken_wf; [done | lia | apply Hfree; lia | done].
  - change (frame_count_ (taken a i)) with (frame_count_ a). lia.
  - intros j Hj. rewrite taken_generation by lia. cmp. apply Hfree. lia.
Qed.

Lemma take_run_spec n a i :
  wf a -> 0 <= i -> i + Z.of_nat n <= frame_count_ a ->
  (forall j, i <= j < i + Z.of_nat n -> generation_at a j = 0) ->
  next_generation_ a <> 0 -> next_generation_ a + Z.of_nat n <= u64_max ->
  let a' := take_run n a i in
  wf a' /\ same_geometry a' a /\ next_generation_ a' = next_generation_ a + Z.of_nat n /\
  used_count_ a' = used_count_ a + Z.of_nat n /\
  forall j, 0 <= j -> generation_at a' j =
    if (i <=? j) && (j <? i + Z.of_nat n) then next_generation_ a + (j - i) else generation_at a j.
Proof.
  intros Hwf Hi Hle Hfree Hne Hov. pose proof (wf_next a Hwf).
  destruct (take_run_fields n a i) as (Hgeo & Hng & Hus & Hgen); rewrite ?wf_descriptors by done; try lia; [by apply frame_bits |].
  split_and!; try done; [by apply take_run_wf |]. intros j Hj. by apply Hgen.
Qed.

Lemma drop_run_with_used n a i u : drop_run n (with_used a u) i = with_used (drop_run n a i) u.
Proof.
  revert a i. induction n as [| n IH]; intros a i; cbn; [done |].
  rewrite <- IH. done.
Qed.

Lemma drop_run_used n a i : used_count_ (drop_run n a i) = used_count_ a.
Proof. revert a i. induction n as [| n IH]; intros a i; cbn; [done |]. by rewrite IH. Qed.

Lemma drop_run_geometry n a i :
  same_geometry (drop_run n a i) a /\ next_generation_ (drop_run n a i) = next_generation_ a /\
  next_free_hint_ (drop_run n a i) = next_free_hint_ a.
Proof.
  revert a i. induction n as [| n IH]; intros a i; cbn; [done |].
  match goal with |- context [drop_run n ?b ?k] => destruct (IH b k) as ((?&?&?&?) & ? & ?) end. done.
Qed.

(** Releasing [n] frames is releasing them one by one. *)
Lemma drop_run_spec n a i :
  wf a -> 0 <= i -> i + Z.of_nat n <= frame_count_ a ->
  (forall j, i <= j < i + Z.of_nat n -> generation_at a j <> 0) ->
  let a' := with_used (drop_run n a i) (used_count_ a - Z.of_nat n) in
  wf a' /\ forall j, 0 <= j -> generation_at a' j =
    if (i <=? j) && (j <? i + Z.of_nat n) then 0 else generation_at a j.
Proof.
  revert a i. induction n as [| n IH]; intros a i Hwf Hi Hle Hlive; cbn zeta.
  { cbn [drop_run]. replace (with_used a _) with a by (destruct a; unfold with_used; cbn; f_equal; lia). split; [done |].
    intros j Hj. destruct (Z.leb_spec i j), (Z.ltb_spec j (i + Z.of_nat 0)); try done; lia. }
  assert (0 <= i < zlen (descriptors_ a)) as Hd by (rewrite wf_descriptors by done; lia).
  pose proof (freed_wf a i Hwf ltac:(lia) (Hlive i ltac:(lia))) as Hwf1.
  assert (with_used (drop_run (S n) a i) (used_count_ a - Z.of_nat (S n)) =
          with_used (drop_run n (freed a i) (i + 1)) (used_count_ (freed a i) - Z.of_nat n)) as ->.
  { unfold freed. rewrite drop_run_with_used. cbn [drop_run]. unfold with_used; cbn. f_equal. lia. }
  destruct (IH (freed a i) (i + 1)) as (Hw & Hgen); try done; try lia.
  - change (frame_count_ (freed a i)) with (frame_count_ a). lia.
  - intros j Hj. rewrite freed_generation by lia. cmp. apply Hlive. lia.
  - split; [done |]. intros j Hj. rewrite Hgen, freed_generation by lia.
    destruct (Z.eqb_spec j i) as [-> | Hji]; [by cmp |].
    destruct (Z.leb_spec i j), (Z.ltb_spec j (i + Z.of_nat (S n))); cmp; try done; lia.
Qed.

(** A handle is valid through its index and generation. *)
Lemma exact_generation a b h :
  wf a -> wf b -> same_geometry b a -> 0 <= PhysicalFrame.index h ->
  generation_at b (PhysicalFrame.index h) = generation_at a (PhysicalFrame.index h) ->
  exact b h = exact a h.
Proof.
  intros Hwa Hwb (Ht & Hp & Hf & Hr) Hi Hg. unfold exact, generation_at in *. rewrite Ht, Hf, Hg.
  by rewrite (address_for_same b a).
Qed.

Lemma exact_live a h : exact a h = true ->
  PhysicalFrame.index h < frame_count_ a /\ generation_at a (PhysicalFrame.index h) = PhysicalFrame.generation h /\
  PhysicalFrame.generation h <> 0 /\ address_for a (PhysicalFrame.index h) = PhysicalFrame.address h.
Proof. unfold exact, generation_at. intros. b2p. split_and!; done || lia. Qed.

(** release() as the clearing of one frame and a hint update. *)
Lemma release_freed a h :
  wf a -> 0 <= PhysicalFrame.index h -> exact a h = true ->
  exists k, 0 <= k < frame_count_ a /\
    release a h = (with_hint (freed a (PhysicalFrame.index h)) k, StatusCode.ok).
Proof.
  intros Hwf Hi He. pose proof (exact_live a h He) as (Hlt & Hg & Hne & _).
  unfold release. rewrite He, used_generation, Hg by done. replace (_ =? 0) with false by lia. cbn [negb orb].
  pose proof (wf_hint a Hwf) as [? ?].
  exists (if PhysicalFrame.index h <? next_free_hint_ a then PhysicalFrame.index h else next_free_hint_ a).
  split; [case_match; b2p; lia |].
  change (next_free_hint_ (with_used _ _)) with (next_free_hint_ a). by case_match.
Qed.

(** run_owned() checks each frame of the run. *)
Lemma run_owned_spec n a h i :
  run_owned n a h i = true <-> forall j, i <= j < i + Z.of_nat n ->
    used a (PhysicalFrame.index h + j) = true /\
    address_for a (PhysicalFrame.index h + j) = usize_wrap (PhysicalFrame.address h + j * page_size_ a).
Proof.
  revert i. induction n as [| n IH]; intros i; cbn [run_owned]; [split; [lia | done] |].
  destruct (negb (used a _) || _) eqn:E.
  - split; [done |]. intros Hall. destruct (Hall i ltac:(lia)) as [Hu Ha]. rewrite Hu, Ha, Z.eqb_refl in E. done.
  - rewrite IH. b2p. split; [| intros Hall j Hj; apply Hall; lia].
    intros Hall j Hj. destruct (Z.eq_dec j i) as [-> |]; [done |]. apply Hall. lia.
Qed.
End Runs.

(** ** First fit *)
Section FirstFit.
Context `{Arch}.
Context (a : FrameAllocator.t) (count alignment : Z).
Hypothesis Hcount : 0 < count.

(** [count] free frames from [f] on inside range [r], the first one aligned. *)
Definition fits (r : FrameRange.t) (f : Z) : Prop :=
  FrameRange.first_index r <= f /\ f + count <= FrameRange.first_index r + FrameRange.count r /\
  (forall j, f <= j < f + count -> used a j = false) /\
  (alignment = 0 \/ address_for a f mod alignment = 0).

(** [run] free frames end just before [limit], preceded by a used frame or the range start. *)
Definition run_inv (r : FrameRange.t) (limit run : Z) : Prop :=
  let start := FrameRange.first_index r in
  0 <= run <= limit - start /\ (forall j, limit - run <= j < limit -> used a j = false) /\
  (run = limit - start \/ used a (limit - run - 1) = true).

Lemma run_inv_step r limit run :
  FrameRange.first_index r <= limit -> run_inv r limit run ->
  run_inv r (limit + 1) (if used a limit then 0 else run + 1).
Proof.
  intros Hl (Hr & Hfree & Hmax). destruct (used a limit) eqn:E; split_and!; try lia.
  - right. by replace (limit + 1 - 0 - 1) with limit by lia.
  - intros j Hj. destruct (Z.eq_dec j limit) as [-> |]; [done |]. apply Hfree. lia.
  - destruct Hmax as [-> | Hu]; [left; lia | right]. by replace (limit + 1 - (run + 1) - 1) with (limit - run - 1) by lia.
Qed.

(** With the invariant, the run is long enough exactly when the window fits. *)
Lemma run_inv_window r limit run :
  run_inv r limit run ->
  count <= run <->
  FrameRange.first_index r <= limit - count /\ forall j, limit - count <= j < limit -> used a j = false.
Proof.
  intros (Hr & Hfree & Hmax). split.
  - intros Hc. split; [lia |]. intros j Hj. apply Hfree. lia.
  - intros [Hs Hall]. destruct (Z_lt_le_dec run count) as [Hlt |]; [| done].
    destruct Hmax as [-> | Hu]; [lia |]. rewrite Hall in Hu by lia. done.
Qed.

Lemma find_in_range_spec n r offset run :
  0 <= FrameRange.first_index r -> 0 <= offset ->
  FrameRange.first_index r + FrameRange.count r <= usize_max ->
  offset + Z.of_nat n = FrameRange.count r -> run_inv r (FrameRange.first_index r + offset) run ->
  (forall g, fits r g -> FrameRange.first_index r + offset < g + count) ->
  match find_in_range n a count alignment r offset run with
  | Some f => fits r f /\ forall g, fits r g -> f <= g
  | None => forall g, ~ fits r g
  end.
Proof.
  intros Hf0 Hoff0 Hmax. revert offset run Hoff0.
  induction n as [| n IH]; intros offset run Hoff0 Hn Hinv Hlow; cbn [find_in_range].
  { intros g Hg. pose proof (Hlow g Hg). destruct Hg as (? & ? & _). lia. }
  set (start := FrameRange.first_index r) in *.
  apply run_inv_step in Hinv; [| fold start; lia].
  set (run' := if used a (start + offset) then 0 else run + 1) in *.
  pose proof (run_inv_window _ _ _ Hinv) as Hwin. fold start in Hwin.
  replace (start + offset + 1) with (start + (offset + 1)) in * by lia.
  destruct (_ || _) eqn:E.
  - apply IH; [lia | lia | done |]. intros g Hg. pose proof (Hlow g Hg).
    destruct (Z.eq_dec (g + count) (start + offset + 1)) as [Hend |]; [| lia]. exfalso.
    destruct Hg as (Hg1 & Hg2 & Hg3 & Hg4). fold start in Hg1.
    assert (count <= run') as Hrun.
    { apply Hwin. split; [lia |]. intros j Hj. apply Hg3. lia. }
    replace (start + (offset + 1) - count) with g in E by lia.
    pose proof Hinv as (Hr & _). fold start in Hr. rewrite usize_wrap_small in E by lia.
    destruct Hg4 as [-> | Hal]; b2p; [lia |]. rewrite Hal in E. b2p. lia.
  - b2p. pose proof Hinv as (Hr & _). fold start in Hr. rewrite usize_wrap_small in * by lia.
    destruct (proj1 Hwin ltac:(lia)) as [Hs Hall]. split; [| intros g Hg; pose proof (Hlow g Hg); lia].
    split_and!; fold start; [lia | lia | intros j Hj; apply Hall; lia |].
    match goal with Hx : _ \/ _ |- _ => destruct Hx; b2p; [left | right]; lia end.
Qed.
End FirstFit.

Section Contiguous.
Context `{Arch}.
Implicit Types a : FrameAllocator.t.

Lemma total_count_bound ps low idx ranges :
  0 < ps -> low <= usize_max -> ranges_wf ps low idx ranges -> low + total_count ranges * ps <= usize_max.
Proof.
  intros Hps. revert low idx. induction ranges as [| r ranges IH]; intros low idx Hlow; cbn; [lia |].
  intros (? & ? & ? & ? & ? & Hw). specialize (IH _ _ ltac:(done) Hw). fold (total_count ranges). nia.
Qed.

Lemma frame_count_max a : wf a -> 0 <= frame_count_ a <= usize_max.
Proof.
  intros Hwf. pose proof (page_pos a Hwf) as Hps. rewrite <- wf_total by done. pose proof usize_max_pos.
  pose proof (total_count_bound (page_size_ a) 0 0 (ranges_ a) Hps ltac:(lia) (wf_ranges a Hwf)).
  pose proof (total_count_nonneg _ _ _ _ (wf_ranges a Hwf)). nia.
Qed.

(** A run of [count] free, adjacent, aligned frames from [f] on, in some range. *)
Definition fit_at a (count alignment f : Z) : Prop :=
  exists r, r ∈ ranges_ a /\ fits a count alignment r f.

Lemma find_run_spec a count alignment ps low idx ranges :
  0 < count -> 0 < ps -> ranges_wf ps low idx ranges -> 0 <= idx -> idx + total_count ranges <= usize_max ->
  match find_run a count alignment ranges with
  | Some f => (exists r, r ∈ ranges /\ fits a count alignment r f) /\
              forall r g, r ∈ ranges -> fits a count alignment r g -> f <= g
  | None => forall r g, r ∈ ranges -> ~ fits a count alignment r g
  end.
Proof.
  intros Hc Hps. revert low idx. induction ranges as [| r ranges IH]; intros low idx Hwf Hidx Htot; cbn [find_run].
  { by intros r g ?%not_elem_of_nil. }
  pose proof Hwf as (_ & _ & Hfi & Hcnt & _ & Hwf').
  change (total_count (r :: ranges)) with (FrameRange.count r + total_count ranges) in Htot.
  pose proof (total_count_nonneg _ _ _ _ Hwf') as Hnn.
  assert (FrameRange.first_index r + FrameRange.count r <= usize_max) as Hm by (clear -Hnn Htot Hfi; lia).
  pose proof (find_in_range_spec a count alignment Hc (Z.to_nat (FrameRange.count r)) r 0 0
    ltac:(lia) ltac:(lia) Hm ltac:(lia)) as Hr.
  assert (run_inv a r (FrameRange.first_index r + 0) 0) as Hinv by (unfold run_inv; split_and!; lia).
  specialize (Hr Hinv ltac:(intros g (? & ? & _); lia)).
  specialize (IH _ (idx + FrameRange.count r) Hwf' ltac:(lia) ltac:(lia)).
  destruct (find_in_range _ _ _ _ _ _ _) as [f |].
  - destruct Hr as [Hfit Hmin]. split; [exists r; split; [by left | done] |].
    intros r' g [-> | Hin]%elem_of_cons Hg; [by apply Hmin |].
    apply list_elem_of_lookup in Hin as [k Hk]. pose proof (lookup_lt_Some _ _ _ Hk).
    assert (ranges.[Z.of_nat k] = r') as <- by (apply aget_lookup; [lia | by rewrite Nat2Z.id]).
    pose proof (ranges_wf_nth ps Hps _ _ _ (Z.of_nat k) Hwf' ltac:(unfold zlen; lia)) as (_ & _ & Hle & _).
    destruct Hg as (Hg & _). destruct Hfit as (_ & Hf & _). lia.
  - destruct (find_run a count alignment ranges) as [f |].
    + destruct IH as [(r' & Hin & Hf) Hmin]. split; [exists r'; split; [by right | done] |].
      intros r'' g [-> | Hin']%elem_of_cons Hg; [by apply Hr in Hg | by apply (Hmin r'')].
    + intros r' g [-> | Hin]%elem_of_cons; [apply Hr | by apply IH].
Qed.
End Contiguous.

(** ** The contiguous operations *)
Section ContiguousSpec.
Context `{Arch}.
Implicit Types a : FrameAllocator.t.

Lemma fit_at_spec a count alignment f :
  wf a -> 0 < count -> fit_at a count alignment f ->
  0 <= f /\ f + count <= frame_count_ a /\
  (forall j, f <= j < f + count -> generation_at a j = 0) /\
  (forall j, 0 <= j < count -> address_for a (f + j) = address_for a f + j * page_size_ a).
Proof.
  intros Hwf Hc (r & Hin & Hf1 & Hf2 & Hfree & _). apply list_elem_of_lookup in Hin as [k Hk].
  pose proof (lookup_lt_Some _ _ _ Hk).
  assert ((ranges_ a).[Z.of_nat k] = r) as Hr by (apply aget_lookup; [lia | by rewrite Nat2Z.id]).
  assert (0 <= Z.of_nat k < zlen (ranges_ a)) as Hkr by (unfold zlen; lia).
  assert (forall i, f <= i < f + count -> 0 <= i < frame_count_ a) as Hin.
  { intros i Hi. pose proof (range_frame a Hwf _ (i - FrameRange.first_index r) Hkr) as Hfr.
    rewrite Hr in Hfr. cbn zeta in Hfr. specialize (Hfr ltac:(lia)). lia. }
  assert (forall i, f <= i < f + count ->
    address_for a i = FrameRange.base r + (i - FrameRange.first_index r) * page_size_ a) as Haddr.
  { intros i Hi. rewrite <- Hr. unfold address_for. pose proof (page_pos a Hwf).
    apply address_search_hit with 0; [done | apply Hwf | lia | lia | unfold zlen; lia | rewrite Hr; lia]. }
  pose proof (Hin f ltac:(lia)). pose proof (Hin (f + count - 1) ltac:(lia)). split_and!; [lia | lia | |].
  - intros j Hj. pose proof (Hfree j Hj) as Hu. rewrite used_generation in Hu by (done || by apply Hin). b2p. lia.
  - intros j Hj. rewrite !Haddr by lia. lia.
Qed.

(** The frame search of allocate_contiguous() is complete and first fit. *)
Lemma find_run_fit a count alignment :
  wf a -> 0 < count ->
  match find_run a count alignment (ranges_ a) with
  | Some f => fit_at a count alignment f /\ forall g, fit_at a count alignment g -> f <= g
  | None => forall g, ~ fit_at a count alignment g
  end.
Proof.
  intros Hwf Hc. pose proof (frame_count_max a Hwf) as Hm. rewrite <- wf_total in Hm by done.
  pose proof (find_run_spec a count alignment _ 0 0 _ Hc (page_pos a Hwf) (wf_ranges a Hwf) ltac:(done) ltac:(lia)) as Hs.
  unfold fit_at. destruct (find_run _ _ _ _) as [f |].
  - destruct Hs as [? Hmin]. split; [done |]. intros g (r & ? & ?). by apply (Hmin r).
  - intros g (r & ? & ?). by apply (Hs r g).
Qed.

(** Handles across a contiguous take: those of the run become valid, no other changes. *)
Lemma exact_take_run n a i h :
  wf a -> 0 <= i -> i + Z.of_nat n <= frame_count_ a ->
  (forall j, i <= j < i + Z.of_nat n -> generation_at a j = 0) ->
  next_generation_ a <> 0 -> next_generation_ a + Z.of_nat n <= u64_max -> 0 <= PhysicalFrame.index h ->
  exact (take_run n a i) h = true <->
  exact a h = true \/ exists j, i <= j < i + Z.of_nat n /\ h = handle (take_run n a i) j.
Proof.
  intros Hwf Hi Hle Hfree Hne Hov Hh.
  destruct (take_run_spec n a i) as (Hw & Hgeo & _ & _ & Hgen); try done.
  pose proof Hgeo as (_ & _ & Hfc & _). pose proof (wf_next a Hwf).
  destruct (decide (i <= PhysicalFrame.index h < i + Z.of_nat n)) as [Hin | Hout].
  - rewrite !exact_iff, Hfc, Hgen, (Hfree _ Hin) by done. cmp. split.
    + intros (_ & _ & ?). right. eauto.
    + intros [(_ & ? & _) | (j & Hj & ->)]; [done |]. cbn [handle PhysicalFrame.index]. split_and!; [lia | lia | done].
  - rewrite (exact_generation a (take_run n a i)); try done.
    + split; [by left | intros [? | (j & Hj & ->)]; [done |]]. cbn in Hout. lia.
    + rewrite Hgen by done. destruct (Z.leb_spec i (PhysicalFrame.index h)), (Z.ltb_spec (PhysicalFrame.index h) (i + Z.of_nat n)); try done. lia.
Qed.

(** The state release_contiguous() leaves, up to the hint. *)
Lemma release_contiguous_ok a h count acc a' acc' :
  wf a -> 0 <= PhysicalFrame.index h -> 0 <= count ->
  release_contiguous a h count acc = (a', acc', StatusCode.ok) ->
  let i := PhysicalFrame.index h in
  0 < count /\ exact a h = true /\ i + count <= frame_count_ a /\
  (forall j, i <= j < i + count -> generation_at a j <> 0) /\
  wf a' /\ same_geometry a' a /\ used_count_ a' = used_count_ a - count /\
  next_generation_ a' = next_generation_ a /\
  count <= ChargeAccount.used acc /\ acc' = fst (ChargeAccount.uncharge acc count) /\
  forall j, 0 <= j -> generation_at a' j = if (i <=? j) && (j <? i + count) then 0 else generation_at a j.
Proof.
  intros Hwf Hi Hc. unfold release_contiguous. cbn zeta. destruct (_ || _) eqn:E1; [done |].
  destruct (run_owned _ _ _ _) eqn:E2; cbn [negb]; [| done].
  destruct (ChargeAccount.used acc <? count) eqn:E3; [done |]. b2p. intros [= <- <-].
  set (i := PhysicalFrame.index h) in *.
  assert (forall j, i <= j < i + count -> generation_at a j <> 0) as Hlive.
  { intros j Hj. destruct (Z.eq_dec j i) as [He | Hne].
    - rewrite He. unfold i. by destruct (exact_live a h) as (_ & -> & ? & _).
    - rewrite run_owned_spec in E2. destruct (E2 (j - i) ltac:(lia)) as [Hu _]. fold i in Hu.
      replace (i + (j - i)) with j in Hu by lia. rewrite used_generation in Hu by (done || lia). b2p. done. }
  destruct (drop_run_spec (Z.to_nat count) a i) as [Hw Hgen]; [done | done | lia | intros; apply Hlive; lia |].
  rewrite Z2Nat.id in Hw, Hgen by lia. destruct (drop_run_geometry (Z.to_nat count) a i) as (Hgeo & Hng & Hhint).
  rewrite drop_run_used. set (a1 := with_used _ _) in *. pose proof (wf_hint a Hwf) as [? ?].
  assert (frame_count_ a1 = frame_count_ a) as Hfc by (by destruct Hgeo as (_ & _ & ? & _)).
  assert (wf (with_hint a1 i)) by (apply hint_wf; [done | lia]).
  match goal with |- context [if ?b then with_hint _ _ else _] => destruct b end; split_and!; done || lia.
Qed.
End ContiguousSpec.
