(* ===== verification/FrameClaims.v ===== *)
(** * Contracts of the frame allocator operations

    The public operations as functional specifications over valid handles, a
    step relation over them, and what holds in every reachable state. *)

From S2P Require Import Prelude Charges Regions Sweep Frames FrameSearch FrameSpec FrameAlloc.
Import FrameAllocator.

Section Operations.
Context `{Arch}.
Implicit Types a : FrameAllocator.t.

(** C2: allocate() succeeds exactly when the allocator is initialised, a
    frame is free and the generation sequence is not exhausted.  It then takes
    one frame that was free, gives it the next generation, and makes exactly
    that one handle valid in addition to those that were.  A failure changes
    nothing and names its cause. *)
Theorem allocate_spec a :
  wf a ->
  match allocate a with
  | (a', Ok h) =>
      wf a' /\ used_frames a' = used_frames a + 1 /\ generation_at a (PhysicalFrame.index h) = 0 /\
      PhysicalFrame.generation h = next_generation_ a /\ live a h = false /\
      forall h', 0 <= PhysicalFrame.index h' -> live a' h' = true <-> live a h' = true \/ h' = h
  | (a', Err e) =>
      a' = a /\ (e = StatusCode.not_initialized /\ initialized a = false \/
                 e = StatusCode.no_memory /\ initialized a = true /\ free_frames a = 0 \/
                 e = StatusCode.overflow /\ 0 < free_frames a /\ next_generation_ a = 0)
  end.
Proof.
  intros Hwf. pose proof (zsum_bounds _ (descriptors_ a) live_unit_range) as Hb. fold (count_live (descriptors_ a)) in Hb.
  rewrite <- wf_used, wf_descriptors in Hb by done.
  destruct (Z.eq_dec (frame_count_ a) 0) as [E0 | E0].
  { unfold allocate, initialized. rewrite E0. split; [done | by left]. }
  destruct (Z_lt_le_dec (used_count_ a) (frame_count_ a)) as [Hlt | Hge].
  2: { unfold allocate, initialized, free_frames. cmp. split; [done |]. right; left. split_and!; [done.. | lia]. }
  destruct (Z.eq_dec (next_generation_ a) 0) as [En | En].
  { unfold allocate, free_frames. cmp. split; [done |]. right; right. split_and!; [done | lia | done]. }
  destruct (allocate_taken a Hwf Hlt En) as (i & k & Hi & Hg & Hk & ->).
  assert (0 <= i < zlen (descriptors_ a)) as Hd by (by rewrite wf_descriptors).
  split_and!; try done.
  - apply hint_wf; [by apply taken_wf | done].
  - change (generation_at (taken a i) i = next_generation_ a). rewrite taken_generation by lia. by cmp.
  - unfold live. apply not_true_is_false. intros He. apply exact_live in He as (_ & He & Hn & _).
    change (PhysicalFrame.index _) with i in He. congruence.
  - intros h' Hh'. unfold live. by apply exact_taken.
Qed.

(** Release() accepts exactly the valid handles.  It then ends the
    validity of that handle and of no other; a refused release changes nothing. *)
Theorem release_spec a h :
  wf a -> 0 <= PhysicalFrame.index h ->
  let '(a', status) := release a h in
  if live a h then
    status = StatusCode.ok /\ wf a' /\ used_frames a' = used_frames a - 1 /\
    forall h', 0 <= PhysicalFrame.index h' -> live a' h' = true <-> live a h' = true /\ h' <> h
  else status = StatusCode.invalid_argument /\ a' = a.
Proof.
  intros Hwf Hi. unfold live. destruct (exact a h) eqn:He.
  2: { unfold release. by rewrite He. }
  destruct (release_freed a h Hwf Hi He) as (k & Hk & ->). pose proof (exact_live a h He) as (Hlt & Hg & Hne & _).
  pose proof (freed_wf a _ Hwf (conj Hi Hlt) ltac:(congruence)) as Hwf1.
  split_and!; try done; [by apply hint_wf |]. intros h' Hh'. change (exact (with_hint ?x _) h') with (exact x h').
  assert (0 <= PhysicalFrame.index h < zlen (descriptors_ a)) as Hd by (by rewrite wf_descriptors).
  destruct (Z.eq_dec (PhysicalFrame.index h') (PhysicalFrame.index h)) as [Ei | Ei].
  - rewrite (exact_iff (freed a _)), freed_generation, Ei by done. cmp. split; [by intros (_ & ? & _) |].
    intros [He' Hnh]. apply exact_iff in He' as (_ & _ & E1), He as (_ & _ & E2); try done.
    destruct Hnh. rewrite E1, Ei. by symmetry.
  - rewrite (exact_generation a (freed a (PhysicalFrame.index h))); try done; [| rewrite freed_generation by done; by cmp].
    split; [| by intros []]. intros. split; [done |]. by intros ->.
Qed.

(** allocate_contiguous() finds the lowest run of free adjacent frames
    that fits the request whenever one exists and the account admits the
    charge: the run is physically contiguous and aligned as requested, its
    handles become valid, and the account is charged for all of it. On
    failure neither the allocator nor the account changes. *)
Theorem allocate_contiguous_spec a count account alignment :
  wf a -> next_generation_ a <> 0 -> 0 <= count ->
  match allocate_contiguous a count account alignment with
  | (a', account', Ok h) =>
      let first := PhysicalFrame.index h in
      wf a' /\ 0 < count /\ fit_at a count alignment first /\
      (forall g, fit_at a count alignment g -> first <= g) /\
      (forall j, 0 <= j < count -> address_for a' (first + j) = PhysicalFrame.address h + j * page_size_ a) /\
      used_frames a' = used_frames a + count /\
      ChargeAccount.charge account count = (account', StatusCode.ok) /\
      (forall h', 0 <= PhysicalFrame.index h' -> live a' h' = true <->
         live a h' = true \/ exists j, 0 <= j < count /\ h' = handle a' (first + j))
  | (a', account', Err e) =>
      a' = a /\ account' = account /\
      (initialized a = false \/ count = 0 \/ Z.land alignment (usize_wrap (alignment - 1)) <> 0 \/
       free_frames a < count \/ u64_max < next_generation_ a + count \/
       (forall g, ~ fit_at a count alignment g) \/ snd (ChargeAccount.charge account count) = e)
  end.
Proof.
  intros Hwf Hng Hc0. unfold allocate_contiguous, initialized, free_frames.
  destruct (frame_count_ a =? 0) eqn:E0; [split_and!; auto |].
  destruct (count =? 0) eqn:E1; [b2p; split_and!; auto |].
  destruct (Z.land alignment _ =? 0) eqn:E2; cbn [negb]; [| b2p; split_and!; auto].
  destruct (_ <? count) eqn:E3; [b2p; split_and!; auto 10 |].
  destruct (u64_max - _ <? count) eqn:E4; [b2p; split_and!; try done; do 4 right; left; lia |]. b2p.
  pose proof (find_run_fit a count alignment Hwf ltac:(lia)) as Hfind.
  destruct (find_run _ _ _ _) as [f |]; [| split_and!; auto 10]. destruct Hfind as [Hfit Hmin].
  destruct (ChargeAccount.charge account count) as [account' st] eqn:Ech.
  destruct (status_ok st) eqn:Est; cbn [negb].
  2: { split_and!; [done | | auto 10]. eapply charge_err; [done |]. by intros ->. }
  assert (st = StatusCode.ok) as -> by (by destruct st).
  destruct (fit_at_spec a count alignment f Hwf ltac:(lia) Hfit) as (Hf0 & Hfe & Hfree & Haddr).
  destruct (take_run_spec (Z.to_nat count) a f) as (Hw & Hgeo & _ & Hus & Hgen); try done; try lia.
  { intros j Hj. apply Hfree. lia. }
  pose proof Hgeo as (_ & _ & Hfc & _). pose proof (wf_next a Hwf).
  unfold handle_at. rewrite Hfc. change (PageDescriptor.generation (descriptors_ ?x).[f]) with (generation_at x f).
  rewrite Hgen by lia. do 2 cmp. cbn zeta. cbn [handle PhysicalFrame.index PhysicalFrame.address].
  split_and!; try done; try lia.
  - intros j Hj. rewrite !(same_geometry_address (take_run (Z.to_nat count) a f) a) by done. by apply Haddr.
  - unfold used_frames. lia.
  - intros h' Hh'. unfold live. rewrite exact_take_run; try done; try lia; [| intros j Hj; apply Hfree; lia].
    apply or_iff_compat_l. split; intros (j & Hj & ->); [exists (j - f) | exists (f + j)]; (split; [lia |]); f_equal; lia.
Qed.
End Operations.

(** ** Histories of operations *)
Section Histories.
Context `{Arch}.
Implicit Types a : FrameAllocator.t.

(** The public operations, with the arguments a caller passes. *)
Inductive op :=
| OAllocate
| OAllocateCharged
| OAllocateContiguous (count alignment : Z)
| ORelease (frame : PhysicalFrame.t)
| OReleaseCharged (frame : PhysicalFrame.t)
| OReleaseContiguous (first : PhysicalFrame.t) (count : Z)
| OWriteDescriptor (frame : PhysicalFrame.t) (d : PageDescriptor.t)
| OInitialize (regions : list MemoryRegion.t) (page_size data size : Z).

Definition exec (s : t * ChargeAccount.t) (o : op) : t * ChargeAccount.t :=
  let '(a, account) := s in
  match o with
  | OAllocate => (fst (allocate a), account)
  | OAllocateCharged => fst (allocate_charged a account)
  | OAllocateContiguous count alignment => fst (allocate_contiguous a count account alignment)
  | ORelease frame => (fst (release a frame), account)
  | OReleaseCharged frame => fst (release_charged a frame account)
  | OReleaseContiguous first count => fst (release_contiguous a first count account)
  | OWriteDescriptor frame d => (if live a frame then write_descriptor a frame d else a, account)
  | OInitialize regions ps data size => (fst (initialize a regions ps data size), account)
  end.

(** What the argument types give, and that a descriptor written through the
    returned pointer keeps the generation, which belongs to the allocator. *)
Definition op_ok (o : op) : Prop :=
  match o with
  | OAllocate | OAllocateCharged => True
  | OAllocateContiguous count _ => 0 <= count
  | ORelease h | OReleaseCharged h => 0 <= PhysicalFrame.index h
  | OReleaseContiguous h count => 0 <= PhysicalFrame.index h /\ 0 <= count
  | OWriteDescriptor h d =>
      0 <= PhysicalFrame.index h /\ PageDescriptor.generation d = PhysicalFrame.generation h
  | OInitialize regions ps _ _ => Forall region_ok regions /\ 0 <= ps
  end.

(** allocate_contiguous() on an allocator that has issued all 2^64 - 1
    generations, which the code does not refuse. *)
Definition exhausted_run (s : t * ChargeAccount.t) (o : op) : Prop :=
  match o with OAllocateContiguous _ _ => next_generation_ (fst s) = 0 | _ => False end.

(** Histories in which no contiguous request is made on an exhausted sequence. *)
Fixpoint no_exhausted_run (s : t * ChargeAccount.t) (l : list op) : Prop :=
  match l with
  | [] => True
  | o :: rest => ~ exhausted_run s o /\ no_exhausted_run (exec s o) rest
  end.

(** The operations that charge or uncharge the account. *)
Definition charged_op (o : op) : bool :=
  match o with
  | OAllocateCharged | OAllocateContiguous _ _ | OReleaseCharged _ | OReleaseContiguous _ _ => true
  | _ => false
  end.

(** No handle becomes valid except with a generation never issued before. *)
Definition advance a a' : Prop :=
  wf a' /\ issued a <= issued a' /\
  forall h, 0 <= PhysicalFrame.index h -> exact a' h = true ->
    exact a h = true \/ issued a < PhysicalFrame.generation h.

Lemma advance_intro a a' :
  wf a -> wf a' -> same_geometry a' a -> issued a <= issued a' ->
  (forall i, 0 <= i < frame_count_ a ->
     generation_at a' i = generation_at a i \/ generation_at a' i = 0 \/ issued a < generation_at a' i) ->
  advance a a'.
Proof.
  intros Hwf Hwf' Hgeo Hle Hgen. split_and!; try done. intros h Hi He.
  pose proof (exact_live a' h He) as (Hlt & Hg & Hne & _). pose proof Hgeo as (_ & _ & Hfc & _).
  destruct (Hgen (PhysicalFrame.index h)) as [E | [E | E]]; [lia | | congruence | right; congruence].
  left. by rewrite <- (exact_generation a a').
Qed.

Lemma advance_refl a : wf a -> advance a a.
Proof. intros. by apply advance_intro; auto. Qed.

#[global] Instance advance_trans : Transitive advance.
Proof.
  intros a b c (Hw & Hle & Hex) (Hw' & Hle' & Hex'). split_and!; [done | lia |].
  intros h Hi He. destruct (Hex' h Hi He) as [He' | ?]; [by apply Hex | right; lia].
Qed.

Lemma issued_next a : wf a -> next_generation_ a <> 0 -> issued a = next_generation_ a - 1.
Proof. intros. unfold issued. by replace (next_generation_ a =? 0) with false by lia. Qed.

Lemma allocate_step a : wf a ->
  advance a (fst (allocate a)) /\
  used_count_ (fst (allocate a)) = used_count_ a + (if result_ok (snd (allocate a)) then 1 else 0).
Proof.
  intros Hwf. destruct (decide (used_count_ a < frame_count_ a /\ next_generation_ a <> 0)) as [[Hlt Hng] | Hno].
  - destruct (allocate_taken a Hwf Hlt Hng) as (i & k & Hi & Hg & Hk & ->). cbn [fst snd result_ok].
    split; [| done]. pose proof (wf_next a Hwf). assert (0 <= i < zlen (descriptors_ a)) by (by rewrite wf_descriptors).
    apply advance_intro; [done | apply hint_wf; [by apply taken_wf | done] | done | |].
    + change (issued (with_hint ?x _)) with (issued x). rewrite taken_issued, issued_next by done. lia.
    + intros j Hj. change (generation_at (with_hint ?x _) j) with (generation_at x j).
      rewrite taken_generation, issued_next by (done || lia). case_match; [right; right; lia | by left].
  - assert (exists e, allocate a = (a, Err e)) as [e ->].
    { unfold allocate. repeat case_match; eauto; b2p; lia. }
    cbn. split; [by apply advance_refl | lia].
Qed.

Lemma release_step a h : wf a -> 0 <= PhysicalFrame.index h ->
  advance a (fst (release a h)) /\
  used_count_ (fst (release a h)) = used_count_ a - (if status_ok (snd (release a h)) then 1 else 0) /\
  (exact a h = true -> snd (release a h) = StatusCode.ok).
Proof.
  intros Hwf Hi. destruct (exact a h) eqn:He.
  - destruct (release_freed a h Hwf Hi He) as (k & Hk & ->). cbn [fst snd status_ok].
    pose proof (exact_live a h He) as (Hlt & Hg & Hne & _).
    assert (0 <= PhysicalFrame.index h < zlen (descriptors_ a)) by (by rewrite wf_descriptors).
    split_and!; try done. apply advance_intro; [done | | done | done |].
    + apply hint_wf; [apply freed_wf; [done | done | congruence] | done].
    + intros j Hj. change (generation_at (with_hint ?x _) j) with (generation_at x j).
      rewrite freed_generation by lia. case_match; auto.
  - unfold release. rewrite He. cbn. split_and!; [by apply advance_refl | lia | done].
Qed.
End Histories.

Section Reachable.
Context `{Arch}.
Implicit Types a : FrameAllocator.t.

Lemma contiguous_step a acc count alignment :
  wf a -> ChargeAccount.wf acc -> 0 <= count -> next_generation_ a <> 0 ->
  let '(a', acc', _) := allocate_contiguous a count acc alignment in
  advance a a' /\ ChargeAccount.wf acc' /\
  used_count_ a' - ChargeAccount.used acc' = used_count_ a - ChargeAccount.used acc.
Proof.
  intros Hwf Hacc Hc0 Hng. unfold allocate_contiguous. pose proof (advance_refl a Hwf).
  destruct (frame_count_ a =? 0) eqn:E0; [done |]. destruct (count =? 0) eqn:E1; [done |].
  destruct (Z.land alignment _ =? 0) eqn:E2; cbn [negb]; [| done]. destruct (_ <? count) eqn:E3; [done |].
  destruct (u64_max - _ <? count) eqn:E4; [done |]. b2p.
  pose proof (find_run_fit a count alignment Hwf ltac:(lia)) as Hfind.
  destruct (find_run _ _ _ _) as [f |]; [| done]. destruct Hfind as [Hfit _].
  destruct (ChargeAccount.charge acc count) as [acc' st] eqn:Ech.
  pose proof (charge_wf _ _ _ _ Hacc Hc0 Ech) as Hacc'.
  destruct (status_ok st) eqn:Est; cbn [negb].
  2: { assert (acc' = acc) as -> by (eapply charge_err; [done | by intros ->]). done. }
  assert (st = StatusCode.ok) as -> by (by destruct st).
  destruct (fit_at_spec a count alignment f Hwf ltac:(lia) Hfit) as (Hf0 & Hfe & Hfree & _).
  destruct (take_run_spec (Z.to_nat count) a f) as (Hw & Hgeo & Hn & Hus & Hgen); try done; try lia.
  { intros j Hj. apply Hfree. lia. }
  pose proof (wf_next a Hwf). split_and!; [| done |].
  - apply advance_intro; [done | done | done | rewrite !issued_next by (done || lia); lia |].
    intros j Hj. rewrite Hgen, issued_next by (done || lia). case_match; b2p; [right; right; lia | by left].
  - apply charge_ok in Ech. unfold ChargeAccount.used. lia.
Qed.

Lemma release_contiguous_step a acc h count :
  wf a -> ChargeAccount.wf acc -> 0 <= PhysicalFrame.index h -> 0 <= count ->
  let '(a', acc', _) := release_contiguous a h count acc in
  advance a a' /\ ChargeAccount.wf acc' /\
  used_count_ a' - ChargeAccount.used acc' = used_count_ a - ChargeAccount.used acc.
Proof.
  intros Hwf Hacc Hi Hc. destruct (release_contiguous a h count acc) as [[a' acc'] st] eqn:E.
  destruct (decide (st = StatusCode.ok)) as [-> | Hst].
  - apply release_contiguous_ok in E as (? & _ & _ & _ & Hw & Hgeo & Hus & Hng & Hle & -> & Hgen); try done.
    split_and!.
    + apply advance_intro; [done | done | done | unfold issued; by rewrite Hng |].
      intros j Hj. rewrite Hgen by lia. case_match; auto.
    + by apply uncharge_wf_fst.
    + unfold ChargeAccount.used in *. rewrite uncharge_spec by done. cbn. lia.
  - revert E. unfold release_contiguous. repeat case_match; intros [= <- <- <-]; try done; by split; [apply advance_refl |].
Qed.

Lemma allocate_charged_step a acc :
  wf a -> ChargeAccount.wf acc ->
  let '(a', acc', r) := allocate_charged a acc in
  advance a a' /\ ChargeAccount.wf acc' /\
  used_count_ a' - ChargeAccount.used acc' = used_count_ a - ChargeAccount.used acc.
Proof.
  intros Hwf Hacc. unfold allocate_charged. pose proof (advance_refl a Hwf).
  destruct (frame_count_ a =? 0); [done |].
  destruct (ChargeAccount.charge acc 1) as [acc' st] eqn:Ech.
  pose proof (charge_wf _ 1 _ _ Hacc ltac:(done) Ech) as Hacc'.
  destruct (status_ok st) eqn:Est; cbn [negb].
  2: { assert (acc' = acc) as -> by (eapply charge_err; [done | by intros ->]). done. }
  assert (st = StatusCode.ok) as -> by (by destruct st). apply charge_ok in Ech.
  destruct (allocate_step a Hwf) as [Hadv Hus]. destruct (allocate a) as [a' r]; cbn in Hadv, Hus.
  unfold ChargeAccount.used in *. destruct (result_ok r); cbn [negb]; split_and!; try done; try lia.
  - by apply uncharge_wf_fst.
  - rewrite uncharge_spec by (destruct Hacc; lia). cbn. lia.
Qed.

Lemma release_charged_step a acc h :
  wf a -> ChargeAccount.wf acc -> 0 <= PhysicalFrame.index h ->
  let '(a', acc', _) := release_charged a h acc in
  advance a a' /\ ChargeAccount.wf acc' /\
  used_count_ a' - ChargeAccount.used acc' = used_count_ a - ChargeAccount.used acc.
Proof.
  intros Hwf Hacc Hi. unfold release_charged. pose proof (advance_refl a Hwf).
  destruct (_ || _) eqn:E; [done |]. destruct (ChargeAccount.used acc =? 0) eqn:E1; [done |]. b2p.
  destruct (release_step a h Hwf Hi) as (Hadv & Hus & Hok). destruct (release a h) as [a' st]; cbn in Hadv, Hus, Hok.
  rewrite Hok in * by done. cbn in *. unfold ChargeAccount.used in *. split_and!; [done | |].
  - by apply uncharge_wf_fst.
  - rewrite uncharge_spec by (destruct Hacc; lia). cbn. lia.
Qed.

Lemma initialize_step a regions ps data size :
  wf a -> Forall region_ok regions -> 0 <= ps -> advance a (fst (initialize a regions ps data size)).
Proof.
  intros Hwf Hok Hps. destruct (initialize a regions ps data size) as [a' st] eqn:E.
  destruct (decide (st = StatusCode.ok)) as [-> | Hst].
  - pose proof (initialize_unfold _ _ _ _ _ _ E) as (_ & _ & t & _ & _ & Ha).
    apply initialize_ok in E as (Hw & _ & _ & _ & Hng & _); [| done | done | apply Hwf].
    split_and!; [done | unfold issued; cbn; by rewrite Hng |]. intros h Hi He. exfalso.
    apply exact_live in He as (Hlt & Hg & Hne & _). destruct (metadata_layout _ _) as [[b d] r].
    unfold generation_at in Hg. rewrite Ha in Hg, Hlt. cbn in Hg, Hlt. apply Hne. rewrite <- Hg.
    rewrite (aget_lookup _ _ PageDescriptor.zero); [done | done |]. apply lookup_replicate. split; [done | lia].
  - revert E. unfold initialize. repeat case_match; intros [= <- <-]; try done; by apply advance_refl.
Qed.

Lemma exec_step s o : wf (fst s) -> ChargeAccount.wf (snd s) -> op_ok o -> ~ exhausted_run s o ->
  advance (fst s) (fst (exec s o)) /\ ChargeAccount.wf (snd (exec s o)) /\
  (charged_op o = true ->
   used_count_ (fst (exec s o)) - ChargeAccount.used (snd (exec s o)) =
   used_count_ (fst s) - ChargeAccount.used (snd s)).
Proof.
  destruct s as [a acc]; cbn [fst snd]. intros Hwf Hacc Hok Hx. destruct o; cbn in Hok, Hx |- *.
  - split_and!; try done. by apply allocate_step.
  - pose proof (allocate_charged_step a acc Hwf Hacc) as Hs. destruct (allocate_charged _ _) as [[? ?] ?].
    cbn. by destruct Hs as (? & ? & ?).
  - pose proof (contiguous_step a acc count alignment Hwf Hacc Hok Hx) as Hs.
    destruct (allocate_contiguous _ _ _ _) as [[? ?] ?]. cbn. by destruct Hs as (? & ? & ?).
  - split_and!; try done. by apply release_step.
  - pose proof (release_charged_step a acc frame Hwf Hacc Hok) as Hs. destruct (release_charged _ _ _) as [[? ?] ?].
    cbn. by destruct Hs as (? & ? & ?).
  - destruct Hok. pose proof (release_contiguous_step a acc first count Hwf Hacc) as Hs.
    destruct (release_contiguous _ _ _ _) as [[? ?] ?]. cbn. by destruct Hs as (? & ? & ?).
  - destruct Hok as [Hi Hg]. split_and!; try done. destruct (live a frame) eqn:He; [| by apply advance_refl].
    pose proof (exact_live a frame He) as (Hlt & Hg' & _ & _). unfold write_descriptor.
    apply advance_intro; [done | apply write_descriptor_wf; [done | done | congruence] | done | done |].
    intros j Hj. left. unfold generation_at in *. cbn.
    rewrite aget_aset by (rewrite ?wf_descriptors by done; lia). destruct (Z.eqb_spec j (PhysicalFrame.index frame)); congruence.
  - destruct Hok. split_and!; try done. by apply initialize_step.
Qed.

Lemma exec_all s l : wf (fst s) -> ChargeAccount.wf (snd s) -> Forall op_ok l -> no_exhausted_run s l ->
  let s' := fold_left exec l s in
  advance (fst s) (fst s') /\ ChargeAccount.wf (snd s') /\
  (forallb charged_op l = true ->
   used_count_ (fst s') - ChargeAccount.used (snd s') = used_count_ (fst s) - ChargeAccount.used (snd s)).
Proof.
  revert s. induction l as [| o l IH]; intros s Hwf Hacc Hok Hx; cbn.
  { split_and!; try done. by apply advance_refl. }
  apply Forall_cons in Hok as [Ho Hl]. destruct Hx as [Hx Hxl].
  destruct (exec_step s o Hwf Hacc Ho Hx) as (Hadv & Ha & Hc).
  destruct (IH (exec s o)) as (Hadv' & Ha' & Hc'); [apply Hadv | done | done | done |].
  split_and!; [by etrans | done |]. intros [? ?]%andb_true_iff. rewrite Hc', Hc by done. done.
Qed.

(** C3: once a frame is released, its handle stays invalid through every
    later history of operations, reallocation of the same frame and
    reinitialisation of the allocator included, as long as no contiguous
    request is made after all 2^64 - 1 generations have been issued (which
    [contiguous_after_exhaustion] shows to be necessary). *)
Theorem released_handle_stays_stale a account h a1 l :
  wf a -> ChargeAccount.wf account -> 0 <= PhysicalFrame.index h ->
  live a h = true -> release a h = (a1, StatusCode.ok) ->
  Forall op_ok l -> no_exhausted_run (a1, account) l ->
  live (fst (fold_left exec l (a1, account))) h = false.
Proof.
  intros Hwf Hacc Hi He Hr Hl Hx. pose proof (exact_live a h He) as (Hlt & Hg & Hne & _).
  destruct (release_freed a h Hwf Hi He) as (k & Hk & Hr'). rewrite Hr in Hr'. injection Hr' as ->.
  set (a1 := with_hint _ _) in *. assert (0 <= PhysicalFrame.index h < zlen (descriptors_ a)) by (by rewrite wf_descriptors).
  assert (wf a1) as Hw1 by (apply hint_wf; [apply freed_wf; [done | done | congruence] | done]).
  destruct (exec_all (a1, account) l Hw1 Hacc Hl Hx) as ((_ & _ & Hex) & _). apply not_true_is_false. intros He'.
  clear Hx. destruct (Hex h Hi He') as [Hx | Hx]; cbn [fst] in Hx.
  - apply exact_live in Hx as (_ & Hx & _). change (generation_at a1) with (generation_at (freed a (PhysicalFrame.index h))) in Hx.
    rewrite freed_generation, Z.eqb_refl in Hx by done. congruence.
  - change (issued a1) with (issued a) in Hx. pose proof (wf_issued a Hwf _ (conj Hi Hlt)). lia.
Qed.

(** C17: every history in which no contiguous request is made on an exhausted
    generation sequence keeps the allocator and the account well formed, and
    such a history of charged operations keeps the difference between used
    frames and charged units: no operation, failing ones included, leaks or
    double counts a charge. *)
Theorem charges_match_frames a account l :
  wf a -> ChargeAccount.wf account -> Forall op_ok l -> no_exhausted_run (a, account) l ->
  let '(a', account') := fold_left exec l (a, account) in
  wf a' /\ ChargeAccount.wf account' /\
  (forallb charged_op l = true ->
   used_frames a' - ChargeAccount.used account' = used_frames a - ChargeAccount.used account).
Proof.
  intros Hwf Hacc Hl Hx. destruct (exec_all (a, account) l Hwf Hacc Hl Hx) as ((? & _) & ? & ?).
  by destruct (fold_left exec l (a, account)).
Qed.

(** Address_for() and index_of(), two binary searches over the ranges, are
    inverse to each other: every frame's page-aligned address maps back to its
    index, and index_of() accepts no address but a frame's. *)
Theorem address_index_inverse a :
  wf a ->
  (forall i, 0 <= i < total_frames a ->
     index_of a (address_for a i) = Ok i /\ address_for a i mod page_size_ a = 0 /\
     address_for a i = addr_of (page_size_ a) (ranges_ a) i) /\
  (forall p i, index_of a p = Ok i -> 0 <= i < total_frames a /\ address_for a i = p).
Proof.
  intros Hwf. split.
  - intros i Hi. split_and!; [by apply index_of_address_for | by apply address_for_range | by apply address_for_eq].
  - intros p i. by apply index_of_ok.
Qed.
End Reachable.

(** ** Exhaustion of the generation sequence *)
Section Exhaustion.
Context `{Arch}.
Implicit Types a : FrameAllocator.t.

(** C38: on every allocator whose generation sequence is exhausted and has a
    run of free frames, allocate() refuses, but allocate_contiguous() does not:
    it charges and marks the frames, restarts the sequence at 0 in them and
    reports not_found.  The first frame is used without a handle, the allocator
    is no longer well formed, and the handles with the generations 1, 2, ...,
    which were given out before, are valid on the further frames. *)
Theorem contiguous_after_exhaustion a count account account' alignment g :
  wf a -> next_generation_ a = 0 -> 0 < count -> Z.land alignment (usize_wrap (alignment - 1)) = 0 ->
  count <= free_frames a -> fit_at a count alignment g ->
  ChargeAccount.charge account count = (account', StatusCode.ok) ->
  allocate a = (a, Err StatusCode.overflow) /\
  exists a' first, fit_at a count alignment first /\
    allocate_contiguous a count account alignment = (a', account', Err StatusCode.not_found) /\
    used_frames a' = used_frames a + count /\ ~ wf a' /\ used a' first = true /\ generation_at a' first = 0 /\
    forall j, 0 < j < count -> live a' (PhysicalFrame.mk (address_for a (first + j)) (first + j) (this a) j) = true.
Proof.
  intros Hwf Hng Hc Hal Hfree Hg Hch. unfold free_frames in Hfree.
  pose proof (find_run_fit a count alignment Hwf Hc) as Hfind.
  destruct (find_run a count alignment (ranges_ a)) as [f |] eqn:Ef; [| by destruct (Hfind g)]. destruct Hfind as [Hfit _].
  destruct (fit_at_spec a count alignment f Hwf Hc Hfit) as (Hf0 & Hfe & _ & _).
  pose proof (frame_count_max a Hwf). pose proof usize_max_le_u64.
  destruct (take_run_fields (Z.to_nat count) a f) as (Hgeo & _ & Hus & Hgen); rewrite ?wf_descriptors, ?Hng by done; try lia; [by apply frame_bits |].
  set (a' := take_run _ _ _) in *. pose proof Hgeo as (Hth & _ & Hfc & _). split.
  { unfold allocate. rewrite Hng. cmp. done. }
  exists a', f. destruct (Hgen f Hf0) as [Hg0 Hu0]. revert Hg0 Hu0. cmp. rewrite Hng, Z.sub_diag. intros Hg0 Hu0.
  split_and!; try done.
  - unfold allocate_contiguous. rewrite Ef, Hch, Hng. cmp. fold a'. unfold handle_at.
    change (PageDescriptor.generation (descriptors_ a').[f]) with (generation_at a' f). by rewrite Hg0, orb_true_r.
  - unfold used_frames. lia.
  - intros Hw. rewrite (used_generation a' f), Hg0 in Hu0 by (done || lia). done.
  - intros j Hj. destruct (Hgen (f + j)) as [Hgj _]; [lia |]. revert Hgj. cmp. unfold generation_at, live, exact.
    cbn [PhysicalFrame.index PhysicalFrame.address PhysicalFrame.owner PhysicalFrame.generation]. intros ->. rewrite Hth, Hng, (same_geometry_address a' a) by done. cmp. done.
Qed.
End Exhaustion.

(** ** Witnesses *)
Section FrameWitnesses.
#[local] Existing Instance arch64.

Lemma allocate_witness :
  exists a' h, allocate sample_frames = (a', Ok h) /\ live sample_frames h = false /\ live a' h = true.
Proof.
  pose proof (allocate_spec sample_frames sample_frames_wf) as Ha.
  assert (exists a' h, allocate sample_frames = (a', Ok h) /\ 0 <= PhysicalFrame.index h) as (a' & h & He & Hi).
  { eexists _, _. split; [vm_compute; reflexivity | by concrete]. }
  rewrite He in Ha. destruct Ha as (_ & _ & _ & _ & Hf & Hl). exists a', h. split_and!; [done | done |]. apply Hl; [done | by right].
Defined.

(** The allocator after one allocation, and the handle given out. *)
Definition one_taken : t := fst (allocate sample_frames).
Definition first_handle : PhysicalFrame.t := handle one_taken 0.

Lemma one_taken_wf : wf one_taken.
Proof. apply (allocate_step sample_frames sample_frames_wf). Qed.

Lemma release_witness :
  live one_taken first_handle = true /\ snd (release one_taken first_handle) = StatusCode.ok /\
  live (fst (release one_taken first_handle)) first_handle = false.
Proof.
  pose proof (release_spec one_taken first_handle one_taken_wf ltac:(by concrete)) as Hr.
  assert (live one_taken first_handle = true) as Hl by (vm_compute; reflexivity).
  destruct (release one_taken first_handle) as [a' status]. rewrite Hl in Hr. destruct Hr as (-> & _ & _ & Hr).
  split_and!; [done | done |]. cbn [fst]. destruct (live a' first_handle) eqn:E; [| done].
  apply Hr in E as [_ []]; [done | by concrete].
Defined.

Lemma allocate_contiguous_witness :
  exists a' account' h, allocate_contiguous one_taken 2 (ChargeAccount.new 0) 8192 = (a', account', Ok h) /\
    PhysicalFrame.index h = 2 /\ address_for a' 3 = PhysicalFrame.address h + 4096 /\ used_frames a' = 3.
Proof.
  pose proof (allocate_contiguous_spec one_taken 2 (ChargeAccount.new 0) 8192 one_taken_wf ltac:(by concrete) ltac:(lia)) as Hc.
  assert (snd (allocate_contiguous one_taken 2 (ChargeAccount.new 0) 8192) = Ok (PhysicalFrame.mk 73728 2 1 2)) as Hs
    by (vm_compute; reflexivity).
  destruct (allocate_contiguous one_taken 2 (ChargeAccount.new 0) 8192) as [[a' account'] r]. cbn [snd] in Hs. subst r.
  destruct Hc as (_ & _ & _ & _ & Ha & Hu & _). exists a', account', (PhysicalFrame.mk 73728 2 1 2).
  split_and!; [done | done | exact (Ha 1 ltac:(lia)) | exact Hu].
Defined.

Lemma unlimited_wf : ChargeAccount.wf (ChargeAccount.new 0).
Proof. vm_compute. intuition congruence. Qed.

(** Release, reallocation of the same frame, and a reinitialisation. *)
Definition reuse_history : list op :=
  [OAllocate; OAllocateCharged; OAllocateContiguous 2 0; OInitialize sample_region 4096 1048576 4096].

Lemma stale_witness :
  live one_taken first_handle = true /\
  live (fst (fold_left exec reuse_history (fst (release one_taken first_handle), ChargeAccount.new 0))) first_handle = false.
Proof.
  split; [vm_compute; reflexivity |].
  apply (released_handle_stays_stale one_taken (ChargeAccount.new 0) first_handle (fst (release one_taken first_handle)) reuse_history).
  - exact one_taken_wf.
  - exact unlimited_wf.
  - by concrete.
  - vm_compute. reflexivity.
  - vm_compute. reflexivity.
  - unfold reuse_history. repeat apply Forall_cons_2; try apply Forall_nil_2; cbn [op_ok]; try split; by concrete.
  - cbn [no_exhausted_run exhausted_run reuse_history]. split_and!; by concrete.
Defined.

Lemma charges_witness :
  let '(a, account) := fold_left exec [OAllocateCharged; OAllocateContiguous 2 0; OReleaseContiguous first_handle 2]
                         (sample_frames, ChargeAccount.new 0) in
  used_frames a - ChargeAccount.used account = 0.
Proof.
  pose proof (charges_match_frames sample_frames (ChargeAccount.new 0)
    [OAllocateCharged; OAllocateContiguous 2 0; OReleaseContiguous first_handle 2] sample_frames_wf
    unlimited_wf ltac:(repeat apply Forall_cons_2; try apply Forall_nil_2; cbn [op_ok]; try split; by concrete)
    ltac:(cbn [no_exhausted_run exhausted_run]; split_and!; by concrete)) as Hc.
  destruct (fold_left _ _ _) as [a account]. destruct Hc as (_ & _ & Hc). by apply Hc.
Defined.

(** Four usable pages, and an allocator that has issued its last generation. *)
Definition exhausted : t :=
  fst (allocate (fst (initialize (with_generation (new 1) u64_max)
         [MemoryRegion.mk 65536 16384 RegionType.usable] 4096 1048576 4096))).

Lemma exhausted_wf : wf exhausted.
Proof.
  apply allocate_step. eapply (initialize_ok (with_generation (new 1) u64_max)
    [MemoryRegion.mk 65536 16384 RegionType.usable] 4096 1048576 4096); [by apply Forall_singleton | done | done |].
  vm_compute. reflexivity.
Qed.

(** Two frames are gone, no handle for them exists, and the handle of generation
    1 is valid again. *)
Lemma exhaustion_witness :
  snd (allocate exhausted) = Err StatusCode.overflow /\
  exists a' acc' first, allocate_contiguous exhausted 2 (ChargeAccount.new 0) 0 = (a', acc', Err StatusCode.not_found) /\
    used_frames a' = 3 /\ ~ wf a' /\
    live a' (PhysicalFrame.mk (address_for exhausted (first + 1)) (first + 1) 1 1) = true.
Proof.
  assert (fit_at exhausted 2 0 1) as Hfit.
  { exists (FrameRange.mk 65536 0 4). split; [vm_compute; left |]. split_and!; [by concrete | by concrete | | by left].
    intros j Hj. assert (j = 1 \/ j = 2) as [-> | ->] by lia; vm_compute; reflexivity. }
  destruct (contiguous_after_exhaustion exhausted 2 (ChargeAccount.new 0) (ChargeAccount.mk 0 2 2) 0 1 exhausted_wf
    ltac:(by concrete) ltac:(lia) ltac:(by concrete) ltac:(by concrete) Hfit ltac:(by concrete))
    as (Ha & a' & f & _ & E & Hu & Hn & _ & _ & Hl).
  split; [by rewrite Ha |]. exists a', (ChargeAccount.mk 0 2 2), f. split_and!; [exact E | | exact Hn | exact (Hl 1 ltac:(lia))].
  rewrite Hu. vm_compute. reflexivity.
Defined.

Lemma address_index_witness :
  index_of sample_frames (address_for sample_frames 3) = Ok 3 /\ address_for sample_frames 3 mod 4096 = 0.
Proof.
  destruct (address_index_inverse sample_frames sample_frames_wf) as [Ha _].
  destruct (Ha 3) as (Hi & Hm & _); [by concrete | by split].
Defined.
End FrameWitnesses.
