(* ===== verification/Ipc.v ===== *)
(** * Message channels (include/ok/ipc/ipc.hpp, src/ipc/ipc.cpp)

    [Channel] is a bounded queue of inline messages, [IpcRouter] a table of
    channels searched by identifier.  The abstract router is a finite map from
    identifiers to bounded lists; every script of calls gets the same answers
    from both. *)

From S2P Require Import Prelude Fixed.

Definition max_inline_payload : Z := 128.
Definition max_channels : Z := 64.
Definition max_channel_messages : Z := 32.

Inductive DeliveryMode := copy | shared_ring.

Module Message.
Record t := mk {
  sender : Z;
  receiver : Z;
  payload : list Z;   (* std::array<std::byte, max_inline_payload> *)
  size : Z
}.
Definition new : t := mk 0 0 (replicate (Z.to_nat max_inline_payload) 0) 0.
#[global] Instance inhabited : Inhabited t := populate new.
End Message.

Module Channel.
Record t := mk {
  id_ : Z;
  capacity_ : Z;
  queue_ : StaticQueue.t Message.t
}.
Definition new (id capacity : Z) : t := mk id capacity (StaticQueue.new max_channel_messages).
(** Channel() leaves the members to their defaults. *)
#[global] Instance inhabited : Inhabited t := populate (new 0 0).

Definition id (c : t) : Z := id_ c.
Definition queued (c : t) : Z := StaticQueue.size (queue_ c).

Definition send (c : t) (message : Message.t) : t * Status :=
  if max_inline_payload <? Message.size message then (c, StatusCode.overflow)
  else if capacity_ c <=? StaticQueue.size (queue_ c) then (c, StatusCode.would_block)
  else
    let '(q, status) := StaticQueue.push max_channel_messages (queue_ c) message in
    (mk (id_ c) (capacity_ c) q, status).

Definition receive (c : t) : t * result Message.t :=
  let '(q, r) := StaticQueue.pop max_channel_messages (queue_ c) in
  (mk (id_ c) (capacity_ c) q, r).

(** The queued messages, oldest first. *)
Definition messages (c : t) : list Message.t := StaticQueue.contents max_channel_messages (queue_ c).

Definition wf (c : t) : Prop :=
  StaticQueue.wf max_channel_messages (queue_ c) /\ 0 < capacity_ c <= max_channel_messages /\
  StaticQueue.size (queue_ c) <= capacity_ c.
End Channel.

Module IpcRouter.
Record t := mk {
  mode_ : DeliveryMode;
  channels_ : StaticVector.t Channel.t;
  next_channel_ : Z   (* u64 *)
}.
Definition new : t := mk copy (StaticVector.new max_channels) 1.

Definition set_mode (r : t) (mode : DeliveryMode) : t := mk mode (channels_ r) (next_channel_ r).
Definition mode (r : t) : DeliveryMode := mode_ r.

Definition create_channel (r : t) (capacity : Z) : t * result Z :=
  if capacity =? 0 then (r, Err StatusCode.invalid_argument)
  else if max_channel_messages <? capacity then (r, Err StatusCode.overflow)
  else
    let id := next_channel_ r in
    let next := u64_wrap (next_channel_ r + 1) in
    let '(channels, status) := StaticVector.push_back max_channels (channels_ r) (Channel.new id capacity) in
    (mk (mode_ r) channels next, if negb (status_ok status) then Err status else Ok id).

(** [for (auto &item : channels_) if (item.id() == channel) ...]: the first match. *)
Fixpoint find_channel (items : list Channel.t) (channel i : Z) : option Z :=
  match items with
  | [] => None
  | item :: rest => if Channel.id item =? channel then Some i else find_channel rest channel (i + 1)
  end.

Definition send (r : t) (channel : Z) (message : Message.t) : t * Status :=
  match find_channel (StaticVector.elements (channels_ r)) channel 0 with
  | Some i =>
      let '(c, status) := Channel.send (StaticVector.get (channels_ r) i) message in
      (mk (mode_ r) (StaticVector.set (channels_ r) i c) (next_channel_ r), status)
  | None => (r, StatusCode.not_found)
  end.

Definition receive (r : t) (channel : Z) : t * result Message.t :=
  match find_channel (StaticVector.elements (channels_ r)) channel 0 with
  | Some i =>
      let '(c, m) := Channel.receive (StaticVector.get (channels_ r) i) in
      (mk (mode_ r) (StaticVector.set (channels_ r) i c) (next_channel_ r), m)
  | None => (r, Err StatusCode.not_found)
  end.

(** send_value(): the object representation [bytes] of the value, copied into the payload. *)
Definition send_value (r : t) (channel sender receiver : Z) (bytes : list Z) : t * Status :=
  let message := Message.mk sender receiver
    (FixedString.copy_chars (Message.payload Message.new) 0 bytes) (zlen bytes) in
  send r channel message.
End IpcRouter.

(** ** The abstract router *)
Module RouterSpec.
Record t := mk { chans : gmap Z (Z * list Message.t); next : Z }.
Definition new : t := mk ∅ 1.

Inductive op := Create (capacity : Z) | Send (channel : Z) (m : Message.t) | Receive (channel : Z).
Inductive out := Created (r : result Z) | Sent (s : Status) | Received (r : result Message.t).

Definition step (s : t) (o : op) : t * out :=
  match o with
  | Create capacity =>
      if capacity =? 0 then (s, Created (Err StatusCode.invalid_argument))
      else if max_channel_messages <? capacity then (s, Created (Err StatusCode.overflow))
      else if Z.of_nat (size (chans s)) <? max_channels
      then (mk (<[next s := (capacity, [])]> (chans s)) (next s + 1), Created (Ok (next s)))
      else (mk (chans s) (next s + 1), Created (Err StatusCode.overflow))
  | Send channel m =>
      match chans s !! channel with
      | None => (s, Sent StatusCode.not_found)
      | Some (capacity, queue) =>
          if max_inline_payload <? Message.size m then (s, Sent StatusCode.overflow)
          else if zlen queue <? capacity
          then (mk (<[channel := (capacity, queue ++ [m])]> (chans s)) (next s), Sent StatusCode.ok)
          else (s, Sent StatusCode.would_block)
      end
  | Receive channel =>
      match chans s !! channel with
      | None => (s, Received (Err StatusCode.not_found))
      | Some (_, []) => (s, Received (Err StatusCode.would_block))
      | Some (capacity, m :: rest) => (mk (<[channel := (capacity, rest)]> (chans s)) (next s), Received (Ok m))
      end
  end.

(** The same calls on the router. *)
Definition impl_step (r : IpcRouter.t) (o : op) : IpcRouter.t * out :=
  match o with
  | Create capacity => let '(r', x) := IpcRouter.create_channel r capacity in (r', Created x)
  | Send channel m => let '(r', x) := IpcRouter.send r channel m in (r', Sent x)
  | Receive channel => let '(r', x) := IpcRouter.receive r channel in (r', Received x)
  end.
End RouterSpec.

(** ** Refinement *)
Section Refinement.
Import IpcRouter RouterSpec.
Implicit Types (r : IpcRouter.t) (s : RouterSpec.t).

Definition channel_at r (i : Z) : Channel.t := (StaticVector.values_ (channels_ r)).[i].
Definition channel_count r : Z := StaticVector.size_ (channels_ r).

(** The table holds the channels of the map, each once, with their messages. *)
Record related r s : Prop := {
  rel_wf : StaticVector.wf max_channels (channels_ r);
  rel_next : next_channel_ r = next s /\ 1 <= next s;
  rel_size : Z.of_nat (size (chans s)) = channel_count r;
  rel_channel : forall i, 0 <= i < channel_count r ->
    Channel.wf (channel_at r i) /\ Channel.id (channel_at r i) < next s /\
    chans s !! Channel.id (channel_at r i) = Some (Channel.capacity_ (channel_at r i), Channel.messages (channel_at r i));
  rel_found : forall k x, chans s !! k = Some x -> exists i, 0 <= i < channel_count r /\ Channel.id (channel_at r i) = k;
  rel_distinct : forall i j, 0 <= i < channel_count r -> 0 <= j < channel_count r ->
    Channel.id (channel_at r i) = Channel.id (channel_at r j) -> i = j
}.

Lemma find_channel_spec items channel i0 :
  match find_channel items channel i0 with
  | Some i => i0 <= i < i0 + zlen items /\ Channel.id items.[i - i0] = channel
  | None => forall i, 0 <= i < zlen items -> Channel.id items.[i] <> channel
  end.
Proof.
  revert i0. induction items as [| c items IH]; intros i0; cbn [find_channel].
  { change (zlen []) with 0. lia. }
  rewrite zlen_cons. pose proof (zlen_nonneg items). destruct (Z.eqb_spec (Channel.id c) channel) as [E | E].
  { split; [lia |]. by rewrite Z.sub_diag. }
  specialize (IH (i0 + 1)). destruct (find_channel _ _ _) as [i |].
  - destruct IH as [Hi Hid]. split; [lia |]. rewrite aget_cons_pos by lia. by replace (i - i0 - 1) with (i - (i0 + 1)) by lia.
  - intros i Hi. destruct (Z.eq_dec i 0) as [-> |]; [done |]. rewrite aget_cons_pos by lia. apply IH. lia.
Qed.

(** The search of send() and receive() agrees with the map. *)
Lemma find_related r s channel : related r s ->
  match find_channel (StaticVector.elements (channels_ r)) channel 0 with
  | Some i => 0 <= i < channel_count r /\ Channel.id (channel_at r i) = channel
  | None => chans s !! channel = None
  end.
Proof.
  intros R. pose proof (find_channel_spec (StaticVector.elements (channels_ r)) channel 0) as Hf.
  assert (zlen (StaticVector.elements (channels_ r)) = channel_count r) as Hz by (eapply zlen_elements, R).
  rewrite Hz in Hf. destruct (find_channel _ _ _) as [i |].
  - rewrite Z.sub_0_r in Hf. destruct Hf as [Hi Hid]. split; [lia |].
    by rewrite aget_elements in Hid by (unfold channel_count in *; lia).
  - destruct (chans s !! channel) as [x |] eqn:E; [| done]. exfalso.
    destruct (rel_found r s R _ _ E) as (i & Hi & Hid). apply (Hf i Hi).
    by rewrite aget_elements by (unfold channel_count in *; lia).
Qed.

(** Replacing the state of one channel, in the table and in the map. *)
Lemma related_update r s i c :
  related r s -> 0 <= i < channel_count r -> Channel.wf c ->
  Channel.id c = Channel.id (channel_at r i) ->
  related (IpcRouter.mk (mode_ r) (StaticVector.set (channels_ r) i c) (next_channel_ r))
          (RouterSpec.mk (<[Channel.id c := (Channel.capacity_ c, Channel.messages c)]> (chans s)) (next s)).
Proof.
  intros R Hi Hc Hid. pose proof (rel_wf r s R) as [Hl Hs].
  assert (forall j, 0 <= j < channel_count r ->
    channel_at (IpcRouter.mk (mode_ r) (StaticVector.set (channels_ r) i c) (next_channel_ r)) j =
    if j =? i then c else channel_at r j) as Hat.
  { intros j Hj. unfold channel_at; cbn. apply aget_aset; unfold channel_count in *; lia. }
  assert (forall j, 0 <= j < channel_count r -> Channel.id (if j =? i then c else channel_at r j) = Channel.id (channel_at r j)) as Hids.
  { intros j Hj. by destruct (Z.eqb_spec j i) as [-> |]. }
  destruct (rel_channel r s R i Hi) as (_ & _ & Hlook).
  constructor; cbn [channels_ next_channel_ chans next].
  - unfold StaticVector.wf; cbn. by rewrite zlen_aset.
  - apply R.
  - rewrite map_size_insert_Some by (rewrite Hid; eauto). apply R.
  - intros j Hj. change (channel_count _) with (channel_count r) in Hj. rewrite Hat by done.
    destruct (rel_channel r s R j Hj) as (Hcw & Hlt & Hlj). destruct (Z.eqb_spec j i) as [-> | Hne].
    + split_and!; [done | by rewrite Hid | by rewrite lookup_insert_eq].
    + split_and!; [done | done |]. rewrite lookup_insert_ne; [done |]. rewrite Hid. intros E.
      apply Hne. by apply (rel_distinct r s R).
  - intros k x Hk. change (channel_count _) with (channel_count r).
    destruct (decide (k = Channel.id c)) as [-> | Hne].
    + exists i. rewrite Hat by done. by rewrite Z.eqb_refl.
    + rewrite lookup_insert_ne in Hk by done. destruct (rel_found r s R _ _ Hk) as (j & Hj & <-).
      exists j. rewrite Hat by done. split; [done |]. by apply Hids.
  - intros j k Hj Hk. change (channel_count _) with (channel_count r) in *. rewrite !Hat, !Hids by done.
    by apply (rel_distinct r s R).
Qed.

Lemma channel_wf_new k cap : 0 < cap <= max_channel_messages -> Channel.wf (Channel.new k cap).
Proof.
  intros. split_and!; [by apply queue_wf_new | cbn; lia | cbn; lia |]. change (0 <= cap). lia.
Qed.

Lemma channel_send_spec c m : Channel.wf c ->
  let '(c', status) := Channel.send c m in
  Channel.wf c' /\ Channel.id c' = Channel.id c /\ Channel.capacity_ c' = Channel.capacity_ c /\
  (if max_inline_payload <? Message.size m then c' = c /\ status = StatusCode.overflow
   else if zlen (Channel.messages c) <? Channel.capacity_ c
   then Channel.messages c' = Channel.messages c ++ [m] /\ status = StatusCode.ok
   else c' = c /\ status = StatusCode.would_block).
Proof.
  intros (Hq & Hcap & Hsz). unfold Channel.send, Channel.messages. rewrite zlen_contents by done.
  unfold StaticQueue.size in *. destruct (max_inline_payload <? Message.size m); [done |].
  destruct (Z.ltb_spec (StaticQueue.size_ (Channel.queue_ c)) (Channel.capacity_ c)); cmp; [| done].
  destruct (push_spec max_channel_messages (Channel.queue_ c) m Hq ltac:(lia)) as [Hw He].
  unfold StaticQueue.push, StaticQueue.full in *.
  replace (StaticQueue.size_ (Channel.queue_ c) =? max_channel_messages) with false in * by lia.
  cbn [fst] in *. split_and!; try done. unfold Channel.wf. split_and!; try done; cbn; lia.
Qed.

Lemma channel_receive_spec c : Channel.wf c ->
  let '(c', m) := Channel.receive c in
  Channel.wf c' /\ Channel.id c' = Channel.id c /\ Channel.capacity_ c' = Channel.capacity_ c /\
  match Channel.messages c with
  | [] => Channel.messages c' = [] /\ m = Err StatusCode.would_block
  | x :: rest => Channel.messages c' = rest /\ m = Ok x
  end.
Proof.
  intros (Hq & Hcap & Hsz). unfold Channel.receive, Channel.messages. unfold StaticQueue.size in *.
  pose proof Hq as (_ & _ & Hs & _). destruct (Z.eq_dec (StaticQueue.size_ (Channel.queue_ c)) 0) as [Hz | Hz].
  - assert (StaticQueue.contents max_channel_messages (Channel.queue_ c) = []) as Hnil
      by (unfold StaticQueue.contents; by rewrite Hz).
    unfold StaticQueue.pop, StaticQueue.empty. rewrite Hz, Hnil. cbn [Z.eqb Channel.id Channel.id_ Channel.queue_ Channel.capacity_].
    by rewrite Hnil.
  - destruct (pop_spec max_channel_messages (Channel.queue_ c) Hq ltac:(lia)) as (x & Hr & Hw & He). rewrite He.
    assert (StaticQueue.size_ (fst (StaticQueue.pop max_channel_messages (Channel.queue_ c))) =
            StaticQueue.size_ (Channel.queue_ c) - 1) as Hsz'.
    { unfold StaticQueue.pop, StaticQueue.empty. by replace (_ =? 0) with false by lia. }
    destruct (StaticQueue.pop _ _) as [q m]. cbn in *. split_and!; try done.
    unfold Channel.wf, StaticQueue.size; cbn. split_and!; [done | lia | lia | lia].
Qed.
End Refinement.

Section RouterTheorems.
Import IpcRouter RouterSpec.
Implicit Types (r : IpcRouter.t) (s : RouterSpec.t).

Lemma related_new : related IpcRouter.new RouterSpec.new.
Proof.
  constructor; try (change (channel_count IpcRouter.new) with 0; intros; lia); done.
Qed.

Lemma create_related r s capacity :
  related r s -> 0 <= capacity -> next s + 1 <= u64_max ->
  let '(r', x) := IpcRouter.create_channel r capacity in
  let '(s', x') := RouterSpec.step s (Create capacity) in
  related r' s' /\ Created x = x' /\ next s' <= next s + 1.
Proof.
  intros R Hc Hn. unfold create_channel, RouterSpec.step. destruct (Z.eqb_spec capacity 0); [split_and!; done || lia |].
  destruct (Z.ltb_spec max_channel_messages capacity); [split_and!; done || lia |].
  pose proof (rel_wf r s R) as [Hl Hs]. destruct (rel_next r s R) as [Hnx Hn1]. rewrite Hnx, u64_wrap_small by lia.
  pose proof (rel_size r s R) as Hsize. rewrite Hsize. unfold channel_count.
  unfold StaticVector.push_back, StaticVector.full. destruct (Z.ltb_spec (StaticVector.size_ (channels_ r)) max_channels).
  2: { cmp. cbn. split_and!; try done. constructor; cbn; try apply R; [lia |].
       intros i Hi. destruct (rel_channel r s R i Hi) as (? & ? & ?). split_and!; try done.
       change (Channel.id (channel_at r i) < next s + 1). lia. }
  cmp. cbn [status_ok negb]. split_and!; [| done | cbn; lia].
  assert (chans s !! next s = None) as Hfresh.
  { destruct (chans s !! next s) as [x |] eqn:E; [| done]. destruct (rel_found r s R _ _ E) as (i & Hi & Hid).
    destruct (rel_channel r s R i Hi) as (_ & ? & _). lia. }
  set (c := Channel.new (next s) capacity). set (r' := IpcRouter.mk _ _ _).
  assert (forall i, 0 <= i <= channel_count r -> channel_at r' i = if i =? channel_count r then c else channel_at r i) as Hat.
  { intros i Hi. unfold channel_at; cbn. apply aget_aset; unfold channel_count in *; lia. }
  assert (channel_count r' = channel_count r + 1) as Hcnt by done.
  constructor; rewrite ?Hcnt; cbn [channels_ next_channel_ chans next].
  - unfold StaticVector.wf; cbn. rewrite zlen_aset. lia.
  - cbn. lia.
  - rewrite map_size_insert_None by done. unfold channel_count in *. lia.
  - intros i Hi. rewrite Hat by lia. destruct (Z.eqb_spec i (channel_count r)) as [-> | Hne].
    + split_and!; [apply channel_wf_new; lia | cbn; lia | by rewrite lookup_insert_eq].
    + destruct (rel_channel r s R i ltac:(lia)) as (? & ? & ?). split_and!; [done | lia |].
      by rewrite lookup_insert_ne by lia.
  - intros k x Hk. unfold channel_count in *. destruct (decide (k = next s)) as [-> | Hne].
    + exists (StaticVector.size_ (channels_ r)). rewrite Hat by lia. rewrite Z.eqb_refl. split; [lia | done].
    + rewrite lookup_insert_ne in Hk by done. destruct (rel_found r s R _ _ Hk) as (i & Hi & Hid).
      unfold channel_count in *. exists i. rewrite Hat by lia. by replace (i =? _) with false by lia; split; [lia |].
  - intros i j Hi Hj. rewrite !Hat by lia.
    destruct (Z.eqb_spec i (channel_count r)), (Z.eqb_spec j (channel_count r)); subst; cbn; try done.
    + destruct (rel_channel r s R j ltac:(lia)) as (_ & ? & _). unfold Channel.id in *. lia.
    + destruct (rel_channel r s R i ltac:(lia)) as (_ & ? & _). unfold Channel.id in *. lia.
    + apply (rel_distinct r s R); lia.
Qed.

Lemma send_related r s channel m :
  related r s ->
  let '(r', x) := IpcRouter.send r channel m in
  let '(s', x') := RouterSpec.step s (Send channel m) in
  related r' s' /\ Sent x = x' /\ next s' = next s.
Proof.
  intros R. unfold IpcRouter.send, RouterSpec.step. pose proof (find_related r s channel R) as Hf.
  destruct (find_channel _ _ _) as [i |]; [| by rewrite Hf]. destruct Hf as [Hi <-].
  change (StaticVector.get (channels_ r) i) with (channel_at r i).
  destruct (rel_channel r s R i Hi) as (Hw & _ & Hlook). rewrite Hlook.
  pose proof (channel_send_spec (channel_at r i) m Hw) as Hs.
  destruct (Channel.send _ _) as [c st]. destruct Hs as (Hcw & Hid & Hcap & Hout).
  pose proof (related_update r s i c R Hi Hcw Hid) as R'. rewrite Hid, Hcap in R'.
  destruct (_ <? Message.size m).
  { destruct Hout as [-> ->]. rewrite insert_id in R' by done. by destruct s. }
  destruct (_ <? Channel.capacity_ _); destruct Hout as [Hm ->].
  - rewrite Hm in R'. done.
  - subst c. rewrite insert_id in R' by done. by destruct s.
Qed.

Lemma receive_related r s channel :
  related r s ->
  let '(r', x) := IpcRouter.receive r channel in
  let '(s', x') := RouterSpec.step s (Receive channel) in
  related r' s' /\ Received x = x' /\ next s' = next s.
Proof.
  intros R. unfold IpcRouter.receive, RouterSpec.step. pose proof (find_related r s channel R) as Hf.
  destruct (find_channel _ _ _) as [i |]; [| by rewrite Hf]. destruct Hf as [Hi <-].
  change (StaticVector.get (channels_ r) i) with (channel_at r i).
  destruct (rel_channel r s R i Hi) as (Hw & _ & Hlook). rewrite Hlook.
  pose proof (channel_receive_spec (channel_at r i) Hw) as Hs.
  destruct (Channel.receive _) as [c x]. destruct Hs as (Hcw & Hid & Hcap & Hout).
  pose proof (related_update r s i c R Hi Hcw Hid) as R'. rewrite Hid, Hcap in R'.
  destruct (Channel.messages (channel_at r i)) as [| y rest] eqn:Em; destruct Hout as [Hm ->]; rewrite Hm in R'; [| done].
  rewrite insert_id in R' by done. by destruct s.
Qed.

Definition valid_op (o : op) : Prop := match o with Create capacity => 0 <= capacity | _ => True end.

Lemma router_step_related r s o :
  related r s -> valid_op o -> next s + 1 <= u64_max ->
  let '(r', x) := RouterSpec.impl_step r o in
  let '(s', x') := RouterSpec.step s o in
  related r' s' /\ x = x' /\ next s' <= next s + 1.
Proof.
  intros R Hv Hn. destruct o as [capacity | channel m | channel]; cbn [RouterSpec.impl_step].
  - pose proof (create_related r s capacity R Hv Hn). by destruct (create_channel _ _), (RouterSpec.step _ _).
  - pose proof (send_related r s channel m R). destruct (IpcRouter.send _ _ _), (RouterSpec.step _ _).
    split_and!; [tauto | tauto | lia].
  - pose proof (receive_related r s channel R). destruct (IpcRouter.receive _ _), (RouterSpec.step _ _).
    split_and!; [tauto | tauto | lia].
Qed.

Lemma router_run_related r s ops :
  related r s -> Forall valid_op ops -> next s + zlen ops <= u64_max ->
  run RouterSpec.impl_step r ops = run RouterSpec.step s ops.
Proof.
  revert r s. induction ops as [| o ops IH]; intros r s R Hv Hn; [done |].
  inversion_clear Hv as [| ? ? Ho Hos]. rewrite zlen_cons in Hn. pose proof (zlen_nonneg ops). cbn.
  pose proof (router_step_related r s o R Ho ltac:(lia)) as Hs.
  destruct (RouterSpec.impl_step r o) as [r' x], (RouterSpec.step s o) as [s' x']. destruct Hs as (R' & -> & Hn').
  f_equal. apply IH; [done | done | lia].
Qed.

(** C30: for every script of create, send and receive calls the router gives
    the answers of a map from fresh channel identifiers to bounded first-in
    first-out queues: messages of one channel arrive once, in order and
    unchanged, channels do not interfere, and every refusal is the documented
    one. *)
Theorem router_refines_channel_map ops :
  Forall valid_op ops -> zlen ops < u64_max ->
  run RouterSpec.impl_step IpcRouter.new ops = run RouterSpec.step RouterSpec.new ops.
Proof.
  intros Hv Hn. apply router_run_related; [apply related_new | done |]. change (next RouterSpec.new) with 1. lia.
Qed.

Lemma payload_copy bytes : zlen bytes <= max_inline_payload ->
  take (Z.to_nat (zlen bytes)) (FixedString.copy_chars (Message.payload Message.new) 0 bytes) = bytes.
Proof.
  intros Hb. assert (zlen (Message.payload Message.new) = max_inline_payload) as Hp by done.
  pose proof (zlen_nonneg bytes). apply list_eq_aget.
  { rewrite zlen_take, zlen_copy_chars, Hp. lia. }
  intros i Hi. rewrite zlen_take, zlen_copy_chars, Hp in Hi. rewrite aget_take, aget_copy_chars by lia.
  cmp. by rewrite Z.sub_0_r.
Qed.

(** A value sent with send_value() on an empty channel is received
    back with its sender, receiver and exactly its bytes. *)
Theorem send_value_roundtrip r s channel sender receiver bytes capacity :
  related r s -> chans s !! channel = Some (capacity, []) -> zlen bytes <= max_inline_payload ->
  let '(r1, status) := IpcRouter.send_value r channel sender receiver bytes in
  let '(r2, received) := IpcRouter.receive r1 channel in
  status = StatusCode.ok /\
  exists m, received = Ok m /\ Message.sender m = sender /\ Message.receiver m = receiver /\
    take (Z.to_nat (Message.size m)) (Message.payload m) = bytes.
Proof.
  intros R Hch Hb. unfold send_value. set (m := Message.mk _ _ _ _).
  assert (0 < capacity) as Hcap.
  { destruct (rel_found r s R _ _ Hch) as (i & Hi & Hid). destruct (rel_channel r s R i Hi) as ((_ & ? & _) & _ & Hl).
    rewrite Hid, Hch in Hl. injection Hl as -> _. lia. }
  pose proof (send_related r s channel m R) as Hs. destruct (IpcRouter.send r channel m) as [r1 st].
  unfold RouterSpec.step in Hs. rewrite Hch in Hs. change (zlen []) with 0 in Hs.
  replace (max_inline_payload <? Message.size m) with false in Hs by (symmetry; apply Z.ltb_ge; done).
  replace (0 <? capacity) with true in Hs by lia. destruct Hs as (R1 & [= ->] & _).
  pose proof (receive_related _ _ channel R1) as Hr. destruct (IpcRouter.receive r1 channel) as [r2 x].
  unfold RouterSpec.step in Hr. cbn [chans] in Hr. rewrite lookup_insert_eq in Hr. destruct Hr as (_ & [= ->] & _).
  split; [done |]. exists m. split_and!; try done. by apply payload_copy.
Qed.
End RouterTheorems.

(** ** Witnesses *)
Section IpcWitnesses.
Import RouterSpec.

Definition sample_message : Message.t := Message.mk 1 2 (replicate 128 7) 5.

Lemma router_witness :
  run RouterSpec.impl_step IpcRouter.new [Create 1; Send 1 sample_message; Send 1 sample_message; Receive 1; Send 9 sample_message] =
  [Created (Ok 1); Sent StatusCode.ok; Sent StatusCode.would_block; Received (Ok sample_message); Sent StatusCode.not_found].
Proof. rewrite router_refines_channel_map; [vm_compute; reflexivity | by concrete | by concrete]. Defined.

Lemma send_value_witness :
  let r := fst (IpcRouter.create_channel IpcRouter.new 4) in
  let '(r1, status) := IpcRouter.send_value r 1 10 20 [65; 66] in
  let '(_, received) := IpcRouter.receive r1 1 in
  status = StatusCode.ok /\
  exists m, received = Ok m /\ Message.sender m = 10 /\ take (Z.to_nat (Message.size m)) (Message.payload m) = [65; 66].
Proof.
  pose proof (create_related IpcRouter.new RouterSpec.new 4 related_new ltac:(lia) ltac:(by concrete)) as Hr.
  destruct (IpcRouter.create_channel IpcRouter.new 4) as [r x]. cbn [fst].
  destruct (step RouterSpec.new (Create 4)) as [s y] eqn:E. destruct Hr as (Hr & _ & _).
  pose proof (send_value_roundtrip r s 1 10 20 [65; 66] 4 Hr) as Hs. injection E as <- <-.
  specialize (Hs ltac:(reflexivity) ltac:(by concrete)).
  destruct (IpcRouter.send_value r 1 10 20 [65; 66]) as [r1 status]. destruct (IpcRouter.receive r1 1) as [r2 received].
  destruct Hs as (? & m & ? & ? & _ & ?). split; [done |]. by exists m.
Defined.
End IpcWitnesses.
