(* ===== verification/Interrupt.v ===== *)
(** * Trap dispatch (include/ok/interrupt/interrupt.hpp, src/interrupt/interrupt.cpp)

    The vector table that routes a trap to a registered handler or callback,
    and the simulated controller.  Handlers and callbacks are code the table
    only calls: they are arguments that map a device world and a trap frame to
    a new world, a new frame and a status. *)

From S2P Require Import Prelude.

Definition max_vectors : Z := 256.
Inductive DispatchMode := direct | priority_masked | deferred.

(** The trap frame with the field the dispatcher reads; the rest is opaque. *)
Module TrapFrame.
Record t := mk { vector : Z; error_code : Z; context : Z }.
End TrapFrame.

Module InterruptDispatcher.
(** Pointers are addresses, 0 is nullptr; the name is not interpreted. *)
Record Entry := mk_entry { name : Z; handler : Z; context : Z; callback : Z }.
Definition empty_entry : Entry := mk_entry 0 0 0 0.
#[global] Instance entry_inhabited : Inhabited Entry := populate empty_entry.

Record t := mk {
  mode_ : DispatchMode;
  handlers_ : list Entry;        (* std::array<Entry, max_vectors> *)
  handled_counts_ : list Z       (* std::array<usize, max_vectors> *)
}.
Definition new : t :=
  mk direct (replicate (Z.to_nat max_vectors) empty_entry) (replicate (Z.to_nat max_vectors) 0).

Definition set_mode (d : t) (mode : DispatchMode) : t := mk mode (handlers_ d) (handled_counts_ d).
Definition mode (d : t) : DispatchMode := mode_ d.

Definition taken (e : Entry) : bool := negb (handler e =? 0) || negb (callback e =? 0).

Definition register_handler (d : t) (vector handler_name handler_ptr : Z) : t * Status :=
  if max_vectors <=? vector then (d, StatusCode.invalid_argument)
  else if taken (handlers_ d).[vector] then (d, StatusCode.already_exists)
  else (mk (mode_ d) (handlers_ d).[vector := mk_entry handler_name handler_ptr 0 0] (handled_counts_ d),
        StatusCode.ok).

Definition register_callback (d : t) (vector name context callback : Z) : t * Status :=
  if (max_vectors <=? vector) || (callback =? 0) then (d, StatusCode.invalid_argument)
  else if taken (handlers_ d).[vector] then (d, StatusCode.already_exists)
  else (mk (mode_ d) (handlers_ d).[vector := mk_entry name 0 context callback] (handled_counts_ d),
        StatusCode.ok).

Section Dispatch.
Context `{Arch} {World : Type}.
(** InterruptHandler::handle on the object at an address, and a callback. *)
Context (handle : Z -> World -> TrapFrame.t -> World * TrapFrame.t * Status).
Context (call : Z -> Z -> World -> TrapFrame.t -> World * TrapFrame.t * Status).

Definition invoke (e : Entry) (w : World) (frame : TrapFrame.t) : World * TrapFrame.t * Status :=
  if negb (handler e =? 0) then handle (handler e) w frame
  else call (callback e) (context e) w frame.

(** [++handled_counts_[vector]]; [None] for an access outside the array. *)
Definition count_handled (d : t) (vector : Z) : option t :=
  if vector <? max_vectors
  then Some (mk (mode_ d) (handlers_ d)
               (handled_counts_ d).[vector := usize_wrap ((handled_counts_ d).[vector] + 1)])
  else None.

(** dispatch() reads [frame.vector] again for the count, after the handler had the frame. *)
Definition dispatch (d : t) (w : World) (frame : TrapFrame.t) : option (t * World * TrapFrame.t * Status) :=
  let vector := TrapFrame.vector frame in
  if max_vectors <=? vector then Some (d, w, frame, StatusCode.invalid_argument)
  else
    let entry := (handlers_ d).[vector] in
    if negb (taken entry) then Some (d, w, frame, StatusCode.not_found)
    else
      let '(w, frame, status) := invoke entry w frame in
      if status_ok status then
        match count_handled d (TrapFrame.vector frame) with
        | Some d => Some (d, w, frame, status)
        | None => None
        end
      else Some (d, w, frame, status).

Definition dispatch_vector (d : t) (vector : Z) (w : World) (frame : TrapFrame.t)
    : option (t * World * TrapFrame.t * Status) :=
  if max_vectors <=? vector then Some (d, w, frame, StatusCode.invalid_argument)
  else
    let entry := (handlers_ d).[vector] in
    if negb (taken entry) then Some (d, w, frame, StatusCode.not_found)
    else
      let '(w, frame, status) := invoke entry w frame in
      if status_ok status then
        match count_handled d vector with
        | Some d => Some (d, w, frame, status)
        | None => None
        end
      else Some (d, w, frame, status).
End Dispatch.

Definition handled_count (d : t) (vector : Z) : Z :=
  if max_vectors <=? vector then 0 else (handled_counts_ d).[vector].
Definition has_handler (d : t) (vector : Z) : bool :=
  (vector <? max_vectors) && taken (handlers_ d).[vector].

Definition wf (d : t) : Prop := zlen (handlers_ d) = max_vectors /\ zlen (handled_counts_ d) = max_vectors.
End InterruptDispatcher.

Module SimulatedInterruptController.
Record t := mk { enabled_ : list bool; initialized_ : bool }.
Definition new : t := mk (replicate (Z.to_nat max_vectors) false) false.

Definition initialize (c : t) : t * Status := (mk (enabled_ c) true, StatusCode.ok).

Definition enable (c : t) (vector : Z) : t * Status :=
  if negb (initialized_ c) then (c, StatusCode.not_initialized)
  else if max_vectors <=? vector then (c, StatusCode.invalid_argument)
  else (mk (enabled_ c).[vector := true] (initialized_ c), StatusCode.ok).

Definition disable (c : t) (vector : Z) : t * Status :=
  if negb (initialized_ c) then (c, StatusCode.not_initialized)
  else if max_vectors <=? vector then (c, StatusCode.invalid_argument)
  else (mk (enabled_ c).[vector := false] (initialized_ c), StatusCode.ok).

Definition enabled (c : t) (vector : Z) : bool := (vector <? max_vectors) && (enabled_ c).[vector].
End SimulatedInterruptController.

(** ** Theorems *)
Section DispatcherFacts.
Context `{Arch} {World : Type}.
Context (handle : Z -> World -> TrapFrame.t -> World * TrapFrame.t * Status).
Context (call : Z -> Z -> World -> TrapFrame.t -> World * TrapFrame.t * Status).
Import InterruptDispatcher.

(** A trap reaches exactly the entry of its vector: dispatch_vector() never
    leaves the table, runs the registered handler once with the frame it got,
    returns the handler's status, and counts the trap for that vector and no
    other exactly when the handler succeeded. *)
Theorem dispatch_vector_spec d vector w frame :
  wf d -> 0 <= vector ->
  exists d' w' frame' status,
    dispatch_vector handle call d vector w frame = Some (d', w', frame', status) /\ wf d' /\
    handlers_ d' = handlers_ d /\
    (if has_handler d vector
     then (w', frame', status) = invoke handle call (handlers_ d).[vector] w frame /\
          handled_count d' vector =
            (if status_ok status then usize_wrap (handled_count d vector + 1) else handled_count d vector)
     else d' = d /\ w' = w /\ frame' = frame /\
          status = if vector <? max_vectors then StatusCode.not_found else StatusCode.invalid_argument) /\
    forall v, 0 <= v -> v <> vector -> handled_count d' v = handled_count d v.
Proof.
  intros [Hh Hc] Hv. unfold dispatch_vector, has_handler.
  destruct (Z.leb_spec max_vectors vector) as [Hge | Hlt].
  { exists d, w, frame, StatusCode.invalid_argument. by cmp. }
  cmp. destruct (taken (handlers_ d).[vector]); cbn [negb]; [| by exists d, w, frame, StatusCode.not_found].
  destruct (invoke _ _ _ _ _) as [[w' frame'] status]. unfold count_handled. cmp.
  destruct (status_ok status) eqn:Es.
  - eexists _, w', frame', status. split; [done |]. unfold wf, handled_count; cbn [handlers_ handled_counts_].
    rewrite zlen_aset. cmp. rewrite Es. split_and!; try done.
    + by rewrite aget_aset_eq by lia.
    + intros v Hv0 Hne. case_match; [done |]. by rewrite aget_aset_ne by lia.
  - exists d, w', frame', status. rewrite Es. done.
Qed.

(** As long as handlers leave the vector of the frame alone, dispatch() is
    dispatch_vector() of the frame's own vector. *)
Lemma dispatch_is_dispatch_vector d w frame :
  (forall e, let '(_, frame', _) := invoke handle call e w frame in
             TrapFrame.vector frame' = TrapFrame.vector frame) ->
  dispatch handle call d w frame = dispatch_vector handle call d (TrapFrame.vector frame) w frame.
Proof.
  intros Hkeep. unfold dispatch, dispatch_vector. destruct (_ <=? _); [done |]. destruct (negb _); [done |].
  specialize (Hkeep (handlers_ d).[TrapFrame.vector frame]).
  destruct (invoke _ _ _ _ _) as [[w' frame'] status]. by rewrite Hkeep.
Qed.

(** Registration fills a free vector once and touches no other. *)
Lemma register_callback_spec d vector nm ctx cb :
  wf d -> 0 <= vector -> 0 < cb ->
  let '(d', status) := register_callback d vector nm ctx cb in
  wf d' /\ handled_counts_ d' = handled_counts_ d /\
  (if max_vectors <=? vector then d' = d /\ status = StatusCode.invalid_argument
   else if has_handler d vector then d' = d /\ status = StatusCode.already_exists
   else status = StatusCode.ok /\ has_handler d' vector = true) /\
  forall v, 0 <= v -> v <> vector -> (handlers_ d').[v] = (handlers_ d).[v].
Proof.
  intros [Hh Hc] Hv Hcb. unfold register_callback, has_handler.
  destruct (Z.leb_spec max_vectors vector); [by cmp |]. cmp.
  destruct (taken (handlers_ d).[vector]); [done |]. unfold wf; cbn. rewrite zlen_aset.
  split_and!; try done; [| intros; by rewrite aget_aset_ne by lia].
  rewrite aget_aset_eq by lia. unfold taken; cbn. by cmp.
Qed.
Lemma usize_wrap_succ x : usize_wrap (x + 1) <> x.
Proof.
  pose proof (usize_wrap_range (x + 1)) as Hr. intros E. rewrite E in Hr. pose proof usize_max_pos.
  destruct (Z.eq_dec x usize_max) as [-> | Hne]; [| rewrite usize_wrap_small in E by lia; lia].
  unfold usize_wrap in E. rewrite <- pow_word_bits, Z_mod_same_full in E. lia.
Qed.

(** C39: dispatch() bounds-checks the vector before the handler runs and indexes
    the counters with the vector the handler left in the frame.  For every table
    and every handler that succeeds: a vector within the table gets the count,
    whichever vector was dispatched; a vector outside it makes dispatch() write
    outside the table; and dispatch() agrees with dispatch_vector() exactly when
    the handler left the vector as it was. *)
Theorem dispatch_counts_rewritten_vector d w frame w' frame' :
  wf d -> 0 <= TrapFrame.vector frame -> 0 <= TrapFrame.vector frame' -> has_handler d (TrapFrame.vector frame) = true ->
  invoke handle call (handlers_ d).[TrapFrame.vector frame] w frame = (w', frame', StatusCode.ok) ->
  match dispatch handle call d w frame with
  | Some (d', w1, frame1, status) =>
      TrapFrame.vector frame' < max_vectors /\ w1 = w' /\ frame1 = frame' /\ status = StatusCode.ok /\
      forall v, 0 <= v < max_vectors ->
        handled_count d' v = if v =? TrapFrame.vector frame' then usize_wrap (handled_count d v + 1) else handled_count d v
  | None => max_vectors <= TrapFrame.vector frame'
  end /\
  (dispatch handle call d w frame = dispatch_vector handle call d (TrapFrame.vector frame) w frame <->
   TrapFrame.vector frame' = TrapFrame.vector frame).
Proof.
  intros [_ Hc] Hv Hv' [Hlt Ht]%andb_true_iff Hi. apply Z.ltb_lt in Hlt. unfold dispatch, dispatch_vector. cmp.
  rewrite Ht. cbn [negb]. rewrite Hi. cbn [status_ok]. unfold count_handled. cmp.
  destruct (Z.ltb_spec (TrapFrame.vector frame') max_vectors) as [Hin | Hout]; [| split; [lia | split; [done | lia]]].
  split; [split_and!; try done |].
  - intros v Hr. unfold handled_count. cmp. cbn. destruct (Z.eqb_spec v (TrapFrame.vector frame')) as [-> |].
    + by rewrite aget_aset_eq by lia.
    + by rewrite aget_aset_ne by lia.
  - split; [intros E | by intros ->]. destruct (Z.eq_dec (TrapFrame.vector frame') (TrapFrame.vector frame)) as [| Hne]; [done | exfalso].
    injection E as E. apply (f_equal (fun l => l.[TrapFrame.vector frame])) in E.
    rewrite aget_aset_ne, aget_aset_eq in E by lia. symmetry in E. by apply usize_wrap_succ in E.
Qed.
End DispatcherFacts.

(** ** Witness *)
Section DispatchWitness.
Import InterruptDispatcher.
#[local] Existing Instance arch64.

(** A callback that succeeds and leaves [v] in the vector field. *)
Definition set_vector (v : Z) (_ _ : Z) (w : unit) (frame : TrapFrame.t) : unit * TrapFrame.t * Status :=
  (w, TrapFrame.mk v (TrapFrame.error_code frame) (TrapFrame.context frame), StatusCode.ok).
Definition no_handler (_ : Z) (w : unit) (frame : TrapFrame.t) : unit * TrapFrame.t * Status :=
  (w, frame, StatusCode.not_found).

(** The trap 3 counted under 9, and a write behind the table. *)
Lemma rewritten_vector_witness :
  let d := fst (register_callback new 3 0 0 77) in
  (exists d' w f, dispatch no_handler (set_vector 9) d tt (TrapFrame.mk 3 0 0) = Some (d', w, f, StatusCode.ok) /\
     handled_count d' 3 = 0 /\ handled_count d' 9 = 1) /\
  dispatch no_handler (set_vector 256) d tt (TrapFrame.mk 3 0 0) = None.
Proof.
  cbv zeta. set (d := fst (register_callback new 3 0 0 77)). assert (wf d) as Hw by (by concrete).
  split.
  - destruct (dispatch_counts_rewritten_vector no_handler (set_vector 9) d tt (TrapFrame.mk 3 0 0) tt (TrapFrame.mk 9 0 0)
      Hw ltac:(done) ltac:(done) eq_refl eq_refl) as [Hd _].
    destruct (dispatch no_handler (set_vector 9) d tt (TrapFrame.mk 3 0 0)) as [[[[d' w] f] st] |]; [| vm_compute in Hd; by destruct Hd].
    destruct Hd as (_ & _ & _ & -> & Hd). exists d', w, f. split; [reflexivity |]. split; rewrite Hd by (by vm_compute); reflexivity.
  - destruct (dispatch_counts_rewritten_vector no_handler (set_vector 256) d tt (TrapFrame.mk 3 0 0) tt (TrapFrame.mk 256 0 0)
      Hw ltac:(done) ltac:(done) eq_refl eq_refl) as [Hd _].
    destruct (dispatch no_handler (set_vector 256) d tt (TrapFrame.mk 3 0 0)) as [[[[d' w] f] st] |]; [| reflexivity].
    destruct Hd as (Hlt & _). exfalso. vm_compute in Hlt. discriminate Hlt.
Defined.

Lemma dispatch_vector_witness :
  let d := fst (register_callback new 3 0 0 77) in
  exists d' w frame, dispatch_vector no_handler (set_vector 3) d 3 tt (TrapFrame.mk 3 0 0) = Some (d', w, frame, StatusCode.ok) /\
    handled_count d' 3 = 1 /\ handled_count d' 4 = 0.
Proof.
  cbv zeta. set (d := fst (register_callback new 3 0 0 77)).
  destruct (dispatch_vector_spec no_handler (set_vector 3) d 3 tt (TrapFrame.mk 3 0 0)) as (d' & w & f & st & He & _ & _ & Hh & Ho).
  - by concrete.
  - lia.
  - change (has_handler d 3) with true in Hh. cbv iota in Hh. destruct Hh as [Hi Hc].
    change (invoke _ _ _ _ _) with (tt, TrapFrame.mk 3 0 0, StatusCode.ok) in Hi. injection Hi as -> -> ->.
    exists d', tt, (TrapFrame.mk 3 0 0). split_and!; [exact He | exact Hc | exact (Ho 4 ltac:(lia) ltac:(lia))].
Defined.
End DispatchWitness.
