(* ===== verification/IrqChip.v ===== *)
(** * Interrupt controllers (include/ok/interrupt/irq_chip.hpp, src/interrupt/pic8259.hpp)

    The [IrqChip] concept as a class of operations and a class of laws, the
    hosted model chip and the 8259A pair as instances.  The router is verified
    against the laws; the chips discharge them. *)

From S2P Require Import Prelude.

Inductive IrqTrigger := edge | level.
#[global] Instance IrqTrigger_eq_dec : EqDecision IrqTrigger.
Proof. solve_decision. Defined.
Definition trigger_eqb (a b : IrqTrigger) : bool := bool_decide (a = b).

(** The operations the concept asks for. *)
Class IrqChip (Chip : Type) := {
  chip_initialize : Chip -> Chip * Status;
  chip_configure : Chip -> Z -> IrqTrigger -> Chip * Status;
  chip_mask : Chip -> Z -> Chip * Status;
  chip_unmask : Chip -> Z -> Chip * Status;
  chip_acknowledge : Chip -> Z -> Chip * Status;
  chip_end_of_interrupt : Chip -> Z -> Chip * Status;
  chip_line_count : Chip -> Z
}.

(** What the router relies on: which lines it may use, which are masked, and
    that an operation changes the mask of its own line only. *)
Class IrqChipLaws (Chip : Type) `{IrqChip Chip} := {
  chip_wf : Chip -> Prop;
  usable : Chip -> Z -> bool;
  masked : Chip -> Z -> bool;
  mask_law c l : chip_wf c -> 0 <= l ->
    let '(c', s) := chip_mask c l in
    chip_wf c' /\ status_ok s = usable c l /\
    forall k, 0 <= k -> usable c' k = usable c k /\
      masked c' k = if usable c l && (k =? l) then true else masked c k;
  unmask_law c l : chip_wf c -> 0 <= l ->
    let '(c', s) := chip_unmask c l in
    chip_wf c' /\ status_ok s = usable c l /\
    forall k, 0 <= k -> usable c' k = usable c k /\
      masked c' k = if usable c l && (k =? l) then false else masked c k;
  configure_law c l t : chip_wf c -> 0 <= l ->
    let '(c', s) := chip_configure c l t in
    chip_wf c' /\ (status_ok s = true -> usable c l = true) /\
    forall k, 0 <= k -> usable c' k = usable c k /\ masked c' k = masked c k;
  acknowledge_law c l : chip_wf c -> 0 <= l ->
    let '(c', s) := chip_acknowledge c l in
    chip_wf c' /\ forall k, 0 <= k -> usable c' k = usable c k /\ masked c' k = masked c k;
  end_of_interrupt_law c l : chip_wf c -> 0 <= l ->
    let '(c', s) := chip_end_of_interrupt c l in
    chip_wf c' /\ forall k, 0 <= k -> usable c' k = usable c k /\ masked c' k = masked c k
}.

(** ** ModelIrqChip *)
Module ModelIrqChip.
Section Defs.
Context `{Arch}.

Record t := mk {
  initialized_ : bool;
  masked_ : list bool;            (* std::array<bool, 32> *)
  triggers_ : list IrqTrigger;    (* std::array<IrqTrigger, 32> *)
  acknowledged_ : list Z;
  completed_ : list Z
}.
Definition line_count (_ : t) : Z := 32.
Definition new : t :=
  mk false (replicate 32 false) (replicate 32 edge) (replicate 32 0) (replicate 32 0).

Definition initialize (c : t) : t * Status :=
  (mk true (masked_ c) (triggers_ c) (acknowledged_ c) (completed_ c), StatusCode.ok).

#[global] Instance trigger_inhabited : Inhabited IrqTrigger := populate edge.

Definition configure (c : t) (line : Z) (trigger : IrqTrigger) : t * Status :=
  if negb (initialized_ c) then (c, StatusCode.not_initialized)
  else if line_count c <=? line then (c, StatusCode.invalid_argument)
  else (mk (initialized_ c) (masked_ c) (triggers_ c).[line := trigger] (acknowledged_ c) (completed_ c), StatusCode.ok).

Definition set_masked (c : t) (line : Z) (value : bool) : t * Status :=
  if negb (initialized_ c) then (c, StatusCode.not_initialized)
  else if line_count c <=? line then (c, StatusCode.invalid_argument)
  else (mk (initialized_ c) (masked_ c).[line := value] (triggers_ c) (acknowledged_ c) (completed_ c), StatusCode.ok).
Definition mask (c : t) (line : Z) : t * Status := set_masked c line true.
Definition unmask (c : t) (line : Z) : t * Status := set_masked c line false.

Definition acknowledge (c : t) (line : Z) : t * Status :=
  if negb (initialized_ c) || (line_count c <=? line) then (c, StatusCode.invalid_argument)
  else (mk (initialized_ c) (masked_ c) (triggers_ c)
           (acknowledged_ c).[line := usize_wrap ((acknowledged_ c).[line] + 1)] (completed_ c), StatusCode.ok).
Definition end_of_interrupt (c : t) (line : Z) : t * Status :=
  if negb (initialized_ c) || (line_count c <=? line) then (c, StatusCode.invalid_argument)
  else (mk (initialized_ c) (masked_ c) (triggers_ c) (acknowledged_ c)
           (completed_ c).[line := usize_wrap ((completed_ c).[line] + 1)], StatusCode.ok).

Definition masked (c : t) (line : Z) : bool := (line <? line_count c) && (masked_ c).[line].
Definition acknowledged (c : t) (line : Z) : Z := if line <? line_count c then (acknowledged_ c).[line] else 0.
Definition completed (c : t) (line : Z) : Z := if line <? line_count c then (completed_ c).[line] else 0.

#[global] Instance ops : IrqChip t := {|
  chip_initialize := initialize; chip_configure := configure; chip_mask := mask; chip_unmask := unmask;
  chip_acknowledge := acknowledge; chip_end_of_interrupt := end_of_interrupt; chip_line_count := line_count
|}.
End Defs.
End ModelIrqChip.

(** ** The 8259A pair *)

(** Port access of a board: reads may change the device. *)
Class PortIo (Io : Type) := {
  io_in : Io -> Z -> Io * Z;
  io_out : Io -> Z -> Z -> Io
}.

Module Pic8259.
Section Defs.
Context {Io : Type} `{PortIo Io} (PitTick : bool).

Record t := mk { mask_ : Z; initialized_ : bool; io : Io }.   (* u16 mask_ *)
Definition new (io : Io) : t := mk 0xffff false io.

Definition vector_base : Z := 32.
Definition tick_line : Z := 0.
Definition cascade_line : Z := 2.
Definition line_count (_ : t) : Z := 16.

Definition outb (c : t) (port value : Z) : t := mk (mask_ c) (initialized_ c) (io_out (io c) port value).
Definition inb (c : t) (port : Z) : t * Z :=
  let '(io', v) := io_in (io c) port in (mk (mask_ c) (initialized_ c) io', v).
Definition with_mask (c : t) (m : Z) : t := mk m (initialized_ c) (io c).

(** write_mask() and write_mask(line). *)
Definition write_mask (c : t) : t :=
  let c := outb c 0x21 (u8_wrap (mask_ c)) in
  outb c 0xa1 (u8_wrap (Z.shiftr (mask_ c) 8)).
Definition write_mask_line (c : t) (line : Z) : t :=
  if line <? 8 then outb c 0x21 (u8_wrap (mask_ c)) else outb c 0xa1 (u8_wrap (Z.shiftr (mask_ c) 8)).

Definition initialize (c : t) : t * Status :=
  let c := outb c 0x20 0x11 in
  let c := outb c 0xa0 0x11 in
  let c := outb c 0x21 vector_base in
  let c := outb c 0xa1 (vector_base + 8) in
  let c := outb c 0x21 0x04 in
  let c := outb c 0xa1 0x02 in
  let c := outb c 0x21 0x01 in
  let c := outb c 0xa1 0x01 in
  let reserved := Z.lor (if PitTick then Z.shiftl 1 tick_line else 0) (Z.shiftl 1 cascade_line) in
  let c := with_mask c (Z.land 0xffff (Z.lnot reserved)) in
  let c := write_mask c in
  (mk (mask_ c) true (io c), StatusCode.ok).

Definition admit_line (c : t) (line : Z) : Status :=
  if negb (initialized_ c) then StatusCode.not_initialized
  else if (line_count c <=? line) || (PitTick && (line =? tick_line)) || (line =? cascade_line)
  then StatusCode.invalid_argument
  else StatusCode.ok.

Definition configure (c : t) (line : Z) (trigger : IrqTrigger) : t * Status :=
  let status := admit_line c line in
  if negb (status_ok status) then (c, status)
  else
    let is_level := trigger_eqb trigger level in
    if is_level && ((line =? 0) || (line =? 1) || (line =? 8) || (line =? 13)) then (c, StatusCode.invalid_argument)
    else
      let port := if line <? 8 then 0x4d0 else 0x4d1 in
      let bit := Z.shiftl 1 (Z.land line 7) in
      let '(c, old) := inb c port in
      (outb c port (if is_level then u8_wrap (Z.lor old bit) else u8_wrap (Z.land old (Z.lnot bit))), StatusCode.ok).

Definition mask (c : t) (line : Z) : t * Status :=
  let status := admit_line c line in
  if negb (status_ok status) then (c, status)
  else
    let c := with_mask c (Z.lor (mask_ c) (u16_wrap (Z.shiftl 1 line))) in
    (write_mask_line c line, StatusCode.ok).

Definition unmask (c : t) (line : Z) : t * Status :=
  let status := admit_line c line in
  if negb (status_ok status) then (c, status)
  else
    let c := with_mask c (Z.land (mask_ c) (u16_wrap (Z.lnot (Z.shiftl 1 line)))) in
    (write_mask_line c line, StatusCode.ok).

Definition in_service (c : t) : t * Z :=
  let c := outb c 0x20 0x0b in
  let c := outb c 0xa0 0x0b in
  let '(c, low) := inb c 0x20 in
  let '(c, high) := inb c 0xa0 in
  (c, u16_wrap (Z.lor low (Z.shiftl high 8))).

(** A line 7 or 15 whose in-service bit is clear is spurious. *)
Definition spurious_check (c : t) (line : Z) : t * bool :=
  if Z.land line 7 =? 7 then
    let '(c, isr) := in_service c in (c, Z.land isr (Z.shiftl 1 line) =? 0)
  else (c, false).

Definition acknowledge (c : t) (line : Z) : t * Status :=
  if negb (initialized_ c) || (line_count c <=? line) then (c, StatusCode.invalid_argument)
  else
    let '(c, spurious) := spurious_check c line in
    if spurious then (c, StatusCode.not_found) else (c, StatusCode.ok).

Definition end_of_interrupt (c : t) (line : Z) : t * Status :=
  if negb (initialized_ c) || (line_count c <=? line) then (c, StatusCode.invalid_argument)
  else
    let '(c, spurious) := spurious_check c line in
    if spurious then (if line =? 15 then outb c 0x20 0x20 else c, StatusCode.ok)
    else
      let c := if 8 <=? line then outb c 0xa0 0x20 else c in
      (outb c 0x20 0x20, StatusCode.ok).

(** poll() without an interrupt-acknowledge cycle. *)
Definition poll (c : t) : t * Z :=
  let c := outb c 0x20 0x0c in
  let '(c, master) := inb c 0x20 in
  if Z.land master 0x80 =? 0 then (c, 16)
  else if negb (Z.land master 7 =? cascade_line) then (c, Z.land master 7)
  else
    let c := outb c 0xa0 0x0c in
    let '(c, slave) := inb c 0xa0 in
    if negb (Z.land slave 0x80 =? 0) then (c, 8 + Z.land slave 7)
    else (outb c 0x20 0x20, 16).

Definition mask_state (c : t) : Z := mask_ c.

#[global] Instance ops : IrqChip t := {|
  chip_initialize := initialize; chip_configure := configure; chip_mask := mask; chip_unmask := unmask;
  chip_acknowledge := acknowledge; chip_end_of_interrupt := end_of_interrupt; chip_line_count := line_count
|}.
End Defs.
Arguments t : clear implicits.
End Pic8259.

(** ** The chips discharge the laws *)
Section ModelLaws.
Context `{Arch}.
Import ModelIrqChip.

Definition model_usable (c : t) (l : Z) : bool := initialized_ c && (l <? 32).
Definition model_wf (c : t) : Prop := zlen (masked_ c) = 32.

Lemma set_masked_law c l v : model_wf c -> 0 <= l ->
  let '(c', s) := set_masked c l v in
  model_wf c' /\ status_ok s = model_usable c l /\
  forall k, 0 <= k -> model_usable c' k = model_usable c k /\
    ModelIrqChip.masked c' k = if model_usable c l && (k =? l) then v else ModelIrqChip.masked c k.
Proof.
  intros Hwf Hl. unfold set_masked, model_usable, ModelIrqChip.masked, line_count.
  destruct (initialized_ c) eqn:E; cbn [negb andb]; [| by rewrite E].
  destruct (Z.leb_spec 32 l); cmp; [by rewrite E |]. unfold model_wf in *; cbn. rewrite zlen_aset.
  split_and!; try done. intros k Hk. split; [done |]. rewrite aget_aset by lia.
  destruct (Z.eqb_spec k l) as [-> |]; [by cmp | done].
Qed.

#[global] Instance model_laws : IrqChipLaws ModelIrqChip.t.
Proof.
  refine (Build_IrqChipLaws _ ModelIrqChip.ops model_wf model_usable ModelIrqChip.masked _ _ _ _ _).
  - intros c l. apply set_masked_law.
  - intros c l. apply set_masked_law.
  - intros c l t Hwf Hl. cbn. unfold configure, model_usable, line_count. destruct (initialized_ c) eqn:E; cbn; [| by rewrite E].
    destruct (Z.leb_spec 32 l); cbn; [by rewrite E |]. split_and!; try done. intros _. by cmp.
  - intros c l Hwf Hl. cbn. unfold acknowledge. by destruct (_ || _).
  - intros c l Hwf Hl. cbn. unfold end_of_interrupt. by destruct (_ || _).
Defined.
End ModelLaws.

Section PicLaws.
Context {Io : Type} `{PortIo Io} (PitTick : bool).
Import Pic8259.

Definition pic_usable (c : Pic8259.t Io) (l : Z) : bool := status_ok (admit_line PitTick c l).
Definition pic_masked (c : Pic8259.t Io) (l : Z) : bool := Z.testbit (mask_ c) l.
Definition pic_wf (c : Pic8259.t Io) : Prop := 0 <= mask_ c < 2 ^ 16.

(** Port traffic does not touch the shadow mask. *)
Definition same_shadow (c c' : Pic8259.t Io) : Prop :=
  mask_ c' = mask_ c /\ initialized_ c' = initialized_ c.

Lemma inb_shadow c p : same_shadow c (fst (inb c p)).
Proof. unfold inb. by destruct (io_in (io c) p). Qed.

Lemma in_service_shadow c : same_shadow c (fst (in_service c)).
Proof.
  unfold in_service, inb. destruct (io_in _ 0x20) as [io1 low] eqn:E1; cbn in *.
  by destruct (io_in _ 0xa0) as [io2 high].
Qed.

Lemma spurious_check_shadow c l : same_shadow c (fst (spurious_check c l)).
Proof.
  unfold spurious_check. destruct (_ =? 7); [| done]. pose proof (in_service_shadow c). by destruct (in_service c).
Qed.

Lemma same_shadow_keeps c c' : same_shadow c c' -> pic_wf c ->
  pic_wf c' /\ forall k, 0 <= k -> pic_usable c' k = pic_usable c k /\ pic_masked c' k = pic_masked c k.
Proof. unfold same_shadow, pic_wf, pic_usable, pic_masked, admit_line. by intros [-> ->]. Qed.

Lemma write_mask_line_shadow c l : same_shadow c (write_mask_line c l).
Proof. unfold write_mask_line. by case_match. Qed.

Lemma pic_usable_range c l : pic_usable c l = true -> l < 16.
Proof. unfold pic_usable, admit_line, line_count. repeat case_cond; b2p; done || lia. Qed.

(** Bit [l] of the shadow mask after |= and &=. *)
Lemma mask_bits m l k : 0 <= m < 2 ^ 16 -> 0 <= l < 16 -> 0 <= k ->
  Z.testbit (Z.lor m (u16_wrap (Z.shiftl 1 l))) k = (if k =? l then true else Z.testbit m k) /\
  Z.testbit (Z.land m (u16_wrap (Z.lnot (Z.shiftl 1 l)))) k = (if k =? l then false else Z.testbit m k).
Proof.
  intros Hm Hl Hk. rewrite Z.lor_spec, Z.land_spec. unfold u16_wrap.
  destruct (Z_lt_le_dec k 16) as [Hlt | Hge].
  - rewrite !Z.mod_pow2_bits_low, Z.lnot_spec, Z.shiftl_1_l, Z.pow2_bits_eqb by lia.
    rewrite (Z.eqb_sym l k). destruct (k =? l); cbn; by rewrite ?orb_true_r, ?orb_false_r, ?andb_false_r, ?andb_true_r.
  - rewrite !Z.mod_pow2_bits_high, (testbit_high m 16) by lia. by cmp.
Qed.

Lemma pic_write_law c l m v : pic_wf c -> 0 <= l -> pic_usable c l = true -> 0 <= m < 2 ^ 16 ->
  (forall k, 0 <= k -> Z.testbit m k = if k =? l then v else Z.testbit (mask_ c) k) ->
  let c' := write_mask_line (with_mask c m) l in
  pic_wf c' /\ forall k, 0 <= k -> pic_usable c' k = pic_usable c k /\
    pic_masked c' k = if true && (k =? l) then v else pic_masked c k.
Proof.
  intros Hwf Hl Hu Hm Hbits c'. pose proof (write_mask_line_shadow (with_mask c m) l) as Hs.
  destruct (same_shadow_keeps _ _ Hs Hm) as [Hw Hk]. split; [done |]. intros k Hk0.
  destruct (Hk k Hk0) as [Hku Hkm]. split; [done |]. unfold c'. rewrite Hkm. by apply Hbits.
Qed.

Lemma u16_range x : 0 <= u16_wrap x < 2 ^ 16.
Proof. apply Z.mod_pos_bound. lia. Qed.

#[global] Instance pic_laws : IrqChipLaws (Pic8259.t Io) (H := Pic8259.ops PitTick).
Proof.
  refine (Build_IrqChipLaws _ (Pic8259.ops PitTick) pic_wf pic_usable pic_masked _ _ _ _ _).
  - intros c l Hwf Hl. cbn. unfold mask. destruct (status_ok (admit_line PitTick c l)) eqn:E; cbn [negb].
    2: { split_and!; try done. intros k Hk. change (pic_usable c l = false) in E. by rewrite E. }
    change (pic_usable c l = true) in E. pose proof (pic_usable_range c l E). rewrite E.
    destruct (pic_write_law c l (Z.lor (mask_ c) (u16_wrap (Z.shiftl 1 l))) true) as [? ?]; try done.
    + apply lor_bound; [lia | done | apply u16_range].
    + intros k Hk. by apply mask_bits.
  - intros c l Hwf Hl. cbn. unfold unmask. destruct (status_ok (admit_line PitTick c l)) eqn:E; cbn [negb].
    2: { split_and!; try done. intros k Hk. change (pic_usable c l = false) in E. by rewrite E. }
    change (pic_usable c l = true) in E. pose proof (pic_usable_range c l E). rewrite E.
    destruct (pic_write_law c l (Z.land (mask_ c) (u16_wrap (Z.lnot (Z.shiftl 1 l)))) false) as [? ?]; try done.
    + apply land_bound; [lia | done |]. apply u16_range.
    + intros k Hk. by apply mask_bits.
  - intros c l t Hwf Hl. cbn. unfold configure. destruct (status_ok (admit_line PitTick c l)) eqn:E; cbn [negb]; [| done].
    destruct (_ && _); [done |]. pose proof (inb_shadow c (if l <? 8 then 0x4d0 else 0x4d1)) as Hs.
    destruct (inb _ _) as [c1 old]. split; [| split; [done |]]; by apply (same_shadow_keeps c).
  - intros c l Hwf Hl. cbn. unfold acknowledge. destruct (_ || _); [done |].
    pose proof (spurious_check_shadow c l) as Hs. destruct (spurious_check c l) as [c1 sp].
    destruct sp; by apply (same_shadow_keeps c).
  - intros c l Hwf Hl. cbn. unfold end_of_interrupt. destruct (_ || _); [done |].
    pose proof (spurious_check_shadow c l) as Hs. destruct (spurious_check c l) as [c1 sp].
    destruct sp; repeat case_match; by apply (same_shadow_keeps c).
Defined.
End PicLaws.

(** ** The mask registers of the pair

    Port writes as a log; reads come from an arbitrary device. *)
Section PicRegisters.
Context (device : list (Z * Z) -> Z -> Z) (PitTick : bool).
Import Pic8259.

#[local] Instance logged_io : PortIo (list (Z * Z)) := {|
  io_in log port := (log, device log port);
  io_out log port value := (port, value) :: log
|}.
Abbreviation pic := (Pic8259.t (list (Z * Z))).

(** The value a port was last given. *)
Fixpoint last_write (log : list (Z * Z)) (port : Z) : option Z :=
  match log with
  | [] => None
  | (p, v) :: rest => if p =? port then Some v else last_write rest port
  end.

Inductive pic_op :=
| PConfigure (line : Z) (trigger : IrqTrigger)
| PMask (line : Z)
| PUnmask (line : Z)
| PAcknowledge (line : Z)
| PEndOfInterrupt (line : Z)
| PPoll.

Definition pic_exec (c : pic) (o : pic_op) : pic :=
  match o with
  | PConfigure l t => fst (configure PitTick c l t)
  | PMask l => fst (mask PitTick c l)
  | PUnmask l => fst (unmask PitTick c l)
  | PAcknowledge l => fst (acknowledge c l)
  | PEndOfInterrupt l => fst (end_of_interrupt c l)
  | PPoll => fst (poll c)
  end.
Definition pic_op_ok (o : pic_op) : Prop :=
  match o with
  | PConfigure l _ | PMask l | PUnmask l | PAcknowledge l | PEndOfInterrupt l => 0 <= l
  | PPoll => True
  end.

(** The registers hold the shadow mask, and the reserved lines are open. *)
Definition pic_inv (c : pic) : Prop :=
  pic_wf c /\ last_write (io c) 0x21 = Some (u8_wrap (mask_ c)) /\
  last_write (io c) 0xa1 = Some (u8_wrap (Z.shiftr (mask_ c) 8)) /\
  Z.testbit (mask_ c) cascade_line = false /\ (PitTick = true -> Z.testbit (mask_ c) tick_line = false).

(** Traffic on other ports keeps the invariant. *)
Definition quiet (c c' : pic) : Prop :=
  mask_ c' = mask_ c /\ last_write (io c') 0x21 = last_write (io c) 0x21 /\
  last_write (io c') 0xa1 = last_write (io c) 0xa1.

Lemma quiet_inv c c' : quiet c c' -> pic_inv c -> pic_inv c'.
Proof. unfold pic_inv, pic_wf. intros (-> & -> & ->). done. Qed.

Lemma outb_quiet c p v : p <> 0x21 -> p <> 0xa1 -> quiet c (outb c p v).
Proof. intros. unfold quiet; cbn. by cmp. Qed.

Lemma spurious_check_quiet c l : quiet c (fst (spurious_check c l)).
Proof. unfold spurious_check. by case_match. Qed.

Lemma byte_same m m' l : 0 <= l ->
  (forall k, 0 <= k -> k <> l -> Z.testbit m' k = Z.testbit m k) ->
  (8 <= l -> u8_wrap m' = u8_wrap m) /\ (l < 8 -> u8_wrap (Z.shiftr m' 8) = u8_wrap (Z.shiftr m 8)).
Proof.
  intros Hl Hb. unfold u8_wrap. split; intros Hc; apply Z.bits_inj'; intros k Hk;
    (destruct (Z_lt_le_dec k 8); [rewrite !Z.mod_pow2_bits_low by lia | by rewrite !Z.mod_pow2_bits_high by lia]);
    rewrite ?Z.shiftr_spec by lia; apply Hb; lia.
Qed.

Lemma write_mask_inv c l m v : pic_inv c -> 0 <= l < 16 -> pic_usable PitTick c l = true -> 0 <= m < 2 ^ 16 ->
  (forall k, 0 <= k -> Z.testbit m k = if k =? l then v else Z.testbit (mask_ c) k) ->
  pic_inv (write_mask_line (with_mask c m) l).
Proof.
  intros (Hw & H21 & Ha1 & Hcas & Htick) Hl Hu Hm Hb.
  destruct (byte_same (mask_ c) m l) as [Hlo Hhi]; [lia | intros k Hk Hne; rewrite Hb by done; by cmp |].
  assert (l <> cascade_line /\ (PitTick = true -> l <> tick_line)) as [Hnc Hnt].
  { unfold pic_usable, admit_line in Hu. destruct (initialized_ c); [| done]. cbn [negb] in Hu.
    destruct (_ || _) eqn:E; [done |]. b2p. split; [done |]. intros ->. b2p. naive_solver lia. }
  unfold write_mask_line. destruct (Z.ltb_spec l 8); (split_and!; cbn -[Z.shiftr u8_wrap Z.testbit]; [done | | | |]).
  all: try (rewrite Hb by done; cmp; done).
  all: try (intros Ht; rewrite Hb by done; specialize (Hnt Ht); specialize (Htick Ht); by cmp).
  all: try done.
  - by rewrite Hhi.
  - by rewrite Hlo by lia.
Qed.

Lemma pic_exec_inv c o : pic_inv c -> pic_op_ok o -> pic_inv (pic_exec c o).
Proof.
  intros Hinv Ho. destruct o as [l t | l | l | l | l |]; cbn in Ho |- *.
  - unfold configure. destruct (status_ok _); cbn [negb]; [| done]. destruct (_ && _); [done |]. cbn.
    eapply quiet_inv; [| exact Hinv]. by destruct (l <? 8).
  - unfold mask. destruct (status_ok _) eqn:E; cbn [negb]; [| done]. cbn [fst].
    pose proof (pic_usable_range PitTick c l E). pose proof (proj1 Hinv).
    apply write_mask_inv with true; [done | lia | done | apply lor_bound; [lia | done | apply u16_range] |].
    intros k Hk. apply mask_bits; [done | lia | done].
  - unfold unmask. destruct (status_ok _) eqn:E; cbn [negb]; [| done]. cbn [fst].
    pose proof (pic_usable_range PitTick c l E). pose proof (proj1 Hinv).
    apply write_mask_inv with false; [done | lia | done | apply land_bound; [lia | done | apply u16_range] |].
    intros k Hk. apply mask_bits; [done | lia | done].
  - unfold acknowledge. destruct (_ || _); [done |]. pose proof (spurious_check_quiet c l) as Hq.
    destruct (spurious_check c l) as [c1 sp]. destruct sp; by apply (quiet_inv c).
  - unfold end_of_interrupt. destruct (_ || _); [done |]. pose proof (spurious_check_quiet c l) as Hq.
    destruct (spurious_check c l) as [c1 sp]. destruct sp; repeat case_match; by apply (quiet_inv c).
  - apply (quiet_inv c); [| done]. unfold poll. cbn. repeat case_match; cbn; done.
Qed.

(** After initialize() and any sequence of controller operations, the two
    mask registers of the 8259 pair hold the two bytes of the driver's mask,
    and the cascade line, and the tick line of a PIT board, are never masked. *)
Theorem pic_registers_follow_mask log ops :
  Forall pic_op_ok ops ->
  let c := fold_left pic_exec ops (fst (initialize PitTick (new log))) in
  last_write (io c) 0x21 = Some (u8_wrap (mask_state c)) /\
  last_write (io c) 0xa1 = Some (u8_wrap (Z.shiftr (mask_state c) 8)) /\
  Z.testbit (mask_state c) cascade_line = false /\
  (PitTick = true -> Z.testbit (mask_state c) tick_line = false).
Proof.
  intros Hops. enough (pic_inv (fold_left pic_exec ops (fst (initialize PitTick (new log))))) as [_ ?] by done.
  assert (pic_inv (fst (initialize PitTick (new log)))) as Hinv.
  { unfold pic_inv, pic_wf. by destruct PitTick. }
  revert Hinv. generalize (fst (initialize PitTick (new log))). induction Hops as [| o ops Ho _ IH]; intros c Hc; [done |].
  cbn. apply IH. by apply pic_exec_inv.
Qed.
End PicRegisters.

(** ** Witness *)
Section PicWitness.
Import Pic8259.

(** Lines 2 and 14 are masked on a device whose ports read as zero: the cascade stays open. *)
Lemma pic_witness :
  let c := fold_left (pic_exec (fun _ _ => 0) false) [PMask 2; PMask 14; PUnmask 1]
             (fst (@initialize _ (logged_io (fun _ _ => 0)) false (new []))) in
  last_write (io c) 0xa1 = Some (u8_wrap (Z.shiftr (mask_state c) 8)) /\ Z.testbit (mask_state c) cascade_line = false.
Proof.
  pose proof (pic_registers_follow_mask (fun _ _ => 0) false [] [PMask 2; PMask 14; PUnmask 1] ltac:(by concrete)) as Hp.
  cbv zeta in *. destruct Hp as (_ & H1 & H2 & _). split; [exact H1 | exact H2].
Defined.
End PicWitness.
