(* ===== verification/IrqRouter.v ===== *)
(** * The interrupt router (include/ok/interrupt/irq_chip.hpp, class IrqRouter)

    Top halves mask a line and record it pending; drain() runs the handlers of
    every pending line once and re-enables it.  The router is generic in the
    chip ([IrqChip]) and in the bottom-half handlers, which are code it only
    calls: [call handler context line] maps the router and a device world to
    their next state. *)

From S2P Require Import Prelude IrqChip.

Definition max_irq_lines : Z := 256.
Definition max_line_handlers : Z := 4.

Module Handler.
Record t := mk { handler : Z; context : Z }.   (* nullptr is 0 *)
Definition none : t := mk 0 0.
#[global] Instance inhabited : Inhabited t := populate none.
Definition eqb (a b : t) : bool := (handler a =? handler b) && (context a =? context b).
End Handler.

Module Line.
Record t := mk {
  handlers : list Handler.t;   (* std::array<Handler, max_line_handlers> *)
  count : Z;
  trigger : IrqTrigger;
  pending : bool
}.
Definition new : t := mk (replicate (Z.to_nat max_line_handlers) Handler.none) 0 edge false.
#[global] Instance inhabited : Inhabited t := populate new.
Definition with_pending (l : t) (p : bool) : t := mk (handlers l) (count l) (trigger l) p.
(** The handlers bound to the line, in bind order. *)
Definition bound_handlers (l : t) : list Handler.t := take (Z.to_nat (count l)) (handlers l).
End Line.

Module IrqRouter.
Section Defs.
Context `{Arch} {Chip : Type} `{IrqChip Chip}.

Record t := mk {
  chip_ : Chip;
  lines_ : list Line.t;          (* std::array<Line, max_irq_lines> *)
  delivered_ : list Z;
  serviced_ : list Z;
  pending_count_ : Z;
  spurious_ : Z;
  controller_errors_ : Z
}.
Definition new (chip : Chip) : t :=
  mk chip (replicate (Z.to_nat max_irq_lines) Line.new) (replicate (Z.to_nat max_irq_lines) 0)
     (replicate (Z.to_nat max_irq_lines) 0) 0 0 0.

Definition with_chip (r : t) (c : Chip) : t :=
  mk c (lines_ r) (delivered_ r) (serviced_ r) (pending_count_ r) (spurious_ r) (controller_errors_ r).
Definition with_line (r : t) (line : Z) (l : Line.t) : t :=
  mk (chip_ r) (lines_ r).[line := l] (delivered_ r) (serviced_ r) (pending_count_ r) (spurious_ r) (controller_errors_ r).
Definition with_pending_count (r : t) (n : Z) : t :=
  mk (chip_ r) (lines_ r) (delivered_ r) (serviced_ r) (usize_wrap n) (spurious_ r) (controller_errors_ r).
Definition count_delivered (r : t) (line : Z) : t :=
  mk (chip_ r) (lines_ r) (delivered_ r).[line := usize_wrap ((delivered_ r).[line] + 1)] (serviced_ r)
     (pending_count_ r) (spurious_ r) (controller_errors_ r).
Definition count_serviced (r : t) (line : Z) : t :=
  mk (chip_ r) (lines_ r) (delivered_ r) (serviced_ r).[line := usize_wrap ((serviced_ r).[line] + 1)]
     (pending_count_ r) (spurious_ r) (controller_errors_ r).
Definition count_spurious (r : t) : t :=
  mk (chip_ r) (lines_ r) (delivered_ r) (serviced_ r) (pending_count_ r) (usize_wrap (spurious_ r + 1)) (controller_errors_ r).
Definition count_error (r : t) : t :=
  mk (chip_ r) (lines_ r) (delivered_ r) (serviced_ r) (pending_count_ r) (spurious_ r) (usize_wrap (controller_errors_ r + 1)).

(** A chip call that updates [chip_]. *)
Definition on_chip (r : t) (x : Chip * Status) : t * Status := (with_chip r (fst x), snd x).

(** [for (i = 0; i < entry.count; ++i)]: the position of a handler, if bound. *)
Fixpoint find_handler (hs : list Handler.t) (h : Handler.t) (i : Z) : option Z :=
  match hs with
  | [] => None
  | x :: rest => if Handler.eqb x h then Some i else find_handler rest h (i + 1)
  end.

Definition bind (r : t) (line : Z) (trigger : IrqTrigger) (handler context : Z) : t * Status :=
  if (chip_line_count (chip_ r) <=? line) || (max_irq_lines <=? line) || (handler =? 0)
  then (r, StatusCode.invalid_argument)
  else
    let entry := (lines_ r).[line] in
    let h := Handler.mk handler context in
    match find_handler (Line.bound_handlers entry) h 0 with
    | Some _ => (r, StatusCode.already_exists)
    | None =>
        if Line.count entry =? max_line_handlers then (r, StatusCode.overflow)
        else if negb (Line.count entry =? 0) && negb (trigger_eqb (Line.trigger entry) trigger)
        then (r, StatusCode.invalid_argument)
        else
          let '(r, configured) :=
            if Line.count entry =? 0 then on_chip r (chip_configure (chip_ r) line trigger)
            else (r, StatusCode.ok) in
          if negb (status_ok configured) then (r, configured)
          else
            let trigger := if Line.count entry =? 0 then trigger else Line.trigger entry in
            let entry := Line.mk (Line.handlers entry).[Line.count entry := h] (Line.count entry + 1) trigger (Line.pending entry) in
            let r := with_line r line entry in
            if Line.count entry =? 1 then
              let '(r, unmasked) := on_chip r (chip_unmask (chip_ r) line) in
              if negb (status_ok unmasked) then (with_line r line Line.new, unmasked) else (r, StatusCode.ok)
            else (r, StatusCode.ok)
    end.

(** [for (j = i + 1; j < entry.count; ++j) entry.handlers[j - 1] = entry.handlers[j]]. *)
Fixpoint shift_handlers (hs : list Handler.t) (j : Z) (n : nat) : list Handler.t :=
  match n with
  | O => hs
  | S n' => shift_handlers hs.[j - 1 := hs.[j]] (j + 1) n'
  end.

Definition unbind (r : t) (line handler context : Z) : t * Status :=
  if max_irq_lines <=? line then (r, StatusCode.not_found)
  else
    let entry := (lines_ r).[line] in
    match find_handler (Line.bound_handlers entry) (Handler.mk handler context) 0 with
    | None => (r, StatusCode.not_found)
    | Some i =>
        let hs := shift_handlers (Line.handlers entry) (i + 1) (Z.to_nat (Line.count entry - (i + 1))) in
        let count := Line.count entry - 1 in
        let entry := Line.mk hs.[count := Handler.none] count (Line.trigger entry) (Line.pending entry) in
        let r := with_line r line entry in
        if negb (count =? 0) then (r, StatusCode.ok)
        else
          let r := if Line.pending entry then with_pending_count r (pending_count_ r - 1) else r in
          let r := with_line r line Line.new in
          on_chip r (chip_mask (chip_ r) line)
    end.

Definition bound (r : t) (line : Z) : bool := (line <? max_irq_lines) && negb (Line.count (lines_ r).[line] =? 0).

Definition top_half (r : t) (line : Z) : t :=
  if (max_irq_lines <=? line) || (Line.count (lines_ r).[line] =? 0) then
    let r := count_spurious r in
    if line <? chip_line_count (chip_ r) then
      let r := fst (on_chip r (chip_mask (chip_ r) line)) in
      fst (on_chip r (chip_end_of_interrupt (chip_ r) line))
    else r
  else
    let '(r, acked) := on_chip r (chip_acknowledge (chip_ r) line) in
    let '(r, quiet) := if status_ok acked then on_chip r (chip_mask (chip_ r) line) else (r, acked) in
    let r := if negb (status_ok quiet) then count_error r else r in
    let entry := (lines_ r).[line] in
    let r := if negb (Line.pending entry)
             then with_pending_count (with_line r line (Line.with_pending entry true)) (pending_count_ r + 1) else r in
    let r := count_delivered r line in
    let '(r, done) := on_chip r (chip_end_of_interrupt (chip_ r) line) in
    if negb (status_ok done) then count_error r else r.

Section Drain.
Context {World : Type} (call : Z -> Z -> Z -> t * World -> t * World).

(** The handler loop of one line; [entry.count] and the handlers are read again
    on every iteration. *)
Fixpoint run_handlers (fuel : nat) (line i : Z) (s : t * World) : t * World :=
  match fuel with
  | O => s
  | S fuel' =>
      let entry := (lines_ (fst s)).[line] in
      if i <? Line.count entry
      then let h := (Line.handlers entry).[i] in
           run_handlers fuel' line (i + 1) (call (Handler.handler h) (Handler.context h) line s)
      else s
  end.

(** One iteration of drain() for a pending line. *)
Definition service (line : Z) (s : t * World) : t * World :=
  let '(r, w) := s in
  let r := with_line r line (Line.with_pending (lines_ r).[line] false) in
  let r := with_pending_count r (pending_count_ r - 1) in
  let '(r, w) := run_handlers (Z.to_nat max_line_handlers) line 0 (r, w) in
  let r := count_serviced r line in
  let r := if negb (Line.count (lines_ r).[line] =? 0) then
             let '(r, unmasked) := on_chip r (chip_unmask (chip_ r) line) in
             if negb (status_ok unmasked) then count_error r else r
           else r in
  (r, w).

(** [for (line = 0; pending_count_ != 0 && line < max_irq_lines; ++line)]. *)
Fixpoint drain_from (n : nat) (line serviced : Z) (s : t * World) : t * World * Z :=
  match n with
  | O => (s, serviced)
  | S n' =>
      if pending_count_ (fst s) =? 0 then (s, serviced)
      else if negb (Line.pending (lines_ (fst s)).[line]) then drain_from n' (line + 1) serviced s
      else drain_from n' (line + 1) (serviced + 1) (service line s)
  end.
Definition drain (s : t * World) : t * World * Z := drain_from (Z.to_nat max_irq_lines) 0 0 s.
End Drain.

Definition pending (r : t) : bool := negb (pending_count_ r =? 0).
Definition delivered (r : t) (line : Z) : Z := if line <? max_irq_lines then (delivered_ r).[line] else 0.
Definition serviced (r : t) (line : Z) : Z := if line <? max_irq_lines then (serviced_ r).[line] else 0.
Definition spurious (r : t) : Z := spurious_ r.
Definition controller_errors (r : t) : Z := controller_errors_ r.

(** ** Invariant *)
Definition line_wf (l : Line.t) : Prop :=
  zlen (Line.handlers l) = max_line_handlers /\ 0 <= Line.count l <= max_line_handlers /\
  (Line.pending l = true -> Line.count l <> 0).

Definition pend (l : Line.t) : Z := if Line.pending l then 1 else 0.
Definition count_pending (ls : list Line.t) : Z := zsum pend ls.

Record wf (r : t) : Prop := {
  wf_lines : zlen (lines_ r) = max_irq_lines;
  wf_line : Forall line_wf (lines_ r);
  wf_pending : pending_count_ r = count_pending (lines_ r);
  wf_delivered : zlen (delivered_ r) = max_irq_lines;
  wf_serviced : zlen (serviced_ r) = max_irq_lines
}.
End Defs.
Arguments t : clear implicits.
End IrqRouter.

(** ** The router keeps its invariant *)
Section RouterInvariant.
Context `{Arch} {Chip : Type} `{IrqChip Chip}.
Import IrqRouter.
Implicit Types r : IrqRouter.t Chip.

Lemma count_pending_aset ls i l : 0 <= i < zlen ls ->
  count_pending ls.[i := l] = count_pending ls - pend ls.[i] + pend l.
Proof. apply zsum_aset. Qed.

Lemma count_pending_bounds ls : 0 <= count_pending ls <= zlen ls.
Proof. apply zsum_bounds. intros l. unfold pend. case_match; lia. Qed.

Lemma count_pending_zero ls : count_pending ls = 0 -> Forall (fun l => Line.pending l = false) ls.
Proof.
  induction ls as [| x ls IH]; [done |]. pose proof (count_pending_bounds ls).
  change (count_pending (x :: ls)) with (pend x + count_pending ls). unfold pend.
  destruct (Line.pending x) eqn:E; [lia |]. intros. constructor; [done | apply IH; lia].
Qed.

Lemma pending_range r : wf r -> 0 <= pending_count_ r <= max_irq_lines.
Proof. intros Hwf. rewrite wf_pending, <- (wf_lines r) by done. apply count_pending_bounds. Qed.

Lemma wrap_256 x : 0 <= x <= max_irq_lines -> usize_wrap x = x.
Proof. intros. apply usize_wrap_small. pose proof usize_max_pos. unfold max_irq_lines in *. lia. Qed.

Lemma line_at r line : wf r -> 0 <= line < max_irq_lines -> line_wf (lines_ r).[line].
Proof.
  intros Hwf Hl. pose proof (wf_line r Hwf) as Hf. rewrite Forall_lookup in Hf.
  apply (Hf (Z.to_nat line)), lookup_aget. by rewrite wf_lines.
Qed.

(** Replacing one line, with the pending count adjusted. *)
Lemma wf_update r r' line l :
  wf r -> 0 <= line < max_irq_lines -> line_wf l -> lines_ r' = (lines_ r).[line := l] ->
  pending_count_ r' = pending_count_ r - pend (lines_ r).[line] + pend l ->
  zlen (delivered_ r') = max_irq_lines -> zlen (serviced_ r') = max_irq_lines -> wf r'.
Proof.
  intros Hwf Hl Hlw El Ep Ed Es. constructor; rewrite ?El; try done.
  - by rewrite zlen_aset, wf_lines.
  - by apply Forall_insert; [apply wf_line |].
  - rewrite Ep, count_pending_aset by (by rewrite wf_lines). by rewrite (wf_pending r).
Qed.

Lemma wf_same r r' :
  wf r -> lines_ r' = lines_ r -> pending_count_ r' = pending_count_ r ->
  zlen (delivered_ r') = max_irq_lines -> zlen (serviced_ r') = max_irq_lines -> wf r'.
Proof. intros Hwf El Ep Ed Es. constructor; rewrite ?El, ?Ep; try done; apply Hwf. Qed.

Lemma line_wf_new : line_wf Line.new.
Proof. done. Qed.

Lemma find_handler_range hs h i0 i : find_handler hs h i0 = Some i -> i0 <= i < i0 + zlen hs.
Proof.
  revert i0. induction hs as [| x hs IH]; intros i0; cbn; [done |]. rewrite zlen_cons. pose proof (zlen_nonneg hs).
  destruct (Handler.eqb x h); [intros [= <-]; lia |]. intros Hf. apply IH in Hf. lia.
Qed.

Lemma bound_handlers_length l : line_wf l -> zlen (Line.bound_handlers l) = Line.count l.
Proof. intros (Hz & Hc & _). unfold Line.bound_handlers. rewrite zlen_take. lia. Qed.

Lemma zlen_shift_handlers hs j n : zlen (shift_handlers hs j n) = zlen hs.
Proof. revert hs j. induction n as [| n IH]; intros hs j; cbn; [done |]. by rewrite IH, zlen_aset. Qed.

Lemma bind_wf r line tr h c : wf r -> 0 <= line -> wf (fst (bind r line tr h c)).
Proof.
  intros Hwf Hl. unfold bind. destruct (_ || _) eqn:E; [done |]. b2p.
  set (entry := (lines_ r).[line]). assert (line_wf entry) as Hlw by (apply line_at; [done | lia]).
  destruct (find_handler _ _ _); [done |].
  destruct (Z.eqb_spec (Line.count entry) max_line_handlers) as [| Hne]; [done |]. destruct (_ && _); [done |].
  destruct (if Line.count entry =? 0 then _ else _) as [r1 st] eqn:E1.
  assert (wf r1 /\ lines_ r1 = lines_ r /\ pending_count_ r1 = pending_count_ r) as (Hwf1 & El & Ep).
  { destruct (Line.count entry =? 0); injection E1 as <- <-; [| done]. split_and!; try done.
    apply (wf_same r); try done; apply Hwf. }
  destruct (status_ok st); cbn [negb]; [| done].
  set (l2 := Line.mk (Line.handlers entry).[Line.count entry := Handler.mk h c] _ _ _).
  destruct Hlw as (Hz & Hc & Hp). unfold max_line_handlers in *.
  assert (line_wf l2) as Hl2.
  { unfold line_wf, l2, max_line_handlers; cbn [Line.handlers Line.count Line.pending]. rewrite zlen_aset. split_and!; lia. }
  assert (wf (with_line r1 line l2)) as Hwf2.
  { apply (wf_update r1 _ line l2); [done | lia | done | done | | apply Hwf1 | apply Hwf1]. cbn. rewrite El. fold entry. unfold pend, l2; cbn. lia. }
  destruct (Line.count l2 =? 1) eqn:E2; [| done]. cbn [on_chip fst snd].
  destruct (negb _); cbn [fst].
  - b2p. apply (wf_update r1 _ line Line.new); [done | lia | done | | | apply Hwf1 | apply Hwf1]; cbn.
    + by rewrite El; unfold aset; rewrite list_insert_insert_eq.
    + rewrite El. fold entry. unfold pend. cbn.
      destruct (Line.pending entry) eqn:Epd; [| lia]. specialize (Hp eq_refl). unfold l2 in E2; cbn in E2. lia.
  - apply (wf_same (with_line r1 line l2)); try done; apply Hwf1.
Qed.
End RouterInvariant.

Section RouterOperations.
Context `{Arch} {Chip : Type} `{IrqChip Chip}.
Import IrqRouter.
Implicit Types r : IrqRouter.t Chip.

Lemma unbind_wf r line h c : wf r -> 0 <= line -> wf (fst (unbind r line h c)).
Proof.
  intros Hwf Hl. unfold unbind. destruct (Z.leb_spec max_irq_lines line); [done |].
  set (entry := (lines_ r).[line]). assert (line_wf entry) as Hlw by (by apply line_at).
  destruct (find_handler _ _ _) as [i |] eqn:Ef; [| done].
  apply find_handler_range in Ef. rewrite bound_handlers_length in Ef by done.
  set (l1 := Line.mk _ (Line.count entry - 1) _ _). destruct Hlw as (Hz & Hc & Hp).
  destruct (Z.eqb_spec (Line.count entry - 1) 0) as [E | E]; cbn [negb].
  2: { cbn [fst]. apply (wf_update r _ line l1); [done | lia | | done | | apply Hwf | apply Hwf].
       - unfold line_wf, l1; cbn. rewrite zlen_aset, zlen_shift_handlers. split_and!; lia.
       - cbn. fold entry. unfold pend, l1; cbn. lia. }
  cbn [on_chip fst]. apply (wf_update r _ line Line.new); [done | lia | done | | | |];
    unfold l1; cbn [Line.pending]; destruct (Line.pending entry) eqn:Epd; try apply Hwf; cbn.
  1, 2: by unfold aset; rewrite list_insert_insert_eq.
  - fold entry. unfold pend. rewrite Epd. cbn. pose proof (pending_range r Hwf).
    pose proof (count_pending_aset (lines_ r) line Line.new ltac:(rewrite wf_lines by done; lia)) as Hcp.
    pose proof (count_pending_bounds (lines_ r).[line := Line.new]).
    fold entry in Hcp. unfold pend in Hcp. rewrite Epd, <- (wf_pending r) in Hcp by done. cbn in Hcp.
    rewrite wrap_256 by lia. lia.
  - fold entry. unfold pend. rewrite Epd. cbn. lia.
Qed.

(** Setting the pending flag of a bound line, with its count. *)
Lemma set_pending_wf r line : wf r -> 0 <= line < max_irq_lines -> Line.count (lines_ r).[line] <> 0 ->
  Line.pending (lines_ r).[line] = false ->
  wf (with_pending_count (with_line r line (Line.with_pending (lines_ r).[line] true)) (pending_count_ r + 1)).
Proof.
  intros Hwf Hl Hc Hp. pose proof (line_at r line Hwf Hl) as (Hz & Hcn & _).
  set (l := Line.with_pending _ _).
  pose proof (count_pending_aset (lines_ r) line l ltac:(by rewrite wf_lines)) as Hcp.
  pose proof (count_pending_bounds (lines_ r).[line := l]) as Hb. rewrite zlen_aset, wf_lines in Hb by done.
  unfold pend in Hcp. rewrite Hp, <- (wf_pending r) in Hcp by done. cbn in Hcp.
  assert (line_wf l) by (unfold line_wf, l; cbn; split_and!; [lia | lia | lia | done]).
  apply (wf_update r _ line l); [done | done | done | done | | apply Hwf | apply Hwf].
  cbn. rewrite wrap_256 by lia. unfold pend. rewrite Hp. cbn. lia.
Qed.

Lemma clear_pending_wf r line : wf r -> 0 <= line < max_irq_lines -> Line.pending (lines_ r).[line] = true ->
  wf (with_pending_count (with_line r line (Line.with_pending (lines_ r).[line] false)) (pending_count_ r - 1)) /\
  0 < pending_count_ r.
Proof.
  intros Hwf Hl Hp. pose proof (line_at r line Hwf Hl) as (Hz & Hcn & _). set (l := Line.with_pending _ _).
  pose proof (count_pending_aset (lines_ r) line l ltac:(by rewrite wf_lines)) as Hcp.
  pose proof (count_pending_bounds (lines_ r).[line := l]) as Hb. rewrite zlen_aset, wf_lines in Hb by done.
  unfold pend in Hcp. rewrite Hp, <- (wf_pending r) in Hcp by done. cbn in Hcp.
  split; [| lia]. assert (line_wf l) by (unfold line_wf, l; cbn; split_and!; [lia | lia | lia | done]).
  apply (wf_update r _ line l); [done | done | done | done | | apply Hwf | apply Hwf].
  cbn. rewrite wrap_256 by lia. unfold pend. rewrite Hp. cbn. lia.
Qed.

Lemma top_half_wf r line : wf r -> 0 <= line -> wf (top_half r line).
Proof.
  intros Hwf Hl. unfold top_half.
  assert (forall x, wf (with_chip r x)) as Hchip by (intros; apply (wf_same r); try done; apply Hwf).
  destruct (_ || _) eqn:E.
  { destruct (_ <? _); apply (wf_same r); try done; apply Hwf. }
  b2p. cbn [on_chip fst snd].
  set (r1 := with_chip r _). destruct (if status_ok _ then _ else _) as [r2 q] eqn:E2.
  assert (wf r2 /\ lines_ r2 = lines_ r /\ pending_count_ r2 = pending_count_ r) as (Hwf2 & El2 & Ep2).
  { destruct (status_ok _); injection E2 as <- <-; split_and!; try done; [apply (wf_same r); try done; apply Hwf | apply Hchip]. }
  set (r3 := if negb (status_ok q) then count_error r2 else r2).
  assert (wf r3 /\ lines_ r3 = lines_ r) as (Hwf3 & El3).
  { unfold r3. destruct (negb _); [| done]. split; [| done]. apply (wf_same r2); try done; apply Hwf2. }
  set (r4 := if negb (Line.pending _) then _ else _).
  assert (wf r4) as Hwf4.
  { unfold r4. destruct (Line.pending (lines_ r3).[line]) eqn:Ep; [done |]. apply set_pending_wf; [done | lia | by rewrite El3 | done]. }
  assert (forall x, wf (with_chip (count_delivered r4 line) x)) as Hd.
  { intros x. apply (wf_same r4); try done; [cbn; rewrite zlen_aset; apply Hwf4 | apply Hwf4]. }
  clearbody r4. clear r3 Hwf3 El3. destruct (negb _); [| apply Hd]. apply (wf_same (with_chip (count_delivered r4 line)
    (fst (chip_end_of_interrupt (chip_ (count_delivered r4 line)) line)))); try done; try apply Hd.
Qed.

Section Handlers.
Context {World : Type} (call : Z -> Z -> Z -> IrqRouter.t Chip * World -> IrqRouter.t Chip * World).
Hypothesis handlers_keep_wf : forall h c l s, wf (fst s) -> wf (fst (call h c l s)).

Lemma run_handlers_wf fuel line i s : wf (fst s) -> wf (fst (run_handlers call fuel line i s)).
Proof.
  revert i s. induction fuel as [| fuel IH]; intros i s Hwf; cbn; [done |]. case_match; [| done].
  by apply IH, handlers_keep_wf.
Qed.

(** The handler loop leaves by its own condition: more fuel changes nothing. *)
Lemma run_handlers_fuel fuel extra line i s :
  wf (fst s) -> 0 <= line < max_irq_lines -> max_line_handlers <= i + Z.of_nat fuel ->
  run_handlers call (fuel + extra) line i s = run_handlers call fuel line i s.
Proof.
  revert i s. induction fuel as [| fuel IH]; intros i s Hwf Hl Hf; cbn [run_handlers Nat.add].
  - destruct extra as [| extra]; [done |]. cbn [run_handlers]. destruct (line_at _ line Hwf Hl) as (_ & ? & _).
    by replace (i <? _) with false by lia.
  - case_match; [| done]. apply IH; [by apply handlers_keep_wf | done | lia].
Qed.

Lemma service_wf line s : wf (fst s) -> 0 <= line < max_irq_lines ->
  Line.pending (lines_ (fst s)).[line] = true -> wf (fst (service call line s)).
Proof.
  destruct s as [r w]. cbn [fst]. intros Hwf Hl Hp. unfold service.
  destruct (clear_pending_wf r line Hwf Hl Hp) as [Hwf1 _].
  change (pending_count_ (with_line r line ?x)) with (pending_count_ r).
  set (r1 := with_pending_count _ _) in *.
  pose proof (run_handlers_wf (Z.to_nat max_line_handlers) line 0 (r1, w) Hwf1) as Hwf2.
  destruct (run_handlers _ _ _ _ _) as [r2 w2]. cbn [fst] in *.
  assert (wf (count_serviced r2 line)) as Hwf3 by (apply (wf_same r2); try done; [apply Hwf2 | cbn; rewrite zlen_aset; apply Hwf2]).
  destruct (negb _); [| done]. cbn [on_chip]. destruct (negb _); apply (wf_same (count_serviced r2 line)); try done; apply Hwf3.
Qed.

Lemma drain_from_wf n line k s : wf (fst s) -> 0 <= line -> line + Z.of_nat n <= max_irq_lines ->
  wf (fst (fst (drain_from call n line k s))).
Proof.
  revert line k s. induction n as [| n IH]; intros line k s Hwf Hl Hn; cbn [drain_from]; [done |].
  destruct (_ =? 0); [done |]. destruct (Line.pending _) eqn:E; cbn [negb]; apply IH; try lia; try done.
  apply service_wf; [done | lia | done].
Qed.
End Handlers.
End RouterOperations.

(** ** Draining, and the masks of bound lines *)
Section Drain.
Context `{Arch} {Chip : Type} `{IrqChipLaws Chip} {World : Type}.
Import IrqRouter.
Implicit Types r : IrqRouter.t Chip.
Context (call : Z -> Z -> Z -> IrqRouter.t Chip * World -> IrqRouter.t Chip * World).
Context (act : Z -> Z -> Z -> World -> World).

(** The handlers of one line on the device world, in bind order. *)
Definition run_line (line : Z) (hs : list Handler.t) (w : World) : World :=
  fold_left (fun w h => act (Handler.handler h) (Handler.context h) line w) hs w.

(** The pending lines of [ls] from [line] on, in ascending order. *)
Fixpoint run_pending (n : nat) (line : Z) (ls : list Line.t) (w : World) : World :=
  match n with
  | O => w
  | S n' => run_pending n' (line + 1) ls
              (if Line.pending ls.[line] then run_line line (Line.bound_handlers ls.[line]) w else w)
  end.

(** Every bound line is one the chip accepts, and is open unless it is pending. *)
Definition masks_inv r : Prop :=
  chip_wf (chip_ r) /\ forall line, 0 <= line < max_irq_lines -> Line.count (lines_ r).[line] <> 0 ->
    usable (chip_ r) line = true /\ (Line.pending (lines_ r).[line] = false -> masked (chip_ r) line = false).

Hypothesis handlers_leave_router : forall h c l r w, call h c l (r, w) = (r, act h c l w).

Lemma run_handlers_pure fuel line i r w :
  line_wf (lines_ r).[line] -> 0 <= i -> Line.count (lines_ r).[line] <= i + Z.of_nat fuel ->
  run_handlers call fuel line i (r, w) =
  (r, run_line line (drop (Z.to_nat i) (Line.bound_handlers (lines_ r).[line])) w).
Proof.
  intros (Hz & Hc & _). revert i w. set (entry := (lines_ r).[line]) in *.
  induction fuel as [| fuel IH]; intros i w Hi Hf; cbn [run_handlers fst].
  { rewrite drop_ge; [done |]. unfold Line.bound_handlers. rewrite length_take. lia. }
  fold entry. destruct (Z.ltb_spec i (Line.count entry)) as [Hlt | Hge].
  - rewrite handlers_leave_router, IH by lia. f_equal.
    rewrite (drop_S _ (Line.handlers entry).[i] (Z.to_nat i)).
    + by replace (S (Z.to_nat i)) with (Z.to_nat (i + 1)) by lia.
    + unfold Line.bound_handlers. rewrite lookup_take_lt by lia. apply lookup_aget. lia.
  - rewrite drop_ge; [done |]. unfold Line.bound_handlers. rewrite length_take. lia.
Qed.

Lemma service_pure line r w :
  wf r -> 0 <= line < max_irq_lines -> Line.pending (lines_ r).[line] = true ->
  exists r', service call line (r, w) = (r', run_line line (Line.bound_handlers (lines_ r).[line]) w) /\
    wf r' /\ lines_ r' = (lines_ r).[line := Line.with_pending (lines_ r).[line] false] /\
    pending_count_ r' = pending_count_ r - 1 /\ (masks_inv r -> masks_inv r').
Proof.
  intros Hwf Hl Hp. pose proof (line_at r line Hwf Hl) as Hlw. pose proof Hlw as (Hz & Hc & Hpc).
  pose proof (clear_pending_wf r line Hwf Hl Hp) as [Hwf1 Hpos].
  pose proof (service_wf call ltac:(intros ? ? ? [? ?] ?; by rewrite handlers_leave_router) line (r, w) Hwf Hl Hp) as Hwf'.
  unfold service in *. change (pending_count_ (with_line r line ?x)) with (pending_count_ r) in *.
  set (entry := Line.with_pending (lines_ r).[line] false) in *. set (r1 := with_pending_count _ _) in *.
  assert ((lines_ r1).[line] = entry) as He1 by (apply aget_aset_eq; by rewrite wf_lines).
  assert (line_wf entry) as Hew by done.
  rewrite run_handlers_pure in * by (rewrite ?He1; unfold max_line_handlers in *; done || cbn; lia).
  rewrite He1, drop_0 in *. change (Line.bound_handlers entry) with (Line.bound_handlers (lines_ r).[line]) in *.
  change (lines_ (count_serviced r1 line)) with (lines_ r1) in *. rewrite He1 in *.
  replace (Line.count entry =? 0) with false in * by (cbn; specialize (Hpc Hp); lia). cbn [negb on_chip fst snd] in *.
  pose proof (unmask_law (chip_ r) line) as Hlaw. change (chip_ (count_serviced r1 line)) with (chip_ r) in *.
  destruct (chip_unmask (chip_ r) line) as [c' st]. cbn [fst snd] in *.
  assert (pending_count_ r1 = pending_count_ r - 1) as Hpc1.
  { cbn. apply wrap_256. pose proof (pending_range r Hwf). lia. }
  set (r2 := with_chip (count_serviced r1 line) c') in *.
  assert (masks_inv r -> masks_inv r2) as Hmi.
  { intros [Hcw Hm]. destruct (Hlaw Hcw ltac:(lia)) as (Hcw' & Hst & Hk). split; [done |].
    intros k Hkr. change (lines_ r2) with (lines_ r).[line := entry]. rewrite aget_aset by (rewrite ?wf_lines by done; lia).
    change (chip_ r2) with c'. destruct (Hk k ltac:(lia)) as [-> ->].
    destruct (Z.eqb_spec k line) as [-> | Hne].
    - intros _. destruct (Hm line Hl ltac:(by apply Hpc)) as [Hu _]. by rewrite Hu.
    - rewrite andb_false_r. by apply Hm. }
  destruct (negb (status_ok st)); eexists; (split; [reflexivity |]); split_and!; done.
Qed.

Lemma run_pending_ext n line ls ls' w :
  (forall k, line <= k -> ls'.[k] = ls.[k]) -> run_pending n line ls' w = run_pending n line ls w.
Proof.
  revert line w. induction n as [| n IH]; intros line w Heq; cbn; [done |].
  rewrite !Heq by lia. apply IH. intros. apply Heq. lia.
Qed.

Lemma run_pending_none n line ls w :
  (forall k, line <= k < line + Z.of_nat n -> Line.pending ls.[k] = false) -> run_pending n line ls w = w.
Proof.
  revert line w. induction n as [| n IH]; intros line w Hp; cbn; [done |].
  rewrite Hp by lia. apply IH. intros. apply Hp. lia.
Qed.

Lemma all_clear r k : wf r -> pending_count_ r = 0 -> 0 <= k < max_irq_lines -> Line.pending (lines_ r).[k] = false.
Proof.
  intros Hwf Hz Hk. rewrite wf_pending in Hz by done. apply count_pending_zero in Hz.
  rewrite Forall_lookup in Hz. apply (Hz (Z.to_nat k)), lookup_aget. by rewrite wf_lines.
Qed.

Lemma drain_from_spec n line k r w :
  wf r -> 0 <= line -> line + Z.of_nat n = max_irq_lines ->
  (forall j, 0 <= j < line -> Line.pending (lines_ r).[j] = false) ->
  exists r', drain_from call n line k (r, w) = ((r', run_pending n line (lines_ r) w), k + pending_count_ r) /\
    wf r' /\ pending_count_ r' = 0 /\ (masks_inv r -> masks_inv r') /\
    forall j, 0 <= j < max_irq_lines -> (lines_ r').[j] = Line.with_pending (lines_ r).[j] false.
Proof.
  assert (forall l : Line.t, Line.pending l = false -> l = Line.with_pending l false) as Hsame
    by (intros [] E; cbn in E; by subst).
  revert line k r w. induction n as [| n IH]; intros line k r w Hwf Hl Hn Hbefore; cbn [drain_from fst].
  { assert (pending_count_ r = 0) as Hz.
    { rewrite wf_pending by done. cbn in Hn.
      assert (Forall (fun l => Line.pending l = false) (lines_ r)) as Hall.
      { apply Forall_lookup. intros i x Hx. pose proof (lookup_lt_Some _ _ _ Hx). rewrite <- (aget_lookup (lines_ r) (Z.of_nat i) x); [| lia | by rewrite Nat2Z.id].
        apply Hbefore. pose proof (wf_lines r Hwf). unfold zlen in *. lia. }
      clear -Hall. induction Hall as [| l ls Hp _ IHl]; [done |].
      change (count_pending (l :: ls)) with (pend l + count_pending ls). unfold pend. rewrite Hp, IHl. done. }
    exists r. rewrite Hz, Z.add_0_r. split_and!; try done. intros j Hj. apply Hsame. by apply all_clear. }
  destruct (Z.eqb_spec (pending_count_ r) 0) as [Hz | Hnz].
  { exists r. rewrite Hz, Z.add_0_r, (run_pending_none (S n)); [| intros; apply all_clear; [done | done | lia]].
    split_and!; try done. intros j Hj. apply Hsame. by apply all_clear. }
  destruct (Line.pending (lines_ r).[line]) eqn:E; cbn [negb].
  - destruct (service_pure line r w Hwf ltac:(lia) E) as (r1 & -> & Hwf1 & El1 & Ep1 & Hm1).
    assert (forall j, 0 <= j -> (lines_ r1).[j] = if j =? line then Line.with_pending (lines_ r).[line] false else (lines_ r).[j]) as Hat.
    { intros j Hj. rewrite El1. apply aget_aset; [rewrite wf_lines by done; lia | done]. }
    destruct (IH (line + 1) (k + 1) r1 (run_line line (Line.bound_handlers (lines_ r).[line]) w)) as (r' & -> & Hwf' & Hz' & Hm' & Hl');
      [done | lia | lia | |].
    { intros j Hj. rewrite Hat by lia. case_match; [done |]. apply Hbefore. b2p. lia. }
    exists r'. split_and!; try done; [| tauto |].
    + cbn [run_pending]. rewrite E. f_equal; [f_equal | lia]. apply run_pending_ext. intros j Hj. rewrite Hat by lia. by cmp.
    + intros j Hj. rewrite Hl', Hat by lia. destruct (Z.eqb_spec j line) as [-> |]; done.
  - destruct (IH (line + 1) k r w) as (r' & -> & Hrest); [done | lia | lia | |].
    { intros j Hj. destruct (Z.eq_dec j line) as [-> |]; [done |]. apply Hbefore. lia. }
    exists r'. cbn [run_pending]. by rewrite E.
Qed.
End Drain.

Section Masks.
Context `{Arch} {Chip : Type} `{IrqChipLaws Chip}.
Import IrqRouter.
Implicit Types r : IrqRouter.t Chip.

(** A step that changes at most one line and the mask of that line. *)
Lemma masks_update r r' line l :
  masks_inv r -> wf r -> 0 <= line < max_irq_lines -> lines_ r' = (lines_ r).[line := l] -> chip_wf (chip_ r') ->
  (forall k, 0 <= k -> usable (chip_ r') k = usable (chip_ r) k) ->
  (forall k, 0 <= k -> k <> line -> masked (chip_ r') k = masked (chip_ r) k) ->
  (Line.count l <> 0 -> usable (chip_ r) line = true /\ (Line.pending l = false -> masked (chip_ r') line = false)) ->
  masks_inv r'.
Proof.
  intros [Hcw Hm] Hwf Hl El Hcw' Hus Hmk Hline. split; [done |]. intros k Hk.
  rewrite El, aget_aset, Hus by (rewrite ?wf_lines by done; lia).
  destruct (Z.eqb_spec k line) as [-> | Hne]; [done |]. rewrite Hmk by lia. by apply Hm.
Qed.

(** A step that keeps the lines and the masks of all bound lines. *)
Lemma masks_same r r' :
  masks_inv r -> lines_ r' = lines_ r -> chip_wf (chip_ r') ->
  (forall k, 0 <= k -> usable (chip_ r') k = usable (chip_ r) k) ->
  (forall k, 0 <= k < max_irq_lines -> Line.count (lines_ r).[k] <> 0 -> masked (chip_ r') k = masked (chip_ r) k) ->
  masks_inv r'.
Proof.
  intros [Hcw Hm] El Hcw' Hus Hmk. split; [done |]. intros k Hk. rewrite El, Hus by lia. intros Hc.
  rewrite Hmk by done. by apply Hm.
Qed.

Lemma bind_masks r line tr h c : wf r -> masks_inv r -> 0 <= line -> masks_inv (fst (bind r line tr h c)).
Proof.
  intros Hwf Hm Hl. unfold bind. destruct (_ || _) eqn:E; [done |]. b2p.
  set (entry := (lines_ r).[line]). destruct (find_handler _ _ _); [done |].
  destruct (_ =? max_line_handlers); [done |]. destruct (_ && _); [done |].
  pose proof Hm as [Hcw Hmk]. destruct (line_at r line Hwf ltac:(lia)) as (_ & Hcnt & Hpc). fold entry in Hcnt, Hpc.
  destruct (Z.eqb_spec (Line.count entry) 0) as [Ez | Ez].
  - unfold on_chip. pose proof (configure_law (chip_ r) line tr Hcw Hl) as Hcf.
    destruct (chip_configure (chip_ r) line tr) as [c1 st]. destruct Hcf as (Hcw1 & Hu & Hk1). cbn [fst snd].
    assert (forall k, 0 <= k -> usable c1 k = usable (chip_ r) k /\ masked c1 k = masked (chip_ r) k) as Hk1' by done.
    destruct (status_ok st) eqn:Est; cbn [negb].
    2: { apply (masks_same r); try done; cbn; intros; apply Hk1; lia. }
    cbn [Line.count]. rewrite Ez. change (0 + 1 =? 1) with true. cbn [with_line chip_ with_chip].
    pose proof (unmask_law c1 line Hcw1 Hl) as Hun. destruct (chip_unmask c1 line) as [c2 st2].
    destruct Hun as (Hcw2 & Hst2 & Hk2). cbn [fst snd]. specialize (Hu eq_refl).
    rewrite (proj1 (Hk1 line Hl)), Hu in Hst2, Hk2. rewrite Hst2. cbn [negb fst].
    eapply (masks_update r _ line); [done | done | lia | done | done | | |]; cbn.
    + intros k Hk. destruct (Hk2 k Hk) as [-> _]. by apply Hk1.
    + intros k Hk Hne. destruct (Hk2 k Hk) as [_ ->]. cmp. by apply Hk1.
    + intros _. split; [done |]. intros _. destruct (Hk2 line Hl) as [_ ->]. by rewrite Z.eqb_refl.
  - cbn [negb status_ok Line.count]. replace (Line.count entry + 1 =? 1) with false by lia.
    eapply (masks_update r _ line); [done | done | lia | done | done | done | done |]; cbn.
    intros _. apply Hmk; [lia | done].
Qed.

Lemma unbind_masks r line h c : wf r -> masks_inv r -> 0 <= line -> masks_inv (fst (unbind r line h c)).
Proof.
  intros Hwf Hm Hl. unfold unbind. destruct (Z.leb_spec max_irq_lines line); [done |].
  set (entry := (lines_ r).[line]). assert (line_wf entry) as Hlw by (by apply line_at).
  destruct (find_handler _ _ _) as [i |] eqn:Ef; [| done]. pose proof Hm as [Hcw Hmk].
  apply find_handler_range in Ef. rewrite bound_handlers_length in Ef by done.
  destruct (Z.eqb_spec (Line.count entry - 1) 0) as [E | E]; cbn [negb].
  - cbn [Line.pending]. set (r1 := if Line.pending entry then _ else _).
    assert (chip_ r1 = chip_ r /\ exists l, lines_ r1 = (lines_ r).[line := l]) as [Ec [l El]].
    { unfold r1. by destruct (Line.pending entry); split; try done; eexists. }
    cbn [on_chip fst chip_ with_line]. rewrite Ec. pose proof (mask_law (chip_ r) line Hcw Hl) as Hlaw.
    destruct (chip_mask (chip_ r) line) as [c' st]. destruct Hlaw as (Hcw' & _ & Hk). cbn [fst].
    apply (masks_update r _ line Line.new); [done | done | lia | | done | intros; by apply Hk | |].
    + cbn. rewrite El. unfold aset. by rewrite list_insert_insert_eq.
    + intros k Hk0 Hne. cbn. destruct (Hk k Hk0) as [_ ->]. cmp. by rewrite andb_false_r.
    + cbn. lia.
  - cbn [fst]. eapply (masks_update r _ line); [done | done | lia | done | done | done | done |]; cbn.
    intros _. apply Hmk; [lia |]. fold entry. lia.
Qed.

(** The chip after the acknowledge and mask of a top half. *)
Lemma ack_mask_chip r line : chip_wf (chip_ r) -> 0 <= line -> usable (chip_ r) line = true ->
  let '(c1, ack) := chip_acknowledge (chip_ r) line in
  let c2 := if status_ok ack then fst (chip_mask c1 line) else c1 in
  chip_wf c2 /\ (forall k, 0 <= k -> usable c2 k = usable (chip_ r) k) /\
  (forall k, 0 <= k -> k <> line -> masked c2 k = masked (chip_ r) k) /\
  (status_ok ack = true -> masked c2 line = true).
Proof.
  intros Hcw Hl Hu. pose proof (acknowledge_law (chip_ r) line Hcw Hl) as Hack.
  destruct (chip_acknowledge (chip_ r) line) as [c1 ack]. destruct Hack as (Hcw1 & Hk1).
  destruct (status_ok ack); [| split_and!; try done; intros; by apply Hk1].
  pose proof (mask_law c1 line Hcw1 Hl) as Hlaw. destruct (chip_mask c1 line) as [c2 st2].
  destruct Hlaw as (Hcw2 & _ & Hk2). cbn [fst]. rewrite (proj1 (Hk1 line Hl)), Hu in Hk2. split_and!; try done.
  - intros k Hk. destruct (Hk2 k Hk) as [-> _]. by apply Hk1.
  - intros k Hk Hne. destruct (Hk2 k Hk) as [_ ->]. cmp. by apply Hk1.
  - intros _. destruct (Hk2 line Hl) as [_ ->]. by rewrite Z.eqb_refl.
Qed.

(** The lines and the chip a top half of a bound line leaves. *)
Lemma top_half_bound r line :
  wf r -> 0 <= line < max_irq_lines -> Line.count (lines_ r).[line] <> 0 ->
  lines_ (top_half r line) = (lines_ r).[line := Line.with_pending (lines_ r).[line] true] /\
  chip_ (top_half r line) =
    (let '(c1, ack) := chip_acknowledge (chip_ r) line in
     let c2 := if status_ok ack then fst (chip_mask c1 line) else c1 in
     fst (chip_end_of_interrupt c2 line)).
Proof.
  intros Hwf Hl Hc. unfold top_half. replace (max_irq_lines <=? line) with false by lia.
  replace (Line.count (lines_ r).[line] =? 0) with false by lia. cbn [orb on_chip fst snd].
  destruct (chip_acknowledge (chip_ r) line) as [c1 ack]. cbn [fst snd].
  assert (Line.pending (lines_ r).[line] = true ->
    lines_ r = (lines_ r).[line := Line.with_pending (lines_ r).[line] true]) as Hid.
  { intros Hp. unfold aset. rewrite list_insert_id; [done |].
    rewrite lookup_aget by (by rewrite wf_lines). destruct (lines_ r).[line]; cbn in *. by subst. }
  destruct (status_ok ack) eqn:Ea; cbn [chip_ with_chip on_chip fst snd].
  - clear Ea. destruct (chip_mask c1 line) as [c2 st2]. cbn [fst snd].
    destruct (status_ok st2); cbn; destruct (Line.pending (lines_ r).[line]) eqn:Ep; cbn;
      destruct (status_ok _); cbn; split; try done; by apply Hid.
  - rewrite Ea. clear Ea. cbn. destruct (Line.pending (lines_ r).[line]) eqn:Ep; cbn;
      destruct (status_ok _); cbn; split; try done; by apply Hid.
Qed.

Lemma top_half_masks r line : wf r -> masks_inv r -> 0 <= line ->
  masks_inv (top_half r line) /\
  (bound r line = true -> Line.pending (lines_ (top_half r line)).[line] = true /\
     (status_ok (snd (chip_acknowledge (chip_ r) line)) = true -> masked (chip_ (top_half r line)) line = true)).
Proof.
  intros Hwf Hm Hl. pose proof Hm as [Hcw Hmk]. destruct (bound r line) eqn:Eb; unfold bound in Eb; b2p.
  - destruct (top_half_bound r line Hwf ltac:(lia) ltac:(lia)) as [El Ec].
    destruct (Hmk line ltac:(lia) ltac:(done)) as [Hu _].
    pose proof (ack_mask_chip r line Hcw Hl Hu) as Hack. destruct (chip_acknowledge (chip_ r) line) as [c1 ack].
    cbn zeta in Ec, Hack. set (c2 := if status_ok ack then _ else _) in *. destruct Hack as (Hcw2 & Hus & Hmo & Hml).
    pose proof (end_of_interrupt_law c2 line Hcw2 Hl) as Hei. destruct (chip_end_of_interrupt c2 line) as [c3 st3].
    destruct Hei as (Hcw3 & Hk3). cbn [fst snd] in *. split.
    + apply (masks_update r _ line (Line.with_pending (lines_ r).[line] true)); rewrite ?Ec; [done | done | lia | done | done | | |].
      * intros k Hk. destruct (Hk3 k Hk) as [-> _]. by apply Hus.
      * intros k Hk Hne. destruct (Hk3 k Hk) as [_ ->]. by apply Hmo.
      * done.
    + intros _. split; [by rewrite El, aget_aset_eq by (rewrite wf_lines by done; lia) |].
      intros Ha. rewrite Ec. destruct (Hk3 line Hl) as [_ ->]. by apply Hml.
  - split; [| done]. unfold top_half. destruct (_ || _) eqn:E.
    2: { b2p. exfalso. destruct Eb; b2p; lia. }
    destruct (line <? chip_line_count _); [| by apply (masks_same r)]. cbn [on_chip fst chip_ with_chip count_spurious].
    pose proof (mask_law (chip_ r) line Hcw Hl) as Hlaw. destruct (chip_mask (chip_ r) line) as [c1 st1].
    destruct Hlaw as (Hcw1 & _ & Hk1). cbn [fst]. pose proof (end_of_interrupt_law c1 line Hcw1 Hl) as Hlaw2.
    destruct (chip_end_of_interrupt c1 line) as [c2 st2]. destruct Hlaw2 as (Hcw2 & Hk2). cbn [fst].
    apply (masks_same r); try done; cbn.
    + intros k Hk. destruct (Hk2 k Hk) as [-> _]. by apply Hk1.
    + intros k Hk Hc. destruct (Hk2 k ltac:(lia)) as [_ ->], (Hk1 k ltac:(lia)) as [_ ->].
      destruct (Z.eqb_spec k line) as [-> |]; [| by rewrite andb_false_r]. destruct Eb; b2p; lia.
Qed.
End Masks.

(** ** Claims *)
Section Claims.
Context `{Arch} {Chip : Type} `{IrqChipLaws Chip} {World : Type}.
Import IrqRouter.
Context (call : Z -> Z -> Z -> IrqRouter.t Chip * World -> IrqRouter.t Chip * World).
Context (act : Z -> Z -> Z -> World -> World).

Inductive irq_op :=
| IBind (line : Z) (trigger : IrqTrigger) (handler context : Z)
| IUnbind (line handler context : Z)
| ITopHalf (line : Z)
| IDrain.

Definition irq_exec (s : IrqRouter.t Chip * World) (o : irq_op) : IrqRouter.t Chip * World :=
  match o with
  | IBind l t h c => (fst (bind (fst s) l t h c), snd s)
  | IUnbind l h c => (fst (unbind (fst s) l h c), snd s)
  | ITopHalf l => (top_half (fst s) l, snd s)
  | IDrain => fst (drain call s)
  end.

Definition irq_op_ok (o : irq_op) : Prop :=
  match o with IBind l _ _ _ | IUnbind l _ _ | ITopHalf l => 0 <= l | IDrain => True end.

Lemma wf_new_router (chip : Chip) : wf (IrqRouter.new chip).
Proof. constructor; [done | by apply Forall_replicate | symmetry; by apply zsum_replicate | done | done]. Qed.

Lemma masks_new_router (chip : Chip) : chip_wf chip -> masks_inv (IrqRouter.new chip).
Proof.
  intros Hc. split; [done |]. intros line Hl Hn. exfalso. apply Hn. cbn.
  rewrite (aget_lookup _ _ Line.new); [done | lia |]. apply lookup_replicate. unfold max_irq_lines in *. split; [done | lia].
Qed.

(** Every history of router calls keeps both invariants. *)
Lemma irq_exec_ok s o :
  (forall h c l r w, call h c l (r, w) = (r, act h c l w)) ->
  wf (fst s) /\ masks_inv (fst s) -> irq_op_ok o -> wf (fst (irq_exec s o)) /\ masks_inv (fst (irq_exec s o)).
Proof.
  destruct s as [r w0]. intros Hcall [Hwf Hm] Ho. destruct o; cbn in Ho |- *.
  - split; [by apply bind_wf | by apply bind_masks].
  - split; [by apply unbind_wf | by apply unbind_masks].
  - split; [by apply top_half_wf | by apply top_half_masks].
  - unfold drain. destruct (drain_from_spec call act Hcall (Z.to_nat max_irq_lines) 0 0 r w0 Hwf ltac:(done) ltac:(done) ltac:(lia))
      as (r' & -> & Hwf' & _ & Hm' & _). cbn. auto.
Qed.

Lemma irq_history_ok (chip : Chip) w ops :
  (forall h c l r w, call h c l (r, w) = (r, act h c l w)) -> chip_wf chip -> Forall irq_op_ok ops ->
  wf (fst (fold_left irq_exec ops (IrqRouter.new chip, w))) /\
  masks_inv (fst (fold_left irq_exec ops (IrqRouter.new chip, w))).
Proof.
  intros Hcall Hchip Hops.
  assert (wf (fst (IrqRouter.new chip, w)) /\ masks_inv (fst (IrqRouter.new chip, w))) as Hinit
    by (split; [apply wf_new_router | by apply masks_new_router]).
  revert Hinit. generalize (IrqRouter.new chip, w). induction Hops as [| o ops Ho _ IH]; intros s Hs; [done |].
  cbn. apply IH. by apply irq_exec_ok.
Qed.

(** drain() runs, in ascending line order, the handlers of every pending line
    exactly once and in bind order, touches no other line's handlers, returns
    the number of pending lines, and leaves no line pending. *)
Theorem drain_runs_pending_handlers (r : IrqRouter.t Chip) w :
  (forall h c l r w, call h c l (r, w) = (r, act h c l w)) -> wf r ->
  let '(s, n) := drain call (r, w) in
  snd s = run_pending act (Z.to_nat max_irq_lines) 0 (lines_ r) w /\
  n = pending_count_ r /\ n = count_pending (lines_ r) /\ pending (fst s) = false /\ wf (fst s) /\
  forall line, 0 <= line < max_irq_lines -> (lines_ (fst s)).[line] = Line.with_pending (lines_ r).[line] false.
Proof.
  intros Hcall Hwf. unfold drain.
  destruct (drain_from_spec call act Hcall (Z.to_nat max_irq_lines) 0 0 r w Hwf ltac:(done) ltac:(done) ltac:(lia))
    as (r' & -> & Hwf' & Hz & _ & Hl).
  rewrite Z.add_0_l. split_and!; try done; [by apply wf_pending |]. unfold pending. cbn [fst]. by rewrite Hz.
Qed.

(** C31: in every history of bind, unbind, top-half and drain calls on a
    controller that meets the chip laws, with handlers that do not call the
    router themselves, the pending count is the number of
    pending lines and a bound line is left open at the controller unless it is
    pending; hence after a drain every bound line is open: no interrupt source
    is lost. *)
Theorem bound_lines_reopen (chip : Chip) w ops :
  (forall h c l r w, call h c l (r, w) = (r, act h c l w)) -> chip_wf chip -> Forall irq_op_ok ops ->
  let s := fold_left irq_exec ops (IrqRouter.new chip, w) in
  wf (fst s) /\ masks_inv (fst s) /\
  forall line, 0 <= line < max_irq_lines -> bound (fst (irq_exec s IDrain)) line = true ->
    masked (chip_ (fst (irq_exec s IDrain))) line = false.
Proof.
  intros Hcall Hchip Hops. destruct (irq_history_ok chip w ops Hcall Hchip Hops) as [Hwf Hm].
  cbn zeta. split_and!; [done | done |]. destruct (fold_left irq_exec ops (IrqRouter.new chip, w)) as [r w'].
  cbn [irq_exec fst] in *. unfold drain.
  destruct (drain_from_spec call act Hcall (Z.to_nat max_irq_lines) 0 0 r w' Hwf ltac:(done) ltac:(done) ltac:(lia))
    as (r' & -> & Hwf' & Hz & Hm' & _). cbn [fst]. destruct (Hm' Hm) as [_ Hmk]. intros line Hl Hb.
  unfold bound in Hb. b2p. apply Hmk; [done | lia | by apply all_clear].
Qed.

(** A top half of a bound line leaves it pending, counts it once however
    often it fires before the drain, and, when the controller acknowledged,
    leaves it masked so that a level line cannot fire again before its
    handlers ran. *)
Theorem top_half_masks_line (r : IrqRouter.t Chip) line :
  wf r -> masks_inv r -> 0 <= line -> bound r line = true ->
  let r' := top_half r line in
  wf r' /\ masks_inv r' /\ Line.pending (lines_ r').[line] = true /\
  pending_count_ r' = pending_count_ r + (if Line.pending (lines_ r).[line] then 0 else 1) /\
  (status_ok (snd (chip_acknowledge (chip_ r) line)) = true -> masked (chip_ r') line = true).
Proof.
  intros Hwf Hm Hl Hb r'. destruct (top_half_masks r line Hwf Hm Hl) as [Hm' Ht]. destruct (Ht Hb) as [Hp Ha].
  pose proof (top_half_wf r line Hwf Hl) as Hwf'. split_and!; try done.
  unfold bound in Hb. b2p. destruct (top_half_bound r line Hwf ltac:(lia) ltac:(done)) as [El _].
  rewrite !wf_pending by done. unfold r'. rewrite El, count_pending_aset by (rewrite wf_lines by done; lia).
  unfold pend. cbn. case_match; lia.
Qed.
End Claims.

(** Handlers may call back into the router (unbind themselves, bind
    others): as long as they use its operations, so keep its invariant, drain()
    keeps it too, and the handler loop of a line ends by its own condition: the
    bound on its iterations is never what stops it. *)
Theorem drain_reentrant_wf `{Arch} {Chip : Type} `{IrqChip Chip} {World : Type}
    (call : Z -> Z -> Z -> IrqRouter.t Chip * World -> IrqRouter.t Chip * World) s line extra :
  (forall h c l s, IrqRouter.wf (fst s) -> IrqRouter.wf (fst (call h c l s))) ->
  IrqRouter.wf (fst s) -> 0 <= line < max_irq_lines ->
  IrqRouter.wf (fst (fst (IrqRouter.drain call s))) /\
  IrqRouter.run_handlers call (Z.to_nat max_line_handlers + extra) line 0 s =
  IrqRouter.run_handlers call (Z.to_nat max_line_handlers) line 0 s.
Proof.
  intros Hcall Hwf Hl. split.
  - unfold IrqRouter.drain. generalize (eq_refl (Z.to_nat max_irq_lines)). generalize (Z.to_nat max_irq_lines) at 1 3.
    intros n Hn. apply drain_from_wf; [done | done | done | rewrite Hn; done].
  - by apply run_handlers_fuel.
Qed.

(** ** Witnesses *)
Section RouterWitnesses.
#[local] Existing Instance arch64.
Import IrqRouter.

(** Handlers that record their calls. *)
Definition record_act (h c l : Z) (w : list (Z * Z * Z)) : list (Z * Z * Z) := w ++ [(h, c, l)].
Definition record_call (h c l : Z) (s : IrqRouter.t ModelIrqChip.t * list (Z * Z * Z)) :
    IrqRouter.t ModelIrqChip.t * list (Z * Z * Z) := (fst s, record_act h c l (snd s)).

Definition sample_chip : ModelIrqChip.t := fst (ModelIrqChip.initialize ModelIrqChip.new).
Definition sample_ops : list irq_op :=
  [IBind 5 level 100 1; IBind 5 level 200 2; IBind 7 edge 300 3; ITopHalf 7; ITopHalf 5; ITopHalf 5].
Definition sample_router : IrqRouter.t ModelIrqChip.t :=
  fst (fold_left (irq_exec record_call) sample_ops (IrqRouter.new sample_chip, [])).

Lemma irq_mask_witness :
  wf sample_router /\ masks_inv sample_router /\
  masked (chip_ (fst (irq_exec record_call (sample_router, []) IDrain))) 5 = false.
Proof.
  destruct (bound_lines_reopen record_call record_act sample_chip [] sample_ops) as (Hwf & Hm & Ho).
  - done.
  - by concrete.
  - by concrete.
  - split_and!; [exact Hwf | exact Hm | apply (Ho 5); by concrete].
Defined.

Lemma sample_router_ok : wf sample_router /\ masks_inv sample_router.
Proof.
  exact (irq_history_ok record_call record_act sample_chip [] sample_ops ltac:(done) ltac:(by concrete) ltac:(by concrete)).
Qed.

Lemma irq_drain_witness :
  let '(s, n) := drain record_call (sample_router, []) in
  snd s = [(100, 1, 5); (200, 2, 5); (300, 3, 7)] /\ n = 2 /\ pending (fst s) = false.
Proof.
  pose proof (drain_runs_pending_handlers record_call record_act sample_router [] ltac:(done) (proj1 sample_router_ok)) as Hd.
  destruct (drain record_call (sample_router, [])) as [s n]. destruct Hd as (Hs & Hn & _ & Hp & _).
  split_and!; [rewrite Hs; vm_compute; reflexivity | rewrite Hn; vm_compute; reflexivity | exact Hp].
Defined.

Lemma irq_top_half_witness :
  bound sample_router 5 = true /\ masked (chip_ (top_half sample_router 5)) 5 = true /\
  pending_count_ (top_half sample_router 5) = pending_count_ sample_router.
Proof.
  destruct sample_router_ok as [Hwf Hm].
  destruct (top_half_masks_line sample_router 5 Hwf Hm) as (_ & _ & _ & Hc & Hk); [lia | vm_compute; reflexivity |].
  split_and!; [vm_compute; reflexivity | apply Hk; vm_compute; reflexivity |].
  rewrite Hc. vm_compute. reflexivity.
Defined.

Lemma irq_reentry_witness :
  wf (fst (fst (drain record_call (sample_router, [])))).
Proof.
  apply (drain_reentrant_wf record_call (sample_router, []) 5 0); [done | exact (proj1 sample_router_ok) | by concrete].
Defined.
End RouterWitnesses.
