(* ===== verification/ObjectPool.v ===== *)
(** * Typed object pools (include/ok/memory/object_pool.hpp)

    [ObjectPool<T, P, MaximumPages>]: objects in slots of pages leased from a
    provider, named by generation-checked handles.  The provider concept is a
    class of operations; nothing is assumed of what it returns, since the pool
    checks each lease itself. *)

From S2P Require Import Prelude.

(** The [ObjectPageProvider] concept: [bytes] of a lease is an address and a length. *)
Class ObjectPageProvider (P Lease : Type) := {
  page_size : Z;
  lease_default : Lease;
  lease_data : Lease -> Z;
  lease_size : Lease -> Z;
  allocate_kernel_page : P -> P * result Lease;
  release_kernel_page : P -> Lease -> P * Lease * Status
}.

Module ObjectHandle.
Record t := mk { pool : Z; page_slot : Z; object_slot : Z; generation : Z }.
End ObjectHandle.

Module PageState.
Inductive t := empty | ready | quarantined.
#[global] Instance eq_dec : EqDecision t.
Proof. solve_decision. Defined.
Definition eqb (a b : t) : bool := bool_decide (a = b).
End PageState.

Module ObjectPool.
Section Defs.
Context `{Arch} {P Lease T : Type} `{ObjectPageProvider P Lease}.
(** sizeof(T) and the page limit of the instantiation. *)
Context (sizeof_T MaximumPages : Z).

Definition slots_per_page : Z := page_size / sizeof_T.
Definition capacity : Z := MaximumPages * slots_per_page.

Record Page := mk_page {
  lease : Lease;
  generations : list Z;    (* std::array<u64, slots_per_page> *)
  live : Z;
  state : PageState.t
}.
Definition empty_page : Page :=
  mk_page lease_default (replicate (Z.to_nat slots_per_page) 0) 0 PageState.empty.
#[global] Instance page_inhabited : Inhabited Page := populate (mk_page lease_default [] 0 PageState.empty).

(** [heap] holds the constructed objects by address. *)
Record t := mk {
  this : Z;
  provider_ : P;
  limit_ : Z;
  pages_ : list Page;
  live_ : Z;
  peak_ : Z;
  generation_ : Z;
  destructions_ : Z;
  mutating_ : bool;
  fault_ : Status;
  heap : gmap Z T
}.
Definition new (this : Z) (provider : P) (max_objects : Z) : t :=
  mk this provider max_objects (replicate (Z.to_nat MaximumPages) empty_page) 0 0 0 0 false StatusCode.ok ∅.

Definition with_provider (p : t) (x : P) : t :=
  mk (this p) x (limit_ p) (pages_ p) (live_ p) (peak_ p) (generation_ p) (destructions_ p) (mutating_ p) (fault_ p) (heap p).
Definition with_page (p : t) (i : Z) (x : Page) : t :=
  mk (this p) (provider_ p) (limit_ p) (pages_ p).[i := x] (live_ p) (peak_ p) (generation_ p) (destructions_ p) (mutating_ p) (fault_ p) (heap p).
Definition with_fault (p : t) (s : Status) : t :=
  mk (this p) (provider_ p) (limit_ p) (pages_ p) (live_ p) (peak_ p) (generation_ p) (destructions_ p) (mutating_ p) s (heap p).

(** The first index of [n] pages from [i] on whose page satisfies [f]. *)
Fixpoint find_page (f : Page -> bool) (n : nat) (pages : list Page) (i : Z) : option Z :=
  match n with
  | O => None
  | S n' => if f pages.[i] then Some i else find_page f n' pages (i + 1)
  end.
Definition has_room (x : Page) : bool := PageState.eqb (state x) PageState.ready && (live x <? slots_per_page).
Definition is_empty (x : Page) : bool := PageState.eqb (state x) PageState.empty.

(** Two byte ranges meet; difference arithmetic avoids a wrapping end. *)
Definition ranges_meet (address size start other_size : Z) : bool :=
  if start <=? address then address - start <? other_size else start - address <? size.

(** The overlap loop over all other pages in use. *)
Definition overlaps (pages : list Page) (page address size : Z) : bool :=
  existsb (fun i => negb (i =? page) && negb (is_empty pages.[i]) &&
                    ranges_meet address size (lease_data (lease pages.[i])) (lease_size (lease pages.[i])))
          (indices MaximumPages).

Definition storage_invalid (address size : Z) : bool :=
  (address =? 0) || negb (size =? page_size) || negb (address mod page_size =? 0)
  || (usize_max - address <? usize_wrap (size - 1)).

(** The backing-page branch of create(): a page taken from the provider, checked,
    and made ready; the page index on success. *)
Definition add_page (p : t) : t * result Z :=
  match find_page is_empty (Z.to_nat MaximumPages) (pages_ p) 0 with
  | None => (p, Err StatusCode.no_memory)
  | Some page =>
      let '(provider, r) := allocate_kernel_page (provider_ p) in
      let p := with_provider p provider in
      match r with
      | Err e => (p, Err e)
      | Ok l =>
          let old := (pages_ p).[page] in
          let p := with_page p page (mk_page l (generations old) (live old) PageState.quarantined) in
          let address := lease_data l in
          let size := lease_size l in
          if overlaps (pages_ p) page address size
          then (with_fault p StatusCode.fault, Err StatusCode.fault)
          else if storage_invalid address size then
            let p := with_fault p StatusCode.fault in
            let '(provider, l', released) := release_kernel_page (provider_ p) l in
            let p := with_provider p provider in
            let record := (pages_ p).[page] in
            let p := with_page p page (if status_ok released then empty_page
                                       else mk_page l' (generations record) (live record) (state record)) in
            (p, Err StatusCode.fault)
          else
            let record := (pages_ p).[page] in
            (with_page p page (mk_page l (generations record) (live record) PageState.ready), Ok page)
      end
  end.

(** The slot loop of create(): the first free slot. *)
Fixpoint find_slot (n : nat) (gens : list Z) (slot : Z) : option Z :=
  match n with
  | O => None
  | S n' => if gens.[slot] =? 0 then Some slot else find_slot n' gens (slot + 1)
  end.

Definition slot_address (x : Page) (slot : Z) : Z := lease_data (lease x) + slot * sizeof_T.

(** Occupy [slot] of [page] with the constructed object [v]. *)
Definition occupy (p : t) (page slot : Z) (v : T) : t * ObjectHandle.t :=
  let record := (pages_ p).[page] in
  let generation := generation_ p + 1 in
  let record' := mk_page (lease record) (generations record).[slot := generation] (live record + 1) (state record) in
  let live' := live_ p + 1 in
  (mk (this p) (provider_ p) (limit_ p) (pages_ p).[page := record'] live'
      (if peak_ p <? live' then live' else peak_ p) generation (destructions_ p) (mutating_ p) (fault_ p)
      (<[slot_address record slot := v]> (heap p)),
   ObjectHandle.mk (this p) page slot generation).

(** create(): [v] is the value T(args...) constructs. *)
Definition create (p : t) (v : T) : t * result ObjectHandle.t :=
  if mutating_ p then (p, Err StatusCode.busy)
  else if negb (status_ok (fault_ p)) then (p, Err (fault_ p))
  else if (limit_ p =? 0) || (capacity <? limit_ p) then (p, Err StatusCode.invalid_argument)
  else if limit_ p <=? live_ p then (p, Err StatusCode.no_memory)
  else if generation_ p =? u64_max then (p, Err StatusCode.overflow)
  else
    let '(p, page) :=
      match find_page has_room (Z.to_nat MaximumPages) (pages_ p) 0 with
      | Some page => (p, Ok page)
      | None => add_page p
      end in
    match page with
    | Err e => (p, Err e)
    | Ok page =>
        match find_slot (Z.to_nat slots_per_page) (generations (pages_ p).[page]) 0 with
        | Some slot => let '(p, h) := occupy p page slot v in (p, Ok h)
        | None => (with_fault p StatusCode.fault, Err StatusCode.fault)
        end
    end.

Definition validate (p : t) (handle : ObjectHandle.t) : Status :=
  if mutating_ p then StatusCode.busy
  else if negb (ObjectHandle.pool handle =? this p) || (MaximumPages <=? ObjectHandle.page_slot handle)
          || (slots_per_page <=? ObjectHandle.object_slot handle) || (ObjectHandle.generation handle =? 0)
  then StatusCode.invalid_argument
  else
    let record := (pages_ p).[ObjectHandle.page_slot handle] in
    if negb (PageState.eqb (state record) PageState.ready)
       || negb ((generations record).[ObjectHandle.object_slot handle] =? ObjectHandle.generation handle)
    then StatusCode.not_found
    else StatusCode.ok.

(** resolve(): the address of the object. *)
Definition resolve (p : t) (handle : ObjectHandle.t) : result Z :=
  let status := validate p handle in
  if negb (status_ok status) then Err status
  else Ok (slot_address (pages_ p).[ObjectHandle.page_slot handle] (ObjectHandle.object_slot handle)).

Definition destroy (p : t) (handle : ObjectHandle.t) : t * Status :=
  let status := validate p handle in
  if negb (status_ok status) then (p, status)
  else
    let page := ObjectHandle.page_slot handle in
    let slot := ObjectHandle.object_slot handle in
    let record := (pages_ p).[page] in
    let record' := mk_page (lease record) (generations record).[slot := 0] (live record - 1) (state record) in
    (mk (this p) (provider_ p) (limit_ p) (pages_ p).[page := record'] (live_ p - 1) (peak_ p)
        (generation_ p) (u64_wrap (destructions_ p + 1)) (mutating_ p) (fault_ p)
        (delete (slot_address record slot) (heap p)), StatusCode.ok).

(** The loop of trim_empty_pages() over the pages from [i] on. *)
Fixpoint trim_from (n : nat) (i : Z) (p : t) : t :=
  match n with
  | O => p
  | S n' =>
      let x := (pages_ p).[i] in
      if PageState.eqb (state x) PageState.ready && (live x =? 0) then
        let '(provider, l', status) := release_kernel_page (provider_ p) (lease x) in
        let p := with_provider p provider in
        let p := if negb (status_ok status)
                 then let p := with_page p i (mk_page l' (generations x) (live x) PageState.quarantined) in
                      if status_ok (fault_ p) then with_fault p status else p
                 else with_page p i empty_page in
        trim_from n' (i + 1) p
      else trim_from n' (i + 1) p
  end.

Definition trim_empty_pages (p : t) : t * Status :=
  if mutating_ p then (p, StatusCode.busy)
  else let p := trim_from (Z.to_nat MaximumPages) 0 p in (p, fault_ p).

Definition ownership_status (p : t) : Status := if mutating_ p then StatusCode.busy else fault_ p.

(** ** Invariant *)
Definition occupied_unit (g : Z) : Z := if g =? 0 then 0 else 1.
Definition occupied (gens : list Z) : Z := zsum occupied_unit gens.

Definition lease_ok (l : Lease) : Prop :=
  0 < lease_data l /\ lease_size l = page_size /\ lease_data l mod page_size = 0 /\
  lease_data l + page_size <= usize_max + 1.
Definition apart (a b : Lease) : Prop :=
  lease_data a + page_size <= lease_data b \/ lease_data b + page_size <= lease_data a.

Definition page_wf (x : Page) : Prop :=
  zlen (generations x) = slots_per_page /\ live x = occupied (generations x) /\
  (state x = PageState.ready -> lease_ok (lease x)) /\ (state x <> PageState.ready -> live x = 0).

Definition generation_of (p : t) (page slot : Z) : Z := (generations (pages_ p).[page]).[slot].

Record wf (p : t) : Prop := {
  wf_pages : zlen (pages_ p) = MaximumPages;
  wf_page : forall i, 0 <= i < MaximumPages -> page_wf (pages_ p).[i];
  wf_apart : forall i j, 0 <= i < MaximumPages -> 0 <= j < MaximumPages -> i <> j ->
    state (pages_ p).[i] = PageState.ready -> state (pages_ p).[j] = PageState.ready ->
    apart (lease (pages_ p).[i]) (lease (pages_ p).[j]);
  wf_live : live_ p = zsum live (pages_ p) /\ live_ p <= peak_ p;
  wf_generation : 0 <= generation_ p <= u64_max;
  wf_issued : forall i s, 0 <= i < MaximumPages -> 0 <= s < slots_per_page -> 0 <= generation_of p i s <= generation_ p;
  wf_distinct : forall i s i' s', 0 <= i < MaximumPages -> 0 <= s < slots_per_page ->
    0 <= i' < MaximumPages -> 0 <= s' < slots_per_page ->
    generation_of p i s <> 0 -> generation_of p i s = generation_of p i' s' -> i = i' /\ s = s';
  wf_idle : mutating_ p = false
}.
End Defs.
End ObjectPool.

(** ** Theorems *)
Section PoolFacts.
Context `{Arch} {P Lease T : Type} `{ObjectPageProvider P Lease}.
Context (sizeof_T MaximumPages : Z).
Import ObjectPool.
Abbreviation pool := (@ObjectPool.t P Lease T).
Abbreviation slots := (slots_per_page sizeof_T).
Abbreviation wf := (ObjectPool.wf sizeof_T MaximumPages (T := T)).
Implicit Types p : pool.

Hypothesis object_fits : 0 < sizeof_T <= page_size.
Hypothesis page_fits : page_size <= usize_max.
Hypothesis pages_positive : 0 < MaximumPages.

Lemma slots_positive : 0 < slots.
Proof. unfold slots_per_page. apply Z.div_str_pos. lia. Qed.

Lemma occupied_range g : 0 <= occupied_unit g <= 1.
Proof. unfold occupied_unit. case_match; lia. Qed.

Lemma empty_page_wf : page_wf sizeof_T (empty_page sizeof_T).
Proof.
  pose proof slots_positive. split_and!; try done.
  - cbn. rewrite zlen_replicate. lia.
  - cbn. symmetry. by apply zsum_replicate.
Qed.

Lemma find_page_spec f n (pages : list Page) i :
  match find_page f n pages i with
  | Some k => i <= k < i + Z.of_nat n /\ f pages.[k] = true
  | None => forall k, i <= k < i + Z.of_nat n -> f pages.[k] = false
  end.
Proof.
  revert i. induction n as [| n IH]; intros i; cbn [find_page]; [lia |]. destruct (f pages.[i]) eqn:E.
  - split; [lia | done].
  - specialize (IH (i + 1)). destruct (find_page _ _ _ _) as [k |]; [destruct IH; split; [lia | done] |].
    intros k Hk. destruct (Z.eq_dec k i) as [-> |]; [done |]. apply IH. lia.
Qed.

Lemma find_slot_spec n (gens : list Z) i :
  match find_slot n gens i with
  | Some k => i <= k < i + Z.of_nat n /\ gens.[k] = 0
  | None => forall k, i <= k < i + Z.of_nat n -> gens.[k] <> 0
  end.
Proof.
  revert i. induction n as [| n IH]; intros i; cbn [find_slot]; [lia |]. destruct (Z.eqb_spec gens.[i] 0).
  - split; [lia | done].
  - specialize (IH (i + 1)). destruct (find_slot _ _ _) as [k |]; [destruct IH; split; [lia | done] |].
    intros k Hk. destruct (Z.eq_dec k i) as [-> |]; [done |]. apply IH. lia.
Qed.

Lemma pages_len p : wf p -> zlen (pages_ p) = MaximumPages.
Proof. intros Hwf. apply Hwf. Qed.

Lemma page_at p i x j : wf p -> 0 <= i < MaximumPages -> 0 <= j ->
  (pages_ p).[i := x].[j] = if j =? i then x else (pages_ p).[j].
Proof. intros Hwf Hi Hj. apply aget_aset; [by rewrite pages_len | done]. Qed.

Lemma page_idle p i : wf p -> 0 <= i < MaximumPages -> state (pages_ p).[i] <> PageState.ready -> live (pages_ p).[i] = 0.
Proof. intros Hwf Hi. by apply (wf_page _ _ p Hwf i Hi). Qed.

Lemma occupied_zero (gens : list Z) s : occupied gens = 0 -> 0 <= s < zlen gens -> gens.[s] = 0.
Proof.
  intros Ho Hs. pose proof (zsum_elem occupied_unit gens s) as He. unfold occupied in Ho. rewrite Ho in He.
  assert (occupied_unit gens.[s] <= 0) as Hle.
  { apply He; [| done]. apply Forall_true. intros g. apply occupied_range. }
  unfold occupied_unit in Hle. case_match; b2p; lia.
Qed.

(** Replacing a page by one with no new generation keeps the invariant. *)
Lemma wf_replace p p' i x :
  wf p -> 0 <= i < MaximumPages -> page_wf sizeof_T x ->
  (state x = PageState.ready -> forall j, 0 <= j < MaximumPages -> j <> i ->
     state (pages_ p).[j] = PageState.ready -> apart (lease x) (lease (pages_ p).[j])) ->
  (forall s, 0 <= s < slots -> (generations x).[s] = generation_of p i s \/ (generations x).[s] = 0) ->
  pages_ p' = (pages_ p).[i := x] -> live_ p' = live_ p - live (pages_ p).[i] + live x -> live_ p' <= peak_ p' ->
  generation_ p' = generation_ p -> mutating_ p' = false -> wf p'.
Proof.
  intros Hwf Hi Hx Hap Hgen Ep El Epk Eg Em.
  assert (forall j, 0 <= j -> (pages_ p').[j] = if j =? i then x else (pages_ p).[j]) as Hat
    by (intros; rewrite Ep; by apply page_at).
  assert (forall j s, 0 <= j < MaximumPages -> 0 <= s < slots ->
    generation_of p' j s = generation_of p j s \/ generation_of p' j s = 0) as Hg.
  { intros j s Hj Hs. unfold generation_of. rewrite Hat by lia. destruct (Z.eqb_spec j i) as [-> |]; [by apply Hgen | by left]. }
  constructor.
  - rewrite Ep, zlen_aset. by apply pages_len.
  - intros j Hj. rewrite Hat by lia. case_match; [done | by apply (wf_page _ _ p Hwf)].
  - intros j k Hj Hk Hne. rewrite !Hat by lia. destruct (Z.eqb_spec j i), (Z.eqb_spec k i); subst; intros; try done.
    + by apply Hap.
    + destruct (Hap ltac:(done) j); [done | done | done | by right | by left].
    + by apply (wf_apart _ _ p Hwf).
  - split; [| done]. rewrite El, Ep, zsum_aset by (by rewrite pages_len). by rewrite (proj1 (wf_live _ _ p Hwf)).
  - rewrite Eg. by apply (wf_generation _ _ p Hwf).
  - intros j s Hj Hs. rewrite Eg. destruct (Hg j s Hj Hs) as [-> | ->]; [by apply (wf_issued _ _ p Hwf) |].
    pose proof (wf_generation _ _ p Hwf). lia.
  - intros j s j' s' Hj Hs Hj' Hs'. destruct (Hg j s Hj Hs) as [-> | ->], (Hg j' s' Hj' Hs') as [-> | ->]; try lia.
    by apply (wf_distinct _ _ p Hwf).
  - done.
Qed.

Lemma apart_of_check a b : lease_size a = page_size -> lease_size b = page_size ->
  ranges_meet (lease_data a) (lease_size a) (lease_data b) (lease_size b) = false -> apart a b.
Proof. intros Ea Eb. unfold ranges_meet, apart. rewrite Ea, Eb. destruct (_ <=? _); intros; b2p; lia. Qed.

Lemma storage_ok l : 0 <= lease_data l -> storage_invalid (lease_data l) (lease_size l) = false -> lease_ok l.
Proof.
  intros Hd Hs. unfold storage_invalid in Hs. b2p. unfold lease_ok.
  match goal with Hz : lease_size l = page_size |- _ => rewrite Hz in * end.
  match goal with Hw : usize_wrap _ <= _ |- _ => rewrite usize_wrap_small in Hw by lia end. split_and!; lia || done.
Qed.

(** Pages no handle resolves into. *)
Definition dead (x : @Page Lease) : Prop :=
  state x <> PageState.ready \/ forall s, 0 <= s < slots -> (generations x).[s] = 0.

Definition handle_ok (h : ObjectHandle.t) : Prop := 0 <= ObjectHandle.page_slot h /\ 0 <= ObjectHandle.object_slot h.

Abbreviation resolve_ := (resolve sizeof_T MaximumPages).

(** What the holders of handles see of the pool. *)
Definition same_objects p p' : Prop :=
  (forall h, handle_ok h -> resolve_ p' h = resolve_ p h) /\ heap p' = heap p /\ live_ p' = live_ p /\
  generation_ p' = generation_ p.

Lemma validate_dead p h : handle_ok h -> mutating_ p = false ->
  (ObjectHandle.page_slot h < MaximumPages -> dead (pages_ p).[ObjectHandle.page_slot h]) ->
  validate sizeof_T MaximumPages p h =
    if negb (ObjectHandle.pool h =? this p) || (MaximumPages <=? ObjectHandle.page_slot h)
       || (slots <=? ObjectHandle.object_slot h) || (ObjectHandle.generation h =? 0)
    then StatusCode.invalid_argument else StatusCode.not_found.
Proof.
  intros [Hp Hs] Em Hd. unfold validate. rewrite Em. destruct (_ || _) eqn:E; [done |]. b2p.
  destruct (Hd ltac:(lia)) as [Hst | Hg].
  - unfold PageState.eqb. by rewrite bool_decide_false.
  - rewrite Hg by lia. replace (0 =? ObjectHandle.generation h) with false by lia. by rewrite orb_true_r.
Qed.

Lemma same_objects_intro p p' :
  mutating_ p = false -> mutating_ p' = false -> this p' = this p -> heap p' = heap p -> live_ p' = live_ p ->
  generation_ p' = generation_ p ->
  (forall i, 0 <= i < MaximumPages -> (pages_ p').[i] = (pages_ p).[i] \/ (dead (pages_ p).[i] /\ dead (pages_ p').[i])) ->
  same_objects p p'.
Proof.
  intros Em Em' Et Eh El Eg Hpages. split_and!; try done. intros h Hh. unfold resolve.
  destruct (Z_lt_le_dec (ObjectHandle.page_slot h) MaximumPages) as [Hlt | Hge].
  - destruct (Hpages (ObjectHandle.page_slot h)) as [Heq | [Hd Hd']]; [by destruct Hh | |].
    + unfold validate. by rewrite Em, Em', Et, Heq.
    + rewrite !validate_dead, Et by done. by destruct (_ || _).
  - rewrite !validate_dead, Et by (done || lia). by replace (MaximumPages <=? _) with true by lia; rewrite !orb_true_r.
Qed.

Lemma idle_dead p i : wf p -> 0 <= i < MaximumPages -> live (pages_ p).[i] = 0 -> dead (pages_ p).[i].
Proof.
  intros Hwf Hi Hl. right. intros s Hs. destruct (wf_page _ _ p Hwf i Hi) as (Hz & Ho & _).
  apply occupied_zero; [congruence | lia].
Qed.

Lemma empty_dead : dead (empty_page sizeof_T).
Proof. by left. Qed.

Hypothesis leases_unsigned : forall l : Lease, 0 <= lease_data l.

(** The quarantined copy of an idle page that holds a new lease. *)
Lemma pool_quarantine_wf x l : page_wf sizeof_T x -> live x = 0 ->
  page_wf sizeof_T (mk_page l (generations x) (live x) PageState.quarantined).
Proof. intros (Hz & Ho & _) Hl. split_and!; done. Qed.

(** The fields a page exchange leaves alone. *)
Definition same_rest p p' : Prop :=
  live_ p' = live_ p /\ peak_ p' = peak_ p /\ generation_ p' = generation_ p /\ mutating_ p' = mutating_ p /\
  this p' = this p /\ heap p' = heap p.

Lemma wf_zero_gens x s : page_wf sizeof_T x -> live x = 0 -> 0 <= s < slots -> (generations x).[s] = 0.
Proof. intros (Hz & Ho & _) Hl Hs. apply occupied_zero; [congruence | lia]. Qed.

(** Exchanging one idle page for another. *)
Lemma swap_idle p p' i x :
  wf p -> 0 <= i < MaximumPages -> live (pages_ p).[i] = 0 -> page_wf sizeof_T x -> live x = 0 ->
  (state x = PageState.ready -> forall j, 0 <= j < MaximumPages -> j <> i ->
     state (pages_ p).[j] = PageState.ready -> apart (lease x) (lease (pages_ p).[j])) ->
  pages_ p' = (pages_ p).[i := x] -> same_rest p p' -> wf p' /\ same_objects p p'.
Proof.
  intros Hwf Hi Hl0 Hx Hlx Hap Ep (El & Epk & Eg & Em & Et & Eh). pose proof (wf_idle _ _ p Hwf) as Hidle.
  pose proof (wf_live _ _ p Hwf) as [_ Hpk]. split.
  - apply (wf_replace p p' i x); try done; try lia; [| congruence].
    intros s Hs. right. by apply wf_zero_gens.
  - apply same_objects_intro; try congruence. intros j Hj. rewrite Ep, page_at by (done || lia).
    destruct (Z.eqb_spec j i) as [-> |]; [right | by left]. split; [by apply idle_dead |].
    right. intros s Hs. by apply wf_zero_gens.
Qed.

Lemma swap_nothing p p' : wf p -> pages_ p' = pages_ p -> same_rest p p' -> wf p' /\ same_objects p p'.
Proof.
  intros Hwf Ep (El & Epk & Eg & Em & Et & Eh). pose proof (wf_idle _ _ p Hwf) as Hidle. split.
  - destruct Hwf. constructor; unfold generation_of; rewrite ?Ep, ?El, ?Epk, ?Eg, ?Em; done.
  - apply same_objects_intro; try congruence. intros j Hj. left. by rewrite Ep.
Qed.

Lemma overlaps_apart p i l : wf p -> 0 <= i < MaximumPages ->
  overlaps MaximumPages (pages_ p).[i := mk_page l (generations (pages_ p).[i]) (live (pages_ p).[i]) PageState.quarantined]
    i (lease_data l) (lease_size l) = false -> lease_size l = page_size ->
  forall j, 0 <= j < MaximumPages -> j <> i -> state (pages_ p).[j] = PageState.ready -> apart l (lease (pages_ p).[j]).
Proof.
  intros Hwf Hi Ho Hsz j Hj Hne Hr. unfold overlaps in Ho.
  pose proof (existsb_indices_false _ _ j Ho Hj) as Hall. cbn beta in Hall.
  rewrite page_at in Hall by (done || lia). replace (j =? i) with false in Hall by lia. cbn [negb andb] in Hall.
  unfold is_empty, PageState.eqb in Hall. rewrite Hr, bool_decide_false in Hall by done. cbn in Hall.
  apply apart_of_check; [done | | done]. by apply (wf_page _ _ p Hwf j Hj).
Qed.

Lemma add_page_spec p : wf p ->
  let '(p', r) := add_page sizeof_T MaximumPages p in
  wf p' /\ same_objects p p' /\ limit_ p' = limit_ p /\
  match r with Ok i => 0 <= i < MaximumPages /\ has_room sizeof_T (pages_ p').[i] = true | Err _ => True end.
Proof.
  intros Hwf. unfold add_page.
  pose proof (find_page_spec is_empty (Z.to_nat MaximumPages) (pages_ p) 0) as Hf.
  destruct (find_page _ _ _ _) as [i |].
  2: { by destruct (swap_nothing p p Hwf). }
  destruct Hf as [Hi He]. assert (0 <= i < MaximumPages) as Hir by lia.
  assert (state (pages_ p).[i] <> PageState.ready) as Hst.
  { unfold is_empty, PageState.eqb in He. apply bool_decide_eq_true in He. by rewrite He. }
  pose proof (page_idle p i Hwf Hir Hst) as Hl0. pose proof (wf_page _ _ p Hwf i Hir) as Hpw.
  destruct (allocate_kernel_page (provider_ p)) as [prov [l | e]].
  2: { by destruct (swap_nothing p (with_provider p prov) Hwf). }
  cbn [pages_ with_provider]. set (q := mk_page l _ _ PageState.quarantined).
  assert (page_wf sizeof_T q) as Hq by (by apply pool_quarantine_wf).
  assert (forall y, (pages_ p).[i := q].[i := y] = (pages_ p).[i := y]) as Htwice
    by (intros; unfold aset; by rewrite list_insert_insert_eq).
  assert ((pages_ p).[i := q].[i] = q) as Hqi by (rewrite page_at by (done || lia); by rewrite Z.eqb_refl).
  destruct (overlaps _ _ _ _ _) eqn:Eo.
  { by destruct (swap_idle p (with_fault (with_page (with_provider p prov) i q) StatusCode.fault) i q). }
  cbn [pages_ with_page with_fault with_provider provider_]. rewrite Hqi.
  destruct (storage_invalid _ _) eqn:Es.
  - destruct (release_kernel_page prov l) as [[prov' l'] st]. cbn [pages_ with_page with_fault with_provider]. rewrite ?Hqi.
    set (x := if status_ok st then _ else _).
    assert (page_wf sizeof_T x /\ live x = 0 /\ state x <> PageState.ready) as (Hx & Hlx & Hsx).
    { unfold x. destruct (status_ok st); [by split; [apply empty_page_wf |] |]. split; [by apply (pool_quarantine_wf q) | done]. }
    set (p' := with_page _ i x). destruct (swap_idle p p' i x) as [? ?]; try done. unfold p'. cbn. by rewrite Htwice.
  - pose proof (storage_ok l (leases_unsigned l) Es) as Hlok. set (y := mk_page l _ _ PageState.ready).
    assert (page_wf sizeof_T y) as Hy by (destruct Hq as (? & ? & _); by split_and!).
    set (p' := with_page _ i y). assert (pages_ p' = (pages_ p).[i := y]) as Ep by (unfold p'; cbn; by rewrite Htwice).
    destruct (swap_idle p p' i y) as [? ?]; try done.
    { intros _. apply overlaps_apart; [done | done | exact Eo | by destruct Hlok as (_ & ? & _)]. }
    split_and!; try done; try lia. rewrite Ep, page_at, Z.eqb_refl by (done || lia).
    unfold has_room, PageState.eqb. cbn. rewrite Hl0. pose proof slots_positive. by cmp.
Qed.

Lemma resolve_ok_iff p h a : wf p -> handle_ok h ->
  resolve_ p h = Ok a <->
  ObjectHandle.pool h = this p /\ ObjectHandle.page_slot h < MaximumPages /\ ObjectHandle.object_slot h < slots /\
  ObjectHandle.generation h <> 0 /\ state (pages_ p).[ObjectHandle.page_slot h] = PageState.ready /\
  generation_of p (ObjectHandle.page_slot h) (ObjectHandle.object_slot h) = ObjectHandle.generation h /\
  a = slot_address sizeof_T (pages_ p).[ObjectHandle.page_slot h] (ObjectHandle.object_slot h).
Proof.
  intros Hwf [Hp Hs]. unfold resolve, validate. rewrite (wf_idle _ _ p Hwf).
  destruct (_ || (ObjectHandle.generation h =? 0)) eqn:E1.
  { split; [done |]. intros (? & ? & ? & ? & _). exfalso. revert E1. by cmp. }
  b2p. unfold PageState.eqb. destruct (_ || negb (_ =? ObjectHandle.generation h)) eqn:E2; cbn [status_ok negb].
  - split; [done |]. intros (_ & _ & _ & _ & Hst & Hg & _). exfalso. unfold generation_of in Hg.
    rewrite bool_decide_true, Hg, Z.eqb_refl in E2 by done. done.
  - b2p. match goal with Hx : bool_decide _ = true |- _ => apply bool_decide_eq_true in Hx end.
    split; [intros [= <-]; by split_and! | by intros (_ & _ & _ & _ & _ & _ & ->)].
Qed.

(** Slots of ready pages are disjoint ranges of valid memory. *)
Lemma slot_in_page p i s : wf p -> 0 <= i < MaximumPages -> 0 <= s < slots ->
  state (pages_ p).[i] = PageState.ready ->
  let a := slot_address sizeof_T (pages_ p).[i] s in
  0 < a /\ lease_data (lease (pages_ p).[i]) <= a /\
  a + sizeof_T <= lease_data (lease (pages_ p).[i]) + page_size /\ a + sizeof_T <= usize_max + 1.
Proof.
  intros Hwf Hi Hs Hr a. destruct (wf_page _ _ p Hwf i Hi) as (_ & _ & Hl & _).
  destruct (Hl Hr) as (Hd & _ & _ & Hu). unfold a, slot_address, slots_per_page in *.
  pose proof (Z.mul_div_le page_size sizeof_T ltac:(lia)). split_and!; nia.
Qed.

Definition disjoint (a b : Z) : Prop := a + sizeof_T <= b \/ b + sizeof_T <= a.

Lemma slots_disjoint p i s i' s' : wf p -> 0 <= i < MaximumPages -> 0 <= s < slots ->
  0 <= i' < MaximumPages -> 0 <= s' < slots -> state (pages_ p).[i] = PageState.ready ->
  state (pages_ p).[i'] = PageState.ready -> (i, s) <> (i', s') ->
  disjoint (slot_address sizeof_T (pages_ p).[i] s) (slot_address sizeof_T (pages_ p).[i'] s').
Proof.
  intros Hwf Hi Hs Hi' Hs' Hr Hr' Hne. destruct (Z.eq_dec i i') as [-> | Hni].
  - unfold disjoint, slot_address. assert (s <> s') by (intros ->; done). nia.
  - destruct (slot_in_page p i s Hwf Hi Hs Hr) as (_ & ? & ? & _).
    destruct (slot_in_page p i' s' Hwf Hi' Hs' Hr') as (_ & ? & ? & _).
    destruct (wf_apart _ _ p Hwf i i' Hi Hi' Hni Hr Hr'); [left | right]; lia.
Qed.

(** What occupying a free slot does to the pool. *)
Lemma occupy_wf p i s v : wf p -> 0 <= i < MaximumPages -> 0 <= s < slots ->
  state (pages_ p).[i] = PageState.ready -> generation_of p i s = 0 -> generation_ p < u64_max ->
  let p' := fst (occupy sizeof_T p i s v) in
  wf p' /\ (forall j t, 0 <= j < MaximumPages -> 0 <= t -> generation_of p' j t =
    if (j =? i) && (t =? s) then generation_ p + 1 else generation_of p j t) /\
  (forall j, 0 <= j < MaximumPages -> state (pages_ p').[j] = state (pages_ p).[j] /\ lease (pages_ p').[j] = lease (pages_ p).[j]).
Proof.
  intros Hwf Hi Hs Hr Hg Hmax p'. pose proof (wf_page _ _ p Hwf i Hi) as (Hz & Ho & Hl & _).
  set (x := mk_page (lease (pages_ p).[i]) (generations (pages_ p).[i]).[s := generation_ p + 1]
                    (live (pages_ p).[i] + 1) (state (pages_ p).[i])).
  pose proof (wf_generation _ _ p Hwf) as Hgen. unfold generation_of in Hg.
  assert (forall j, 0 <= j -> (pages_ p').[j] = if j =? i then x else (pages_ p).[j]) as Hat by (intros; by apply page_at).
  assert (forall j t, 0 <= j < MaximumPages -> 0 <= t -> generation_of p' j t =
    if (j =? i) && (t =? s) then generation_ p + 1 else generation_of p j t) as Hgs.
  { intros j t Hj Ht. unfold generation_of. rewrite Hat by lia. destruct (Z.eqb_spec j i) as [-> |]; [| done].
    cbn [x generations andb]. by rewrite aget_aset by lia. }
  split; [| split; [done |]].
  2: { intros j Hj. rewrite Hat by lia. by destruct (Z.eqb_spec j i) as [-> |]. }
  assert (page_wf sizeof_T x) as Hx.
  { unfold page_wf, x; cbn. rewrite zlen_aset. split_and!; try done.
    unfold occupied. rewrite zsum_aset by lia. fold (occupied (generations (pages_ p).[i])). rewrite Hg, <- Ho.
    unfold occupied_unit. cbn [Z.eqb]. replace (generation_ p + 1 =? 0) with false by lia. lia. }
  constructor.
  - unfold p'; cbn. rewrite zlen_aset. by apply pages_len.
  - intros j Hj. rewrite Hat by lia. case_match; [done | by apply (wf_page _ _ p Hwf)].
  - intros j k Hj Hk Hne. rewrite !Hat by lia. destruct (Z.eqb_spec j i) as [-> |], (Z.eqb_spec k i) as [-> |];
      try done; apply (wf_apart _ _ p Hwf); done || lia.
  - destruct (wf_live _ _ p Hwf) as [Hlv Hpk]. unfold p'; cbn. rewrite zsum_aset by (by rewrite pages_len).
    split; [cbn; lia |]. case_match; b2p; lia.
  - unfold p'; cbn. lia.
  - intros j t Hj Ht. rewrite Hgs by lia. pose proof (wf_issued _ _ p Hwf j t Hj Ht).
    change (generation_ p') with (generation_ p + 1). case_match; lia.
  - intros j t j' t' Hj Ht Hj' Ht'. rewrite !Hgs by lia.
    pose proof (wf_issued _ _ p Hwf j t Hj Ht). pose proof (wf_issued _ _ p Hwf j' t' Hj' Ht').
    destruct (_ && _) eqn:E1, ((j' =? i) && _) eqn:E2; b2p; intros; try lia. by apply (wf_distinct _ _ p Hwf).
  - by apply (wf_idle _ _ p Hwf).
Qed.

(** Handles across the occupation of a slot. *)
Lemma occupy_resolve p i s v h : wf p -> 0 <= i < MaximumPages -> 0 <= s < slots ->
  state (pages_ p).[i] = PageState.ready -> generation_of p i s = 0 -> generation_ p < u64_max -> handle_ok h ->
  let '(p', h0) := occupy sizeof_T p i s v in
  forall a, resolve_ p' h = Ok a <->
    resolve_ p h = Ok a \/ (h = h0 /\ a = slot_address sizeof_T (pages_ p).[i] s).
Proof.
  intros Hwf Hi Hs Hr Hg Hmax Hh. destruct (occupy_wf p i s v) as (Hwf' & Hgs & Hsl); try done.
  set (p' := fst (occupy sizeof_T p i s v)) in *. change (occupy sizeof_T p i s v) with (p', snd (occupy sizeof_T p i s v)).
  intros a. rewrite !resolve_ok_iff by done. pose proof (wf_generation _ _ p Hwf). destruct h as [po ps os ge].
  destruct Hh as [Hh1 Hh2]. cbn [ObjectHandle.pool ObjectHandle.page_slot ObjectHandle.object_slot ObjectHandle.generation] in *.
  change (this p') with (this p). destruct (Z_lt_le_dec ps MaximumPages) as [Hps | Hps].
  2: { split; [intros (_ & ? & _); lia | intros [(_ & ? & _) | [[= -> -> -> ->] ->]]; lia]. }
  destruct (Hsl ps ltac:(lia)) as [Est Ele]. rewrite Est, Hgs by lia.
  assert (slot_address sizeof_T (pages_ p').[ps] os = slot_address sizeof_T (pages_ p).[ps] os) as ->
    by (unfold slot_address; by rewrite Ele).
  destruct ((ps =? i) && (os =? s)) eqn:E; b2p.
  - subst. rewrite Hg. split.
    + intros (-> & _ & _ & _ & _ & <- & ->). by right.
    + intros [(_ & _ & _ & ? & _ & ? & _) | [[= -> ->] ->]]; [lia |]. split_and!; try done; lia.
  - split; [by left |]. intros [? | [[= -> -> -> ->] ->]]; [done |]. rewrite !Z.eqb_refl in E. destruct E; done.
Qed.

Lemma new_pool_wf self provider n : wf (ObjectPool.new sizeof_T MaximumPages self provider n).
Proof.
  pose proof slots_positive.
  assert (forall i, 0 <= i < MaximumPages ->
    (pages_ (ObjectPool.new (T := T) sizeof_T MaximumPages self provider n)).[i] = empty_page sizeof_T) as Hat
    by (intros; apply aget_replicate; lia).
  assert (forall s, (generations (empty_page sizeof_T)).[s] = 0 \/ ~ (0 <= s < slots)) as Hg.
  { intros s. destruct (decide (0 <= s < slots)); [left; apply aget_replicate; lia | by right]. }
  constructor; try done.
  - cbn. rewrite zlen_replicate. lia.
  - intros i Hi. rewrite Hat by done. apply empty_page_wf.
  - intros i j Hi Hj _. by rewrite Hat.
  - split; [| done]. symmetry. by apply zsum_replicate.
  - intros i s Hi Hs. unfold generation_of. rewrite Hat by done. destruct (Hg s) as [-> |]; [cbn; lia | done].
  - intros i s i' s' Hi Hs _ _ Hn. unfold generation_of in Hn. rewrite Hat in Hn by done. by destruct (Hg s).
Qed.

(** Why create() may refuse: a fault, a bad or reached limit, an exhausted
    generation sequence, or no page with room, so that the provider was asked. *)
Definition create_refuses p (e : Status) : Prop :=
  status_ok (fault_ p) = false /\ e = fault_ p \/
  limit_ p = 0 \/ capacity sizeof_T MaximumPages < limit_ p \/ limit_ p <= live_ p \/ generation_ p = u64_max \/
  (forall i, 0 <= i < MaximumPages -> has_room sizeof_T (pages_ p).[i] = false).

(** The branches of create(): a refusal, or a free slot of a ready page occupied. *)
Lemma create_cases p v : wf p ->
  match create sizeof_T MaximumPages p v with
  | (p', Err e) => wf p' /\ same_objects p p' /\ create_refuses p e
  | (p', Ok h) => exists p1 i s, wf p1 /\ same_objects p p1 /\ limit_ p1 = limit_ p /\ live_ p < limit_ p /\
      generation_ p < u64_max /\ 0 <= i < MaximumPages /\ 0 <= s < slots /\
      state (pages_ p1).[i] = PageState.ready /\ generation_of p1 i s = 0 /\ occupy sizeof_T p1 i s v = (p', h)
  end.
Proof.
  intros Hwf. unfold create. pose proof (wf_idle _ _ p Hwf) as Em. rewrite Em.
  assert (same_objects p p) as Hrefl by (by destruct (swap_nothing p p Hwf)). unfold create_refuses.
  destruct (status_ok (fault_ p)) eqn:Ef; cbn [negb]; [| split_and!; auto].
  destruct (_ || _) eqn:E1; [split_and!; try done; apply orb_true_iff in E1 as [E1 | E1]; b2p; auto |].
  destruct (Z.leb_spec (limit_ p) (live_ p)) as [| Hlim]; [split_and!; auto |].
  destruct (Z.eqb_spec (generation_ p) u64_max) as [| Hgm]; [split_and!; auto 6 |].
  pose proof (find_page_spec (has_room sizeof_T) (Z.to_nat MaximumPages) (pages_ p) 0) as Hf.
  set (step := match find_page _ _ _ _ with Some _ => _ | None => _ end).
  assert (let '(p1, r) := step in wf p1 /\ same_objects p p1 /\ limit_ p1 = limit_ p /\
    match r with
    | Ok i => 0 <= i < MaximumPages /\ has_room sizeof_T (pages_ p1).[i] = true
    | Err _ => forall i, 0 <= i < MaximumPages -> has_room sizeof_T (pages_ p).[i] = false
    end) as Hstep.
  { unfold step. destruct (find_page _ _ _ _) as [k |]; [destruct Hf; split_and!; try done; lia |].
    pose proof (add_page_spec p Hwf) as Ha. destruct (add_page _ _ p) as [p1 [i | e]]; [done |].
    destruct Ha as (? & ? & ? & _). split_and!; try done. intros i Hi. apply Hf. lia. }
  clear Hf. clearbody step. destruct step as [p1 [i | e]]; [| destruct Hstep as (? & ? & ? & ?); split_and!; auto 7].
  destruct Hstep as (Hwf1 & Hsame & Hlim1 & Hi & Hroom). unfold has_room, PageState.eqb in Hroom. b2p.
  match goal with Hb : bool_decide _ = true |- _ => apply bool_decide_eq_true in Hb; rename Hb into Hr end.
  destruct (wf_page _ _ p1 Hwf1 i Hi) as (Hz & Ho & _).
  pose proof (find_slot_spec (Z.to_nat slots) (generations (pages_ p1).[i]) 0) as Hf. pose proof slots_positive.
  destruct (find_slot _ _ _) as [s |].
  2: { exfalso. destruct (zsum_zero occupied_unit (generations (pages_ p1).[i]) occupied_range) as (k & Hk & Hk0);
       [unfold occupied in Ho; lia |]. unfold occupied_unit in Hk0. apply (Hf k); [lia |]. case_match; b2p; lia. }
  destruct Hf as [Hs Hg]. pose proof (wf_generation _ _ p Hwf). destruct (occupy sizeof_T p1 i s v) as [p' h] eqn:Eo.
  exists p1, i, s. split_and!; try done; lia.
Qed.

Lemma create_wf p v : wf p -> wf (fst (create sizeof_T MaximumPages p v)).
Proof.
  intros Hwf. pose proof (create_cases p v Hwf) as Hc. destruct (create _ _ p v) as [p' [h | e]]; [| apply Hc].
  destruct Hc as (p1 & i & s & Hw & (_ & _ & _ & Hg) & _ & _ & ? & ? & ? & ? & ? & Eo).
  destruct (occupy_wf p1 i s v) as (Hw' & _); try done; [lia |]. by rewrite Eo in Hw'.
Qed.

(** C33: create() returns a new handle exactly when it constructed the object: the
    handle has a generation never used before, resolves to a slot in valid
    memory disjoint from every live object, and holds the constructed value;
    every other handle and object is untouched.  create() fails only for a
    named reason, never while a page has room and the limits allow it; then,
    whatever the page provider did, no handle or object changes and the pool
    stays well formed. *)
Theorem create_spec p v : wf p ->
  let '(p', r) := create sizeof_T MaximumPages p v in
  wf p' /\
  match r with
  | Ok h => handle_ok h /\ ObjectHandle.generation h = generation_ p + 1 /\
      live_ p' = live_ p + 1 /\ live_ p' <= limit_ p /\
      exists a, resolve_ p' h = Ok a /\ heap p' !! a = Some v /\ 0 < a /\ a + sizeof_T <= usize_max + 1 /\
        (forall h' a', handle_ok h' -> resolve_ p h' = Ok a' ->
           resolve_ p' h' = Ok a' /\ disjoint a a' /\ heap p' !! a' = heap p !! a') /\
        (forall h' a', handle_ok h' -> resolve_ p' h' = Ok a' -> h' = h \/ resolve_ p h' = Ok a')
  | Err e => same_objects p p' /\ create_refuses p e
  end.
Proof.
  intros Hwf. pose proof (create_cases p v Hwf) as Hc. pose proof (create_wf p v Hwf) as Hwf2.
  destruct (create _ _ p v) as [p2 [h | e]]; [| by destruct Hc as (? & ? & ?)]. cbn [fst] in Hwf2. split; [done |].
  destruct Hc as (p1 & i & s & Hwf1 & (Hres & Hheap & Hlive & Hgen) & Hlim1 & Hlim & Hmax & Hi & Hs & Hr & Hg & Eoc).
  pose proof (fun h => occupy_resolve p1 i s v h Hwf1 Hi Hs Hr Hg ltac:(lia)) as Hocc.
  rewrite Eoc in Hocc. injection Eoc as <- <-.
  set (h := ObjectHandle.mk _ _ _ _) in *. set (p2 := ObjectPool.mk _ _ _ _ _ _ _ _ _ _ _) in *.
  set (a := slot_address sizeof_T (pages_ p1).[i] s) in *.
  assert (handle_ok h) as Hh by (split; cbn; lia).
  assert (ObjectHandle.generation h = generation_ p + 1 /\ live_ p2 = live_ p + 1) as [-> ->] by (cbn; lia).
  split_and!; try done; [lia |]. exists a. destruct (slot_in_page p1 i s) as (? & _ & _ & ?); try done.
  split_and!; try done.
  - apply Hocc; [done | by right].
  - cbn. apply lookup_insert_eq.
  - intros h' a' Hh' Ha'. rewrite <- Hres in Ha' by done. split; [apply Hocc; [done | by left] |].
    pose proof Ha' as Ha. apply resolve_ok_iff in Ha as (_ & ? & ? & Hgz & Hr' & Hg' & ->); [| done..].
    assert (disjoint a (slot_address sizeof_T (pages_ p1).[ObjectHandle.page_slot h'] (ObjectHandle.object_slot h'))) as Hdis.
    { destruct Hh'. apply slots_disjoint; try done; try lia. intros [= -> ->]. unfold generation_of in *. congruence. }
    split; [done |]. cbn. rewrite lookup_insert_ne, Hheap; [done |]. destruct Hdis; lia.
  - intros h' a' Hh' Ha'. apply Hocc in Ha'; [| done]. rewrite Hres in Ha' by done. destruct Ha' as [? | [-> _]]; auto.
Qed.

(** The pool after a successful destroy(). *)
Lemma destroy_wf p h a : wf p -> handle_ok h -> resolve_ p h = Ok a ->
  let '(p', status) := destroy sizeof_T MaximumPages p h in
  status = StatusCode.ok /\ wf p' /\ live_ p' = live_ p - 1 /\ generation_ p' = generation_ p /\ heap p' = delete a (heap p) /\
  forall h' a', handle_ok h' -> resolve_ p' h' = Ok a' <-> resolve_ p h' = Ok a' /\ h' <> h.
Proof.
  intros Hwf Hh Ha. pose proof Ha as Hres. apply resolve_ok_iff in Hres as (Hpo & Hp & Hs & Hgz & Hr & Hg & Haddr); [| done..].
  assert (validate sizeof_T MaximumPages p h = StatusCode.ok) as Hv.
  { unfold resolve in Ha. by destruct (validate _ _ p h). }
  unfold destroy. rewrite Hv. cbn [status_ok negb]. rewrite <- Haddr. destruct Hh as [Hh1 Hh2].
  set (i := ObjectHandle.page_slot h) in *. set (s := ObjectHandle.object_slot h) in *.
  set (x := mk_page _ _ (live (pages_ p).[i] - 1) _). set (p' := ObjectPool.mk _ _ _ _ _ _ _ _ _ _ _).
  destruct (wf_page _ _ p Hwf i ltac:(lia)) as (Hz & Ho & Hl & Hidle). unfold generation_of in Hg.
  assert (page_wf sizeof_T x) as Hx.
  { unfold page_wf, x; cbn. rewrite zlen_aset. split_and!; try done.
    unfold occupied. rewrite zsum_aset by lia. fold (occupied (generations (pages_ p).[i])). rewrite Hg, <- Ho.
    unfold occupied_unit. cbn [Z.eqb]. replace (ObjectHandle.generation h =? 0) with false by lia. lia. }
  assert (wf p') as Hwf'.
  { apply (wf_replace p p' i x); try done; try lia.
    - intros _ j Hj Hne Hrj. by apply (wf_apart _ _ p Hwf); try done; lia.
    - intros t Ht. cbn. rewrite aget_aset by lia. case_match; [by right | by left].
    - cbn. lia.
    - destruct (wf_live _ _ p Hwf). cbn. lia.
    - by apply (wf_idle _ _ p Hwf). }
  split_and!; try done. intros h' a' Hh'. rewrite !resolve_ok_iff by done.
  change (this p') with (this p). unfold generation_of. destruct Hh' as [Hp' Hs'].
  set (i' := ObjectHandle.page_slot h') in *. set (s' := ObjectHandle.object_slot h') in *.
  assert ((pages_ p').[i'] = if i' =? i then x else (pages_ p).[i']) as -> by (apply page_at; [done | lia | done]).
  destruct (Z.eqb_spec i' i) as [Ei | Ei].
  - rewrite Ei. cbn [x state generations lease slot_address]. rewrite aget_aset by lia.
    change (slot_address sizeof_T x s') with (slot_address sizeof_T (pages_ p).[i] s').
    destruct (Z.eqb_spec s' s) as [Es | Es].
    + split; [intros (_ & _ & _ & ? & _ & ? & _); lia |]. intros [(E1 & _ & _ & _ & _ & E2 & _) Hne]. exfalso. apply Hne.
      rewrite Es, Hg in E2. destruct h, h'; cbn in *. by subst.
    + split; [intros Hx'; split; [done |] | by intros []]. intros ->. by apply Es.
  - split; [intros Hx'; split; [done |] | by intros []]. intros ->. by apply Ei.
Qed.

Lemma destroy_keeps_wf p h : wf p -> handle_ok h -> wf (fst (destroy sizeof_T MaximumPages p h)).
Proof.
  intros Hwf Hh. destruct (resolve_ p h) as [a | e] eqn:E.
  - pose proof (destroy_wf p h a Hwf Hh E) as Hd. destruct (destroy _ _ _ _) as [p' st]. apply Hd.
  - unfold destroy, resolve in *. by destruct (status_ok (validate _ _ p h)).
Qed.

(** Destroy() accepts exactly the handles that resolve.  It then ends that
    handle and that object and no other; a refused destroy changes nothing. *)
Theorem destroy_spec p h : wf p -> handle_ok h ->
  let '(p', status) := destroy sizeof_T MaximumPages p h in
  match resolve_ p h with
  | Ok a => status = StatusCode.ok /\ wf p' /\ live_ p' = live_ p - 1 /\ heap p' = delete a (heap p) /\
      (forall h' a', handle_ok h' -> resolve_ p' h' = Ok a' <-> resolve_ p h' = Ok a' /\ h' <> h)
  | Err e => status = e /\ p' = p
  end.
Proof.
  intros Hwf Hh. destruct (resolve_ p h) as [a | e] eqn:E.
  - pose proof (destroy_wf p h a Hwf Hh E) as Hd. destruct (destroy _ _ _ _) as [p' st].
    destruct Hd as (? & ? & ? & _ & ? & ?). done.
  - unfold destroy, resolve in *. destruct (status_ok (validate _ _ p h)); cbn in *; [done |]. by injection E.
Qed.

Lemma trim_from_spec n i p : wf p -> 0 <= i -> i + Z.of_nat n <= MaximumPages ->
  let p' := trim_from sizeof_T n i p in
  wf p' /\ same_objects p p' /\ (forall j, 0 <= j < i -> (pages_ p').[j] = (pages_ p).[j]) /\
  (forall j, i <= j < i + Z.of_nat n -> state (pages_ p').[j] = PageState.ready -> live (pages_ p').[j] <> 0).
Proof.
  revert i p. induction n as [| n IH]; intros i p Hwf Hi Hn; cbn zeta; cbn [trim_from].
  { split_and!; [done | by destruct (swap_nothing p p Hwf) | done | lia]. }
  destruct (_ && _) eqn:E.
  2: { destruct (IH (i + 1) p Hwf ltac:(lia) ltac:(lia)) as (Hw & Hs & Hb & Ha). split_and!; try done.
       - intros j Hj. apply Hb. lia.
       - intros j Hj. destruct (Z.eq_dec j i) as [-> |]; [| apply Ha; lia]. rewrite Hb by lia. intros Hr Hl.
         unfold PageState.eqb in E. rewrite Hr, Hl, bool_decide_true in E by done. done. }
  unfold PageState.eqb in E. b2p. set (x := (pages_ p).[i]) in *.
  destruct (release_kernel_page _ _) as [[prov l'] st]. set (p1 := if negb (status_ok st) then _ else _).
  pose proof (wf_page _ _ p Hwf i ltac:(lia)) as Hpw. fold x in Hpw.
  assert (exists y, state y <> PageState.ready /\ wf p1 /\ same_objects p p1 /\ pages_ p1 = (pages_ p).[i := y])
    as (y & Hy & Hwf1 & Hs1 & Ep1).
  { unfold p1. destruct (status_ok st); cbn [negb].
    - exists (empty_page sizeof_T). split; [done |].
      destruct (swap_idle p (with_page (with_provider p prov) i (empty_page sizeof_T)) i (empty_page sizeof_T));
        try done; [lia | apply empty_page_wf].
    - set (q := mk_page l' _ _ _). exists q. split; [done |].
      assert (page_wf sizeof_T q) by (by apply pool_quarantine_wf).
      set (p2 := with_page (with_provider p prov) i q).
      destruct (swap_idle p p2 i q) as [? ?]; try done; [lia |]. case_match; [| done].
      by destruct (swap_idle p (with_fault p2 st) i q) as [? ?]; try done; lia. }
  clearbody p1. destruct (IH (i + 1) p1 Hwf1 ltac:(lia) ltac:(lia)) as (Hw & Hs & Hb & Ha).
  assert (forall j, 0 <= j -> (pages_ p1).[j] = if j =? i then y else (pages_ p).[j]) as Hat
    by (intros; rewrite Ep1; apply page_at; [done | lia | done]).
  split_and!; try done.
  - destruct Hs as (Hr & ? & ? & ?), Hs1 as (Hr1 & ? & ? & ?). split_and!; try congruence.
    intros h Hh. by rewrite Hr, Hr1.
  - intros j Hj. rewrite Hb, Hat by lia. by cmp.
  - intros j Hj. destruct (Z.eq_dec j i) as [-> |]; [| apply Ha; lia]. rewrite Hb, Hat, Z.eqb_refl by lia. done.
Qed.

(** trim_empty_pages() changes no handle and no object, whatever the provider
    answers, and leaves no ready page without a live object: each went back to
    the provider or is quarantined. *)
Theorem trim_spec p : wf p ->
  let '(p', status) := trim_empty_pages sizeof_T MaximumPages p in
  wf p' /\ same_objects p p' /\ status = fault_ p' /\
  forall j, 0 <= j < MaximumPages -> state (pages_ p').[j] = PageState.ready -> live (pages_ p').[j] <> 0.
Proof.
  intros Hwf. unfold trim_empty_pages. rewrite (wf_idle _ _ p Hwf).
  destruct (trim_from_spec (Z.to_nat MaximumPages) 0 p Hwf) as (? & ? & _ & Ha); [lia | lia |].
  split_and!; try done. intros j Hj. apply Ha. lia.
Qed.
End PoolFacts.

(** ** Witnesses *)
Section PoolWitnesses.
#[local] Existing Instance arch64.
Import ObjectPool.

(** A provider that hands out consecutive pages. *)
#[local] Instance counting_provider : ObjectPageProvider Z N := {|
  page_size := 4096;
  lease_default := 0%N;
  lease_data l := Z.of_N l;
  lease_size _ := 4096;
  allocate_kernel_page next := (next + 1, Ok (Z.to_N (4096 * next)));
  release_kernel_page next l := (next, l, StatusCode.ok)
|}.
Definition sample_pool : @ObjectPool.t Z N bool := ObjectPool.new 1024 2 77 16 8.

Lemma sample_pool_wf : ObjectPool.wf 1024 2 sample_pool.
Proof. by apply new_pool_wf; concrete. Qed.

Lemma counting_leases (l : N) : 0 <= lease_data l.
Proof. apply N2Z.is_nonneg. Qed.

Lemma pool_create_witness :
  exists p' h a, create 1024 2 sample_pool true = (p', Ok h) /\
    resolve 1024 2 p' h = Ok a /\ heap p' !! a = Some true.
Proof.
  pose proof (create_spec 1024 2 ltac:(by concrete) ltac:(by concrete) ltac:(lia) counting_leases sample_pool true sample_pool_wf) as Hc.
  assert (snd (create 1024 2 sample_pool true) = Ok (ObjectHandle.mk 77 0 0 1)) as Hs by (vm_compute; reflexivity).
  destruct (create 1024 2 sample_pool true) as [p' r]. cbn [snd] in Hs. subst r.
  destruct Hc as (_ & _ & _ & _ & _ & a & Hr & Hh & _). exists p', (ObjectHandle.mk 77 0 0 1), a. split_and!; [done | exact Hr | exact Hh].
Defined.

(** The pool after one create(). *)
Definition one_object : @ObjectPool.t Z N bool := fst (create 1024 2 sample_pool true).
Lemma one_object_wf : ObjectPool.wf 1024 2 one_object.
Proof. apply (create_wf 1024 2 ltac:(by concrete) ltac:(by concrete) ltac:(lia) counting_leases sample_pool true sample_pool_wf). Qed.

Lemma pool_destroy_witness :
  let '(p', status) := destroy 1024 2 one_object (ObjectHandle.mk 77 0 0 1) in
  status = StatusCode.ok /\ live_ p' = live_ one_object - 1.
Proof.
  pose proof (destroy_spec 1024 2 one_object
    (ObjectHandle.mk 77 0 0 1) one_object_wf ltac:(by concrete)) as Hd.
  destruct (destroy 1024 2 one_object (ObjectHandle.mk 77 0 0 1)) as [p' status].
  change (resolve 1024 2 one_object (ObjectHandle.mk 77 0 0 1)) with (Ok 65536) in Hd. cbv iota in Hd.
  destruct Hd as (Hs & _ & Hl & _). split; [exact Hs | exact Hl].
Defined.

Lemma pool_trim_witness :
  let '(p', status) := trim_empty_pages 1024 2 (fst (destroy 1024 2 one_object (ObjectHandle.mk 77 0 0 1))) in
  same_objects 1024 2 (fst (destroy 1024 2 one_object (ObjectHandle.mk 77 0 0 1))) p' /\ status = fault_ p'.
Proof.
  set (p := fst (destroy 1024 2 one_object (ObjectHandle.mk 77 0 0 1))).
  assert (ObjectPool.wf 1024 2 p) as Hp
    by (apply destroy_keeps_wf; [exact one_object_wf | by concrete]).
  pose proof (trim_spec 1024 2 ltac:(by concrete) ltac:(lia) p Hp) as Ht.
  destruct (trim_empty_pages 1024 2 p) as [p' status]. destruct Ht as (_ & Hs & Hf & _). split; [exact Hs | exact Hf].
Defined.
End PoolWitnesses.
