(* ===== verification/EntryStack.v ===== *)
(** * Kernel entry stacks (include/ok/memory/kernel_entry_stack_pool.hpp,
      include/ok/arch/kernel_entry_stack.hpp)

    A pool of fixed stack slots between canary pages.  A lease is reserved for a
    thread, activated for at most one thread at a time, and released; a damaged
    canary quarantines the slot and stops the pool.  The arena is memory that
    code outside the pool also writes, so it is a function from offsets to
    bytes that steps of the environment may change. *)

From S2P Require Import Prelude.

Module EntryState.
Inductive t := free | reserved | active | quarantined.
#[global] Instance eq_dec : EqDecision t.
Proof. solve_decision. Defined.
Definition eqb (a b : t) : bool := bool_decide (a = b).
End EntryState.

Module EntryRecord.
Record t := mk {
  lower : Z; top : Z; pid : Z; tid : Z; generation : Z; epoch : Z; cpu : Z; state : EntryState.t
}.
Definition new : t := mk 0 0 0 0 0 0 0 EntryState.free.
#[global] Instance inhabited : Inhabited t := populate new.
Definition with_state (r : t) (s : EntryState.t) : t :=
  mk (lower r) (top r) (pid r) (tid r) (generation r) (epoch r) (cpu r) s.
End EntryRecord.

Module KernelEntryStackOwner.
Record t := mk { pid : Z; tid : Z }.
End KernelEntryStackOwner.

Module KernelEntryStackHandle.
Record t := mk { pool : Z; slot : Z; generation : Z }.
End KernelEntryStackHandle.

(** KernelEntryStackView: the record pointer is a pool and a slot; 0 is no record. *)
Module KernelEntryStackView.
Record t := mk { pool : Z; slot : Z; generation_ : Z; epoch_ : Z }.
End KernelEntryStackView.

Module KernelEntryStackPool.
Import KernelEntryStackHandle.
Section Defs.
Context `{Arch}.

Definition capacity : Z := 128.
Definition page_size : Z := 4096.
Definition usable_bytes : Z := 65536.
Definition canary_bytes : Z := page_size.
Definition slot_stride : Z := usable_bytes + 2 * canary_bytes.
Definition arena_bytes : Z := capacity * slot_stride.

Record t := mk {
  this : Z;
  sizeof_this : Z;
  backing_ : Z;                 (* address of the arena *)
  bytes_ : Z -> Z;              (* its contents by offset *)
  records_ : list EntryRecord.t;
  leased_ : Z;
  peak_ : Z;
  quarantined_ : Z;
  active_slot_ : Z;
  generation_ : Z;
  releases_ : Z;
  epoch_ : Z;
  fault_ : Status;
  initialized_ : bool
}.
Definition new (this sizeof_this : Z) : t :=
  mk this sizeof_this 0 (fun _ => 0) (replicate (Z.to_nat capacity) EntryRecord.new)
     0 0 0 capacity 0 0 0 StatusCode.ok false.

(** Field updates. *)
Definition with_bytes (p : t) (b : Z -> Z) : t :=
  mk (this p) (sizeof_this p) (backing_ p) b (records_ p) (leased_ p) (peak_ p) (quarantined_ p)
     (active_slot_ p) (generation_ p) (releases_ p) (epoch_ p) (fault_ p) (initialized_ p).
Definition with_record (p : t) (slot : Z) (r : EntryRecord.t) : t :=
  mk (this p) (sizeof_this p) (backing_ p) (bytes_ p) (records_ p).[slot := r] (leased_ p) (peak_ p) (quarantined_ p)
     (active_slot_ p) (generation_ p) (releases_ p) (epoch_ p) (fault_ p) (initialized_ p).
Definition with_active (p : t) (slot : Z) : t :=
  mk (this p) (sizeof_this p) (backing_ p) (bytes_ p) (records_ p) (leased_ p) (peak_ p) (quarantined_ p)
     slot (generation_ p) (releases_ p) (epoch_ p) (fault_ p) (initialized_ p).

Definition activate (p : t) (begin_ size : Z) : t * Status :=
  if initialized_ p then (p, StatusCode.already_exists)
  else if (begin_ =? 0) || negb (size =? arena_bytes) || negb (begin_ mod page_size =? 0)
          || (usize_max - begin_ <? arena_bytes)
  then (p, StatusCode.invalid_argument)
  else if (if this p <=? begin_ then begin_ - this p <? sizeof_this p else this p - begin_ <? size)
  then (p, StatusCode.invalid_argument)
  else
    (mk (this p) (sizeof_this p) begin_ (fun _ => 0) (records_ p) (leased_ p) (peak_ p) (quarantined_ p)
        (active_slot_ p) (generation_ p) (releases_ p) (epoch_ p) (fault_ p) true, StatusCode.ok).

(** canary(slot, generation, offset): a byte. *)
Definition canary (slot generation offset : Z) : Z :=
  Z.lxor (Z.lxor (Z.lxor 0xa5 (u8_wrap slot)) (u8_wrap (Z.shiftr generation ((offset mod 8) * 8)))) (u8_wrap offset).

Definition set_canaries (p : t) (slot generation : Z) : t :=
  with_bytes p (fun o =>
    let i := o - slot * slot_stride in
    if (0 <=? i) && (i <? canary_bytes) then canary slot generation i
    else if (canary_bytes + usable_bytes <=? i) && (i <? slot_stride)
    then canary slot generation (i - (canary_bytes + usable_bytes) + canary_bytes)
    else bytes_ p o).

Definition check_canaries (p : t) (slot : Z) : Status :=
  let generation := EntryRecord.generation (records_ p).[slot] in
  if forallb (fun i =>
       (bytes_ p (slot * slot_stride + i) =? canary slot generation i) &&
       (bytes_ p (slot * slot_stride + (canary_bytes + usable_bytes + i)) =? canary slot generation (i + canary_bytes)))
     (indices canary_bytes)
  then StatusCode.ok else StatusCode.fault.

Definition quarantine (p : t) (slot : Z) (status : Status) : t * Status :=
  let r := EntryRecord.with_state (records_ p).[slot] EntryState.quarantined in
  (mk (this p) (sizeof_this p) (backing_ p) (bytes_ p) (records_ p).[slot := r] (leased_ p) (peak_ p)
      (quarantined_ p + 1) (active_slot_ p) (generation_ p) (releases_ p) (epoch_ p)
      (if status_ok (fault_ p) then status else fault_ p) (initialized_ p), status).

Definition validate (p : t) (handle : KernelEntryStackHandle.t) (owner : KernelEntryStackOwner.t) : Status :=
  if negb (initialized_ p) then StatusCode.not_initialized
  else if negb (pool handle =? this p) || (capacity <=? slot handle) || (generation handle =? 0)
  then StatusCode.invalid_argument
  else
    let record := (records_ p).[slot handle] in
    if EntryState.eqb (EntryRecord.state record) EntryState.free
       || negb (EntryRecord.generation record =? generation handle)
    then StatusCode.not_found
    else if negb (KernelEntryStackOwner.pid owner =? EntryRecord.pid record)
            || negb (KernelEntryStackOwner.tid owner =? EntryRecord.tid record)
    then StatusCode.denied
    else if EntryState.eqb (EntryRecord.state record) EntryState.quarantined then StatusCode.fault
    else StatusCode.ok.

(** [record.state != free && record.pid == owner.pid && record.tid == owner.tid]. *)
Definition owns (owner : KernelEntryStackOwner.t) (r : EntryRecord.t) : bool :=
  negb (EntryState.eqb (EntryRecord.state r) EntryState.free) &&
  (EntryRecord.pid r =? KernelEntryStackOwner.pid owner) && (EntryRecord.tid r =? KernelEntryStackOwner.tid owner).

Fixpoint find_free (records : list EntryRecord.t) (i : Z) : option Z :=
  match records with
  | [] => None
  | r :: rest => if EntryState.eqb (EntryRecord.state r) EntryState.free then Some i else find_free rest (i + 1)
  end.

Definition reserve (p : t) (owner : KernelEntryStackOwner.t) : t * result KernelEntryStackHandle.t :=
  if negb (initialized_ p) then (p, Err StatusCode.not_initialized)
  else if negb (status_ok (fault_ p)) then (p, Err (fault_ p))
  else if (KernelEntryStackOwner.pid owner =? 0) || (KernelEntryStackOwner.tid owner =? 0)
  then (p, Err StatusCode.invalid_argument)
  else if existsb (owns owner) (records_ p) then (p, Err StatusCode.already_exists)
  else if generation_ p =? u64_max then (p, Err StatusCode.overflow)
  else
    match find_free (records_ p) 0 with
    | None => (p, Err StatusCode.no_memory)
    | Some slot =>
        let lower := backing_ p + slot * slot_stride + canary_bytes in
        let generation := generation_ p + 1 in
        let record := EntryRecord.mk lower (lower + usable_bytes) (KernelEntryStackOwner.pid owner)
                        (KernelEntryStackOwner.tid owner) generation 0 0 EntryState.reserved in
        let p := set_canaries p slot generation in
        let leased := leased_ p + 1 in
        (mk (this p) (sizeof_this p) (backing_ p) (bytes_ p) (records_ p).[slot := record] leased
            (if peak_ p <? leased then leased else peak_ p) (quarantined_ p) (active_slot_ p) generation
            (releases_ p) (epoch_ p) (fault_ p) (initialized_ p),
         Ok (KernelEntryStackHandle.mk (this p) slot generation))
    end.

Definition activate_entry (p : t) (handle : KernelEntryStackHandle.t) (owner : KernelEntryStackOwner.t) (cpu : Z)
    : t * result KernelEntryStackView.t :=
  let status := validate p handle owner in
  if negb (status_ok status) then (p, Err status)
  else if negb (status_ok (fault_ p)) then (p, Err (fault_ p))
  else if negb (cpu =? 0) then (p, Err StatusCode.unsupported)
  else if negb (active_slot_ p =? capacity) then (p, Err StatusCode.busy)
  else if epoch_ p =? u64_max then (p, Err StatusCode.overflow)
  else
    let record := (records_ p).[slot handle] in
    let status := check_canaries p (slot handle) in
    if negb (status_ok status) then let '(p, s) := quarantine p (slot handle) status in (p, Err s)
    else
      let epoch := epoch_ p + 1 in
      let record := EntryRecord.mk (EntryRecord.lower record) (EntryRecord.top record) (EntryRecord.pid record)
                      (EntryRecord.tid record) (EntryRecord.generation record) epoch cpu EntryState.active in
      (mk (this p) (sizeof_this p) (backing_ p) (bytes_ p) (records_ p).[slot handle := record] (leased_ p) (peak_ p)
          (quarantined_ p) (slot handle) (generation_ p) (releases_ p) epoch (fault_ p) (initialized_ p),
       Ok (KernelEntryStackView.mk (this p) (slot handle) (EntryRecord.generation record) epoch)).

Definition deactivate_entry (p : t) (handle : KernelEntryStackHandle.t) (owner : KernelEntryStackOwner.t) (cpu : Z)
    : t * Status :=
  let status := validate p handle owner in
  if negb (status_ok status) then (p, status)
  else
    let record := (records_ p).[slot handle] in
    if negb (EntryState.eqb (EntryRecord.state record) EntryState.active) || negb (active_slot_ p =? slot handle)
    then (p, StatusCode.not_found)
    else if negb (cpu =? EntryRecord.cpu record) then (p, StatusCode.denied)
    else
      let p := with_record p (slot handle) (EntryRecord.with_state record EntryState.reserved) in
      let p := with_active p capacity in
      let status := check_canaries p (slot handle) in
      if negb (status_ok status) then quarantine p (slot handle) status else (p, StatusCode.ok).

Definition validate_inactive (p : t) (handle : KernelEntryStackHandle.t) (owner : KernelEntryStackOwner.t) : t * Status :=
  let status := validate p handle owner in
  if negb (status_ok status) then (p, status)
  else if EntryState.eqb (EntryRecord.state (records_ p).[slot handle]) EntryState.active then (p, StatusCode.busy)
  else
    let status := check_canaries p (slot handle) in
    if negb (status_ok status) then quarantine p (slot handle) status else (p, StatusCode.ok).

Definition release (p : t) (handle : KernelEntryStackHandle.t) (owner : KernelEntryStackOwner.t) : t * Status :=
  let '(p, status) := validate_inactive p handle owner in
  if negb (status_ok status) then (p, status)
  else
    let first := slot handle * slot_stride in
    let bytes := fun o => if (first <=? o) && (o <? first + slot_stride) then 0 else bytes_ p o in
    (mk (this p) (sizeof_this p) (backing_ p) bytes (records_ p).[slot handle := EntryRecord.new] (leased_ p - 1) (peak_ p)
        (quarantined_ p) (active_slot_ p) (generation_ p) (u64_wrap (releases_ p + 1)) (epoch_ p) (fault_ p)
        (initialized_ p), StatusCode.ok).

Definition top (p : t) (handle : KernelEntryStackHandle.t) (owner : KernelEntryStackOwner.t) : t * result Z :=
  let '(p, status) := validate_inactive p handle owner in
  if negb (status_ok status) then (p, Err status) else (p, Ok (EntryRecord.top (records_ p).[slot handle])).

Definition inactive_epoch (p : t) (handle : KernelEntryStackHandle.t) (owner : KernelEntryStackOwner.t) : t * result Z :=
  let '(p, status) := validate_inactive p handle owner in
  if negb (status_ok status) then (p, Err status) else (p, Ok (EntryRecord.epoch (records_ p).[slot handle])).

(** KernelEntryStackView::valid() and the accessors it guards; a view names a record of its pool. *)
Definition view_valid (p : t) (v : KernelEntryStackView.t) : bool :=
  let record := (records_ p).[KernelEntryStackView.slot v] in
  (KernelEntryStackView.pool v =? this p) && negb (KernelEntryStackView.generation_ v =? 0)
  && negb (KernelEntryStackView.epoch_ v =? 0)
  && EntryState.eqb (EntryRecord.state record) EntryState.active
  && (EntryRecord.generation record =? KernelEntryStackView.generation_ v)
  && (EntryRecord.epoch record =? KernelEntryStackView.epoch_ v).

Definition view_contains (p : t) (v : KernelEntryStackView.t) (address bytes : Z) : bool :=
  let record := (records_ p).[KernelEntryStackView.slot v] in
  view_valid p v && (EntryRecord.lower record <=? address) && (address <=? EntryRecord.top record)
  && (bytes <=? EntryRecord.top record - address).

Definition active_epoch (p : t) (handle : KernelEntryStackHandle.t) (owner : KernelEntryStackOwner.t)
    (view : KernelEntryStackView.t) : result Z :=
  let status := validate p handle owner in
  if negb (status_ok status) then Err status
  else
    let record := (records_ p).[slot handle] in
    if negb (active_slot_ p =? slot handle) || negb (EntryRecord.cpu record =? 0) || negb (view_valid p view)
       || negb (KernelEntryStackView.slot view =? slot handle)
       || negb (KernelEntryStackView.generation_ view =? generation handle)
       || negb (KernelEntryStackView.epoch_ view =? EntryRecord.epoch record)
    then Err StatusCode.denied
    else Ok (EntryRecord.epoch record).

(** ** Invariant *)
Definition in_use (r : EntryRecord.t) : Z := if EntryState.eqb (EntryRecord.state r) EntryState.free then 0 else 1.
Definition is_quarantined (r : EntryRecord.t) : Z := if EntryState.eqb (EntryRecord.state r) EntryState.quarantined then 1 else 0.

Record wf (p : t) : Prop := {
  wf_records : zlen (records_ p) = capacity;
  wf_leased : leased_ p = zsum in_use (records_ p) /\ leased_ p <= peak_ p;
  wf_quarantined : quarantined_ p = zsum is_quarantined (records_ p);
  wf_generation : 0 <= generation_ p <= u64_max /\ 0 <= epoch_ p <= u64_max;
  wf_lease : forall i, 0 <= i < capacity -> let r := (records_ p).[i] in
    EntryRecord.state r <> EntryState.free ->
    initialized_ p = true /\
    1 <= EntryRecord.generation r <= generation_ p /\ 0 <= EntryRecord.epoch r <= epoch_ p /\
    EntryRecord.lower r = backing_ p + i * slot_stride + canary_bytes /\
    EntryRecord.top r = EntryRecord.lower r + usable_bytes;
  wf_distinct : forall i j, 0 <= i < capacity -> 0 <= j < capacity ->
    EntryRecord.state (records_ p).[i] <> EntryState.free -> EntryRecord.state (records_ p).[j] <> EntryState.free ->
    EntryRecord.generation (records_ p).[i] = EntryRecord.generation (records_ p).[j] \/
    (EntryRecord.pid (records_ p).[i] = EntryRecord.pid (records_ p).[j] /\
     EntryRecord.tid (records_ p).[i] = EntryRecord.tid (records_ p).[j]) -> i = j;
  wf_active : forall i, 0 <= i < capacity ->
    EntryRecord.state (records_ p).[i] = EntryState.active <-> active_slot_ p = i;
  wf_active_range : 0 <= active_slot_ p <= capacity;
  wf_fault : status_ok (fault_ p) = true -> quarantined_ p = 0
}.
End Defs.
End KernelEntryStackPool.

(** ** Every operation keeps the invariant *)
Section StackFacts.
Context `{Arch}.
Import KernelEntryStackPool.
Implicit Types p : KernelEntryStackPool.t.

Definition in_state (r : EntryRecord.t) (s : EntryState.t) : Prop := EntryRecord.state r = s.

Lemma eqb_state a b : EntryState.eqb a b = true <-> a = b.
Proof. unfold EntryState.eqb. apply bool_decide_eq_true. Qed.

Lemma eqb_state_false a b : EntryState.eqb a b = false <-> a <> b.
Proof. unfold EntryState.eqb. apply bool_decide_eq_false. Qed.

Lemma record_at p i r j : wf p -> 0 <= i < capacity -> 0 <= j ->
  (records_ p).[i := r].[j] = if j =? i then r else (records_ p).[j].
Proof. intros Hwf Hi Hj. apply aget_aset; [by rewrite wf_records | done]. Qed.

(** Replacing one record. *)
Lemma wf_set p p' i r :
  wf p -> 0 <= i < capacity -> records_ p' = (records_ p).[i := r] ->
  leased_ p' = leased_ p - in_use (records_ p).[i] + in_use r -> leased_ p' <= peak_ p' ->
  quarantined_ p' = quarantined_ p - is_quarantined (records_ p).[i] + is_quarantined r ->
  generation_ p <= generation_ p' <= u64_max -> epoch_ p <= epoch_ p' <= u64_max ->
  backing_ p' = backing_ p -> initialized_ p' = initialized_ p ->
  (EntryRecord.state r <> EntryState.free -> initialized_ p = true /\
     1 <= EntryRecord.generation r <= generation_ p' /\ 0 <= EntryRecord.epoch r <= epoch_ p' /\
     EntryRecord.lower r = backing_ p + i * slot_stride + canary_bytes /\
     EntryRecord.top r = EntryRecord.lower r + usable_bytes /\
     forall j, 0 <= j < capacity -> j <> i -> EntryRecord.state (records_ p).[j] <> EntryState.free ->
       EntryRecord.generation (records_ p).[j] <> EntryRecord.generation r /\
       ~ (EntryRecord.pid (records_ p).[j] = EntryRecord.pid r /\ EntryRecord.tid (records_ p).[j] = EntryRecord.tid r)) ->
  (EntryRecord.state r = EntryState.active <-> active_slot_ p' = i) ->
  (forall j, 0 <= j < capacity -> j <> i -> active_slot_ p' = j <-> active_slot_ p = j) ->
  0 <= active_slot_ p' <= capacity -> (status_ok (fault_ p') = true -> quarantined_ p' = 0) -> wf p'.
Proof.
  intros Hwf Hi Er El Epk Eq Eg Ee Eb Ei Hr Hact Hother Hrange Hfault.
  assert (forall j, 0 <= j -> (records_ p').[j] = if j =? i then r else (records_ p).[j]) as Hat
    by (intros; rewrite Er; by apply record_at).
  constructor; try done.
  - rewrite Er, zlen_aset. by apply wf_records.
  - split; [| done]. rewrite El, Er, zsum_aset by (by rewrite wf_records). by rewrite (proj1 (wf_leased p Hwf)).
  - rewrite Eq, Er, zsum_aset by (by rewrite wf_records). by rewrite (wf_quarantined p Hwf).
  - pose proof (wf_generation p Hwf). lia.
  - intros j Hj. cbn zeta. rewrite Hat, Eb, Ei by lia. destruct (Z.eqb_spec j i) as [-> |].
    + intros Hst. destruct (Hr Hst) as (? & ? & ? & ? & ? & _). done.
    + intros Hst. destruct (wf_lease p Hwf j Hj Hst) as (? & ? & ? & ? & ?). split_and!; done || lia.
  - intros j k Hj Hk. rewrite !Hat by lia. destruct (Z.eqb_spec j i) as [-> |], (Z.eqb_spec k i) as [-> |]; try done.
    + intros Hs Hs' Heq. destruct (Hr Hs) as (_ & _ & _ & _ & _ & Hne). destruct (Hne k Hk ltac:(done) Hs') as [Hg Ho].
      destruct Heq as [Heq | [? ?]]; [congruence |]. exfalso. apply Ho. split; congruence.
    + intros Hs Hs' Heq. destruct (Hr Hs') as (_ & _ & _ & _ & _ & Hne). destruct (Hne j Hj ltac:(done) Hs) as [Hg Ho].
      destruct Heq as [Heq | [? ?]]; [congruence |]. exfalso. apply Ho. split; congruence.
    + by apply (wf_distinct p Hwf).
  - intros j Hj. rewrite Hat by lia. destruct (Z.eqb_spec j i) as [-> |]; [done |].
    rewrite Hother by done. by apply (wf_active p Hwf).
Qed.

(** Two different in-use slots differ in generation and owner. *)
Lemma others_differ p i j : wf p -> 0 <= i < capacity -> 0 <= j < capacity -> j <> i ->
  EntryRecord.state (records_ p).[i] <> EntryState.free -> EntryRecord.state (records_ p).[j] <> EntryState.free ->
  EntryRecord.generation (records_ p).[j] <> EntryRecord.generation (records_ p).[i] /\
  ~ (EntryRecord.pid (records_ p).[j] = EntryRecord.pid (records_ p).[i] /\
     EntryRecord.tid (records_ p).[j] = EntryRecord.tid (records_ p).[i]).
Proof.
  intros Hwf Hi Hj Hne Hs Hs'. split; intros Heq; apply Hne; apply (wf_distinct p Hwf); auto.
Qed.

(** A state change of a record that stays in use. *)
Lemma wf_restate p p' i r :
  wf p -> 0 <= i < capacity -> EntryRecord.state (records_ p).[i] <> EntryState.free ->
  EntryRecord.state r <> EntryState.free ->
  EntryRecord.lower r = EntryRecord.lower (records_ p).[i] -> EntryRecord.top r = EntryRecord.top (records_ p).[i] ->
  EntryRecord.pid r = EntryRecord.pid (records_ p).[i] -> EntryRecord.tid r = EntryRecord.tid (records_ p).[i] ->
  EntryRecord.generation r = EntryRecord.generation (records_ p).[i] -> 0 <= EntryRecord.epoch r <= epoch_ p' ->
  records_ p' = (records_ p).[i := r] -> leased_ p' = leased_ p -> peak_ p' = peak_ p ->
  quarantined_ p' = quarantined_ p - is_quarantined (records_ p).[i] + is_quarantined r ->
  generation_ p' = generation_ p -> epoch_ p <= epoch_ p' <= u64_max ->
  backing_ p' = backing_ p -> initialized_ p' = initialized_ p ->
  (EntryRecord.state r = EntryState.active <-> active_slot_ p' = i) ->
  (forall j, 0 <= j < capacity -> j <> i -> active_slot_ p' = j <-> active_slot_ p = j) ->
  0 <= active_slot_ p' <= capacity -> (status_ok (fault_ p') = true -> quarantined_ p' = 0) -> wf p'.
Proof.
  intros Hwf Hi Hs Hs' El Et Ep Etd Eg Hep Er Els Epk Eq Egn Ee Eb Ein Ha Ho Hrg Hf.
  destruct (wf_lease p Hwf i Hi Hs) as (Hin & Hg & _ & Hlo & Hto). pose proof (wf_leased p Hwf) as [_ Hpk].
  pose proof (proj1 (wf_generation p Hwf)).
  apply (wf_set p p' i r); try done; try lia.
  - unfold in_use. rewrite (proj2 (eqb_state_false _ _) Hs), (proj2 (eqb_state_false _ _) Hs'). lia.
  - intros _. split_and!; try done; try lia; try congruence.
    intros j Hj Hne Hsj. rewrite Ep, Etd, Eg. by apply others_differ.
Qed.

Lemma stack_quarantine_wf p i st : wf p -> 0 <= i < capacity ->
  EntryRecord.state (records_ p).[i] <> EntryState.free -> EntryRecord.state (records_ p).[i] <> EntryState.quarantined ->
  active_slot_ p <> i -> status_ok st = false -> wf (fst (quarantine p i st)).
Proof.
  intros Hwf Hi Hs Hq Ha Hst. pose proof (wf_generation p Hwf). destruct (wf_lease p Hwf i Hi Hs) as (_ & _ & He & _).
  apply (wf_restate p _ i (EntryRecord.with_state (records_ p).[i] EntryState.quarantined)); try done; cbn -[is_quarantined]; try lia.
  - change (is_quarantined (EntryRecord.with_state _ EntryState.quarantined)) with 1.
    unfold is_quarantined. rewrite (proj2 (eqb_state_false _ _) Hq). cbn. lia.
  - by apply wf_active_range.
  - destruct (status_ok (fault_ p)) eqn:E; [by rewrite Hst | by rewrite E].
Qed.

(** A handle that validates names an in-use, unquarantined slot. *)
Lemma validate_ok p h o : validate p h o = StatusCode.ok ->
  let r := (records_ p).[KernelEntryStackHandle.slot h] in
  initialized_ p = true /\ KernelEntryStackHandle.pool h = this p /\ KernelEntryStackHandle.slot h < capacity /\
  EntryRecord.state r <> EntryState.free /\ EntryRecord.state r <> EntryState.quarantined /\
  EntryRecord.generation r = KernelEntryStackHandle.generation h /\ EntryRecord.pid r = KernelEntryStackOwner.pid o /\
  EntryRecord.tid r = KernelEntryStackOwner.tid o.
Proof.
  unfold validate. destruct (initialized_ p); [| done]. cbn [negb]. destruct (_ || (_ =? 0)) eqn:E1; [done |].
  destruct (_ || negb (_ =? KernelEntryStackHandle.generation h)) eqn:E2; [done |].
  destruct (_ || negb (_ =? EntryRecord.tid _)) eqn:E3; [done |]. destruct (EntryState.eqb _ EntryState.quarantined) eqn:E4; [done |].
  intros _. b2p. repeat match goal with Hx : EntryState.eqb _ _ = false |- _ => apply eqb_state_false in Hx end.
  split_and!; done || lia.
Qed.

Lemma inactive_slot p i : wf p -> 0 <= i < capacity -> EntryRecord.state (records_ p).[i] <> EntryState.active -> active_slot_ p <> i.
Proof. intros Hwf Hi Hs Ha. apply Hs. by apply (wf_active p Hwf). Qed.

Lemma check_canaries_status p i : check_canaries p i = StatusCode.ok \/ check_canaries p i = StatusCode.fault.
Proof. unfold check_canaries. case_match; auto. Qed.

Lemma validate_inactive_wf p h o : wf p -> 0 <= KernelEntryStackHandle.slot h -> wf (fst (validate_inactive p h o)).
Proof.
  intros Hwf Hs. unfold validate_inactive. destruct (status_ok (validate p h o)) eqn:Ev; cbn [negb]; [| done].
  assert (validate p h o = StatusCode.ok) as Hv by (by destruct (validate p h o)).
  destruct (validate_ok p h o Hv) as (_ & _ & Hlt & Hf & Hq & _).
  destruct (EntryState.eqb _ EntryState.active) eqn:Ea; [done |]. apply eqb_state_false in Ea.
  destruct (check_canaries_status p (KernelEntryStackHandle.slot h)) as [-> | ->]; cbn [status_ok negb]; [done |].
  apply stack_quarantine_wf; try done. by apply inactive_slot.
Qed.

Lemma find_free_spec l i : match find_free l i with
  | Some k => i <= k < i + zlen l /\ EntryRecord.state l.[k - i] = EntryState.free
  | None => Forall (fun r => EntryRecord.state r <> EntryState.free) l
  end.
Proof.
  revert i. induction l as [| r l IH]; intros i; cbn [find_free]; [done |]. rewrite zlen_cons. pose proof (zlen_nonneg l).
  destruct (EntryState.eqb _ _) eqn:E.
  - apply eqb_state in E. split; [lia |]. by rewrite Z.sub_diag.
  - apply eqb_state_false in E. specialize (IH (i + 1)). destruct (find_free l (i + 1)) as [k |]; [| by constructor].
    destruct IH. split; [lia |]. rewrite aget_cons_pos by lia. by replace (k - i - 1) with (k - (i + 1)) by lia.
Qed.

Lemma reserve_wf p o : wf p -> wf (fst (reserve p o)).
Proof.
  intros Hwf. unfold reserve. destruct (initialized_ p) eqn:Ei; cbn [negb]; [| done].
  destruct (status_ok (fault_ p)) eqn:Ef; cbn [negb]; [| done]. destruct (_ || _); [done |].
  destruct (existsb _ _) eqn:Ex; [done |]. destruct (Z.eqb_spec (generation_ p) u64_max) as [| Hg]; [done |].
  pose proof (find_free_spec (records_ p) 0) as Hf. destruct (find_free _ _) as [i |]; [| done].
  rewrite (wf_records p Hwf), Z.sub_0_r in Hf. destruct Hf as [Hi Hst]. pose proof (wf_generation p Hwf) as [Hgr Her].
  cbn [fst]. set (r := EntryRecord.mk _ _ _ _ _ _ _ _).
  pose proof (wf_leased p Hwf) as [Hl Hpk].
  apply (wf_set p _ i r); [done | lia | done | | | | | | done | done | | | | |]; cbn -[in_use is_quarantined].
  - change (in_use r) with 1. unfold in_use. rewrite Hst. change (EntryState.eqb EntryState.free EntryState.free) with true. cbn. lia.
  - case_match; b2p; lia.
  - change (is_quarantined r) with 0. unfold is_quarantined. rewrite Hst.
    change (EntryState.eqb EntryState.free EntryState.quarantined) with false. cbn. lia.
  - lia.
  - lia.
  - intros _. split_and!; try done; try lia. intros j Hj Hne Hsj. split.
    + destruct (wf_lease p Hwf j Hj Hsj) as (_ & ? & _). lia.
    + intros [Hp Ht]. assert (existsb (owns o) (records_ p) = true) as Hx; [| congruence].
      apply existsb_exists. exists (records_ p).[j]. split.
      * apply list_elem_of_In, list_elem_of_lookup. exists (Z.to_nat j). apply lookup_aget. by rewrite wf_records.
      * unfold owns. rewrite (proj2 (eqb_state_false _ _) Hsj), Hp, Ht, !Z.eqb_refl. done.
  - split; [done |]. intros Ha. assert (EntryRecord.state (records_ p).[i] = EntryState.active) as Hx; [| congruence].
    apply (wf_active p Hwf); [lia | done].
  - done.
  - by apply wf_active_range.
  - intros _. by apply (wf_fault p Hwf).
Qed.

Lemma activate_entry_wf p h o cpu : wf p -> 0 <= KernelEntryStackHandle.slot h -> wf (fst (activate_entry p h o cpu)).
Proof.
  intros Hwf Hs. unfold activate_entry. destruct (status_ok (validate p h o)) eqn:Ev; cbn [negb]; [| done].
  assert (validate p h o = StatusCode.ok) as Hv by (by destruct (validate p h o)).
  destruct (validate_ok p h o Hv) as (_ & _ & Hlt & Hf & Hq & _). set (i := KernelEntryStackHandle.slot h) in *.
  destruct (status_ok (fault_ p)) eqn:Eft; cbn [negb]; [| done]. destruct (cpu =? 0); cbn [negb]; [| done].
  destruct (Z.eqb_spec (active_slot_ p) capacity) as [Hno |]; cbn [negb]; [| done].
  destruct (Z.eqb_spec (epoch_ p) u64_max) as [| He]; [done |].
  destruct (check_canaries_status p i) as [-> | ->]; cbn [status_ok negb].
  2: { apply stack_quarantine_wf; try done; lia. }
  cbn [fst]. pose proof (wf_generation p Hwf) as [_ Her].
  set (r := EntryRecord.mk _ _ _ _ _ _ _ _). apply (wf_restate p _ i r); try done; try lia; cbn -[is_quarantined]; try lia.
  - change (is_quarantined r) with 0. unfold is_quarantined. rewrite (proj2 (eqb_state_false _ _) Hq). cbn. lia.
  - intros _. by apply (wf_fault p Hwf).
Qed.

Lemma deactivate_entry_wf p h o cpu : wf p -> 0 <= KernelEntryStackHandle.slot h -> wf (fst (deactivate_entry p h o cpu)).
Proof.
  intros Hwf Hs. unfold deactivate_entry. destruct (status_ok (validate p h o)) eqn:Ev; cbn [negb]; [| done].
  assert (validate p h o = StatusCode.ok) as Hv by (by destruct (validate p h o)).
  destruct (validate_ok p h o Hv) as (_ & _ & Hlt & Hf & Hq & _). set (i := KernelEntryStackHandle.slot h) in *.
  destruct (_ || _) eqn:E1; [done |]. destruct (cpu =? _); cbn [negb]; [| done]. b2p.
  pose proof (wf_generation p Hwf) as [_ Her]. destruct (wf_lease p Hwf i ltac:(lia) Hf) as (_ & _ & He & _).
  set (p1 := with_active _ capacity). set (r := EntryRecord.with_state (records_ p).[i] EntryState.reserved) in *.
  assert (wf p1) as Hwf1.
  { apply (wf_restate p p1 i r); try done; try lia; cbn -[is_quarantined]; try lia.
    - change (is_quarantined r) with 0. unfold is_quarantined. rewrite (proj2 (eqb_state_false _ _) Hq). cbn. lia.
    - split; [done |]. intros Hx. cbn in Hx. lia.
    - intros Hfo. by apply (wf_fault p Hwf). }
  destruct (check_canaries_status p1 i) as [-> | ->]; cbn [status_ok negb]; [done |].
  assert ((records_ p1).[i] = r) as Hr by (cbn; rewrite record_at by (done || lia); by rewrite Z.eqb_refl).
  apply stack_quarantine_wf; rewrite ?Hr; try done. cbn. lia.
Qed.

Lemma release_wf p h o : wf p -> 0 <= KernelEntryStackHandle.slot h -> wf (fst (release p h o)).
Proof.
  intros Hwf Hs. unfold release. pose proof (validate_inactive_wf p h o Hwf Hs) as Hwf1.
  destruct (validate_inactive p h o) as [p1 st] eqn:E. destruct (status_ok st) eqn:Est; cbn [negb]; [| done].
  unfold validate_inactive in E. destruct (status_ok (validate p h o)) eqn:Ev; cbn [negb] in E; [| injection E as <- <-; by rewrite Ev in Est].
  assert (validate p h o = StatusCode.ok) as Hv by (by destruct (validate p h o)).
  destruct (validate_ok p h o Hv) as (_ & _ & Hlt & Hf & Hq & _). set (i := KernelEntryStackHandle.slot h) in *.
  destruct (EntryState.eqb _ EntryState.active) eqn:Ea; [by injection E as <- <- |]. apply eqb_state_false in Ea.
  destruct (check_canaries_status p i) as [Ec | Ec]; rewrite Ec in E; cbn [status_ok negb] in E; injection E as <- <-; [| done].
  cbn [fst]. pose proof (wf_generation p Hwf). pose proof (wf_leased p Hwf) as [_ Hpk].
  pose proof (inactive_slot p i Hwf ltac:(lia) Ea) as Hna.
  apply (wf_set p _ i EntryRecord.new); try done; try lia; cbn -[is_quarantined in_use]; try lia.
  - change (in_use EntryRecord.new) with 0. unfold in_use. rewrite (proj2 (eqb_state_false _ _) Hf). cbn. lia.
  - change (is_quarantined EntryRecord.new) with 0. unfold is_quarantined. rewrite (proj2 (eqb_state_false _ _) Hq). cbn. lia.
  - by apply wf_active_range.
  - intros Hfo. by apply (wf_fault p Hwf).
Qed.

Lemma activate_wf p b n : wf p -> wf (fst (activate p b n)).
Proof.
  intros Hwf. unfold activate. destruct (initialized_ p) eqn:Ei; [done |]. do 2 (match goal with |- context [if ?c then (p, StatusCode.invalid_argument) else _] => destruct c end; [done |]).
  destruct Hwf. constructor; try done. cbn. intros i Hi Hs. destruct (wf_lease0 i Hi Hs) as (? & _). congruence.
Qed.

Lemma bytes_wf p b : wf p -> wf (with_bytes p b).
Proof. intros []. by constructor. Qed.
End StackFacts.

(** ** Histories *)
Section StackHistories.
Context `{Arch}.
Import KernelEntryStackPool.
Implicit Types p : KernelEntryStackPool.t.

(** The pool's operations, and a store by any code to a byte of the arena. *)
Inductive stack_op :=
| SActivateArena (begin_ size : Z)
| SReserve (owner : KernelEntryStackOwner.t)
| SActivate (h : KernelEntryStackHandle.t) (owner : KernelEntryStackOwner.t) (cpu : Z)
| SDeactivate (h : KernelEntryStackHandle.t) (owner : KernelEntryStackOwner.t) (cpu : Z)
| SValidate (h : KernelEntryStackHandle.t) (owner : KernelEntryStackOwner.t)
| SRelease (h : KernelEntryStackHandle.t) (owner : KernelEntryStackOwner.t)
| SStore (offset value : Z).

Definition stack_exec p (o : stack_op) : KernelEntryStackPool.t :=
  match o with
  | SActivateArena b n => fst (activate p b n)
  | SReserve owner => fst (reserve p owner)
  | SActivate h owner cpu => fst (activate_entry p h owner cpu)
  | SDeactivate h owner cpu => fst (deactivate_entry p h owner cpu)
  | SValidate h owner => fst (validate_inactive p h owner)
  | SRelease h owner => fst (release p h owner)
  | SStore offset value => with_bytes p (fun x => if x =? offset then value else bytes_ p x)
  end.

Definition stack_op_ok (o : stack_op) : Prop :=
  match o with
  | SActivate h _ _ | SDeactivate h _ _ | SValidate h _ | SRelease h _ => 0 <= KernelEntryStackHandle.slot h
  | _ => True
  end.

(** Stores that stay inside the usable part of some slot. *)
Definition store_in_stack (o : stack_op) : Prop :=
  match o with
  | SStore offset _ => exists i, 0 <= i < capacity /\
      i * slot_stride + canary_bytes <= offset < i * slot_stride + canary_bytes + usable_bytes
  | _ => True
  end.

Lemma stack_exec_wf p o : wf p -> stack_op_ok o -> wf (stack_exec p o).
Proof.
  intros Hwf Ho. destruct o; cbn [stack_exec stack_op_ok] in *.
  - by apply activate_wf.
  - by apply reserve_wf.
  - by apply activate_entry_wf.
  - by apply deactivate_entry_wf.
  - by apply validate_inactive_wf.
  - by apply release_wf.
  - by apply bytes_wf.
Qed.

Lemma new_wf self size : wf (new self size).
Proof.
  assert (forall i, 0 <= i < capacity -> (records_ (new self size)).[i] = EntryRecord.new) as Hat
    by (intros; apply aget_replicate; unfold capacity in *; lia).
  constructor; try done; try (intros i Hi; rewrite Hat by done; done).
  - intros i j Hi Hj. rewrite !Hat by done. done.
  - intros i Hi. rewrite Hat by done. split; [done |]. cbn. lia.
Qed.

Lemma stack_run_wf p ops : wf p -> Forall stack_op_ok ops -> wf (fold_left stack_exec ops p).
Proof. intros Hwf Hops. revert p Hwf. induction Hops as [| o ops Ho _ IH]; intros p Hwf; [done |]. by apply IH, stack_exec_wf. Qed.

(** C32: in every history, arbitrary stores into the arena included, leases
    and quarantined slots are counted exactly, at most one lease is active,
    no two leases share a generation or a thread, and their stacks are disjoint
    ranges inside the arena. *)
Theorem entry_stacks_exclusive self size ops :
  Forall stack_op_ok ops ->
  let p := fold_left stack_exec ops (new self size) in
  wf p /\
  (forall i j, 0 <= i < capacity -> 0 <= j < capacity ->
     EntryRecord.state (records_ p).[i] = EntryState.active -> EntryRecord.state (records_ p).[j] = EntryState.active -> i = j) /\
  (forall i, 0 <= i < capacity -> EntryRecord.state (records_ p).[i] <> EntryState.free ->
     backing_ p + canary_bytes <= EntryRecord.lower (records_ p).[i] /\
     EntryRecord.top (records_ p).[i] + canary_bytes <= backing_ p + arena_bytes) /\
  (forall i j, 0 <= i < capacity -> 0 <= j < capacity -> i < j ->
     EntryRecord.state (records_ p).[i] <> EntryState.free -> EntryRecord.state (records_ p).[j] <> EntryState.free ->
     EntryRecord.top (records_ p).[i] + 2 * canary_bytes <= EntryRecord.lower (records_ p).[j]).
Proof.
  intros Hops p. assert (wf p) as Hwf by (apply stack_run_wf; [apply new_wf | done]). split; [done |].
  split; [intros i j Hi Hj Hai Haj; apply (wf_active p Hwf) in Hai, Haj; congruence |].
  split; [intros i Hi Hs | intros i j Hi Hj Hlt Hs Hs'; destruct (wf_lease p Hwf j Hj Hs') as (_ & _ & _ & Hl' & Ht')];
    destruct (wf_lease p Hwf i Hi Hs) as (_ & _ & _ & Hl & Ht);
    unfold arena_bytes, slot_stride, usable_bytes, canary_bytes, page_size, capacity in *; lia.
Qed.
End StackHistories.

(** ** Views *)
Section StackViews.
Context `{Arch}.
Import KernelEntryStackPool.
Implicit Types p : KernelEntryStackPool.t.

(** Active records come from before, or carry an epoch not used before. *)
Definition epochs_advance p p' : Prop :=
  this p' = this p /\ epoch_ p <= epoch_ p' /\
  forall i, 0 <= i < capacity -> EntryRecord.state (records_ p').[i] = EntryState.active ->
    (records_ p').[i] = (records_ p).[i] \/ epoch_ p < EntryRecord.epoch (records_ p').[i].

Lemma epochs_set p p' i r : wf p -> 0 <= i < capacity -> this p' = this p -> records_ p' = (records_ p).[i := r] ->
  epoch_ p <= epoch_ p' -> (EntryRecord.state r = EntryState.active -> epoch_ p < EntryRecord.epoch r) -> epochs_advance p p'.
Proof.
  intros Hwf Hi Et Er Ee Hr. split_and!; try done. intros j Hj. rewrite Er, record_at by (done || lia).
  destruct (Z.eqb_spec j i) as [-> |]; [intros; right; by apply Hr | by left].
Qed.

Lemma quarantine_epochs p i st : wf p -> 0 <= i < capacity -> epochs_advance p (fst (quarantine p i st)).
Proof. intros Hwf Hi. by apply (epochs_set p _ i (EntryRecord.with_state (records_ p).[i] EntryState.quarantined)). Qed.

Lemma validate_inactive_epochs p h o : wf p -> 0 <= KernelEntryStackHandle.slot h ->
  epochs_advance p (fst (validate_inactive p h o)).
Proof.
  intros Hwf Hs. assert (epochs_advance p p) as Hrefl by (split_and!; auto; lia).
  unfold validate_inactive. destruct (status_ok (validate p h o)) eqn:Ev; cbn [negb]; [| done].
  assert (validate p h o = StatusCode.ok) as Hv by (by destruct (validate p h o)).
  destruct (validate_ok p h o Hv) as (_ & _ & Hlt & _). destruct (EntryState.eqb _ _); [done |].
  destruct (negb _); [| done]. by apply quarantine_epochs.
Qed.

Lemma stack_exec_epochs p o : wf p -> stack_op_ok o -> epochs_advance p (stack_exec p o).
Proof.
  intros Hwf Ho. assert (epochs_advance p p) as Hrefl by (split_and!; auto; lia).
  destruct o as [b n | owner | h owner cpu | h owner cpu | h owner | h owner | x v]; cbn [stack_exec stack_op_ok] in *; try done.
  - unfold activate. by repeat (match goal with |- context [if ?c then (p, _) else _] => destruct c end; [done |]).
  - unfold reserve. repeat (match goal with |- context [if ?c then (p, _) else _] => destruct c end; [done |]).
    pose proof (find_free_spec (records_ p) 0) as Hf. destruct (find_free _ _) as [i |]; [| done].
    rewrite (wf_records p Hwf) in Hf. eapply (epochs_set p _ i); [done | lia | done | done | done | done].
  - unfold activate_entry. destruct (status_ok (validate p h owner)) eqn:Ev; cbn [negb]; [| done].
    assert (validate p h owner = StatusCode.ok) as Hv by (by destruct (validate p h owner)).
    destruct (validate_ok p h owner Hv) as (_ & _ & Hlt & _).
    repeat (match goal with |- context [if ?c then (p, _) else _] => destruct c end; [done |]).
    destruct (negb _); [by apply quarantine_epochs |]. cbn [fst].
    eapply (epochs_set p _ (KernelEntryStackHandle.slot h)); [done | done | done | done | cbn; lia | cbn; lia].
  - unfold deactivate_entry. destruct (status_ok (validate p h owner)) eqn:Ev; cbn [negb]; [| done].
    assert (validate p h owner = StatusCode.ok) as Hv by (by destruct (validate p h owner)).
    destruct (validate_ok p h owner Hv) as (_ & _ & Hlt & _).
    repeat (match goal with |- context [if ?c then (p, _) else _] => destruct c end; [done |]).
    destruct (negb _); [| by eapply (epochs_set p _ (KernelEntryStackHandle.slot h))]. cbn [quarantine fst].
    eapply (epochs_set p _ (KernelEntryStackHandle.slot h)); [done | done | done | | done |].
    + cbn. unfold aset. by rewrite list_insert_insert_eq.
    + done.
  - by apply validate_inactive_epochs.
  - unfold release. pose proof (validate_inactive_epochs p h owner Hwf Ho) as Hve.
    pose proof (validate_inactive_wf p h owner Hwf Ho) as Hwf1.
    destruct (validate_inactive p h owner) as [p1 st] eqn:E. destruct (status_ok st) eqn:Est; cbn [negb fst] in *; [| done].
    assert (KernelEntryStackHandle.slot h < capacity) as Hlt.
    { unfold validate_inactive in E. destruct (status_ok (validate p h owner)) eqn:Ev; cbn [negb] in E; [| injection E as <- <-; by rewrite Ev in Est].
      assert (validate p h owner = StatusCode.ok) as Hv by (by destruct (validate p h owner)).
      by destruct (validate_ok p h owner Hv) as (_ & _ & ? & _). }
    destruct Hve as (Et & Ee & Hr). split_and!; [done | done |]. intros j Hj. cbn.
    rewrite record_at by (done || lia). case_match; [done | by apply Hr].
Qed.

(** A valid view names the active record it was minted for. *)
Lemma view_valid_spec p v : view_valid p v = true ->
  KernelEntryStackView.pool v = this p /\
  EntryRecord.state (records_ p).[KernelEntryStackView.slot v] = EntryState.active /\
  EntryRecord.epoch (records_ p).[KernelEntryStackView.slot v] = KernelEntryStackView.epoch_ v.
Proof.
  unfold view_valid. intros. b2p. match goal with Hx : EntryState.eqb _ _ = true |- _ => apply eqb_state in Hx end. done.
Qed.

Lemma revoked_step p v ops : wf p -> Forall stack_op_ok ops -> 0 <= KernelEntryStackView.slot v < capacity ->
  view_valid p v = false -> KernelEntryStackView.epoch_ v <= epoch_ p ->
  view_valid (fold_left stack_exec ops p) v = false.
Proof.
  intros Hwf Hops Hs. revert p Hwf. induction Hops as [| o ops Ho _ IH]; intros p Hwf Hv He; [done |]. cbn.
  destruct (stack_exec_epochs p o Hwf Ho) as (Et & Ee & Hr).
  apply IH; [by apply stack_exec_wf | | lia]. apply not_true_is_false. intros Hv'.
  destruct (view_valid_spec _ _ Hv') as (Hp & Hst & Hep).
  destruct (Hr _ Hs Hst) as [Heq | Hlt]; [| lia]. unfold view_valid in *. rewrite Heq, Et in Hv'. congruence.
Qed.

(** A successful activation. *)
Lemma activate_entry_ok p h owner cpu p1 v :
  activate_entry p h owner cpu = (p1, Ok v) ->
  let i := KernelEntryStackHandle.slot h in
  let old := (records_ p).[i] in
  validate p h owner = StatusCode.ok /\ cpu = 0 /\ active_slot_ p = capacity /\
  v = KernelEntryStackView.mk (this p) i (EntryRecord.generation old) (epoch_ p + 1) /\
  records_ p1 = (records_ p).[i := EntryRecord.mk (EntryRecord.lower old) (EntryRecord.top old) (EntryRecord.pid old)
    (EntryRecord.tid old) (EntryRecord.generation old) (epoch_ p + 1) cpu EntryState.active] /\
  active_slot_ p1 = i /\ epoch_ p1 = epoch_ p + 1 /\ this p1 = this p /\ initialized_ p1 = initialized_ p.
Proof.
  unfold activate_entry. destruct (status_ok (validate p h owner)) eqn:Ev; cbn [negb]; [| done].
  destruct (negb (status_ok (fault_ p))); [done |]. destruct (cpu =? 0) eqn:Ecpu; cbn [negb]; [| done].
  destruct (active_slot_ p =? capacity) eqn:Ea; cbn [negb]; [| done]. destruct (epoch_ p =? u64_max); [done |].
  destruct (check_canaries_status p (KernelEntryStackHandle.slot h)) as [-> | ->]; cbn [status_ok negb]; [| done].
  b2p. intros [= <- <-]. split_and!; try done. by destruct (validate p h owner).
Qed.

(** Deactivating the active lease leaves its slot inactive. *)
Lemma deactivate_entry_inactive p h owner cpu :
  wf p -> 0 <= KernelEntryStackHandle.slot h -> validate p h owner = StatusCode.ok ->
  EntryRecord.state (records_ p).[KernelEntryStackHandle.slot h] = EntryState.active ->
  active_slot_ p = KernelEntryStackHandle.slot h -> EntryRecord.cpu (records_ p).[KernelEntryStackHandle.slot h] = cpu ->
  let p' := fst (deactivate_entry p h owner cpu) in
  epoch_ p' = epoch_ p /\ EntryRecord.state (records_ p').[KernelEntryStackHandle.slot h] <> EntryState.active.
Proof.
  intros Hwf Hs Hv Hst Ha Hc. destruct (validate_ok p h owner Hv) as (_ & _ & Hlt & _). unfold deactivate_entry.
  rewrite Hv, Hst, Ha, Hc, !Z.eqb_refl. change (EntryState.eqb EntryState.active EntryState.active) with true.
  cbn [status_ok negb orb]. destruct (negb _); (split; [done |]); cbn.
  - rewrite aget_aset_eq by (rewrite zlen_aset, wf_records by done; lia). done.
  - rewrite record_at by (done || lia). by rewrite Z.eqb_refl.
Qed.

(** activate_entry() hands out a view that is valid for exactly its lease; once
    deactivate_entry() ran, whether it found the canaries intact or not, that
    view and every copy of it is invalid in every later state, reuse of the
    slot included. *)
Theorem deactivated_view_stays_revoked p h owner cpu p1 v ops :
  wf p -> 0 <= KernelEntryStackHandle.slot h -> Forall stack_op_ok ops ->
  activate_entry p h owner cpu = (p1, Ok v) ->
  view_valid p1 v = true /\
  view_valid (fold_left stack_exec ops (fst (deactivate_entry p1 h owner cpu))) v = false.
Proof.
  intros Hwf Hs Hops Hact. pose proof (activate_entry_wf p h owner cpu Hwf Hs) as Hwf1. rewrite Hact in Hwf1. cbn in Hwf1.
  pose proof (wf_generation p Hwf) as [Hg He].
  apply activate_entry_ok in Hact as (Hv & Hcpu & Ha0 & Hvw & Er & Ha & Hep & Ht & Hi).
  destruct (validate_ok p h owner Hv) as (Hin & Hpo & Hlt & Hf & Hq & Hge & Hpid & Htid).
  destruct (wf_lease p Hwf _ (conj Hs Hlt) Hf) as (_ & Hgr & _).
  set (i := KernelEntryStackHandle.slot h) in *. set (r := EntryRecord.mk _ _ _ _ _ _ _ _) in *.
  assert ((records_ p1).[i] = r) as Hr by (rewrite Er, record_at by (done || lia); by rewrite Z.eqb_refl).
  split.
  - unfold view_valid. rewrite Hvw, Ht. cbn [KernelEntryStackView.slot KernelEntryStackView.pool KernelEntryStackView.generation_ KernelEntryStackView.epoch_].
    rewrite Hr. cbn [r EntryRecord.state EntryRecord.generation EntryRecord.epoch]. rewrite !Z.eqb_refl. by cmp.
  - assert (validate p1 h owner = StatusCode.ok) as Hv1.
    { unfold validate. fold i. rewrite Hr, Hi, Ht, Hin, Hpo. unfold r.
      cbn [EntryRecord.state EntryRecord.generation EntryRecord.pid EntryRecord.tid negb].
      rewrite Hge, Hpid, Htid, !Z.eqb_refl. by cmp. }
    destruct (deactivate_entry_inactive p1 h owner cpu) as [Hep2 Hna]; try done; try (fold i; by rewrite Hr).
    apply revoked_step; [by apply deactivate_entry_wf | done | rewrite Hvw; cbn; lia | | rewrite Hep2, Hep, Hvw; cbn; lia].
    apply not_true_is_false. intros Hvv. apply view_valid_spec in Hvv as (_ & Hst & _). by rewrite Hvw in Hst.
Qed.
End StackViews.

(** ** Canaries *)
Section StackCanaries.
Context `{Arch}.
Import KernelEntryStackPool.
Implicit Types p : KernelEntryStackPool.t.

(** The two canary pages of slot [i] hold their pattern. *)
Definition canaries_hold p (i : Z) : Prop :=
  forall k, 0 <= k < canary_bytes ->
    bytes_ p (i * slot_stride + k) = canary i (EntryRecord.generation (records_ p).[i]) k /\
    bytes_ p (i * slot_stride + (canary_bytes + usable_bytes + k)) =
      canary i (EntryRecord.generation (records_ p).[i]) (k + canary_bytes).

Lemma check_canaries_iff p i : check_canaries p i = StatusCode.ok <-> canaries_hold p i.
Proof.
  unfold check_canaries, canaries_hold. destruct (forallb _ _) eqn:E.
  - rewrite forallb_forall in E. split; [| done]. intros _ k Hk.
    assert (In k (indices canary_bytes)) as Hin by (by apply list_elem_of_In, elem_of_indices).
    specialize (E k Hin). cbn beta in E. b2p. done.
  - split; [done |]. intros Hall. exfalso. revert E. apply not_false_iff_true, forallb_forall. intros k Hk.
    apply list_elem_of_In, elem_of_indices in Hk. destruct (Hall k Hk) as [-> ->]. by rewrite !Z.eqb_refl.
Qed.

Definition healthy p : Prop :=
  wf p /\ status_ok (fault_ p) = true /\
  forall i, 0 <= i < capacity -> EntryRecord.state (records_ p).[i] <> EntryState.free -> canaries_hold p i.

(** A step that keeps the generations of leases and the canary bytes of their slots. *)
Lemma healthy_step p p' : healthy p -> wf p' -> status_ok (fault_ p') = true ->
  (forall i, 0 <= i < capacity -> EntryRecord.state (records_ p').[i] <> EntryState.free ->
     EntryRecord.state (records_ p).[i] <> EntryState.free /\
     EntryRecord.generation (records_ p').[i] = EntryRecord.generation (records_ p).[i] /\
     forall k, 0 <= k < canary_bytes ->
       bytes_ p' (i * slot_stride + k) = bytes_ p (i * slot_stride + k) /\
       bytes_ p' (i * slot_stride + (canary_bytes + usable_bytes + k)) =
       bytes_ p (i * slot_stride + (canary_bytes + usable_bytes + k))) ->
  healthy p'.
Proof.
  intros (Hwf & Hf & Hall) Hwf' Hf' Hstep. split_and!; try done. intros i Hi Hs.
  destruct (Hstep i Hi Hs) as (Hs' & Hg & Hb). intros k Hk. destruct (Hb k Hk) as [-> ->]. rewrite Hg. by apply Hall.
Qed.

Lemma healthy_check p h o : healthy p -> 0 <= KernelEntryStackHandle.slot h -> validate p h o = StatusCode.ok ->
  check_canaries p (KernelEntryStackHandle.slot h) = StatusCode.ok.
Proof.
  intros (Hwf & _ & Hall) Hs Hv. destruct (validate_ok p h o Hv) as (_ & _ & Hlt & Hf & _).
  apply check_canaries_iff. by apply Hall.
Qed.

(** With intact canaries validate_inactive() changes nothing. *)
Lemma healthy_validate p h o : healthy p -> 0 <= KernelEntryStackHandle.slot h -> fst (validate_inactive p h o) = p.
Proof.
  intros Hh Hs. unfold validate_inactive. destruct (status_ok (validate p h o)) eqn:Ev; cbn [negb]; [| done].
  assert (validate p h o = StatusCode.ok) as Hv by (by destruct (validate p h o)).
  destruct (EntryState.eqb _ _); [done |]. by rewrite (healthy_check p h o).
Qed.

Lemma slots_apart i j k : 0 <= i -> 0 <= j -> i <> j -> 0 <= k < slot_stride ->
  ~ (j * slot_stride <= i * slot_stride + k < j * slot_stride + slot_stride).
Proof. unfold slot_stride, usable_bytes, canary_bytes, page_size. nia. Qed.

Lemma set_canaries_bytes p i g j k : 0 <= i -> 0 <= j -> 0 <= k < slot_stride ->
  (k < canary_bytes \/ canary_bytes + usable_bytes <= k) ->
  bytes_ (set_canaries p i g) (j * slot_stride + k) =
  if j =? i then canary i g (if k <? canary_bytes then k else k - usable_bytes) else bytes_ p (j * slot_stride + k).
Proof.
  intros Hi Hj Hk Hc. unfold set_canaries, with_bytes; cbn [bytes_]. destruct (Z.eqb_spec j i) as [-> | Hne].
  - replace (i * slot_stride + k - i * slot_stride) with k by lia. destruct (Z.ltb_spec k canary_bytes).
    + by cmp.
    + cmp. f_equal. lia.
  - pose proof (slots_apart j i k Hj Hi Hne Hk). unfold slot_stride, usable_bytes, canary_bytes, page_size in *.
    destruct ((0 <=? _) && (_ <? 4096)) eqn:E1; [b2p; lia | clear E1].
    destruct ((_ <=? _) && (_ <? _)) eqn:E2; [b2p; lia | done].
Qed.

Lemma reserve_healthy p o : healthy p -> healthy (fst (reserve p o)).
Proof.
  intros Hh. pose proof Hh as (Hwf & Hf & Hall). pose proof (reserve_wf p o Hwf) as Hwf'. revert Hwf'. unfold reserve.
  repeat (match goal with |- context [if ?c then (p, _) else _] => destruct c eqn:?; [done |] end).
  pose proof (find_free_spec (records_ p) 0) as Hff. destruct (find_free _ _) as [i |]; [| done].
  rewrite (wf_records p Hwf), Z.sub_0_r in Hff. destruct Hff as [Hi Hst]. cbn [fst]. intros Hwf'.
  set (r := EntryRecord.mk _ _ _ _ _ _ _ _) in *. split_and!; [done | done |]. cbn [records_].
  intros j Hj Hs k Hk. change (records_ (set_canaries p i _)) with (records_ p) in *. cbn [bytes_ records_].
  rewrite record_at in Hs |- * by (done || lia).
  rewrite !set_canaries_bytes by (unfold slot_stride, usable_bytes, canary_bytes, page_size in *; lia).
  destruct (Z.eqb_spec j i) as [-> |].
  - cbn [r EntryRecord.generation]. unfold usable_bytes, canary_bytes, page_size in *. cmp. split; [done |]. f_equal. lia.
  - by apply Hall.
Qed.

Lemma stack_exec_healthy p o : healthy p -> stack_op_ok o -> store_in_stack o -> healthy (stack_exec p o).
Proof.
  intros Hh Ho Hst. pose proof Hh as (Hwf & Hf & Hall). pose proof (stack_exec_wf p o Hwf Ho) as Hwf'.
  destruct o as [b n | owner | h owner cpu | h owner cpu | h owner | h owner | x v]; cbn [stack_exec stack_op_ok store_in_stack] in *.
  - revert Hwf'. unfold activate. destruct (initialized_ p) eqn:Ei; [done |].
    repeat (match goal with |- context [if ?c then (p, _) else _] => destruct c; [done |] end). cbn [fst]. intros Hwf'.
    apply (healthy_step p); try done. intros i Hi Hs. cbn in Hs. destruct (wf_lease p Hwf i Hi Hs) as (? & _). congruence.
  - by apply reserve_healthy.
  - revert Hwf'. unfold activate_entry. destruct (status_ok (validate p h owner)) eqn:Ev; cbn [negb]; [| done].
    assert (validate p h owner = StatusCode.ok) as Hv by (by destruct (validate p h owner)).
    destruct (validate_ok p h owner Hv) as (_ & _ & Hlt & Hnf & _).
    repeat (match goal with |- context [if ?c then (p, _) else _] => destruct c; [done |] end).
    rewrite (healthy_check p h owner) by done. cbn [status_ok negb fst]. intros Hwf'. apply (healthy_step p); try done.
    intros i Hi. cbn. rewrite record_at by (done || lia). by destruct (Z.eqb_spec i (KernelEntryStackHandle.slot h)) as [-> |].
  - revert Hwf'. unfold deactivate_entry. destruct (status_ok (validate p h owner)) eqn:Ev; cbn [negb]; [| done].
    assert (validate p h owner = StatusCode.ok) as Hv by (by destruct (validate p h owner)).
    destruct (validate_ok p h owner Hv) as (_ & _ & Hlt & Hnf & _).
    repeat (match goal with |- context [if ?c then (p, _) else _] => destruct c; [done |] end).
    set (p1 := with_active _ _). pose proof (healthy_check p h owner Hh Ho Hv) as Hc. apply check_canaries_iff in Hc.
    set (i := KernelEntryStackHandle.slot h) in *.
    assert (check_canaries p1 i = StatusCode.ok) as ->.
    { apply check_canaries_iff. intros k Hk. cbn. rewrite record_at by (done || lia). rewrite Z.eqb_refl. by apply Hc. }
    cbn [status_ok negb fst]. intros Hwf'. apply (healthy_step p); try done. intros j Hj. cbn.
    rewrite record_at by (done || lia). by destruct (Z.eqb_spec j i) as [-> |].
  - by rewrite healthy_validate.
  - revert Hwf'. unfold release. pose proof (healthy_validate p h owner Hh Ho) as Hv.
    destruct (validate_inactive p h owner) as [p1 st] eqn:E. cbn in Hv. subst p1. destruct (status_ok st) eqn:Est; cbn [negb fst]; [| done].
    intros Hwf'. assert (KernelEntryStackHandle.slot h < capacity) as Hlt.
    { unfold validate_inactive in E. destruct (status_ok (validate p h owner)) eqn:Ev; cbn [negb] in E; [| injection E as <-; by rewrite Ev in Est].
      assert (validate p h owner = StatusCode.ok) as Hv by (by destruct (validate p h owner)).
      by destruct (validate_ok p h owner Hv) as (_ & _ & ? & _). }
    apply (healthy_step p); try done. intros j Hj. cbn. rewrite record_at by (done || lia).
    destruct (Z.eqb_spec j (KernelEntryStackHandle.slot h)) as [-> | Hne]; [done |]. intros Hs. split_and!; try done.
    intros k Hk. split.
    1: pose proof (slots_apart j (KernelEntryStackHandle.slot h) k ltac:(lia) Ho Hne) as Hap.
    2: pose proof (slots_apart j (KernelEntryStackHandle.slot h) (canary_bytes + usable_bytes + k) ltac:(lia) Ho Hne) as Hap.
    all: unfold slot_stride, usable_bytes, canary_bytes, page_size in *; destruct (_ && _) eqn:E2; [b2p; lia | done].
  - destruct Hst as (j & Hj & Hx). apply (healthy_step p); try done. intros i Hi Hs. split_and!; try done. intros k Hk. cbn.
    destruct (Z.eq_dec i j) as [<- | Hne].
    + unfold slot_stride, usable_bytes, canary_bytes, page_size in *. by cmp.
    + unfold slot_stride, usable_bytes, canary_bytes, page_size in *. split; [replace (_ =? x) with false by nia | replace (_ =? x) with false by nia]; done.
Qed.

(** A quarantined slot and a stopped pool. *)
Definition stopped p (i : Z) : Prop :=
  EntryRecord.state (records_ p).[i] = EntryState.quarantined /\ status_ok (fault_ p) = false.

Lemma stopped_set p p' i j r : wf p -> stopped p i -> 0 <= i < capacity -> 0 <= j < capacity ->
  EntryRecord.state (records_ p).[j] <> EntryState.quarantined ->
  records_ p' = (records_ p).[j := r] -> status_ok (fault_ p') = false -> stopped p' i.
Proof.
  intros Hwf [Hq Hf] Hi Hj Hne Er Hf'. split; [| done]. rewrite Er, record_at by (done || lia).
  destruct (Z.eqb_spec i j) as [-> |]; done.
Qed.

Lemma quarantine_fault p i st : status_ok st = false -> status_ok (fault_ (fst (quarantine p i st))) = false.
Proof. intros Hst. cbn. destruct (status_ok (fault_ p)) eqn:E; [done | by rewrite E]. Qed.

Lemma validate_inactive_stopped p h o i : wf p -> stopped p i -> 0 <= i < capacity -> 0 <= KernelEntryStackHandle.slot h ->
  stopped (fst (validate_inactive p h o)) i.
Proof.
  intros Hwf Hst Hi Hs. unfold validate_inactive. destruct (status_ok (validate p h o)) eqn:Ev; cbn [negb]; [| done].
  assert (validate p h o = StatusCode.ok) as Hv by (by destruct (validate p h o)).
  destruct (validate_ok p h o Hv) as (_ & _ & Hlt & _ & Hq & _). destruct (EntryState.eqb _ _); [done |].
  destruct (check_canaries_status p (KernelEntryStackHandle.slot h)) as [-> | ->]; cbn [status_ok negb]; [done |].
  by eapply (stopped_set p _ i (KernelEntryStackHandle.slot h)); [..| apply quarantine_fault].
Qed.

Lemma stack_exec_stopped p o i : wf p -> stack_op_ok o -> stopped p i -> 0 <= i < capacity -> stopped (stack_exec p o) i.
Proof.
  intros Hwf Ho Hst Hi. pose proof Hst as [Hq Hf].
  destruct o as [b n | owner | h owner cpu | h owner cpu | h owner | h owner | x v]; cbn [stack_exec stack_op_ok] in *.
  - unfold activate. by repeat (match goal with |- context [if ?c then (p, _) else _] => destruct c; [done |] end).
  - unfold reserve. rewrite Hf. cbn [negb]. by destruct (negb _).
  - unfold activate_entry. rewrite Hf. cbn [negb]. by destruct (negb _).
  - unfold deactivate_entry. destruct (status_ok (validate p h owner)) eqn:Ev; cbn [negb]; [| done].
    assert (validate p h owner = StatusCode.ok) as Hv by (by destruct (validate p h owner)).
    destruct (validate_ok p h owner Hv) as (_ & _ & Hlt & _ & Hnq & _).
    repeat (match goal with |- context [if ?c then (p, _) else _] => destruct c; [done |] end).
    set (p1 := with_active _ _). destruct (check_canaries_status p1 (KernelEntryStackHandle.slot h)) as [-> | ->]; cbn [status_ok negb].
    + by eapply (stopped_set p _ i (KernelEntryStackHandle.slot h)).
    + eapply (stopped_set p _ i (KernelEntryStackHandle.slot h)); try done; [| by apply quarantine_fault].
      cbn. unfold aset. by rewrite list_insert_insert_eq.
  - by apply validate_inactive_stopped.
  - unfold release. pose proof (validate_inactive_stopped p h owner i Hwf Hst Hi Ho) as Hst1.
    pose proof (validate_inactive_wf p h owner Hwf Ho) as Hwf1.
    destruct (validate_inactive p h owner) as [p1 st] eqn:E. destruct (status_ok st) eqn:Est; cbn [negb fst] in *; [| done].
    unfold validate_inactive in E. destruct (status_ok (validate p h owner)) eqn:Ev; cbn [negb] in E; [| injection E as <- <-; by rewrite Ev in Est].
    assert (validate p h owner = StatusCode.ok) as Hv by (by destruct (validate p h owner)).
    destruct (validate_ok p h owner Hv) as (_ & _ & Hlt & _ & Hnq & _). destruct (EntryState.eqb _ _); [by injection E as <- <- |].
    destruct (check_canaries_status p (KernelEntryStackHandle.slot h)) as [Ec | Ec]; rewrite Ec in E; cbn [status_ok negb] in E; injection E as <- <-; [| done].
    by eapply (stopped_set p _ i (KernelEntryStackHandle.slot h)).
  - done.
Qed.

Lemma stack_run_stopped p ops i : wf p -> Forall stack_op_ok ops -> stopped p i -> 0 <= i < capacity ->
  stopped (fold_left stack_exec ops p) i.
Proof.
  intros Hwf Hops Hst Hi. revert p Hwf Hst. induction Hops as [| o ops Ho _ IH]; intros p Hwf Hst; [done |]. cbn.
  apply IH; [by apply stack_exec_wf | by apply stack_exec_stopped].
Qed.

(** Code that stores only inside the usable part of the slots never raises a
    fault: in every such history the pool stays free of quarantine.  *)
Theorem no_false_canary_alarm self size ops :
  Forall stack_op_ok ops -> Forall store_in_stack ops ->
  let p := fold_left stack_exec ops (new self size) in
  status_ok (fault_ p) = true /\ quarantined_ p = 0 /\
  forall i, 0 <= i < capacity -> EntryRecord.state (records_ p).[i] <> EntryState.free ->
    check_canaries p i = StatusCode.ok.
Proof.
  intros Hops Hst p. enough (healthy p) as (Hwf & Hf & Hall).
  { split_and!; [done | by apply (wf_fault p Hwf) |]. intros i Hi Hs. by apply check_canaries_iff, Hall. }
  assert (healthy (new self size)) as Hnew.
  { split_and!; [apply new_wf | done |]. intros i Hi. cbn. rewrite aget_replicate by (unfold capacity in *; lia). done. }
  unfold p. clear p. revert Hnew. generalize (new self size). revert Hst.
  induction Hops as [| o ops Ho _ IH]; intros Hst p Hp; [done |]. inversion_clear Hst. cbn.
  apply IH; [done |]. by apply stack_exec_healthy.
Qed.

(** A store that changed a canary byte of a lease is detected when the lease
    is next checked: the release is refused with a fault, the slot is
    quarantined and stays so in every later history, and the pool then grants
    no reservation and no activation. *)
Theorem damaged_canary_stops_pool p h owner ops k :
  wf p -> 0 <= KernelEntryStackHandle.slot h -> Forall stack_op_ok ops -> validate p h owner = StatusCode.ok ->
  EntryRecord.state (records_ p).[KernelEntryStackHandle.slot h] <> EntryState.active -> 0 <= k < canary_bytes ->
  bytes_ p (KernelEntryStackHandle.slot h * slot_stride + k) <>
    canary (KernelEntryStackHandle.slot h) (KernelEntryStackHandle.generation h) k ->
  let '(p1, status) := release p h owner in
  let p2 := fold_left stack_exec ops p1 in
  status = StatusCode.fault /\
  EntryRecord.state (records_ p2).[KernelEntryStackHandle.slot h] = EntryState.quarantined /\
  (forall o, result_ok (snd (reserve p2 o)) = false) /\
  (forall h' o cpu, result_ok (snd (activate_entry p2 h' o cpu)) = false).
Proof.
  intros Hwf Hs Hops Hv Hna Hk Hbyte. destruct (validate_ok p h owner Hv) as (_ & _ & Hlt & Hf & Hq & Hg & _).
  assert (check_canaries p (KernelEntryStackHandle.slot h) = StatusCode.fault) as Hc.
  { destruct (check_canaries_status p (KernelEntryStackHandle.slot h)) as [Hc | Hc]; [| done]. exfalso.
    apply check_canaries_iff in Hc. destruct (Hc k Hk) as [Hx _]. rewrite Hg in Hx. done. }
  unfold release, validate_inactive. rewrite Hv. cbn [status_ok negb].
  rewrite (proj2 (eqb_state_false _ _) Hna), Hc. cbn [status_ok negb].
  set (i := KernelEntryStackHandle.slot h) in *.
  assert (stopped (fst (quarantine p i StatusCode.fault)) i) as Hst.
  { split; [cbn; rewrite record_at by (done || lia); by rewrite Z.eqb_refl | by apply quarantine_fault]. }
  assert (wf (fst (quarantine p i StatusCode.fault))) as Hw by (apply stack_quarantine_wf; try done; by apply inactive_slot).
  pose proof (stack_run_stopped _ ops i Hw Hops Hst (conj Hs Hlt)) as [Hq2 Hf2].
  destruct (quarantine p i StatusCode.fault) as [p1 st] eqn:Equ. assert (st = StatusCode.fault) as -> by (by injection Equ).
  cbn [status_ok negb fst] in *. split_and!; try done.
  - intros o. unfold reserve. rewrite Hf2. cbn [negb]. destruct (negb (initialized_ _)); [done |].
    by destruct (fault_ (fold_left stack_exec ops p1)).
  - intros h' o cpu. unfold activate_entry. rewrite Hf2. cbn [negb].
    by destruct (negb (status_ok (validate (fold_left stack_exec ops p1) h' o))).
Qed.
End StackCanaries.

(** ** Witnesses *)
Section StackWitnesses.
#[local] Existing Instance arch64.
Import KernelEntryStackPool.

Definition sample_owner : KernelEntryStackOwner.t := KernelEntryStackOwner.mk 1 2.
Definition sample_lease : KernelEntryStackHandle.t := KernelEntryStackHandle.mk 4096 0 1.
(** An arena, one lease, and a store into the usable part of its stack. *)
Definition lease_ops : list stack_op :=
  [SActivateArena 1048576 arena_bytes; SReserve sample_owner; SStore 5000 9].
Definition leased_pool : KernelEntryStackPool.t := fold_left stack_exec lease_ops (new 4096 1024).

Lemma leased_pool_wf : wf leased_pool.
Proof. apply stack_run_wf; [apply new_wf | by concrete]. Qed.

Lemma stack_exclusive_witness :
  EntryRecord.state (records_ leased_pool).[0] <> EntryState.free /\
  1048576 + canary_bytes <= EntryRecord.lower (records_ leased_pool).[0].
Proof.
  destruct (entry_stacks_exclusive 4096 1024 lease_ops ltac:(by concrete)) as (_ & _ & Hs & _).
  assert (EntryRecord.state (records_ leased_pool).[0] <> EntryState.free) as Hf by (vm_compute; congruence).
  split; [exact Hf | exact (proj1 (Hs 0 ltac:(by concrete) Hf))].
Defined.

Lemma no_alarm_witness :
  check_canaries leased_pool 0 = StatusCode.ok /\ quarantined_ leased_pool = 0.
Proof.
  destruct (no_false_canary_alarm 4096 1024 lease_ops) as (_ & Hq & Hc).
  - by concrete.
  - repeat apply List.Forall_cons; try done. exists 0. by concrete.
  - split; [apply (Hc 0); [by concrete | vm_compute; congruence] | exact Hq].
Defined.

Lemma view_witness :
  exists p1 v, activate_entry leased_pool sample_lease sample_owner 0 = (p1, Ok v) /\ view_valid p1 v = true /\
    view_valid (fst (deactivate_entry p1 sample_lease sample_owner 0)) v = false.
Proof.
  assert (exists v, snd (activate_entry leased_pool sample_lease sample_owner 0) = Ok v) as [v Hv]
    by (eexists; vm_compute; reflexivity).
  destruct (activate_entry leased_pool sample_lease sample_owner 0) as [p1 r] eqn:E. cbn [snd] in Hv. subst r. exists p1, v.
  destruct (deactivated_view_stays_revoked leased_pool sample_lease sample_owner 0 p1 v []) as [Hok Hno].
  - exact leased_pool_wf.
  - by concrete.
  - by concrete.
  - exact E.
  - cbn [fold_left] in Hno. split; [reflexivity | split; [exact Hok | exact Hno]].
Defined.

(** A store below the stack hits the lower canary. *)
Definition overrun_pool : KernelEntryStackPool.t := stack_exec leased_pool (SStore 40 255).

Lemma overrun_witness :
  snd (release overrun_pool sample_lease sample_owner) = StatusCode.fault /\
  result_ok (snd (reserve (fst (release overrun_pool sample_lease sample_owner)) sample_owner)) = false.
Proof.
  pose proof (damaged_canary_stops_pool overrun_pool sample_lease sample_owner [] 40) as Hd.
  destruct (release overrun_pool sample_lease sample_owner) as [p1 status].
  destruct Hd as (Hs & _ & Hr & _).
  - apply stack_exec_wf; [exact leased_pool_wf | done].
  - by concrete.
  - by concrete.
  - vm_compute. reflexivity.
  - vm_compute. congruence.
  - by concrete.
  - vm_compute. congruence.
  - split; [exact Hs | exact (Hr sample_owner)].
Defined.
End StackWitnesses.
