(* ===== verification/Wait.v ===== *)
(** * Waiting (include/ok/sched/wait_registration.hpp, wait_queue.hpp, deadline.hpp)

    One registration record per thread, completed at most once per ticket;
    bounded queues that hold references to registrations; and deadlines.  A
    registration may be enlisted in several queues, so queues act on a shared
    store of registrations, indexed by address. *)

From S2P Require Import Prelude.

Module WaitTicket.
Record t := mk { owner : Z; thread : Z; generation : Z }.
Definition none : t := mk 0 0 0.
#[global] Instance eq_dec : EqDecision t.
Proof. solve_decision. Defined.
Definition eqb (a b : t) : bool :=
  (owner a =? owner b) && (thread a =? thread b) && (generation a =? generation b).
End WaitTicket.

Module WaitCompletion.
Inductive t := none | ready | timeout | cancelled | interrupted.
End WaitCompletion.

Module WakeSource.
Inductive t := thread | timer | interrupt | poll.
(** [static_cast<usize>(source)]. *)
Definition index (s : t) : Z := match s with thread => 0 | timer => 1 | interrupt => 2 | poll => 3 end.
End WakeSource.
Definition wake_source_count : Z := 4.

Module WaitRegistration.
Record t := mk {
  ticket_ : WaitTicket.t;
  completion_ : WaitCompletion.t;
  source_ : WakeSource.t;
  active_ : bool
}.
Definition new : t := mk WaitTicket.none WaitCompletion.none WakeSource.thread false.

Definition arm (r : t) (owner thread : Z) : t * result WaitTicket.t :=
  if (owner =? 0) || (thread =? 0) then (r, Err StatusCode.invalid_argument)
  else if active_ r then (r, Err StatusCode.busy)
  else if WaitTicket.generation (ticket_ r) =? u64_max then (r, Err StatusCode.overflow)
  else
    let ticket := WaitTicket.mk owner thread (WaitTicket.generation (ticket_ r) + 1) in
    (mk ticket WaitCompletion.none WakeSource.thread true, Ok ticket).

Definition pending (r : t) (ticket : WaitTicket.t) : bool := active_ r && WaitTicket.eqb ticket (ticket_ r).

(** A timeout is always a timer wake; [none] is not a completion. *)
Definition complete (r : t) (ticket : WaitTicket.t) (completion : WaitCompletion.t) (source : WakeSource.t) : t * bool :=
  let outcome := match completion with WaitCompletion.none => false | _ => true end in
  if negb (pending r ticket) || negb outcome then (r, false)
  else
    let source := match completion with WaitCompletion.timeout => WakeSource.timer | _ => source end in
    (mk (ticket_ r) completion source false, true).

Definition cancel (r : t) : t * bool := complete r (ticket_ r) WaitCompletion.cancelled WakeSource.thread.
Definition ticket (r : t) : WaitTicket.t := ticket_ r.
Definition active (r : t) : bool := active_ r.
Definition completion (r : t) : WaitCompletion.t := completion_ r.
Definition source (r : t) : WakeSource.t := source_ r.
End WaitRegistration.

(** The registrations of all threads by address; 0 is nullptr. *)
Definition Registrations : Type := Z -> WaitRegistration.t.
Definition put (regs : Registrations) (a : Z) (r : WaitRegistration.t) : Registrations :=
  fun x => if x =? a then r else regs x.

Module WaitQueue.
Section Defs.
Context `{Arch} (Capacity : Z).

Record Slot := mk_slot { registration : Z; ticket : WaitTicket.t }.
Definition empty_slot : Slot := mk_slot 0 WaitTicket.none.
#[global] Instance slot_inhabited : Inhabited Slot := populate empty_slot.

Record t := mk {
  slots_ : list Slot;     (* std::array<Slot, Capacity> *)
  wakes_ : list Z;        (* std::array<usize, wake_source_count> *)
  count_ : Z;
  oldest_ : Z
}.
Definition new : t := mk (replicate (Z.to_nat Capacity) empty_slot) (replicate (Z.to_nat wake_source_count) 0) 0 0.

Definition used (s : Slot) : bool := negb (registration s =? 0).
Definition live (regs : Registrations) (s : Slot) : bool :=
  used s && WaitRegistration.pending (regs (registration s)) (ticket s).

(** attach(): the first empty slot. *)
Fixpoint find_empty (slots : list Slot) (i : Z) : option Z :=
  match slots with
  | [] => None
  | s :: rest => if used s then find_empty rest (i + 1) else Some i
  end.
Definition attach (q : t) (reg : Z) (tk : WaitTicket.t) : t * bool :=
  match find_empty (slots_ q) 0 with
  | Some i => (mk (slots_ q).[i := mk_slot reg tk] (wakes_ q) (count_ q + 1) (oldest_ q), true)
  | None => (q, false)
  end.
Definition detach (q : t) (i : Z) : t :=
  mk (slots_ q).[i := empty_slot] (wakes_ q) (count_ q - 1) (oldest_ q).

Definition prepare (q : t) (regs : Registrations) (reg owner thread : Z) : t * Registrations * result WaitTicket.t :=
  if count_ q =? Capacity then (q, regs, Err StatusCode.overflow)
  else
    let '(r, armed) := WaitRegistration.arm (regs reg) owner thread in
    let regs := put regs reg r in
    match armed with
    | Err e => (q, regs, Err e)
    | Ok tk =>
        let '(q, attached) := attach q reg tk in
        if attached then (q, regs, Ok tk)
        else (q, put regs reg (fst (WaitRegistration.cancel (regs reg))), Err StatusCode.overflow)
    end.

(** prune(): the loop over the slots from [i] on; the number dropped. *)
Fixpoint prune_from (n : nat) (i dropped : Z) (q : t) (regs : Registrations) : t * Z :=
  match n with
  | O => (q, dropped)
  | S n' =>
      let s := (slots_ q).[i] in
      if used s && negb (live regs s) then prune_from n' (i + 1) (dropped + 1) (detach q i) regs
      else prune_from n' (i + 1) dropped q regs
  end.
Definition prune (q : t) (regs : Registrations) : t * Z := prune_from (Z.to_nat Capacity) 0 0 q regs.

Definition enlist (q : t) (regs : Registrations) (reg : Z) : t * Status :=
  let r := regs reg in
  if negb (WaitRegistration.active r) then (q, StatusCode.invalid_argument)
  else if existsb (fun s => (registration s =? reg) && WaitTicket.eqb (ticket s) (WaitRegistration.ticket r)) (slots_ q)
  then (q, StatusCode.already_exists)
  else
    let q := fst (prune q regs) in
    if count_ q =? Capacity then (q, StatusCode.overflow)
    else
      let '(q, attached) := attach q reg (WaitRegistration.ticket r) in
      if attached then (q, StatusCode.ok) else (q, StatusCode.overflow).

(** cancel(): the first live slot with the ticket. *)
Fixpoint find_live (slots : list Slot) (regs : Registrations) (tk : WaitTicket.t) (i : Z) : option Z :=
  match slots with
  | [] => None
  | s :: rest => if live regs s && WaitTicket.eqb (ticket s) tk then Some i else find_live rest regs tk (i + 1)
  end.
Definition cancel (q : t) (regs : Registrations) (tk : WaitTicket.t) : t * Registrations * bool :=
  match find_live (slots_ q) regs tk 0 with
  | None => (q, regs, false)
  | Some i =>
      let reg := registration (slots_ q).[i] in
      let r := fst (WaitRegistration.complete (regs reg) tk WaitCompletion.cancelled WakeSource.thread) in
      (detach q i, put regs reg r, true)
  end.

(** wake_one(): the scan from [scanned] on, for [n] more slots. *)
Fixpoint wake_scan (n : nat) (scanned : Z) (q : t) (regs : Registrations) (source : WakeSource.t)
    (completion : WaitCompletion.t) : t * Registrations * bool :=
  match n with
  | O => (q, regs, false)
  | S n' =>
      let i := (oldest_ q + scanned) mod Capacity in
      let s := (slots_ q).[i] in
      if negb (used s) then wake_scan n' (scanned + 1) q regs source completion
      else if negb (live regs s) then wake_scan n' (scanned + 1) (detach q i) regs source completion
      else
        let reg := registration s in
        let r := fst (WaitRegistration.complete (regs reg) (ticket s) completion source) in
        let q := detach q i in
        let k := WakeSource.index source in
        (mk (slots_ q) (wakes_ q).[k := usize_wrap ((wakes_ q).[k] + 1)] (count_ q) ((i + 1) mod Capacity),
         put regs reg r, true)
  end.
Definition wake_one (q : t) (regs : Registrations) (source : WakeSource.t) (completion : WaitCompletion.t)
    : t * Registrations * bool :=
  wake_scan (Z.to_nat Capacity) 0 q regs source completion.

(** [while (wake_one(...)) ++woken]. *)
Fixpoint wake_loop (fuel : nat) (woken : Z) (q : t) (regs : Registrations) (source : WakeSource.t)
    (completion : WaitCompletion.t) : t * Registrations * Z :=
  match fuel with
  | O => (q, regs, woken)
  | S fuel' =>
      let '(q, regs, more) := wake_one q regs source completion in
      if more then wake_loop fuel' (woken + 1) q regs source completion else (q, regs, woken)
  end.
Definition wake_all (q : t) (regs : Registrations) (source : WakeSource.t) (completion : WaitCompletion.t)
    : t * Registrations * Z :=
  wake_loop (S (Z.to_nat Capacity)) 0 q regs source completion.

(** notify(): [visit] may complete the waiter; it sees and changes the registrations. *)
Section Notify.
Context (visit : WaitTicket.t -> Registrations -> Registrations * bool).
Fixpoint notify_scan (n : nat) (scanned removed : Z) (q : t) (regs : Registrations) : t * Registrations * Z :=
  match n with
  | O => (q, regs, removed)
  | S n' =>
      let i := (oldest_ q + scanned) mod Capacity in
      let s := (slots_ q).[i] in
      if negb (used s) then notify_scan n' (scanned + 1) removed q regs
      else if negb (live regs s) then notify_scan n' (scanned + 1) removed (detach q i) regs
      else
        let '(regs, taken) := visit (ticket s) regs in
        if taken then notify_scan n' (scanned + 1) (removed + 1) (detach q i) regs
        else notify_scan n' (scanned + 1) removed q regs
  end.
Definition notify (q : t) (regs : Registrations) : t * Registrations * Z :=
  notify_scan (Z.to_nat Capacity) 0 0 q regs.
End Notify.

Definition waiting (q : t) : Z := count_ q.
Definition wakes (q : t) (source : WakeSource.t) : Z := (wakes_ q).[WakeSource.index source].

(** ** Invariant *)
Definition used_unit (s : Slot) : Z := if used s then 1 else 0.

Record wf (q : t) : Prop := {
  wf_slots : zlen (slots_ q) = Capacity;
  wf_wakes : zlen (wakes_ q) = wake_source_count;
  wf_count : count_ q = zsum used_unit (slots_ q);
  wf_oldest : 0 <= oldest_ q < Capacity;
  wf_distinct : forall i j, 0 <= i < Capacity -> 0 <= j < Capacity -> used (slots_ q).[i] = true ->
    (slots_ q).[i] = (slots_ q).[j] -> i = j
}.
End Defs.
End WaitQueue.

(** DeadlineWait: one absolute deadline. *)
Module DeadlineWait.
Record t := mk { generation_ : Z; deadline_ : Z; armed_ : bool }.
Definition new : t := mk 0 0 false.
Definition second : Z := 1000000000.

Definition arm (d : t) (now seconds nanoseconds : Z) (absolute : bool) : t * result Z :=
  if (seconds <? 0) || (nanoseconds <? 0) || (second <=? nanoseconds) then (d, Err StatusCode.invalid_argument)
  else if (u64_max - nanoseconds) / second <? seconds then (d, Err StatusCode.overflow)
  else
    let interval := seconds * second + nanoseconds in
    if negb absolute && (u64_max - now <? interval) then (d, Err StatusCode.overflow)
    else if armed_ d then (d, Err StatusCode.busy)
    else if generation_ d =? u64_max then (d, Err StatusCode.overflow)
    else (mk (generation_ d + 1) (if absolute then interval else u64_wrap (now + interval)) true,
          Ok (generation_ d + 1)).

Definition complete (d : t) (now generation : Z) : t * bool :=
  if negb (armed_ d) || negb (generation =? generation_ d) || (now <? deadline_ d) then (d, false)
  else (mk (generation_ d) (deadline_ d) false, true).

Definition cancel (d : t) : t := mk (generation_ d) (deadline_ d) false.
Definition armed (d : t) : bool := armed_ d.
Definition generation (d : t) : Z := generation_ d.
Definition deadline (d : t) : Z := deadline_ d.
End DeadlineWait.

(** ** Registrations *)
Lemma ticket_eqb_spec a b : WaitTicket.eqb a b = true <-> a = b.
Proof.
  unfold WaitTicket.eqb. destruct a as [o t g], b as [o' t' g']. cbn. split; [intros; b2p; by subst | intros [= -> -> ->]; by rewrite !Z.eqb_refl].
Qed.

Lemma pending_spec r tk :
  WaitRegistration.pending r tk = true <-> WaitRegistration.active_ r = true /\ tk = WaitRegistration.ticket_ r.
Proof. unfold WaitRegistration.pending. by rewrite andb_true_iff, ticket_eqb_spec. Qed.

(** What may happen to one registration: its generation never goes back, and
    a wait that ended does not come back under the same generation. *)
Definition evolves (r r' : WaitRegistration.t) : Prop :=
  let g := WaitTicket.generation (WaitRegistration.ticket_ r) in
  let g' := WaitTicket.generation (WaitRegistration.ticket_ r') in
  g < g' \/ (WaitRegistration.ticket_ r = WaitRegistration.ticket_ r' /\
             (WaitRegistration.active_ r' = true -> WaitRegistration.active_ r = true)).
Definition regs_evolve (regs regs' : Registrations) : Prop := forall a, evolves (regs a) (regs' a).

#[global] Instance evolves_refl : Reflexive evolves.
Proof. by right. Qed.
#[global] Instance evolves_trans : Transitive evolves.
Proof.
  intros r1 r2 r3 H12 H23. unfold evolves in *. destruct H12 as [? | [E ?]], H23 as [? | [E' ?]].
  - left. lia.
  - left. by rewrite <- E'.
  - left. by rewrite E.
  - right. split; [congruence | auto].
Qed.
#[global] Instance regs_evolve_refl : Reflexive regs_evolve.
Proof. by intros regs a. Qed.
#[global] Instance regs_evolve_trans : Transitive regs_evolve.
Proof. intros ? ? ? H1 H2 a. by etrans; [apply H1 | apply H2]. Qed.

Lemma put_evolves regs a r : evolves (regs a) r -> regs_evolve regs (put regs a r).
Proof. intros He x. unfold put. destruct (Z.eqb_spec x a) as [-> |]; done. Qed.

Lemma arm_evolves r o t : evolves r (fst (WaitRegistration.arm r o t)).
Proof. unfold WaitRegistration.arm. repeat case_cond; try reflexivity. left. cbn. lia. Qed.

Lemma complete_evolves r tk c s : evolves r (fst (WaitRegistration.complete r tk c s)).
Proof. unfold WaitRegistration.complete. repeat case_cond; first [reflexivity | by right]. Qed.
#[export] Hint Resolve put_evolves arm_evolves complete_evolves : kernel.

Lemma ended_stays_ended r r' tk : evolves r r' ->
  WaitTicket.generation tk <= WaitTicket.generation (WaitRegistration.ticket_ r) ->
  WaitRegistration.pending r tk = false -> WaitRegistration.pending r' tk = false.
Proof.
  intros He Hg Hp. apply not_true_iff_false. intros [Ha ->]%pending_spec. apply not_true_iff_false in Hp. apply Hp.
  apply pending_spec. destruct He as [? | [E Ha']]; [lia |]. split; [auto | done].
Qed.

(** A pending wait completed with an outcome. *)
Definition completed (r : WaitRegistration.t) (c : WaitCompletion.t) (s : WakeSource.t) : WaitRegistration.t :=
  WaitRegistration.mk (WaitRegistration.ticket_ r) c
    (match c with WaitCompletion.timeout => WakeSource.timer | _ => s end) false.

Lemma complete_pending r tk c s : WaitRegistration.pending r tk = true -> c <> WaitCompletion.none ->
  WaitRegistration.complete r tk c s = (completed r c s, true).
Proof. intros Hp Hc. unfold WaitRegistration.complete. rewrite Hp. by destruct c. Qed.

Module WaitProofs.
Import WaitQueue.
Section Queue.
Context `{Arch} (Capacity : Z) (Hcap : 0 < Capacity).
Abbreviation wf := (wf Capacity).

Lemma slot_set q i k s : wf q -> 0 <= i < Capacity -> 0 <= k < Capacity ->
  (slots_ q).[i := s].[k] = if k =? i then s else (slots_ q).[k].
Proof.
  intros Hwf Hi Hk. pose proof (wf_slots _ q Hwf). destruct (Z.eqb_spec k i) as [-> |].
  - apply aget_aset_eq. lia.
  - apply aget_aset_ne; lia.
Qed.

Lemma new_queue_wf : wf (new Capacity).
Proof.
  split; cbn; [lens | done | by rewrite zsum_replicate | lia |].
  intros i j Hi Hj. rewrite aget_replicate by lia. done.
Qed.

Lemma detach_wf q i : wf q -> 0 <= i < Capacity -> used (slots_ q).[i] = true -> wf (detach q i).
Proof.
  intros Hwf Hi Hu. pose proof Hwf as [Hl Hw Hc Ho Hd]. split; cbn; [lens | done | | done |].
  - rewrite zsum_aset by lia. unfold used_unit at 2 3. rewrite Hu. cbn. lia.
  - intros k j Hk Hj. rewrite !slot_set by done. destruct (Z.eqb_spec k i), (Z.eqb_spec j i); subst; try done.
    + intros Hk' E. by rewrite E in Hk'.
    + by apply Hd.
Qed.

(** Slots of [q'] are slots of [q] or empty, and [q]'s live ones are all there. *)
Definition keeps regs q q' : Prop :=
  (forall k, 0 <= k < Capacity -> (slots_ q').[k] = (slots_ q).[k] \/ (slots_ q').[k] = empty_slot) /\
  (forall k, 0 <= k < Capacity -> live regs (slots_ q).[k] = true -> (slots_ q').[k] = (slots_ q).[k]).

#[local] Instance keeps_refl regs : Reflexive (keeps regs).
Proof. by split; intros; [left |]. Qed.
#[local] Instance keeps_trans regs : Transitive (keeps regs).
Proof.
  intros q1 q2 q3 [Ha Hb] [Hc Hd]. split.
  - intros k Hk. destruct (Hc k Hk) as [-> | ->]; [by apply Ha | by right].
  - intros k Hk Hl. rewrite Hd; [by apply Hb | done |]. by rewrite Hb.
Qed.

Lemma detach_stale_keeps regs q i : wf q -> 0 <= i < Capacity -> live regs (slots_ q).[i] = false -> keeps regs q (detach q i).
Proof.
  intros Hwf Hi Hl. split; intros k Hk; cbn; rewrite slot_set by done; destruct (Z.eqb_spec k i) as [-> |];
    [by right | by left | congruence | done].
Qed.

Lemma live_used regs s : live regs s = true -> used s = true.
Proof. unfold live. by intros [? _]%andb_true_iff. Qed.

Lemma scan_index q scanned : 0 <= (oldest_ q + scanned) mod Capacity < Capacity.
Proof. apply Z.mod_pos_bound. lia. Qed.

Lemma scan_covers q k : 0 <= k < Capacity -> exists s, 0 <= s < Capacity /\ k = (oldest_ q + s) mod Capacity.
Proof.
  intros Hk. exists ((k - oldest_ q) mod Capacity). split; [apply Z.mod_pos_bound; lia |].
  rewrite Z.add_mod_idemp_r by lia. replace (oldest_ q + (k - oldest_ q)) with k by lia. by rewrite Z.mod_small.
Qed.

(** *** Waking *)

(** The queue after the waiter in slot [i] of [q] was woken. *)
Definition woken q i source : t :=
  let k := WakeSource.index source in
  mk (slots_ q).[i := empty_slot] (wakes_ q).[k := usize_wrap ((wakes_ q).[k] + 1)] (count_ q - 1) ((i + 1) mod Capacity).

Lemma woken_wf q i source : wf q -> 0 <= i < Capacity -> used (slots_ q).[i] = true -> wf (woken q i source).
Proof.
  intros Hwf Hi Hu. destruct (detach_wf q i Hwf Hi Hu) as [Hl Hw Hc Ho Hd]. split; try done; cbn; [by rewrite zlen_aset |].
  apply Z.mod_pos_bound. lia.
Qed.

Lemma wake_scan_spec n scanned q regs source c : wf q -> 0 <= scanned -> Z.of_nat n + scanned = Capacity ->
  c <> WaitCompletion.none ->
  (forall s, 0 <= s < scanned -> used (slots_ q).[(oldest_ q + s) mod Capacity] = false) ->
  let '(q', regs', woke) := wake_scan Capacity n scanned q regs source c in
  if woke then exists q1 i, wf q1 /\ keeps regs q q1 /\ 0 <= i < Capacity /\ live regs (slots_ q1).[i] = true /\
      wakes_ q1 = wakes_ q /\ q' = woken q1 i source /\
      regs' = put regs (registration (slots_ q).[i]) (completed (regs (registration (slots_ q).[i])) c source)
  else wf q' /\ keeps regs q q' /\ wakes_ q' = wakes_ q /\ regs' = regs /\
       forall k, 0 <= k < Capacity -> used (slots_ q').[k] = false.
Proof.
  intros Hwf Hs Hn Hc. revert scanned q Hwf Hs Hn. induction n as [| n IH]; intros scanned q Hwf Hs Hn Hpre.
  { cbn. split_and!; try done. intros k Hk. destruct (scan_covers q k Hk) as (s & Hsr & ->). apply Hpre. lia. }
  cbn [wake_scan]. pose proof (scan_index q scanned) as Hi. set (i := (oldest_ q + scanned) mod Capacity) in *.
  destruct (used (slots_ q).[i]) eqn:Hu; cbn [negb].
  - destruct (live regs (slots_ q).[i]) eqn:Hl; cbn [negb].
    + exists q, i. split_and!; try done; try lia. unfold live in Hl. apply andb_true_iff in Hl as [_ Hp]. by rewrite complete_pending.
    + pose proof (detach_wf q i Hwf Hi Hu) as Hwf'. pose proof (detach_stale_keeps regs q i Hwf Hi Hl) as Hk1.
      specialize (IH (scanned + 1) (detach q i) Hwf' ltac:(lia) ltac:(lia)).
      destruct (wake_scan Capacity n (scanned + 1) (detach q i) regs source c) as [[q' regs'] woke].
      assert (forall s, 0 <= s < scanned + 1 -> used (slots_ (detach q i)).[(oldest_ (detach q i) + s) mod Capacity] = false) as Hpre'.
      { intros s Hsr. cbn. pose proof (scan_index q s). rewrite slot_set by done.
        destruct (Z.eqb_spec ((oldest_ q + s) mod Capacity) i) as [| Hne]; [done |]. apply Hpre.
        destruct (Z.eq_dec s scanned) as [-> |]; [done | lia]. }
      specialize (IH Hpre'). destruct woke.
      * destruct IH as (q1 & j & Hw1 & Hk2 & Hj & Hlj & Hwk & -> & ->). exists q1, j. split_and!; try done; try lia.
        { by etrans. }
        assert ((slots_ (detach q i)).[j] = (slots_ q).[j]) as ->; [| done].
        cbn. rewrite slot_set by done. destruct (Z.eqb_spec j i) as [-> |]; [| done]. exfalso.
        destruct Hk2 as [Hk2 _]. specialize (Hk2 i Hi). cbn in Hk2. rewrite slot_set, Z.eqb_refl in Hk2 by done.
        apply live_used in Hlj. destruct Hk2 as [E | E]; by rewrite E in Hlj.
      * destruct IH as (? & ? & ? & ? & ?). split_and!; try done. by etrans.
  - apply IH; try done; try lia. intros s Hsr. destruct (Z.eq_dec s scanned) as [-> |]; [done | apply Hpre; lia].
Qed.

Lemma put_other regs a r x : x <> a -> put regs a r x = regs x.
Proof. intros. unfold put. by cmp. Qed.
Lemma put_same regs a r : put regs a r a = r.
Proof. unfold put. by rewrite Z.eqb_refl. Qed.

(** Waking slot [i] leaves every other live waiter live. *)
Lemma other_live regs q i j c source : wf q -> 0 <= i < Capacity -> 0 <= j < Capacity -> i <> j ->
  live regs (slots_ q).[i] = true -> live regs (slots_ q).[j] = true ->
  let a := registration (slots_ q).[i] in live (put regs a (completed (regs a) c source)) (slots_ q).[j] = true.
Proof.
  intros Hwf Hi Hj Hne Hli Hlj a. pose proof Hli as [Hui [_ Hti]%pending_spec]%andb_true_iff.
  pose proof Hlj as [Huj [_ Htj]%pending_spec]%andb_true_iff. unfold live. rewrite put_other; [done |].
  intros E. apply Hne. apply (wf_distinct _ q Hwf i j Hi Hj Hui). unfold a in E.
  destruct (slots_ q).[i] as [ri ti], (slots_ q).[j] as [rj tj]. cbn in *. congruence.
Qed.

(** *** Steps that keep the queue and the registrations consistent *)
Definition state : Type := t * Registrations.
Definition coherent (st : state) : Prop :=
  forall i, 0 <= i < Capacity -> let s := (slots_ st.1).[i] in used s = true ->
    WaitTicket.generation (ticket s) <= WaitTicket.generation (WaitRegistration.ticket_ (st.2 (registration s))).
Definition good (st : state) : Prop := wf st.1 /\ coherent st.
Definition queued (st : state) a tk : Prop := exists i, 0 <= i < Capacity /\ (slots_ st.1).[i] = mk_slot a tk.

(** Steps are followed for the tickets of interest [W]. *)
Section Watched.
Context (W : WaitTicket.t -> Prop).

(** From a good state to a good one, losing no entry of interest whose wait is pending. *)
Record progress (st st' : state) : Prop := {
  pr_good : good st';
  pr_regs : regs_evolve st.2 st'.2;
  pr_queued : forall a tk, W tk -> a <> 0 -> queued st a tk -> WaitRegistration.pending (st'.2 a) tk = true -> queued st' a tk
}.

Lemma progress_refl st : good st -> progress st st.
Proof. intros. by split. Qed.

Lemma queued_generation st a tk : good st -> a <> 0 -> queued st a tk ->
  WaitTicket.generation tk <= WaitTicket.generation (WaitRegistration.ticket_ (st.2 a)).
Proof.
  intros [_ Hco] Ha (i & Hi & E). specialize (Hco i Hi). cbn in Hco. rewrite E in Hco. apply Hco.
  unfold used. cbn. by cmp.
Qed.

Lemma evolve_generation regs regs' a : regs_evolve regs regs' ->
  WaitTicket.generation (WaitRegistration.ticket_ (regs a)) <= WaitTicket.generation (WaitRegistration.ticket_ (regs' a)).
Proof. intros He. destruct (He a) as [? | [-> _]]; lia. Qed.

Lemma progress_trans st1 st2 st3 : good st1 -> progress st1 st2 -> progress st2 st3 -> progress st1 st3.
Proof.
  intros Hg [Hg2 He Hq] [Hg3 He' Hq']. split; [done | by etrans |]. intros a tk HW Ha Hqa Hp. apply Hq'; try done.
  apply Hq; try done. apply not_false_iff_true. intros Hd. apply not_false_iff_true in Hp. apply Hp.
  apply (ended_stays_ended (st2.2 a)); try done. pose proof (queued_generation _ _ _ Hg Ha Hqa).
  pose proof (evolve_generation _ _ a He). lia.
Qed.

Lemma coherent_evolve q regs regs' : coherent (q, regs) -> regs_evolve regs regs' -> coherent (q, regs').
Proof.
  intros Hco He i Hi s Hu. specialize (Hco i Hi Hu). pose proof (evolve_generation _ _ (registration s) He).
  cbn in *. unfold s in *. lia.
Qed.

Lemma regs_progress q regs regs' : good (q, regs) -> regs_evolve regs regs' -> progress (q, regs) (q, regs').
Proof. intros [Hw Hc] He. split; try done. split; [done | by eapply coherent_evolve]. Qed.

(** Emptying a slot whose wait is over, or of no interest. *)
Lemma detach_progress q q' regs regs' i : good (q, regs) -> 0 <= i < Capacity -> regs_evolve regs regs' ->
  let s := (slots_ q).[i] in (W (ticket s) -> WaitRegistration.pending (regs' (registration s)) (ticket s) = false) ->
  wf q' -> slots_ q' = (slots_ q).[i := empty_slot] -> progress (q, regs) (q', regs').
Proof.
  intros [Hw Hc] Hi He s Hp Hw' E. split; [split; [done |] | done |].
  - intros k Hk. cbn. rewrite E, slot_set by done. destruct (k =? i); [done |]. by apply (coherent_evolve q regs).
  - intros a tk HW Ha (k & Hk & Es) Hpa. exists k. split; [done |]. cbn in *. rewrite E, slot_set by done.
    destruct (Z.eqb_spec k i) as [-> |]; [| done]. unfold s in Hp. rewrite Es in Hp. cbn in Hp. by rewrite (Hp HW) in Hpa.
Qed.

Lemma find_empty_spec slots i :
  match find_empty slots i with
  | Some j => i <= j < i + zlen slots /\ used slots.[j - i] = false
  | None => zsum used_unit slots = zlen slots
  end.
Proof.
  revert i. induction slots as [| s rest IH]; intros i; [done |]. cbn [find_empty]. rewrite zlen_cons.
  pose proof (zlen_nonneg rest). destruct (used s) eqn:Hu.
  - specialize (IH (i + 1)). destruct (find_empty rest (i + 1)) as [j |].
    + destruct IH as [? IH]. split; [lia |]. rewrite aget_cons_pos by lia. by replace (j - i - 1) with (j - (i + 1)) by lia.
    + rewrite zsum_cons, IH. unfold used_unit. rewrite Hu. lia.
  - split; [lia |]. by rewrite Z.sub_diag.
Qed.

Lemma attach_progress q regs a tk : good (q, regs) -> a <> 0 -> ~ queued (q, regs) a tk -> count_ q <> Capacity ->
  WaitTicket.generation tk <= WaitTicket.generation (WaitRegistration.ticket_ (regs a)) ->
  let '(q', attached) := attach q a tk in
  attached = true /\ progress (q, regs) (q', regs) /\ queued (q', regs) a tk.
Proof.
  intros [Hw Hc] Ha Hq Hn Hg. unfold attach. pose proof (find_empty_spec (slots_ q) 0) as Hf. cbn in Hw. pose proof Hw as [Hl Hk Hcnt Ho Hd].
  destruct (find_empty (slots_ q) 0) as [i |]; [| lia]. rewrite Z.sub_0_r in Hf. destruct Hf as [Hi Hu].
  assert (0 <= i < Capacity) as Hic by lia. assert (used (mk_slot a tk) = true) as Hun by (unfold used; cbn; by cmp).
  split; [done |]. split; [split; [split |  done |] |].
  - split; cbn; [lens | done | | done |].
    + rewrite zsum_aset by lia. unfold used_unit at 2 3. rewrite Hu, Hun. lia.
    + intros k j Hkr Hjr. rewrite !slot_set by done. destruct (Z.eqb_spec k i), (Z.eqb_spec j i); subst; try done.
      * intros _ E. exfalso. apply Hq. by exists j.
      * intros _ E. exfalso. apply Hq. by exists k.
      * by apply Hd.
  - intros k Hkr. cbn. rewrite slot_set by done. destruct (k =? i); [done |]. by apply Hc.
  - intros b tk' _ Hb (k & Hkr & Es) _. exists k. split; [done |]. cbn in *. rewrite slot_set by done.
    destruct (Z.eqb_spec k i) as [-> |]; [| done]. rewrite Es in Hu. unfold used in Hu. cbn in Hu. b2p. done.
  - exists i. split; [done |]. cbn. by rewrite slot_set, Z.eqb_refl.
Qed.

Lemma prepare_progress q regs a owner thread : good (q, regs) -> a <> 0 ->
  let '(q', regs', r) := prepare Capacity q regs a owner thread in
  progress (q, regs) (q', regs') /\
  match r with
  | Ok tk => queued (q', regs') a tk /\ WaitRegistration.pending (regs' a) tk = true
  | Err _ => True
  end.
Proof.
  intros Hg Ha. unfold prepare. destruct (Z.eqb_spec (count_ q) Capacity) as [| Hn]; [by split; [apply progress_refl |] |].
  pose proof (put_evolves regs a _ (arm_evolves (regs a) owner thread)) as He. unfold WaitRegistration.arm in *.
  destruct (_ || _); [by split; [apply regs_progress |] |].
  destruct (WaitRegistration.active_ (regs a)); [by split; [apply regs_progress |] |].
  destruct (_ =? _); [by split; [apply regs_progress |] |]. cbn [fst] in He.
  set (tk := WaitTicket.mk _ _ _) in *. set (regs' := put regs a _) in *.
  assert (good (q, regs')) as Hg' by (by apply (pr_good _ _ (regs_progress q regs regs' Hg He))).
  assert (~ queued (q, regs') a tk) as Hq.
  { intros Hq. pose proof (queued_generation (q, regs) a tk Hg Ha Hq) as Hle. unfold tk in Hle. cbn in Hle. lia. }
  pose proof (attach_progress q regs' a tk Hg' Ha Hq Hn) as Hat. destruct (attach q a tk) as [q' attached].
  destruct Hat as (-> & Hpr & Hqd); [unfold regs'; by rewrite put_same |]. split; [| split; [done |]].
  - apply (progress_trans _ (q, regs')); [done | by apply regs_progress | done].
  - apply pending_spec. unfold regs'. by rewrite put_same.
Qed.

Lemma prune_from_progress n i d q regs : good (q, regs) -> 0 <= i -> i + Z.of_nat n <= Capacity ->
  progress (q, regs) (fst (prune_from n i d q regs), regs).
Proof.
  revert i d q. induction n as [| n IH]; intros i d q Hg Hi Hn; [by apply progress_refl |]. cbn [prune_from].
  destruct (used (slots_ q).[i]) eqn:Hu; cbn [andb]; [| apply IH; (done || lia)].
  destruct (live regs (slots_ q).[i]) eqn:Hl; cbn [negb]; [apply IH; (done || lia) |].
  unfold live in Hl. rewrite Hu in Hl. cbn in Hl. pose proof (detach_wf q i (proj1 Hg) ltac:(lia) Hu) as Hw'.
  pose proof (detach_progress q (detach q i) regs regs i Hg ltac:(lia) (reflexivity regs) (fun _ => Hl) Hw' eq_refl) as Hp.
  apply (progress_trans _ (detach q i, regs)); [done | done |]. apply IH; [apply Hp | lia | lia].
Qed.

Lemma prune_from_subset n i d q regs k : wf q -> 0 <= i -> i + Z.of_nat n <= Capacity -> 0 <= k < Capacity ->
  used (slots_ (fst (prune_from n i d q regs))).[k] = true -> (slots_ (fst (prune_from n i d q regs))).[k] = (slots_ q).[k].
Proof.
  revert i d q. induction n as [| n IH]; intros i d q Hw Hi Hn Hk; [done |]. cbn [prune_from].
  destruct (used (slots_ q).[i]) eqn:Hu; cbn [andb]; [| apply IH; (done || lia)].
  destruct (negb _); [| apply IH; (done || lia)]. intros Huk.
  pose proof (IH (i + 1) (d + 1) (detach q i) (detach_wf q i Hw ltac:(lia) Hu) ltac:(lia) ltac:(lia) Hk Huk) as E. rewrite E in Huk |- *.
  cbn in *. rewrite slot_set in * by (done || lia). by destruct (k =? i).
Qed.

Lemma enlist_progress q regs a : good (q, regs) -> a <> 0 -> progress (q, regs) (fst (enlist Capacity q regs a), regs).
Proof.
  intros Hg Ha. unfold enlist. destruct (negb _); [by apply progress_refl |].
  destruct (existsb _ _) eqn:Ex; [by apply progress_refl |].
  pose proof (prune_from_progress (Z.to_nat Capacity) 0 0 q regs Hg ltac:(lia) ltac:(lia)) as Hp. fold (prune Capacity q regs) in Hp.
  assert (~ queued (fst (prune Capacity q regs), regs) a (WaitRegistration.ticket (regs a))) as Hq.
  { intros (i & Hi & Es). cbn [fst] in Es. pose proof (prune_from_subset (Z.to_nat Capacity) 0 0 q regs i (proj1 Hg)) as Hsub.
    fold (prune Capacity q regs) in Hsub. rewrite Es in Hsub. specialize (Hsub ltac:(lia) ltac:(lia) Hi).
    apply not_true_iff_false in Ex. apply Ex, existsb_exists. exists (slots_ q).[i]. split.
    - apply list_elem_of_In, list_elem_of_lookup. exists (Z.to_nat i). apply lookup_aget. pose proof (wf_slots _ _ (proj1 Hg)). cbn in *. lia.
    - rewrite <- Hsub by (unfold used; cbn; by cmp). cbn. rewrite Z.eqb_refl. by apply ticket_eqb_spec. }
  set (q1 := fst (prune Capacity q regs)) in *.
  destruct (Z.eqb_spec (count_ q1) Capacity) as [| Hn]; [done |].
  pose proof (attach_progress q1 regs a _ (pr_good _ _ Hp) Ha Hq Hn ltac:(done)) as Hat.
  destruct (attach q1 a _) as [q2 attached]. destruct Hat as (-> & Hp2 & _). by apply (progress_trans _ (q1, regs)).
Qed.

Lemma find_live_spec slots regs tk i j : find_live slots regs tk i = Some j ->
  i <= j < i + zlen slots /\ live regs slots.[j - i] = true /\ ticket slots.[j - i] = tk.
Proof.
  revert i. induction slots as [| s rest IH]; intros i Hf; [done |]. cbn [find_live] in Hf. rewrite zlen_cons.
  pose proof (zlen_nonneg rest). destruct (live regs s && WaitTicket.eqb (ticket s) tk) eqn:E.
  - injection Hf as <-. apply andb_true_iff in E as [El Et%ticket_eqb_spec]. rewrite Z.sub_diag. split; [lia | done].
  - apply IH in Hf as (? & Hl). split; [lia |]. rewrite aget_cons_pos by lia. by replace (j - i - 1) with (j - (i + 1)) by lia.
Qed.

Lemma cancel_progress q regs tk : good (q, regs) ->
  let '(q', regs', _) := cancel q regs tk in progress (q, regs) (q', regs').
Proof.
  intros Hg. unfold cancel. destruct (find_live (slots_ q) regs tk 0) as [i |] eqn:Ef; [| by apply progress_refl].
  apply find_live_spec in Ef as (Hi & Hl & Ht). rewrite Z.sub_0_r in Hl, Ht. pose proof (wf_slots _ _ (proj1 Hg)) as Hlen. cbn in Hlen.
  pose proof Hl as [Hu Hp]%andb_true_iff. rewrite Ht in Hp. rewrite complete_pending by done. cbn [fst].
  apply (detach_progress _ _ _ _ i); try done; [lia | | | by apply detach_wf; [apply Hg | lia |]].
  - apply put_evolves. by right.
  - by rewrite put_same.
Qed.

Lemma woken_progress q regs i source c : good (q, regs) -> 0 <= i < Capacity -> live regs (slots_ q).[i] = true ->
  let a := registration (slots_ q).[i] in
  progress (q, regs) (woken q i source, put regs a (completed (regs a) c source)).
Proof.
  intros Hg Hi Hl a. apply (detach_progress _ _ _ _ i); try done.
  - apply put_evolves. by right.
  - by rewrite put_same.
  - apply woken_wf; [apply Hg | done | by apply live_used in Hl].
Qed.

Lemma keeps_progress q q' regs : good (q, regs) -> wf q' -> keeps regs q q' -> progress (q, regs) (q', regs).
Proof.
  intros [Hw Hc] Hw' [Hsub Hlive]. split; [split; [done |] | done |].
  - intros i Hi. cbn. destruct (Hsub i Hi) as [-> | ->]; [by apply Hc | done].
  - intros a tk _ Ha (i & Hi & Es) Hp. exists i. split; [done |]. cbn in *. rewrite Hlive; [done | done |].
    rewrite Es. unfold live, used. cbn. rewrite Hp. by cmp.
Qed.

Lemma wake_one_progress q regs source c : good (q, regs) -> c <> WaitCompletion.none ->
  let '(q', regs', _) := wake_one Capacity q regs source c in progress (q, regs) (q', regs').
Proof.
  intros Hg Hc. pose proof (wake_scan_spec (Z.to_nat Capacity) 0 q regs source c (proj1 Hg) ltac:(lia) ltac:(lia) Hc ltac:(lia)) as Hs.
  unfold wake_one. destruct (wake_scan _ _ _ _ _ _ _) as [[q' regs'] []].
  - destruct Hs as (q1 & i & Hw1 & Hk & Hi & Hl & _ & -> & ->). pose proof (keeps_progress q q1 regs Hg Hw1 Hk) as Hp1.
    apply (progress_trans _ (q1, regs)); [done | done |]. destruct (proj1 Hk i Hi) as [<- | E]; [| by rewrite E in Hl].
    apply woken_progress; [apply Hp1 | done | done].
  - destruct Hs as (Hw & Hk & _ & -> & _). by apply keeps_progress.
Qed.

Lemma wake_loop_progress fuel n q regs source c : good (q, regs) -> c <> WaitCompletion.none ->
  let '(q', regs', _) := wake_loop Capacity fuel n q regs source c in progress (q, regs) (q', regs').
Proof.
  intros Hg Hc. revert n q regs Hg. induction fuel as [| fuel IH]; intros n q regs Hg; [by apply progress_refl |].
  cbn [wake_loop]. pose proof (wake_one_progress q regs source c Hg Hc) as Hp.
  destruct (wake_one Capacity q regs source c) as [[q1 regs1] []]; [| done].
  specialize (IH (n + 1) q1 regs1 (pr_good _ _ Hp)). destruct (wake_loop _ _ _ _ _ _ _) as [[q2 regs2] m].
  by apply (progress_trans _ (q1, regs1)).
Qed.

(** What notify() expects of the visitor: registrations only move forward. *)
Definition visit_ok (visit : WaitTicket.t -> Registrations -> Registrations * bool) : Prop :=
  forall tk regs, regs_evolve regs (fst (visit tk regs)).

(** A visitor that takes the waiter [tk] out of the queue has ended its wait: it
    may complete it, but does not abandon it. *)
Definition keeps_or_completes (visit : WaitTicket.t -> Registrations -> Registrations * bool) (tk : WaitTicket.t) : Prop :=
  forall regs, snd (visit tk regs) = true -> forall a, WaitRegistration.pending (fst (visit tk regs) a) tk = false.

Lemma notify_scan_progress visit n scanned removed q regs : good (q, regs) -> visit_ok visit -> (forall tk, W tk -> keeps_or_completes visit tk) ->
  let '(q', regs', _) := notify_scan Capacity visit n scanned removed q regs in progress (q, regs) (q', regs').
Proof.
  intros Hg Hv Hkeep. revert scanned removed q regs Hg. induction n as [| n IH]; intros scanned removed q regs Hg; [by apply progress_refl |].
  cbn [notify_scan]. pose proof (scan_index q scanned) as Hi. set (i := (oldest_ q + scanned) mod Capacity) in *.
  assert (forall q1 regs1 r, progress (q, regs) (q1, regs1) ->
    let '(q', regs', _) := notify_scan Capacity visit n (scanned + 1) r q1 regs1 in progress (q, regs) (q', regs')) as Hnext.
  { intros q1 regs1 r Hp. specialize (IH (scanned + 1) r q1 regs1 (pr_good _ _ Hp)).
    destruct (notify_scan _ _ _ _ _ _ _) as [[q2 regs2] m]. by apply (progress_trans _ (q1, regs1)). }
  destruct (used (slots_ q).[i]) eqn:Hu; cbn [negb]; [| by apply IH]. pose proof (detach_wf q i (proj1 Hg) Hi Hu) as Hw'.
  destruct (live regs (slots_ q).[i]) eqn:Hl; cbn [negb].
  - pose proof (Hv (ticket (slots_ q).[i]) regs) as He.
    assert (W (ticket (slots_ q).[i]) -> snd (visit (ticket (slots_ q).[i]) regs) = true ->
      forall a, WaitRegistration.pending (fst (visit (ticket (slots_ q).[i]) regs) a) (ticket (slots_ q).[i]) = false) as Ht by (intros HW; by apply Hkeep).
    destruct (visit _ regs) as [regs1 []]; cbn [fst snd] in *.
    + apply Hnext. apply (detach_progress _ _ _ _ i); try done. intros HW. by apply Ht.
    + apply Hnext. by apply regs_progress.
  - apply Hnext. unfold live in Hl. rewrite Hu in Hl. by apply (detach_progress _ _ _ _ i).
Qed.

(** *** What waking does *)
Definition live_unit regs s : Z := if live regs s then 1 else 0.

Lemma live_after_wake regs q q1 i c source k : wf q1 -> keeps regs q q1 -> 0 <= i < Capacity -> 0 <= k < Capacity ->
  live regs (slots_ q1).[i] = true ->
  let a := registration (slots_ q).[i] in
  live (put regs a (completed (regs a) c source)) (slots_ (woken q1 i source)).[k] =
    if k =? i then false else live regs (slots_ q).[k].
Proof.
  intros Hw1 [Hsub Hlive] Hi Hk Hli a. cbn. rewrite slot_set by done. destruct (Z.eqb_spec k i) as [-> | Hne]; [done |].
  assert ((slots_ q1).[i] = (slots_ q).[i]) as Ei by (destruct (Hsub i Hi) as [E | E]; [done | by rewrite E in Hli]).
  destruct (live regs (slots_ q).[k]) eqn:El.
  - pose proof (Hlive k Hk El) as Ek. unfold a. rewrite <- Ei. apply other_live; try done. by rewrite Ek.
  - destruct (Hsub k Hk) as [-> | ->]; [| done]. unfold live, put in *. destruct (used (slots_ q).[k]); [cbn in * | done].
    by destruct (_ =? a).
Qed.

Lemma live_count_after_wake regs q q1 i c source : wf q -> wf q1 -> keeps regs q q1 -> 0 <= i < Capacity ->
  live regs (slots_ q1).[i] = true ->
  let a := registration (slots_ q).[i] in
  zsum (live_unit (put regs a (completed (regs a) c source))) (slots_ (woken q1 i source)) =
    zsum (live_unit regs) (slots_ q) - 1.
Proof.
  intros Hw Hw1 Hk Hi Hl a. pose proof (wf_slots _ q Hw). pose proof (wf_slots _ q1 Hw1).
  assert (live regs (slots_ q).[i] = true) as Hli by (destruct (proj1 Hk i Hi) as [<- | E]; [done | by rewrite E in Hl]).
  transitivity (zsum (live_unit regs) (slots_ q).[i := empty_slot]).
  - apply zsum_ext; [cbn; lens |]. intros k Hkr. cbn [woken slots_] in Hkr. rewrite zlen_aset in Hkr.
    unfold live_unit. rewrite slot_set by (done || lia). unfold a. rewrite live_after_wake by (done || lia).
    by destruct (k =? i).
  - rewrite zsum_aset by lia. unfold live_unit at 2 3. rewrite Hli. cbn. lia.
Qed.

(** Wake_one() wakes exactly one waiter whenever one is waiting: it completes
    that waiter's own pending wait with the given outcome, frees its slot,
    leaves every other registration and every other live waiter alone, and
    counts the wake.  It returns false only when nobody was waiting, and then
    changes no registration and leaves no entry behind. *)
Theorem wake_one_spec q regs source c : wf q -> c <> WaitCompletion.none ->
  let '(q', regs', woke) := wake_one Capacity q regs source c in
  wf q' /\
  if woke then exists i, 0 <= i < Capacity /\ live regs (slots_ q).[i] = true /\
      let a := registration (slots_ q).[i] in
      regs' = put regs a (completed (regs a) c source) /\ (slots_ q').[i] = empty_slot /\
      (forall k, 0 <= k < Capacity -> k <> i -> live regs (slots_ q).[k] = true ->
         (slots_ q').[k] = (slots_ q).[k] /\ live regs' (slots_ q').[k] = true) /\
      wakes q' source = usize_wrap (wakes q source + 1)
  else regs' = regs /\ waiting q' = 0 /\ forall i, 0 <= i < Capacity -> live regs (slots_ q).[i] = false.
Proof.
  intros Hw Hc. pose proof (wake_scan_spec (Z.to_nat Capacity) 0 q regs source c Hw ltac:(lia) ltac:(lia) Hc ltac:(lia)) as Hs.
  unfold wake_one. destruct (wake_scan _ _ _ _ _ _ _) as [[q' regs'] []].
  - destruct Hs as (q1 & i & Hw1 & Hk & Hi & Hl & Ewk & -> & ->). split; [apply woken_wf; try done; by apply live_used in Hl |].
    exists i. pose proof Hk as [Hsub Hlive]. split; [done |].
    split; [destruct (Hsub i Hi) as [<- | E]; [done | by rewrite E in Hl] |]. split; [done |]. split; [| split].
    + cbn. by rewrite slot_set, Z.eqb_refl by done.
    + intros k Hkr Hne Hlk. rewrite live_after_wake by done. cbn [woken slots_]. rewrite slot_set by done. cmp. split; [by apply Hlive | done].
    + unfold wakes. cbn. rewrite Ewk, aget_aset_eq; [done |]. rewrite (wf_wakes _ q Hw). by destruct source.
  - destruct Hs as (Hw' & [Hsub Hlive] & _ & -> & Hun). split; [done |]. split; [done |]. split.
    + unfold waiting. rewrite (wf_count _ q' Hw'), (zsum_ext used_unit (fun _ => 0) _ (slots_ q')); [| done |].
      * clear. induction (slots_ q') as [| s l IH]; [done |]. by rewrite zsum_cons, IH.
      * intros i Hi. unfold used_unit. rewrite Hun; [done |]. by rewrite <- (wf_slots _ q' Hw').
    + intros i Hi. apply not_true_iff_false. intros Hl. pose proof (Hun i Hi) as Hu. rewrite (Hlive i Hi Hl) in Hu.
      apply live_used in Hl. congruence.
Qed.

Lemma no_live_unit regs q : wf q -> (forall k, 0 <= k < Capacity -> live regs (slots_ q).[k] = false) ->
  zsum (live_unit regs) (slots_ q) = 0.
Proof.
  intros Hw Hl. rewrite (zsum_ext _ (fun _ => 0) _ (slots_ q)); [| done |].
  - clear. induction (slots_ q) as [| s l IH]; [done | by rewrite zsum_cons, IH].
  - intros i Hi. unfold live_unit. rewrite Hl; [done |]. by rewrite <- (wf_slots _ q Hw).
Qed.

Lemma keeps_unused regs q q' k : keeps regs q q' -> 0 <= k < Capacity -> used (slots_ q').[k] = false -> live regs (slots_ q).[k] = false.
Proof.
  intros [_ Hlive] Hk Hu. apply not_true_iff_false. intros Hl. rewrite (Hlive k Hk Hl) in Hu. apply live_used in Hl. congruence.
Qed.

(** The loop of wake_all() ends with every waiter completed, given one more
    turn than there are waiters. *)
Lemma wake_loop_spec fuel n q regs source c : wf q -> c <> WaitCompletion.none ->
  zsum (live_unit regs) (slots_ q) < Z.of_nat fuel ->
  let '(q', regs', m) := wake_loop Capacity fuel n q regs source c in
  m = n + zsum (live_unit regs) (slots_ q) /\
  (forall k, 0 <= k < Capacity -> used (slots_ q').[k] = false) /\
  (forall k, 0 <= k < Capacity -> live regs (slots_ q).[k] = true ->
     let a := registration (slots_ q).[k] in regs' a = completed (regs a) c source) /\
  (forall a, (forall k, 0 <= k < Capacity -> live regs (slots_ q).[k] = true -> registration (slots_ q).[k] <> a) ->
     regs' a = regs a).
Proof.
  intros Hw Hc. revert n q regs Hw. induction fuel as [| fuel IH]; intros n q regs Hw Hfuel.
  { exfalso. pose proof (zsum_bounds (live_unit regs) (slots_ q)) as Hb. destruct Hb as [Hb _]; [| lia].
    intros x. unfold live_unit. by destruct (live regs x). }
  cbn [wake_loop]. unfold wake_one.
  pose proof (wake_scan_spec (Z.to_nat Capacity) 0 q regs source c Hw ltac:(lia) ltac:(lia) Hc ltac:(lia)) as Hs.
  destruct (wake_scan _ _ _ _ _ _ _) as [[q' regs'] []].
  - destruct Hs as (q1 & i & Hw1 & Hk & Hi & Hl & _ & -> & ->). set (a := registration (slots_ q).[i]) in *.
    set (regs1 := put regs a _) in *.
    assert (zsum (live_unit regs1) (slots_ (woken q1 i source)) = zsum (live_unit regs) (slots_ q) - 1) as Hcount
      by (by apply live_count_after_wake).
    assert (forall k, 0 <= k < Capacity -> live regs1 (slots_ (woken q1 i source)).[k] = if k =? i then false else live regs (slots_ q).[k]) as Hla
      by (intros k Hkr; by apply live_after_wake).
    assert (forall k, 0 <= k < Capacity -> live regs (slots_ q).[k] = true -> k <> i -> (slots_ (woken q1 i source)).[k] = (slots_ q).[k]) as Hsame.
    { intros k Hkr Hlk Hne. cbn. rewrite slot_set by done. cmp. by apply Hk. }
    specialize (IH (n + 1) (woken q1 i source) regs1 (woken_wf q1 i source Hw1 Hi (live_used _ _ Hl)) ltac:(lia)).
    destruct (wake_loop _ _ _ _ _ _ _) as [[q2 regs2] m]. destruct IH as (-> & Hun & Hdone & Hrest).
    assert (forall k, 0 <= k < Capacity -> live regs1 (slots_ (woken q1 i source)).[k] = true -> registration (slots_ (woken q1 i source)).[k] <> a) as Hna.
    { intros k Hkr [_ Hp]%andb_true_iff E. rewrite E in Hp. unfold regs1 in Hp. rewrite put_same in Hp. done. }
    split; [lia |]. split; [done |]. split.
    + intros k Hkr Hlk. destruct (Z.eq_dec k i) as [-> | Hne].
      * fold a. cbn zeta. rewrite (Hrest a Hna). unfold regs1. by rewrite put_same.
      * cbn zeta. rewrite <- (Hsame k Hkr Hlk Hne). assert (live regs1 (slots_ (woken q1 i source)).[k] = true) as Hl1 by (rewrite Hla by done; by cmp).
        specialize (Hdone k Hkr Hl1). cbn zeta in Hdone. rewrite Hdone. unfold regs1 at 1. by rewrite put_other by (by apply Hna).
    + intros b Hb. rewrite Hrest; [apply put_other |].
      * intros ->. apply (Hb i Hi); [| done]. destruct (proj1 Hk i Hi) as [<- | E]; [done | by rewrite E in Hl].
      * intros k Hkr Hlk. rewrite Hla in Hlk by done. destruct (Z.eqb_spec k i); [done |]. rewrite Hsame by done. by apply Hb.
  - destruct Hs as (Hw' & Hk & _ & -> & Hun). assert (forall k, 0 <= k < Capacity -> live regs (slots_ q).[k] = false) as Hnl
      by (intros k Hkr; by eapply keeps_unused, Hun).
    rewrite no_live_unit by done. split_and!; try done; [lia |]. intros k Hkr Hlk. by rewrite Hnl in Hlk.
Qed.

(** *** Histories *)

(** Operations on the queue, and what happens to registrations elsewhere. *)
Inductive wait_op :=
| Prepare (a owner thread : Z)
| Enlist (a : Z)
| Cancel (tk : WaitTicket.t)
| WakeOne (source : WakeSource.t) (c : WaitCompletion.t)
| WakeAll (source : WakeSource.t) (c : WaitCompletion.t)
| Notify (visit : WaitTicket.t -> Registrations -> Registrations * bool)
| Prune
| ArmElsewhere (a owner thread : Z)
| CompleteElsewhere (a : Z) (tk : WaitTicket.t) (c : WaitCompletion.t) (source : WakeSource.t).

Definition wait_exec (st : state) (o : wait_op) : state :=
  let '(q, regs) := st in
  match o with
  | Prepare a owner thread => fst (prepare Capacity q regs a owner thread)
  | Enlist a => (fst (enlist Capacity q regs a), regs)
  | Cancel tk => fst (cancel q regs tk)
  | WakeOne source c => fst (wake_one Capacity q regs source c)
  | WakeAll source c => fst (wake_all Capacity q regs source c)
  | Notify visit => fst (notify Capacity visit q regs)
  | Prune => (fst (prune Capacity q regs), regs)
  | ArmElsewhere a owner thread => (q, put regs a (fst (WaitRegistration.arm (regs a) owner thread)))
  | CompleteElsewhere a tk c source => (q, put regs a (fst (WaitRegistration.complete (regs a) tk c source)))
  end.

(** Registrations are objects, wakers name an outcome. *)
Definition wait_op_ok (o : wait_op) : Prop :=
  match o with
  | Prepare a _ _ | Enlist a => a <> 0
  | WakeOne _ c | WakeAll _ c => c <> WaitCompletion.none
  | Notify visit => visit_ok visit
  | _ => True
  end.

(** The operation does not abandon the waiter [tk]. *)
Definition not_abandoned (tk : WaitTicket.t) (o : wait_op) : Prop :=
  match o with Notify visit => keeps_or_completes visit tk | _ => True end.

Lemma wait_exec_progress st o : good st -> wait_op_ok o -> (forall tk, W tk -> not_abandoned tk o) -> progress st (wait_exec st o).
Proof.
  destruct st as [q regs]. intros Hg Ho Hab. destruct o as [a ow th | a | tk | sr c | sr c | visit | | a ow th | a tk c sr]; cbn [wait_exec wait_op_ok not_abandoned] in *.
  - pose proof (prepare_progress q regs a ow th Hg Ho) as Hp. by destruct (prepare _ _ _ _ _ _) as [[? ?] ?], Hp.
  - by apply enlist_progress.
  - pose proof (cancel_progress q regs tk Hg) as Hp. by destruct (cancel _ _ _) as [[? ?] ?].
  - pose proof (wake_one_progress q regs sr c Hg Ho) as Hp. by destruct (wake_one _ _ _ _ _) as [[? ?] ?].
  - pose proof (wake_loop_progress (S (Z.to_nat Capacity)) 0 q regs sr c Hg Ho) as Hp. unfold wake_all.
    by destruct (wake_loop _ _ _ _ _ _ _) as [[? ?] ?].
  - pose proof (notify_scan_progress visit (Z.to_nat Capacity) 0 0 q regs Hg Ho Hab) as Hp. unfold notify.
    by destruct (notify_scan _ _ _ _ _ _ _) as [[? ?] ?].
  - apply prune_from_progress; [done | lia | lia].
  - apply regs_progress; [done |]. auto with kernel.
  - apply regs_progress; [done |]. auto with kernel.
Qed.

Lemma wait_run_progress st ops : good st -> Forall wait_op_ok ops -> (forall tk, W tk -> Forall (not_abandoned tk) ops) ->
  progress st (fold_left wait_exec ops st).
Proof.
  intros Hg Hops. revert st Hg. induction Hops as [| o ops Ho _ IH]; intros st Hg Hab; [by apply progress_refl |]. cbn.
  assert (progress st (wait_exec st o)) as Hp by (apply wait_exec_progress; try done; intros tk HW; by destruct (proj1 (Forall_cons _ _ _) (Hab tk HW))).
  apply (progress_trans _ (wait_exec st o)); [done | done |]. apply IH; [apply Hp |]. intros tk HW. by destruct (proj1 (Forall_cons _ _ _) (Hab tk HW)).
Qed.
End Watched.

Lemma reached_good st ops : good st -> Forall wait_op_ok ops -> good (fold_left wait_exec ops st).
Proof. intros Hg Hops. by apply (pr_good (fun _ => False) st), wait_run_progress. Qed.

Lemma new_good regs : good (new Capacity, regs).
Proof. split; [apply new_queue_wf |]. intros i Hi. cbn. rewrite aget_replicate by lia. done. Qed.

(** C34: no wakeup is lost.  Whatever the queue and the rest of the kernel do in
    between, a waiter that prepare() accepted, whose wait nobody has completed,
    and that no visitor of notify() has abandoned (taken out of the queue
    without completing it), is still queued, and the next wake_all() completes
    exactly that wait with the outcome given and leaves the queue empty. *)
Theorem pending_waiters_are_woken regs0 ops1 a owner thread ops2 source c :
  Forall wait_op_ok ops1 -> Forall wait_op_ok ops2 -> a <> 0 -> c <> WaitCompletion.none ->
  let st1 := fold_left wait_exec ops1 (new Capacity, regs0) in
  let '(q2, regs2, prepared) := prepare Capacity st1.1 st1.2 a owner thread in
  let st3 := fold_left wait_exec ops2 (q2, regs2) in
  match prepared with
  | Ok tk =>
      Forall (not_abandoned tk) ops2 -> WaitRegistration.pending (st3.2 a) tk = true ->
      let '(q4, regs4, woken) := wake_all Capacity st3.1 st3.2 source c in
      queued st3 a tk /\ regs4 a = completed (st3.2 a) c source /\
      1 <= woken <= Capacity /\ forall k, 0 <= k < Capacity -> used (slots_ q4).[k] = false
  | Err _ => True
  end.
Proof.
  intros Hops1 Hops2 Ha Hc st1. pose proof (reached_good _ ops1 (new_good regs0) Hops1) as Hg1. fold st1 in Hg1.
  destruct st1 as [q1 regs1]. cbn [fst snd] in *.
  pose proof (fun W => prepare_progress W q1 regs1 a owner thread Hg1 Ha) as Hp.
  destruct (prepare _ _ _ _ _ _) as [[q2 regs2] [tk | e]]; [| done]. destruct (Hp (eq tk)) as (Hp2 & Hq & _).
  set (st3 := fold_left wait_exec ops2 (q2, regs2)). intros Hab Hpend.
  assert (progress (eq tk) (q2, regs2) st3) as Hp3 by (apply wait_run_progress; [apply Hp2 | done | by intros ? <-]).
  pose proof (pr_queued _ _ _ Hp3 a tk eq_refl Ha Hq Hpend) as Hq3. pose proof (proj1 (pr_good _ _ _ Hp3)) as Hw3. destruct st3 as [q3 regs3]. cbn [fst snd] in *.
  assert (forall x, 0 <= live_unit regs3 x <= 1) as Hu by (intros x; unfold live_unit; by destruct (live regs3 x)).
  pose proof (zsum_bounds (live_unit regs3) (slots_ q3) Hu) as Hb. rewrite (wf_slots _ q3 Hw3) in Hb.
  pose proof (wake_loop_spec (S (Z.to_nat Capacity)) 0 q3 regs3 source c Hw3 Hc ltac:(lia)) as Hs. unfold wake_all.
  destruct (wake_loop _ _ _ _ _ _ _) as [[q4 regs4] m]. destruct Hs as (-> & Hun & Hdone & _). split; [done |].
  destruct Hq3 as (k & Hk & Es). cbn [fst] in Es. assert (live regs3 (slots_ q3).[k] = true) as Hl by (rewrite Es; unfold live, used; cbn; rewrite Hpend; by cmp).
  specialize (Hdone k Hk Hl). cbn zeta in Hdone. rewrite Es in Hdone. split; [done |]. split; [| done].
  pose proof (zsum_elem (live_unit regs3) (slots_ q3) k) as He. unfold live_unit at 2 in He. rewrite Hl in He.
  rewrite (wf_slots _ q3 Hw3) in He. split; [| lia]. apply He; [| done]. apply Forall_forall. intros x _. apply Hu.
Qed.

(** An entry left from an earlier wait is never applied to a later wait of the
    same thread.  In every reachable state, if the present wait of a
    registration is not itself queued here, then neither wake_one() nor
    wake_all() touches the registration, whatever older entries still name it. *)
Theorem stale_entries_never_wake regs0 ops a source c :
  Forall wait_op_ok ops -> c <> WaitCompletion.none ->
  let st := fold_left wait_exec ops (new Capacity, regs0) in
  ~ queued st a (WaitRegistration.ticket (st.2 a)) ->
  (let '(_, regs', _) := wake_one Capacity st.1 st.2 source c in regs' a = st.2 a) /\
  (let '(_, regs', _) := wake_all Capacity st.1 st.2 source c in regs' a = st.2 a).
Proof.
  intros Hops Hc st Hq. pose proof (reached_good _ ops (new_good regs0) Hops) as [Hw _]. fold st in Hw.
  destruct st as [q regs]. cbn [fst snd] in *.
  assert (forall k, 0 <= k < Capacity -> live regs (slots_ q).[k] = true -> registration (slots_ q).[k] <> a) as Hna.
  { intros k Hk [_ [_ Ht]%pending_spec]%andb_true_iff <-. apply Hq. exists k. split; [done |]. cbn.
    unfold WaitRegistration.ticket. rewrite <- Ht. by destruct (slots_ q).[k]. }
  split.
  - pose proof (wake_scan_spec (Z.to_nat Capacity) 0 q regs source c Hw ltac:(lia) ltac:(lia) Hc ltac:(lia)) as Hs.
    unfold wake_one. destruct (wake_scan _ _ _ _ _ _ _) as [[q' regs'] []]; [| by destruct Hs as (_ & _ & _ & -> & _)].
    destruct Hs as (q1 & i & _ & Hk & Hi & Hl & _ & _ & ->). apply put_other. intros E. apply (Hna i Hi); [| done].
    destruct (proj1 Hk i Hi) as [<- | E']; [done | by rewrite E' in Hl].
  - assert (forall x, 0 <= live_unit regs x <= 1) as Hu by (intros x; unfold live_unit; by destruct (live regs x)).
    pose proof (zsum_bounds (live_unit regs) (slots_ q) Hu) as Hb. rewrite (wf_slots _ q Hw) in Hb.
    pose proof (wake_loop_spec (S (Z.to_nat Capacity)) 0 q regs source c Hw Hc ltac:(lia)) as Hs. unfold wake_all.
    destruct (wake_loop _ _ _ _ _ _ _) as [[q4 regs4] m]. destruct Hs as (_ & _ & _ & Hrest). by apply Hrest.
Qed.
End Queue.
End WaitProofs.

(** ** The order of wakeups *)
Section WakeOrder.
Import WaitQueue WaitProofs.
Context `{Arch} (Capacity : Z) (Hcap : 0 < Capacity).
Abbreviation wf := (wf Capacity).

(** How far the scans of wake_one() and notify() are from slot [k]. *)
Definition turn (q : t) (k : Z) : Z := (k - oldest_ q) mod Capacity.

Lemma turn_slot q s : 0 <= s < Capacity -> turn q ((oldest_ q + s) mod Capacity) = s.
Proof.
  intros Hs. unfold turn. rewrite Zminus_mod_idemp_l. replace (oldest_ q + s - oldest_ q) with s by lia. by apply Z.mod_small.
Qed.

Lemma slot_turn q k : 0 <= k < Capacity -> (oldest_ q + turn q k) mod Capacity = k.
Proof.
  intros Hk. unfold turn. rewrite Z.add_mod_idemp_r by lia. replace (oldest_ q + (k - oldest_ q)) with k by lia. by apply Z.mod_small.
Qed.

Lemma turn_range q k : 0 <= turn q k < Capacity.
Proof. apply Z.mod_pos_bound. lia. Qed.

(** The scan ends at the first live slot from [oldest_] on. *)
Lemma wake_scan_first n scanned q regs source c : wf q -> 0 <= scanned -> Z.of_nat n + scanned = Capacity ->
  (forall s, 0 <= s < scanned -> live regs (slots_ q).[(oldest_ q + s) mod Capacity] = false) ->
  let '(_, regs', woke) := wake_scan Capacity n scanned q regs source c in
  if woke then exists s, 0 <= s < Capacity /\ let i := (oldest_ q + s) mod Capacity in
      live regs (slots_ q).[i] = true /\ (forall s', 0 <= s' < s -> live regs (slots_ q).[(oldest_ q + s') mod Capacity] = false) /\
      let a := registration (slots_ q).[i] in regs' = put regs a (fst (WaitRegistration.complete (regs a) (ticket (slots_ q).[i]) c source))
  else forall s, 0 <= s < Capacity -> live regs (slots_ q).[(oldest_ q + s) mod Capacity] = false.
Proof.
  revert scanned q. induction n as [| n IH]; intros scanned q Hw Hs Hn Hpre; cbn [wake_scan]; [intros s Hr; apply Hpre; lia |].
  pose proof (Z.mod_pos_bound (oldest_ q + scanned) Capacity Hcap) as Hi. set (i := (oldest_ q + scanned) mod Capacity) in *.
  assert (live regs (slots_ q).[i] = false -> forall s, 0 <= s < scanned + 1 -> live regs (slots_ q).[(oldest_ q + s) mod Capacity] = false) as Hpre'.
  { intros Hl s Hr. destruct (Z.eq_dec s scanned) as [-> |]; [done | apply Hpre; lia]. }
  destruct (used (slots_ q).[i]) eqn:Hu; cbn [negb].
  2: { apply IH; try done; try lia. apply Hpre'. unfold live. by rewrite Hu. }
  destruct (live regs (slots_ q).[i]) eqn:Hl; cbn [negb]; [exists scanned; split_and!; try done; lia |].
  assert (forall k, 0 <= k < Capacity -> (slots_ (detach q i)).[k] = (slots_ q).[k] \/
    (slots_ (detach q i)).[k] = empty_slot /\ live regs (slots_ q).[k] = false) as Hsame.
  { intros k Hk. cbn. rewrite (slot_set Capacity) by done. destruct (Z.eqb_spec k i) as [-> |]; [by right | by left]. }
  assert (forall s, live regs (slots_ (detach q i)).[(oldest_ q + s) mod Capacity] = live regs (slots_ q).[(oldest_ q + s) mod Capacity]) as Hlive.
  { intros s. destruct (Hsame ((oldest_ q + s) mod Capacity)) as [-> | [-> ->]]; [apply Z.mod_pos_bound; lia | done | done]. }
  specialize (IH (scanned + 1) (detach q i) (detach_wf Capacity Hcap q i Hw Hi Hu) ltac:(lia) ltac:(lia)). change (oldest_ (detach q i)) with (oldest_ q) in IH.
  specialize (IH ltac:(intros s Hr; rewrite Hlive; by apply Hpre')).
  destruct (wake_scan _ _ _ _ _ _ _) as [[q' regs'] woke]. destruct woke; [| intros s Hr; rewrite <- Hlive; by apply IH].
  destruct IH as (s & Hr & Hls & Hfirst & Hregs). rewrite Hlive in Hls. exists s. split; [done |]. cbn zeta in *. split_and!; try done.
  - intros s' Hs'. rewrite <- Hlive. by apply Hfirst.
  - rewrite Hregs. destruct (Hsame ((oldest_ q + s) mod Capacity)) as [-> | [_ E]]; [apply Z.mod_pos_bound; lia | done | by rewrite E in Hls].
Qed.

Lemma wake_one_first q regs source c : wf q -> c <> WaitCompletion.none ->
  let '(_, regs', woke) := wake_one Capacity q regs source c in
  if woke then exists i, 0 <= i < Capacity /\ live regs (slots_ q).[i] = true /\
      (forall k, 0 <= k < Capacity -> live regs (slots_ q).[k] = true -> turn q i <= turn q k) /\
      let a := registration (slots_ q).[i] in regs' = put regs a (completed (regs a) c source)
  else forall k, 0 <= k < Capacity -> live regs (slots_ q).[k] = false.
Proof.
  intros Hw Hc. pose proof (wake_scan_first (Z.to_nat Capacity) 0 q regs source c Hw ltac:(lia) ltac:(lia) ltac:(lia)) as Hs.
  unfold wake_one. destruct (wake_scan _ _ _ _ _ _ _) as [[q' regs'] []].
  - destruct Hs as (s & Hr & Hl & Hfirst & ->). exists ((oldest_ q + s) mod Capacity). rewrite turn_slot by done. cbn zeta.
    split_and!; [apply Z.mod_pos_bound; lia.. | done | |].
    + intros k Hk Hlk. apply Z.nlt_ge. intros Hlt. pose proof (turn_range q k). rewrite <- (slot_turn q k Hk), Hfirst in Hlk; [done | lia].
    + pose proof Hl as [_ Hp]%andb_true_iff. by rewrite complete_pending.
  - intros k Hk. rewrite <- (slot_turn q k Hk). apply Hs. apply turn_range.
Qed.
Lemma find_empty_first slots i j : find_empty slots i = Some j -> forall k, i <= k < j -> used slots.[k - i] = true.
Proof.
  revert i. induction slots as [| s rest IH]; intros i Hf k Hk; [done |]. cbn [find_empty] in Hf. destruct (used s) eqn:Hu; [| injection Hf as <-; lia].
  destruct (Z.eq_dec k i) as [-> |]; [by rewrite Z.sub_diag |]. rewrite aget_cons_pos by lia.
  replace (k - i - 1) with (k - (i + 1)) by lia. apply (IH (i + 1) Hf). lia.
Qed.

(** What an accepted prepare() does: a new ticket for an idle registration, in the
    first empty slot. *)
Lemma prepare_accepted q regs a owner thread q2 regs2 tk : wf q ->
  prepare Capacity q regs a owner thread = (q2, regs2, Ok tk) ->
  WaitRegistration.active_ (regs a) = false /\ WaitTicket.generation (WaitRegistration.ticket_ (regs a)) < WaitTicket.generation tk /\
  regs2 = put regs a (WaitRegistration.mk tk WaitCompletion.none WakeSource.thread true) /\
  exists j, 0 <= j < Capacity /\ used (slots_ q).[j] = false /\ (forall k, 0 <= k < j -> used (slots_ q).[k] = true) /\
    slots_ q2 = (slots_ q).[j := mk_slot a tk] /\ oldest_ q2 = oldest_ q.
Proof.
  intros Hw. unfold prepare, WaitRegistration.arm. destruct (_ =? Capacity); [done |]. destruct (_ || _); [done |].
  destruct (WaitRegistration.active_ (regs a)); [done |]. destruct (_ =? u64_max); [done |]. unfold attach.
  pose proof (find_empty_spec (slots_ q) 0) as Hf. pose proof (find_empty_first (slots_ q) 0) as Hfirst.
  destruct (find_empty (slots_ q) 0) as [j |]; [| done]. intros [= <- <- <-]. cbn [WaitTicket.generation].
  rewrite Z.sub_0_r, (wf_slots _ q Hw) in Hf. destruct Hf as [Hj Hu]. split_and!; [done | lia | done |]. exists j. split_and!; try done; try lia.
  intros k Hk. specialize (Hfirst j eq_refl k Hk). by rewrite Z.sub_0_r in Hfirst.
Qed.

(** The entries of the others are live after a prepare() if they were before. *)
Lemma prepare_live q regs a owner thread q2 regs2 tk k : good Capacity (q, regs) ->
  prepare Capacity q regs a owner thread = (q2, regs2, Ok tk) -> 0 <= k < Capacity -> live regs2 (slots_ q).[k] = live regs (slots_ q).[k].
Proof.
  intros [Hw Hco] Hp Hk. apply prepare_accepted in Hp as (Hact & Hgen & -> & _); [| done]. specialize (Hco k Hk). cbn in Hco.
  unfold live. destruct (used (slots_ q).[k]) eqn:Hu; [| done]. specialize (Hco eq_refl). cbn [andb]. unfold put.
  destruct (Z.eqb_spec (registration (slots_ q).[k]) a) as [E | E]; [| done]. rewrite E in *. unfold WaitRegistration.pending at 2. rewrite Hact. cbn [andb].
  apply not_true_is_false. intros [_ Ht]%pending_spec. cbn in Ht. rewrite Ht in Hco. lia.
Qed.

(** C40: wake_one() wakes in slot order, not by age.  It completes the waiter
    whose slot the scan from [oldest_] reaches first, if there is one.  A new
    waiter gets the first empty slot, and the next wake_one() wakes it before
    everybody that was already waiting exactly when that slot comes before
    theirs in the scan. *)
Theorem wake_one_in_slot_order q regs a owner thread source c :
  good Capacity (q, regs) -> a <> 0 -> c <> WaitCompletion.none ->
  (let '(_, regs', woke) := wake_one Capacity q regs source c in
   if woke then exists i, 0 <= i < Capacity /\ live regs (slots_ q).[i] = true /\
       (forall k, 0 <= k < Capacity -> live regs (slots_ q).[k] = true -> turn q i <= turn q k) /\
       let b := registration (slots_ q).[i] in regs' = put regs b (completed (regs b) c source)
   else forall k, 0 <= k < Capacity -> live regs (slots_ q).[k] = false) /\
  forall q2 regs2 tk, prepare Capacity q regs a owner thread = (q2, regs2, Ok tk) ->
    exists j, 0 <= j < Capacity /\ used (slots_ q).[j] = false /\ (forall k, 0 <= k < j -> used (slots_ q).[k] = true) /\
      let '(_, regs3, woke) := wake_one Capacity q2 regs2 source c in
      woke = true /\
      (regs3 a = completed (regs2 a) c source <->
       forall k, 0 <= k < Capacity -> live regs (slots_ q).[k] = true -> turn q j < turn q k).
Proof.
  intros Hg Ha Hc. pose proof Hg as [Hw _]. split; [by apply wake_one_first |]. intros q2 regs2 tk Hp.
  pose proof (fun k => prepare_live q regs a owner thread q2 regs2 tk k Hg Hp) as Hlive.
  pose proof (prepare_progress Capacity (fun _ => False) q regs a owner thread Hg Ha) as Hpr. rewrite Hp in Hpr.
  destruct Hpr as [[[Hw2 _] _ _] _]. cbn [fst] in Hw2.
  apply prepare_accepted in Hp as (Hact & _ & -> & j & Hj & Hfree & Hfirst & Es & Eo); [| done].
  set (r := WaitRegistration.mk tk _ _ _) in *. exists j. do 3 (split; [done |]).
  assert (forall k, 0 <= k < Capacity -> (slots_ q2).[k] = if k =? j then mk_slot a tk else (slots_ q).[k]) as Hslot
    by (intros k Hk; rewrite Es; by apply (slot_set Capacity)).
  assert (forall k, turn q2 k = turn q k) as Hturn by (intros k; unfold turn; by rewrite Eo).
  assert (live (put regs a r) (slots_ q2).[j] = true) as Hlj.
  { rewrite Hslot, Z.eqb_refl by done. unfold live, used. cbn. cmp. apply pending_spec. by rewrite put_same. }
  assert (forall k, 0 <= k < Capacity -> live regs (slots_ q).[k] = true -> k <> j /\ registration (slots_ q).[k] <> a) as Hne.
  { intros k Hk Hl. pose proof Hl as [Hu [Hx _]%pending_spec]%andb_true_iff. split; [intros ->; congruence | intros E; congruence]. }
  assert (forall k, 0 <= k < Capacity -> k <> j -> live (put regs a r) (slots_ q2).[k] = live regs (slots_ q).[k]) as Hother
    by (intros k Hk Hkj; rewrite Hslot by done; cmp; by apply Hlive).
  pose proof (wake_one_first q2 (put regs a r) source c Hw2 Hc) as Hwake.
  destruct (wake_one Capacity q2 (put regs a r) source c) as [[q3 regs3] []]; [| by rewrite Hwake in Hlj]. split; [done |].
  destruct Hwake as (i & Hi & Hli & Hmin & ->). setoid_rewrite Hturn in Hmin.
  destruct (Z.eq_dec i j) as [-> | Hij].
  - rewrite Hslot, Z.eqb_refl by done. cbn [registration]. rewrite put_same. split; [| done]. intros _ k Hk Hl. destruct (Hne k Hk Hl) as [Hkj _].
    assert (turn q j <= turn q k) by (apply Hmin; [done | by rewrite Hother]).
    assert (turn q j <> turn q k); [| lia]. intros E. apply Hkj. by rewrite <- (slot_turn q k Hk), <- E, slot_turn.
  - rewrite Hother in Hli by done. destruct (Hne i Hi Hli) as [_ Hreg]. rewrite Hslot by done. cmp. rewrite put_other by done. split.
    + rewrite put_same. unfold r. cbn. by intros [=].
    + intros Hall. specialize (Hall i Hi Hli). specialize (Hmin j Hj Hlj). lia.
Qed.
End WakeOrder.

(** arm() accepts exactly the non-negative intervals whose deadline the 64-bit
    clock can hold, and the deadline is then exact.  The generation it returns
    completes if and only if the deadline has been reached, only once, and no
    other generation completes. *)
Theorem deadline_exact d now seconds nanoseconds (absolute : bool) :
  0 <= now <= u64_max -> 0 <= DeadlineWait.generation_ d < u64_max -> DeadlineWait.armed d = false ->
  let target := (if absolute then 0 else now) + seconds * 1000000000 + nanoseconds in
  let '(d', armed) := DeadlineWait.arm d now seconds nanoseconds absolute in
  match armed with
  | Ok generation =>
      0 <= seconds /\ 0 <= nanoseconds < 1000000000 /\ DeadlineWait.deadline d' = target /\ target <= u64_max /\
      DeadlineWait.generation d < generation /\
      forall later g, let '(d'', fired) := DeadlineWait.complete d' later g in
        (fired = true <-> g = generation /\ target <= later) /\
        (fired = true -> forall t g', snd (DeadlineWait.complete d'' t g') = false)
  | Err e => d' = d /\
      (e = StatusCode.invalid_argument /\ ~ (0 <= seconds /\ 0 <= nanoseconds < 1000000000) \/
       e = StatusCode.overflow /\ u64_max < target)
  end.
Proof.
  intros Hnow Hg Ha target. unfold DeadlineWait.arm, DeadlineWait.armed, DeadlineWait.second in *. rewrite Ha.
  destruct (_ || _) eqn:E1; [split; [done |]; left; split; [done |]; b2p; lia |]. b2p.
  destruct (_ <? seconds) eqn:E2; b2p.
  { split; [done |]. right. split; [done |]. unfold target. pose proof (Z.div_mod (u64_max - nanoseconds) 1000000000 ltac:(lia)).
    pose proof (Z.mod_pos_bound (u64_max - nanoseconds) 1000000000 ltac:(lia)). destruct absolute; lia. }
  assert (seconds * 1000000000 + nanoseconds <= u64_max) as Hint
    by (pose proof (Z.mul_div_le (u64_max - nanoseconds) 1000000000 ltac:(lia)); lia).
  destruct (negb absolute && _) eqn:E3; b2p; [split; [done |]; right; split; [done |]; unfold target; destruct absolute; [done | lia] |].
  replace (DeadlineWait.generation_ d =? u64_max) with false by lia. cbn.
  assert ((if absolute then seconds * 1000000000 + nanoseconds else u64_wrap (now + (seconds * 1000000000 + nanoseconds))) = target) as ->.
  { unfold target. destruct absolute; [lia |]. destruct E3 as [| E3]; [done |]. b2p. rewrite u64_wrap_small by lia. lia. }
  assert (target <= u64_max) as Ht by (unfold target; destruct absolute; [lia |]; destruct E3 as [| E3]; [done |]; b2p; lia).
  split_and!; try done; try lia; [unfold DeadlineWait.generation; lia |]. intros later g. unfold DeadlineWait.complete. cbn.
  destruct (_ || _) eqn:E4; b2p.
  - split; [| done]. split; [done |]. intros [-> Hl]. rewrite Z.eqb_refl in E4. destruct E4 as [E4 | E4]; b2p; [done | lia].
  - split; [| done]. split; [intros _; lia | done].
Qed.

(** ** Witnesses *)
Section WaitWitnesses.
#[local] Existing Instance arch64.
Import WaitQueue WaitProofs.

Definition no_waits : Registrations := fun _ => WaitRegistration.new.
Definition two_waiters : list wait_op := [Prepare 1 1 1; Prepare 2 1 2].
Definition waiting_state : WaitQueue.t * Registrations := fold_left (wait_exec 4) two_waiters (new 4, no_waits).

Lemma waiting_state_wf : wf 4 waiting_state.1.
Proof. exact (proj1 (reached_good 4 ltac:(lia) _ two_waiters (new_good 4 ltac:(lia) no_waits) ltac:(by concrete))). Qed.

Lemma wake_one_witness :
  exists q' regs', wake_one 4 waiting_state.1 waiting_state.2 WakeSource.thread WaitCompletion.ready = (q', regs', true) /\
    wakes q' WakeSource.thread = 1.
Proof.
  pose proof (wake_one_spec 4 ltac:(lia) waiting_state.1 waiting_state.2 WakeSource.thread WaitCompletion.ready
    waiting_state_wf ltac:(done)) as Hw.
  assert (snd (wake_one 4 waiting_state.1 waiting_state.2 WakeSource.thread WaitCompletion.ready) = true) as Hs
    by (vm_compute; reflexivity).
  destruct (wake_one 4 waiting_state.1 waiting_state.2 WakeSource.thread WaitCompletion.ready) as [[q' regs'] woke].
  cbn [snd] in Hs. subst woke. destruct Hw as (_ & i & _ & _ & _ & _ & _ & Hk). exists q', regs'. split; [done | exact Hk].
Defined.

(** A visitor that abandons the waiters of thread 1. *)
Definition abandon_first (tk : WaitTicket.t) (regs : Registrations) : Registrations * bool := (regs, WaitTicket.thread tk =? 1).

Lemma no_lost_wakeup_witness :
  let '(q2, regs2, _) := prepare 4 waiting_state.1 waiting_state.2 3 1 3 in
  let '(q3, regs3) := wait_exec 4 (q2, regs2) (Notify abandon_first) in
  let '(_, regs4, woken) := wake_all 4 q3 regs3 WakeSource.thread WaitCompletion.ready in
  WaitRegistration.completion (regs4 3) = WaitCompletion.ready.
Proof.
  assert (Forall wait_op_ok [Notify abandon_first]) as Hv by (constructor; [by intros tk regs x; right | constructor]).
  pose proof (pending_waiters_are_woken 4 ltac:(lia) no_waits two_waiters 3 1 3 [Notify abandon_first] WakeSource.thread WaitCompletion.ready
    ltac:(by concrete) Hv ltac:(lia) ltac:(done)) as Hn. cbv zeta in Hn. fold waiting_state in Hn.
  assert (let '(q2, regs2, r) := prepare 4 waiting_state.1 waiting_state.2 3 1 3 in
          r = Ok (WaitTicket.mk 1 3 1) /\
          WaitRegistration.pending ((wait_exec 4 (q2, regs2) (Notify abandon_first)).2 3) (WaitTicket.mk 1 3 1) = true) as Hp
    by (vm_compute; split; reflexivity).
  destruct (prepare 4 waiting_state.1 waiting_state.2 3 1 3) as [[q2 regs2] r]. destruct Hp as [-> Hp]. cbn [fold_left] in Hn.
  assert (Forall (not_abandoned (WaitTicket.mk 1 3 1)) [Notify abandon_first]) as Hk by (constructor; [by intros regs | constructor]).
  specialize (Hn Hk Hp). destruct (wait_exec 4 (q2, regs2) (Notify abandon_first)) as [q3 regs3]. cbn [fst snd] in Hn.
  destruct (wake_all 4 q3 regs3 WakeSource.thread WaitCompletion.ready) as [[q4 regs4] n].
  destruct Hn as (_ & Hr & _). rewrite Hr. reflexivity.
Defined.

(** Waiters 3 and 4 reuse the slots of 1 and 2, behind the scan position: waiter 5
    comes last and is woken first. *)
Definition reused_slots : WaitQueue.t * Registrations :=
  let wake := WakeOne WakeSource.thread WaitCompletion.ready in
  fold_left (wait_exec 4) [Prepare 1 1 1; Prepare 2 1 2; wake; wake; Prepare 3 1 3; Prepare 4 1 4] (new 4, no_waits).

Lemma slot_order_witness :
  live reused_slots.2 (slots_ reused_slots.1).[0] = true /\
  let '(q2, regs2, _) := prepare 4 reused_slots.1 reused_slots.2 5 1 5 in
  let '(_, regs3, _) := wake_one 4 q2 regs2 WakeSource.thread WaitCompletion.ready in
  WaitRegistration.completion (regs3 5) = WaitCompletion.ready.
Proof.
  assert (good 4 reused_slots) as Hg by (apply (reached_good 4 ltac:(lia) _ _ (new_good 4 ltac:(lia) no_waits)); by concrete).
  destruct (wake_one_in_slot_order 4 ltac:(lia) reused_slots.1 reused_slots.2 5 1 5 WakeSource.thread WaitCompletion.ready) as [_ Ho];
    [by destruct reused_slots | lia | done |].
  split; [vm_compute; reflexivity |].
  assert (exists q2 regs2, prepare 4 reused_slots.1 reused_slots.2 5 1 5 = (q2, regs2, Ok (WaitTicket.mk 1 5 1))) as (q2 & regs2 & E)
    by (eexists _, _; vm_compute; reflexivity).
  rewrite E. destruct (Ho q2 regs2 _ E) as (j & Hj & Hf & _ & Hw).
  assert (j = 2 \/ j = 3) as Hj23.
  { assert (j = 0 \/ j = 1 \/ j = 2 \/ j = 3) as [-> | [-> | [-> | ->]]] by lia; [vm_compute in Hf; discriminate Hf.. | by left | by right]. }
  destruct (wake_one 4 q2 regs2 WakeSource.thread WaitCompletion.ready) as [[q3 regs3] woke]. destruct Hw as (_ & _ & Hw). rewrite Hw; [reflexivity |].
  intros k Hk Hl. assert (k = 0 \/ k = 1 \/ k = 2 \/ k = 3) as Hk4 by lia.
  destruct Hk4 as [-> | [-> | [-> | ->]]]; try (vm_compute in Hl; discriminate Hl); destruct Hj23 as [-> | ->]; by vm_compute.
Defined.

(** The wait of thread 1 ended elsewhere and a new one was armed elsewhere: its old entry stays queued. *)
Definition rearmed : list wait_op :=
  two_waiters ++ [CompleteElsewhere 1 (WaitTicket.mk 1 1 1) WaitCompletion.timeout WakeSource.timer; ArmElsewhere 1 1 1].

Lemma stale_entry_witness :
  let st := fold_left (wait_exec 4) rearmed (new 4, no_waits) in
  let '(_, regs', n) := wake_all 4 st.1 st.2 WakeSource.thread WaitCompletion.ready in
  WaitRegistration.active (regs' 1) = true.
Proof.
  cbv zeta. set (st := fold_left (wait_exec 4) rearmed (new 4, no_waits)).
  destruct (stale_entries_never_wake 4 ltac:(lia) no_waits rearmed 1 WakeSource.thread WaitCompletion.ready) as [_ Hs].
  - by concrete.
  - done.
  - intros (k & Hk & Es). assert (k = 0 \/ k = 1 \/ k = 2 \/ k = 3) as [-> | [-> | [-> | ->]]] by lia; vm_compute in Es; congruence.
  - fold st in Hs. destruct (wake_all 4 st.1 st.2 WakeSource.thread WaitCompletion.ready) as [[q' regs'] n].
    rewrite Hs. vm_compute. reflexivity.
Defined.

Lemma deadline_witness :
  exists d' g, DeadlineWait.arm DeadlineWait.new 1000 2 5 false = (d', Ok g) /\ DeadlineWait.deadline d' = 2000001005 /\
    snd (DeadlineWait.complete d' 2000001005 g) = true.
Proof.
  pose proof (deadline_exact DeadlineWait.new 1000 2 5 false ltac:(by concrete) ltac:(by concrete) ltac:(done)) as Hd.
  cbv zeta in Hd. assert (exists d' g, DeadlineWait.arm DeadlineWait.new 1000 2 5 false = (d', Ok g)) as (d' & g & E)
    by (eexists _, _; vm_compute; reflexivity).
  rewrite E in Hd. destruct Hd as (_ & _ & Hdl & _ & _ & Hc). exists d', g. split_and!; [done | exact Hdl |].
  specialize (Hc 2000001005 g). destruct (DeadlineWait.complete d' 2000001005 g) as [d'' fired].
  apply (proj2 (proj1 Hc)). split; [done | by concrete].
Defined.
End WaitWitnesses.
