(* ===== verification/Signals.v ===== *)
(** * Signals (include/ok/sched/signal_mask.hpp, child_exit.hpp, pending_signals.hpp, signal_action.hpp)

    Signal masks, the queue of pending signals of one task with its delivery
    tickets, and the table of signal dispositions. *)

From S2P Require Import Prelude.

Module SignalMask.
Record t := mk { words : list Z }.      (* std::array<u64, 2> *)
Definition new : t := mk [0; 0].

Definition contains (m : t) (signal : Z) : bool :=
  (1 <=? signal) && (signal <=? 128) &&
  negb (Z.land (words m).[(signal - 1) / 64] (bit64 ((signal - 1) mod 64)) =? 0).

Definition set (m : t) (signal : Z) (blocked : bool) : t :=
  if (signal <? 1) || (128 <? signal) then m
  else
    let bit := bit64 ((signal - 1) mod 64) in
    let w := (signal - 1) / 64 in
    if blocked then mk (words m).[w := Z.lor (words m).[w] bit]
    else mk (words m).[w := Z.land (words m).[w] (u64_not bit)].
End SignalMask.

(** ChildExitStatus: code 1 is a normal exit, code 2 a death by signal. *)
Module ChildExitStatus.
Record t := mk { code_ : Z; status_ : Z }.
Definition new : t := mk 0 0.
(** [static_cast<u32>(status) & 0xffU]. *)
Definition normal (status : Z) : t := mk 1 (Z.land (u32_wrap status) 255).
Definition signaled (signal : Z) : t := if negb (signal =? 0) && (signal <=? 128) then mk 2 signal else new.
Definition valid (s : t) (maximum_signal : Z) : bool :=
  ((maximum_signal =? 64) || (maximum_signal =? 128)) &&
  (((code_ s =? 1) && (status_ s <=? 255)) ||
   ((code_ s =? 2) && negb (status_ s =? 0) && (status_ s <=? maximum_signal))).
Definition code (s : t) : Z := code_ s.
(** [static_cast<i32>(status_)]. *)
Definition status (s : t) : Z := if status_ s <? 2 ^ 31 then status_ s else status_ s - 2 ^ 32.
End ChildExitStatus.

Module PendingSignalInfo.
Record t := mk {
  signal : Z; code : Z; sender_pid : Z; sender_uid : Z;
  child_status : Z; timer : Z; overrun : Z; value : Z
}.
Definition new : t := mk 0 0 0 0 0 0 0 0.
#[global] Instance eq_dec : EqDecision t.
Proof. solve_decision. Defined.

Definition timer_code (maximum_signal : Z) : Z := if maximum_signal =? 128 then -3 else -2.

(** C++ truth of an integer. *)
Definition truth (x : Z) : bool := negb (x =? 0).

Definition valid (i : t) (maximum_signal : Z) : bool :=
  if (negb (maximum_signal =? 64) && negb (maximum_signal =? 128)) || negb (truth (signal i)) || (maximum_signal <? signal i)
  then false
  else if code i =? timer_code maximum_signal then
    negb (truth (sender_pid i)) && negb (truth (sender_uid i)) && negb (truth (child_status i)) &&
    (0 <=? timer i) && (0 <=? overrun i)
  else if truth (timer i) || truth (overrun i) || truth (value i) then false
  else if (code i =? 0) || (code i =? -6) then child_status i =? 0
  else if code i =? 128 then negb (truth (sender_pid i)) && negb (truth (sender_uid i)) && negb (truth (child_status i))
  else if negb (signal i =? (if maximum_signal =? 128 then 18 else 17)) || negb (truth (sender_pid i)) ||
          (2147483647 <? sender_pid i) then false
  else ((code i =? 1) && (0 <=? child_status i) && (child_status i <=? 255)) ||
       ((code i =? 2) && (0 <? child_status i) && (child_status i <=? maximum_signal)).
End PendingSignalInfo.

Module PendingSignals.

Module Identity.
Record t := mk { process : Z; thread : Z; generation : Z }.
Definition none : t := mk 0 0 0.
#[global] Instance eq_dec : EqDecision t.
Proof. solve_decision. Defined.
End Identity.

Module Entry.
Record t := mk { sequence : Z; info : PendingSignalInfo.t }.
Definition none : t := mk 0 PendingSignalInfo.new.
#[global] Instance inhabited : Inhabited t := populate none.
#[global] Instance eq_dec : EqDecision t.
Proof. solve_decision. Defined.
End Entry.

(** A delivery ticket; [queue] is the address of the queue that issued it. *)
Module Delivery.
Record t := mk { owner : Identity.t; sequence : Z; info : PendingSignalInfo.t; queue : Z }.
End Delivery.

Module Enqueue.
Inductive t := queued | coalesced | full | invalid.
End Enqueue.

Section Defs.
Context (MaximumSignal RealtimeCapacity MaximumSequence : Z).

Record t := mk {
  self : Z;                         (* this *)
  owner_ : Identity.t;
  next_sequence_ : Z;
  normal_mask_ : SignalMask.t;
  normal_ : list Entry.t;           (* std::array<Entry, 31> *)
  realtime_ : list Entry.t;         (* std::array<Entry, RealtimeCapacity> *)
  realtime_count_ : Z
}.
Definition no_normal : list Entry.t := replicate 31 Entry.none.
Definition no_realtime : list Entry.t := replicate (Z.to_nat RealtimeCapacity) Entry.none.
Definition new (this : Z) : t := mk this Identity.none 0 SignalMask.new no_normal no_realtime 0.

Definition truth := PendingSignalInfo.truth.

Definition reset (q : t) (identity : Identity.t) : t * bool :=
  if negb (truth (Identity.process identity)) || negb (truth (Identity.thread identity)) ||
     negb (truth (Identity.generation identity)) then (q, false)
  else (mk (self q) identity (next_sequence_ q) SignalMask.new no_normal no_realtime 0, true).

Definition retire (q : t) : t :=
  mk (self q) Identity.none (next_sequence_ q) SignalMask.new no_normal no_realtime 0.

Definition enqueue_checked (q : t) (info : PendingSignalInfo.t) : t * Enqueue.t :=
  let signal := PendingSignalInfo.signal info in
  if negb (truth (Identity.process (owner_ q))) || negb (truth signal) || (MaximumSignal <? signal) then (q, Enqueue.invalid)
  else if (signal <? 32) && SignalMask.contains (normal_mask_ q) signal then (q, Enqueue.coalesced)
  else if ((32 <=? signal) && (realtime_count_ q =? RealtimeCapacity)) || (next_sequence_ q =? MaximumSequence)
  then (q, Enqueue.full)
  else
    let next := next_sequence_ q + 1 in
    let entry := Entry.mk next info in
    if signal <? 32 then
      (mk (self q) (owner_ q) next (SignalMask.set (normal_mask_ q) signal true)
          (normal_ q).[signal - 1 := entry] (realtime_ q) (realtime_count_ q), Enqueue.queued)
    else
      (mk (self q) (owner_ q) next (normal_mask_ q) (normal_ q)
          (realtime_ q).[realtime_count_ q := entry] (realtime_count_ q + 1), Enqueue.queued).

Definition enqueue (q : t) (info : PendingSignalInfo.t) : t * Enqueue.t :=
  if (negb (PendingSignalInfo.code info =? 0) && negb (PendingSignalInfo.code info =? -6)) ||
     negb (PendingSignalInfo.valid info MaximumSignal) then (q, Enqueue.invalid)
  else enqueue_checked q info.

Definition enqueue_kernel (q : t) (signal : Z) : t * Enqueue.t :=
  enqueue_checked q (PendingSignalInfo.mk signal 128 0 0 0 0 0 0).

Definition enqueue_timer (q : t) (signal timer overrun value : Z) : t * Enqueue.t :=
  let info := PendingSignalInfo.mk signal (PendingSignalInfo.timer_code MaximumSignal) 0 0 0 timer overrun value in
  if PendingSignalInfo.valid info MaximumSignal then enqueue_checked q info else (q, Enqueue.invalid).

Definition enqueue_child_exit (q : t) (status : ChildExitStatus.t) (child_pid child_uid : Z) : t * Enqueue.t :=
  if negb (ChildExitStatus.valid status MaximumSignal) then (q, Enqueue.invalid)
  else
    let info := PendingSignalInfo.mk (if MaximumSignal =? 128 then 18 else 17) (ChildExitStatus.code status)
                  child_pid child_uid (ChildExitStatus.status status) 0 0 0 in
    if PendingSignalInfo.valid info MaximumSignal then enqueue_checked q info else (q, Enqueue.invalid).

(** ILL, TRAP, FPE, SEGV, and BUS and SYS under their number on the target. *)
Definition synchronous : Z :=
  Z.lor (Z.lor (Z.lor (Z.lor (Z.lor (bit64 3) (bit64 4)) (bit64 7)) (bit64 10))
               (bit64 (if MaximumSignal =? 128 then 9 else 6)))
        (bit64 (if MaximumSignal =? 128 then 11 else 30)).

(** [for (signal = 1; signal < 32; ++signal) if (eligible & (1 << (signal - 1)))], from [signal] on. *)
Fixpoint first_normal (n : nat) (signal eligible : Z) : option Z :=
  match n with
  | O => None
  | S n' => if negb (Z.land eligible (bit64 (signal - 1)) =? 0) then Some signal else first_normal n' (signal + 1) eligible
  end.

(** The scan for the lowest unblocked real-time signal, from [i] on. *)
Fixpoint choose_realtime (n : nat) (i chosen : Z) (q : t) (blocked : SignalMask.t) : Z :=
  match n with
  | O => chosen
  | S n' =>
      let signal k := PendingSignalInfo.signal (Entry.info (realtime_ q).[k]) in
      let better := negb (SignalMask.contains blocked (signal i)) &&
                    ((chosen =? realtime_count_ q) || (signal i <? signal chosen)) in
      choose_realtime n' (i + 1) (if better then i else chosen) q blocked
  end.

Definition ticket_for (q : t) (e : Entry.t) : Delivery.t := Delivery.mk (owner_ q) (Entry.sequence e) (Entry.info e) (self q).

Definition peek (q : t) (blocked : SignalMask.t) : option Delivery.t :=
  let eligible := Z.land (SignalMask.words (normal_mask_ q)).[0] (u64_not (SignalMask.words blocked).[0]) in
  let eligible := if negb (Z.land eligible synchronous =? 0) then Z.land eligible synchronous else eligible in
  match first_normal 31 1 eligible with
  | Some signal => Some (ticket_for q (normal_ q).[signal - 1])
  | None =>
      let chosen := choose_realtime (Z.to_nat (realtime_count_ q)) 0 (realtime_count_ q) q blocked in
      if chosen =? realtime_count_ q then None else Some (ticket_for q (realtime_ q).[chosen])
  end.

Definition matches (e : Entry.t) (d : Delivery.t) : bool :=
  (Entry.sequence e =? Delivery.sequence d) && bool_decide (Entry.info e = Delivery.info d).

(** [for (i = at + 1; i < count; ++i) realtime_[i - 1] = realtime_[i]], from [i] on. *)
Fixpoint shift_down (n : nat) (i : Z) (l : list Entry.t) : list Entry.t :=
  match n with O => l | S n' => shift_down n' (i + 1) l.[i - 1 := l.[i]] end.
Definition erase_realtime (q : t) (at_ : Z) : t :=
  let l := shift_down (Z.to_nat (realtime_count_ q - (at_ + 1))) (at_ + 1) (realtime_ q) in
  mk (self q) (owner_ q) (next_sequence_ q) (normal_mask_ q) (normal_ q)
     l.[realtime_count_ q - 1 := Entry.none] (realtime_count_ q - 1).

(** Clears the pending bit and the record of a signal below 32. *)
Definition erase_normal (q : t) (signal : Z) : t :=
  mk (self q) (owner_ q) (next_sequence_ q) (SignalMask.set (normal_mask_ q) signal false)
     (normal_ q).[signal - 1 := Entry.none] (realtime_ q) (realtime_count_ q).

(** The first real-time record that satisfies [f], from [i] on. *)
Fixpoint find_realtime (n : nat) (i : Z) (f : Entry.t -> bool) (l : list Entry.t) : option Z :=
  match n with O => None | S n' => if f l.[i] then Some i else find_realtime n' (i + 1) f l end.

Definition consume (q : t) (d : Delivery.t) : t * bool :=
  let signal := PendingSignalInfo.signal (Delivery.info d) in
  if negb (Delivery.queue d =? self q) || negb (bool_decide (Delivery.owner d = owner_ q)) ||
     negb (truth (Delivery.sequence d)) || negb (truth signal) || (MaximumSignal <? signal) then (q, false)
  else if signal <? 32 then
    if negb (SignalMask.contains (normal_mask_ q) signal) || negb (matches (normal_ q).[signal - 1] d) then (q, false)
    else (erase_normal q signal, true)
  else
    match find_realtime (Z.to_nat (realtime_count_ q)) 0 (fun e => matches e d) (realtime_ q) with
    | Some i => (erase_realtime q i, true)
    | None => (q, false)
    end.

(** find_timer(): the index of the record in the array its number selects. *)
Definition is_timer (timer : Z) (e : Entry.t) : bool :=
  (PendingSignalInfo.code (Entry.info e) =? PendingSignalInfo.timer_code MaximumSignal) &&
  (PendingSignalInfo.timer (Entry.info e) =? timer).
Definition find_timer (q : t) (signal timer : Z) : option Z :=
  if negb (truth signal) || (MaximumSignal <? signal) then None
  else if signal <? 32 then
    if SignalMask.contains (normal_mask_ q) signal && is_timer timer (normal_ q).[signal - 1] then Some (signal - 1) else None
  else find_realtime (Z.to_nat (realtime_count_ q)) 0
         (fun e => (PendingSignalInfo.signal (Entry.info e) =? signal) && is_timer timer e) (realtime_ q).

Definition timer_queued (q : t) (signal timer : Z) : bool :=
  match find_timer q signal timer with Some _ => true | None => false end.

Definition with_overrun (e : Entry.t) (overrun : Z) : Entry.t :=
  let i := Entry.info e in
  Entry.mk (Entry.sequence e)
    (PendingSignalInfo.mk (PendingSignalInfo.signal i) (PendingSignalInfo.code i) (PendingSignalInfo.sender_pid i)
       (PendingSignalInfo.sender_uid i) (PendingSignalInfo.child_status i) (PendingSignalInfo.timer i) overrun
       (PendingSignalInfo.value i)).

Definition refresh_timer (q : t) (signal timer overrun : Z) : t * bool :=
  match find_timer q signal timer with
  | None => (q, false)
  | Some k =>
      if overrun <? 0 then (q, false)
      else if signal <? 32 then
        (mk (self q) (owner_ q) (next_sequence_ q) (normal_mask_ q) (normal_ q).[k := with_overrun (normal_ q).[k] overrun]
            (realtime_ q) (realtime_count_ q), true)
      else
        (mk (self q) (owner_ q) (next_sequence_ q) (normal_mask_ q) (normal_ q)
            (realtime_ q).[k := with_overrun (realtime_ q).[k] overrun] (realtime_count_ q), true)
  end.

Definition discard_timer (q : t) (signal timer : Z) : t :=
  match find_timer q signal timer with
  | None => q
  | Some k => if signal <? 32 then erase_normal q signal else erase_realtime q k
  end.

(** [for (i = 0; i < count;) if (f) erase_realtime(i); else ++i]: every turn
    either drops a record or advances, so [count] turns are enough. *)
Fixpoint drop_realtime (n : nat) (i : Z) (f : Entry.t -> bool) (q : t) : t :=
  match n with
  | O => q
  | S n' =>
      if i <? realtime_count_ q then
        if f (realtime_ q).[i] then drop_realtime n' i f (erase_realtime q i) else drop_realtime n' (i + 1) f q
      else q
  end.

(** The loop of discard_timers() over the signals below 32, from [signal] on. *)
Fixpoint drop_normal_timers (n : nat) (signal : Z) (q : t) : t :=
  match n with
  | O => q
  | S n' =>
      drop_normal_timers n' (signal + 1)
        (if SignalMask.contains (normal_mask_ q) signal &&
            (PendingSignalInfo.code (Entry.info (normal_ q).[signal - 1]) =? PendingSignalInfo.timer_code MaximumSignal)
         then erase_normal q signal else q)
  end.
Definition discard_timers (q : t) : t :=
  let q := drop_normal_timers 31 1 q in
  drop_realtime (Z.to_nat (realtime_count_ q)) 0
    (fun e => PendingSignalInfo.code (Entry.info e) =? PendingSignalInfo.timer_code MaximumSignal) q.

Definition discard (q : t) (signal : Z) : t :=
  if negb (truth signal) || (MaximumSignal <? signal) then q
  else if signal <? 32 then erase_normal q signal
  else drop_realtime (Z.to_nat (realtime_count_ q)) 0 (fun e => PendingSignalInfo.signal (Entry.info e) =? signal) q.

Fixpoint add_realtime (n : nat) (i : Z) (l : list Entry.t) (m : SignalMask.t) : SignalMask.t :=
  match n with
  | O => m
  | S n' => add_realtime n' (i + 1) l (SignalMask.set m (PendingSignalInfo.signal (Entry.info l.[i])) true)
  end.
Definition pending_mask (q : t) : SignalMask.t :=
  add_realtime (Z.to_nat (realtime_count_ q)) 0 (realtime_ q) (normal_mask_ q).
Definition realtime_size (q : t) : Z := realtime_count_ q.
Definition identity (q : t) : Identity.t := owner_ q.
End Defs.
End PendingSignals.

(** The disposition table. *)
Module SignalAction.
Record t := mk { handler : Z; flags : Z; restorer : Z; mask : SignalMask.t }.
Definition default_handler : Z := 0.
Definition ignored_handler : Z := 1.
Definition new : t := mk 0 0 0 SignalMask.new.
#[global] Instance inhabited : Inhabited t := populate new.
End SignalAction.

Module SignalActionTable.
Definition capacity : Z := 128.
Record t := mk { actions_ : list SignalAction.t }.
Definition new : t := mk (replicate (Z.to_nat capacity) SignalAction.new).
(** The index of the action, nullptr as None. *)
Definition find (signal : Z) : option Z := if (1 <=? signal) && (signal <=? capacity) then Some (signal - 1) else None.
Definition fork_copy (s : t) : t := s.
Definition reset_action (force_default : bool) (a : SignalAction.t) : SignalAction.t :=
  let ignored := negb force_default && (SignalAction.handler a =? SignalAction.ignored_handler) in
  if ignored then SignalAction.mk SignalAction.ignored_handler 0 0 SignalMask.new else SignalAction.new.
Definition reset_for_exec (s : t) (force_default : bool) : t := mk (map (reset_action force_default) (actions_ s)).
End SignalActionTable.

Module SignalProofs.
Import PendingSignals.

(** ** Masks *)
Lemma contains_bit m s : 1 <= s <= 64 -> SignalMask.contains m s = Z.testbit (SignalMask.words m).[0] (s - 1).
Proof.
  intros Hs. unfold SignalMask.contains. cmp. rewrite Z.div_small, Z.mod_small by lia. apply land_bit_testbit. lia.
Qed.

(** The normal mask: bits below 31 of the first word. *)
Definition normal_word (m : SignalMask.t) (w : Z) : Prop := SignalMask.words m = [w; 0] /\ 0 <= w < 2 ^ 31.

Lemma contains_normal m w s : normal_word m w ->
  SignalMask.contains m s = (1 <=? s) && (s <? 32) && Z.testbit w (s - 1).
Proof.
  intros [Hm Hw]. destruct (decide (1 <= s <= 64)) as [Hs |].
  - rewrite contains_bit, Hm by done. change ([w; 0].[0]) with w. cmp. destruct (Z.ltb_spec s 32); [done |].
    apply (testbit_high w 31); lia.
  - unfold SignalMask.contains. destruct (Z.leb_spec 1 s), (Z.leb_spec s 128); cbn [andb]; try done; try (by cmp).
    rewrite Hm. replace ((s - 1) / 64) with 1; [cmp; done |]. apply (Z.div_unique _ _ _ (s - 1 - 64)); lia.
Qed.

Lemma set_normal m w s b : normal_word m w -> 1 <= s < 32 ->
  exists w', normal_word (SignalMask.set m s b) w' /\
    forall i, 0 <= i -> Z.testbit w' i = if i =? s - 1 then b else Z.testbit w i.
Proof.
  intros [Hm Hw] Hs. unfold SignalMask.set. cmp. rewrite Z.div_small, Z.mod_small by lia. rewrite Hm. change ([w; 0].[0]) with w.
  assert (bit64 (s - 1) = 2 ^ (s - 1)) as Eb by (apply bit64_pow; lia).
  destruct b; eexists; split; try (split; [reflexivity |]).
  - apply (lor_bound _ _ 31); [lia | done |]. rewrite Eb. split; [lia |]. apply Z.pow_lt_mono_r; lia.
  - intros i Hi. rewrite Z.lor_spec. destruct (decide (i < 64)).
    + rewrite testbit_bit64 by lia. destruct (Z.eqb_spec i (s - 1)); [by rewrite orb_true_r | by rewrite orb_false_r].
    + rewrite Eb, Z.pow2_bits_false by lia. cmp. by rewrite orb_false_r.
  - apply (land_bound _ _ 31); [lia | done |]. apply u64_not_bound.
  - intros i Hi. rewrite Z.land_spec. destruct (decide (i < 64)).
    + rewrite testbit_u64_not, testbit_bit64 by lia. destruct (Z.eqb_spec i (s - 1)); cbn.
      * apply andb_false_r.
      * replace (i <? 64) with true by lia. by rewrite ?andb_true_r.
    + cmp. by rewrite (testbit_high w 31 i) by lia.
Qed.

(** ** The queue *)
Section Queue.
Context (MaximumSignal RealtimeCapacity MaximumSequence : Z).
Context (signals_known : MaximumSignal = 64 \/ MaximumSignal = 128) (capacity_positive : 0 < RealtimeCapacity)
        (sequences_positive : 0 < MaximumSequence).
Abbreviation sig e := (PendingSignalInfo.signal (Entry.info e)).
Abbreviation seq e := (Entry.sequence e).
Abbreviation consume := (consume MaximumSignal).
Abbreviation enqueue_checked := (enqueue_checked MaximumSignal RealtimeCapacity MaximumSequence).

Definition normal_pending (q : t) (s : Z) : bool := SignalMask.contains (normal_mask_ q) s.

(** The records that are pending. *)
Definition has (q : t) (e : Entry.t) : Prop :=
  (exists s, 1 <= s < 32 /\ normal_pending q s = true /\ (normal_ q).[s - 1] = e) \/
  (exists i, 0 <= i < realtime_count_ q /\ (realtime_ q).[i] = e).

Record wf (q : t) : Prop := {
  wf_normal : zlen (normal_ q) = 31;
  wf_realtime : zlen (realtime_ q) = RealtimeCapacity;
  wf_count : 0 <= realtime_count_ q <= RealtimeCapacity;
  wf_next : 0 <= next_sequence_ q <= MaximumSequence;
  wf_mask : exists w, normal_word (normal_mask_ q) w;
  wf_entry : forall e, has q e -> 1 <= seq e <= next_sequence_ q;
  wf_normal_signal : forall s, 1 <= s < 32 -> normal_pending q s = true -> sig (normal_ q).[s - 1] = s;
  wf_realtime_signal : forall i, 0 <= i < realtime_count_ q -> 32 <= sig (realtime_ q).[i] <= MaximumSignal;
  wf_fifo : forall i j, 0 <= i < j -> j < realtime_count_ q -> seq (realtime_ q).[i] < seq (realtime_ q).[j];
  wf_unique : forall e e', has q e -> has q e' -> seq e = seq e' -> e = e'
}.

Lemma empty_pending s : SignalMask.contains SignalMask.new s = false.
Proof.
  rewrite (contains_normal _ 0); [| split; [done | lia]]. rewrite Z.bits_0. by rewrite andb_false_r.
Qed.

Lemma empty_wf this owner next : 0 <= next <= MaximumSequence ->
  wf (mk this owner next SignalMask.new no_normal (no_realtime RealtimeCapacity) 0).
Proof.
  intros Hn. assert (forall e, ~ has (mk this owner next SignalMask.new no_normal (no_realtime RealtimeCapacity) 0) e) as Hno.
  { intros e [(s & _ & Hp & _) | (i & Hi & _)]; [| cbn in Hi; lia]. unfold normal_pending in Hp. cbn in Hp. by rewrite empty_pending in Hp. }
  split; cbn; try done; try lia.
  - unfold no_realtime. lens.
  - exists 0. split; [done | lia].
  - intros e He. by apply Hno in He.
  - unfold normal_pending. cbn. intros s _. by rewrite empty_pending.
  - intros e e' He. by apply Hno in He.
Qed.

(** A step that only removes records keeps the invariant. *)
Lemma removal_wf q q' : wf q -> zlen (normal_ q') = 31 -> zlen (realtime_ q') = RealtimeCapacity ->
  0 <= realtime_count_ q' <= RealtimeCapacity -> next_sequence_ q' = next_sequence_ q ->
  (exists w, normal_word (normal_mask_ q') w) -> (forall e, has q' e -> has q e) ->
  (forall s, 1 <= s < 32 -> normal_pending q' s = true -> sig (normal_ q').[s - 1] = s) ->
  (forall i, 0 <= i < realtime_count_ q' -> 32 <= sig (realtime_ q').[i] <= MaximumSignal) ->
  (forall i j, 0 <= i < j -> j < realtime_count_ q' -> seq (realtime_ q').[i] < seq (realtime_ q').[j]) -> wf q'.
Proof.
  intros Hw Hn Hr Hc En Hm Hs Hns Hrs Hf. split; try done.
  - rewrite En. apply Hw.
  - intros e He. rewrite En. by apply (wf_entry q Hw), Hs.
  - intros e e' He He'. apply (wf_unique q Hw); by apply Hs.
Qed.

Lemma normal_at q s k v : wf q -> 1 <= s < 32 -> 1 <= k < 32 ->
  (normal_ q).[s - 1 := v].[k - 1] = if k =? s then v else (normal_ q).[k - 1].
Proof.
  intros Hw Hs Hk. pose proof (wf_normal q Hw). destruct (Z.eqb_spec k s) as [-> |].
  - apply aget_aset_eq. lia.
  - apply aget_aset_ne; lia.
Qed.

Lemma normal_pending_set q s k b : wf q -> 1 <= s < 32 -> 1 <= k < 32 ->
  SignalMask.contains (SignalMask.set (normal_mask_ q) s b) k = if k =? s then b else normal_pending q k.
Proof.
  intros Hw Hs Hk. destruct (wf_mask q Hw) as [w Hm]. destruct (set_normal _ w s b Hm Hs) as (w' & Hm' & Hb).
  unfold normal_pending. rewrite (contains_normal _ _ _ Hm'), (contains_normal _ _ _ Hm), Hb by lia. cmp.
  destruct (Z.eqb_spec k s) as [-> |]; [by rewrite Z.eqb_refl | by cmp].
Qed.

Lemma erase_normal_spec q s : wf q -> 1 <= s < 32 ->
  wf (erase_normal q s) /\ forall e, has (erase_normal q s) e <-> has q e /\ sig e <> s.
Proof.
  intros Hw Hs.
  assert (forall k, 1 <= k < 32 -> normal_pending (erase_normal q s) k = if k =? s then false else normal_pending q k) as Hp
    by (intros k Hk; by apply normal_pending_set).
  assert (forall e, has (erase_normal q s) e <-> has q e /\ sig e <> s) as Hhas.
  { intros e. split.
    - intros [(k & Hk & Hpk & He) | (i & Hi & He)].
      + rewrite Hp in Hpk by done. cbn in He. rewrite normal_at in He by done. destruct (Z.eqb_spec k s); [done |].
        split; [left; by exists k | rewrite <- He, (wf_normal_signal q Hw) by done; done].
      + cbn in *. split; [right; by exists i |]. rewrite <- He. pose proof (wf_realtime_signal q Hw i Hi). lia.
    - intros [[(k & Hk & Hpk & He) | (i & Hi & He)] Hne]; [| right; by exists i]. left. exists k.
      rewrite <- He, (wf_normal_signal q Hw) in Hne by done. rewrite Hp by done. cbn. rewrite normal_at by done. by cmp. }
  split; [| done]. apply (removal_wf q); cbn; try apply Hw; try done.
  - rewrite zlen_aset. apply Hw.
  - destruct (wf_mask q Hw) as [w Hm]. destruct (set_normal _ w s false Hm Hs) as (w' & Hm' & _). by exists w'.
  - intros e He. by apply Hhas.
  - intros k Hk Hpk. rewrite Hp in Hpk by done. rewrite normal_at by done. destruct (k =? s); [done |]. by apply Hw.
Qed.

Lemma shift_down_spec n i l k : 1 <= i -> i + Z.of_nat n <= zlen l -> 0 <= k < zlen l ->
  zlen (shift_down n i l) = zlen l /\
  (shift_down n i l).[k] = if (i - 1 <=? k) && (k <? i - 1 + Z.of_nat n) then l.[k + 1] else l.[k].
Proof.
  revert i l. induction n as [| n IH]; intros i l Hi Hn Hk; cbn [shift_down].
  - split; [done |]. destruct (Z.leb_spec (i - 1) k); cbn [andb]; [by cmp | done].
  - destruct (IH (i + 1) l.[i - 1 := l.[i]]) as [Hl Hg]; [lia | rewrite zlen_aset; lia | by rewrite zlen_aset |].
    split; [by rewrite Hl, zlen_aset |]. rewrite Hg.
    destruct (decide (k = i - 1)) as [-> |].
    + cmp. rewrite aget_aset_eq by lia. f_equal. lia.
    + rewrite (aget_aset_ne l (i - 1) k) by lia. destruct (decide (k < i - 1)); [by cmp |].
      rewrite (aget_aset_ne l (i - 1) (k + 1)) by lia. destruct (decide (k < i - 1 + Z.of_nat (S n))); by cmp.
Qed.

Lemma erase_realtime_at q at_ k : wf q -> 0 <= at_ < realtime_count_ q -> 0 <= k < realtime_count_ q - 1 ->
  (realtime_ (erase_realtime q at_)).[k] = (realtime_ q).[if k <? at_ then k else k + 1].
Proof.
  intros Hw Ha Hk. pose proof (wf_realtime q Hw). pose proof (wf_count q Hw). cbn. rewrite aget_aset_ne by lia.
  destruct (shift_down_spec (Z.to_nat (realtime_count_ q - (at_ + 1))) (at_ + 1) (realtime_ q) k) as [_ ->]; [lia | lia | lia |].
  destruct (Z.ltb_spec k at_); by cmp.
Qed.

Lemma erase_realtime_spec q at_ : wf q -> 0 <= at_ < realtime_count_ q ->
  wf (erase_realtime q at_) /\ forall e, has (erase_realtime q at_) e <-> has q e /\ e <> (realtime_ q).[at_].
Proof.
  intros Hw Ha. pose proof (wf_realtime q Hw). pose proof (wf_count q Hw).
  assert (forall i j, 0 <= i < realtime_count_ q -> 0 <= j < realtime_count_ q -> (realtime_ q).[i] = (realtime_ q).[j] -> i = j) as Hinj.
  { intros i j Hi Hj E. destruct (Z.lt_trichotomy i j) as [Hl | [? | Hl]]; [| done |].
    - pose proof (wf_fifo q Hw i j ltac:(lia) ltac:(lia)) as Hf. rewrite E in Hf. lia.
    - pose proof (wf_fifo q Hw j i ltac:(lia) ltac:(lia)) as Hf. rewrite E in Hf. lia. }
  assert (forall e, has (erase_realtime q at_) e <-> has q e /\ e <> (realtime_ q).[at_]) as Hhas.
  { intros e. split.
    - intros [(k & Hk & Hp & He) | (i & Hi & He)].
      + cbn in He. split; [left; by exists k |]. intros ->. pose proof (wf_realtime_signal q Hw at_ Ha) as Hsig.
        rewrite <- He, (wf_normal_signal q Hw) in Hsig by done. lia.
      + cbn [realtime_count_ erase_realtime] in Hi. rewrite erase_realtime_at in He by done. destruct (Z.ltb_spec i at_).
        * split; [right; exists i; split; [lia | done] |]. rewrite <- He. intros E. apply Hinj in E; lia.
        * split; [right; exists (i + 1); split; [lia | done] |]. rewrite <- He. intros E. apply Hinj in E; lia.
    - intros [[Hn | (i & Hi & He)] Hne]; [by left |]. right. assert (i <> at_) by congruence.
      exists (if i <? at_ then i else i - 1). cbn [realtime_count_ erase_realtime]. destruct (Z.ltb_spec i at_).
      + split; [lia |]. rewrite erase_realtime_at by (done || lia). by cmp.
      + split; [lia |]. rewrite erase_realtime_at by (done || lia). cmp. by replace (i - 1 + 1) with i by lia. }
  split; [| done]. apply (removal_wf q); try done; try apply Hw.
  - cbn. rewrite zlen_aset, (proj1 (shift_down_spec (Z.to_nat (realtime_count_ q - (at_ + 1))) (at_ + 1) (realtime_ q) 0 ltac:(lia) ltac:(lia) ltac:(lia))). done.
  - cbn. lia.
  - intros e He. by apply Hhas.
  - intros i Hi. cbn [realtime_count_ erase_realtime] in Hi. rewrite erase_realtime_at by done. apply Hw. destruct (_ <? _); lia.
  - intros i j Hij Hj. cbn [realtime_count_ erase_realtime] in Hj. rewrite !erase_realtime_at by (done || lia). apply Hw.
    + destruct (Z.ltb_spec i at_), (Z.ltb_spec j at_); lia.
    + destruct (j <? at_); lia.
Qed.

(** *** Adding and finding records *)
Lemma addition_wf q q' e : wf q -> seq e = next_sequence_ q + 1 -> next_sequence_ q' = next_sequence_ q + 1 ->
  next_sequence_ q <> MaximumSequence -> (forall x, has q' x <-> has q x \/ x = e) ->
  zlen (normal_ q') = 31 -> zlen (realtime_ q') = RealtimeCapacity -> 0 <= realtime_count_ q' <= RealtimeCapacity ->
  (exists w, normal_word (normal_mask_ q') w) ->
  (forall s, 1 <= s < 32 -> normal_pending q' s = true -> sig (normal_ q').[s - 1] = s) ->
  (forall i, 0 <= i < realtime_count_ q' -> 32 <= sig (realtime_ q').[i] <= MaximumSignal) ->
  (forall i j, 0 <= i < j -> j < realtime_count_ q' -> seq (realtime_ q').[i] < seq (realtime_ q').[j]) -> wf q'.
Proof.
  intros Hw Es En Hne Hhas Hn Hr Hc Hm Hns Hrs Hf. pose proof (wf_next q Hw). split; try done; [lia | |].
  - intros x [Hx | ->]%Hhas; [pose proof (wf_entry q Hw x Hx) |]; lia.
  - intros x y [Hx | ->]%Hhas [Hy | ->]%Hhas Exy; [by apply (wf_unique q Hw) | | | done].
    + pose proof (wf_entry q Hw x Hx). lia.
    + pose proof (wf_entry q Hw y Hy). lia.
Qed.

Lemma enqueue_checked_cases q info : wf q -> 0 <= PendingSignalInfo.signal info ->
  let '(q', r) := enqueue_checked q info in
  let s := PendingSignalInfo.signal info in
  let e := Entry.mk (next_sequence_ q + 1) info in
  match r with
  | Enqueue.queued => wf q' /\ 1 <= s <= MaximumSignal /\ next_sequence_ q' = next_sequence_ q + 1 /\
      self q' = self q /\ owner_ q' = owner_ q /\ forall x, has q' x <-> has q x \/ x = e
  | _ => q' = q
  end.
Proof.
  intros Hw Hs0. unfold PendingSignals.enqueue_checked. set (s := PendingSignalInfo.signal info) in *. cbn zeta. set (e := Entry.mk _ info).
  pose proof (wf_count q Hw). pose proof (wf_normal q Hw). pose proof (wf_realtime q Hw). pose proof (wf_next q Hw).
  destruct (_ || _) eqn:E0; [done |]. unfold truth, PendingSignalInfo.truth in E0. b2p.
  destruct (Z.ltb_spec s 32) as [Hlt | Hge]; cbn [andb].
  - destruct (SignalMask.contains (normal_mask_ q) s) eqn:Ep; [done |]. destruct (_ || _) eqn:E1; [done |]. b2p.
    set (q' := mk _ _ _ _ _ _ _). assert (1 <= s < 32) as Hs by lia.
    assert (forall k, 1 <= k < 32 -> normal_pending q' k = if k =? s then true else normal_pending q k) as Hp
      by (intros k Hk; by apply normal_pending_set).
    assert (forall x, has q' x <-> has q x \/ x = e) as Hhas.
    { intros x. split.
      - intros [(k & Hk & Hpk & Hx) | Hx]; [| by left; right]. rewrite Hp in Hpk by done. cbn in Hx. rewrite normal_at in Hx by done.
        destruct (k =? s); [by right | left; left; by exists k].
      - intros [[(k & Hk & Hpk & Hx) | Hx] | ->]; [| by right |].
        + left. exists k. rewrite Hp by done. cbn. rewrite normal_at by done. destruct (Z.eqb_spec k s) as [-> |]; [| done].
          unfold normal_pending in Hpk. congruence.
        + left. exists s. rewrite Hp by done. cbn. by rewrite normal_at, Z.eqb_refl by done. }
    split_and!; try done; try lia. apply (addition_wf q q' e); try done; try apply Hw; cbn.
    + lens.
    + destruct (wf_mask q Hw) as [w Hm]. destruct (set_normal _ w s true Hm Hs) as (w' & Hm' & _). by exists w'.
    + intros k Hk Hpk. rewrite Hp in Hpk by done. rewrite normal_at by done. destruct (Z.eqb_spec k s) as [-> |]; [done | by apply Hw].
  - replace (32 <=? s) with true by lia. cbn [andb]. destruct (_ || _) eqn:E1; [done |]. b2p.
    set (q' := mk _ _ _ _ _ _ _). assert (forall k, 0 <= k < realtime_count_ q + 1 ->
      (realtime_ q').[k] = if k =? realtime_count_ q then e else (realtime_ q).[k]) as Hrt.
    { intros k Hk. cbn. destruct (Z.eqb_spec k (realtime_count_ q)) as [-> |]; [apply aget_aset_eq; lia | apply aget_aset_ne; lia]. }
    assert (forall x, has q' x <-> has q x \/ x = e) as Hhas.
    { intros x. split.
      - intros [Hx | (i & Hi & Hx)]; [by left; left |]. cbn in Hi. rewrite Hrt in Hx by lia.
        destruct (Z.eqb_spec i (realtime_count_ q)); [by right | left; right; exists i; split; [lia | done]].
      - intros [[Hx | (i & Hi & Hx)] | ->]; [by left | |].
        + right. exists i. rewrite Hrt by lia. cbn. split; [lia |]. by replace (i =? realtime_count_ q) with false by lia.
        + right. exists (realtime_count_ q). rewrite Hrt by lia. cbn. rewrite Z.eqb_refl. split; [lia | done]. }
    split_and!; try done; try lia. apply (addition_wf q q' e); try done; try apply Hw.
    + cbn. lens.
    + cbn. lia.
    + intros i Hi. cbn in Hi. rewrite Hrt by lia. destruct (Z.eqb_spec i (realtime_count_ q)); [cbn; fold s; lia | apply Hw; lia].
    + intros i j Hij Hj. cbn in Hj. rewrite !Hrt by lia. replace (i =? realtime_count_ q) with false by lia.
      destruct (Z.eqb_spec j (realtime_count_ q)) as [-> |]; [| apply Hw; lia]. cbn.
      pose proof (wf_entry q Hw (realtime_ q).[i] ltac:(right; exists i; split; [lia | done])). lia.
Qed.

Lemma find_realtime_spec n i f l :
  match find_realtime n i f l with
  | Some k => i <= k < i + Z.of_nat n /\ f l.[k] = true
  | None => forall k, i <= k < i + Z.of_nat n -> f l.[k] = false
  end.
Proof.
  revert i. induction n as [| n IH]; intros i; cbn [find_realtime]; [lia |]. destruct (f l.[i]) eqn:E; [split; [lia | done] |].
  specialize (IH (i + 1)). destruct (find_realtime n (i + 1) f l) as [k |]; [destruct IH; split; [lia | done] |].
  intros k Hk. destruct (Z.eq_dec k i) as [-> |]; [done | apply IH; lia].
Qed.

Lemma drop_realtime_spec n i f q : wf q -> 0 <= i <= realtime_count_ q -> Z.of_nat n = realtime_count_ q - i ->
  let q' := drop_realtime n i f q in
  wf q' /\ self q' = self q /\ next_sequence_ q' = next_sequence_ q /\ owner_ q' = owner_ q /\
  (forall e, has q' e -> has q e) /\
  ((forall j, 0 <= j < i -> f (realtime_ q).[j] = false) -> forall k, 0 <= k < realtime_count_ q' -> f (realtime_ q').[k] = false).
Proof.
  revert i q. induction n as [| n IH]; intros i q Hw Hi Hn; cbn [drop_realtime].
  { split_and!; try done. intros Hj k Hk. apply Hj. lia. }
  replace (i <? realtime_count_ q) with true by lia. destruct (f (realtime_ q).[i]) eqn:Ef.
  - destruct (erase_realtime_spec q i Hw ltac:(lia)) as [Hw' Hhas].
    destruct (IH i (erase_realtime q i) Hw') as (Ha & Hb & Hc & Hd & He & Hf); [cbn; lia | cbn; lia |].
    split_and!; try done; [intros e Hq; by apply Hhas, He |]. intros Hj. apply Hf. intros j Hjr. rewrite erase_realtime_at by (done || lia).
    cmp. by apply Hj.
  - destruct (IH (i + 1) q Hw) as (Ha & Hb & Hc & Hd & He & Hf); [lia | lia |]. split_and!; try done. intros Hj. apply Hf.
    intros j Hjr. destruct (Z.eq_dec j i) as [-> |]; [done | apply Hj; lia].
Qed.

Lemma matches_spec e d : matches e d = true <-> e = Entry.mk (Delivery.sequence d) (Delivery.info d).
Proof.
  unfold matches. rewrite andb_true_iff, Z.eqb_eq, bool_decide_eq_true. destruct e. cbn. split; [intros [-> ->]; done | by intros [= -> ->]].
Qed.

Lemma has_signal q e : wf q -> has q e -> 1 <= sig e <= MaximumSignal.
Proof.
  intros Hw [(s & Hs & Hp & <-) | (i & Hi & <-)].
  - rewrite (wf_normal_signal q Hw) by done. lia.
  - pose proof (wf_realtime_signal q Hw i Hi). lia.
Qed.

Lemma has_normal q e : wf q -> has q e -> sig e < 32 -> normal_pending q (sig e) = true /\ (normal_ q).[sig e - 1] = e.
Proof.
  intros Hw [(s & Hs & Hp & <-) | (i & Hi & <-)] Hlt.
  - by rewrite (wf_normal_signal q Hw).
  - pose proof (wf_realtime_signal q Hw i Hi). lia.
Qed.

Lemma has_realtime q e : wf q -> has q e -> 32 <= sig e -> exists i, 0 <= i < realtime_count_ q /\ (realtime_ q).[i] = e.
Proof.
  intros Hw [(s & Hs & Hp & <-) | Hi] Hlt; [| done]. rewrite (wf_normal_signal q Hw) in Hlt by done. lia.
Qed.

(** consume() removes the record of the ticket, exactly. *)
Lemma consume_cases q d : wf q ->
  let '(q', r) := consume q d in
  let e := Entry.mk (Delivery.sequence d) (Delivery.info d) in
  if r then wf q' /\ self q' = self q /\ owner_ q' = owner_ q /\ next_sequence_ q' = next_sequence_ q /\ has q e /\
      Delivery.queue d = self q /\ Delivery.owner d = owner_ q /\ (forall x, has q' x <-> has q x /\ x <> e)
  else q' = q /\ (Delivery.queue d = self q -> Delivery.owner d = owner_ q -> ~ has q e).
Proof.
  intros Hw. unfold PendingSignals.consume. set (s := PendingSignalInfo.signal (Delivery.info d)). set (e := Entry.mk _ _).
  destruct (_ || _) eqn:E0.
  { split; [done |]. intros Hq Ho He. unfold truth, PendingSignalInfo.truth in E0. rewrite Hq, Ho, Z.eqb_refl, bool_decide_true in E0 by done.
    pose proof (wf_entry q Hw e He) as Hse. cbn in Hse. destruct (has_signal q e Hw He) as [Hlo Hhi]. cbn in Hlo, Hhi. fold s in Hlo, Hhi.
    cbn [negb orb] in E0. revert E0. by cmp. }
  unfold truth, PendingSignalInfo.truth in E0. b2p. match goal with H : bool_decide _ = true |- _ => apply bool_decide_eq_true in H end.
  destruct (Z.ltb_spec s 32).
  - destruct (SignalMask.contains (normal_mask_ q) s) eqn:Ep; cbn [negb orb].
    + destruct (matches (normal_ q).[s - 1] d) eqn:Em; cbn [negb].
      * apply matches_spec in Em. assert (1 <= s < 32) as Hs by (destruct (wf_mask q Hw) as [w Hm];
          rewrite (contains_normal _ _ _ Hm) in Ep; b2p; lia).
        destruct (erase_normal_spec q s Hw Hs) as [Hw' Hhas]. split_and!; try done; [by left; exists s |].
        intros x. rewrite Hhas. split; intros [Hx Hne]; split; try done.
        -- intros ->. by apply Hne.
        -- intros Esx. apply Hne. destruct (has_normal q x Hw Hx) as [_ <-]; [lia | by rewrite Esx].
      * split; [done |]. intros _ _ He. destruct (has_normal q e Hw He) as [_ Hx]; [done |].
        apply not_true_iff_false in Em. apply Em, matches_spec. done.
    + split; [done |]. intros _ _ He. destruct (has_normal q e Hw He) as [Hp _]; [done |]. unfold normal_pending in Hp.
      change (sig e) with s in Hp. congruence.
  - pose proof (find_realtime_spec (Z.to_nat (realtime_count_ q)) 0 (fun e => matches e d) (realtime_ q)) as Hf.
    pose proof (wf_count q Hw). destruct (find_realtime _ _ _ _) as [i |].
    + destruct Hf as [Hi Hm%matches_spec]. destruct (erase_realtime_spec q i Hw ltac:(lia)) as [Hw' Hhas].
      split_and!; try done; [right; exists i; split; [lia | done] |]. intros x. rewrite Hhas, Hm. done.
    + split; [done |]. intros _ _ He. destruct (has_realtime q e Hw He) as (i & Hi & Ei); [done |].
      specialize (Hf i ltac:(lia)). apply not_true_iff_false in Hf. by apply Hf, matches_spec.
Qed.

(** *** Delivery order *)
Lemma first_normal_spec n s x : 1 <= s -> s + Z.of_nat n <= 64 ->
  match first_normal n s x with
  | Some k => s <= k < s + Z.of_nat n /\ Z.testbit x (k - 1) = true /\ forall j, s <= j < k -> Z.testbit x (j - 1) = false
  | None => forall j, s <= j < s + Z.of_nat n -> Z.testbit x (j - 1) = false
  end.
Proof.
  revert s. induction n as [| n IH]; intros s Hs Hn; cbn [first_normal]; [lia |]. rewrite land_bit_testbit by lia.
  destruct (Z.testbit x (s - 1)) eqn:E; [split_and!; [lia | lia | done | lia] |]. specialize (IH (s + 1) ltac:(lia) ltac:(lia)).
  destruct (first_normal n (s + 1) x) as [k |].
  - destruct IH as (? & ? & Hj). split_and!; try lia; [done |]. intros j Hjr. destruct (Z.eq_dec j s) as [-> |]; [done | apply Hj; lia].
  - intros j Hjr. destruct (Z.eq_dec j s) as [-> |]; [done | apply IH; lia].
Qed.

(** Synchronous signals, then the other ones below 32, then real-time ones. *)
Definition class (e : Entry.t) : Z :=
  if sig e <? 32 then if Z.testbit (synchronous MaximumSignal) (sig e - 1) then 0 else 1 else 2.
Definition before (e e' : Entry.t) : Prop :=
  class e < class e' \/ class e = class e' /\ (sig e < sig e' \/ sig e = sig e' /\ seq e <= seq e').

Definition scan_best (q : t) (blocked : SignalMask.t) (i c : Z) : Prop :=
  let free k := SignalMask.contains blocked (sig (realtime_ q).[k]) = false in
  if c =? realtime_count_ q then forall k, 0 <= k < i -> ~ free k
  else 0 <= c < i /\ free c /\ forall k, 0 <= k < i -> free k ->
    sig (realtime_ q).[c] < sig (realtime_ q).[k] \/ sig (realtime_ q).[c] = sig (realtime_ q).[k] /\ c <= k.

Lemma choose_realtime_spec n i c q blocked : 0 <= i -> i + Z.of_nat n = realtime_count_ q -> scan_best q blocked i c ->
  scan_best q blocked (realtime_count_ q) (choose_realtime n i c q blocked).
Proof.
  revert i c. induction n as [| n IH]; intros i c Hi Hn Hb; cbn [choose_realtime]; [by replace (realtime_count_ q) with i by lia |].
  apply IH; [lia | lia |]. unfold scan_best in *. destruct (SignalMask.contains blocked (sig (realtime_ q).[i])) eqn:Ec; cbn [negb andb].
  - destruct (c =? realtime_count_ q).
    + intros k Hk. destruct (Z.eq_dec k i) as [-> |]; [congruence | apply Hb; lia].
    + destruct Hb as (Hc & Hf & Hk). split_and!; try lia; [done |]. intros k Hkr Hfk. destruct (Z.eq_dec k i) as [-> |]; [congruence | apply Hk; [lia | done]].
  - destruct (Z.eqb_spec c (realtime_count_ q)) as [-> | Hne]; cbn [orb].
    + replace (i =? realtime_count_ q) with false by lia. split_and!; try lia; [done |]. intros k Hkr Hfk.
      destruct (Z.eq_dec k i) as [-> |]; [right; split; [done | lia] |]. exfalso. by apply (Hb k ltac:(lia)).
    + destruct Hb as (Hc & Hf & Hk). destruct (Z.ltb_spec (sig (realtime_ q).[i]) (sig (realtime_ q).[c])).
      * replace (i =? realtime_count_ q) with false by lia. split_and!; try lia; [done |]. intros k Hkr Hfk.
        destruct (Z.eq_dec k i) as [-> |]; [right; split; [done | lia] |]. destruct (Hk k ltac:(lia) Hfk); lia.
      * replace (c =? realtime_count_ q) with false by lia. split_and!; try lia; [done |]. intros k Hkr Hfk.
        destruct (Z.eq_dec k i) as [-> |]; [lia | apply Hk; [lia | done]].
Qed.

Lemma nonzero_has_bit x n : 0 <= n -> 0 <= x < 2 ^ n -> x <> 0 -> exists i, 0 <= i < n /\ Z.testbit x i = true.
Proof.
  intros Hn Hx Hne. exists (Z.log2 x). split; [| apply Z.bit_log2; lia]. split; [apply Z.log2_nonneg |].
  apply Z.log2_lt_pow2; lia.
Qed.

(** The signal peek() picks among those below 32, [x] being the unblocked ones. *)
Lemma pick_normal_spec x : 0 <= x < 2 ^ 31 ->
  let sync := synchronous MaximumSignal in
  match first_normal 31 1 (if negb (Z.land x sync =? 0) then Z.land x sync else x) with
  | Some s => 1 <= s < 32 /\ Z.testbit x (s - 1) = true /\
      forall k, 1 <= k < 32 -> Z.testbit x (k - 1) = true ->
        (Z.testbit sync (s - 1) = true /\ Z.testbit sync (k - 1) = false) \/
        (Z.testbit sync (s - 1) = Z.testbit sync (k - 1) /\ s <= k)
  | None => forall k, 1 <= k < 32 -> Z.testbit x (k - 1) = false
  end.
Proof.
  intros Hx sync. set (y := if negb _ then _ else _). pose proof (first_normal_spec 31 1 y ltac:(lia) ltac:(lia)) as Hf.
  assert (0 <= Z.land x sync < 2 ^ 31) as Hls.
  { apply land_bound; [lia | done |]. unfold sync, synchronous. destruct signals_known as [-> | ->]; by vm_compute. }
  unfold y in *. clear y. destruct (Z.eqb_spec (Z.land x sync) 0) as [Ez | Hnz]; cbn [negb] in *.
  - assert (forall k, 0 <= k -> Z.testbit x k = true -> Z.testbit sync k = false) as Hns.
    { intros k Hk Hb. assert (Z.testbit (Z.land x sync) k = false) as Hl by (by rewrite Ez, Z.bits_0). by rewrite Z.land_spec, Hb in Hl. }
    destruct (first_normal 31 1 x) as [s |]; [| intros k Hk; apply Hf; lia]. destruct Hf as (Hs & Hb & Hmin). split; [lia |]. split; [done |].
    intros k Hk Hbk. right. split; [rewrite !Hns by (done || lia); done |]. destruct (Z.le_gt_cases s k); [done |].
    rewrite Hmin in Hbk by lia. done.
  - destruct (first_normal 31 1 (Z.land x sync)) as [s |].
    + destruct Hf as (Hs & Hb & Hmin). rewrite Z.land_spec in Hb. apply andb_true_iff in Hb as [Hb Hsy]. split; [lia |]. split; [done |].
      intros k Hk Hbk. rewrite Hsy. destruct (Z.testbit sync (k - 1)) eqn:Ek; [right | by left]. split; [done |].
      destruct (Z.le_gt_cases s k); [done |]. specialize (Hmin k ltac:(lia)). rewrite Z.land_spec, Hbk, Ek in Hmin. done.
    + exfalso. destruct (nonzero_has_bit _ 31 ltac:(lia) Hls Hnz) as (i & Hi & Hb). specialize (Hf (i + 1) ltac:(lia)).
      replace (i + 1 - 1) with i in Hf by lia. congruence.
Qed.

Lemma peek_cases q blocked : wf q ->
  match peek MaximumSignal q blocked with
  | Some d => exists e, has q e /\ d = ticket_for q e /\ SignalMask.contains blocked (sig e) = false /\
      forall e', has q e' -> SignalMask.contains blocked (sig e') = false -> before e e'
  | None => forall e, has q e -> SignalMask.contains blocked (sig e) = true
  end.
Proof.
  intros Hw. unfold peek. destruct (wf_mask q Hw) as [w Hm]. rewrite (proj1 Hm). change ([w; 0].[0]) with w.
  set (b0 := (SignalMask.words blocked).[0]). set (x := Z.land w (u64_not b0)).
  assert (forall s, 1 <= s < 32 -> Z.testbit x (s - 1) = normal_pending q s && negb (SignalMask.contains blocked s)) as Hx.
  { intros s Hs. unfold x. rewrite Z.land_spec, testbit_u64_not by lia. unfold normal_pending.
    rewrite (contains_normal _ _ _ Hm), (contains_bit blocked) by lia. by cmp. }
  assert (0 <= x < 2 ^ 31) as Hxb by (apply land_bound; [lia | apply Hm | apply u64_not_bound]).
  pose proof (pick_normal_spec x Hxb) as Hpick. cbn zeta in Hpick. destruct (first_normal 31 1 _) as [s |].
  - destruct Hpick as (Hs & Hb & Hmin). rewrite Hx in Hb by done. apply andb_true_iff in Hb as [Hp Hnb%negb_true_iff].
    pose proof (wf_normal_signal q Hw s Hs Hp) as Esig. exists (normal_ q).[s - 1]. rewrite Esig. split_and!; try done; [left; by exists s |].
    intros e' He' Hnb'. unfold before, class. rewrite Esig. replace (s <? 32) with true by lia.
    destruct (Z.ltb_spec (sig e') 32); [| left; by destruct (Z.testbit _ _)].
    destruct (has_normal q e' Hw He') as [Hp' En']; [done |]. pose proof (has_signal q e' Hw He').
    destruct (Hmin (sig e')) as [[-> ->] | [-> Hle]]; [lia | by rewrite Hx, Hp', Hnb' by lia | by left |].
    right. split; [done |]. destruct (Z.eq_dec s (sig e')) as [-> |]; [right; rewrite En'; lia | lia].
  - assert (forall e, has q e -> SignalMask.contains blocked (sig e) = false -> 32 <= sig e) as Hrt.
    { intros e He Hnb. destruct (Z.le_gt_cases 32 (sig e)) as [| Hlt]; [done |]. destruct (has_normal q e Hw He) as [Hp _]; [done |].
      pose proof (has_signal q e Hw He). specialize (Hpick (sig e) ltac:(lia)). rewrite Hx, Hp, Hnb in Hpick by lia. done. }
    pose proof (wf_count q Hw) as Hcount.
    pose proof (choose_realtime_spec (Z.to_nat (realtime_count_ q)) 0 (realtime_count_ q) q blocked ltac:(lia) ltac:(lia)) as Hc.
    unfold scan_best in Hc at 1. rewrite Z.eqb_refl in Hc. specialize (Hc ltac:(lia)). unfold scan_best in Hc.
    set (c := choose_realtime _ _ _ _ _) in *. destruct (c =? realtime_count_ q).
    + intros e He. destruct (SignalMask.contains blocked (sig e)) eqn:Eb; [done |]. exfalso.
      destruct (has_realtime q e Hw He (Hrt e He Eb)) as (i & Hi & <-). by apply (Hc i Hi).
    + destruct Hc as (Hcr & Hfree & Hmin). exists (realtime_ q).[c]. split_and!; try done; [right; by exists c |].
      intros e' He' Hnb'. destruct (has_realtime q e' Hw He' (Hrt e' He' Hnb')) as (i & Hi & <-). right.
      pose proof (wf_realtime_signal q Hw c Hcr). pose proof (wf_realtime_signal q Hw i Hi). unfold class. cmp. split; [done |].
      destruct (Hmin i Hi Hnb') as [| [E Hle]]; [by left |]. right. split; [done |].
      destruct (Z.eq_dec c i) as [-> |]; [done |]. pose proof (wf_fifo q Hw c i ltac:(lia) ltac:(lia)). lia.
Qed.

(** Peek() offers the most urgent deliverable signal: pending, not blocked, and
    no other pending unblocked signal comes before it (synchronous signals,
    then other standard signals by number, then real-time signals by number and
    in order of arrival).  Consuming that ticket succeeds and removes exactly
    that record; peek() finds nothing only when every pending signal is
    blocked. *)
Theorem peek_delivers_first q blocked : wf q ->
  match peek MaximumSignal q blocked with
  | Some d => exists e, has q e /\ d = ticket_for q e /\ SignalMask.contains blocked (sig e) = false /\
      (forall e', has q e' -> SignalMask.contains blocked (sig e') = false -> before e e') /\
      let '(q', consumed) := consume q d in
      consumed = true /\ wf q' /\ forall x, has q' x <-> has q x /\ x <> e
  | None => forall e, has q e -> SignalMask.contains blocked (sig e) = true
  end.
Proof.
  intros Hw. pose proof (peek_cases q blocked Hw) as Hp. destruct (peek _ q blocked) as [d |]; [| done].
  destruct Hp as (e & He & -> & Hnb & Hmin). exists e. split_and!; try done.
  pose proof (consume_cases q (ticket_for q e) Hw) as Hc. cbn [ticket_for Delivery.sequence Delivery.info] in Hc.
  assert (Entry.mk (seq e) (Entry.info e) = e) as Ee by (by destruct e). rewrite Ee in Hc.
  destruct (consume q (ticket_for q e)) as [q' []].
  - by destruct Hc as (? & _ & _ & _ & _ & _ & _ & ?).
  - exfalso. destruct Hc as [_ Hc]. by apply Hc.
Qed.

(** *** Histories *)

(** Rewriting payloads in place, keeping numbers and sequences. *)
Lemma relabel_wf q q' : wf q -> normal_mask_ q' = normal_mask_ q -> realtime_count_ q' = realtime_count_ q ->
  next_sequence_ q' = next_sequence_ q -> zlen (normal_ q') = 31 -> zlen (realtime_ q') = RealtimeCapacity ->
  (forall s, 1 <= s < 32 -> seq (normal_ q').[s - 1] = seq (normal_ q).[s - 1] /\ sig (normal_ q').[s - 1] = sig (normal_ q).[s - 1]) ->
  (forall i, 0 <= i < realtime_count_ q -> seq (realtime_ q').[i] = seq (realtime_ q).[i] /\ sig (realtime_ q').[i] = sig (realtime_ q).[i]) ->
  wf q' /\ forall x, has q' x -> exists y, has q y /\ seq y = seq x.
Proof.
  intros Hw Em Ec En Hn Hr HN HR.
  assert (forall x, has q' x -> exists y, has q y /\ seq y = seq x) as Hhas.
  { intros x [(s & Hs & Hp & <-) | (i & Hi & <-)].
    - exists (normal_ q).[s - 1]. split; [left; exists s; unfold normal_pending in *; by rewrite Em in Hp | by rewrite (proj1 (HN s Hs))].
    - rewrite Ec in Hi. exists (realtime_ q).[i]. split; [right; by exists i | by rewrite (proj1 (HR i Hi))]. }
  split; [| done]. unfold normal_pending in *. pose proof Hw as [_ _ Hc Hx Hm Hent Hns Hrs Hff Hun]. split; try done; unfold normal_pending in *; rewrite ?Em, ?Ec, ?En; try done.
  - intros x (y & Hy & <-)%Hhas. by apply Hent.
  - intros s Hs Hp. rewrite (proj2 (HN s Hs)). by apply Hns.
  - intros i Hi. rewrite (proj2 (HR i Hi)). by apply Hrs.
  - intros i j Hij Hj. rewrite (proj1 (HR i ltac:(lia))), (proj1 (HR j ltac:(lia))). by apply Hff.
  - intros e e' [(s & Hs & Hp & <-) | (i & Hi & <-)] [(k & Hk & Hp' & <-) | (j & Hj & <-)] E; unfold normal_pending in *; rewrite ?Em in *; rewrite ?Ec in *.
    + assert (s = k) as ->; [| done]. rewrite (proj1 (HN s Hs)), (proj1 (HN k Hk)) in E.
      apply Hun in E; [| left; by exists s | left; by exists k]. rewrite <- (Hns s Hs Hp), <- (Hns k Hk Hp'). by rewrite E.
    + exfalso. rewrite (proj1 (HN s Hs)), (proj1 (HR j Hj)) in E. apply Hun in E; [| left; by exists s | right; by exists j].
      pose proof (Hns s Hs Hp). pose proof (Hrs j Hj). rewrite E in *. lia.
    + exfalso. rewrite (proj1 (HN k Hk)), (proj1 (HR i Hi)) in E. apply Hun in E; [| right; by exists i | left; by exists k].
      pose proof (Hns k Hk Hp'). pose proof (Hrs i Hi). rewrite E in *. lia.
    + assert (i = j) as ->; [| done]. rewrite (proj1 (HR i Hi)), (proj1 (HR j Hj)) in E.
      destruct (Z.lt_trichotomy i j) as [Hl | [? | Hl]]; [| done |].
      * pose proof (Hff i j ltac:(lia) ltac:(lia)). lia.
      * pose proof (Hff j i ltac:(lia) ltac:(lia)). lia.
Qed.

(** Every operation keeps the queue well formed, never lowers the sequence
    counter, and holds only records it had or newly numbered ones. *)
Record sig_step (q q' : t) : Prop := {
  st_wf : wf q';
  st_self : self q' = self q;
  st_next : next_sequence_ q <= next_sequence_ q';
  st_has : forall x, has q' x -> next_sequence_ q < seq x \/ exists y, has q y /\ seq y = seq x
}.

Lemma sig_step_refl q : wf q -> sig_step q q.
Proof. intros. split; [done | done | lia |]. intros x Hx. right. by exists x. Qed.

Lemma sig_step_sub q q' : wf q' -> self q' = self q -> next_sequence_ q' = next_sequence_ q ->
  (forall x, has q' x -> has q x) -> sig_step q q'.
Proof. intros Hw Hs Hn Hh. split; [done | done | lia |]. intros x Hx. right. exists x. split; [by apply Hh | done]. Qed.

Lemma sig_step_trans q1 q2 q3 : sig_step q1 q2 -> sig_step q2 q3 -> sig_step q1 q3.
Proof.
  intros [Hw Hs Hn Hh] [Hw' Hs' Hn' Hh']. split; [done | congruence | lia |].
  intros x Hx. destruct (Hh' x Hx) as [| (y & Hy & Ey)]; [left; lia |]. rewrite <- Ey. by apply Hh.
Qed.

Inductive sig_op :=
| Reset (identity : Identity.t)
| Retire
| Send (info : PendingSignalInfo.t)
| SendKernel (signal : Z)
| SendTimer (signal timer overrun value : Z)
| SendChildExit (status : ChildExitStatus.t) (pid uid : Z)
| Consume (d : Delivery.t)
| RefreshTimer (signal timer overrun : Z)
| DiscardTimer (signal timer : Z)
| DiscardTimers
| Discard (signal : Z).

Definition sig_exec (q : t) (o : sig_op) : t :=
  match o with
  | Reset identity => fst (reset RealtimeCapacity q identity)
  | Retire => retire RealtimeCapacity q
  | Send info => fst (enqueue MaximumSignal RealtimeCapacity MaximumSequence q info)
  | SendKernel signal => fst (enqueue_kernel MaximumSignal RealtimeCapacity MaximumSequence q signal)
  | SendTimer signal timer overrun value =>
      fst (enqueue_timer MaximumSignal RealtimeCapacity MaximumSequence q signal timer overrun value)
  | SendChildExit status pid uid => fst (enqueue_child_exit MaximumSignal RealtimeCapacity MaximumSequence q status pid uid)
  | Consume d => fst (consume q d)
  | RefreshTimer signal timer overrun => fst (refresh_timer MaximumSignal q signal timer overrun)
  | DiscardTimer signal timer => discard_timer MaximumSignal q signal timer
  | DiscardTimers => discard_timers MaximumSignal q
  | Discard signal => discard MaximumSignal q signal
  end.

(** Signal numbers are unsigned. *)
Definition sig_op_ok (o : sig_op) : Prop :=
  match o with
  | Send info => 0 <= PendingSignalInfo.signal info
  | SendKernel s | SendTimer s _ _ _ | RefreshTimer s _ _ | DiscardTimer s _ | Discard s => 0 <= s
  | _ => True
  end.

Lemma enqueue_step q info : wf q -> 0 <= PendingSignalInfo.signal info -> sig_step q (fst (enqueue_checked q info)).
Proof.
  intros Hw Hs. pose proof (enqueue_checked_cases q info Hw Hs) as He. destruct (enqueue_checked q info) as [q' []]; cbn [fst] in *;
    try (rewrite He; by apply sig_step_refl).
  destruct He as (Hw' & _ & En & Es & _ & Hhas). split; [done | done | lia |].
  intros x [Hx | ->]%Hhas; [right; by exists x | left; cbn; lia].
Qed.

Lemma erase_normal_step q s : wf q -> 1 <= s < 32 -> sig_step q (erase_normal q s).
Proof. intros Hw Hs. destruct (erase_normal_spec q s Hw Hs) as [Hw' Hh]. apply sig_step_sub; try done. intros x Hx. by apply Hh. Qed.

Lemma erase_realtime_step q i : wf q -> 0 <= i < realtime_count_ q -> sig_step q (erase_realtime q i).
Proof. intros Hw Hi. destruct (erase_realtime_spec q i Hw Hi) as [Hw' Hh]. apply sig_step_sub; try done. intros x Hx. by apply Hh. Qed.

Lemma drop_realtime_step f q : wf q -> sig_step q (drop_realtime (Z.to_nat (realtime_count_ q)) 0 f q).
Proof.
  intros Hw. pose proof (wf_count q Hw). destruct (drop_realtime_spec (Z.to_nat (realtime_count_ q)) 0 f q Hw) as (? & ? & ? & ? & ? & _); [lia | lia |].
  by apply sig_step_sub.
Qed.

Lemma drop_normal_timers_step n s q : wf q -> 1 <= s -> s + Z.of_nat n <= 32 -> sig_step q (drop_normal_timers MaximumSignal n s q).
Proof.
  revert s q. induction n as [| n IH]; intros s q Hw Hs Hn; [by apply sig_step_refl |]. cbn [drop_normal_timers].
  destruct (_ && _); [| apply IH; (done || lia)]. pose proof (erase_normal_step q s Hw ltac:(lia)) as Hst.
  apply (sig_step_trans _ (erase_normal q s)); [done |]. apply IH; [apply Hst | lia | lia].
Qed.

Lemma find_timer_range q s tm k : wf q -> 0 <= s -> find_timer MaximumSignal q s tm = Some k ->
  1 <= s /\ (s < 32 -> k = s - 1) /\ (32 <= s -> 0 <= k < realtime_count_ q).
Proof.
  intros Hw Hs0. unfold find_timer, truth, PendingSignalInfo.truth. destruct (_ || _) eqn:E; [done |]. b2p.
  pose proof (wf_count q Hw). destruct (Z.ltb_spec s 32).
  - destruct (_ && _); [intros [= <-] | done]. split_and!; lia.
  - intros Hf. pose proof (find_realtime_spec (Z.to_nat (realtime_count_ q)) 0
      (fun e => (sig e =? s) && is_timer MaximumSignal tm e) (realtime_ q)) as Hsp. rewrite Hf in Hsp. split_and!; lia.
Qed.

Lemma refresh_step q s tm ov : wf q -> 0 <= s -> sig_step q (fst (refresh_timer MaximumSignal q s tm ov)).
Proof.
  intros Hw Hs. unfold refresh_timer. destruct (find_timer MaximumSignal q s tm) as [k |] eqn:Ef; [| by apply sig_step_refl].
  destruct (find_timer_range q s tm k Hw Hs Ef) as (Hs1 & Hn & Hr). destruct (ov <? 0); [by apply sig_step_refl |].
  pose proof (wf_normal q Hw). pose proof (wf_realtime q Hw). pose proof (wf_count q Hw).
  destruct (Z.ltb_spec s 32); cbn [fst]; set (q' := mk _ _ _ _ _ _ _).
  - specialize (Hn ltac:(done)). subst k. destruct (relabel_wf q q' Hw) as [Hw' Hh]; try done; [cbn; lens | |].
    + intros j Hj. cbn. rewrite normal_at by (done || lia). by destruct (Z.eqb_spec j s) as [-> |].
    + split; [done | done | cbn; lia |]. intros x Hx. right. by apply Hh.
  - specialize (Hr ltac:(done)). destruct (relabel_wf q q' Hw) as [Hw' Hh]; try done; [cbn; lens | |].
    + intros j Hj. cbn. destruct (Z.eq_dec j k) as [-> |]; [rewrite aget_aset_eq by lia; done | rewrite aget_aset_ne by lia; done].
    + split; [done | done | cbn; lia |]. intros x Hx. right. by apply Hh.
Qed.

Lemma sig_exec_step q o : wf q -> sig_op_ok o -> sig_step q (sig_exec q o).
Proof.
  intros Hw Ho. pose proof (wf_next q Hw) as Hnx. assert (forall ow, sig_step q (mk (self q) ow (next_sequence_ q) SignalMask.new no_normal (no_realtime RealtimeCapacity) 0)) as Hempty.
  { intros ow. split; [by apply empty_wf | done | cbn; lia |]. intros x [(s & _ & Hp & _) | (i & Hi & _)]; [| cbn in Hi; lia].
    unfold normal_pending in Hp. cbn in Hp. by rewrite empty_pending in Hp. }
  destruct o as [id | | info | s | s tm ov v | st pid uid | d | s tm ov | s tm | | s]; cbn [sig_exec sig_op_ok] in *.
  - unfold reset. destruct (_ || _); [by apply sig_step_refl | apply Hempty].
  - apply Hempty.
  - unfold enqueue. destruct (_ || _); [by apply sig_step_refl | by apply enqueue_step].
  - by apply enqueue_step.
  - unfold enqueue_timer. destruct (PendingSignalInfo.valid _ _); [by apply enqueue_step | by apply sig_step_refl].
  - unfold enqueue_child_exit. destruct (negb _); [by apply sig_step_refl |].
    destruct (PendingSignalInfo.valid _ _); [apply enqueue_step; [done |]; cbn; by destruct (_ =? _) | by apply sig_step_refl].
  - pose proof (consume_cases q d Hw) as Hc. destruct (consume q d) as [q' []]; cbn [fst].
    + destruct Hc as (? & ? & _ & ? & _ & _ & _ & Hh). apply sig_step_sub; try done. intros x Hx. by apply Hh.
    + destruct Hc as [-> _]. by apply sig_step_refl.
  - by apply refresh_step.
  - unfold discard_timer. destruct (find_timer MaximumSignal q s tm) as [k |] eqn:Ef; [| by apply sig_step_refl].
    destruct (find_timer_range q s tm k Hw Ho Ef) as (Hs1 & _ & Hr). destruct (Z.ltb_spec s 32); [apply erase_normal_step; (done || lia) |].
    apply erase_realtime_step; [done | by apply Hr].
  - unfold discard_timers. pose proof (drop_normal_timers_step 31 1 q Hw ltac:(lia) ltac:(lia)) as Hst.
    apply (sig_step_trans _ (drop_normal_timers MaximumSignal 31 1 q)); [done |]. apply drop_realtime_step, Hst.
  - unfold discard, truth, PendingSignalInfo.truth. destruct (_ || _) eqn:E; [by apply sig_step_refl |]. b2p.
    destruct (Z.ltb_spec s 32); [apply erase_normal_step; (done || lia) | by apply drop_realtime_step].
Qed.

Lemma sig_run_step q ops : wf q -> Forall sig_op_ok ops -> sig_step q (fold_left sig_exec ops q).
Proof.
  intros Hw Hops. revert q Hw. induction Hops as [| o ops Ho _ IH]; intros q Hw; [by apply sig_step_refl |]. cbn.
  pose proof (sig_exec_step q o Hw Ho) as Hst. apply (sig_step_trans _ (sig_exec q o)); [done |]. apply IH, Hst.
Qed.

(** C35: a delivery ticket is consumed at most once and never stands for a different
    signal.  In every history, reuse of the queue by another owner included:
    once a ticket has been consumed, or the record it names is gone for any
    other reason, it is refused for ever; and a ticket that is accepted
    removes its own record and no other. *)
Theorem ticket_consumed_at_most_once this ops1 d ops2 :
  Forall sig_op_ok ops1 -> Forall sig_op_ok ops2 ->
  let q1 := fold_left sig_exec ops1 (new RealtimeCapacity this) in
  let e := Entry.mk (Delivery.sequence d) (Delivery.info d) in
  let '(q2, consumed) := consume q1 d in
  (consumed = true -> has q1 e /\ (forall x, has q2 x <-> has q1 x /\ x <> e) /\
     snd (consume (fold_left sig_exec ops2 q2) d) = false) /\
  (Delivery.sequence d <= next_sequence_ q1 -> (forall x, has q1 x -> seq x <> Delivery.sequence d) ->
     snd (consume (fold_left sig_exec ops2 q2) d) = false).
Proof.
  intros Hops1 Hops2 q1 e. assert (wf (new RealtimeCapacity this)) as Hnew by (apply empty_wf; lia).
  pose proof (st_wf _ _ (sig_run_step _ ops1 Hnew Hops1)) as Hw1. fold q1 in Hw1.
  assert (forall q2, wf q2 -> Delivery.sequence d <= next_sequence_ q2 -> (forall x, has q2 x -> seq x <> Delivery.sequence d) ->
    snd (consume (fold_left sig_exec ops2 q2) d) = false) as Hgone.
  { intros q2 Hw2 Hle Hno. destruct (sig_run_step q2 ops2 Hw2 Hops2) as [Hw3 _ _ Hh3].
    pose proof (consume_cases (fold_left sig_exec ops2 q2) d Hw3) as Hc. destruct (consume (fold_left sig_exec ops2 q2) d) as [q3 []]; [| done].
    exfalso. destruct Hc as (_ & _ & _ & _ & He & _). destruct (Hh3 _ He) as [Hlt | (y & Hy & Ey)]; cbn in *; [lia | by apply (Hno y Hy)]. }
  pose proof (consume_cases q1 d Hw1) as Hc. destruct (consume q1 d) as [q2 []]; cbn zeta in Hc; fold e in Hc.
  - destruct Hc as (Hw2 & _ & _ & En & He & _ & _ & Hh). pose proof (wf_entry q1 Hw1 e He) as Hr. cbn in Hr. split.
    + intros _. split_and!; try done. apply Hgone; [done | lia |]. intros x Hx%Hh Es. destruct Hx as [Hx Hne]. apply Hne.
      apply (wf_unique q1 Hw1); done.
    + intros _ Hno. exfalso. by apply (Hno e He).
  - destruct Hc as [-> _]. split; [done |]. intros Hle Hno. by apply Hgone.
Qed.

(** *** What is pending *)
Lemma contains_set m s k : zlen (SignalMask.words m) = 2 -> 1 <= s <= 128 ->
  zlen (SignalMask.words (SignalMask.set m s true)) = 2 /\
  SignalMask.contains (SignalMask.set m s true) k = (k =? s) || SignalMask.contains m k.
Proof.
  intros Hl Hs. unfold SignalMask.set. cmp. cbn [SignalMask.words]. split; [by rewrite zlen_aset |]. unfold SignalMask.contains.
  cbn [SignalMask.words]. destruct (decide (1 <= k <= 128)) as [Hk |].
  2: { destruct (Z.leb_spec 1 k), (Z.leb_spec k 128); cbn [andb]; try lia; by cmp. }
  cmp. pose proof (Z.mod_pos_bound (s - 1) 64 ltac:(lia)). pose proof (Z.mod_pos_bound (k - 1) 64 ltac:(lia)).
  assert (0 <= (s - 1) / 64 < 2) by (split; [apply Z.div_pos | apply Z.div_lt_upper_bound]; lia).
  assert (0 <= (k - 1) / 64) by (apply Z.div_pos; lia).
  rewrite !land_bit_testbit by lia. destruct (Z.eq_dec ((s - 1) / 64) ((k - 1) / 64)) as [E | E].
  - rewrite <- E, aget_aset_eq, Z.lor_spec, testbit_bit64, orb_comm by lia. f_equal.
    destruct (Z.eqb_spec k s) as [-> | Hne]; [apply Z.eqb_refl |]. apply Z.eqb_neq. intros Em. apply Hne.
    pose proof (Z.div_mod (s - 1) 64 ltac:(lia)). pose proof (Z.div_mod (k - 1) 64 ltac:(lia)). lia.
  - rewrite aget_aset_ne by lia. destruct (Z.eqb_spec k s) as [-> |]; done.
Qed.

Lemma add_realtime_spec n i l m k : zlen (SignalMask.words m) = 2 -> (forall j, i <= j < i + Z.of_nat n -> 1 <= sig l.[j] <= 128) ->
  SignalMask.contains (add_realtime n i l m) k = true <->
  SignalMask.contains m k = true \/ exists j, i <= j < i + Z.of_nat n /\ sig l.[j] = k.
Proof.
  revert i m. induction n as [| n IH]; intros i m Hl Hj; cbn [add_realtime].
  { split; [by left | intros [| (j & ? & _)]; [done | lia]]. }
  destruct (contains_set m (sig l.[i]) k Hl (Hj i ltac:(lia))) as [Hl' Hc].
  rewrite IH, Hc, orb_true_iff, Z.eqb_eq; [| done | intros j Hjr; apply Hj; lia]. split.
  - intros [[-> | ?] | (j & ? & <-)]; [right; exists i; split; [lia | done] | by left | right; exists j; split; [lia | done]].
  - intros [? | (j & ? & <-)]; [by left; right |]. destruct (Z.eq_dec j i) as [-> |]; [by left; left | right; exists j; split; [lia | done]].
Qed.

Lemma pending_mask_exact q s : wf q ->
  SignalMask.contains (pending_mask q) s = true <-> exists e, has q e /\ sig e = s.
Proof.
  intros Hw. pose proof (wf_count q Hw). destruct (wf_mask q Hw) as [w Hm]. unfold pending_mask. rewrite add_realtime_spec.
  - split.
    + intros [Hc | (j & Hj & <-)].
      * assert (1 <= s < 32) as Hs by (pose proof Hc as Hc'; rewrite (contains_normal _ _ _ Hm) in Hc'; b2p; lia).
        exists (normal_ q).[s - 1]. split; [left; by exists s | by apply Hw].
      * exists (realtime_ q).[j]. split; [right; exists j; split; [lia | done] | done].
    + intros (e & [(k & Hk & Hp & <-) | (i & Hi & <-)] & <-); [left; by rewrite (wf_normal_signal q Hw) |].
      right. exists i. split; [lia | done].
  - by rewrite (proj1 Hm).
  - intros j Hj. pose proof (wf_realtime_signal q Hw j ltac:(lia)). lia.
Qed.

(** Sending a signal either queues exactly one new record, with the payload
    unchanged and a number above every earlier one, which pending_mask() then
    shows, or leaves the queue as it was: coalesced when the standard signal is
    already pending, full when the real-time storage or the numbers are used
    up, invalid when the queue has no owner or the number is out of range. *)
Theorem enqueue_checked_spec q info : wf q -> 0 <= PendingSignalInfo.signal info ->
  let '(q', r) := enqueue_checked q info in
  let s := PendingSignalInfo.signal info in
  let e := Entry.mk (next_sequence_ q + 1) info in
  match r with
  | Enqueue.queued => wf q' /\ (forall x, has q' x <-> has q x \/ x = e) /\ (forall x, has q x -> seq x < seq e) /\
      (forall k, SignalMask.contains (pending_mask q') k = true <-> SignalMask.contains (pending_mask q) k = true \/ k = s)
  | Enqueue.coalesced => q' = q /\ s < 32 /\ SignalMask.contains (pending_mask q) s = true
  | Enqueue.full => q' = q /\ (32 <= s /\ realtime_size q = RealtimeCapacity \/ next_sequence_ q = MaximumSequence)
  | Enqueue.invalid => q' = q /\ (Identity.process (identity q) = 0 \/ s = 0 \/ MaximumSignal < s)
  end.
Proof.
  intros Hw Hs. pose proof (enqueue_checked_cases q info Hw Hs) as Hc. pose proof (wf_normal_signal q Hw (PendingSignalInfo.signal info)) as Hns.
  unfold PendingSignals.enqueue_checked in *. destruct (_ || _) eqn:E0.
  { split; [done |]. unfold truth, PendingSignalInfo.truth in E0. b2p. destruct E0 as [[E | E]%orb_true_iff | E]; b2p; auto. }
  unfold truth, PendingSignalInfo.truth in E0. b2p. destruct (_ && _) eqn:E1; b2p.
  { split_and!; try done. apply pending_mask_exact; [done |]. exists (normal_ q).[PendingSignalInfo.signal info - 1].
    split; [left; exists (PendingSignalInfo.signal info); split; [lia | done] | apply Hns; [lia | done]]. }
  destruct (_ || _) eqn:E2; [split; [done |]; b2p; destruct E2; b2p; auto; left; lia |].
  set (r := if _ <? 32 then _ else _) in *. assert (snd r = Enqueue.queued) as Er by (unfold r; by destruct (_ <? 32)).
  destruct r as [q' r']. cbn in Er. subst r'. destruct Hc as (Hw' & _ & _ & _ & _ & Hh). split_and!; try done.
  - intros x Hx. pose proof (wf_entry q Hw x Hx). cbn. lia.
  - intros k. rewrite !pending_mask_exact by done. split.
    + intros (x & [Hx | ->]%Hh & <-); [left; by exists x | by right].
    + intros [(x & Hx & <-) | ->]; [exists x | eexists]; (split; [apply Hh |]); [by left | done | by right | done].
Qed.
End Queue.
End SignalProofs.

(** ** Dispositions *)

(** After exec no handler of the old program remains: a signal is ignored if it
    was ignored (unless defaults are forced) and has the default action
    otherwise, with no flags, restorer or mask. *)
Lemma reset_for_exec_spec s force i : zlen (SignalActionTable.actions_ s) = SignalActionTable.capacity ->
  0 <= i < SignalActionTable.capacity ->
  let a := (SignalActionTable.actions_ s).[i] in
  (SignalActionTable.actions_ (SignalActionTable.reset_for_exec s force)).[i] =
    SignalAction.mk (if force then 0 else if SignalAction.handler a =? 1 then 1 else 0) 0 0 SignalMask.new.
Proof.
  intros Hl Hi. cbn. change (map ?f ?l) with (f <$> l). rewrite aget_fmap by lia. unfold SignalActionTable.reset_action, SignalAction.ignored_handler.
  destruct force; cbn [negb andb]; [done |]. by destruct (_ =? 1).
Qed.

(** The trusted completion of a child is never refused as malformed. *)
Lemma child_exit_valid status pid uid maximum : maximum = 64 \/ maximum = 128 -> 0 < pid <= 2147483647 ->
  let c := ChildExitStatus.normal status in
  ChildExitStatus.valid c maximum = true /\
  PendingSignalInfo.valid (PendingSignalInfo.mk (if maximum =? 128 then 18 else 17) (ChildExitStatus.code c) pid uid
    (ChildExitStatus.status c) 0 0 0) maximum = true.
Proof.
  intros Hm Hp. assert (0 <= Z.land (u32_wrap status) 255 < 256) as Hb.
  { change 255 with (Z.ones 8). rewrite Z.land_ones by lia. apply Z.mod_pos_bound. lia. }
  cbn zeta. unfold ChildExitStatus.valid, ChildExitStatus.normal, ChildExitStatus.code, ChildExitStatus.status, PendingSignalInfo.valid,
    PendingSignalInfo.truth, PendingSignalInfo.timer_code.
  destruct Hm as [-> | ->]; cbn -[Z.land u32_wrap Z.ltb Z.leb]; cmp; done.
Qed.

(** ** Witnesses *)
Section SignalWitnesses.
Import PendingSignals SignalProofs.

(** A queue of 64 signals with four real-time records, and what is sent to it. *)
Definition sample_identity : Identity.t := Identity.mk 1 1 1.
Definition plain (signal : Z) : PendingSignalInfo.t := PendingSignalInfo.mk signal 0 5 0 0 0 0 0.
Definition sent : list sig_op := [Reset sample_identity; Send (plain 40); Send (plain 15); Send (plain 11)].
Definition sample_queue : PendingSignals.t := fold_left (sig_exec 64 4 100) sent (new 4 77).

Lemma sample_queue_wf : wf 64 4 100 sample_queue.
Proof.
  refine (st_wf _ _ _ _ _ (sig_run_step 64 4 100 ltac:(by left) ltac:(lia) _ sent _ ltac:(by concrete))).
  apply empty_wf; lia.
Qed.

(** The synchronous signal 11 goes first, and once. *)
Lemma peek_witness :
  exists d, peek 64 sample_queue SignalMask.new = Some d /\ PendingSignalInfo.signal (Delivery.info d) = 11 /\
    snd (consume 64 sample_queue d) = true.
Proof.
  pose proof (peek_delivers_first 64 4 100 ltac:(by left) ltac:(lia) sample_queue SignalMask.new sample_queue_wf) as Hp.
  assert (exists d, peek 64 sample_queue SignalMask.new = Some d /\ PendingSignalInfo.signal (Delivery.info d) = 11) as (d & E & Hs)
    by (eexists; split; vm_compute; reflexivity).
  rewrite E in Hp. destruct Hp as (e & _ & _ & _ & _ & Hc). exists d. split_and!; [done | exact Hs |].
  destruct (consume 64 sample_queue d) as [q' consumed]. exact (proj1 Hc).
Defined.

Lemma once_witness :
  exists d, peek 64 sample_queue SignalMask.new = Some d /\ snd (consume 64 sample_queue d) = true /\
    snd (consume 64 (fold_left (sig_exec 64 4 100) [Send (plain 11)] (fst (consume 64 sample_queue d))) d) = false.
Proof.
  assert (exists d, peek 64 sample_queue SignalMask.new = Some d /\ snd (consume 64 sample_queue d) = true) as (d & Hd & Hc)
    by (eexists; split; [vm_compute; reflexivity | vm_compute; reflexivity]).
  pose proof (ticket_consumed_at_most_once 64 4 100 ltac:(by left) ltac:(lia) ltac:(lia) 77 sent d [Send (plain 11)]
    ltac:(by concrete) ltac:(by concrete)) as Ho. cbv zeta in Ho. fold sample_queue in Ho.
  exists d. split_and!; [done | exact Hc |].
  destruct (consume 64 sample_queue d) as [q2 consumed]. cbn [snd fst] in *. subst consumed. apply (proj1 Ho eq_refl).
Defined.

Lemma enqueue_witness :
  let '(q', r) := enqueue_checked 64 4 100 sample_queue (plain 41) in
  r = Enqueue.queued /\ SignalMask.contains (pending_mask q') 41 = true.
Proof.
  pose proof (enqueue_checked_spec 64 4 100 ltac:(by left) sample_queue (plain 41) sample_queue_wf ltac:(by concrete)) as He.
  assert (snd (enqueue_checked 64 4 100 sample_queue (plain 41)) = Enqueue.queued) as Hr by (vm_compute; reflexivity).
  destruct (enqueue_checked 64 4 100 sample_queue (plain 41)) as [q' r]. cbn [snd] in Hr. subst r.
  destruct He as (_ & _ & _ & Hm). split; [done | apply Hm; by right].
Defined.
End SignalWitnesses.
