(* ===== verification/Slab.v ===== *)
(** * Kernel objects (include/ok/memory/slab.hpp, src/memory/slab.cpp)

    The size-class allocator over the frame allocator: slab pages with an
    in-page header and a slot bitmap, linked per class, and large objects in
    contiguous frames.  The pointed-to memory is part of the state: headers by
    page address, and the other bytes of RAM.  A dereference of an empty
    [Result] or of a null descriptor is [None]. *)

From S2P Require Import Prelude Charges Regions Sweep Frames.

Module AllocationContext.
Inductive t := boot | kernel | atomic.
(** [static_cast<usize>(context)]. *)
Definition index (c : t) : Z := match c with boot => 0 | kernel => 1 | atomic => 2 end.
Definition is_atomic (c : t) : bool := match c with atomic => true | _ => false end.
End AllocationContext.

Definition slab_page_size : Z := 4096.
Definition header_bytes : Z := 64.
Definition bitmap_words : Z := 4.

Module SlabHeader.
Record t := mk { next : Z; previous : Z; free : Z; slots : Z; class_index : Z; bitmap : list Z }.
Definition with_next (h : t) (v : Z) : t := mk v (previous h) (free h) (slots h) (class_index h) (bitmap h).
Definition with_previous (h : t) (v : Z) : t := mk (next h) v (free h) (slots h) (class_index h) (bitmap h).
Definition with_slots (h : t) (f : Z) (b : list Z) : t := mk (next h) (previous h) f (slots h) (class_index h) b.
End SlabHeader.

(** What the allocator reaches through pointers. *)
Module World.
Record t := mk {
  frames : FrameAllocator.t;
  headers : Z -> SlabHeader.t;   (* header(page) *)
  ram : Z -> Z                   (* the bytes outside the headers *)
}.
Definition with_frames (w : t) (a : FrameAllocator.t) : t := mk a (headers w) (ram w).
Definition with_headers (w : t) (h : Z -> SlabHeader.t) : t := mk (frames w) h (ram w).
Definition with_ram (w : t) (r : Z -> Z) : t := mk (frames w) (headers w) r.
End World.

Definition set_header (h : Z -> SlabHeader.t) (page : Z) (v : SlabHeader.t) : Z -> SlabHeader.t :=
  fun x => if x =? page then v else h x.

Module SlabAllocator.

Definition size_classes : list Z := [16; 32; 64; 128; 256; 512; 1024].
Definition large_threshold : Z := 1024.

Definition first_offset (index : Z) : Z :=
  let size := size_classes.[index] in if header_bytes <? size then size else header_bytes.
Definition slots_for (index : Z) : Z := (slab_page_size - first_offset index) / size_classes.[index].
Definition pages_for (size : Z) : Z := size / slab_page_size + (if size mod slab_page_size =? 0 then 0 else 1).

(** [zero(address, size)]. *)
Definition zero (ram : Z -> Z) (address size : Z) : Z -> Z :=
  fun x => if (address <=? x) && (x <? address + size) then 0 else ram x.

Module Class.
Record t := mk { partial : Z; pages : Z; live : Z }.
Definition none : t := mk 0 0 0.
#[global] Instance inhabited : Inhabited t := populate none.
End Class.

Section Defs.
Context `{Arch}.

Record t := mk {
  frames_ : bool;                  (* frames_ != nullptr *)
  reserve_ : Z;
  pages_ : ChargeAccount.t;
  classes_ : list Class.t;         (* std::array<Class, 7> *)
  large_allocations_ : Z;
  large_pages_ : Z;
  allocations_ : list Z;           (* std::array<u64, 3> *)
  releases_ : Z;
  failures_ : Z
}.
Definition new : t := mk false 0 (ChargeAccount.new 0) (replicate 7 Class.none) 0 0 (replicate 3 0) 0 0.

Definition with_account (s : t) (p : ChargeAccount.t) : t :=
  mk (frames_ s) (reserve_ s) p (classes_ s) (large_allocations_ s) (large_pages_ s) (allocations_ s) (releases_ s) (failures_ s).
Definition with_class (s : t) (i : Z) (c : Class.t) : t :=
  mk (frames_ s) (reserve_ s) (pages_ s) (classes_ s).[i := c] (large_allocations_ s) (large_pages_ s) (allocations_ s)
     (releases_ s) (failures_ s).
Definition with_large (s : t) (n p : Z) : t :=
  mk (frames_ s) (reserve_ s) (pages_ s) (classes_ s) n p (allocations_ s) (releases_ s) (failures_ s).
Definition count_allocation (s : t) (context : AllocationContext.t) : t :=
  let k := AllocationContext.index context in
  mk (frames_ s) (reserve_ s) (pages_ s) (classes_ s) (large_allocations_ s) (large_pages_ s)
     (allocations_ s).[k := u64_wrap ((allocations_ s).[k] + 1)] (releases_ s) (failures_ s).
Definition count_release (s : t) : t :=
  mk (frames_ s) (reserve_ s) (pages_ s) (classes_ s) (large_allocations_ s) (large_pages_ s) (allocations_ s)
     (u64_wrap (releases_ s + 1)) (failures_ s).
Definition count_failure (s : t) : t :=
  mk (frames_ s) (reserve_ s) (pages_ s) (classes_ s) (large_allocations_ s) (large_pages_ s) (allocations_ s)
     (releases_ s) (u64_wrap (failures_ s + 1)).
Definition with_partial (s : t) (i p : Z) : t :=
  let c := (classes_ s).[i] in with_class s i (Class.mk p (Class.pages c) (Class.live c)).
Definition add_pages (s : t) (i n : Z) : t :=
  let c := (classes_ s).[i] in with_class s i (Class.mk (Class.partial c) (Class.pages c + n) (Class.live c)).
Definition add_live (s : t) (i n : Z) : t :=
  let c := (classes_ s).[i] in with_class s i (Class.mk (Class.partial c) (Class.pages c) (Class.live c + n)).

Definition initialize (s : t) (frames : FrameAllocator.t) (page_limit reserve_frames : Z) : t * Status :=
  if frames_ s then (s, StatusCode.already_exists)
  else if negb (FrameAllocator.initialized frames) || negb (FrameAllocator.page_size frames =? slab_page_size)
  then (s, StatusCode.invalid_argument)
  else if FrameAllocator.total_frames frames <=? reserve_frames then (s, StatusCode.invalid_argument)
  else
    let '(p, status) := ChargeAccount.set_limit (pages_ s) page_limit in
    if negb (status_ok status) then (s, status)
    else (mk true reserve_frames p (classes_ s) (large_allocations_ s) (large_pages_ s) (allocations_ s) (releases_ s)
             (failures_ s), StatusCode.ok).

(** class_index(): the loop over the classes from [i] on. *)
Fixpoint class_search (classes : list Z) (i size : Z) : Z :=
  match classes with
  | [] => i
  | c :: rest => if size <=? c then i else class_search rest (i + 1) size
  end.
Definition class_index (size : Z) : Z := class_search size_classes 0 size.

Definition charge_for (size : Z) : Z :=
  if size =? 0 then 0
  else
    let index := class_index size in
    if index <? zlen size_classes then size_classes.[index]
    else
      let pages := pages_for size in
      if usize_max / slab_page_size <? pages then 0 else pages * slab_page_size.

Definition reserve_frames_for (s : t) (w : World.t) (count : Z) (context : AllocationContext.t) : Status :=
  let free := FrameAllocator.free_frames (World.frames w) in
  if free <? count then StatusCode.no_memory
  else if negb (AllocationContext.is_atomic context) && (free - count <? reserve_ s) then StatusCode.no_memory
  else StatusCode.ok.

Definition push (s : t) (w : World.t) (index page : Z) : t * World.t :=
  let h := World.headers w in
  let next := Class.partial (classes_ s).[index] in
  let h := set_header h page (SlabHeader.with_next (SlabHeader.with_previous (h page) 0) next) in
  let h := if negb (next =? 0) then set_header h next (SlabHeader.with_previous (h next) page) else h in
  (with_partial s index page, World.with_headers w h).

Definition unlink (s : t) (w : World.t) (index page : Z) : t * World.t :=
  let h := World.headers w in
  let previous := SlabHeader.previous (h page) in
  let '(s, h) :=
    if negb (previous =? 0)
    then (s, set_header h previous (SlabHeader.with_next (h previous) (SlabHeader.next (h page))))
    else (with_partial s index (SlabHeader.next (h page)), h) in
  let next := SlabHeader.next (h page) in
  let h := if negb (next =? 0)
           then set_header h next (SlabHeader.with_previous (h next) (SlabHeader.previous (h page))) else h in
  (s, World.with_headers w (set_header h page (SlabHeader.with_next (SlabHeader.with_previous (h page) 0) 0))).

(** The fields of a descriptor an owner writes. *)
Definition describe (d : PageDescriptor.t) (kind flags : Z) : PageDescriptor.t :=
  PageDescriptor.mk (PageDescriptor.generation d) (PageDescriptor.references d) (PageDescriptor.pins d) kind flags.
Definition refer (d : PageDescriptor.t) (references : Z) : PageDescriptor.t :=
  PageDescriptor.mk (PageDescriptor.generation d) references (PageDescriptor.pins d) (PageDescriptor.kind d) (PageDescriptor.flags d).

Definition new_page (s : t) (w : World.t) (index : Z) (context : AllocationContext.t) : option (t * World.t * result Z) :=
  let status := reserve_frames_for s w 1 context in
  if negb (status_ok status) then Some (s, w, Err status)
  else
    let '(a, account, frame) := FrameAllocator.allocate_charged (World.frames w) (pages_ s) in
    let s := with_account s account in
    match frame with
    | Err e => Some (s, World.with_frames w a, Err e)
    | Ok frame =>
        d ← FrameAllocator.descriptor a frame;
        let a := FrameAllocator.write_descriptor a frame (describe d PageKind.kernel_slab (u8_wrap index)) in
        let page := PhysicalFrame.address frame in
        let slots := u16_wrap (slots_for index) in
        let slab := SlabHeader.mk 0 0 slots slots (u16_wrap index) (replicate (Z.to_nat bitmap_words) 0) in
        let w := World.mk a (set_header (World.headers w) page slab) (zero (World.ram w) page slab_page_size) in
        let '(s, w) := push s w index page in
        Some (add_pages s index 1, w, Ok page)
    end.

Definition owned_page (w : World.t) (address kind : Z) : result PhysicalFrame.t :=
  let a := World.frames w in
  match FrameAllocator.index_of a address with
  | Err _ => Err StatusCode.invalid_argument
  | Ok index =>
      match FrameAllocator.handle_at a index with
      | Err _ => Err StatusCode.invalid_argument
      | Ok frame =>
          match FrameAllocator.descriptor a frame with
          | Some d => if PageDescriptor.kind d =? kind then Ok frame else Err StatusCode.invalid_argument
          | None => Err StatusCode.invalid_argument
          end
      end
  end.

(** [value()] of a Result. *)
Definition value {A} (r : result A) : option A := match r with Ok v => Some v | Err _ => None end.

(** The scan for the first clear bit, from [slot] on. *)
Definition slot_set (slab : SlabHeader.t) (slot : Z) : bool :=
  negb (Z.land (SlabHeader.bitmap slab).[slot / 64] (bit64 (slot mod 64)) =? 0).
Fixpoint find_slot (n : nat) (slot : Z) (slab : SlabHeader.t) : option Z :=
  match n with
  | O => None
  | S n' => if slot_set slab slot then find_slot n' (slot + 1) slab else Some slot
  end.

Definition result4 : Type := t * World.t * ChargeAccount.t * result Z.

(** Takes [slot] of [page]: the body of the loop in allocate(). *)
Definition take_slot (s : t) (w : World.t) (owner : ChargeAccount.t) (index page slot : Z) : option result4 :=
  let slab := World.headers w page in
  let object_size := size_classes.[index] in
  let word := (SlabHeader.bitmap slab).[slot / 64] in
  let free := u32_wrap (SlabHeader.free slab - 1) in
  let slab := SlabHeader.with_slots slab free (SlabHeader.bitmap slab).[slot / 64 := Z.lor word (bit64 (slot mod 64))] in
  let w := World.with_headers w (set_header (World.headers w) page slab) in
  let '(s, w) := if free =? 0 then unlink s w index page else (s, w) in
  let a := World.frames w in
  at_ ← value (FrameAllocator.index_of a page);
  frame ← value (FrameAllocator.handle_at a at_);
  d ← FrameAllocator.descriptor a frame;
  let a := FrameAllocator.write_descriptor a frame (refer d (u32_wrap (PageDescriptor.references d + 1))) in
  let object := page + first_offset index + slot * object_size in
  Some (add_live s index 1, World.mk a (World.headers w) (zero (World.ram w) object object_size), owner, Ok object).

(** [for (i = 0; i < count; ++i)] of allocate_large(), from [i] on. *)
Fixpoint mark_run (n : nat) (a : FrameAllocator.t) (first i : Z) : option FrameAllocator.t :=
  match n with
  | O => Some a
  | S n' =>
      frame ← value (FrameAllocator.handle_at a (first + i));
      d ← FrameAllocator.descriptor a frame;
      mark_run n' (FrameAllocator.write_descriptor a frame (describe d PageKind.kernel_large (if i =? 0 then 1 else 0))) first (i + 1)
  end.

Definition allocate_large (s : t) (w : World.t) (size : Z) (owner : ChargeAccount.t) (context : AllocationContext.t)
    : option result4 :=
  let bytes := charge_for size in
  if bytes =? 0 then Some (s, w, owner, Err StatusCode.overflow)
  else
    let count := bytes / slab_page_size in
    if u32_max <? count then Some (s, w, owner, Err StatusCode.overflow)
    else
      let status := reserve_frames_for s w count context in
      if negb (status_ok status) then Some (s, w, owner, Err status)
      else
        let '(owner, status) := ChargeAccount.charge owner bytes in
        if negb (status_ok status) then Some (s, w, owner, Err status)
        else
          let '(a, account, first) := FrameAllocator.allocate_contiguous (World.frames w) count (pages_ s) 0 in
          let s := with_account s account in
          match first with
          | Err e => Some (s, World.with_frames w a, fst (ChargeAccount.uncharge owner bytes), Err e)
          | Ok first =>
              a ← mark_run (Z.to_nat count) a (PhysicalFrame.index first) 0;
              d ← FrameAllocator.descriptor a first;
              let a := FrameAllocator.write_descriptor a first (refer d (u32_wrap count)) in
              let w := World.mk a (World.headers w) (zero (World.ram w) (PhysicalFrame.address first) bytes) in
              Some (with_large s (large_allocations_ s + 1) (large_pages_ s + count), w, owner, Ok (PhysicalFrame.address first))
          end.

(** The lambda of allocate(). *)
Definition allocate_object (s : t) (w : World.t) (size : Z) (owner : ChargeAccount.t) (context : AllocationContext.t)
    : option result4 :=
  if negb (frames_ s) then Some (s, w, owner, Err StatusCode.not_initialized)
  else if size =? 0 then Some (s, w, owner, Err StatusCode.invalid_argument)
  else if large_threshold <? size then allocate_large s w size owner context
  else
    let index := class_index size in
    let object_size := size_classes.[index] in
    let '(owner, status) := ChargeAccount.charge owner object_size in
    if negb (status_ok status) then Some (s, w, owner, Err status)
    else
      let page := Class.partial (classes_ s).[index] in
      created ← (if page =? 0 then new_page s w index context else Some (s, w, Ok page));
      let '(s, w, created) := created in
      match created with
      | Err e => Some (s, w, fst (ChargeAccount.uncharge owner object_size), Err e)
      | Ok page =>
          match find_slot (Z.to_nat (SlabHeader.slots (World.headers w page))) 0 (World.headers w page) with
          | Some slot => take_slot s w owner index page slot
          | None => Some (s, w, fst (ChargeAccount.uncharge owner object_size), Err StatusCode.fault)
          end
      end.

Definition allocate (s : t) (w : World.t) (size : Z) (owner : ChargeAccount.t) (context : AllocationContext.t)
    : option result4 :=
  result ← allocate_object s w size owner context;
  let '(s, w, owner, r) := result in
  Some (if result_ok r then count_allocation s context else count_failure s, w, owner, r).

Definition release_large (s : t) (w : World.t) (object size : Z) (owner : ChargeAccount.t)
    : option (t * World.t * ChargeAccount.t * Status) :=
  let bytes := charge_for size in
  match owned_page w object PageKind.kernel_large with
  | Err e => Some (s, w, owner, e)
  | Ok first =>
      d ← FrameAllocator.descriptor (World.frames w) first;
      if (bytes =? 0) || negb (PageDescriptor.flags d =? 1) || negb (PageDescriptor.references d =? bytes / slab_page_size)
      then Some (s, w, owner, StatusCode.invalid_argument)
      else if ChargeAccount.used owner <? bytes then Some (s, w, owner, StatusCode.invalid_argument)
      else
        let count := PageDescriptor.references d in
        let '(a, account, status) := FrameAllocator.release_contiguous (World.frames w) first count (pages_ s) in
        let s := with_account s account in
        let w := World.with_frames w a in
        if negb (status_ok status) then Some (s, w, owner, status)
        else Some (count_release (with_large s (large_allocations_ s - 1) (large_pages_ s - count)), w,
                   fst (ChargeAccount.uncharge owner bytes), StatusCode.ok)
  end.

(** The end of release(): an empty page that is not its class's only partial
    page goes back to the frame allocator. *)
Definition reclaim (s : t) (w : World.t) (index page : Z) (frame : PhysicalFrame.t) : t * World.t * Status :=
  let slab := World.headers w page in
  if (SlabHeader.free slab =? SlabHeader.slots slab) &&
     (negb (Class.partial (classes_ s).[index] =? page) || negb (SlabHeader.next slab =? 0))
  then
    let '(s, w) := unlink s w index page in
    let '(a, account, status) := FrameAllocator.release_charged (World.frames w) frame (pages_ s) in
    let s := with_account s account in
    let w := World.with_frames w a in
    if negb (status_ok status) then let '(s, w) := push s w index page in (s, w, status)
    else (add_pages s index (-1), w, StatusCode.ok)
  else (s, w, StatusCode.ok).

Definition release (s : t) (w : World.t) (object size : Z) (owner : ChargeAccount.t)
    : option (t * World.t * ChargeAccount.t * Status) :=
  if negb (frames_ s) then Some (s, w, owner, StatusCode.not_initialized)
  else if (object =? 0) || (size =? 0) then Some (s, w, owner, StatusCode.invalid_argument)
  else if large_threshold <? size then release_large s w object size owner
  else
    let index := class_index size in
    let object_size := size_classes.[index] in
    let page := Z.land object (usize_not (slab_page_size - 1)) in
    match owned_page w page PageKind.kernel_slab with
    | Err e => Some (s, w, owner, e)
    | Ok frame =>
        d ← FrameAllocator.descriptor (World.frames w) frame;
        if negb (PageDescriptor.flags d =? index) then Some (s, w, owner, StatusCode.invalid_argument)
        else
          let slab := World.headers w page in
          let offset := object - page in
          if (offset <? first_offset index) || negb ((offset - first_offset index) mod object_size =? 0)
          then Some (s, w, owner, StatusCode.invalid_argument)
          else
            let slot := (offset - first_offset index) / object_size in
            if (SlabHeader.slots slab <=? slot) || negb (slot_set slab slot)
            then Some (s, w, owner, StatusCode.invalid_argument)
            else if ChargeAccount.used owner <? object_size then Some (s, w, owner, StatusCode.invalid_argument)
            else
              let word := (SlabHeader.bitmap slab).[slot / 64] in
              let bitmap := (SlabHeader.bitmap slab).[slot / 64 := Z.land word (u64_not (bit64 (slot mod 64)))] in
              let slab' := SlabHeader.with_slots slab (u32_wrap (SlabHeader.free slab + 1)) bitmap in
              let w := World.with_headers w (set_header (World.headers w) page slab') in
              let '(s, w) := if SlabHeader.free slab =? 0 then push s w index page else (s, w) in
              let a := FrameAllocator.write_descriptor (World.frames w) frame (refer d (u32_wrap (PageDescriptor.references d - 1))) in
              let w := World.with_frames w a in
              let s := count_release (add_live s index (-1)) in
              let owner := fst (ChargeAccount.uncharge owner object_size) in
              let '(s, w, status) := reclaim s w index page frame in
              Some (s, w, owner, status)
    end.

Definition initialized (s : t) : bool := frames_ s.
Definition reserve_frames (s : t) : Z := reserve_ s.
Definition page_account (s : t) : ChargeAccount.t := pages_ s.
End Defs.

(** SlabClassAccounting and SlabAccounting. *)
Module ClassAccounting.
Record t := mk { object_size : Z; slots_per_page : Z; pages : Z; live_objects : Z }.
End ClassAccounting.
Record Accounting := mk_accounting {
  classes : list ClassAccounting.t; large_allocations : Z; large_pages : Z; pages : Z; peak_pages : Z;
  allocations : list Z; releases : Z; failures : Z
}.
Definition accounting (s : t) : Accounting :=
  mk_accounting
    (map (fun i => ClassAccounting.mk size_classes.[i] (slots_for i) (Class.pages (classes_ s).[i]) (Class.live (classes_ s).[i]))
         (indices (zlen size_classes)))
    (large_allocations_ s) (large_pages_ s) (ChargeAccount.used (pages_ s)) (ChargeAccount.peak (pages_ s))
    (allocations_ s) (releases_ s) (failures_ s).
End SlabAllocator.
