(* ===== verification/SlabInv.v ===== *)
(** * Slab pages: slot bitmaps, page lists and the allocator's invariant

    What the in-page structures mean: the slots a header marks as taken, the
    doubly linked list of a class, and [wf], which ties them to the frame
    descriptors and the counters. *)

From S2P Require Import Prelude Charges Regions Sweep Frames FrameSearch FrameSpec FrameAlloc Slab.
Import SlabAllocator.

(** ** Slots *)
Section Slots.
Implicit Types h : SlabHeader.t.

Definition taken_unit h (k : Z) : Z := if slot_set h k then 1 else 0.
Definition taken_slots h : Z := zsum (taken_unit h) (indices (SlabHeader.slots h)).

(** A header of class [c] whose count of free slots matches its bitmap. *)
Record header_ok (c : Z) h : Prop := {
  hd_slots : SlabHeader.slots h = slots_for c;
  hd_bitmap : zlen (SlabHeader.bitmap h) = bitmap_words;
  hd_words : Forall (fun w => 0 <= w < 2 ^ 64) (SlabHeader.bitmap h);
  hd_free : SlabHeader.free h = SlabHeader.slots h - taken_slots h
}.

Lemma class_cases c : 0 <= c < 7 -> c = 0 \/ c = 1 \/ c = 2 \/ c = 3 \/ c = 4 \/ c = 5 \/ c = 6.
Proof. lia. Qed.

Lemma class_facts c : 0 <= c < 7 ->
  16 <= size_classes.[c] <= 1024 /\ 2 <= slots_for c <= 252 /\ header_bytes <= first_offset c /\
  first_offset c + slots_for c * size_classes.[c] <= slab_page_size /\
  first_offset c mod size_classes.[c] = 0 /\ slab_page_size mod size_classes.[c] = 0.
Proof. intros Hc. destruct (class_cases c Hc) as [-> | [-> | [-> | [-> | [-> | [-> | ->]]]]]]; by vm_compute. Qed.

Lemma slot_word k : 0 <= k < 252 -> 0 <= k / 64 < 4 /\ 0 <= k mod 64 < 64.
Proof.
  intros Hk. split; [split; [apply Z.div_pos; lia | apply Z.div_lt_upper_bound; lia] | apply Z.mod_pos_bound; lia].
Qed.

Lemma slot_set_bit h k : 0 <= k < 252 -> slot_set h k = Z.testbit (SlabHeader.bitmap h).[k / 64] (k mod 64).
Proof. intros Hk. unfold slot_set. apply land_bit_testbit. apply slot_word, Hk. Qed.

(** The two ways a bitmap word is rewritten. *)
Definition mark_word (w k : Z) (b : bool) : Z := if b then Z.lor w (bit64 (k mod 64)) else Z.land w (u64_not (bit64 (k mod 64))).

Lemma mark_word_bit w k b i : 0 <= k -> 0 <= i < 64 ->
  Z.testbit (mark_word w k b) i = if i =? k mod 64 then b else Z.testbit w i.
Proof.
  intros Hk Hi. pose proof (Z.mod_pos_bound k 64 ltac:(lia)). unfold mark_word. destruct b.
  - rewrite Z.lor_spec, testbit_bit64 by lia. destruct (i =? k mod 64); [apply orb_true_r | apply orb_false_r].
  - rewrite Z.land_spec, testbit_u64_not, testbit_bit64 by lia. destruct (i =? k mod 64); [apply andb_false_r | apply andb_true_r].
Qed.

Lemma slot_set_mark h f k b j : zlen (SlabHeader.bitmap h) = bitmap_words -> 0 <= k < 252 -> 0 <= j < 252 ->
  slot_set (SlabHeader.with_slots h f (SlabHeader.bitmap h).[k / 64 := mark_word (SlabHeader.bitmap h).[k / 64] k b]) j =
    if j =? k then b else slot_set h j.
Proof.
  intros Hl Hk Hj. destruct (slot_word k Hk), (slot_word j Hj). unfold bitmap_words in Hl. rewrite !slot_set_bit by done. cbn [SlabHeader.with_slots SlabHeader.bitmap].
  pose proof (Z.div_mod k 64 ltac:(lia)). pose proof (Z.div_mod j 64 ltac:(lia)).
  destruct (Z.eq_dec (j / 64) (k / 64)) as [E | E].
  - rewrite E, aget_aset_eq, mark_word_bit by lia. destruct (Z.eqb_spec (j mod 64) (k mod 64)), (Z.eqb_spec j k); try done; lia.
  - rewrite aget_aset_ne by lia. destruct (Z.eqb_spec j k) as [-> |]; done.
Qed.

(** Marking one slot keeps a header consistent. *)
Lemma mark_slot_ok c h k b : 0 <= c < 7 -> header_ok c h -> 0 <= k < slots_for c -> slot_set h k = negb b ->
  let f := SlabHeader.free h + (if b then -1 else 1) in
  0 <= f <= slots_for c /\
  header_ok c (SlabHeader.with_slots h (u32_wrap f) (SlabHeader.bitmap h).[k / 64 := mark_word (SlabHeader.bitmap h).[k / 64] k b]).
Proof.
  intros Hc [Hs Hb Hw Hf] Hk Hset f. destruct (class_facts c Hc) as (_ & Hsl & _).
  set (h' := SlabHeader.with_slots _ _ _).
  assert (forall j, 0 <= j < slots_for c -> slot_set h' j = if j =? k then b else slot_set h j) as Hj.
  { intros j Hj. apply slot_set_mark; (done || lia). }
  assert (taken_slots h' = taken_slots h + (if b then 1 else -1)) as Ht.
  { unfold taken_slots. cbn [SlabHeader.slots h' SlabHeader.with_slots]. rewrite Hs.
    rewrite (zsum_indices_update (taken_unit h) (taken_unit h') _ k); [| done |].
    - unfold taken_unit. rewrite Hj, Hset, Z.eqb_refl by done. destruct b; cbn; lia.
    - intros j Hjr Hne. unfold taken_unit. rewrite Hj by done. by replace (j =? k) with false by lia. }
  assert (0 <= taken_slots h' <= slots_for c) as Hr.
  { unfold taken_slots. cbn [SlabHeader.slots h' SlabHeader.with_slots]. rewrite Hs.
    pose proof (zsum_bounds (taken_unit h') (indices (slots_for c))) as Hb'. rewrite zlen_indices in Hb' by lia.
    apply Hb'. intros x. unfold taken_unit. by destruct (slot_set h' x). }
  unfold f in *. clear f. assert (0 <= SlabHeader.free h + (if b then -1 else 1) <= slots_for c) as Hfr by (destruct b; lia).
  split; [done |]. split; cbn [SlabHeader.slots SlabHeader.free SlabHeader.bitmap h' SlabHeader.with_slots].
  - done.
  - by rewrite zlen_aset.
  - destruct (slot_word k ltac:(lia)) as [Hwd _]. apply Forall_insert; [done |]. unfold bitmap_words in Hb.
    assert (0 <= (SlabHeader.bitmap h).[k / 64] < 2 ^ 64) as Hv.
    { rewrite Forall_forall in Hw. apply Hw. apply list_elem_of_lookup. exists (Z.to_nat (k / 64)). apply lookup_aget. lia. }
    unfold mark_word. destruct b.
    + apply lor_bound; [lia | done |]. pose proof (Z.mod_pos_bound k 64 ltac:(lia)). rewrite bit64_pow by lia. split; [lia |]. apply Z.pow_lt_mono_r; lia.
    + apply land_bound; [lia | done |]. apply u64_not_bound.
  - fold h'. rewrite Ht. unfold u32_wrap. rewrite Z.mod_small by lia. destruct b; lia.
Qed.

Lemma find_slab_slot_spec n k h :
  match find_slot n k h with
  | Some j => k <= j < k + Z.of_nat n /\ slot_set h j = false
  | None => forall j, k <= j < k + Z.of_nat n -> slot_set h j = true
  end.
Proof.
  revert k. induction n as [| n IH]; intros k; cbn [find_slot]; [lia |]. destruct (slot_set h k) eqn:E; [| split; [lia | done]].
  specialize (IH (k + 1)). destruct (find_slot n (k + 1) h) as [j |]; [destruct IH; split; [lia | done] |].
  intros j Hj. destruct (Z.eq_dec j k) as [-> |]; [done | apply IH; lia].
Qed.

(** A page with a free slot has a clear bit. *)
Lemma find_slot_free c h : 0 <= c < 7 -> header_ok c h -> 0 < SlabHeader.free h ->
  exists k, find_slot (Z.to_nat (SlabHeader.slots h)) 0 h = Some k /\ 0 <= k < slots_for c /\ slot_set h k = false.
Proof.
  intros Hc [Hs Hb Hw Hf] Hpos. destruct (class_facts c Hc) as (_ & Hsl & _).
  pose proof (find_slab_slot_spec (Z.to_nat (SlabHeader.slots h)) 0 h) as Hfs. destruct (find_slot _ 0 h) as [k |].
  - exists k. split; [done |]. rewrite Hs in Hfs. split; [lia | apply Hfs].
  - exfalso. assert (taken_slots h = SlabHeader.slots h); [| lia]. unfold taken_slots.
    rewrite (zsum_ext _ (fun _ => 1) _ (indices (SlabHeader.slots h))); [| done |].
    + rewrite Hs in *. rewrite <- (zlen_indices (slots_for c)) at 2 by lia. generalize (indices (slots_for c)). clear.
      intros l. induction l as [| x l IH]; [done | rewrite zsum_cons, zlen_cons, IH; lia].
    + intros i Hi. rewrite zlen_indices in Hi by lia. rewrite aget_indices by done. unfold taken_unit. rewrite Hfs by lia. done.
Qed.
End Slots.

(** ** Lists of pages *)
Section Lists.
Implicit Types h : Z -> SlabHeader.t.

(** [l] is the list from [p] on, whose first page has [prev] before it. *)
Fixpoint dll h (prev p : Z) (l : list Z) : Prop :=
  match l with
  | [] => p = 0
  | x :: rest => p = x /\ x <> 0 /\ SlabHeader.previous (h x) = prev /\ dll h x (SlabHeader.next (h x)) rest
  end.

Definition same_links h h' x : Prop :=
  SlabHeader.next (h' x) = SlabHeader.next (h x) /\ SlabHeader.previous (h' x) = SlabHeader.previous (h x).

Lemma dll_ext h h' prev p l : (forall x, x ∈ l -> same_links h h' x) -> dll h prev p l -> dll h' prev p l.
Proof.
  revert prev p. induction l as [| x l IH]; intros prev p Hs; cbn; [done |]. intros (-> & Hx & Hp & Hl).
  destruct (Hs x ltac:(by left)) as [En Ep]. split_and!; [done | done | congruence |]. rewrite En. apply IH; [| done].
  intros y Hy. apply Hs. by right.
Qed.

Lemma dll_nonzero h prev p l x : dll h prev p l -> x ∈ l -> x <> 0.
Proof.
  revert prev p. induction l as [| y l IH]; intros prev p; cbn; [by intros _ ?%not_elem_of_nil |].
  intros (_ & Hy & _ & Hl) [-> | Hx]%elem_of_cons; [done | by eapply IH].
Qed.

Lemma dll_head h prev p l : dll h prev p l -> p = 0 /\ l = [] \/ p <> 0 /\ p ∈ l.
Proof. destruct l as [| x l]; cbn; [by left |]. intros (-> & Hx & _). right. split; [done | by left]. Qed.

Lemma dll_next h prev p l y : dll h prev p l -> y ∈ l ->
  SlabHeader.next (h y) = 0 \/
  (SlabHeader.next (h y) ∈ l /\ SlabHeader.previous (h (SlabHeader.next (h y))) = y).
Proof.
  revert prev p. induction l as [| x l IH]; intros prev p; cbn; [by intros _ ?%not_elem_of_nil |].
  intros (_ & _ & _ & Hl) [-> | Hy]%elem_of_cons.
  - destruct l as [| z l]; cbn in Hl; [by left |]. destruct Hl as (-> & _ & Hp & _). right. split; [right; by left | done].
  - destruct (IH _ _ Hl Hy) as [? | [? ?]]; [by left |]. right. split; [by right | done].
Qed.

Lemma dll_previous h prev p l y : dll h prev p l -> y ∈ l ->
  (y = p /\ SlabHeader.previous (h y) = prev) \/
  (SlabHeader.previous (h y) ∈ l /\ SlabHeader.next (h (SlabHeader.previous (h y))) = y).
Proof.
  revert prev p. induction l as [| x l IH]; intros prev p; cbn; [by intros _ ?%not_elem_of_nil |].
  intros (-> & _ & Hp & Hl) [-> | Hy]%elem_of_cons; [by left |]. right.
  destruct (IH _ _ Hl Hy) as [[-> ->] | [? ?]]; [split; [by left | done] | split; [by right | done]].
Qed.

Lemma dll_remove h h' x l1 l2 prev p : NoDup (l1 ++ x :: l2) -> dll h prev p (l1 ++ x :: l2) ->
  (forall y, y ∈ l1 -> SlabHeader.previous (h' y) = SlabHeader.previous (h y) /\
     SlabHeader.next (h' y) = if SlabHeader.next (h y) =? x then SlabHeader.next (h x) else SlabHeader.next (h y)) ->
  (forall y, y ∈ l2 -> SlabHeader.next (h' y) = SlabHeader.next (h y) /\
     SlabHeader.previous (h' y) = if SlabHeader.previous (h y) =? x then SlabHeader.previous (h x) else SlabHeader.previous (h y)) ->
  dll h' prev (if p =? x then SlabHeader.next (h x) else p) (l1 ++ l2).
Proof.
  revert prev p. induction l1 as [| y l1 IH]; intros prev p Hnd Hd H1 H2; cbn [app dll] in *.
  - destruct Hd as (-> & _ & Hp & Hl). rewrite Z.eqb_refl. destruct l2 as [| y l2]; [done |]. cbn in Hl |- *. destruct Hl as (-> & Hy & Hpy & Hl).
    destruct (H2 y ltac:(by left)) as [En Ep]. rewrite Hpy, Z.eqb_refl in Ep. split_and!; [done | done | congruence |]. rewrite En.
    apply (dll_ext h); [| done]. intros z Hz. destruct (H2 z ltac:(by right)) as [En' Ep']. split; [done |]. rewrite Ep'.
    apply NoDup_cons in Hnd as [Hx [Hy' _]%NoDup_cons].
    assert (SlabHeader.previous (h z) <> x) as Hne; [| by cmp].
    intros E. destruct (dll_previous _ _ _ _ _ Hl Hz) as [[_ E'] | [E' _]]; rewrite E in E'; [| apply Hx; by right].
    subst y. apply Hx. by left.
  - destruct Hd as (-> & Hy & Hp & Hl). apply NoDup_cons in Hnd as [Hny Hnd]. destruct (H1 y ltac:(by left)) as [Ep En].
    assert (y <> x) as Hne by (intros ->; apply Hny, elem_of_app; right; by left). replace (y =? x) with false by lia.
    split_and!; [done | done | congruence |]. rewrite En. apply IH; try done. intros z Hz. apply H1. by right.
Qed.

Lemma dll_after h x l1 l2 prev p : dll h prev p (l1 ++ x :: l2) ->
  dll h x (SlabHeader.next (h x)) l2 /\ (SlabHeader.previous (h x) = prev \/ SlabHeader.previous (h x) ∈ l1).
Proof.
  revert prev p. induction l1 as [| y l1 IH]; intros prev p; cbn [app dll].
  - intros (_ & _ & ? & ?). split; [done | by left].
  - intros (_ & _ & _ & Hl). destruct (IH _ _ Hl) as [? [-> | ?]]; (split; [done |]); right; [by left | by right].
Qed.

(** A header without its links. *)
Definition core (s : SlabHeader.t) := (SlabHeader.free s, SlabHeader.slots s, SlabHeader.class_index s, SlabHeader.bitmap s).

Lemma core_ok c s s' : core s' = core s -> header_ok c s -> header_ok c s'.
Proof.
  intros [= Ef Es _ Eb] [Hs Hb Hw Hf]. split; try congruence. unfold taken_slots. rewrite Ef, Es, Hf. unfold taken_slots.
  f_equal. apply zsum_ext; [done |]. intros i _. unfold taken_unit, slot_set. by rewrite Eb.
Qed.

Lemma core_slot s s' k : core s' = core s -> slot_set s' k = slot_set s k.
Proof. intros [= _ _ _ Eb]. unfold slot_set. by rewrite Eb. Qed.

#[local] Arguments set_header : simpl never.

Lemma set_header_other h a v x : x <> a -> set_header h a v x = h x.
Proof. intros. unfold set_header. by cmp. Qed.
Lemma set_header_same h a v : set_header h a v a = v.
Proof. unfold set_header. by rewrite Z.eqb_refl. Qed.

Context (s : SlabAllocator.t) (w : World.t) (c : Z).
Abbreviation h := (World.headers w).
Abbreviation partial s c := (Class.partial (classes_ s).[c]).

Lemma push_dll page l : dll h 0 (partial s c) l -> NoDup l -> page ∉ l -> page <> 0 ->
  let '(s', w') := push s w c page in
  s' = with_partial s c page /\ World.frames w' = World.frames w /\ World.ram w' = World.ram w /\
  dll (World.headers w') 0 page (page :: l) /\
  (forall y, core (World.headers w' y) = core (h y)) /\
  (forall y, y ∉ page :: l -> World.headers w' y = h y).
Proof.
  intros Hd Hnd Hni Hp. unfold push. cbn [World.headers World.with_headers World.frames World.ram].
  destruct (dll_head _ _ _ _ Hd) as [[E ->] | [Hne Hin]].
  - rewrite E. cbn [negb Z.eqb]. split_and!; try done.
    + cbn. rewrite set_header_same. cbn. done.
    + intros y. unfold set_header. destruct (Z.eqb_spec y page) as [-> |]; done.
    + intros y Hy. apply set_header_other. intros ->. apply Hy. by left.
  - set (q := partial s c) in *. replace (q =? 0) with false by lia. cbn [negb].
    assert (page <> q) as Hpq by (by intros ->). split_and!; try done.
    + cbn [dll]. rewrite set_header_other, set_header_same by done. cbn [SlabHeader.previous SlabHeader.next SlabHeader.with_next SlabHeader.with_previous].
      split_and!; try done. destruct l as [| x l]; [by apply not_elem_of_nil in Hin |]. cbn [dll] in Hd |- *. destruct Hd as (Eq & Hx & _ & Hl).
      unfold q in *. rewrite Eq in *. split; [done |]. split; [done |]. rewrite set_header_same. cbn. rewrite (set_header_other h) by done.
      split; [done |]. apply (dll_ext h); [| done]. intros y Hy. unfold same_links.
      assert (y <> page) by (intros ->; apply Hni; by right).
      assert (y <> x) by (intros ->; by apply NoDup_cons in Hnd as [? _]). by rewrite !set_header_other by done.
    + intros y. unfold set_header. destruct (Z.eqb_spec y q) as [-> |]; [replace (q =? page) with false by lia; done |].
      destruct (Z.eqb_spec y page) as [-> |]; done.
    + intros y Hy. rewrite !set_header_other; [done | |]; intros ->; apply Hy; [by left | by right].
Qed.

Lemma with_partial_id : 0 <= c < zlen (classes_ s) -> with_partial s c (partial s c) = s.
Proof.
  intros Hc. unfold with_partial, with_class. assert ((classes_ s).[c := Class.mk (partial s c) (Class.pages (classes_ s).[c]) (Class.live (classes_ s).[c])] = classes_ s) as ->; [| by destruct s].
  unfold aset. apply list_insert_id. rewrite lookup_aget by done. by destruct (classes_ s).[c].
Qed.

(** The headers after unlink(), and what each of them is. *)
Definition unlinked (x : Z) : Z -> SlabHeader.t :=
  let pv := SlabHeader.previous (h x) in let nx := SlabHeader.next (h x) in
  let h1 := if negb (pv =? 0) then set_header h pv (SlabHeader.with_next (h pv) nx) else h in
  let h2 := if negb (nx =? 0) then set_header h1 nx (SlabHeader.with_previous (h1 nx) pv) else h1 in
  set_header h2 x (SlabHeader.with_next (SlabHeader.with_previous (h2 x) 0) 0).

Lemma unlink_headers x : SlabHeader.previous (h x) <> x ->
  unlink s w c x = (if negb (SlabHeader.previous (h x) =? 0) then s else with_partial s c (SlabHeader.next (h x)), World.with_headers w (unlinked x)).
Proof.
  intros Hp. unfold unlink, unlinked. cbv zeta. destruct (negb (SlabHeader.previous (h x) =? 0)); [| done].
  by rewrite !(set_header_other h (SlabHeader.previous (h x)) _ x) by done.
Qed.

Lemma unlinked_core x y : core (unlinked x y) = core (h y).
Proof.
  unfold unlinked. cbv zeta. set (pv := SlabHeader.previous (h x)). set (nx := SlabHeader.next (h x)).
  set (h1 := if negb (pv =? 0) then _ else _). set (h2 := if negb (nx =? 0) then _ else _).
  assert (forall y, core (h1 y) = core (h y)) as Hc1 by (intros z; unfold h1, set_header; destruct (negb _); [destruct (Z.eqb_spec z pv) as [-> |] |]; done).
  assert (forall y, core (h2 y) = core (h1 y)) as Hc2 by (intros z; unfold h2; destruct (negb (nx =? 0)); [unfold set_header at 1; destruct (Z.eqb_spec z nx) as [-> |] |]; done).
  unfold set_header. destruct (Z.eqb_spec y x) as [-> |]; cbn; rewrite <- ?Hc1, <- ?Hc2; done.
Qed.

(** Only the neighbours of [x] change their links. *)
Lemma unlinked_at x y : y <> x -> y <> 0 -> SlabHeader.previous (h x) <> SlabHeader.next (h x) \/ y <> SlabHeader.next (h x) ->
  unlinked x y = if y =? SlabHeader.previous (h x) then SlabHeader.with_next (h y) (SlabHeader.next (h x))
                 else if y =? SlabHeader.next (h x) then SlabHeader.with_previous (h y) (SlabHeader.previous (h x)) else h y.
Proof.
  intros Hyx Hy0 Hd. unfold unlinked. cbv zeta. rewrite (set_header_other _ x _ y) by done.
  set (pv := SlabHeader.previous (h x)) in *. set (nx := SlabHeader.next (h x)) in *.
  destruct (Z.eqb_spec y pv) as [-> | Hyp]; [| destruct (Z.eqb_spec y nx) as [-> | Hyn]];
    destruct (Z.eqb_spec pv 0), (Z.eqb_spec nx 0); cbn [negb]; try done;
    repeat first [rewrite set_header_same | rewrite set_header_other by (done || lia)]; done.
Qed.

Lemma unlink_spec x l : 0 <= c < zlen (classes_ s) -> dll h 0 (partial s c) l -> NoDup l -> x ∈ l ->
  let '(s', w') := unlink s w c x in
  exists p l', s' = with_partial s c p /\ World.frames w' = World.frames w /\ World.ram w' = World.ram w /\
  dll (World.headers w') 0 p l' /\ NoDup l' /\ (forall y, y ∈ l' <-> y ∈ l /\ y <> x) /\
  (forall y, core (World.headers w' y) = core (h y)) /\
  (forall y, y ∉ l -> World.headers w' y = h y).
Proof.
  intros Hc Hd Hnd Hx. pose proof (dll_nonzero _ _ _ _ _ Hd Hx) as Hx0.
  assert (0 ∉ l) as H0 by (intros H0; by apply (dll_nonzero _ _ _ _ _ Hd) in H0).
  pose proof (dll_previous _ _ _ _ _ Hd Hx) as Hpv. pose proof (dll_next _ _ _ _ _ Hd Hx) as Hnx.
  destruct (list_elem_of_split l x Hx) as (l1 & l2 & ->). destruct (dll_after _ _ _ _ _ _ Hd) as [Ha Hb].
  pose proof (unlinked_at x) as Hat. pose proof (unlinked_core x) as Hcore. pose proof (unlink_headers x) as Heq.
  set (pv := SlabHeader.previous (h x)) in *. set (nx := SlabHeader.next (h x)) in *.
  assert (nx = 0 \/ nx ∈ l2) as Hn2 by (destruct (dll_head _ _ _ _ Ha) as [[? _] | [_ ?]]; [by left | by right]).
  assert (forall y, y ∈ l1 -> y <> x /\ (y ∉ l2) /\ y <> 0) as H1.
  { intros y Hy. apply NoDup_app in Hnd as (_ & Hno & _). specialize (Hno y Hy). rewrite elem_of_cons in Hno. rewrite elem_of_app in H0. split_and!; [tauto | tauto | intros ->; tauto]. }
  assert (forall y, y ∈ l2 -> y <> x /\ y <> 0) as H2.
  { intros y Hy. apply NoDup_app in Hnd as (_ & _ & [Hno _]%NoDup_cons). rewrite elem_of_app, elem_of_cons in H0. split; intros ->; tauto. }
  assert (pv <> x) as Hpvx by (destruct Hb as [-> | ?]; [done | by apply H1]).
  assert (forall y, y <> 0 -> pv <> nx \/ y <> nx) as Hpn.
  { intros y Hy. destruct Hn2 as [-> | Hn2]; [by right |]. left. destruct Hb as [-> | Hb]; [by destruct (H2 nx Hn2) | destruct (H1 pv Hb) as (_ & ? & _); by intros ->]. }
  rewrite Heq by done. exists (if partial s c =? x then nx else partial s c), (l1 ++ l2). cbn [World.with_headers World.frames World.headers World.ram]. split_and!; try done.
  - destruct (Z.eqb_spec (partial s c) x) as [Ep | Ep].
    + replace (pv =? 0) with true; [done |]. destruct Hb as [-> | Hb]; [done |].
      exfalso. destruct l1 as [| z l1]; [by apply not_elem_of_nil in Hb |]. cbn in Hd. destruct Hd as (Ez & _). by destruct (H1 z ltac:(by left)); congruence.
    + replace (pv =? 0) with false; [cbn [negb]; by rewrite with_partial_id |]. destruct Hpv as [[? _] | [Hin _]]; [done |]. symmetry. apply Z.eqb_neq. congruence.
  - apply (dll_remove h (unlinked x) x l1 l2 0 (partial s c) Hnd Hd).
    + intros y Hy. destruct (H1 y Hy) as (Hyx & Hy2 & Hy0). assert (y <> nx) as Hyn by (destruct Hn2 as [-> | ?]; [done | by intros ->]).
      rewrite Hat, (proj2 (Z.eqb_neq y nx)) by auto. destruct (Z.eqb_spec y pv) as [-> | Hyp]; (split; [done |]).
      * destruct Hpv as [[_ ?] | [_ ->]]; [done |]. by rewrite Z.eqb_refl.
      * destruct (Z.eqb_spec (SlabHeader.next (h y)) x) as [E |]; [exfalso | done].
        destruct (dll_next _ _ _ _ y Hd ltac:(apply elem_of_app; by left)) as [E' | [_ E']]; rewrite E in E'; [done | by apply Hyp].
    + intros y Hy. destruct (H2 y Hy) as (Hyx & Hy0). assert (y <> pv) as Hyp by (destruct Hb as [-> | Hb]; [done |]; intros ->; by destruct (H1 pv Hb) as (_ & ? & _)).
      rewrite Hat, (proj2 (Z.eqb_neq y pv)) by auto. destruct (Z.eqb_spec y nx) as [-> | Hyn]; (split; [done |]).
      * destruct Hnx as [? | [_ ->]]; [done |]. by rewrite Z.eqb_refl.
      * destruct (Z.eqb_spec (SlabHeader.previous (h y)) x) as [E |]; [exfalso | done].
        destruct (dll_previous _ _ _ _ y Hd ltac:(apply elem_of_app; right; by right)) as [[_ E'] | [_ E']]; rewrite E in E'; [done | by apply Hyn].
  - apply NoDup_app in Hnd as (? & Hno & [_ ?]%NoDup_cons). apply NoDup_app. split_and!; try done. intros y Hy. by destruct (H1 y Hy) as (_ & ? & _).
  - intros y. rewrite !elem_of_app, elem_of_cons. pose proof (H1 y). pose proof (H2 y). tauto.
  - intros y Hy. destruct (decide (y = 0)) as [-> | Hy0].
    + unfold unlinked. cbv zeta. fold pv nx. destruct (Z.eqb_spec pv 0), (Z.eqb_spec nx 0); cbn [negb]; by rewrite ?set_header_other.
    + rewrite Hat by (auto; by intros ->). destruct (Z.eqb_spec y pv) as [-> |]; [by destruct Hpv as [[_ ?] | [? _]] |].
      destruct (Z.eqb_spec y nx) as [-> |]; [by destruct Hnx as [? | [? _]] | done].
Qed.
End Lists.

(** ** Descriptors across frame operations *)
Section Descriptors.
Context `{Arch}.
Import FrameAllocator.
Implicit Types a : FrameAllocator.t.

Definition desc a (i : Z) : PageDescriptor.t := (descriptors_ a).[i].

Lemma handle_descriptor a i : wf a -> 0 <= i < frame_count_ a -> generation_at a i <> 0 ->
  handle_at a i = Ok (handle a i) /\ exact a (handle a i) = true /\ descriptor a (handle a i) = Some (desc a i).
Proof.
  intros Hwf Hi Hg. assert (exact a (handle a i) = true) as He by (apply exact_iff; [done | cbn; lia | cbn; split_and!; [lia | done | done]]).
  split_and!; [| done | unfold descriptor; by rewrite He]. unfold handle_at. fold (desc a i).
  change (PageDescriptor.generation (desc a i)) with (generation_at a i). by cmp.
Qed.

Lemma take_run_desc n a i j : 0 <= i -> i + Z.of_nat n <= zlen (descriptors_ a) -> 0 <= j ->
  next_generation_ a + Z.of_nat n <= u64_max -> 0 <= next_generation_ a ->
  zlen (descriptors_ (take_run n a i)) = zlen (descriptors_ a) /\
  desc (take_run n a i) j =
    if (i <=? j) && (j <? i + Z.of_nat n) then PageDescriptor.mk (next_generation_ a + (j - i)) 0 0 0 0 else desc a j.
Proof.
  revert a i. induction n as [| n IH]; intros a i Hi Hn Hj Hov Hng; cbn [take_run].
  - split; [done |]. destruct (Z.leb_spec i j); cbn [andb]; [by cmp | done].
  - destruct (taken_same a i) as (_ & _ & _ & _ & _ & _ & En). rewrite u64_wrap_small in En by lia.
    assert (zlen (descriptors_ (taken a i)) = zlen (descriptors_ a)) as El by (unfold taken, take; cbn; by rewrite zlen_aset).
    change (fst (take a i)) with (taken a i).
    destruct (IH (taken a i) (i + 1)) as [Hl Hd]; [lia | lia | done | lia | lia |]. split; [lia |]. rewrite Hd, En.
    destruct (Z.eq_dec j i) as [-> | Hne].
    + cmp. unfold desc, taken, take. cbn. rewrite aget_aset_eq by lia. f_equal. lia.
    + assert (desc (taken a i) j = desc a j) as -> by (unfold desc, taken, take; cbn; rewrite aget_aset_ne by lia; done).
      destruct (decide (i <= j < i + Z.of_nat (S n))); [cmp; f_equal; lia |].
      destruct (Z.leb_spec i j), (Z.leb_spec (i + 1) j); cbn [andb]; try done; try lia; by cmp.
Qed.

Lemma drop_run_desc n a i j : 0 <= i -> i + Z.of_nat n <= zlen (descriptors_ a) -> 0 <= j ->
  zlen (descriptors_ (drop_run n a i)) = zlen (descriptors_ a) /\
  desc (drop_run n a i) j = if (i <=? j) && (j <? i + Z.of_nat n) then PageDescriptor.zero else desc a j.
Proof.
  revert a i. induction n as [| n IH]; intros a i Hi Hn Hj; cbn [drop_run].
  - split; [done |]. destruct (Z.leb_spec i j); cbn [andb]; [by cmp | done].
  - set (a1 := with_descriptors _ _). assert (zlen (descriptors_ a1) = zlen (descriptors_ a)) as El by (unfold a1; cbn; by rewrite zlen_aset).
    destruct (IH a1 (i + 1)) as [Hl Hd]; [lia | lia | done |]. split; [lia |]. rewrite Hd. destruct (Z.eq_dec j i) as [-> | Hne].
    + cmp. unfold desc, a1. cbn. by rewrite aget_aset_eq by lia.
    + assert (desc a1 j = desc a j) as -> by (unfold desc, a1; cbn; rewrite aget_aset_ne by lia; done).
      destruct (decide (i <= j < i + Z.of_nat (S n))); [by cmp |].
      destruct (Z.leb_spec i j), (Z.leb_spec (i + 1) j); cbn [andb]; try done; try lia; by cmp.
Qed.

Lemma wf_used_range a : wf a -> 0 <= used_count_ a <= frame_count_ a.
Proof. intros Hwf. rewrite wf_used, <- wf_descriptors by done. apply zsum_bounds, live_unit_range. Qed.

(** allocate(account): one free frame with a fresh descriptor, or nothing. *)
Lemma allocate_charged_cases a acc : wf a -> ChargeAccount.wf acc ->
  let '(a', acc', r) := allocate_charged a acc in
  wf a' /\ same_geometry a' a /\ ChargeAccount.wf acc' /\
  match r with
  | Ok f => exists i, 0 <= i < frame_count_ a /\ generation_at a i = 0 /\ f = handle a' i /\
      descriptors_ a' = (descriptors_ a).[i := PageDescriptor.mk (next_generation_ a) 0 0 0 0] /\
      next_generation_ a <> 0 /\ ChargeAccount.used acc' = ChargeAccount.used acc + 1 /\ used_count_ a' = used_count_ a + 1
  | Err e => a' = a /\ ChargeAccount.used acc' = ChargeAccount.used acc /\ e <> StatusCode.ok /\
      (snd (ChargeAccount.charge acc 1) = e \/ free_frames a <= 0 \/ next_generation_ a = 0)
  end.
Proof.
  intros Hwf Hacc. pose proof (wf_used_range a Hwf) as Hur. unfold allocate_charged, free_frames.
  destruct (frame_count_ a =? 0) eqn:E0; [split_and!; try done; right; left; lia |].
  destruct (ChargeAccount.charge acc 1) as [acc1 st] eqn:Ec. pose proof (charge_wf acc 1 acc1 st Hacc ltac:(lia) Ec) as Hacc1.
  destruct (status_ok st) eqn:Est; cbn [negb].
  2: { assert (st <> StatusCode.ok) as Hne by (by intros ->). rewrite (charge_err _ _ _ _ Ec Hne). split_and!; try done. by left. }
  assert (st = StatusCode.ok) as -> by (by destruct st). pose proof (charge_ok _ _ _ Ec) as Hu. destruct Hacc as [Hacc0 _].
  destruct (decide (used_count_ a < frame_count_ a /\ next_generation_ a <> 0)) as [[Hlt Hng] | Hno].
  - destruct (allocate_taken a Hwf Hlt Hng) as (i & k & Hi & Hg & Hk & ->). cbn [result_ok negb].
    split_and!; try done; [apply hint_wf; [by apply taken_wf | done] |]. exists i. split_and!; try done; lia.
  - assert (exists e, allocate a = (a, Err e) /\ e <> StatusCode.ok /\ (frame_count_ a - used_count_ a <= 0 \/ next_generation_ a = 0)) as (e & -> & He & Hr).
    { unfold allocate. rewrite E0. destruct (Z.leb_spec (frame_count_ a) (used_count_ a)); [eexists; split_and!; [done | done | left; lia] |].
      destruct (Z.eqb_spec (next_generation_ a) 0); [eexists; split_and!; [done | done | by right] |]. exfalso. apply Hno. split; [lia | done]. }
    cbn [result_ok negb]. split_and!; try done; [by apply uncharge_wf_fst | | by right].
    unfold ChargeAccount.used in *. rewrite uncharge_spec by lia. cbn. lia.
Qed.

(** release(account) of a live frame whose account holds a charge succeeds. *)
Lemma release_charged_ok a i acc : wf a -> ChargeAccount.wf acc -> 0 <= i < frame_count_ a -> generation_at a i <> 0 ->
  0 < ChargeAccount.used acc ->
  let '(a', acc', st) := release_charged a (handle a i) acc in
  st = StatusCode.ok /\ wf a' /\ same_geometry a' a /\ ChargeAccount.wf acc' /\
  descriptors_ a' = (descriptors_ a).[i := PageDescriptor.zero] /\ next_generation_ a' = next_generation_ a /\
  ChargeAccount.used acc' = ChargeAccount.used acc - 1 /\ used_count_ a' = used_count_ a - 1.
Proof.
  intros Hwf Hacc Hi Hg Hu. destruct (handle_descriptor a i Hwf Hi Hg) as (_ & He & _). unfold release_charged. rewrite He. cbn [handle PhysicalFrame.index].
  rewrite used_generation by done. replace (generation_at a i =? 0) with false by lia. cbn [negb orb].
  replace (ChargeAccount.used acc =? 0) with false by lia.
  destruct (release_freed a (handle a i) Hwf ltac:(cbn; lia) He) as (k & Hk & ->). cbn [status_ok negb handle PhysicalFrame.index].
  split_and!; try done.
  - apply hint_wf; [by apply freed_wf | done].
  - by apply uncharge_wf_fst.
  - unfold ChargeAccount.used in *. rewrite uncharge_spec by lia. done.
Qed.
End Descriptors.

(** ** The invariant *)
Section Invariant.
Context `{Arch}.
Import FrameAllocator.

Definition is_slab (c : Z) (d : PageDescriptor.t) : bool :=
  (PageDescriptor.kind d =? PageKind.kernel_slab) && (PageDescriptor.flags d =? c).
Definition is_large (d : PageDescriptor.t) : bool := PageDescriptor.kind d =? PageKind.kernel_large.
Definition is_head (d : PageDescriptor.t) : bool := is_large d && (PageDescriptor.flags d =? 1).
Definition is_owned (d : PageDescriptor.t) : bool := (PageDescriptor.kind d =? PageKind.kernel_slab) || is_large d.

Definition unit_of (b : bool) : Z := if b then 1 else 0.
Definition slab_unit c d := unit_of (is_slab c d).
Definition slab_refs c d := if is_slab c d then PageDescriptor.references d else 0.
Definition large_unit d := unit_of (is_large d).
Definition head_unit d := unit_of (is_head d).
Definition owned_unit d := unit_of (is_owned d).

Abbreviation frames w := (World.frames w).
Abbreviation D w i := (desc (frames w) i).
Abbreviation addr w i := (address_for (frames w) i).
Abbreviation inside w i := (0 <= i < frame_count_ (frames w)).
Abbreviation header w x := (World.headers w x).
Abbreviation partial s c := (Class.partial (classes_ s).[c]).

(** The page [x] of class [c] is on its list when it has a free slot. *)
Definition listed (w : World.t) (c x : Z) : Prop :=
  exists i, inside w i /\ is_slab c (D w i) = true /\ addr w i = x /\ 0 < SlabHeader.free (header w x).

Definition list_ok (s : SlabAllocator.t) (w : World.t) (c : Z) (l : list Z) : Prop :=
  dll (World.headers w) 0 (partial s c) l /\ NoDup l /\ forall x, x ∈ l <-> listed w c x.

(** The frames of a large object: its first frame counts them. *)
Definition run_ok (w : World.t) (i : Z) : Prop :=
  let n := PageDescriptor.references (D w i) in
  1 <= n <= u32_max /\ i + n <= frame_count_ (frames w) /\
  (forall j, 0 <= j < n -> addr w (i + j) = addr w i + j * slab_page_size) /\
  (forall j, 0 < j < n -> is_large (D w (i + j)) = true /\ PageDescriptor.flags (D w (i + j)) = 0).

Record wf (s : SlabAllocator.t) (w : World.t) : Prop := {
  wf_frames : Frames.wf (frames w);
  wf_page_size : page_size_ (frames w) = slab_page_size;
  wf_nonzero : forall i, inside w i -> addr w i <> 0;
  wf_account : ChargeAccount.wf (pages_ s);
  wf_classes : zlen (classes_ s) = 7;
  wf_allocations : zlen (allocations_ s) = 3;
  wf_owned : forall i, inside w i -> is_owned (D w i) = true -> generation_at (frames w) i <> 0;
  wf_slab : forall i c, inside w i -> PageDescriptor.kind (D w i) = PageKind.kernel_slab -> PageDescriptor.flags (D w i) = c ->
    0 <= c < 7 /\ header_ok c (header w (addr w i)) /\
    PageDescriptor.references (D w i) = slots_for c - SlabHeader.free (header w (addr w i));
  wf_lists : forall c, 0 <= c < 7 -> exists l, list_ok s w c l;
  wf_pages : forall c, 0 <= c < 7 -> Class.pages (classes_ s).[c] = zsum (slab_unit c) (descriptors_ (frames w));
  wf_live : forall c, 0 <= c < 7 -> Class.live (classes_ s).[c] = zsum (slab_refs c) (descriptors_ (frames w));
  wf_large_pages : large_pages_ s = zsum large_unit (descriptors_ (frames w));
  wf_large_allocations : large_allocations_ s = zsum head_unit (descriptors_ (frames w));
  wf_charged : ChargeAccount.used (pages_ s) = zsum owned_unit (descriptors_ (frames w));
  wf_runs : forall i, inside w i -> is_head (D w i) = true -> run_ok w i
}.

(** ** Objects *)

(** An object of class [c] at [x]; a large object of [n] frames at [x]; an
    object of [b] bytes at [x]. *)
Definition small (w : World.t) (c x : Z) : Prop :=
  exists i k, inside w i /\ is_slab c (D w i) = true /\ 0 <= k < slots_for c /\ slot_set (header w (addr w i)) k = true /\
    x = addr w i + first_offset c + k * size_classes.[c].
Definition large (w : World.t) (n x : Z) : Prop :=
  exists i, inside w i /\ is_head (D w i) = true /\ PageDescriptor.references (D w i) = n /\ x = addr w i.
Definition object (w : World.t) (x b : Z) : Prop :=
  (exists c, 0 <= c < 7 /\ b = size_classes.[c] /\ small w c x) \/ (exists n, b = n * slab_page_size /\ large w n x).

(** ** Changing one page

    Frame [i] changes from [d0] to [d1], each a page of class [c] or not the
    allocator's; everything else keeps its meaning. *)
Section PageUpdate.
Context (s s' : SlabAllocator.t) (w w' : World.t) (c i : Z) (d1 : PageDescriptor.t) (l l' : list Z).
Abbreviation x := (addr w i).
Abbreviation d0 := (D w i).
Context (Hwf : wf s w) (Hc : 0 <= c < 7) (Hi : inside w i).
Context (Ha : Frames.wf (frames w')) (Hgeo : same_geometry (frames w') (frames w))
        (Hdesc : descriptors_ (frames w') = (descriptors_ (frames w)).[i := d1]).
Context (H0 : is_slab c d0 = true \/ is_owned d0 = false) (H1 : is_slab c d1 = true \/ is_owned d1 = false).
Context (Hpage : is_slab c d1 = true -> PageDescriptor.generation d1 <> 0 /\ header_ok c (header w' x) /\
           PageDescriptor.references d1 = slots_for c - SlabHeader.free (header w' x)).
Context (Hcore : forall y, y <> x -> core (header w' y) = core (header w y)).
Context (Hl : list_ok s w c l) (Hfar : forall y, y <> x -> y ∉ l -> header w' y = header w y).
Context (Hdll : dll (World.headers w') 0 (partial s' c) l') (Hnd : NoDup l')
        (Hmem : forall y, y ∈ l' <-> (y <> x /\ y ∈ l) \/ (y = x /\ is_slab c d1 = true /\ 0 < SlabHeader.free (header w' x))).
Context (Hother : forall k, 0 <= k < 7 -> k <> c -> (classes_ s').[k] = (classes_ s).[k]) (Hlen : zlen (classes_ s') = 7)
        (Halloc : zlen (allocations_ s') = 3) (Hacc : ChargeAccount.wf (pages_ s')).
Context (Hpages : Class.pages (classes_ s').[c] = Class.pages (classes_ s).[c] - slab_unit c d0 + slab_unit c d1)
        (Hlive : Class.live (classes_ s').[c] = Class.live (classes_ s).[c] - slab_refs c d0 + slab_refs c d1)
        (Hused : ChargeAccount.used (pages_ s') = ChargeAccount.used (pages_ s) - owned_unit d0 + owned_unit d1)
        (Hlp : large_pages_ s' = large_pages_ s) (Hla : large_allocations_ s' = large_allocations_ s).

Lemma pu_count : frame_count_ (frames w') = frame_count_ (frames w).
Proof. by destruct Hgeo as (_ & _ & ? & _). Qed.

Lemma pu_addr j : addr w' j = addr w j.
Proof. by apply same_geometry_address. Qed.

Lemma pu_range : 0 <= i < zlen (descriptors_ (frames w)).
Proof. by rewrite (Frames.wf_descriptors _ (wf_frames s w Hwf)). Qed.

Lemma pu_desc j : 0 <= j -> D w' j = if j =? i then d1 else D w j.
Proof.
  intros Hj. pose proof pu_range. unfold desc. rewrite Hdesc. destruct (Z.eqb_spec j i) as [-> |]; [by apply aget_aset_eq | by apply aget_aset_ne; lia].
Qed.

Lemma pu_not_slab d k : is_slab c d = true \/ is_owned d = false -> k <> c -> is_slab k d = false.
Proof.
  unfold is_slab, is_owned. intros [[_ Hf%Z.eqb_eq]%andb_true_iff | [-> _]%orb_false_iff] Hk; [| done].
  rewrite Hf. apply andb_false_iff. right. apply Z.eqb_neq. lia.
Qed.

Lemma pu_not_large d : is_slab c d = true \/ is_owned d = false -> is_large d = false /\ is_head d = false.
Proof.
  unfold is_head, is_slab, is_owned, is_large. intros [[Hk%Z.eqb_eq _]%andb_true_iff | [_ ->]%orb_false_iff]; [| done]. by rewrite Hk.
Qed.

Lemma pu_sum f : zsum f (descriptors_ (frames w')) = zsum f (descriptors_ (frames w)) - f d0 + f d1.
Proof. rewrite Hdesc. apply zsum_aset, pu_range. Qed.

Lemma pu_addr_ne j : inside w j -> j <> i -> addr w j <> x.
Proof. intros Hj Hne E. apply Hne. by eapply address_for_inj; [apply (wf_frames s w Hwf) | ..]. Qed.

(** Lists of the other classes do not meet this one. *)
Lemma pu_apart k y : 0 <= k < 7 -> k <> c -> listed w k y -> y <> x /\ y ∉ l.
Proof.
  intros Hk Hkc (j & Hj & Hs & <- & _). assert (j <> i) as Hne.
  { intros ->. rewrite (pu_not_slab _ k H0 Hkc) in Hs. done. }
  split; [by apply pu_addr_ne |]. intros (j' & Hj' & Hs' & E & _)%Hl. apply (address_for_inj _ (wf_frames s w Hwf)) in E; [| done | done]. subst j'.
  unfold is_slab in Hs, Hs'. b2p. congruence.
Qed.

Lemma pu_listed k y : 0 <= k < 7 -> k <> c -> listed w' k y <-> listed w k y.
Proof.
  intros Hk Hkc. unfold listed. rewrite pu_count. split; intros (j & Hj & Hs & Ey & Hf); exists j; rewrite pu_addr in *.
  - rewrite pu_desc in Hs by lia. destruct (Z.eqb_spec j i) as [-> | Hne]; [by rewrite (pu_not_slab d1 k H1 Hkc) in Hs |].
    split_and!; try done; try lia. pose proof (pu_addr_ne j Hj Hne) as Hy. rewrite Ey in Hy. by injection (Hcore y Hy) as <- _ _ _.
  - assert (j <> i) as Hne by (intros ->; by rewrite (pu_not_slab d0 k H0 Hkc) in Hs). rewrite pu_desc by lia. replace (j =? i) with false by lia.
    split_and!; try done; try lia. pose proof (pu_addr_ne j Hj Hne) as Hy. rewrite Ey in Hy. by injection (Hcore y Hy) as -> _ _ _.
Qed.

Lemma pu_lists k : 0 <= k < 7 -> exists m, list_ok s' w' k m.
Proof.
  intros Hk. destruct (Z.eq_dec k c) as [-> | Hkc].
  - exists l'. split; [done |]. split; [done |]. intros y. rewrite Hmem. destruct Hl as (_ & _ & Hin). rewrite Hin. unfold listed. rewrite pu_count. split.
    + intros [[Hy (j & Hj & Hs & Ey & Hf)] | (-> & Hs & Hf)].
      * exists j. rewrite pu_addr, pu_desc by lia. assert (j <> i) as Hne by (intros ->; congruence). replace (j =? i) with false by lia.
        split_and!; try done; try lia. by injection (Hcore y Hy) as -> _ _ _.
      * exists i. rewrite pu_addr, pu_desc, Z.eqb_refl by lia. split_and!; try done; lia.
    + intros (j & Hj & Hs & Ey & Hf). rewrite pu_addr in Ey. rewrite pu_desc in Hs by lia. destruct (Z.eqb_spec j i) as [-> | Hne].
      * right. subst y. done.
      * left. pose proof (pu_addr_ne j Hj Hne) as Hy. rewrite Ey in Hy. split; [done |]. exists j. split_and!; try done; try lia.
        by injection (Hcore y Hy) as <- _ _ _.
  - destruct (wf_lists s w Hwf k Hk) as (m & Hd & Hn & Hin). exists m. split_and!; try done.
    + rewrite Hother by done. apply (dll_ext (World.headers w)); [| done]. intros y Hy%Hin. destruct (pu_apart k y Hk Hkc Hy) as [Hyx Hyl].
      unfold same_links. by rewrite Hfar.
    + intros y. by rewrite pu_listed.
Qed.

Lemma page_update_wf : wf s' w'.
Proof.
  pose proof Hgeo as (_ & Hps & _ & _). split; try done.
  - rewrite Hps. apply (wf_page_size s w Hwf).
  - intros j. rewrite pu_count, pu_addr. apply (wf_nonzero s w Hwf).
  - intros j Hj. rewrite pu_count in Hj. change (generation_at (frames w') j) with (PageDescriptor.generation (D w' j)). rewrite pu_desc by lia.
    destruct (Z.eqb_spec j i) as [-> |]; [| by apply (wf_owned s w Hwf)]. intros Ho. destruct H1 as [Hs | Hs]; [by apply Hpage | congruence].
  - intros j k Hj. rewrite pu_count in Hj. rewrite pu_addr, pu_desc by lia. destruct (Z.eqb_spec j i) as [-> | Hne].
    + intros Hk Hf. destruct H1 as [Hs | Hs]; [| unfold is_owned in Hs; b2p; done]. destruct (Hpage Hs) as (_ & ? & ?).
      unfold is_slab in Hs. b2p. subst k. replace (PageDescriptor.flags d1) with c by done. done.
    + intros Hk Hf. destruct (wf_slab s w Hwf j k Hj Hk Hf) as (? & Hh & Hr). pose proof (Hcore _ (pu_addr_ne j Hj Hne)) as Ec.
      split_and!; try lia; [by eapply core_ok |]. injection Ec as -> _ _ _. done.
  - apply pu_lists.
  - intros k Hk. rewrite pu_sum. destruct (Z.eq_dec k c) as [-> | Hkc]; [rewrite Hpages, (wf_pages s w Hwf) by done; done |].
    rewrite Hother, (wf_pages s w Hwf) by done. unfold slab_unit. rewrite !pu_not_slab by done. cbn. lia.
  - intros k Hk. rewrite pu_sum. destruct (Z.eq_dec k c) as [-> | Hkc]; [rewrite Hlive, (wf_live s w Hwf) by done; done |].
    rewrite Hother, (wf_live s w Hwf) by done. unfold slab_refs. rewrite !pu_not_slab by done. lia.
  - rewrite Hlp, pu_sum, (wf_large_pages s w Hwf). unfold large_unit. rewrite (proj1 (pu_not_large d0 H0)), (proj1 (pu_not_large d1 H1)). cbn. lia.
  - rewrite Hla, pu_sum, (wf_large_allocations s w Hwf). unfold head_unit. rewrite (proj2 (pu_not_large d0 H0)), (proj2 (pu_not_large d1 H1)). cbn. lia.
  - rewrite Hused, pu_sum, (wf_charged s w Hwf). lia.
  - intros j Hj. rewrite pu_count in Hj. rewrite pu_desc by lia. destruct (Z.eqb_spec j i) as [-> | Hne]; [by rewrite (proj2 (pu_not_large d1 H1)) |].
    intros Hh. destruct (wf_runs s w Hwf j Hj Hh) as (Hn & Hle & Hadj & Hin). unfold run_ok. rewrite pu_desc by lia. replace (j =? i) with false by lia.
    split_and!; try lia; [rewrite pu_count; lia | |].
    + intros m Hm. rewrite !pu_addr. by apply Hadj.
    + intros m Hm. rewrite pu_desc by lia. destruct (Z.eqb_spec (j + m) i) as [E |]; [| by apply Hin]. exfalso.
      destruct (Hin m Hm) as [Hlg _]. rewrite E, (proj1 (pu_not_large d0 H0)) in Hlg. done.
Qed.

(** Objects elsewhere are untouched; those of the page are its marked slots. *)
Lemma page_update_small k y : small w' k y <->
  (exists j m, inside w j /\ j <> i /\ is_slab k (D w j) = true /\ 0 <= m < slots_for k /\ slot_set (header w (addr w j)) m = true /\
     y = addr w j + first_offset k + m * size_classes.[k]) \/
  (k = c /\ is_slab c d1 = true /\ exists m, 0 <= m < slots_for c /\ slot_set (header w' x) m = true /\
     y = x + first_offset c + m * size_classes.[c]).
Proof.
  unfold small. rewrite pu_count. split.
  - intros (j & m & Hj & Hs & Hm & Hb & ->). rewrite pu_addr in *. rewrite pu_desc in Hs by lia. destruct (Z.eqb_spec j i) as [-> | Hne].
    + right. destruct (Z.eq_dec k c) as [-> | Hkc]; [| by rewrite pu_not_slab in Hs]. split; [done |]. split; [done |]. by exists m.
    + left. exists j, m. split_and!; try done; try lia. by rewrite (core_slot (header w (addr w j))) in Hb by (by apply Hcore, pu_addr_ne).
  - intros [(j & m & Hj & Hne & Hs & Hm & Hb & ->) | (-> & Hs & m & Hm & Hb & ->)].
    + exists j, m. rewrite pu_addr, pu_desc by lia. replace (j =? i) with false by lia. split_and!; try done; try lia.
      by rewrite (core_slot (header w (addr w j))) by (by apply Hcore, pu_addr_ne).
    + exists i, m. rewrite pu_addr, pu_desc, Z.eqb_refl by lia. split_and!; try done; lia.
Qed.

Lemma page_update_large n y : large w' n y <-> large w n y.
Proof.
  unfold large. rewrite pu_count. split; intros (j & Hj & Hh & Hr & ->); exists j.
  - rewrite pu_addr. rewrite pu_desc in Hh, Hr by lia. destruct (Z.eqb_spec j i) as [-> |]; [by rewrite (proj2 (pu_not_large d1 H1)) in Hh | done].
  - assert (j <> i) by (intros ->; by rewrite (proj2 (pu_not_large d0 H0)) in Hh). rewrite pu_addr, pu_desc by lia. by replace (j =? i) with false by lia.
Qed.
End PageUpdate.
End Invariant.
