(* ===== verification/SlabSmall.v ===== *)
(** * Slab objects: taking and returning a slot, adding and dropping a page

    The transitions allocate() and release() are built from, each keeping the
    invariant and changing the set of objects as it should. *)

From S2P Require Import Prelude Charges Regions Sweep Frames FrameSearch FrameSpec FrameAlloc Slab SlabInv.
Import SlabAllocator.

Section Small.
Context `{Arch}.
Import FrameAllocator.
#[local] Arguments address_for : simpl never.
#[local] Arguments set_header : simpl never.
#[local] Arguments desc : simpl never.
Abbreviation wf := SlabInv.wf.
Abbreviation frames w := (World.frames w).
Abbreviation D w i := (desc (frames w) i).
Abbreviation addr w i := (address_for (frames w) i).
Abbreviation inside w i := (0 <= i < frame_count_ (frames w)).
Abbreviation header w x := (World.headers w x).
Abbreviation partial s c := (Class.partial (classes_ s).[c]).

(** ** Pages and objects *)
Lemma addr_facts s w i : wf s w -> inside w i -> 0 < addr w i /\ addr w i mod slab_page_size = 0 /\ addr w i + slab_page_size <= usize_max.
Proof.
  intros Hwf Hi. destruct (address_for_range _ (wf_frames s w Hwf) i Hi) as (? & ? & ?). pose proof (wf_nonzero s w Hwf i Hi).
  rewrite (wf_page_size s w Hwf) in *. split_and!; try done; lia.
Qed.

Lemma aligned_apart x y : x mod slab_page_size = 0 -> y mod slab_page_size = 0 -> x <> y -> x + slab_page_size <= y \/ y + slab_page_size <= x.
Proof.
  unfold slab_page_size. intros Hx Hy Hne. pose proof (Z.div_mod x 4096 ltac:(lia)). pose proof (Z.div_mod y 4096 ltac:(lia)). lia.
Qed.

Lemma aligned_diff x y : x mod slab_page_size = 0 -> y mod slab_page_size = 0 -> exists m, x = y + m * slab_page_size.
Proof.
  unfold slab_page_size. intros Hx Hy. exists (x / 4096 - y / 4096). pose proof (Z.div_mod x 4096 ltac:(lia)).
  pose proof (Z.div_mod y 4096 ltac:(lia)). lia.
Qed.

Lemma pages_apart s w i j : wf s w -> inside w i -> inside w j -> i <> j ->
  addr w i + slab_page_size <= addr w j \/ addr w j + slab_page_size <= addr w i.
Proof.
  intros Hwf Hi Hj Hne. destruct (addr_facts s w i Hwf Hi) as (_ & ? & _), (addr_facts s w j Hwf Hj) as (_ & ? & _).
  apply aligned_apart; try done. intros E. apply Hne. by eapply address_for_inj; [apply (wf_frames s w Hwf) | ..].
Qed.

Lemma slab_slot_in_page c k : 0 <= c < 7 -> 0 <= k < slots_for c ->
  header_bytes <= first_offset c + k * size_classes.[c] /\ first_offset c + k * size_classes.[c] + size_classes.[c] <= slab_page_size.
Proof. intros Hc Hk. destruct (class_facts c Hc) as (? & ? & ? & ? & _). nia. Qed.

(** A frame the allocator does not own is apart from every object. *)
Lemma free_page_apart s w i y b : wf s w -> inside w i -> is_owned (D w i) = false -> object w y b ->
  y + b <= addr w i \/ addr w i + slab_page_size <= y.
Proof.
  intros Hwf Hi Ho [(c & Hc & -> & j & k & Hj & Hs & Hk & _ & ->) | (n & -> & j & Hj & Hh & Hr & ->)].
  - destruct (slab_slot_in_page c k Hc Hk). assert (i <> j) as Hne.
    { intros ->. unfold is_owned, is_slab in *. b2p. congruence. }
    unfold header_bytes, slab_page_size in *. destruct (pages_apart s w i j Hwf Hi Hj Hne); unfold slab_page_size in *; lia.
  - destruct (wf_runs s w Hwf j Hj Hh) as (Hn & Hle & Hadj & Hin). rewrite Hr in *.
    destruct (addr_facts s w i Hwf Hi) as (_ & Hai & _), (addr_facts s w j Hwf Hj) as (_ & Haj & _).
    destruct (aligned_diff _ _ Hai Haj) as [m Em]. unfold slab_page_size in *.
    destruct (decide (0 <= m < n)) as [Hm |]; [exfalso | lia]. rewrite <- Hadj in Em by done.
    apply (address_for_inj _ (wf_frames s w Hwf)) in Em; [| done | lia]. subst i.
    assert (is_large (D w (j + m)) = true) as Hlg.
    { destruct (Z.eq_dec m 0) as [-> |]; [rewrite Z.add_0_r; unfold is_head in Hh; by b2p | by apply Hin; lia]. }
    unfold is_owned in Ho. rewrite Hlg, orb_true_r in Ho. done.
Qed.

Definition apart (x b y b' : Z) : Prop := x + b <= y \/ y + b' <= x.

Lemma small_small_apart s w c c' x y : wf s w -> 0 <= c < 7 -> 0 <= c' < 7 -> small w c x -> small w c' y ->
  (x = y /\ c = c') \/ apart x size_classes.[c] y size_classes.[c'].
Proof.
  intros Hwf Hc Hc' (i & k & Hi & Hs & Hk & _ & ->) (j & k' & Hj & Hs' & Hk' & _ & ->). unfold apart.
  destruct (slab_slot_in_page c k Hc Hk), (slab_slot_in_page c' k' Hc' Hk'). unfold header_bytes, slab_page_size in *.
  destruct (Z.eq_dec i j) as [-> | Hne].
  - assert (c = c') as -> by (unfold is_slab in *; b2p; congruence). destruct (class_facts c' Hc) as (? & _).
    destruct (Z.eq_dec k k') as [-> |]; [by left |]. right. nia.
  - right. destruct (pages_apart s w i j Hwf Hi Hj Hne); unfold slab_page_size in *; lia.
Qed.

(** A page that is not part of the run at [j] is apart from it. *)
Lemma run_apart s w i j : wf s w -> inside w i -> inside w j -> is_head (D w j) = true ->
  let n := PageDescriptor.references (D w j) in
  (exists m, 0 <= m < n /\ i = j + m) \/ addr w i + slab_page_size <= addr w j \/ addr w j + n * slab_page_size <= addr w i.
Proof.
  intros Hwf Hi Hj Hh n. destruct (wf_runs s w Hwf j Hj Hh) as (Hn & Hle & Hadj & _). fold n in Hn, Hle, Hadj.
  destruct (addr_facts s w i Hwf Hi) as (_ & Hai & _), (addr_facts s w j Hwf Hj) as (_ & Haj & _).
  destruct (aligned_diff _ _ Hai Haj) as [m Em]. destruct (decide (0 <= m < n)) as [Hm |]; [left | right; unfold slab_page_size in *; lia].
  exists m. split; [done |]. rewrite <- Hadj in Em by done. apply (address_for_inj _ (wf_frames s w Hwf)) in Em; [done | done | lia].
Qed.

Lemma small_large_apart s w c n x y : wf s w -> 0 <= c < 7 -> small w c x -> large w n y -> apart x size_classes.[c] y (n * slab_page_size).
Proof.
  intros Hwf Hc (i & k & Hi & Hs & Hk & _ & ->) (j & Hj & Hh & <- & ->). destruct (slab_slot_in_page c k Hc Hk). unfold apart, header_bytes in *.
  destruct (run_apart s w i j Hwf Hi Hj Hh) as [(m & Hm & ->) | ?]; [exfalso | unfold slab_page_size in *; lia].
  destruct (wf_runs s w Hwf j Hj Hh) as (_ & _ & _ & Hin).
  assert (is_large (D w (j + m)) = true) as Hlg.
  { destruct (Z.eq_dec m 0) as [-> |]; [rewrite Z.add_0_r; unfold is_head in Hh; by b2p | by apply Hin; lia]. }
  unfold is_slab, is_large in *. b2p. rewrite Hlg in *. done.
Qed.

Lemma large_large_apart s w n m x y : wf s w -> large w n x -> large w m y -> (x = y /\ n = m) \/ apart x (n * slab_page_size) y (m * slab_page_size).
Proof.
  intros Hwf (i & Hi & Hh & <- & ->) (j & Hj & Hh' & <- & ->). unfold apart. destruct (Z.eq_dec i j) as [-> | Hne]; [by left | right].
  assert (forall i j m, inside w i -> inside w j -> i <> j -> is_head (D w i) = true -> is_head (D w j) = true ->
    0 <= m < PageDescriptor.references (D w j) -> i <> j + m) as Hno.
  { clear - Hwf. intros i j m Hi Hj Hne Hh Hh' Hm ->. assert (m <> 0) by (intros ->; by rewrite Z.add_0_r in Hne).
    destruct (wf_runs s w Hwf j Hj Hh') as (_ & _ & _ & Hin). destruct (Hin m ltac:(lia)) as [_ Hf].
    unfold is_head in Hh. rewrite Hf, andb_false_r in Hh. done. }
  destruct (run_apart s w i j Hwf Hi Hj Hh') as [(k & Hk & E) | Hij]; [exfalso; by apply (Hno i j k) |].
  destruct (run_apart s w j i Hwf Hj Hi Hh) as [(k & Hk & E) | Hji]; [exfalso; apply (Hno j i k); done || lia |].
  unfold slab_page_size in *. destruct (wf_runs s w Hwf i Hi Hh) as (? & _), (wf_runs s w Hwf j Hj Hh') as (? & _). lia.
Qed.

(** Distinct objects never share a byte. *)
Lemma objects_apart s w x b y b' : wf s w -> object w x b -> object w y b' -> (x = y /\ b = b') \/ apart x b y b'.
Proof.
  intros Hwf [(c & Hc & -> & Hx) | (n & -> & Hx)] [(c' & Hc' & -> & Hy) | (m & -> & Hy)].
  - destruct (small_small_apart s w c c' x y) as [[-> ->] | ?]; try done; [by left | by right].
  - right. by eapply small_large_apart.
  - right. destruct (small_large_apart s w c' n y x) as [? | ?]; try done; [by right | by left].
  - destruct (large_large_apart s w n m x y) as [[-> ->] | ?]; try done; [by left | by right].
Qed.

(** ** Taking a slot *)
Lemma listed_member s w c l i : list_ok s w c l -> inside w i -> is_slab c (D w i) = true -> 0 < SlabHeader.free (header w (addr w i)) -> addr w i ∈ l.
Proof. intros (_ & _ & Hin) Hi Hs Hf. apply Hin. by exists i. Qed.

Lemma slab_page s w c i : wf s w -> inside w i -> is_slab c (D w i) = true ->
  0 <= c < 7 /\ header_ok c (header w (addr w i)) /\ PageDescriptor.references (D w i) = slots_for c - SlabHeader.free (header w (addr w i)) /\
  generation_at (frames w) i <> 0.
Proof.
  intros Hwf Hi Hs. pose proof Hs as [Hk%Z.eqb_eq Hf%Z.eqb_eq]%andb_true_iff. destruct (wf_slab s w Hwf i c Hi Hk Hf) as (? & ? & ?).
  split_and!; try done; try lia. apply (wf_owned s w Hwf); [done |]. unfold is_owned. by rewrite Hk.
Qed.

Lemma slab_owned c d : is_slab c d = true -> is_owned d = true.
Proof. unfold is_slab, is_owned. by intros [-> _]%andb_true_iff. Qed.

(** The page's header replaced by [h1] and the class list brought in line. *)
Definition relinked s w c i (l : list Z) h1 s2 w2 : Prop :=
  let x := addr w i in
  exists p l', s2 = with_partial s c p /\ frames w2 = frames w /\ World.ram w2 = World.ram w /\
    dll (World.headers w2) 0 p l' /\ NoDup l' /\
    (forall y, y ∈ l' <-> (y <> x /\ y ∈ l) \/ (y = x /\ 0 < SlabHeader.free h1)) /\
    core (header w2 x) = core h1 /\ (forall y, y <> x -> core (header w2 y) = core (header w y)) /\
    (forall y, y <> x -> y ∉ l -> header w2 y = header w y).

Definition with_header w x h1 : World.t := World.with_headers w (set_header (World.headers w) x h1).

Section Relink.
Context (s : SlabAllocator.t) (w : World.t) (c i : Z) (l : list Z) (h1 : SlabHeader.t).
Abbreviation x := (addr w i).
Context (Hwf : wf s w) (Hi : inside w i) (Hs : is_slab c (D w i) = true) (Hl : list_ok s w c l).
Context (Hlinks : same_links (World.headers w) (fun _ => h1) x).

Lemma relink_class : 0 <= c < zlen (classes_ s).
Proof. rewrite (wf_classes s w Hwf). by apply (slab_page s w c i). Qed.

Lemma relink_dll : dll (World.headers (with_header w x h1)) 0 (partial s c) l.
Proof.
  apply (dll_ext (World.headers w)); [| apply Hl]. intros y _. cbn. unfold same_links, set_header.
  destruct (Z.eqb_spec y x) as [-> |]; [apply Hlinks | done].
Qed.

Lemma relink_keep : (0 < SlabHeader.free (header w x) <-> 0 < SlabHeader.free h1) -> relinked s w c i l h1 s (with_header w x h1).
Proof.
  intros Hf. exists (partial s c), l. rewrite with_partial_id by apply relink_class. split_and!; try done.
  - apply relink_dll.
  - apply Hl.
  - intros y. destruct Hl as (_ & _ & Hin). rewrite Hin. split.
    + intros Hy. destruct (Z.eq_dec y x) as [-> |]; [right | by left]. split; [done |]. destruct Hy as (j & _ & _ & _ & ?). by apply Hf.
    + intros [[_ ?] | [-> ?]]; [done |]. exists i. split_and!; try done; try lia; by apply Hf.
  - cbn. by rewrite set_header_same.
  - intros y Hy. cbn. by rewrite set_header_other.
  - intros y Hy _. cbn. by rewrite set_header_other.
Qed.

Lemma relink_unlink : 0 < SlabHeader.free (header w x) -> SlabHeader.free h1 = 0 ->
  let '(s2, w2) := unlink s (with_header w x h1) c x in relinked s w c i l h1 s2 w2.
Proof.
  intros Hf Hz. assert (x ∈ l) as Hin by (by eapply listed_member).
  pose proof (unlink_spec s (with_header w x h1) c x l relink_class relink_dll (proj1 (proj2 Hl)) Hin) as Hu.
  destruct (unlink _ _ _ _) as [s2 w2]. destruct Hu as (p & l' & Es & Ef & Er & Hd & Hnd & Hm & Hco & Hfar). exists p, l'. split_and!; try done.
  - intros y. rewrite Hm, Hz. split; [intros []; left; done | intros [[] | [_ ?]]; [done | lia]].
  - rewrite Hco. cbn. by rewrite set_header_same.
  - intros y Hy. rewrite Hco. cbn. by rewrite set_header_other.
  - intros y Hy Hn. rewrite Hfar by done. cbn. by rewrite set_header_other.
Qed.

Lemma relink_push : SlabHeader.free (header w x) = 0 -> 0 < SlabHeader.free h1 ->
  let '(s2, w2) := push s (with_header w x h1) c x in relinked s w c i l h1 s2 w2.
Proof.
  intros Hz Hf. assert (x ∉ l) as Hni by (intros (j & _ & _ & _ & ?)%Hl; lia).
  destruct (addr_facts s w i Hwf Hi) as (? & _). pose proof (push_dll s (with_header w x h1) c x l relink_dll (proj1 (proj2 Hl)) Hni ltac:(lia)) as Hu.
  destruct (push _ _ _ _) as [s2 w2]. destruct Hu as (Es & Ef & Er & Hd & Hco & Hfar). exists x, (x :: l). split_and!; try done.
  - apply NoDup_cons. split; [done | apply Hl].
  - intros y. rewrite elem_of_cons. split.
    + intros [-> | Hy]; [by right | left; split; [by intros -> | done]].
    + intros [[_ ?] | [-> _]]; [by right | by left].
  - rewrite Hco. cbn. by rewrite set_header_same.
  - intros y Hy. rewrite Hco. cbn. by rewrite set_header_other.
  - intros y Hy Hn. rewrite Hfar; [cbn; by rewrite set_header_other |]. rewrite not_elem_of_cons. done.
Qed.
End Relink.

(** One slot of a page marked or cleared, with the descriptor's count. *)
Definition marked h k (b : bool) : SlabHeader.t :=
  SlabHeader.with_slots h (u32_wrap (SlabHeader.free h + (if b then -1 else 1)))
    (SlabHeader.bitmap h).[k / 64 := mark_word (SlabHeader.bitmap h).[k / 64] k b].
Definition slot_address w c i k : Z := addr w i + first_offset c + k * size_classes.[c].

Lemma slot_address_inj c x k k' : 0 <= c < 7 -> x + k * size_classes.[c] = x + k' * size_classes.[c] -> k = k'.
Proof. intros Hc E. destruct (class_facts c Hc) as (? & _). nia. Qed.

Lemma object_address_unique s w x b b' : wf s w -> object w x b -> object w x b' -> 0 < b -> 0 < b' -> b = b'.
Proof. intros Hwf Hb Hb' ? ?. destruct (objects_apart s w x b x b' Hwf Hb Hb') as [[_ ?] | [? | ?]]; [done | lia | lia]. Qed.

Lemma object_positive s w x b : wf s w -> object w x b -> 0 < b /\ 0 < x.
Proof.
  intros Hwf [(c & Hc & -> & i & k & Hi & Hs & Hk & _ & ->) | (n & -> & i & Hi & Hh & <- & ->)].
  - destruct (class_facts c Hc) as (? & ? & ? & _), (addr_facts s w i Hwf Hi) as (? & _). unfold header_bytes in *. split; [lia | nia].
  - destruct (wf_runs s w Hwf i Hi Hh) as (? & _), (addr_facts s w i Hwf Hi) as (? & _). unfold slab_page_size. lia.
Qed.

Section SlotUpdate.
Context (s s2 : SlabAllocator.t) (w w2 : World.t) (c i k : Z) (b : bool) (l : list Z) (ram : Z -> Z).
Abbreviation x := (addr w i).
Abbreviation n := (if b then 1 else -1).
Abbreviation d1 := (refer (D w i) (u32_wrap (PageDescriptor.references (D w i) + n))).
Abbreviation w' := (World.mk (write_descriptor (frames w) (handle (frames w) i) d1) (World.headers w2) ram).
Context (Hwf : wf s w) (Hi : inside w i) (Hs : is_slab c (D w i) = true) (Hl : list_ok s w c l).
Context (Hk : 0 <= k < slots_for c) (Hb : slot_set (header w x) k = negb b).
Context (Hre : relinked s w c i l (marked (header w x) k b) s2 w2).

Lemma su_header : header_ok c (marked (header w x) k b) /\
  SlabHeader.free (marked (header w x) k b) = SlabHeader.free (header w x) - n /\
  PageDescriptor.references d1 = PageDescriptor.references (D w i) + n.
Proof.
  destruct (slab_page s w c i Hwf Hi Hs) as (Hc & Hh & Hr & _). destruct (class_facts c Hc) as (_ & ? & _).
  destruct (mark_slot_ok c (header w x) k b Hc Hh Hk Hb) as [Hf Hok]. split_and!; [done | |].
  - cbn. unfold u32_wrap. rewrite Z.mod_small by lia. destruct b; lia.
  - cbn. unfold u32_wrap. rewrite Z.mod_small by (destruct b; lia). done.
Qed.

Lemma su_class p j : 0 <= c < 7 -> 0 <= j ->
  (classes_ (add_live (with_partial s c p) c n)).[j] =
    if j =? c then Class.mk p (Class.pages (classes_ s).[c]) (Class.live (classes_ s).[c] + n) else (classes_ s).[j].
Proof.
  intros Hc Hj. pose proof (wf_classes s w Hwf). cbn. rewrite !aget_aset by (rewrite ?zlen_aset; lia).
  rewrite Z.eqb_refl. by destruct (j =? c).
Qed.

(** The three consequences of the page update, before the objects are named. *)
Lemma su_page :
  wf (add_live s2 c n) w' /\ (forall j y, large w' j y <-> large w j y) /\
  (forall k' y, small w' k' y <->
    (exists j m, inside w j /\ j <> i /\ is_slab k' (D w j) = true /\ 0 <= m < slots_for k' /\ slot_set (header w (addr w j)) m = true /\
       y = addr w j + first_offset k' + m * size_classes.[k']) \/
    (k' = c /\ is_slab c d1 = true /\ exists m, 0 <= m < slots_for c /\ slot_set (header w2 x) m = true /\
       y = x + first_offset c + m * size_classes.[c])).
Proof.
  destruct (slab_page s w c i Hwf Hi Hs) as (Hc & Hh & Hr & Hg). destruct su_header as (Hok & Hfree & Hrefs).
  destruct Hre as (p & l' & -> & _ & _ & Hdll & Hnd & Hmem & Hx & Hother & Hfar). pose proof (wf_classes s w Hwf) as Hz.
  assert (is_slab c d1 = true) as Hs1 by done.
  assert (Frames.wf (frames w')) as Ha by (by apply write_descriptor_wf; [apply (wf_frames s w Hwf) | ..]).
  assert (same_geometry (frames w') (frames w)) as Hgeo by done.
  assert (descriptors_ (frames w') = (descriptors_ (frames w)).[i := d1]) as Hdesc by done.
  assert (header_ok c (header w' x)) as Hok' by (by eapply core_ok).
  assert (SlabHeader.free (header w' x) = SlabHeader.free (header w x) - n) as Ef by (injection Hx as E _ _ _; cbn in E |- *; rewrite E; exact Hfree).
  assert (forall y, y ∈ l' <-> (y <> x /\ y ∈ l) \/ (y = x /\ is_slab c d1 = true /\ 0 < SlabHeader.free (header w' x))) as Hmem'.
  { intros y. rewrite Hmem. injection Hx as E _ _ _. cbn in E |- *. rewrite E. intuition. }
  split_and!.
  - eapply (page_update_wf s _ w w' c i d1 l l'); try done; try (by left); rewrite ?su_class by lia; rewrite ?Z.eqb_refl; try done.
    + intros _. split_and!; [done | done |]. rewrite Ef, Hrefs. lia.
    + intros j Hj Hne. rewrite su_class by lia. by replace (j =? c) with false by lia.
    + cbn. rewrite !zlen_aset. done.
    + apply (wf_allocations s w Hwf).
    + apply (wf_account s w Hwf).
    + unfold slab_unit. rewrite Hs, Hs1. cbn. lia.
    + unfold slab_refs. rewrite Hs, Hs1, Hrefs. cbn. lia.
    + unfold owned_unit. rewrite (slab_owned _ _ Hs), (slab_owned _ _ Hs1). cbn. lia.
  - intros j y. eapply (page_update_large s w w' c i d1); try done; by left.
  - intros k' y. eapply (page_update_small s w w' c i d1); try done; by left.
Qed.

Lemma su_update :
  wf (add_live s2 c n) w' /\ (forall j y, large w' j y <-> large w j y) /\
  (forall j y, small w' j y <->
     if b then small w j y \/ (j = c /\ y = slot_address w c i k)
     else small w j y /\ ~ (j = c /\ y = slot_address w c i k)).
Proof.
  destruct (slab_page s w c i Hwf Hi Hs) as (Hc & Hh & _ & _). destruct (class_facts c Hc) as (? & ? & _).
  destruct su_page as (? & ? & Hsm). split_and!; try done.
  assert (forall m, 0 <= m < slots_for c -> slot_set (header w2 x) m = if m =? k then b else slot_set (header w x) m) as Hset.
  { intros m Hm. destruct Hre as (p & l' & _ & _ & _ & _ & _ & _ & Hx & _). rewrite (core_slot _ _ _ Hx). apply slot_set_mark; [by apply (hd_bitmap c) | lia | lia]. }
  intros j y. rewrite Hsm. unfold small, slot_address. split.
  - intros [(j' & m & Hj & Hne & Hs' & Hm & Hb' & ->) | (-> & _ & m & Hm & Hb' & ->)].
    + assert (exists i0 k0, inside w i0 /\ is_slab j (D w i0) = true /\ 0 <= k0 < slots_for j /\ slot_set (header w (addr w i0)) k0 = true /\
        addr w j' + first_offset j + m * size_classes.[j] = addr w i0 + first_offset j + k0 * size_classes.[j]) as Hold by (by exists j', m).
      destruct b; [by left |]. split; [done |]. intros [-> E]. destruct (slab_slot_in_page c k Hc Hk), (slab_slot_in_page c m Hc Hm).
      unfold header_bytes in *. destruct (pages_apart s w i j' Hwf Hi Hj ltac:(done)); lia.
    + rewrite Hset in Hb' by done. destruct (Z.eqb_spec m k) as [-> | Hne].
      * destruct b; [by right | done].
      * assert (exists i0 k0, inside w i0 /\ is_slab c (D w i0) = true /\ 0 <= k0 < slots_for c /\ slot_set (header w (addr w i0)) k0 = true /\
          x + first_offset c + m * size_classes.[c] = addr w i0 + first_offset c + k0 * size_classes.[c]) as Hold by (by exists i, m).
        destruct b; [by left |]. split; [done |]. intros [_ E]. apply Hne. nia.
  - intros Hcase. assert ((exists i0 k0, inside w i0 /\ is_slab j (D w i0) = true /\ 0 <= k0 < slots_for j /\ slot_set (header w (addr w i0)) k0 = true /\
      y = addr w i0 + first_offset j + k0 * size_classes.[j] /\ (b = true \/ ~ (j = c /\ y = x + first_offset c + k * size_classes.[c]))) \/
      (b = true /\ j = c /\ y = x + first_offset c + k * size_classes.[c])) as [(j' & m & Hj & Hs' & Hm & Hb' & -> & Hno) | (-> & -> & ->)].
    { destruct b; [destruct Hcase as [(j' & m & ? & ? & ? & ? & ?) | [-> ->]]; [left; exists j', m; split_and!; auto; lia | by right] |].
      destruct Hcase as [(j' & m & ? & ? & ? & ? & ?) ?]. left. exists j', m. split_and!; auto; lia. }
    + destruct (Z.eq_dec j' i) as [-> | Hne]; [right | left; exists j', m; by split_and!; try lia].
      assert (j = c) as -> by (unfold is_slab in *; b2p; congruence). split; [done |]. split; [done |]. exists m. rewrite Hset by done.
      split_and!; try lia. destruct (Z.eqb_spec m k) as [-> |]; [| done]. destruct Hno as [-> | Hno]; [done | exfalso; apply Hno; done].
    + right. split; [done |]. split; [done |]. exists k. rewrite Hset, Z.eqb_refl by done. split_and!; done || lia.
Qed.

Lemma su_objects : forall y m, object w' y m <->
  if b then object w y m \/ (y = slot_address w c i k /\ m = size_classes.[c])
  else object w y m /\ y <> slot_address w c i k.
Proof.
  destruct (slab_page s w c i Hwf Hi Hs) as (Hc & _). destruct (class_facts c Hc) as (? & _). destruct su_update as (_ & Hlg & Hsm).
  assert (forall y m, object w' y m <-> (exists j, 0 <= j < 7 /\ m = size_classes.[j] /\
    if b then small w j y \/ (j = c /\ y = slot_address w c i k) else small w j y /\ ~ (j = c /\ y = slot_address w c i k)) \/
    (exists j, m = j * slab_page_size /\ large w j y)) as Ho.
  { intros y m. unfold object. split; intros [(j & ? & ? & Hj) | (j & ? & Hj)];
      [left; exists j; by apply Hsm in Hj | right; exists j; by apply Hlg in Hj | left; exists j; by apply Hsm in Hj | right; exists j; by apply Hlg in Hj]. }
  intros y m. rewrite Ho. clear Ho. destruct b.
  - split; [intros [(j & ? & ? & [? | [-> ->]]) | ?]; [left; left; by exists j | by right | left; by right] |].
    intros [[(j & ? & ? & ?) | ?] | [-> ->]]; [left; exists j; by auto | by right | left; exists c; by auto].
  - assert (small w c (slot_address w c i k)) as Hold by (exists i, k; done). split.
    + intros [(j & Hj & -> & Hy & Hno) | (j & -> & Hy)].
      * split; [left; by exists j |]. intros ->. apply Hno. split; [| done].
        destruct (small_small_apart s w j c _ _ Hwf Hj Hc Hy Hold) as [[_ ?] | [? | ?]]; [done | destruct (class_facts j Hj); lia | lia].
      * split; [right; by exists j |]. intros ->. pose proof (object_positive s w _ (j * slab_page_size) Hwf ltac:(right; by exists j)).
        destruct (small_large_apart s w c j _ _ Hwf Hc Hold Hy); lia.
    + intros [[(j & Hj & -> & Hy) | ?] Hne]; [| by right]. left. exists j. split_and!; try done; try lia; by intros [_ ?].
Qed.
End SlotUpdate.

(** The objects of [w'] are those of [w] and one more, or all but one. *)
Definition objects_added w w' (o m : Z) : Prop := forall y m', object w' y m' <-> object w y m' \/ (y = o /\ m' = m).
Definition objects_removed w w' (o : Z) : Prop := forall y m', object w' y m' <-> object w y m' /\ y <> o.
Definition objects_same w w' : Prop := forall y m', object w' y m' <-> object w y m'.

(** The frames as the rest of the kernel counts them. *)
Definition same_frames w w' : Prop :=
  same_geometry (frames w') (frames w) /\ used_count_ (frames w') = used_count_ (frames w) /\
  next_generation_ (frames w') = next_generation_ (frames w).
(** What allocate() and release() never change, and the page account. *)
Definition same_setup s s' : Prop := frames_ s' = frames_ s /\ reserve_ s' = reserve_ s.

(** Frames in use by the rest of the kernel. *)
Definition foreign w j : Prop := inside w j /\ generation_at (frames w) j <> 0 /\ is_owned (D w j) = false.
(** Their descriptors and their bytes stay as they are. *)
Definition others_kept w w' : Prop :=
  same_geometry (frames w') (frames w) /\
  forall j, foreign w j -> D w' j = D w j /\ forall p, addr w j <= p < addr w j + slab_page_size -> World.ram w' p = World.ram w p.

Lemma others_kept_refl w : others_kept w w.
Proof. done. Qed.

Lemma others_kept_trans w w1 w2 : others_kept w w1 -> others_kept w1 w2 -> others_kept w w2.
Proof.
  intros [(G1 & G2 & G3 & G4) H1] [(G5 & G6 & G7 & G8) H2]. split; [repeat split; congruence |]. intros j Hj. destruct (H1 j Hj) as [Ed Er].
  destruct (H2 j) as [Ed' Er']; [destruct Hj as (? & ? & ?); split_and!; unfold generation_at in *; fold (D w1 j); rewrite ?Ed; done || lia |].
  split; [congruence |]. intros p Hp. rewrite Er', Er; try done. by rewrite (address_for_same (frames w1) (frames w)) by congruence.
Qed.

(** A change within one page that is free or the allocator's. *)
Lemma others_kept_page s w w' i d1 : wf s w -> inside w i -> generation_at (frames w) i = 0 \/ is_owned (D w i) = true ->
  same_geometry (frames w') (frames w) -> descriptors_ (frames w') = (descriptors_ (frames w)).[i := d1] ->
  (forall p, ~ (addr w i <= p < addr w i + slab_page_size) -> World.ram w' p = World.ram w p) -> others_kept w w'.
Proof.
  intros Hwf Hi Hno Hgeo Hd Hram. split; [done |]. intros j (Hj & Hg & Ho). assert (j <> i) as Hne by (intros ->; destruct Hno; congruence).
  split; [unfold desc; rewrite Hd; by apply aget_aset_ne; lia |]. intros p Hp. apply Hram. destruct (pages_apart s w i j Hwf Hi Hj); lia || done.
Qed.

Lemma take_slot_spec s w owner c i k : wf s w -> inside w i -> is_slab c (D w i) = true -> 0 <= k < slots_for c ->
  slot_set (header w (addr w i)) k = false ->
  exists s' w', take_slot s w owner c (addr w i) k = Some (s', w', owner, Ok (slot_address w c i k)) /\
    wf s' w' /\ objects_added w w' (slot_address w c i k) size_classes.[c] /\
    World.ram w' = zero (World.ram w) (slot_address w c i k) size_classes.[c] /\ same_frames w w' /\ same_setup s s' /\ others_kept w w'.
Proof.
  intros Hwf Hi Hs Hk Hb. destruct (slab_page s w c i Hwf Hi Hs) as (Hc & Hh & Hr & Hg).
  destruct (wf_lists s w Hwf c Hc) as [l Hl]. set (x := addr w i) in *.
  destruct (mark_slot_ok c (header w x) k true Hc Hh Hk Hb) as [Hf _]. destruct (class_facts c Hc) as (_ & ? & _).
  assert (SlabHeader.free (marked (header w x) k true) = SlabHeader.free (header w x) - 1) as Ef.
  { cbn. unfold u32_wrap. rewrite Z.mod_small by lia. lia. }
  unfold take_slot. set (h1 := SlabHeader.with_slots _ _ _). change h1 with (marked (header w x) k true). clear h1.
  set (h1 := marked (header w x) k true) in *. change (World.with_headers w (set_header (World.headers w) x h1)) with (with_header w x h1).
  change (u32_wrap (SlabHeader.free (header w x) - 1)) with (SlabHeader.free h1).
  assert (let '(s2, w2) := if SlabHeader.free h1 =? 0 then unlink s (with_header w x h1) c x else (s, with_header w x h1) in
          relinked s w c i l h1 s2 w2) as Hre.
  { destruct (Z.eqb_spec (SlabHeader.free h1) 0) as [E |].
    - apply relink_unlink; try done. fold x. lia.
    - apply relink_keep; try done. fold x. lia. }
  destruct (if _ =? 0 then _ else _) as [s2 w2]. pose proof Hre as (p & l' & Es & Efr & Era & _). rewrite Efr.
  pose proof (index_of_address_for _ (wf_frames s w Hwf) i Hi) as Ei. fold x in Ei. rewrite Ei. cbn [value mbind option_bind].
  destruct (handle_descriptor _ i (wf_frames s w Hwf) Hi Hg) as (-> & _ & Hd). cbn [value mbind option_bind]. rewrite Hd. cbn [mbind option_bind].
  destruct (su_update s s2 w w2 c i k true l (zero (World.ram w2) (slot_address w c i k) size_classes.[c]) Hwf Hi Hs Hl Hk Hb Hre) as (Hwf' & _).
  pose proof (su_objects s s2 w w2 c i k true l (zero (World.ram w2) (slot_address w c i k) size_classes.[c]) Hwf Hi Hs Hl Hk Hb Hre) as Ho.
  eexists _, _. split; [reflexivity |]. split; [exact Hwf' |]. split; [exact Ho |]. split; [by rewrite <- Era |]. split; [by subst s2 |]. split; [by subst s2 |].
  eapply (others_kept_page s _ _ i); [done | done | right; by eapply slab_owned | done | reflexivity |].
  intros q Hq. cbn [World.ram]. rewrite Era. unfold zero. destruct (slab_slot_in_page c k Hc Hk). unfold slot_address, header_bytes in *. fold x in Hq |- *.
  destruct (Z.leb_spec (x + first_offset c + k * size_classes.[c]) q), (Z.ltb_spec q (x + first_offset c + k * size_classes.[c] + size_classes.[c])); cbn; try done. lia.
Qed.

(** ** A new page *)
Definition fresh_header c : SlabHeader.t :=
  SlabHeader.mk 0 0 (u16_wrap (slots_for c)) (u16_wrap (slots_for c)) (u16_wrap c) (replicate (Z.to_nat bitmap_words) 0).

Lemma fresh_header_ok c : 0 <= c < 7 ->
  header_ok c (fresh_header c) /\ SlabHeader.free (fresh_header c) = slots_for c /\
  (forall k, 0 <= k < slots_for c -> slot_set (fresh_header c) k = false).
Proof.
  intros Hc. destruct (class_facts c Hc) as (_ & ? & _).
  assert (forall k, 0 <= k < slots_for c -> slot_set (fresh_header c) k = false) as Hno.
  { intros k Hk. unfold slot_set. cbn [SlabHeader.bitmap fresh_header]. rewrite aget_replicate; [done |].
    destruct (slot_word k ltac:(lia)). unfold bitmap_words. lia. }
  assert (u16_wrap (slots_for c) = slots_for c) as Ew by (unfold u16_wrap; apply Z.mod_small; lia).
  split_and!; [| done | done]. split; cbn [fresh_header SlabHeader.slots SlabHeader.bitmap SlabHeader.free]; try done.
  - by repeat constructor.
  - assert (taken_slots (fresh_header c) = 0) as ->; [| lia]. unfold taken_slots. cbn [fresh_header SlabHeader.slots]. rewrite Ew.
    rewrite (zsum_ext _ (fun _ => 0) _ (indices (slots_for c))); [| done |].
    + generalize (indices (slots_for c)). intros l. induction l as [| y l IH]; [done | by rewrite zsum_cons, IH].
    + intros i Hi. rewrite zlen_indices in Hi by lia. rewrite aget_indices by done. unfold taken_unit. by rewrite Hno.
Qed.

Lemma unowned_elsewhere s w i k y : wf s w -> inside w i -> is_owned (D w i) = false -> small w k y <->
  exists j m, inside w j /\ j <> i /\ is_slab k (D w j) = true /\ 0 <= m < slots_for k /\ slot_set (header w (addr w j)) m = true /\
     y = addr w j + first_offset k + m * size_classes.[k].
Proof.
  intros Hwf Hi Ho. split; [intros (j & m & Hj & Hs & Hm & Hb & ->) | intros (j & m & Hj & _ & Hs & Hm & Hb & ->)]; exists j, m; split_and!; try done; try lia.
  intros ->. apply slab_owned in Hs. congruence.
Qed.

(** The invariant does not depend on the event counters. *)
Lemma wf_counters s s' w : wf s w -> classes_ s' = classes_ s -> zlen (allocations_ s') = 3 -> ChargeAccount.wf (pages_ s') ->
  ChargeAccount.used (pages_ s') = ChargeAccount.used (pages_ s) -> large_pages_ s' = large_pages_ s ->
  large_allocations_ s' = large_allocations_ s -> wf s' w.
Proof.
  intros [? ? ? ? ? ? ? ? Hlists ? ? ? ? ? ?] Ec Ea Hp Eu El En. split; rewrite ?Ec, ?Eu, ?El, ?En; try done.
  intros c Hc. destruct (Hlists c Hc) as [l Hl]. exists l. unfold list_ok. by rewrite Ec.
Qed.

Lemma page_added s w c i a acc ram : wf s w -> 0 <= c < 7 -> inside w i -> partial s c = 0 -> generation_at (frames w) i = 0 ->
  Frames.wf a -> same_geometry a (frames w) -> next_generation_ (frames w) <> 0 -> ChargeAccount.wf acc ->
  ChargeAccount.used acc = ChargeAccount.used (pages_ s) + 1 ->
  descriptors_ a = (descriptors_ (frames w)).[i := PageDescriptor.mk (next_generation_ (frames w)) 0 0 PageKind.kernel_slab c] ->
  let '(s2, w2) := push (with_account s acc) (World.mk a (set_header (World.headers w) (addr w i) (fresh_header c)) ram) c (addr w i) in
  wf (add_pages s2 c 1) w2 /\ objects_same w w2 /\ is_slab c (D w2 i) = true /\ frames w2 = a /\ World.ram w2 = ram /\
  s2 = with_partial (with_account s acc) c (addr w i) /\ SlabHeader.free (header w2 (addr w i)) = slots_for c.
Proof.
  intros Hwf Hc Hi Hp Hg Ha Hgeo Hng Hacc Hu Hd. destruct (fresh_header_ok c Hc) as (Hok & Hf & Hno).
  destruct (class_facts c Hc) as (_ & ? & _). destruct (addr_facts s w i Hwf Hi) as (? & _).
  destruct (wf_lists s w Hwf c Hc) as [l Hl]. assert (l = []) as ->.
  { destruct Hl as (Hdl & _). rewrite Hp in Hdl. by destruct (dll_head _ _ _ _ Hdl) as [[_ ?] | [? _]]. }
  set (w1 := World.mk _ _ _). pose proof (push_dll (with_account s acc) w1 c (addr w i) []) as Hu1.
  destruct (push _ _ _ _) as [s2 w2]. destruct Hu1 as (-> & Ef & Era & Hdll & Hco & Hfar); [exact Hp | constructor | by apply not_elem_of_nil | lia |].
  cbn [World.frames World.ram w1] in Ef, Era. set (d1 := PageDescriptor.mk _ 0 0 _ c) in Hd.
  assert (is_slab c d1 = true) as Hs1 by (unfold is_slab; cbn; by rewrite Z.eqb_refl).
  assert (is_owned (D w i) = false) as Ho.
  { destruct (is_owned (D w i)) eqn:E; [| done]. by apply (wf_owned s w Hwf) in E. }
  pose proof (Hco (addr w i)) as Hx. cbn [w1 World.headers] in Hx. rewrite set_header_same in Hx.
  assert (forall y, y <> addr w i -> header w2 y = header w y) as Hsame.
  { intros y Hy. rewrite Hfar; [cbn; by rewrite set_header_other |]. rewrite elem_of_cons, elem_of_nil. by intros [? | ?]. }
  assert (SlabHeader.free (header w2 (addr w i)) = slots_for c) as Efree by (injection Hx as E _ _ _; cbn in E, Hf; congruence).
  assert (slab_unit c (D w i) = 0 /\ slab_refs c (D w i) = 0 /\ owned_unit (D w i) = 0) as (E1 & E2 & E3).
  { unfold slab_unit, slab_refs, owned_unit. rewrite Ho. destruct (is_slab c (D w i)) eqn:E; [apply slab_owned in E; congruence | done]. }
  assert (forall j, 0 <= j -> (classes_ (add_pages (with_partial (with_account s acc) c (addr w i)) c 1)).[j] =
    if j =? c then Class.mk (addr w i) (Class.pages (classes_ s).[c] + 1) (Class.live (classes_ s).[c]) else (classes_ s).[j]) as Hcl.
  { intros j Hj. pose proof (wf_classes s w Hwf). cbn. rewrite !aget_aset by (rewrite ?zlen_aset; lia). rewrite Z.eqb_refl. by destruct (j =? c). }
  assert (Frames.wf (frames w2) /\ same_geometry (frames w2) (frames w) /\ descriptors_ (frames w2) = (descriptors_ (frames w)).[i := d1]) as (Ha' & Hgeo' & Hd')
    by (by rewrite Ef).
  assert (forall y, y <> addr w i -> core (header w2 y) = core (header w y)) as Hcore by (intros y Hy; by rewrite Hsame).
  split_and!; try done.
  - eapply (page_update_wf s _ w w2 c i d1 [] [addr w i]); rewrite ?Hcl, ?Z.eqb_refl by lia; try done; auto using NoDup_singleton.
    + intros _. split_and!; [done | by eapply core_ok | cbn; lia].
    + intros y. rewrite elem_of_cons, elem_of_nil, Efree. split; [intros [-> | []]; right; split_and!; done || lia | intros [[_ []] | [-> _]]; by left].
    + intros k Hk Hne. rewrite Hcl by lia. by replace (k =? c) with false by lia.
    + cbn. rewrite !zlen_aset. apply (wf_classes s w Hwf).
    + apply (wf_allocations s w Hwf).
    + rewrite E1. unfold slab_unit. rewrite Hs1. cbn. lia.
    + rewrite E2. unfold slab_refs. rewrite Hs1. cbn. lia.
    + rewrite E3. unfold owned_unit. rewrite (slab_owned _ _ Hs1). cbn in *. lia.
  - intros y m. unfold object.
    assert (forall k, small w2 k y <-> small w k y) as Hsm.
    { intros k. rewrite (unowned_elsewhere s w i k y Hwf Hi Ho), (page_update_small s w w2 c i d1); auto; try done.
      split; [intros [? | (_ & _ & m' & Hm' & Hb & _)]; [done |] | by left]. rewrite (core_slot _ _ _ Hx), Hno in Hb by done. done. }
    assert (forall k, large w2 k y <-> large w k y) as Hlg by (intros k; eapply (page_update_large s w w2 c i d1); auto; done).
    split; intros [(k & ? & ? & Hk) | (k & ? & Hk)]; [left; exists k; by apply Hsm in Hk | right; exists k; by apply Hlg in Hk
      | left; exists k; by apply Hsm in Hk | right; exists k; by apply Hlg in Hk].
  - rewrite Ef. unfold desc. rewrite Hd, aget_aset_eq; [done |]. by rewrite (Frames.wf_descriptors _ (wf_frames s w Hwf)).
Qed.

Lemma new_page_spec s w c ctx : wf s w -> 0 <= c < 7 -> partial s c = 0 ->
  exists s' w' r, new_page s w c ctx = Some (s', w', r) /\ wf s' w' /\ same_setup s s' /\ objects_same w w' /\
  match r with
  | Err e => w' = w /\ e <> StatusCode.ok /\
      (reserve_frames_for s w 1 ctx = e \/ snd (ChargeAccount.charge (pages_ s) 1) = e \/ next_generation_ (frames w) = 0)
  | Ok page => exists i, inside w i /\ is_owned (D w i) = false /\ page = addr w i /\ same_geometry (frames w') (frames w) /\
      is_slab c (D w' i) = true /\ SlabHeader.free (header w' page) = slots_for c /\
      World.ram w' = zero (World.ram w) page slab_page_size /\ used_count_ (frames w') = used_count_ (frames w) + 1 /\ others_kept w w' /\
      (AllocationContext.is_atomic ctx = false -> reserve_ s <= free_frames (frames w'))
  end.
Proof.
  intros Hwf Hc Hp. unfold new_page. destruct (status_ok (reserve_frames_for s w 1 ctx)) eqn:Er; cbn [negb].
  2: { exists s, w, (Err (reserve_frames_for s w 1 ctx)). split_and!; try done; [| by left]. intros E. by rewrite E in Er. }
  pose proof (allocate_charged_cases _ _ (wf_frames s w Hwf) (wf_account s w Hwf)) as Ha.
  destruct (allocate_charged (frames w) (pages_ s)) as [[a acc] [f | e]].
  2: { destruct Ha as (_ & _ & Hacc & -> & Hu & He & Hr). exists (with_account s acc), w, (Err e). split; [by destruct w |]. split_and!; try done.
       - apply (wf_counters s); try done. apply (wf_allocations s w Hwf).
       - destruct Hr as [? | [Hr | ?]]; [by auto | exfalso | by auto]. revert Er. unfold reserve_frames_for, free_frames in *. cmp. done. }
  destruct Ha as (Hfw & Hgeo & Hacc & i & Hi & Hg & -> & Hd & Hng & Hu & Huc). pose proof Hgeo as (_ & _ & Hfc & _).
  assert (0 <= i < zlen (descriptors_ (frames w))) as Hil by (by rewrite (Frames.wf_descriptors _ (wf_frames s w Hwf))).
  assert (desc a i = PageDescriptor.mk (next_generation_ (frames w)) 0 0 0 0) as Edi by (unfold desc; rewrite Hd; by apply aget_aset_eq).
  assert (generation_at a i = next_generation_ (frames w)) as Hga by (unfold generation_at; fold (desc a i); by rewrite Edi).
  destruct (handle_descriptor a i Hfw ltac:(lia) ltac:(congruence)) as (_ & _ & ->). cbn [mbind option_bind]. rewrite Edi.
  set (a' := write_descriptor _ _ _). change (PhysicalFrame.address (handle a i)) with (address_for a i).
  assert (address_for a i = addr w i) as -> by (by apply same_geometry_address).
  change (SlabHeader.mk 0 0 _ _ _ _) with (fresh_header c).
  assert (u8_wrap c = c) as Ec by (unfold u8_wrap; apply Z.mod_small; lia).
  pose proof (page_added s w c i a' acc (zero (World.ram w) (addr w i) slab_page_size) Hwf Hc Hi Hp Hg) as Hadd.
  destruct (push _ _ _ _) as [s2 w2]. destruct Hadd as (Hwf' & Hobj & Hsl & Ef & Era & -> & Efree); try done.
  { apply (write_descriptor_wf a i); [done | lia | by rewrite Hga]. }
  { cbn. rewrite Hd, Ec. unfold aset. by rewrite list_insert_insert_eq. }
  eexists _, _, _. split; [reflexivity |]. split_and!; try done. exists i. rewrite Ef. split_and!; try done; try lia.
  - destruct (is_owned (D w i)) eqn:E; [| done]. by apply (wf_owned s w Hwf) in E.
  - by rewrite <- Ef.
  - eapply (others_kept_page s _ _ i); [done | done | by left | by rewrite Ef | rewrite Ef; cbn; rewrite Hd; unfold aset; by rewrite list_insert_insert_eq |].
    intros q Hq. rewrite Era. unfold zero. destruct (Z.leb_spec (addr w i) q), (Z.ltb_spec q (addr w i + slab_page_size)); cbn; try done. lia.
  - intros Hat. revert Er. unfold reserve_frames_for, free_frames in *. rewrite Hat. cbn [a' write_descriptor with_descriptors frame_count_ used_count_].
    repeat case_match; b2p; try done; intros _; lia.
Qed.
End Small.
