(* ===== verification/SlabAlloc.v ===== *)
(** * Slab allocation: the small path of allocate()

    What a caller of allocate() gets, and the proof for objects that fit a
    size class. *)

From S2P Require Import Prelude Charges Regions Sweep Frames FrameSearch FrameSpec FrameAlloc Slab SlabInv SlabSmall.
Import SlabAllocator.

Section Contract.
Context `{Arch}.
Import FrameAllocator.
#[local] Arguments address_for : simpl never.
#[local] Arguments set_header : simpl never.
#[local] Arguments desc : simpl never.
#[local] Arguments object : simpl never.
Abbreviation wf := SlabInv.wf.
Abbreviation frames w := (World.frames w).
Abbreviation D w i := (desc (frames w) i).
Abbreviation addr w i := (address_for (frames w) i).
Abbreviation inside w i := (0 <= i < frame_count_ (frames w)).
Abbreviation header w x := (World.headers w x).
Abbreviation partial s c := (Class.partial (classes_ s).[c]).

(** Frames an allocation of [size] bytes takes from the frame allocator. *)
Definition frames_needed (s : SlabAllocator.t) (size : Z) : Z :=
  if large_threshold <? size then charge_for size / slab_page_size
  else if partial s (class_index size) =? 0 then 1 else 0.

(** Why allocate() may refuse with [e]. *)
Definition refusal (s : SlabAllocator.t) (w : World.t) (size : Z) (owner : ChargeAccount.t) (ctx : AllocationContext.t) (e : Status) : Prop :=
  let n := frames_needed s size in
  e <> StatusCode.ok /\
  (frames_ s = false \/ size = 0 \/ charge_for size = 0 \/ u32_max < n \/
   snd (ChargeAccount.charge owner (charge_for size)) = e \/
   0 < n /\ (reserve_frames_for s w n ctx = e \/ snd (ChargeAccount.charge (pages_ s) n) = e \/
             next_generation_ (frames w) = 0 \/ u64_max < next_generation_ (frames w) + n \/
             forall g, ~ fit_at (frames w) n 0 g)).

(** The bytes of the objects of [w] are the same in [w']. *)
Definition objects_kept (w w' : World.t) : Prop :=
  forall y m p, object w y m -> y <= p < y + m -> World.ram w' p = World.ram w p.

(** What the caller of allocate() gets. *)
Definition allocated s w size owner ctx (s' : SlabAllocator.t) (w' : World.t) (owner' : ChargeAccount.t) (r : result Z) : Prop :=
  wf s' w' /\ same_setup s s' /\ ChargeAccount.wf owner' /\ others_kept w w' /\
  match r with
  | Ok o =>
      let b := charge_for size in
      size <= b /\ 0 < o /\ o mod 16 = 0 /\ objects_added w w' o b /\
      (forall y m, object w y m -> apart o b y m) /\ (forall p, o <= p < o + b -> World.ram w' p = 0) /\ objects_kept w w' /\
      ChargeAccount.used owner' = ChargeAccount.used owner + b /\
      (AllocationContext.is_atomic ctx = false -> 0 < frames_needed s size -> reserve_ s <= free_frames (frames w'))
  | Err e => w' = w /\ ChargeAccount.used owner' = ChargeAccount.used owner /\ refusal s w size owner ctx e
  end.

Lemma class_index_spec size : 0 < size <= large_threshold ->
  0 <= class_index size < 7 /\ size <= size_classes.[class_index size] /\ charge_for size = size_classes.[class_index size].
Proof.
  unfold large_threshold. intros Hs. assert (0 <= class_index size < 7 /\ size <= size_classes.[class_index size]) as [Hc Hle].
  { unfold class_index, size_classes. cbn [class_search]. repeat (case_match; [b2p; split; [lia | match goal with |- _ <= ?v => let u := eval vm_compute in v in change v with u end; lia] |]). b2p. lia. }
  split_and!; try done; try lia. unfold charge_for. do 2 cmp. replace (class_index size <? zlen size_classes) with true; [done |].
  symmetry. apply Z.ltb_lt. change (zlen size_classes) with 7. lia.
Qed.

(** A clear slot is not an object. *)
Lemma slot_fresh s w c i k m : wf s w -> inside w i -> is_slab c (D w i) = true -> 0 <= k < slots_for c ->
  slot_set (header w (addr w i)) k = false -> ~ object w (slot_address w c i k) m.
Proof.
  intros Hwf Hi Hs Hk Hb. destruct (slab_page s w c i Hwf Hi Hs) as (Hc & _). destruct (class_facts c Hc) as (? & _).
  destruct (slab_slot_in_page c k Hc Hk). unfold slot_address, header_bytes in *.
  intros [(c' & Hc' & -> & j & k' & Hj & Hs' & Hk' & Hb' & E) | (n & -> & j & Hj & Hh & _ & E)].
  - destruct (Z.eq_dec i j) as [-> | Hne].
    + assert (c' = c) as -> by (unfold is_slab in *; b2p; congruence). assert (k = k') as -> by nia. congruence.
    + destruct (slab_slot_in_page c' k' Hc' Hk'), (class_facts c' Hc') as (? & _). unfold header_bytes in *. destruct (pages_apart s w i j Hwf Hi Hj Hne); lia.
  - destruct (addr_facts s w i Hwf Hi) as (_ & Hai & _), (addr_facts s w j Hwf Hj) as (_ & Haj & _).
    destruct (aligned_diff _ _ Haj Hai) as [q Eq]. unfold slab_page_size in *. nia.
Qed.

Lemma slot_aligned s w c i k : wf s w -> inside w i -> 0 <= c < 7 -> slot_address w c i k mod 16 = 0.
Proof.
  intros Hwf Hi Hc. destruct (addr_facts s w i Hwf Hi) as (_ & Ha & _).
  assert (first_offset c mod 16 = 0 /\ size_classes.[c] mod 16 = 0) as [Hf Hz]
    by (destruct (class_cases c Hc) as [-> | [-> | [-> | [-> | [-> | [-> | ->]]]]]]; by vm_compute).
  assert (addr w i mod 16 = 0) as Ha' by (unfold slab_page_size in Ha; apply Z.mod_divide; [lia |]; apply Z.mod_divide in Ha; [| lia]; etransitivity; [| exact Ha]; by exists 256).
  unfold slot_address. apply Z.mod_divide in Hf, Hz, Ha'; try lia. apply Z.mod_divide; [lia |].
  apply Z.divide_add_r; [by apply Z.divide_add_r | by apply Z.divide_mul_r].
Qed.

(** The page allocate() takes a slot of: the head of the class list, or a new page. *)
Lemma page_for_slot s w c ctx : wf s w -> 0 <= c < 7 ->
  exists s1 w1 r, (if partial s c =? 0 then new_page s w c ctx else Some (s, w, Ok (partial s c))) = Some (s1, w1, r) /\
    wf s1 w1 /\ same_setup s s1 /\
    match r with
    | Err e => partial s c = 0 /\ w1 = w /\ e <> StatusCode.ok /\
        (reserve_frames_for s w 1 ctx = e \/ snd (ChargeAccount.charge (pages_ s) 1) = e \/ next_generation_ (frames w) = 0)
    | Ok page => objects_same w w1 /\ objects_kept w w1 /\ others_kept w w1 /\
        (exists i, inside w1 i /\ is_slab c (D w1 i) = true /\ page = addr w1 i /\ 0 < SlabHeader.free (header w1 page)) /\
        (AllocationContext.is_atomic ctx = false -> partial s c = 0 -> reserve_ s <= free_frames (frames w1))
    end.
Proof.
  intros Hwf Hc. destruct (class_facts c Hc) as (_ & ? & _). destruct (Z.eqb_spec (partial s c) 0) as [Hp | Hp].
  - destruct (new_page_spec s w c ctx Hwf Hc Hp) as (s1 & w1 & r & -> & Hwf1 & Hset & Hobj & Hr). exists s1, w1, r. split_and!; try done.
    destruct r as [page | e]; [| destruct Hr as (? & ? & ?); by split_and!].
    destruct Hr as (i & Hi & Ho & -> & Hgeo & Hsl & Hfree & Hram & _ & Hok & Hres). split_and!; try done; [| | auto].
    + intros y m p Hy Hp'. rewrite Hram. unfold zero. destruct (free_page_apart s w i y m Hwf Hi Ho Hy) as [? | ?];
        (destruct (Z.leb_spec (addr w i) p), (Z.ltb_spec p (addr w i + slab_page_size)); cbn; [lia | done..]).
    + exists i. pose proof Hgeo as (_ & _ & Hfc & _). rewrite (same_geometry_address _ _ i Hgeo). split_and!; try done; lia.
  - eexists s, w, _. split; [done |]. split_and!; try done.
    destruct (wf_lists s w Hwf c Hc) as (l & Hd & _ & Hin). destruct (dll_head _ _ _ _ Hd) as [[? _] | [_ Hm]]; [done |].
    apply Hin in Hm as (i & Hi & Hs & Ea & Hf). exists i. by rewrite Ea.
Qed.

(** A new object lies apart from the others, which keep their bytes. *)
Lemma object_fresh s' w w' o b r : wf s' w' -> objects_added w w' o b -> (forall m, ~ object w o m) ->
  World.ram w' = zero r o b -> (forall y m p, object w y m -> y <= p < y + m -> r p = World.ram w p) ->
  0 < o /\ (forall y m, object w y m -> apart o b y m) /\ (forall p, o <= p < o + b -> World.ram w' p = 0) /\ objects_kept w w'.
Proof.
  intros Hwf Hadd Hno Hram Hr. assert (object w' o b) as Ho by (apply Hadd; by right).
  assert (forall y m, object w y m -> apart o b y m) as Hapart.
  { intros y m Hy. destruct (objects_apart s' w' o b y m Hwf Ho) as [[<- <-] | ?]; [by apply Hadd; left | by apply Hno in Hy | done]. }
  split_and!; try done; [by apply (object_positive s' w' o b) | |].
  - intros p Hp. rewrite Hram. unfold zero. by cmp.
  - intros y m p Hy Hp. rewrite Hram. unfold zero. destruct (Hapart y m Hy) as [? | ?];
      (destruct (Z.leb_spec o p), (Z.ltb_spec p (o + b)); cbn; [lia | by eapply Hr..]).
Qed.

Lemma allocate_small s w size owner ctx : wf s w -> ChargeAccount.wf owner -> frames_ s = true -> 0 < size <= large_threshold ->
  exists s' w' owner' r, allocate_object s w size owner ctx = Some (s', w', owner', r) /\ allocated s w size owner ctx s' w' owner' r.
Proof.
  intros Hwf Hown Hf Hsize. destruct (class_index_spec size Hsize) as (Hc & Hle & Hcf). set (c := class_index size) in *.
  destruct (class_facts c Hc) as (Hsz & _). assert (0 <= size_classes.[c]) as Hsz0 by lia. unfold allocate_object. rewrite Hf. cbn [negb]. fold c.
  replace (size =? 0) with false by lia. replace (large_threshold <? size) with false by lia.
  assert (frames_needed s size = if partial s c =? 0 then 1 else 0) as Hn by (unfold frames_needed; by replace (large_threshold <? size) with false by lia).
  destruct (ChargeAccount.charge owner size_classes.[c]) as [owner1 st] eqn:Ech. 
  assert (ChargeAccount.wf owner1) as Hown1 by (by eapply charge_wf; [exact Hown | exact Hsz0 | exact Ech]).
  destruct (status_ok st) eqn:Est; cbn [negb].
  2: { assert (st <> StatusCode.ok) as Hne by (by intros ->). rewrite (charge_err _ _ _ _ Ech Hne). eexists _, _, _, _. split; [reflexivity |].
       split_and!; try done. split; [done |]. do 4 right. left. by rewrite Hcf, Ech. }
  assert (st = StatusCode.ok) as -> by (by destruct st). pose proof (charge_ok _ _ _ Ech) as Hu.
  destruct (page_for_slot s w c ctx Hwf Hc) as (s1 & w1 & r & -> & Hwf1 & Hset & Hr). cbn [mbind option_bind].
  destruct r as [page | e].
  2: { destruct Hr as (Hp & -> & Hne & Hwhy). eexists _, _, _, _. split; [reflexivity |]. 
       destruct (charge_undone _ _ _ Hown Hsz0 Ech) as [? ?]. split_and!; try done.
       split; [done |]. do 5 right. rewrite Hn, Hp. cbn [Z.eqb]. split; [lia |]. destruct Hwhy as [? | [? | ?]]; auto. }
  destruct Hr as (Hobj & Hkept & Hoth & (i & Hi & Hs & -> & Hfree) & Hres).
  destruct (slab_page s1 w1 c i Hwf1 Hi Hs) as (_ & Hh & _).
  destruct (find_slot_free c (header w1 (addr w1 i)) Hc Hh Hfree) as (k & -> & Hk & Hb).
  destruct (take_slot_spec s1 w1 owner1 c i k Hwf1 Hi Hs Hk Hb) as (s2 & w2 & -> & Hwf2 & Hadd & Hram & (Hgeo & Hus & _) & Hset2 & Hoth2).
  exists s2, w2, owner1, (Ok (slot_address w1 c i k)). split; [done |]. set (o := slot_address w1 c i k) in *.
  assert (objects_added w w2 o size_classes.[c]) as Hadd' by (intros y m; pose proof (Hadd y m) as E; rewrite E, (Hobj y m); done).
  destruct (object_fresh s2 w w2 o size_classes.[c] (World.ram w1) Hwf2 Hadd') as (? & ? & ? & ?); try done.
  { intros m Hy. by apply Hobj, (slot_fresh s1 w1 c i k m Hwf1 Hi Hs Hk Hb) in Hy. }
  split; [done |]. split; [destruct Hset, Hset2; split; congruence |]. split; [done |]. split; [by eapply others_kept_trans |]. rewrite Hcf. split_and!; try done.
  - by apply (slot_aligned s1).
  - intros Hat. rewrite Hn. destruct (Z.eqb_spec (partial s c) 0) as [Hp |]; [| lia]. intros _. specialize (Hres Hat Hp).
    destruct Hgeo as (_ & _ & Hfc & _). unfold free_frames in *. lia.
Qed.
End Contract.
