(* ===== verification/SlabRelease.v ===== *)
(** * Slab release: the small path of release()

    What a caller of release() gets, and the proof for objects that fit a
    size class, the return of an empty page included. *)

From S2P Require Import Prelude Charges Regions Sweep Frames FrameSearch FrameSpec FrameAlloc Slab SlabInv SlabSmall SlabAlloc.
Import SlabAllocator.

Section ReleaseSmall.
Context `{Arch}.
Import FrameAllocator.
#[local] Arguments address_for : simpl never.
#[local] Arguments set_header : simpl never.
#[local] Arguments desc : simpl never.
#[local] Arguments object : simpl never.
Abbreviation wf := SlabInv.wf.
Abbreviation frames w := (World.frames w).
Abbreviation D w i := (desc (frames w) i).
Abbreviation addr w i := (address_for (frames w) i).
Abbreviation inside w i := (0 <= i < frame_count_ (frames w)).
Abbreviation header w x := (World.headers w x).
Abbreviation partial s c := (Class.partial (classes_ s).[c]).

(** What the caller of release() gets. *)
Definition releasable (s : SlabAllocator.t) (w : World.t) (o size : Z) (owner : ChargeAccount.t) : Prop :=
  frames_ s = true /\ 0 < size /\ object w o (charge_for size) /\ charge_for size <= ChargeAccount.used owner.
Definition released s w o size owner (s' : SlabAllocator.t) (w' : World.t) (owner' : ChargeAccount.t) (st : Status) : Prop :=
  (st = StatusCode.ok /\ releasable s w o size owner /\ wf s' w' /\ same_setup s s' /\ objects_removed w w' o /\ others_kept w w' /\
     World.ram w' = World.ram w /\ ChargeAccount.wf owner' /\
     ChargeAccount.used owner' = ChargeAccount.used owner - charge_for size) \/
  (st <> StatusCode.ok /\ ~ releasable s w o size owner /\ s' = s /\ w' = w /\ owner' = owner).

(** ** Returning an empty page *)
Lemma empty_header c h k : 0 <= c < 7 -> header_ok c h -> SlabHeader.free h = SlabHeader.slots h -> 0 <= k < slots_for c -> slot_set h k = false.
Proof.
  intros Hc [Hs _ _ Hf] He Hk. destruct (slot_set h k) eqn:E; [| done]. exfalso.
  assert (taken_slots h = 0) as Ht by lia. unfold taken_slots in Ht. rewrite Hs in Ht.
  pose proof (zsum_elem (taken_unit h) (indices (slots_for c)) k) as Hz. rewrite zlen_indices, aget_indices in Hz by lia.
  assert (taken_unit h k = 1) as E1 by (unfold taken_unit; by rewrite E). rewrite E1 in Hz.
  enough (1 <= zsum (taken_unit h) (indices (slots_for c))) by lia. apply Hz; [| lia].
  apply Forall_forall. intros y _. unfold taken_unit. by destruct (slot_set h y).
Qed.

Lemma charged_page s w i : wf s w -> inside w i -> is_owned (D w i) = true -> 0 < ChargeAccount.used (pages_ s).
Proof.
  intros Hwf Hi Ho. rewrite (wf_charged s w Hwf). pose proof (zsum_elem owned_unit (descriptors_ (frames w)) i) as Hz.
  assert (owned_unit (descriptors_ (frames w)).[i] = 1) as E1 by (fold (desc (frames w) i); unfold owned_unit; by rewrite Ho). rewrite E1 in Hz.
  assert (1 <= zsum owned_unit (descriptors_ (frames w))); [| lia]. apply Hz.
  - apply Forall_forall. intros d _. unfold owned_unit. by destruct (is_owned d).
  - by rewrite (Frames.wf_descriptors _ (wf_frames s w Hwf)).
Qed.

Lemma page_removed s w c i : wf s w -> inside w i -> is_slab c (D w i) = true -> SlabHeader.free (header w (addr w i)) = SlabHeader.slots (header w (addr w i)) ->
  let '(s1, w1) := unlink s w c (addr w i) in
  let '(a, acc, st) := release_charged (frames w1) (handle (frames w) i) (pages_ s1) in
  st = StatusCode.ok /\ wf (add_pages (with_account s1 acc) c (-1)) (World.with_frames w1 a) /\ same_setup s (with_account s1 acc) /\
  objects_same w (World.with_frames w1 a) /\ others_kept w (World.with_frames w1 a) /\ World.ram w1 = World.ram w.
Proof.
  intros Hwf Hi Hs Hempty. destruct (slab_page s w c i Hwf Hi Hs) as (Hc & Hh & Hr & Hg). destruct (class_facts c Hc) as (_ & ? & _).
  destruct (wf_lists s w Hwf c Hc) as (l & Hl). pose proof Hl as (Hd & Hnd & Hin). pose proof (wf_classes s w Hwf) as Hz.
  assert (addr w i ∈ l) as Hx by (eapply listed_member; [done.. |]; rewrite Hempty, (hd_slots c _ Hh); lia).
  pose proof (unlink_spec s w c (addr w i) l ltac:(lia) Hd Hnd Hx) as Hu. destruct (unlink s w c (addr w i)) as [s1 w1].
  destruct Hu as (p & l' & -> & Ef & Era & Hd' & Hnd' & Hm & Hco & Hfar). rewrite Ef.
  pose proof (release_charged_ok (frames w) i (pages_ s) (wf_frames s w Hwf) (wf_account s w Hwf) Hi Hg (charged_page s w i Hwf Hi (slab_owned _ _ Hs))) as Hrel.
  change (pages_ (with_partial s c p)) with (pages_ s). destruct (release_charged _ _ _) as [[a acc] st].
  destruct Hrel as (-> & Ha & Hgeo & Hacc & Hdesc & _ & Hus & _). set (w2 := World.with_frames w1 a).
  assert (is_owned PageDescriptor.zero = false) as Hz0 by done. assert (is_slab c PageDescriptor.zero = false) as Hz1 by done.
  assert (forall y, y <> addr w i -> core (header w2 y) = core (header w y)) as Hcore by (intros y _; apply Hco).
  assert (forall j, 0 <= j -> (classes_ (add_pages (with_account (with_partial s c p) acc) c (-1))).[j] =
    if j =? c then Class.mk p (Class.pages (classes_ s).[c] - 1) (Class.live (classes_ s).[c]) else (classes_ s).[j]) as Hcl.
  { intros j Hj. cbn. rewrite !aget_aset by (rewrite ?zlen_aset; lia). rewrite Z.eqb_refl. by destruct (j =? c). }
  split_and!; try done.
  - eapply (page_update_wf s _ w w2 c i PageDescriptor.zero l l'); rewrite ?Hcl, ?Z.eqb_refl by lia; try done; auto.
    + intros y _ Hy. by apply Hfar.
    + intros y. rewrite Hm, Hz1. split; [intros []; by left | intros [[] | (_ & ? & _)]; done].
    + intros k Hk Hne. rewrite Hcl by lia. by replace (k =? c) with false by lia.
    + cbn. rewrite !zlen_aset. done.
    + apply (wf_allocations s w Hwf).
    + unfold slab_unit. rewrite Hs, Hz1. cbn. lia.
    + unfold slab_refs. rewrite Hs, Hz1. cbn. rewrite Hr, Hempty, (hd_slots c _ Hh). lia.
    + unfold owned_unit. rewrite (slab_owned _ _ Hs), Hz0. cbn in *. lia.
  - intros y m. assert (forall k, small w2 k y <-> small w k y) as Hsm.
    { intros k. rewrite (page_update_small s w w2 c i PageDescriptor.zero); auto; try done. split.
      - intros [(j & m' & ? & _ & ? & ? & ? & ->) | (_ & ? & _)]; [by exists j, m' | done].
      - intros (j & m' & Hj & Hs' & Hm' & Hb & ->). left. exists j, m'. split_and!; try done; try lia. intros ->.
        assert (k = c) as -> by (unfold is_slab in *; b2p; congruence). rewrite (empty_header c _ m' Hc Hh Hempty Hm') in Hb. done. }
    assert (forall k, large w2 k y <-> large w k y) as Hlg by (intros k; eapply (page_update_large s w w2 c i PageDescriptor.zero); auto; done).
    unfold object. split; intros [(k & ? & ? & Hk) | (k & ? & Hk)]; [left; exists k; by apply Hsm in Hk | right; exists k; by apply Hlg in Hk
      | left; exists k; by apply Hsm in Hk | right; exists k; by apply Hlg in Hk].
  - eapply (others_kept_page s _ _ i); [done | done | right; by eapply slab_owned | done | exact Hdesc | intros q _; cbn; by rewrite Era].
Qed.

(** ** Finding the slot *)
Lemma owned_page_spec s w p kind : wf s w ->
  match owned_page w p kind with
  | Ok f => exists i, inside w i /\ p = addr w i /\ generation_at (frames w) i <> 0 /\ PageDescriptor.kind (D w i) = kind /\
      f = handle (frames w) i /\ descriptor (frames w) f = Some (D w i)
  | Err e => e <> StatusCode.ok /\
      forall i, inside w i -> p = addr w i -> generation_at (frames w) i <> 0 -> PageDescriptor.kind (D w i) <> kind
  end.
Proof.
  intros Hwf. pose proof (wf_frames s w Hwf) as Hf. unfold owned_page. destruct (index_of (frames w) p) as [i | e] eqn:Ei.
  2: { split; [done |]. intros i Hi ->. by rewrite (index_of_address_for _ Hf i Hi) in Ei. }
  destruct (index_of_ok _ Hf p i Ei) as [Hi <-].
  assert (forall j, inside w j -> addr w i = addr w j -> j = i) as Hinj by (intros j Hj E; symmetry; by eapply address_for_inj).
  destruct (decide (generation_at (frames w) i = 0)) as [Hg | Hg].
  - unfold handle_at. change (PageDescriptor.generation (descriptors_ (frames w)).[i]) with (generation_at (frames w) i).
    rewrite Hg, orb_true_r. split; [done |]. intros j Hj E. by rewrite (Hinj j Hj E).
  - destruct (handle_descriptor (frames w) i Hf Hi Hg) as (-> & _ & Hd). rewrite Hd.
    destruct (Z.eqb_spec (PageDescriptor.kind (D w i)) kind) as [Hk | Hk]; [by exists i |].
    split; [done |]. intros j Hj E. by rewrite (Hinj j Hj E).
Qed.

Lemma page_of o : 0 <= o <= usize_max -> Z.land o (usize_not (slab_page_size - 1)) = o - o mod slab_page_size.
Proof. intros Ho. apply (land_not_mask o 12); lia. Qed.

(** The slot checks of release() accept exactly the objects of the class. *)
Lemma slot_of_object s w c i o : wf s w -> inside w i -> is_slab c (D w i) = true ->
  o - o mod slab_page_size = addr w i -> 
  let offset := o - addr w i in
  let slot := (offset - first_offset c) / size_classes.[c] in
  (offset <? first_offset c) || negb ((offset - first_offset c) mod size_classes.[c] =? 0) = false ->
  (SlabHeader.slots (header w (addr w i)) <=? slot) || negb (slot_set (header w (addr w i)) slot) = false ->
  0 <= slot < slots_for c /\ slot_set (header w (addr w i)) slot = true /\ o = slot_address w c i slot.
Proof.
  intros Hwf Hi Hs Hp offset slot H1 H2. destruct (slab_page s w c i Hwf Hi Hs) as (Hc & Hh & _). destruct (class_facts c Hc) as (Hsz & _).
  b2p. rewrite (hd_slots c _ Hh) in *. unfold slot_address.
  assert (size_classes.[c] <> 0) as Hnz by lia. pose proof (Z.div_mod (offset - first_offset c) _ Hnz) as Hdm. fold slot in Hdm.
  assert (0 <= slot) by (apply Z.div_pos; lia). split_and!; try done. unfold offset in *. nia.
Qed.

Lemma object_slot s w c o : wf s w -> 0 <= c < 7 -> object w o size_classes.[c] ->
  exists i k, inside w i /\ is_slab c (D w i) = true /\ 0 <= k < slots_for c /\ slot_set (header w (addr w i)) k = true /\ o = slot_address w c i k /\
    o - o mod slab_page_size = addr w i.
Proof.
  intros Hwf Hc Ho. destruct (class_facts c Hc) as (Hsz & _). destruct Ho as [(c' & Hc' & E & i & k & Hi & Hs & Hk & Hb & ->) | (n & E & i & Hi & Hh & Hr & ->)].
  - assert (c' = c) as ->.
    { destruct (class_cases c Hc) as [-> | [-> | [-> | [-> | [-> | [-> | ->]]]]]]; destruct (class_cases c' Hc') as [-> | [-> | [-> | [-> | [-> | [-> | ->]]]]]]; done. }
    exists i, k. split_and!; try done; try lia. destruct (slab_slot_in_page c k Hc Hk), (addr_facts s w i Hwf Hi) as (_ & Ha & _).
    unfold header_bytes, slab_page_size in *. rewrite <- Z.add_assoc, Z.add_mod, Ha, Z.add_0_l, Z.mod_mod, Z.mod_small by lia. lia.
  - destruct (wf_runs s w Hwf i Hi Hh) as (? & _). rewrite Hr in *. unfold slab_page_size in *. lia.
Qed.

(** A live object passes the slot checks. *)
Lemma slot_checks s w c i k : wf s w -> inside w i -> is_slab c (D w i) = true -> 0 <= k < slots_for c -> slot_set (header w (addr w i)) k = true ->
  let offset := slot_address w c i k - addr w i in
  (offset <? first_offset c) || negb ((offset - first_offset c) mod size_classes.[c] =? 0) = false /\
  (SlabHeader.slots (header w (addr w i)) <=? (offset - first_offset c) / size_classes.[c]) ||
    negb (slot_set (header w (addr w i)) ((offset - first_offset c) / size_classes.[c])) = false.
Proof.
  intros Hwf Hi Hs Hk Hb offset. destruct (slab_page s w c i Hwf Hi Hs) as (Hc & Hh & _). destruct (class_facts c Hc) as (Hsz & _).
  assert (size_classes.[c] <> 0) as Hnz by lia.
  assert (offset - first_offset c = k * size_classes.[c]) as E by (unfold offset, slot_address; lia).
  rewrite E, Z.mod_mul, Z.div_mul, Hb, (hd_slots c _ Hh) by done. cbn [negb orb Z.eqb]. split; [apply orb_false_iff; split; [| done] | apply orb_false_iff; split; [| done]]; lia.
Qed.

Lemma reclaim_spec s w c i : wf s w -> inside w i -> is_slab c (D w i) = true ->
  let '(s', w', st) := reclaim s w c (addr w i) (handle (frames w) i) in
  st = StatusCode.ok /\ wf s' w' /\ same_setup s s' /\ objects_same w w' /\ others_kept w w' /\ World.ram w' = World.ram w.
Proof.
  intros Hwf Hi Hs. unfold reclaim. destruct (_ && _) eqn:E; [| done]. apply andb_true_iff in E as [E _]. apply Z.eqb_eq in E.
  pose proof (page_removed s w c i Hwf Hi Hs E) as Hp. destruct (unlink s w c (addr w i)) as [s1 w1].
  destruct (release_charged _ _ _) as [[a acc] st]. destruct Hp as (-> & ? & ? & ? & ? & ?). done.
Qed.

Lemma handle_refer a i r : 0 <= i < zlen (descriptors_ a) ->
  handle (write_descriptor a (handle a i) (refer (desc a i) r)) i = handle a i.
Proof. intros Hi. unfold handle at 1 3. cbn. rewrite aget_aset_eq by done. done. Qed.

(** The slot cleared, before the page is reclaimed. *)
Definition clear_slot s w c i k : SlabAllocator.t * World.t :=
  let x := addr w i in
  let h1 := marked (header w x) k false in
  let '(s2, w2) := if SlabHeader.free (header w x) =? 0 then push s (with_header w x h1) c x else (s, with_header w x h1) in
  let d := D w i in
  (count_release (add_live s2 c (-1)),
   World.with_frames w2 (write_descriptor (frames w2) (handle (frames w) i) (refer d (u32_wrap (PageDescriptor.references d - 1))))).

Lemma clear_slot_spec s w c i k : wf s w -> inside w i -> is_slab c (D w i) = true -> 0 <= k < slots_for c ->
  slot_set (header w (addr w i)) k = true ->
  let '(s', w') := clear_slot s w c i k in
  wf s' w' /\ objects_removed w w' (slot_address w c i k) /\ others_kept w w' /\ World.ram w' = World.ram w /\ same_setup s s' /\
  inside w' i /\ addr w' i = addr w i /\ is_slab c (D w' i) = true /\ handle (frames w') i = handle (frames w) i.
Proof.
  intros Hwf Hi Hs Hk Hb. destruct (slab_page s w c i Hwf Hi Hs) as (Hc & Hh & Hr & Hg).
  destruct (wf_lists s w Hwf c Hc) as [l Hl]. unfold clear_slot. set (x := addr w i) in *. set (h1 := marked (header w x) k false).
  destruct (mark_slot_ok c (header w x) k false Hc Hh Hk Hb) as [Hf _]. destruct (class_facts c Hc) as (_ & ? & _).
  assert (SlabHeader.free h1 = SlabHeader.free (header w x) + 1) as Ef by (cbn; unfold u32_wrap; rewrite Z.mod_small by lia; lia).
  assert (let '(s2, w2) := if SlabHeader.free (header w x) =? 0 then push s (with_header w x h1) c x else (s, with_header w x h1) in
          relinked s w c i l h1 s2 w2) as Hre.
  { destruct (Z.eqb_spec (SlabHeader.free (header w x)) 0) as [E |].
    - apply relink_push; try done. fold x. lia.
    - apply relink_keep; try done. fold x. lia. }
  destruct (if _ =? 0 then _ else _) as [s2 w2]. pose proof Hre as (p & l' & Es & Efr & Era & _).
  destruct (su_update s s2 w w2 c i k false l (World.ram w2) Hwf Hi Hs Hl Hk Hb Hre) as (Hwf' & _).
  pose proof (su_objects s s2 w w2 c i k false l (World.ram w2) Hwf Hi Hs Hl Hk Hb Hre) as Ho.
  assert (0 <= i < zlen (descriptors_ (frames w))) as Hir by (by rewrite (Frames.wf_descriptors _ (wf_frames s w Hwf))).
  unfold World.with_frames. rewrite Efr. split_and!.
  - apply (wf_counters (add_live s2 c (-1))); try done; [apply (wf_allocations _ _ Hwf') | apply (wf_account _ _ Hwf')].
  - exact Ho.
  - eapply (others_kept_page s _ _ i); [done | done | right; by eapply slab_owned | done | reflexivity | intros q _; cbn; by rewrite Era].
  - done.
  - by subst s2.
  - apply Hi.
  - apply Hi.
  - done.
  - cbn. unfold desc. cbn. rewrite aget_aset_eq by done. done.
  - by apply handle_refer.
Qed.

Lemma release_small s w o size owner : wf s w -> ChargeAccount.wf owner -> frames_ s = true -> 0 < o <= usize_max -> 0 < size <= large_threshold ->
  exists s' w' owner' st, SlabAllocator.release s w o size owner = Some (s', w', owner', st) /\ released s w o size owner s' w' owner' st.
Proof.
  intros Hwf Hown Hf Ho Hsize. destruct (class_index_spec size Hsize) as (Hc & Hle & Hcf). set (c := class_index size) in *.
  destruct (class_facts c Hc) as (Hsz & _). unfold SlabAllocator.release. rewrite Hf. cbn [negb]. fold c.
  replace (o =? 0) with false by lia. replace (size =? 0) with false by lia. cbn [orb]. replace (large_threshold <? size) with false by lia.
  rewrite page_of by lia.
  assert (forall st, st <> StatusCode.ok -> ~ releasable s w o size owner -> released s w o size owner s w owner st) as Hrefuse
    by (intros st ? ?; right; done).
  pose proof (owned_page_spec s w (o - o mod slab_page_size) PageKind.kernel_slab Hwf) as Hpg.
  destruct (owned_page w _ _) as [f | e].
  2: { destruct Hpg as [He Hno]. exists s, w, owner, e. split; [done |]. apply Hrefuse; [done |]. intros (_ & _ & Hob & _). rewrite Hcf in Hob.
       destruct (object_slot s w c o Hwf Hc Hob) as (i & k & Hi & Hs & _ & _ & _ & Ep). destruct (slab_page s w c i Hwf Hi Hs) as (_ & _ & _ & Hg).
       apply (Hno i Hi Ep Hg). unfold is_slab in Hs. by b2p. }
  destruct Hpg as (i & Hi & Ep & Hg & Hk & -> & Hd). rewrite Hd. cbn [mbind option_bind]. rewrite Ep.
  assert (object w o size_classes.[c] -> exists k, is_slab c (D w i) = true /\ 0 <= k < slots_for c /\
    slot_set (header w (addr w i)) k = true /\ o = slot_address w c i k) as Hobj.
  { intros Hob. destruct (object_slot s w c o Hwf Hc Hob) as (j & k & Hj & Hs & Hkr & Hb & Eo & Ej). exists k.
    assert (j = i) as -> by (eapply address_for_inj; [apply (wf_frames s w Hwf) | done | done | congruence]). done. }
  destruct (Z.eqb_spec (PageDescriptor.flags (D w i)) c) as [Hfl | Hfl]; cbn [negb].
  2: { eexists s, w, owner, _. split; [done |]. apply Hrefuse; [done |]. intros (_ & _ & Hob & _). rewrite Hcf in Hob.
       destruct (Hobj Hob) as (_ & Hs & _). unfold is_slab in Hs. by b2p. }
  assert (is_slab c (D w i) = true) as Hs by (unfold is_slab; by rewrite Hk, Hfl, !Z.eqb_refl).
  destruct (_ || negb (_ mod _ =? 0)) eqn:H1.
  { eexists s, w, owner, _. split; [done |]. apply Hrefuse; [done |]. intros (_ & _ & Hob & _). rewrite Hcf in Hob.
    destruct (Hobj Hob) as (k & _ & Hkr & Hb & ->). destruct (slot_checks s w c i k Hwf Hi Hs Hkr Hb) as [E _]. congruence. }
  destruct (_ || negb (slot_set _ _)) eqn:H2.
  { eexists s, w, owner, _. split; [done |]. apply Hrefuse; [done |]. intros (_ & _ & Hob & _). rewrite Hcf in Hob.
    destruct (Hobj Hob) as (k & _ & Hkr & Hb & ->). destruct (slot_checks s w c i k Hwf Hi Hs Hkr Hb) as [_ E]. congruence. }
  destruct (slot_of_object s w c i o Hwf Hi Hs Ep H1 H2) as (Hkr & Hb & Eo). set (k := (o - addr w i - first_offset c) / size_classes.[c]) in *.
  destruct (Z.ltb_spec (ChargeAccount.used owner) size_classes.[c]) as [Hlow | Hlow].
  { eexists s, w, owner, _. split; [done |]. apply Hrefuse; [done |]. intros (_ & _ & _ & ?). lia. }
  pose proof (clear_slot_spec s w c i k Hwf Hi Hs Hkr Hb) as Hcl. unfold clear_slot in Hcl. cbv zeta in Hcl.
  change (SlabHeader.with_slots _ _ _) with (marked (header w (addr w i)) k false).
  change (World.with_headers w (set_header (World.headers w) (addr w i) ?h)) with (with_header w (addr w i) h).
  destruct (if _ =? 0 then _ else _) as [s2 w2]. destruct Hcl as (Hwf1 & Ho1 & Hk1 & Er1 & [Es1 Es2] & Hi1 & Ea1 & Hs1 & Eh1).
  pose proof (reclaim_spec _ _ c i Hwf1 Hi1 Hs1) as Hrc. rewrite Ea1, Eh1 in Hrc. destruct (reclaim _ _ _ _ _) as [[s3 w3] st].
  destruct Hrc as (-> & Hwf3 & [Es3 Es4] & Ho3 & Hk3 & Er3). eexists _, _, _, _. split; [reflexivity |]. left.
  assert (0 <= size_classes.[c] <= ChargeAccount.used owner) as Hn by lia. destruct (uncharge_ok owner size_classes.[c] Hown Hn) as [? ?].
  rewrite Hcf. split_and!; try done; try congruence.
  - unfold releasable. rewrite Hcf. split_and!; try done; try lia. left. exists c. split_and!; try done; try lia. by exists i, k.
  - split; congruence.
  - intros y m. pose proof (Ho3 y m) as E3. pose proof (Ho1 y m) as E1. rewrite Eo. by rewrite E3.
  - by eapply others_kept_trans.
Qed.
End ReleaseSmall.
