(* ===== verification/SlabLarge.v ===== *)
(** * Large objects (src/memory/slab.cpp, allocate_large() and release_large())

    A large object is a run of adjacent frames; its first frame counts them.
    Taking or returning such a run keeps the allocator's invariant, and the
    two paths meet the same contracts as the small ones. *)

From S2P Require Import Prelude Charges Regions Sweep Frames FrameSearch FrameSpec FrameAlloc Slab SlabInv SlabSmall SlabAlloc SlabRelease.
Import SlabAllocator.

Section Large.
Context `{Arch}.
Import FrameAllocator.
#[local] Arguments address_for : simpl never.
#[local] Arguments desc : simpl never.
#[local] Arguments object : simpl never.
Abbreviation wf := SlabInv.wf.
Abbreviation frames w := (World.frames w).
Abbreviation D w i := (desc (frames w) i).
Abbreviation addr w i := (address_for (frames w) i).
Abbreviation inside w i := (0 <= i < frame_count_ (frames w)).
Abbreviation header w x := (World.headers w x).

(** The frames [i, i + n) as a large object ([b]), or as nobody's. *)
Definition run_frames (w : World.t) (i n : Z) (b : bool) : Prop :=
  (b = true -> PageDescriptor.references (D w i) = n) /\
  forall j, i <= j < i + n ->
    if b then is_large (D w j) = true /\ PageDescriptor.flags (D w j) = (if j =? i then 1 else 0) else is_owned (D w j) = false.

Lemma large_not_slab c d : is_large d = true -> is_slab c d = false /\ is_owned d = true.
Proof. unfold is_slab, is_owned, is_large. intros Hk%Z.eqb_eq. rewrite Hk. by split. Qed.

Lemma unowned_nothing c d : is_owned d = false -> is_slab c d = false /\ is_large d = false /\ is_head d = false.
Proof. unfold is_head, is_owned, is_slab. intros [-> ->]%orb_false_iff. by split_and!. Qed.

Section RunUpdate.
Context (s s' : SlabAllocator.t) (w w' : World.t) (i n : Z) (b : bool).
Abbreviation z := (if b then 1 else -1).
Abbreviation on j := ((i <=? j) && (j <? i + n)).
Context (Hwf : wf s w) (Hi : 0 <= i) (Hn : 1 <= n <= u32_max) (Hle : i + n <= frame_count_ (frames w)).
Context (Ha : Frames.wf (frames w')) (Hgeo : same_geometry (frames w') (frames w)).
Context (Hdesc : forall j, 0 <= j -> on j = false -> D w' j = D w j) (Hhead : World.headers w' = World.headers w).
Context (H0 : run_frames w i n (negb b)) (H1 : run_frames w' i n b).
Context (Hgen : b = true -> forall j, i <= j < i + n -> generation_at (frames w') j <> 0).
Context (Hadj : b = true -> forall m, 0 <= m < n -> addr w (i + m) = addr w i + m * slab_page_size).
Context (Hcl : classes_ s' = classes_ s) (Hal : zlen (allocations_ s') = 3) (Hacc : ChargeAccount.wf (pages_ s')).
Context (Hused : ChargeAccount.used (pages_ s') = ChargeAccount.used (pages_ s) + z * n)
        (Hlp : large_pages_ s' = large_pages_ s + z * n) (Hla : large_allocations_ s' = large_allocations_ s + z).

Lemma ru_count : frame_count_ (frames w') = frame_count_ (frames w).
Proof. by destruct Hgeo as (_ & _ & ? & _). Qed.

Lemma ru_addr j : addr w' j = addr w j.
Proof. by apply same_geometry_address. Qed.

Lemma ru_on j : on j = true <-> i <= j < i + n.
Proof. rewrite andb_true_iff, Z.leb_le, Z.ltb_lt. done. Qed.

(** A frame of the run has its old and its new role. *)
Lemma ru_units j : i <= j < i + n ->
  (forall c, is_slab c (D w j) = false /\ is_slab c (D w' j) = false) /\
  is_large (D w j) = negb b /\ is_large (D w' j) = b /\ is_owned (D w j) = negb b /\ is_owned (D w' j) = b /\
  is_head (D w j) = negb b && (j =? i) /\ is_head (D w' j) = b && (j =? i).
Proof.
  intros Hj. pose proof (proj2 H0 j Hj) as F0. pose proof (proj2 H1 j Hj) as F1. unfold is_head. destruct b; cbn in F0, F1 |- *.
  - destruct F1 as [L1 E1]. split; [intros c; split; [by apply unowned_nothing | by apply large_not_slab] |].
    rewrite L1, E1. destruct (unowned_nothing 0 _ F0) as (_ & -> & _), (large_not_slab 0 _ L1) as (_ & ->). by destruct (j =? i); split_and!.
  - destruct F0 as [L1 E1]. split; [intros c; split; [by apply large_not_slab | by apply unowned_nothing] |].
    rewrite L1, E1. destruct (unowned_nothing 0 _ F1) as (_ & -> & _), (large_not_slab 0 _ L1) as (_ & ->). by destruct (j =? i); split_and!.
Qed.

Lemma ru_sum f u v : (forall j, i <= j < i + n -> f (D w' j) = f (D w j) + (if j =? i then u else v)) ->
  zsum f (descriptors_ (frames w')) = zsum f (descriptors_ (frames w)) + u + (n - 1) * v.
Proof.
  intros Hf. pose proof (Frames.wf_descriptors _ (wf_frames s w Hwf)) as E. pose proof (Frames.wf_descriptors _ Ha) as E'. rewrite ru_count in E'.
  apply (zsum_run f _ _ i); try lia. intros j Hj. change (f (D w' j) = f (D w j) + on_run i n u v j). unfold on_run. destruct (on j) eqn:Ho.
  - apply ru_on in Ho. by apply Hf.
  - rewrite Hdesc by (lia || done). lia.
Qed.

Lemma ru_slab c j : 0 <= j -> is_slab c (D w' j) = is_slab c (D w j).
Proof.
  intros Hj. destruct (on j) eqn:Ho; [| by rewrite Hdesc]. apply ru_on in Ho. destruct (ru_units j Ho) as (Hs & _). by destruct (Hs c) as [-> ->].
Qed.

Lemma ru_same c j : 0 <= j -> is_slab c (D w j) = true -> D w' j = D w j.
Proof.
  intros Hj Hs. apply Hdesc; [done |]. destruct (on j) eqn:Ho; [| done]. apply ru_on in Ho. destruct (ru_units j Ho) as (Hno & _).
  destruct (Hno c) as [E _]. congruence.
Qed.

Lemma ru_listed c x : listed w' c x <-> listed w c x.
Proof.
  unfold listed. rewrite ru_count, Hhead. split; intros (j & Hj & Hs & Ex & Hf); exists j; rewrite ru_addr in *; rewrite ru_slab in * by lia; done.
Qed.

(** Another large object does not reach into the run. *)
Lemma ru_run_apart j m : inside w j -> on j = false -> is_head (D w j) = true -> 0 < m < PageDescriptor.references (D w j) -> D w' (j + m) = D w (j + m).
Proof.
  intros Hj Hoff Hh Hm. destruct (wf_runs s w Hwf j Hj Hh) as (_ & _ & _ & Hin). destruct (Hin m Hm) as [Hl Hf].
  apply Hdesc; [lia |]. destruct (on (j + m)) eqn:Ho; [exfalso | done]. apply ru_on in Ho.
  destruct (ru_units _ Ho) as (_ & El & _). rewrite Hl in El. destruct b; [done |]. cbn in H0. destruct H0 as [_ Hrun].
  destruct (Hrun _ Ho) as [_ Ef]. rewrite Hf in Ef. destruct (Z.eqb_spec (j + m) i) as [| Hne]; [done |].
  assert (~ (i <= j < i + n)) as Hout by (rewrite <- ru_on; congruence).
  destruct (Hin (i - j)) as [_ Ei]; [lia |]. destruct (Hrun i) as [_ Ei']; [lia |]. rewrite Z.eqb_refl in Ei'.
  replace (j + (i - j)) with i in Ei by lia. congruence.
Qed.

Lemma run_update_wf : wf s' w'.
Proof.
  pose proof Hgeo as (_ & Hps & _ & _). split; try done; rewrite ?Hcl; try exact (wf_classes s w Hwf).
  - rewrite Hps. apply (wf_page_size s w Hwf).
  - intros j. rewrite ru_count, ru_addr. apply (wf_nonzero s w Hwf).
  - intros j Hj Ho. rewrite ru_count in Hj. destruct (on j) eqn:Hon.
    + apply ru_on in Hon. destruct (ru_units j Hon) as (_ & _ & _ & _ & E & _). apply Hgen; [congruence | done].
    + change (PageDescriptor.generation (D w' j) <> 0). rewrite Hdesc in * by (lia || done). by apply (wf_owned s w Hwf).
  - intros j c Hj Hk Hf. rewrite ru_count in Hj. rewrite ru_addr, Hhead. assert (is_slab c (D w' j) = true) as Hs by (unfold is_slab; rewrite Hk, Hf; apply Z.eqb_refl).
    rewrite ru_slab in Hs by lia. rewrite (ru_same c j) in * by (lia || done). by apply (wf_slab s w Hwf).
  - intros c Hc. destruct (wf_lists s w Hwf c Hc) as (l & Hd & Hnd & Hin). exists l. unfold list_ok. rewrite Hcl, Hhead. split_and!; try done.
    intros x. by rewrite ru_listed.
  - intros c Hc. rewrite (wf_pages s w Hwf c Hc), (ru_sum (slab_unit c) 0 0); [lia |]. intros j Hj. unfold slab_unit. rewrite ru_slab by lia. destruct (j =? i); lia.
  - intros c Hc. rewrite (wf_live s w Hwf c Hc), (ru_sum (slab_refs c) 0 0); [lia |]. intros j Hj. unfold slab_refs.
    destruct (ru_units j Hj) as (Hs & _). destruct (Hs c) as [-> ->]. by destruct (j =? i).
  - rewrite Hlp, (wf_large_pages s w Hwf), (ru_sum large_unit z z); [lia |]. intros j Hj. unfold large_unit.
    destruct (ru_units j Hj) as (_ & -> & -> & _). by destruct b, (j =? i).
  - rewrite Hla, (wf_large_allocations s w Hwf), (ru_sum head_unit z 0); [lia |]. intros j Hj. unfold head_unit.
    destruct (ru_units j Hj) as (_ & _ & _ & _ & _ & -> & ->). by destruct b, (j =? i).
  - rewrite Hused, (wf_charged s w Hwf), (ru_sum owned_unit z z); [lia |]. intros j Hj. unfold owned_unit.
    destruct (ru_units j Hj) as (_ & _ & _ & -> & -> & _). by destruct b, (j =? i).
  - intros j Hj Hh. rewrite ru_count in Hj. unfold run_ok. rewrite ru_count. destruct (on j) eqn:Hon.
    + apply ru_on in Hon. destruct (ru_units j Hon) as (_ & _ & _ & _ & _ & _ & Eh). rewrite Hh in Eh. symmetry in Eh. apply andb_true_iff in Eh as [-> ->%Z.eqb_eq].
      destruct H1 as [-> Hrun]; [| done]. split_and!; try lia; [intros m Hm; rewrite !ru_addr; by apply Hadj |].
      intros m Hm. destruct (Hrun (i + m)) as [? ?]; [lia |]. by replace (i + m =? i) with false in * by lia.
    + rewrite Hdesc in Hh |- * by (lia || done). destruct (wf_runs s w Hwf j Hj Hh) as (Hr & Hlt & Had & Hin).
      split_and!; try lia; [intros m Hm; rewrite !ru_addr; by apply Had |]. intros m Hm. rewrite ru_run_apart by done. by apply Hin.
Qed.

Lemma run_update_small c y : small w' c y <-> small w c y.
Proof.
  unfold small. rewrite ru_count, Hhead. split; intros (j & k & Hj & Hs & Hk & Hb & ->); exists j, k; rewrite ru_addr in *; rewrite ru_slab in * by lia; done.
Qed.

Lemma run_update_large k y : large w' k y <-> if b then large w k y \/ (k = n /\ y = addr w i) else large w k y /\ y <> addr w i.
Proof.
  assert (large w' k y <-> (exists j, inside w j /\ on j = false /\ is_head (D w j) = true /\ PageDescriptor.references (D w j) = k /\ y = addr w j) \/
    (b = true /\ k = n /\ y = addr w i)) as ->.
  { unfold large. rewrite ru_count. split.
    - intros (j & Hj & Hh & Hr & ->). rewrite ru_addr. destruct (on j) eqn:Hon; [right | left; exists j; rewrite Hdesc in * by (lia || done); done].
      apply ru_on in Hon. destruct (ru_units j Hon) as (_ & _ & _ & _ & _ & _ & Eh). rewrite Hh in Eh. symmetry in Eh. apply andb_true_iff in Eh as [Eb ->%Z.eqb_eq].
      destruct H1 as [<- _]; done.
    - intros [(j & Hj & Hon & Hh & Hr & ->) | (Eb & -> & ->)]; [exists j; rewrite ru_addr, Hdesc by (lia || done); done |].
      exists i. rewrite ru_addr. destruct (ru_units i) as (_ & _ & _ & _ & _ & _ & ->); [lia |]. rewrite Z.eqb_refl, Eb. split_and!; try done; try lia; by apply H1. }
  assert (forall j, inside w j -> is_head (D w j) = true -> on j = true -> b = false /\ j = i) as Hon.
  { intros j Hj Hh Hj'%ru_on. destruct (ru_units j Hj') as (_ & _ & _ & _ & _ & Eh & _). rewrite Hh in Eh. destruct b; [done |].
    split; [done |]. apply Z.eqb_eq. by destruct (j =? i). }
  assert (on i = true) as Hoi by (apply ru_on; lia). clear H0 H1 Hused Hlp Hla Hgen Hadj. destruct b.
  - unfold large. split; [intros [(j & ? & _ & ? & ? & ->) | (_ & ? & ?)]; [left; by exists j | by right] |].
    intros [(j & Hj & Hh & Hr & ->) | [-> ->]]; [left; exists j | by right]. split_and!; try done; try lia.
    destruct (on j) eqn:E; [| done]. by destruct (Hon j Hj Hh E).
  - unfold large. split.
    + intros [(j & Hj & Ho & Hh & Hr & ->) | (? & _)]; [| done]. split; [by exists j |]. intros E. apply (address_for_inj _ (wf_frames s w Hwf)) in E; [| done | lia].
      subst j. congruence.
    + intros [(j & Hj & Hh & Hr & ->) Hne]. left. exists j. split_and!; try done; try lia. destruct (on j) eqn:E; [| done].
      destruct (Hon j Hj Hh E) as [_ ->]. done.
Qed.

Lemma run_update_objects y m : object w' y m <->
  if b then object w y m \/ (y = addr w i /\ m = n * slab_page_size) else object w y m /\ y <> addr w i.
Proof.
  assert (object w' y m <-> (exists c, 0 <= c < 7 /\ m = size_classes.[c] /\ small w c y) \/
    (exists k, m = k * slab_page_size /\ if b then large w k y \/ (k = n /\ y = addr w i) else large w k y /\ y <> addr w i)) as ->.
  { unfold object. split; intros [(k & ? & ? & Hk) | (k & ? & Hk)]; [left; exists k; by apply run_update_small in Hk |
      right; exists k; by apply run_update_large in Hk | left; exists k; by apply run_update_small in Hk | right; exists k; by apply run_update_large in Hk]. }
  assert (b = false -> large w n (addr w i)) as Hold.
  { intros Eb. destruct (ru_units i) as (_ & _ & _ & _ & _ & Eh & _); [lia |]. exists i. rewrite Eh, Z.eqb_refl, Eb. split_and!; try done; try lia.
    apply H0. by rewrite Eb. }
  clear H0 H1 Hused Hlp Hla Hgen Hadj. unfold object. destruct b.
  - split; [intros [? | (k & -> & [? | [-> ->]])]; [left; by left | left; right; by exists k | by right] |].
    intros [[? | (k & -> & ?)] | [-> ->]]; [by left | right; exists k; by auto | right; exists n; by auto].
  - specialize (Hold eq_refl). split.
    + intros [(c & Hc & -> & Hs) | (k & -> & Hk & Hne)]; [| split; [right; by exists k | done]]. split; [left; by exists c |]. intros ->.
      destruct (class_facts c Hc) as (? & _). destruct (small_large_apart s w c n _ _ Hwf Hc Hs Hold); unfold slab_page_size in *; lia.
    + intros [[? | (k & -> & Hk)] Hne]; [by left | right; by exists k].
Qed.
End RunUpdate.

(** ** Taking the frames of a large object *)
Implicit Types a : FrameAllocator.t.

Lemma contiguous_cases a acc n : Frames.wf a -> ChargeAccount.wf acc -> next_generation_ a <> 0 -> 1 <= n ->
  let '(a', acc', r) := allocate_contiguous a n acc 0 in
  ChargeAccount.wf acc' /\
  match r with
  | Ok f => exists i, f = handle a' i /\ a' = take_run (Z.to_nat n) a i /\ fit_at a n 0 i /\
      next_generation_ a + n <= u64_max /\ ChargeAccount.used acc' = ChargeAccount.used acc + n
  | Err e => a' = a /\ acc' = acc /\ e <> StatusCode.ok /\
      (free_frames a < n \/ u64_max < next_generation_ a + n \/ (forall g, ~ fit_at a n 0 g) \/ snd (ChargeAccount.charge acc n) = e)
  end.
Proof.
  intros Hwf Hacc Hng Hn. pose proof (wf_used_range a Hwf). unfold allocate_contiguous, free_frames.
  destruct (Z.eqb_spec (frame_count_ a) 0); [split_and!; try done; left; lia |].
  replace (n =? 0) with false by lia. rewrite Z.land_0_l. cbn [Z.eqb negb].
  destruct (_ <? n) eqn:E3; [b2p; split_and!; try done; left; lia |].
  destruct (u64_max - _ <? n) eqn:E4; [b2p; split_and!; try done; right; left; lia |]. b2p.
  pose proof (find_run_fit a n 0 Hwf ltac:(lia)) as Hfind. destruct (find_run _ _ _ _) as [f |]; [| split_and!; try done; by auto]. destruct Hfind as [Hfit _].
  destruct (ChargeAccount.charge acc n) as [acc' st] eqn:Ech. destruct (status_ok st) eqn:Est; cbn [negb].
  2: { assert (st <> StatusCode.ok) as Hne by (by intros ->). rewrite (charge_err _ _ _ _ Ech Hne). split_and!; try done. by auto. }
  assert (st = StatusCode.ok) as -> by (by destruct st). split; [by apply (charge_wf acc n acc' StatusCode.ok); [| lia |] |].
  destruct (fit_at_spec a n 0 f Hwf ltac:(lia) Hfit) as (Hf0 & Hfe & Hfree & _).
  destruct (take_run_spec (Z.to_nat n) a f) as (Hw & (_ & _ & Hfc & _) & _ & _ & Hgen); try done; try lia; [intros j Hj; apply Hfree; lia |].
  destruct (handle_descriptor (take_run (Z.to_nat n) a f) f) as (-> & _); [done | lia | rewrite Hgen by lia; pose proof (wf_next a Hwf); cmp; lia |].
  exists f. split_and!; try done; [lia | by apply (charge_ok acc)].
Qed.

Lemma write_handle_wf a i d : Frames.wf a -> 0 <= i < frame_count_ a -> PageDescriptor.generation d = generation_at a i ->
  let a' := write_descriptor a (handle a i) d in
  Frames.wf a' /\ same_geometry a' a /\ used_count_ a' = used_count_ a /\
  (forall j, 0 <= j -> desc a' j = if j =? i then d else desc a j) /\ (forall j, 0 <= j -> generation_at a' j = generation_at a j).
Proof.
  intros Hwf Hi Hg. assert (forall j, 0 <= j -> desc (write_descriptor a (handle a i) d) j = if j =? i then d else desc a j) as Hd.
  { intros j Hj. unfold desc. cbn. rewrite aget_aset by (rewrite ?(Frames.wf_descriptors a Hwf); lia). by rewrite (Z.eqb_sym j). }
  cbn zeta. split_and!; try done; [by apply write_descriptor_wf |].
  intros j Hj. change (PageDescriptor.generation (desc (write_descriptor a (handle a i) d) j) = generation_at a j). rewrite Hd by done.
  by destruct (Z.eqb_spec j i) as [-> |].
Qed.

Lemma mark_run_spec n a f k : Frames.wf a -> 0 <= f -> 0 <= k -> f + k + Z.of_nat n <= frame_count_ a ->
  (forall j, f + k <= j < f + k + Z.of_nat n -> generation_at a j <> 0) ->
  exists a', mark_run n a f k = Some a' /\ Frames.wf a' /\ same_geometry a' a /\ used_count_ a' = used_count_ a /\
    (forall j, 0 <= j -> generation_at a' j = generation_at a j) /\
    forall j, 0 <= j -> desc a' j =
      if (f + k <=? j) && (j <? f + k + Z.of_nat n) then describe (desc a j) PageKind.kernel_large (if j =? f then 1 else 0) else desc a j.
Proof.
  revert a k. induction n as [| n IH]; intros a k Hwf Hf Hk Hle Hg; cbn [mark_run].
  { exists a. split_and!; try done. intros j Hj. destruct (Z.leb_spec (f + k) j), (Z.ltb_spec j (f + k + Z.of_nat 0)); try done; lia. }
  destruct (handle_descriptor a (f + k) Hwf ltac:(lia) (Hg (f + k) ltac:(lia))) as (-> & _ & Hd). cbn [value mbind option_bind]. rewrite Hd. cbn [mbind option_bind].
  set (d := describe _ _ _). destruct (write_handle_wf a (f + k) d Hwf ltac:(lia) eq_refl) as (Hwf1 & Hgeo1 & Hus1 & Hd1 & Hg1).
  set (a1 := write_descriptor _ _ _) in *. pose proof Hgeo1 as (G1 & G2 & G3 & G4).
  destruct (IH a1 (k + 1)) as (a' & -> & Hwf' & (G5 & G6 & G7 & G8) & Hus' & Hg' & Hd'); try lia; [done | intros j Hj; rewrite Hg1 by lia; apply Hg; lia |].
  exists a'. split_and!; try done; try congruence; [intros j Hj; by rewrite Hg', Hg1 |].
  intros j Hj. rewrite Hd', Hd1 by done. destruct (Z.eqb_spec j (f + k)) as [-> |].
  - cmp. unfold d. replace (f + k =? f) with (k =? 0) by lia. done.
  - destruct (Z.leb_spec (f + k) j), (Z.leb_spec (f + (k + 1)) j), (Z.ltb_spec j (f + k + Z.of_nat (S n))); cbn [andb]; try lia; by cmp.
Qed.

Lemma large_run_frames a i n : Frames.wf a -> 1 <= n <= u32_max -> fit_at a n 0 i -> next_generation_ a <> 0 -> next_generation_ a + n <= u64_max ->
  let a1 := take_run (Z.to_nat n) a i in
  exists a2, mark_run (Z.to_nat n) a1 i 0 = Some a2 /\ descriptor a2 (handle a1 i) = Some (desc a2 i) /\
    let a3 := write_descriptor a2 (handle a1 i) (refer (desc a2 i) (u32_wrap n)) in
    Frames.wf a3 /\ same_geometry a3 a /\ used_count_ a3 = used_count_ a + n /\
    forall j, 0 <= j -> desc a3 j = if (i <=? j) && (j <? i + n)
      then PageDescriptor.mk (next_generation_ a + (j - i)) (if j =? i then n else 0) 0 PageKind.kernel_large (if j =? i then 1 else 0) else desc a j.
Proof.
  intros Hwf Hn Hfit Hng Hov a1. destruct (fit_at_spec a n 0 i Hwf ltac:(lia) Hfit) as (Hi & Hle & Hfree & _). pose proof (wf_next a Hwf) as Hnx.
  pose proof (Frames.wf_descriptors a Hwf) as Hlen.
  destruct (take_run_spec (Z.to_nat n) a i) as (Hw1 & (G1 & G2 & G3 & G4) & _ & Hus1 & Hgen1); try done; try lia; [intros j Hj; apply Hfree; lia |]. fold a1 in Hw1, G1, G2, G3, G4, Hus1, Hgen1.
  assert (forall j, 0 <= j -> desc a1 j = if (i <=? j) && (j <? i + n) then PageDescriptor.mk (next_generation_ a + (j - i)) 0 0 0 0 else desc a j) as Hd1.
  { intros j Hj. destruct (take_run_desc (Z.to_nat n) a i j) as [_ E]; try lia. fold a1 in E. by rewrite Z2Nat.id in E by lia. }
  destruct (mark_run_spec (Z.to_nat n) a1 i 0) as (a2 & Em & Hw2 & (G5 & G6 & G7 & G8) & Hus2 & Hgen2 & Hd2); try done; try lia.
  { intros j Hj. rewrite Hgen1 by lia. cmp. lia. }
  assert (generation_at a1 i <> 0) as Hg1 by (rewrite Hgen1 by lia; cmp; lia).
  assert (handle a1 i = handle a2 i) as Eh.
  { unfold handle. rewrite (address_for_same a1 a2), G5 by done. f_equal. symmetry. apply (Hgen2 i Hi). }
  exists a2. split; [done |]. rewrite Eh. destruct (handle_descriptor a2 i Hw2 ltac:(lia)) as (_ & _ & ->); [rewrite Hgen2 by lia; done |]. split; [done |].
  destruct (write_handle_wf a2 i (refer (desc a2 i) (u32_wrap n)) Hw2 ltac:(lia) eq_refl) as (Hw3 & (G9 & G10 & G11 & G12) & Hus3 & Hd3 & _).
  cbn zeta. split_and!; try done; try congruence; [repeat split; congruence | lia |]. intros j Hj. rewrite Hd3, !Hd2, !Hd1 by lia. rewrite !Z.add_0_r, !Z2Nat.id by lia.
  unfold u32_wrap. rewrite Z.mod_small by (unfold u32_max in *; lia). destruct (Z.eqb_spec j i) as [-> |]; [by cmp |].
  destruct ((i <=? j) && (j <? i + n)); done.
Qed.

Lemma large_charge size : large_threshold < size -> charge_for size = 0 \/
  exists n, 1 <= n /\ charge_for size = n * slab_page_size /\ size <= n * slab_page_size /\ charge_for size / slab_page_size = n.
Proof.
  unfold large_threshold. intros Hs. assert (class_index size = 7) as Hc.
  { unfold class_index, size_classes. cbn [class_search]. by repeat (case_match; [b2p; lia |]). }
  unfold charge_for. rewrite Hc. change (zlen size_classes) with 7. cbn [Z.ltb Z.compare Pos.compare Pos.compare_cont].
  replace (size =? 0) with false by lia. destruct (_ <? pages_for size); [by left | right].
  exists (pages_for size). rewrite Z.div_mul by done. pose proof (Z.div_mod size slab_page_size ltac:(done)) as Hdm.
  pose proof (Z.mod_pos_bound size slab_page_size ltac:(done)) as Hm. unfold pages_for. unfold slab_page_size in *.
  destruct (Z.eqb_spec (size mod 4096) 0); split_and!; try done; lia.
Qed.

(** A run that fits becomes a large object. *)
Lemma large_taken s w n i acc a3 ram : wf s w -> 1 <= n <= u32_max -> fit_at (frames w) n 0 i -> next_generation_ (frames w) <> 0 ->
  Frames.wf a3 -> same_geometry a3 (frames w) -> ChargeAccount.wf acc -> ChargeAccount.used acc = ChargeAccount.used (pages_ s) + n ->
  (forall j, 0 <= j -> desc a3 j = if (i <=? j) && (j <? i + n)
      then PageDescriptor.mk (next_generation_ (frames w) + (j - i)) (if j =? i then n else 0) 0 PageKind.kernel_large (if j =? i then 1 else 0) else D w j) ->
  let s' := with_large (with_account s acc) (large_allocations_ s + 1) (large_pages_ s + n) in
  let w' := World.mk a3 (World.headers w) ram in
  wf s' w' /\ objects_added w w' (addr w i) (n * slab_page_size) /\ is_owned (D w i) = false /\ inside w i /\
  (ram = zero (World.ram w) (addr w i) (n * slab_page_size) -> others_kept w w').
Proof.
  intros Hwf Hn Hfit Hng Ha Hgeo Hacc Hused Hd s' w'. pose proof (wf_frames s w Hwf) as Hf. pose proof (wf_next _ Hf) as Hnx.
  destruct (fit_at_spec (frames w) n 0 i Hf ltac:(lia) Hfit) as (Hi & Hle & Hfree & Hadj). rewrite (wf_page_size s w Hwf) in Hadj.
  assert (forall j, i <= j < i + n -> is_owned (D w j) = false) as Hold.
  { intros j Hj. destruct (is_owned (D w j)) eqn:E; [| done]. exfalso. apply (wf_owned s w Hwf j); [lia | done | by apply Hfree]. }
  assert (run_frames w i n false) as H0 by (split; [done | exact Hold]).
  assert (run_frames w' i n true) as H1.
  { split; [intros _; cbn; rewrite Hd by lia; by cmp |]. intros j Hj. cbn. rewrite Hd by lia. cmp. done. }
  assert (forall j, i <= j < i + n -> generation_at (frames w') j <> 0) as Hgen.
  { intros j Hj. change (PageDescriptor.generation (desc a3 j) <> 0). rewrite Hd by lia. cmp. cbn. lia. }
  assert (forall j, 0 <= j -> (i <=? j) && (j <? i + n) = false -> D w' j = D w j) as Hoff by (intros j Hj E; cbn; by rewrite Hd, E).
  assert (wf s' w') as Hwf'.
  { apply (run_update_wf s s' w w' i n true); auto; try done; cbn; try lia; apply (wf_allocations s w Hwf). }
  split_and!; try lia; [done | | apply Hold; lia |].
  - intros y m. apply (run_update_objects s s' w w' i n true); auto; try done; cbn; try lia; apply (wf_allocations s w Hwf).
  - intros ->. split; [done |]. intros j (Hj & Hg & _). assert (~ (i <= j < i + n)) as Hout by (intros Hin; by apply Hg, Hfree).
    split; [apply Hoff; [lia |]; apply andb_false_iff; lia |]. intros p Hp. pose proof Hgeo as (_ & _ & Hfc & _).
    pose proof (run_apart s' w' j i Hwf') as Hap. cbn [World.frames w'] in Hap. rewrite !(same_geometry_address _ _ _ Hgeo), Hfc, Hd in Hap by lia.
    replace ((i <=? i) && (i <? i + n)) with true in Hap by lia. rewrite Z.eqb_refl in Hap. cbn [PageDescriptor.references] in Hap.
    cbn [World.ram w']. unfold zero. destruct Hap as [(k & ? & ?) | Hap]; [lia | lia | done | lia |].
    destruct (Z.leb_spec (addr w i) p), (Z.ltb_spec p (addr w i + n * slab_page_size)); cbn; try done. lia.
Qed.

Lemma allocate_large_spec s w size owner ctx : wf s w -> ChargeAccount.wf owner -> frames_ s = true -> large_threshold < size ->
  next_generation_ (frames w) <> 0 ->
  exists s' w' owner' r, allocate_large s w size owner ctx = Some (s', w', owner', r) /\ allocated s w size owner ctx s' w' owner' r.
Proof.
  intros Hwf Hown Hf Hsize Hng. unfold allocate_large. assert (frames_needed s size = charge_for size / slab_page_size) as Efn by (unfold frames_needed; by cmp).
  assert (forall e s' owner', refusal s w size owner ctx e -> wf s' w -> same_setup s s' -> ChargeAccount.wf owner' -> ChargeAccount.used owner' = ChargeAccount.used owner ->
    allocated s w size owner ctx s' w owner' (Err e)) as Hrefuse by (intros; done).
  destruct (large_charge size Hsize) as [Hz | (n & Hn & Hb & Hfit & Hdiv)].
  { rewrite Hz. cbn [Z.eqb]. eexists _, _, _, _. split; [reflexivity |]. apply Hrefuse; try done. split; [done | by auto]. }
  rewrite Hdiv in Efn |- *. rewrite Hb. replace (n * slab_page_size =? 0) with false by (unfold slab_page_size; lia).
  destruct (Z.ltb_spec u32_max n) as [Hbig | Hsmall].
  { eexists _, _, _, _. split; [reflexivity |]. apply Hrefuse; try done. split; [done |]. rewrite Efn. by auto. }
  destruct (status_ok (reserve_frames_for s w n ctx)) eqn:Ers; cbn [negb].
  2: { eexists _, _, _, _. split; [reflexivity |]. apply Hrefuse; try done. split; [by intros E; rewrite E in Ers |]. rewrite Efn. do 5 right. split; [lia | by left]. }
  destruct (ChargeAccount.charge owner _) as [owner1 st] eqn:Ech. assert (0 <= n * slab_page_size) as Hb0 by (unfold slab_page_size; lia).
  assert (ChargeAccount.wf owner1) as Hown1 by (by eapply charge_wf; [exact Hown | exact Hb0 | exact Ech]).
  destruct (status_ok st) eqn:Est; cbn [negb].
  2: { assert (st <> StatusCode.ok) as Hne by (by intros ->). rewrite (charge_err _ _ _ _ Ech Hne). eexists _, _, _, _. split; [reflexivity |].
       apply Hrefuse; try done. split; [done |]. do 4 right. left. by rewrite Hb, Ech. }
  assert (st = StatusCode.ok) as -> by (by destruct st). pose proof (charge_ok _ _ _ Ech) as Hu.
  assert (n <= free_frames (frames w) /\ (AllocationContext.is_atomic ctx = false -> reserve_ s <= free_frames (frames w) - n)) as [Hfr Hres].
  { revert Ers. unfold reserve_frames_for. destruct (Z.ltb_spec (free_frames (frames w)) n); [done |]. intros Ers. split; [lia |]. intros E. rewrite E in Ers.
    cbn [negb andb] in Ers. destruct (Z.ltb_spec (free_frames (frames w) - n) (reserve_ s)); [done | lia]. }
  pose proof (contiguous_cases (frames w) (pages_ s) n (wf_frames s w Hwf) (wf_account s w Hwf) Hng Hn) as Hc.
  destruct (allocate_contiguous _ _ _ _) as [[a1 acc] r]. destruct Hc as [Hacc Hc]. destruct r as [f | e].
  2: { destruct Hc as (-> & -> & Hne & Hwhy). assert (World.with_frames w (frames w) = w) as -> by (by destruct w). eexists _, _, _, _. split; [reflexivity |]. destruct (charge_undone _ _ _ Hown Hb0 Ech) as [? ?].
       apply Hrefuse; try done; [| by apply (wf_counters s); try done; apply (wf_allocations s w Hwf)].
       split; [done |]. rewrite Efn. do 5 right. split; [lia |]. destruct Hwhy as [? | [? | [? | ?]]]; [lia | auto..]. }
  destruct Hc as (i & -> & -> & Hfa & Hov & Hua).
  destruct (large_run_frames (frames w) i n (wf_frames s w Hwf) ltac:(lia) Hfa Hng Hov) as (a2 & Em & Ed & Ha & Hgeo & Hus & Hd).
  change (PhysicalFrame.index (handle ?a i)) with i. rewrite Em. cbn [mbind option_bind]. rewrite Ed. cbn [mbind option_bind].
  set (a3 := write_descriptor _ _ _) in *. set (o := PhysicalFrame.address _).
  assert (o = addr w i) as Eo.
  { destruct (fit_at_spec (frames w) n 0 i (wf_frames s w Hwf) ltac:(lia) Hfa) as (? & ? & Hfree & _). unfold o. cbn.
    apply same_geometry_address. apply take_run_spec; try done; try lia; [apply (wf_frames s w Hwf) | intros j Hj; apply Hfree; lia]. }
  rewrite Eo. clear o Eo. eexists _, _, _, _. split; [reflexivity |]. set (ram := zero _ _ _).
  destruct (large_taken s w n i acc a3 ram Hwf ltac:(lia) Hfa Hng Ha Hgeo Hacc Hua Hd) as (Hwf' & Hadd & Hno & Hin & Hoth).
  destruct (object_fresh _ w _ (addr w i) (n * slab_page_size) (World.ram w) Hwf' Hadd) as (? & ? & ? & ?); try done.
  { intros m Hy. destruct (free_page_apart s w i _ _ Hwf Hin Hno Hy); [| unfold slab_page_size in *; lia]. destruct (object_positive s w _ _ Hwf Hy). lia. }
  unfold allocated. rewrite Hb, Efn. split_and!; try done; [by apply Hoth | |].
  - destruct (addr_facts s w i Hwf Hin) as (_ & E & _). apply Z.mod_divide in E as [q ->]; [| done]. unfold slab_page_size.
    by replace (q * 4096) with (q * 256 * 16) by lia; apply Z.mod_mul.
  - intros Hat _. specialize (Hres Hat). destruct Hgeo as (_ & _ & Hfc & _). unfold free_frames in *. cbn [World.frames]. lia.
Qed.

(** ** Returning a large object *)

(** The frames of a large object are live and adjacent. *)
Lemma large_run s w i : wf s w -> inside w i -> is_head (D w i) = true ->
  let n := PageDescriptor.references (D w i) in
  run_frames w i n true /\ 1 <= n <= u32_max /\ i + n <= frame_count_ (frames w) /\
  (forall j, i <= j < i + n -> generation_at (frames w) j <> 0 /\ addr w j = addr w i + (j - i) * slab_page_size) /\
  n <= ChargeAccount.used (pages_ s).
Proof.
  intros Hwf Hi Hh n. destruct (wf_runs s w Hwf i Hi Hh) as (Hn & Hle & Hadj & Hin). fold n in Hn, Hle, Hadj, Hin.
  assert (run_frames w i n true) as Hrun.
  { split; [done |]. intros j Hj. unfold is_head in Hh. destruct (Z.eqb_spec j i) as [-> |]; [b2p; done |].
    replace j with (i + (j - i)) by lia. apply Hin. lia. }
  assert (forall j, i <= j < i + n -> is_owned (D w j) = true) as Hown.
  { intros j Hj. destruct Hrun as [_ Hr]. destruct (Hr j Hj) as [Hl _]. by apply (large_not_slab 0). }
  split_and!; try done; try lia.
  - intros j Hj. split; [apply (wf_owned s w Hwf); [lia | by apply Hown] |]. replace j with (i + (j - i)) at 1 by lia. apply Hadj. lia.
  - rewrite (wf_charged s w Hwf), (zsum_indices owned_unit), (Frames.wf_descriptors _ (wf_frames s w Hwf)).
    assert (zsum (on_run i n 1 1) (indices (frame_count_ (frames w))) = n) as <-.
    { rewrite zsum_on_run by lia. replace (_ <=? i) with false by lia. lia. }
    apply zsum_indices_le. intros j Hj. fold (desc (frames w) j). unfold on_run, owned_unit, unit_of.
    destruct ((i <=? j) && (j <? i + n)) eqn:E; [| by destruct (is_owned _)]. b2p. rewrite Hown by lia. by destruct (j =? i).
Qed.

(** The check of release_contiguous() accepts the run. *)
Lemma large_run_released s w i : wf s w -> inside w i -> is_head (D w i) = true ->
  let n := PageDescriptor.references (D w i) in
  let '(a, acc, st) := release_contiguous (frames w) (handle (frames w) i) n (pages_ s) in
  st = StatusCode.ok /\ Frames.wf a /\ same_geometry a (frames w) /\ ChargeAccount.wf acc /\
  ChargeAccount.used acc = ChargeAccount.used (pages_ s) - n /\
  forall j, 0 <= j -> desc a j = if (i <=? j) && (j <? i + n) then PageDescriptor.zero else D w j.
Proof.
  intros Hwf Hi Hh n. pose proof (wf_frames s w Hwf) as Hf. destruct (large_run s w i Hwf Hi Hh) as (_ & Hn & Hle & Hlive & Hu). fold n in Hn, Hle, Hlive, Hu.
  destruct (handle_descriptor (frames w) i Hf Hi) as (_ & He & _); [apply Hlive; lia |].
  assert (run_owned (Z.to_nat (n - 1)) (frames w) (handle (frames w) i) 1 = true) as Hro.
  { apply run_owned_spec. cbn [handle PhysicalFrame.index PhysicalFrame.address]. intros j Hj. destruct (Hlive (i + j)) as [Hg Ea]; [lia |].
    rewrite used_generation, (wf_page_size s w Hwf) by (done || lia). split; [apply negb_true_iff; lia |].
    destruct (addr_facts s w (i + j) Hwf) as (? & _ & ?); [lia |]. unfold slab_page_size in *. rewrite usize_wrap_small; lia. }
  destruct (release_contiguous (frames w) (handle (frames w) i) n (pages_ s)) as [[a acc] st] eqn:Er. pose proof Er as Er'.
  unfold release_contiguous in Er'. cbn [handle PhysicalFrame.index] in Er'. rewrite He, Hro in Er'. cbn [negb orb] in Er'.
  replace (n =? 0) with false in Er' by lia. replace (_ <? n) with false in Er' by lia. cbn [orb] in Er'. replace (_ <? n) with false in Er' by lia.
  injection Er' as Ea Eacc <-. destruct (release_contiguous_ok (frames w) (handle (frames w) i) n (pages_ s) a acc Hf ltac:(cbn; lia) ltac:(lia) Er) as (_ & _ & _ & _ & Ha & Hgeo & _ & _ & _ & _ & _).
  destruct (uncharge_ok (pages_ s) n (wf_account s w Hwf) ltac:(lia)) as [? ?]. split_and!; try congruence.
  intros j Hj. destruct (drop_run_desc (Z.to_nat n) (frames w) i j) as [_ Hd]; try lia; [rewrite (Frames.wf_descriptors _ Hf); lia |].
  rewrite Z2Nat.id in Hd by lia. rewrite <- Hd, <- Ea. by destruct (i <? _).
Qed.

Lemma large_returned s w i a acc : wf s w -> inside w i -> is_head (D w i) = true ->
  let n := PageDescriptor.references (D w i) in
  Frames.wf a -> same_geometry a (frames w) -> ChargeAccount.wf acc -> ChargeAccount.used acc = ChargeAccount.used (pages_ s) - n ->
  (forall j, 0 <= j -> desc a j = if (i <=? j) && (j <? i + n) then PageDescriptor.zero else D w j) ->
  let s' := count_release (with_large (with_account s acc) (large_allocations_ s - 1) (large_pages_ s - n)) in
  wf s' (World.with_frames w a) /\ objects_removed w (World.with_frames w a) (addr w i) /\ others_kept w (World.with_frames w a).
Proof.
  intros Hwf Hi Hh n Ha Hgeo Hacc Hu Hd s'. destruct (large_run s w i Hwf Hi Hh) as (Hrun & Hn & Hle & _). fold n in Hrun, Hn, Hle.
  set (w' := World.with_frames w a).
  assert (run_frames w' i n false) as H1 by (split; [done |]; intros j Hj; cbn; rewrite Hd by lia; by cmp).
  assert (forall j, 0 <= j -> (i <=? j) && (j <? i + n) = false -> D w' j = D w j) as Hoff by (intros j Hj E; cbn; by rewrite Hd, E).
  split_and!.
  - apply (run_update_wf s s' w w' i n false); auto; try done; try lia; cbn; try lia; apply (wf_allocations s w Hwf).
  - intros y m. apply (run_update_objects s s' w w' i n false); auto; try done; try lia; cbn; lia.
  - split; [done |]. intros j (Hj & _ & Ho). split; [| done]. apply Hoff; [lia |]. destruct ((i <=? j) && (j <? i + n)) eqn:E; [exfalso | done]. b2p.
    destruct Hrun as [_ Hr]. destruct (Hr j ltac:(lia)) as [Hl _]. apply (large_not_slab 0) in Hl as [_ Hl]. congruence.
Qed.

Lemma large_object s w o n : wf s w -> 0 < n -> object w o (n * slab_page_size) ->
  exists i, inside w i /\ is_head (D w i) = true /\ PageDescriptor.references (D w i) = n /\ o = addr w i.
Proof.
  intros Hwf Hn [(c & Hc & E & _) | (k & E & Hl)].
  - destruct (class_facts c Hc) as (? & _). unfold slab_page_size in E. lia.
  - assert (k = n) as -> by (unfold slab_page_size in E; lia). done.
Qed.

Lemma release_large_spec s w o size owner : wf s w -> ChargeAccount.wf owner -> frames_ s = true -> large_threshold < size ->
  exists s' w' owner' st, release_large s w o size owner = Some (s', w', owner', st) /\ released s w o size owner s' w' owner' st.
Proof.
  intros Hwf Hown Hf Hsize. unfold release_large.
  assert (forall st, st <> StatusCode.ok -> ~ releasable s w o size owner -> released s w o size owner s w owner st) as Hrefuse
    by (intros st ? ?; right; done).
  assert (object w o (charge_for size) -> exists i, inside w i /\ is_head (D w i) = true /\
    charge_for size = PageDescriptor.references (D w i) * slab_page_size /\ o = addr w i) as Hobj.
  { intros Ho. destruct (large_charge size Hsize) as [E | (n & Hn & E & _)]; rewrite E in *; [by destruct (object_positive s w o 0 Hwf Ho) |].
    destruct (large_object s w o n Hwf ltac:(lia) Ho) as (i & ? & ? & <- & ->). by exists i. }
  pose proof (owned_page_spec s w o PageKind.kernel_large Hwf) as Hpg. destruct (owned_page w _ _) as [f | e].
  2: { destruct Hpg as [He Hno]. exists s, w, owner, e. split; [done |]. apply Hrefuse; [done |]. intros (_ & _ & Ho & _).
       destruct (Hobj Ho) as (i & Hi & Hh & _ & ->). apply andb_true_iff in Hh as [Hl%Z.eqb_eq _]. apply (Hno i); try done.
       apply (wf_owned s w Hwf); [done |]. apply (large_not_slab 0). by apply Z.eqb_eq. }
  destruct Hpg as (i & Hi & -> & Hg & Hk & -> & Hd). rewrite Hd. cbn [mbind option_bind].
  assert (object w (addr w i) (charge_for size) -> is_head (D w i) = true /\ charge_for size = PageDescriptor.references (D w i) * slab_page_size) as Hobj'.
  { intros Ho. destruct (Hobj Ho) as (j & Hj & Hh & E & Ea). apply (address_for_inj _ (wf_frames s w Hwf)) in Ea; [| done | done]. by subst j. }
  destruct (_ || _) eqn:Ec.
  { eexists s, w, owner, _. split; [done |]. apply Hrefuse; [done |]. intros (_ & _ & Ho & _). destruct (Hobj' Ho) as [Hh E].
    destruct (wf_runs s w Hwf i Hi Hh) as (? & _). rewrite E, Z.div_mul in Ec by done. unfold is_head, slab_page_size in *. b2p. lia. }
  destruct (Z.ltb_spec (ChargeAccount.used owner) (charge_for size)).
  { eexists s, w, owner, _. split; [done |]. apply Hrefuse; [done |]. intros (_ & _ & _ & ?). lia. }
  destruct (large_charge size Hsize) as [E | (n & Hn & E & _ & En)]; [by rewrite E in Ec |]. rewrite En in Ec. b2p.
  assert (is_head (D w i) = true) as Hh by (unfold is_head, is_large; rewrite Hk; by apply Z.eqb_eq).
  pose proof (large_run_released s w i Hwf Hi Hh) as Hrel. cbn zeta in Hrel. destruct (release_contiguous _ _ _ _) as [[a acc] st].
  destruct Hrel as (-> & Ha & Hgeo & Hacc & Hu & Hda). cbn [status_ok negb].
  destruct (large_returned s w i a acc Hwf Hi Hh Ha Hgeo Hacc Hu Hda) as (Hwf' & Hrm & Hoth). eexists _, _, _, _. split; [reflexivity |]. left.
  assert (0 <= charge_for size <= ChargeAccount.used owner) as Hb by (unfold slab_page_size in E; lia). destruct (uncharge_ok owner (charge_for size) Hown Hb) as [? ?].
  split_and!; try done. split_and!; try done; [unfold large_threshold in Hsize; lia |]. right. exists n. split; [done |]. by exists i.
Qed.
End Large.
