(* ===== verification/SlabClaims.v ===== *)
(** * Kernel objects: what allocate() and release() promise

    The contracts of the two operations over both paths, initialization, and
    the refinement: a history of calls on the detailed allocator is a history
    of an abstract heap of disjoint objects. *)

From S2P Require Import Prelude Charges Regions Sweep Frames FrameSearch FrameSpec FrameAlloc Slab SlabInv SlabSmall SlabAlloc SlabRelease SlabLarge.
Import SlabAllocator.

Section Claims.
Context `{Arch}.
Import FrameAllocator.
#[local] Arguments address_for : simpl never.
#[local] Arguments desc : simpl never.
#[local] Arguments object : simpl never.
Abbreviation wf := SlabInv.wf.
Abbreviation frames w := (World.frames w).

Definition counters s : list Z * Z * Z := (allocations_ s, releases_ s, failures_ s).

Lemma push_counters s w c p s' w' : push s w c p = (s', w') -> counters s' = counters s.
Proof. unfold push. by intros [= <- <-]. Qed.
Lemma unlink_counters s w c p s' w' : unlink s w c p = (s', w') -> counters s' = counters s.
Proof. unfold unlink. destruct (negb (_ =? 0)); by intros [= <- <-]. Qed.

Lemma new_page_counters s w c ctx s' w' r : new_page s w c ctx = Some (s', w', r) -> counters s' = counters s.
Proof.
  unfold new_page. destruct (negb _); [by intros [= <- <- <-] |]. destruct (allocate_charged _ _) as [[a acc] [f | e]]; [| by intros [= <- <- <-]].
  destruct (descriptor a f) as [d |]; [cbn [mbind option_bind] | done]. destruct (push _ _ _ _) as [s1 w1] eqn:Ep. intros [= <- <- <-].
  by apply push_counters in Ep.
Qed.

Lemma take_slot_counters s w owner c p k s' w' owner' r : take_slot s w owner c p k = Some (s', w', owner', r) -> counters s' = counters s.
Proof.
  unfold take_slot. set (w1 := World.with_headers _ _). destruct (if _ =? 0 then _ else _) as [s1 w2] eqn:Eu.
  assert (counters s1 = counters s) as Ec by (destruct (_ =? 0); [by apply unlink_counters in Eu | by injection Eu as <- _]).
  destruct (value _) as [i |]; [cbn [mbind option_bind] | done]. destruct (value _) as [f |]; [cbn [mbind option_bind] | done].
  destruct (descriptor _ _) as [d |]; [cbn [mbind option_bind] | done]. intros [= <- _ _ _]. done.
Qed.

Lemma allocate_object_counters s w size owner ctx s' w' owner' r :
  allocate_object s w size owner ctx = Some (s', w', owner', r) -> counters s' = counters s.
Proof.
  unfold allocate_object. destruct (negb _); [by intros [= <- _ _ _] |]. destruct (size =? 0); [by intros [= <- _ _ _] |].
  destruct (_ <? size).
  - unfold allocate_large. destruct (_ =? 0); [by intros [= <- _ _ _] |]. destruct (_ <? _); [by intros [= <- _ _ _] |].
    destruct (negb _); [by intros [= <- _ _ _] |]. destruct (ChargeAccount.charge _ _) as [o1 st]. destruct (negb _); [by intros [= <- _ _ _] |].
    destruct (allocate_contiguous _ _ _ _) as [[a acc] [f | e]]; [| by intros [= <- _ _ _]].
    destruct (mark_run _ _ _ _); [cbn [mbind option_bind] | done]. destruct (descriptor _ _); [cbn [mbind option_bind] | done]. by intros [= <- _ _ _].
  - destruct (ChargeAccount.charge _ _) as [o1 st]. destruct (negb _); [by intros [= <- _ _ _] |].
    destruct (if _ =? 0 then _ else _) as [[[s1 w1] [p | e]] |] eqn:Ec; [cbn [mbind option_bind].. | done].
    all: assert (counters s1 = counters s) as E1 by (destruct (_ =? 0); [by apply new_page_counters in Ec | by injection Ec as <- _]).
    + destruct (find_slot _ _ _); [intros E; apply take_slot_counters in E; congruence | by intros [= <- _ _ _]].
    + by intros [= <- _ _ _].
Qed.

(** The counters after an answer. *)
Definition counted_call s (ctx : AllocationContext.t) (ok : bool) : list Z * Z * Z :=
  let k := AllocationContext.index ctx in
  if ok then ((allocations_ s).[k := u64_wrap ((allocations_ s).[k] + 1)], releases_ s, failures_ s)
  else (allocations_ s, releases_ s, u64_wrap (failures_ s + 1)).

Lemma allocate_object_contract s w size owner ctx : wf s w -> ChargeAccount.wf owner -> 0 <= size ->
  (large_threshold < size -> next_generation_ (frames w) <> 0) ->
  exists s' w' owner' r, allocate_object s w size owner ctx = Some (s', w', owner', r) /\ allocated s w size owner ctx s' w' owner' r.
Proof.
  intros Hwf Hown Hs Hng. destruct (frames_ s) eqn:Hf.
  2: { unfold allocate_object. rewrite Hf. eexists _, _, _, _. split; [reflexivity |]. split_and!; try done. split; [done | by left]. }
  destruct (Z.eqb_spec size 0) as [-> |].
  { unfold allocate_object. rewrite Hf. eexists _, _, _, _. split; [reflexivity |]. split_and!; try done. split; [done | by auto]. }
  destruct (Z.ltb_spec large_threshold size) as [Hl | Hl]; [| apply allocate_small; try done; lia].
  unfold allocate_object. rewrite Hf. cbn [negb]. replace (size =? 0) with false by lia. replace (large_threshold <? size) with true by lia.
  apply allocate_large_spec; auto.
Qed.

Lemma allocate_contract s w size owner ctx : wf s w -> ChargeAccount.wf owner -> 0 <= size ->
  (large_threshold < size -> next_generation_ (frames w) <> 0) ->
  exists s' w' owner' r, SlabAllocator.allocate s w size owner ctx = Some (s', w', owner', r) /\
    allocated s w size owner ctx s' w' owner' r /\ counters s' = counted_call s ctx (result_ok r).
Proof.
  intros Hwf Hown Hs Hng. destruct (allocate_object_contract s w size owner ctx Hwf Hown Hs Hng) as (s1 & w' & owner' & r & E & Hwf1 & Hset & Hrest).
  pose proof (allocate_object_counters _ _ _ _ _ _ _ _ _ E) as Hc. unfold counters in Hc. injection Hc as Ea Er Ef.
  unfold SlabAllocator.allocate. rewrite E. cbn [mbind option_bind]. eexists _, w', owner', r. split; [reflexivity |].
  destruct (result_ok r); (split; [split; [apply (wf_counters s1); try done; try apply (wf_account _ _ Hwf1) | by split] |]).
  - cbn. rewrite zlen_aset. apply (wf_allocations _ _ Hwf1).
  - unfold counters, counted_call. cbn. by rewrite Ea, Er, Ef.
  - apply (wf_allocations _ _ Hwf1).
  - unfold counters, counted_call. cbn. by rewrite Ea, Er, Ef.
Qed.

Lemma release_contract s w o size owner : wf s w -> ChargeAccount.wf owner -> 0 <= o <= usize_max -> 0 <= size ->
  exists s' w' owner' st, SlabAllocator.release s w o size owner = Some (s', w', owner', st) /\ released s w o size owner s' w' owner' st.
Proof.
  intros Hwf Hown Ho Hs. destruct (frames_ s) eqn:Hf.
  2: { unfold SlabAllocator.release. rewrite Hf. eexists _, _, _, _. split; [reflexivity |]. right. split_and!; try done. intros (? & _). congruence. }
  destruct ((o =? 0) || (size =? 0)) eqn:Ez.
  { unfold SlabAllocator.release. rewrite Hf, Ez. eexists _, _, _, _. split; [reflexivity |]. right. split_and!; try done. intros (_ & ? & Hob & _).
    destruct (object_positive s w o _ Hwf Hob). b2p. lia. }
  b2p. destruct (Z.ltb_spec large_threshold size) as [Hl | Hl]; [| apply release_small; try done; lia].
  unfold SlabAllocator.release. rewrite Hf. cbn [negb]. replace (o =? 0) with false by lia. replace (size =? 0) with false by lia. cbn [orb].
  replace (large_threshold <? size) with true by lia. by apply release_large_spec.
Qed.

(** ** Initialization *)

(** No frame of [w] is the allocator's, and none is at address 0. *)
Definition unclaimed w : Prop :=
  Frames.wf (frames w) /\ forall i, 0 <= i < frame_count_ (frames w) -> address_for (frames w) i <> 0 /\ is_owned (desc (frames w) i) = false.

Lemma zsum_unowned {w} f : unclaimed w -> (forall d, is_owned d = false -> f d = 0) -> zsum f (descriptors_ (frames w)) = 0.
Proof.
  intros [Hf Hun] Hz. rewrite (zsum_ext f (fun _ => 0) _ (descriptors_ (frames w))); [| done |].
  - generalize (descriptors_ (frames w)). intros l. induction l as [| d l IH]; [done | by rewrite zsum_cons, IH].
  - intros i Hi. rewrite (Frames.wf_descriptors _ Hf) in Hi. apply Hz. fold (desc (frames w) i). by apply Hun.
Qed.

Lemma initialize_contract w limit reserve : unclaimed w -> 0 <= limit <= usize_max ->
  let '(s, st) := SlabAllocator.initialize SlabAllocator.new (frames w) limit reserve in
  (st = StatusCode.ok -> wf s w /\ frames_ s = true /\ reserve_ s = reserve /\ ChargeAccount.used (pages_ s) = 0 /\ forall o b, ~ object w o b) /\
  (st <> StatusCode.ok -> s = SlabAllocator.new).
Proof.
  intros Hun Hlim. pose proof Hun as [Hf Hall]. unfold SlabAllocator.initialize. cbn [frames_ SlabAllocator.new].
  destruct (_ || _) eqn:E1; [done |]. destruct (_ <=? reserve); [done |].
  destruct (ChargeAccount.set_limit _ _) as [p st] eqn:El. destruct (status_ok st) eqn:Est; cbn [negb]; [| split; [by intros -> | done]].
  assert (st = StatusCode.ok) as -> by (by destruct st).
  assert (ChargeAccount.used p = 0 /\ ChargeAccount.wf p) as [Hu Hp].
  { split; [revert El; unfold ChargeAccount.set_limit; cbn; destruct (_ && _); by intros [= <-] |].
    eapply set_limit_wf; [| exact Hlim | exact El]. split_and!; cbn; try done; pose proof usize_max_pos; lia. }
  split; [| done]. intros _. b2p.
  assert (forall f, (forall d, is_owned d = false -> f d = 0) -> zsum f (descriptors_ (frames w)) = 0) as Hsum by (intros f; by apply zsum_unowned).
  assert (forall c d, is_owned d = false -> is_slab c d = false /\ is_large d = false /\ is_head d = false) as Hno by (intros; by apply unowned_nothing).
  split_and!; try done.
  - split; cbn; try done; try (by intros i Hi; apply Hall).
    + intros i Hi Ho. destruct (Hall i Hi). congruence.
    + intros i c Hi Hk _. destruct (Hall i Hi) as [_ Ho]. unfold is_owned in Ho. b2p. done.
    + intros c Hc. exists []. split_and!; [| constructor |].
      * cbn. by destruct (class_cases c Hc) as [-> | [-> | [-> | [-> | [-> | [-> | ->]]]]]].
      * intros x. split; [by intros ?%not_elem_of_nil |]. intros (i & Hi & Hs & _). destruct (Hall i Hi) as [_ Ho]. destruct (Hno c _ Ho) as [? _]. congruence.
    + intros c Hc. rewrite (Hsum (slab_unit c)); [by destruct (class_cases c Hc) as [-> | [-> | [-> | [-> | [-> | [-> | ->]]]]]] |]. intros d Hd. unfold slab_unit. by destruct (Hno c d Hd) as [-> _].
    + intros c Hc. rewrite (Hsum (slab_refs c)); [by destruct (class_cases c Hc) as [-> | [-> | [-> | [-> | [-> | [-> | ->]]]]]] |]. intros d Hd. unfold slab_refs. by destruct (Hno c d Hd) as [-> _].
    + rewrite Hsum; [done |]. intros d Hd. unfold large_unit. by destruct (Hno 0 d Hd) as (_ & -> & _).
    + rewrite Hsum; [done |]. intros d Hd. unfold head_unit. by destruct (Hno 0 d Hd) as (_ & _ & ->).
    + rewrite Hsum; [done |]. intros d Hd. unfold owned_unit. by rewrite Hd.
    + intros i Hi Hh. destruct (Hall i Hi) as [_ Ho]. destruct (Hno 0 _ Ho) as (_ & _ & ?). congruence.
  - intros o b [(c & Hc & _ & i & k & Hi & Hs & _) | (n & _ & i & Hi & Hh & _)]; destruct (Hall i Hi) as [_ Ho];
      [destruct (Hno c _ Ho) as [? _] | destruct (Hno 0 _ Ho) as (_ & _ & ?)]; congruence.
Qed.

(** ** The abstract heap *)
Inductive call := Allocate (size : Z) (ctx : AllocationContext.t) | Release (o size : Z).
Inductive answer := Allocated (r : result Z) | Released (st : Status).

(** Address and bytes of every object. *)
Abbreviation heap := (list (Z * Z)).
Definition without (o : Z) (h : heap) : heap := filter (fun p => p.1 <> o) h.

Inductive heap_step : heap -> call -> answer -> heap -> Prop :=
| step_allocated h size ctx o : size <= charge_for size -> 0 < o -> o mod 16 = 0 ->
    (forall y m, (y, m) ∈ h -> apart o (charge_for size) y m) ->
    heap_step h (Allocate size ctx) (Allocated (Ok o)) ((o, charge_for size) :: h)
| step_refused h size ctx e : e <> StatusCode.ok -> heap_step h (Allocate size ctx) (Allocated (Err e)) h
| step_released h o size : 0 < size -> (o, charge_for size) ∈ h ->
    heap_step h (Release o size) (Released StatusCode.ok) (without o h)
| step_kept h o size st : st <> StatusCode.ok -> (0 < size -> (o, charge_for size) ∉ h) ->
    heap_step h (Release o size) (Released st) h.

Fixpoint heap_run (h : heap) (calls : list call) (answers : list answer) (h' : heap) : Prop :=
  match calls, answers with
  | [], [] => h' = h
  | c :: calls, r :: answers => exists h1, heap_step h c r h1 /\ heap_run h1 calls answers h'
  | _, _ => False
  end.

(** The detailed allocator with one owner. *)
Definition state : Type := SlabAllocator.t * World.t * ChargeAccount.t.
Definition exec (x : state) (c : call) : option (state * answer) :=
  let '(s, w, owner) := x in
  match c with
  | Allocate size ctx =>
      result ← SlabAllocator.allocate s w size owner ctx; let '(s, w, owner, r) := result in Some (s, w, owner, Allocated r)
  | Release o size =>
      result ← SlabAllocator.release s w o size owner; let '(s, w, owner, st) := result in Some (s, w, owner, Released st)
  end.
Fixpoint run (x : state) (calls : list call) : option (state * list answer) :=
  match calls with
  | [] => Some (x, [])
  | c :: calls =>
      one ← exec x c; rest ← run one.1 calls; Some (rest.1, one.2 :: rest.2)
  end.

(** Arguments in range, and generations left when a run of frames is taken. *)
Definition call_ok (x : state) (c : call) : Prop :=
  match c with
  | Allocate size _ => 0 <= size /\ (large_threshold < size -> next_generation_ (frames x.1.2) <> 0)
  | Release o size => 0 <= o <= usize_max /\ 0 <= size
  end.
Fixpoint calls_ok (x : state) (calls : list call) : Prop :=
  match calls with
  | [] => True
  | c :: calls => call_ok x c /\ match exec x c with Some (x', _) => calls_ok x' calls | None => True end
  end.

(** The heap of [h] is what the allocator holds; its owner pays for it. *)
Definition represents (base : Z) (h : heap) (x : state) : Prop :=
  let '(s, w, owner) := x in
  wf s w /\ frames_ s = true /\ ChargeAccount.wf owner /\ NoDup h.*1 /\ (forall o b, (o, b) ∈ h <-> object w o b) /\
  ChargeAccount.used owner = base + zsum snd h.

Lemma without_elem o h y m : (y, m) ∈ without o h <-> (y, m) ∈ h /\ y <> o.
Proof. unfold without. rewrite list_elem_of_filter. cbn. tauto. Qed.

Lemma without_absent o h : o ∉ h.*1 -> without o h = h.
Proof.
  induction h as [| [y m] h IH]; [done |]. cbn [fmap list_fmap fst]. rewrite not_elem_of_cons. intros [Hy Hh]. unfold without. rewrite filter_cons_True by done.
  f_equal. by apply IH.
Qed.

Lemma without_fst o h : NoDup h.*1 -> NoDup (without o h).*1.
Proof. intros Hn. eapply sublist_NoDup; [exact Hn |]. apply fmap_sublist, sublist_filter. Qed.

Lemma without_sum o b h : NoDup h.*1 -> (o, b) ∈ h -> zsum snd (without o h) = zsum snd h - b.
Proof.
  induction h as [| [y m] h IH]; [by intros _ ?%not_elem_of_nil |]. cbn [fmap list_fmap fst]. intros [Hy Hn]%NoDup_cons Hin. rewrite zsum_cons. cbn [snd].
  apply elem_of_cons in Hin as [[= <- <-] | Hin].
  - unfold without. rewrite filter_cons_False by (cbn; tauto). fold (without o h). rewrite without_absent by done. lia.
  - unfold without. assert (o <> y) by (intros <-; apply Hy; apply list_elem_of_fmap; by exists (o, b)).
    rewrite filter_cons_True by (cbn; congruence). rewrite zsum_cons. cbn [snd]. fold (without o h). rewrite IH by done. lia.
Qed.

Lemma heap_paid base h s w owner o b : 0 <= base -> represents base h (s, w, owner) -> (o, b) ∈ h -> b <= ChargeAccount.used owner.
Proof.
  intros Hb (Hwf & _ & _ & _ & Hobj & Hu) Hin. assert (Forall (fun p : Z * Z => 0 <= p.2) h) as Hpos.
  { apply Forall_forall. intros [y m] Hy%Hobj. cbn. destruct (object_positive s w y m Hwf Hy). lia. }
  apply list_elem_of_lookup in Hin as [k Hk]. pose proof (zsum_elem snd h (Z.of_nat k) Hpos) as Hz.
  rewrite (aget_lookup h (Z.of_nat k) (o, b)) in Hz by (rewrite ?Nat2Z.id; done || lia). cbn in Hz.
  assert (0 <= Z.of_nat k < zlen h) as Hr by (apply lookup_lt_Some in Hk; unfold zlen; lia). specialize (Hz Hr). lia.
Qed.

(** One call on the detailed allocator is one step of the heap. *)
Lemma exec_simulates base h x c : 0 <= base -> represents base h x -> call_ok x c ->
  exists x' r h', exec x c = Some (x', r) /\ heap_step h c r h' /\ represents base h' x'.
Proof.
  intros Hbase Hrep Hok. destruct x as [[s w] owner]. pose proof Hrep as (Hwf & Hf & Hown & Hnd & Hobj & Hu). destruct c as [size ctx | o size]; cbn in Hok |- *.
  - destruct Hok as [Hs Hng]. destruct (allocate_contract s w size owner ctx Hwf Hown Hs Hng) as (s' & w' & owner' & r & -> & (Hwf' & [Hf' _] & Hown' & _ & Hr) & _).
    cbn [mbind option_bind]. destruct r as [o | e].
    + destruct Hr as (Hle & Ho & Hal & Hadd & Hap & _ & _ & Hu' & _). eexists _, _, ((o, charge_for size) :: h). split; [reflexivity |].
      assert (forall y m, (y, m) ∈ h -> apart o (charge_for size) y m) as Hap' by (intros y m Hy%Hobj; by apply Hap).
      split; [by constructor |]. split_and!; try done; [congruence | | |].
      * cbn [fmap list_fmap fst]. constructor; [| done]. intros Hin. apply list_elem_of_fmap in Hin as ([y m] & -> & Hy). cbn in *.
        destruct (object_positive s w y m Hwf) as [? _]; [by apply Hobj |]. destruct (object_positive s' w' y (charge_for size) Hwf') as [? _]; [apply Hadd; by right |].
        destruct (Hap' y m Hy); lia.
      * intros y m. pose proof (Hadd y m) as E. rewrite E, elem_of_cons, Hobj. split; [intros [[= -> ->] | ?]; auto | intros [? | [-> ->]]; auto].
      * rewrite zsum_cons. cbn [snd]. lia.
    + destruct Hr as (-> & Hu' & [He _]). eexists _, _, h. split; [reflexivity |]. split; [by constructor |]. split_and!; try done; congruence.
  - destruct Hok as [Ho Hs]. destruct (release_contract s w o size owner Hwf Hown Ho Hs) as (s' & w' & owner' & st & -> & Hr). cbn [mbind option_bind].
    destruct Hr as [(-> & (_ & Hpos & Hin & _) & Hwf' & [Hf' _] & Hrm & _ & _ & Hown' & Hu') | (Hst & Hno & -> & -> & ->)].
    + apply Hobj in Hin. eexists _, _, (without o h). split; [reflexivity |]. split; [by constructor |]. split_and!; try done; [congruence | | |].
      * by apply without_fst.
      * intros y m. pose proof (Hrm y m) as E. rewrite E, without_elem, Hobj. done.
      * rewrite (without_sum o (charge_for size)) by done. lia.
    + eexists _, _, h. split; [reflexivity |]. split; [| done]. constructor; [done |]. intros Hpos Hin. apply Hno. split_and!; try done; [by apply Hobj |].
      exact (heap_paid base h s w owner o _ Hbase Hrep Hin).
Qed.

(** ** The contracts *)

(** C6: allocate() never dereferences an empty result: in a consistent state
    it answers.  Requests above the large threshold, which go to
    allocate_contiguous(), are covered as long as the frame allocator's
    generation sequence is not exhausted.  A success returns a new 16-aligned address whose
    [charge_for size] bytes are zero, hold [size], lie apart from every other
    object and are charged to the owner; the other objects and the frames of
    the rest of the kernel keep their bytes and descriptors, and the frame
    reserve is respected outside the atomic context.  A refusal
    leaves memory and the owner's charge as they were and has one of the
    stated causes.  The call is counted by its context or as a failure. *)
Theorem slab_allocate_spec s w size owner ctx :
  wf s w -> ChargeAccount.wf owner -> 0 <= size -> (large_threshold < size -> next_generation_ (frames w) <> 0) ->
  exists s' w' owner' r, SlabAllocator.allocate s w size owner ctx = Some (s', w', owner', r) /\
    wf s' w' /\ same_setup s s' /\ ChargeAccount.wf owner' /\ counters s' = counted_call s ctx (result_ok r) /\ others_kept w w' /\
    match r with
    | Ok o =>
        let b := charge_for size in
        size <= b /\ 0 < o /\ o mod 16 = 0 /\ objects_added w w' o b /\
        (forall y m, object w y m -> apart o b y m) /\ (forall p, o <= p < o + b -> World.ram w' p = 0) /\
        (forall y m p, object w y m -> y <= p < y + m -> World.ram w' p = World.ram w p) /\
        ChargeAccount.used owner' = ChargeAccount.used owner + b /\
        (AllocationContext.is_atomic ctx = false -> 0 < frames_needed s size -> reserve_ s <= free_frames (frames w'))
    | Err e => w' = w /\ ChargeAccount.used owner' = ChargeAccount.used owner /\ refusal s w size owner ctx e
    end.
Proof.
  intros Hwf Hown Hs Hng. destruct (allocate_contract s w size owner ctx Hwf Hown Hs Hng) as (s' & w' & owner' & r & E & (? & ? & ? & ? & Hr) & ?).
  by exists s', w', owner', r.
Qed.

(** C9: release() answers in a consistent state, and succeeds exactly when the
    pointer and size name a live object the owner can uncharge: then that
    object alone disappears, no byte outside the headers and no frame of the
    rest of the kernel changes, and the owner is uncharged for it.  Otherwise nothing changes; a pointer into an
    object, a second release or a wrong size class is refused. *)
Theorem slab_release_spec s w o size owner :
  wf s w -> ChargeAccount.wf owner -> 0 <= o <= usize_max -> 0 <= size ->
  exists s' w' owner' st, SlabAllocator.release s w o size owner = Some (s', w', owner', st) /\
    (st = StatusCode.ok <->
       frames_ s = true /\ 0 < size /\ object w o (charge_for size) /\ charge_for size <= ChargeAccount.used owner) /\
    (st = StatusCode.ok -> wf s' w' /\ same_setup s s' /\ objects_removed w w' o /\ others_kept w w' /\ World.ram w' = World.ram w /\
       ChargeAccount.wf owner' /\ ChargeAccount.used owner' = ChargeAccount.used owner - charge_for size) /\
    (st <> StatusCode.ok -> s' = s /\ w' = w /\ owner' = owner).
Proof.
  intros Hwf Hown Ho Hs. destruct (release_contract s w o size owner Hwf Hown Ho Hs) as (s' & w' & owner' & st & E & Hr).
  exists s', w', owner', st. split; [done |]. destruct Hr as [(-> & ? & ?) | (? & ? & -> & -> & ->)]; split_and!; try done; split; try done.
Qed.

(** C4: refinement.  Every history of calls on the detailed allocator runs to
    its end and is a history of the abstract heap, as long as no request above
    the large threshold meets an exhausted frame generation sequence: allocations return fresh,
    aligned, disjoint objects, releases succeed exactly on the heap's objects,
    and the owner's charge is the bytes of the heap throughout. *)
Theorem slab_refines_heap base h x calls : 0 <= base -> represents base h x -> calls_ok x calls ->
  exists x' answers h', run x calls = Some (x', answers) /\ heap_run h calls answers h' /\ represents base h' x'.
Proof.
  intros Hbase. revert h x. induction calls as [| c calls IH]; intros h x Hrep Hok; [by eexists x, [], h |].
  destruct Hok as [Hc Hok]. destruct (exec_simulates base h x c Hbase Hrep Hc) as (x1 & r & h1 & E & Hstep & Hrep1). rewrite E in Hok.
  destruct (IH h1 x1 Hrep1 Hok) as (x' & answers & h' & Er & Hrun & Hrep'). exists x', (r :: answers), h'. cbn [run]. rewrite E. cbn [mbind option_bind fst].
  rewrite Er. split; [done |]. split; [by exists h1 | done].
Qed.
End Claims.

(** ** Witnesses *)
#[local] Existing Instance arch64.

Definition sample_world : World.t :=
  World.mk sample_frames (fun _ => SlabHeader.mk 0 0 0 0 0 []) (fun _ => 255).
Definition sample_slab : SlabAllocator.t := fst (SlabAllocator.initialize SlabAllocator.new sample_frames 0 1).

Lemma sample_unclaimed : unclaimed sample_world.
Proof.
  split; [exact sample_frames_wf |]. intros i Hi. change (FrameAllocator.frame_count_ (World.frames sample_world)) with 4 in Hi.
  assert (i = 0 \/ i = 1 \/ i = 2 \/ i = 3) as [-> | [-> | [-> | ->]]] by lia; by split; vm_compute.
Qed.

Lemma sample_slab_wf : SlabInv.wf sample_slab sample_world /\ frames_ sample_slab = true /\ forall o b, ~ object sample_world o b.
Proof.
  pose proof (initialize_contract sample_world 0 1 sample_unclaimed) as Hi. unfold sample_slab.
  assert (snd (SlabAllocator.initialize SlabAllocator.new (World.frames sample_world) 0 1) = StatusCode.ok) as E by (by vm_compute).
  change (World.frames sample_world) with sample_frames in *.
  destruct (SlabAllocator.initialize SlabAllocator.new sample_frames 0 1) as [s st]. cbn in E. subst st. destruct Hi as [Hi _]; [by vm_compute |].
  destruct (Hi eq_refl) as (? & ? & _ & _ & ?). done.
Qed.

Lemma sample_owner_wf : ChargeAccount.wf (ChargeAccount.new 0).
Proof. vm_compute. intuition congruence. Qed.

(** A 100-byte object on the first frame. *)
Lemma slab_allocate_witness : exists s' w' owner' o,
  SlabAllocator.allocate sample_slab sample_world 100 (ChargeAccount.new 0) AllocationContext.kernel = Some (s', w', owner', Ok o) /\
  SlabInv.wf s' w' /\ objects_added sample_world w' o 128 /\ (forall p, o <= p < o + 128 -> World.ram w' p = 0) /\ ChargeAccount.used owner' = 128.
Proof.
  destruct (slab_allocate_spec sample_slab sample_world 100 (ChargeAccount.new 0) AllocationContext.kernel
    (proj1 sample_slab_wf) sample_owner_wf ltac:(lia) ltac:(discriminate)) as (s' & w' & owner' & r & E & Hwf & _ & _ & _ & _ & Hr).
  destruct r as [o | e]; [| exfalso; apply (f_equal (option_map (fun x => result_ok (snd x)))) in E; vm_compute in E; discriminate E].
  exists s', w', owner', o. destruct Hr as (_ & _ & _ & Hadd & _ & Hz & _ & Hu & _).
  split; [exact E |]. split; [exact Hwf |]. split; [exact Hadd |]. split; [exact Hz | exact Hu].
Defined.

Definition sample_state : state := (sample_slab, sample_world, ChargeAccount.new 0).

Lemma sample_represents : represents 0 [] sample_state.
Proof.
  destruct sample_slab_wf as (Hwf & Hf & Hno). split; [exact Hwf |]. split; [exact Hf |]. split; [exact sample_owner_wf |]. split; [constructor |].
  split; [| reflexivity]. intros o b. split; [intros Ho; destruct (not_elem_of_nil _ Ho) | intros Ho; destruct (Hno o b Ho)].
Qed.

(** Releasing a pointer the allocator never returned. *)
Lemma slab_release_witness : exists s' w' owner' st,
  SlabAllocator.release sample_slab sample_world 65664 100 (ChargeAccount.new 0) = Some (s', w', owner', st) /\ st <> StatusCode.ok /\ w' = sample_world.
Proof.
  destruct (slab_release_spec sample_slab sample_world 65664 100 (ChargeAccount.new 0)
    (proj1 sample_slab_wf) sample_owner_wf ltac:(split; [lia | pose proof usize_max_pos; lia]) ltac:(lia)) as (s' & w' & owner' & st & E & Hiff & _ & Hno).
  assert (st <> StatusCode.ok) as Hst by (intros (_ & _ & Ho & _)%Hiff; by apply (proj2 (proj2 sample_slab_wf)) in Ho).
  exists s', w', owner', st. split; [exact E |]. split; [exact Hst | apply (Hno Hst)].
Defined.

(** A small and a large object, the release of the first, and a second
    release of it. *)
Definition sample_calls : list call :=
  [Allocate 100 AllocationContext.kernel; Allocate 5000 AllocationContext.atomic; Release 65664 100; Release 65664 100].

Lemma slab_refines_heap_witness :
  option_map snd (run sample_state sample_calls) =
    Some [Allocated (Ok 65664); Allocated (Ok 69632); Released StatusCode.ok; Released StatusCode.invalid_argument] /\
  exists x' answers h', run sample_state sample_calls = Some (x', answers) /\ heap_run [] sample_calls answers h' /\ represents 0 h' x'.
Proof.
  split; [vm_compute; reflexivity |]. apply (slab_refines_heap 0 [] sample_state sample_calls ltac:(lia) sample_represents).
  vm_compute. repeat split; congruence.
Defined.
