(* ===== verification/Memory.v ===== *)
(** * The memory manager (include/ok/memory/memory.hpp, src/memory/memory.cpp, src/memory/slab.cpp)

    MemoryManager joins the discovered memory map, the frame allocator and the
    kernel objects: the boot form carves the allocator's own metadata out of
    usable RAM, and initialize_objects() starts the slab allocator over the
    frames with limits taken from the RAM that was found. *)

From S2P Require Import Prelude Charges Regions Sweep PhysicalMap Frames FrameSearch FrameSpec FrameAlloc Slab SlabInv SlabSmall SlabAlloc SlabRelease SlabLarge SlabClaims.
Import MemoryRegion.

Module TranslationMode.
Inductive t := linear | paged | higher_half.
End TranslationMode.

Definition page_read : Z := Z.shiftl 1 0.
Definition page_write : Z := Z.shiftl 1 1.
Definition page_execute : Z := Z.shiftl 1 2.
Definition page_user : Z := Z.shiftl 1 3.
Definition page_global : Z := Z.shiftl 1 4.
Definition page_device : Z := Z.shiftl 1 5.
Definition page_no_cache : Z := Z.shiftl 1 6.
Definition page_copy_on_write : Z := Z.shiftl 1 7.
Definition page_shared : Z := Z.shiftl 1 8.

Module VmArea.
Record t := mk { base : Z; length : Z; permissions : Z }.
Definition contains (a : t) (address size : Z) : bool :=
  (base a <=? address) && (size <=? length a) && (address - base a <=? length a - size).
End VmArea.

Module MemoryManager.
Section Defs.
Context `{Arch}.

Record t := mk {
  mode_ : TranslationMode.t;
  frames_ : FrameAllocator.t;
  metadata_region_ : MemoryRegion.t;
  objects_ : SlabAllocator.t
}.
(** [MemoryRegion{}]. *)
Definition no_region : MemoryRegion.t := MemoryRegion.mk 0 0 RegionType.reserved.
Definition new (frames_address : Z) : t :=
  mk TranslationMode.linear (FrameAllocator.new frames_address) no_region SlabAllocator.new.

Definition set_translation_mode (m : t) (mode : TranslationMode.t) : t := mk mode (frames_ m) (metadata_region_ m) (objects_ m).
Definition translation_mode (m : t) : TranslationMode.t := mode_ m.
Definition frames (m : t) : FrameAllocator.t := frames_ m.
Definition metadata_region (m : t) : MemoryRegion.t := metadata_region_ m.
Definition objects (m : t) : SlabAllocator.t := objects_ m.

(** The model form. *)
Definition initialize (m : t) (regions : list MemoryRegion.t) (page_size data size : Z) : t * Status :=
  let '(a, status) := FrameAllocator.initialize (frames_ m) regions page_size data size in
  if negb (status_ok status) then (mk (mode_ m) a (metadata_region_ m) (objects_ m), status)
  else (mk (mode_ m) a no_region (objects_ m), StatusCode.ok).

(** The first loop of the boot form: the usable ranges in the direct map. *)
Fixpoint direct_regions (usable : list MemoryRegion.t) (direct_offset : Z) : result (list MemoryRegion.t) :=
  match usable with
  | [] => Ok []
  | r :: rest =>
      if (usize_max - direct_offset <? base r) || (usize_max - (base r + direct_offset) <? size r)
      then Err StatusCode.overflow
      else
        match direct_regions rest direct_offset with
        | Err e => Err e
        | Ok regions => Ok (MemoryRegion.mk (base r + direct_offset) (size r) RegionType.usable :: regions)
        end
  end.

(** [for (i = n; i-- != 0;)]: the highest range larger than [carve]. *)
Fixpoint carve_range (n : nat) (regions : list MemoryRegion.t) (carve : Z) : option MemoryRegion.t :=
  match n with
  | O => None
  | S i =>
      let r := regions.[Z.of_nat i] in
      if size r <=? carve then carve_range i regions carve
      else Some (MemoryRegion.mk (base r + size r - carve) carve RegionType.reserved)
  end.

(** The boot form. *)
Definition initialize_boot (m : t) (map : PhysicalMemoryMap.t) (page_size direct_offset : Z) : t * Status :=
  if negb (PhysicalMemoryMap.normalized_ map) then (m, StatusCode.not_initialized)
  else if (page_size =? 0) || negb (Z.land page_size (page_size - 1) =? 0) then (m, StatusCode.invalid_argument)
  else
    match direct_regions (PhysicalMemoryMap.usable_ map) direct_offset with
    | Err e => (m, e)
    | Ok regions =>
        match FrameAllocator.metadata_bytes regions page_size with
        | Err e => (m, e)
        | Ok required =>
            let carve := Z.land (usize_wrap (required + page_size - 1)) (usize_not (page_size - 1)) in
            match carve_range (length regions) regions carve with
            | None => (m, StatusCode.no_memory)
            | Some metadata =>
                let '(a, status) :=
                  FrameAllocator.initialize (frames_ m) (regions ++ [metadata]) page_size (base metadata) (size metadata) in
                if negb (status_ok status) then (mk (mode_ m) a (metadata_region_ m) (objects_ m), status)
                else (mk (mode_ m) a metadata (objects_ m), StatusCode.ok)
            end
        end
    end.

Definition object_reserve (total : Z) : Z :=
  let reserve := total / 128 in
  let reserve := if reserve <? 16 then 16 else if 256 <? reserve then 256 else reserve in
  if total <=? reserve then 0 else reserve.

Definition initialize_objects (m : t) : t * Status :=
  if size (metadata_region_ m) =? 0 then (m, StatusCode.not_initialized)
  else
    let total := FrameAllocator.total_frames (frames_ m) in
    let '(s, status) := SlabAllocator.initialize (objects_ m) (frames_ m) (if total / 4 =? 0 then 1 else total / 4) (object_reserve total) in
    (mk (mode_ m) (frames_ m) (metadata_region_ m) s, status).
End Defs.
End MemoryManager.

Import MemoryManager.

(** ** Carving the metadata *)
Section Boot.
Context `{Arch}.
Import PhysicalMemoryMap.
Implicit Types m : MemoryManager.t.

(** contains() is containment of [size] bytes, without overflow. *)
Lemma contains_spec (a : VmArea.t) address size : 0 <= size ->
  VmArea.contains a address size = true <-> VmArea.base a <= address /\ address + size <= VmArea.base a + VmArea.length a /\ size <= VmArea.length a.
Proof. intros Hs. unfold VmArea.contains. rewrite !andb_true_iff, !Z.leb_le. lia. Qed.

Definition shifted (off : Z) (r : MemoryRegion.t) : MemoryRegion.t := MemoryRegion.mk (base r + off) (size r) RegionType.usable.

Lemma direct_regions_spec usable off regions : direct_regions usable off = Ok regions ->
  regions = shifted off <$> usable /\ Forall (fun r => base r + off + size r <= usize_max) usable.
Proof.
  revert regions. induction usable as [| r usable IH]; intros regions; cbn [direct_regions].
  { intros [= <-]. by split. }
  destruct (_ || _) eqn:E; [done |]. destruct (direct_regions usable off) as [l | e]; [| done]. intros [= <-]. destruct (IH l eq_refl) as [-> Hall].
  b2p. split; [done |]. constructor; [lia | done].
Qed.

Lemma carve_range_spec n regions carve : (n <= length regions)%nat ->
  match carve_range n regions carve with
  | Some meta => exists i, 0 <= i < Z.of_nat n /\ carve < size regions.[i] /\
      meta = MemoryRegion.mk (base regions.[i] + size regions.[i] - carve) carve RegionType.reserved /\
      forall j, i < j < Z.of_nat n -> size regions.[j] <= carve
  | None => forall j, 0 <= j < Z.of_nat n -> size regions.[j] <= carve
  end.
Proof.
  induction n as [| n IH]; intros Hn; cbn [carve_range]; [lia |]. destruct (Z.leb_spec (size regions.[Z.of_nat n]) carve) as [Hle | Hgt].
  - specialize (IH ltac:(lia)). destruct (carve_range n regions carve) as [meta |].
    + destruct IH as (i & Hi & Hs & -> & Hj). exists i. split_and!; try done; try lia. intros j Hr.
      destruct (Z.eq_dec j (Z.of_nat n)) as [-> |]; [done | apply Hj; lia].
    + intros j Hr. destruct (Z.eq_dec j (Z.of_nat n)) as [-> |]; [done | apply IH; lia].
  - exists (Z.of_nat n). split_and!; try done; lia.
Qed.

(** A byte is free when a usable range covers it and the carved range does not. *)
Lemma byte_free_carved usable off base' size' b :
  byte_free ((shifted off <$> usable) ++ [MemoryRegion.mk base' size' RegionType.reserved]) b = true <->
  (exists r, r ∈ usable /\ base r + off <= b < base r + off + size r) /\ ~ (base' <= b < base' + size').
Proof.
  unfold byte_free, byte_usable, byte_reserved. rewrite !existsb_app, andb_true_iff, negb_true_iff. cbn [existsb MemoryRegion.usable RegionType.is_usable type negb andb orb].
  rewrite !orb_false_r.
  assert (existsb (fun r => negb (MemoryRegion.usable r) && covers r b) (shifted off <$> usable) = false) as ->.
  { induction usable as [| r usable IH]; [done | by cbn]. }
  cbn [orb]. apply Morphisms_Prop.and_iff_morphism; [rewrite existsb_exists | unfold covers; cbn; split; [intros; b2p; lia |]].
  - split; [intros (x & Hin%list_elem_of_In & Hc) | intros (r & Hin & Hr)].
    + apply list_elem_of_fmap in Hin as (r & -> & Hin). exists r. split; [done |]. unfold covers, shifted in Hc. cbn in Hc. b2p. lia.
    + exists (shifted off r). split; [apply list_elem_of_In, list_elem_of_fmap; by exists r |]. unfold covers, shifted. cbn. apply andb_true_iff. lia.
  - intros Hn. apply andb_false_iff. destruct (Z.leb_spec base' b), (Z.ltb_spec b (base' + size')); auto; lia.
Qed.

Lemma direct_regions_err usable off e : direct_regions usable off = Err e -> e <> StatusCode.ok.
Proof.
  revert e. induction usable as [| r usable IH]; intros e; cbn [direct_regions]; [done |]. destruct (_ || _); [by intros [= <-] |].
  destruct (direct_regions usable off) as [l | e']; [done |]. intros [= ->]. by apply IH.
Qed.

Lemma metadata_bytes_err regions ps e : FrameAllocator.metadata_bytes regions ps = Err e -> e <> StatusCode.ok.
Proof.
  unfold FrameAllocator.metadata_bytes, count_usable. destruct (sweep_usable _ _ _ _) as [totals st]. destruct (status_ok st) eqn:Es; cbn [negb].
  - destruct (_ =? 0); [by intros [= <-] |]. destruct (_ || _); [by intros [= <-] | done].
  - intros [= <-]. by intros ->.
Qed.

(** The metadata bytes, rounded up to whole pages. *)
Lemma carve_spec ps required : 0 <= ps -> (ps =? 0) || negb (Z.land ps (ps - 1) =? 0) = false -> 0 <= required ->
  let carve := Z.land (usize_wrap (required + ps - 1)) (usize_not (ps - 1)) in
  0 <= carve < required + ps /\ carve mod ps = 0.
Proof.
  intros Hps Hp Hr. destruct (is_pow2b_spec ps Hps) as (k & Hk & ->); [unfold is_pow2b; b2p; cmp; done |].
  pose proof (Z.pow_pos_nonneg 2 k ltac:(lia) Hk). pose proof (usize_wrap_range (required + 2 ^ k - 1)) as Hv.
  assert (usize_wrap (required + 2 ^ k - 1) <= required + 2 ^ k - 1) by (apply Z.mod_le; [lia | pose proof usize_max_pos; rewrite pow_word_bits; lia]).
  cbn zeta. rewrite land_not_mask by done. set (v := usize_wrap _) in *. pose proof (Z.mod_pos_bound v (2 ^ k) ltac:(lia)).
  pose proof (Z.mod_le v (2 ^ k) ltac:(lia) ltac:(lia)). split; [lia |]. by rewrite Zminus_mod, Zmod_mod, Z.sub_diag, Z.mod_0_l by lia.
Qed.

Lemma metadata_bytes_nonneg regions ps required : FrameAllocator.metadata_bytes regions ps = Ok required -> 0 <= required.
Proof. unfold FrameAllocator.metadata_bytes. destruct (count_usable _ _); [| done]. intros [= <-]. apply usize_wrap_range. Qed.

(** What a successful boot has done. *)
Lemma initialize_boot_ok m map ps off m' : 0 <= ps -> initialize_boot m map ps off = (m', StatusCode.ok) ->
  Forall (fun r => base r + off + size r <= usize_max) (usable_ map) /\
  exists i meta a, 0 <= i < zlen (usable_ map) /\
    size meta < size (usable_ map).[i] /\ (forall j, i < j < zlen (usable_ map) -> size (usable_ map).[j] <= size meta) /\
    meta = MemoryRegion.mk (base (usable_ map).[i] + off + size (usable_ map).[i] - size meta) (size meta) RegionType.reserved /\
    FrameAllocator.initialize (frames_ m) ((shifted off <$> usable_ map) ++ [meta]) ps (base meta) (size meta) = (a, StatusCode.ok) /\
    size meta mod ps = 0 /\
    (exists required, FrameAllocator.metadata_bytes (shifted off <$> usable_ map) ps = Ok required /\ size meta < required + ps) /\
    0 <= size meta /\ m' = MemoryManager.mk (mode_ m) a meta (objects_ m).
Proof.
  intros Hps. unfold initialize_boot. destruct (negb _); [done |]. destruct (_ || _) eqn:Hp; [done |].
  destruct (direct_regions _ off) as [regions | e] eqn:Ed; [| intros [= _ ->]; by apply direct_regions_err in Ed].
  apply direct_regions_spec in Ed as [-> Hall]. destruct (FrameAllocator.metadata_bytes _ _) as [required | e] eqn:Eb; [| intros [= _ ->]; by apply metadata_bytes_err in Eb].
  pose proof (carve_spec ps required Hps Hp (metadata_bytes_nonneg _ _ _ Eb)) as Hcv. cbv zeta in Hcv. destruct Hcv as [Hcv Hcm].
  set (carve := Z.land (usize_wrap _) _) in *. set (regions := shifted off <$> usable_ map). pose proof (carve_range_spec (length regions) regions carve ltac:(lia)) as Hc.
  destruct (carve_range _ _ _) as [meta |]; [| done]. destruct Hc as (i & Hi & Hs & -> & Hj). fold (zlen regions) in Hi, Hj.
  assert (zlen regions = zlen (usable_ map)) as Hz by apply zlen_fmap. rewrite Hz in Hi, Hj.
  assert (forall j, 0 <= j < zlen (usable_ map) -> regions.[j] = shifted off (usable_ map).[j]) as Hr by (intros j Hr; by apply aget_fmap).
  destruct (FrameAllocator.initialize _ _ _ _ _) as [a st] eqn:Ei. destruct (status_ok st) eqn:Es; cbn [negb]; [| intros [= _ ->]; done].
  assert (st = StatusCode.ok) as -> by (by destruct st). intros [= <-]. split; [done |]. rewrite Hr in * by done.
  exists i, (MemoryRegion.mk (base (shifted off (usable_ map).[i]) + size (shifted off (usable_ map).[i]) - carve) carve RegionType.reserved), a.
  split_and!; try done; cbn [size]; try lia.
  - intros j Hjr. specialize (Hj j Hjr). rewrite Hr in Hj by lia. done.
  - exists required. split; [done | lia].
Qed.


(** The state a successful boot leaves. *)
Definition booted m map ps off m' : Prop :=
  let a := frames_ m' in
  let meta := metadata_region_ m' in
  mode_ m' = mode_ m /\ objects_ m' = objects_ m /\ Frames.wf a /\ FrameAllocator.page_size_ a = ps /\ FrameAllocator.used_count_ a = 0 /\
  (exists i, 0 <= i < zlen (usable_ map) /\ size meta < size (usable_ map).[i] /\
     base meta + size meta = base (usable_ map).[i] + off + size (usable_ map).[i] /\
     forall j, i < j < zlen (usable_ map) -> size (usable_ map).[j] <= size meta) /\
  size meta mod ps = 0 /\ (off mod ps = 0 -> base meta mod ps = 0) /\
  (exists required, FrameAllocator.metadata_bytes (shifted off <$> usable_ map) ps = Ok required /\ size meta < required + ps) /\
  base meta <= FrameAllocator.bitmap_data a /\
  FrameAllocator.ranges_data a + sizeof_FrameRange * zlen (FrameAllocator.ranges_ a) <= base meta + size meta /\
  forall p, p mod ps = 0 ->
    (exists i, 0 <= i < FrameAllocator.total_frames a /\ FrameAllocator.address_for a i = p) <->
    (forall b, p <= b < p + ps ->
       (exists r, r ∈ usable_ map /\ base r + off <= b < base r + off + size r) /\ ~ (base meta <= b < base meta + size meta)).

Lemma boot_ok m map ps off m' :
  Forall (piece ps) (usable_ map) -> zlen (usable_ map) <= max_discovered_regions -> 0 <= ps -> 0 <= off ->
  0 <= FrameAllocator.next_generation_ (frames_ m) <= u64_max -> initialize_boot m map ps off = (m', StatusCode.ok) ->
  booted m map ps off m' /\ 0 < size (metadata_region_ m') /\ 0 < FrameAllocator.total_frames (frames_ m') /\
  forall i, 0 <= i < FrameAllocator.total_frames (frames_ m') -> desc (frames_ m') i = PageDescriptor.zero.
Proof.
  intros Hpc Hlen Hps Hoff Hng E. apply initialize_boot_ok in E as (Hall & i & meta & a & Hi & Hs & Hj & Em & Ei & Hmod & Hreq & Hms & ->); [| done]. cbn. set (u := usable_ map) in *.
  rewrite Forall_forall in Hall, Hpc. assert (u.[i] ∈ u) as Hu by (apply list_elem_of_lookup; exists (Z.to_nat i); by apply lookup_aget).
  pose proof (Hall _ Hu) as Htop. pose proof (Hpc _ Hu) as (Hb & _). assert (base meta = base u.[i] + off + size u.[i] - size meta) as Eb by (by rewrite Em).
  assert (Forall region_ok ((shifted off <$> u) ++ [meta])) as Hok.
  { apply Forall_app. split; [| constructor; [unfold region_ok; lia | done]]. apply Forall_fmap, Forall_forall. intros r Hr.
    pose proof (Hall r Hr). pose proof (Hpc r Hr) as (? & ? & _). unfold region_ok. cbn. lia. }
  pose proof (fun p => managed_pages (frames_ m) _ ps (base meta) (size meta) a p Hok Hps Hng Ei) as Hpages.
  destruct (initialize_ok (frames_ m) _ ps (base meta) (size meta) a Hok Hps Hng Ei) as (Hwf & _ & Hpg & Hused & _).
  destruct (initialize_fresh (frames_ m) _ ps (base meta) (size meta) a Hok Hps Ei) as [Hpos Hz].
  destruct (initialize_metadata_in_storage (frames_ m) _ ps (base meta) (size meta) a Hok Hps) as (? & _ & E1 & E2 & ?); try done; try lia.
  { rewrite zlen_app, zlen_fmap. change (zlen [meta]) with 1. unfold max_discovered_regions in Hlen. lia. }
  rewrite (Frames.wf_descriptors a Hwf) in E2. unfold sizeof_PageDescriptor in E2. pose proof (zlen_nonneg (FrameAllocator.bitmap_ a)). pose proof (zlen_nonneg (FrameAllocator.ranges_ a)).
  unfold booted. cbn. fold u. split_and!; try done; [exists i; split_and!; try done; lia | | | pose proof sizeof_FrameRange_bound; nia].
  { intros Ho. destruct (Hpc _ Hu) as (_ & _ & _ & _ & He). rewrite Eb.
    replace (base u.[i] + off + size u.[i] - size meta) with (base u.[i] + size u.[i] + (off - size meta)) by lia.
    rewrite Zplus_mod, He, (Zminus_mod off), Ho, Hmod. by rewrite Z.sub_diag, !Zmod_0_l. }
  intros p Hp. cbn. rewrite Hpages by done. rewrite Em. by setoid_rewrite byte_free_carved.
Qed.


Lemma object_reserve_bounds total : 0 < total -> 0 <= object_reserve total < total /\ object_reserve total <= 256 /\ (16 < total -> 16 <= object_reserve total \/ object_reserve total = 0).
Proof.
  intros Ht. unfold object_reserve. assert (0 <= total / 128) by (apply Z.div_pos; lia).
  repeat case_match; b2p; lia.
Qed.

(** After a boot whose RAM is not at address 0 of the direct map,
    initialize_objects() succeeds exactly with 4096-byte pages.  The slab
    allocator then represents the empty heap over the booted frames, may take
    a quarter of them, and keeps a reserve smaller than the total for atomic
    callers. *)
Theorem boot_objects_spec m map ps off m1 :
  Forall (piece ps) (usable_ map) -> Forall (fun r => 0 < base r + off) (usable_ map) ->
  zlen (usable_ map) <= max_discovered_regions -> 0 <= ps -> 0 <= off ->
  0 <= FrameAllocator.next_generation_ (frames_ m) <= u64_max -> objects_ m = SlabAllocator.new ->
  initialize_boot m map ps off = (m1, StatusCode.ok) ->
  let total := FrameAllocator.total_frames (frames_ m1) in
  let '(m2, st) := initialize_objects m1 in
  frames_ m2 = frames_ m1 /\ metadata_region_ m2 = metadata_region_ m1 /\ (st = StatusCode.ok <-> ps = 4096) /\
  (st = StatusCode.ok ->
     ChargeAccount.limit_ (SlabAllocator.pages_ (objects_ m2)) = Z.max 1 (total / 4) /\
     0 <= SlabAllocator.reserve_ (objects_ m2) < total /\ SlabAllocator.reserve_ (objects_ m2) <= 256 /\
     forall headers ram owner, ChargeAccount.wf owner ->
       represents (ChargeAccount.used owner) [] (objects_ m2, World.mk (frames_ m2) headers ram, owner)).
Proof.
  intros Hpc Hnz Hlen Hps Hoff Hng Hnew Hboot total. destruct (boot_ok m map ps off m1 Hpc Hlen Hps Hoff Hng Hboot) as (Hb & Hmeta & Htot & Hz).
  fold total in Htot, Hz. destruct Hb as (_ & Hobj & Hwf & Hpg & _ & _ & _ & _ & _ & _ & _ & Hpages). destruct (object_reserve_bounds total Htot) as (Hr1 & Hr2 & _).
  set (limit := if total / 4 =? 0 then 1 else total / 4). assert (limit = Z.max 1 (total / 4)) as El.
  { assert (0 <= total / 4) by (apply Z.div_pos; lia). unfold limit. destruct (Z.eqb_spec (total / 4) 0); lia. }
  unfold initialize_objects. replace (size (metadata_region_ m1) =? 0) with false by lia. fold total limit. rewrite Hobj, Hnew.
  assert (forall headers ram, unclaimed (World.mk (frames_ m1) headers ram)) as Hun.
  { intros headers ram. split; [done |]. cbn [World.frames]. intros i Hi. split; [| by rewrite Hz].
    destruct (address_for_range _ Hwf i Hi) as (? & ? & Hal). rewrite Hpg in *. pose proof (page_pos _ Hwf). rewrite Hpg in *.
    destruct (Hpages _ Hal) as [Hfree _]. set (p := FrameAllocator.address_for (frames_ m1) i) in *.
    destruct (Hfree ltac:(by exists i) p) as [(r & Hr & ?) _]; [lia |].
    rewrite Forall_forall in Hnz. specialize (Hnz r Hr). cbn in Hnz. lia. }
  assert (0 <= limit <= usize_max) as Hlim.
  { pose proof (frame_count_max _ Hwf). rewrite El. unfold total, FrameAllocator.total_frames. assert (FrameAllocator.frame_count_ (frames_ m1) / 4 <= FrameAllocator.frame_count_ (frames_ m1)) by (apply Z.div_le_upper_bound; lia).
    pose proof usize_max_pos. lia. }
  pose proof (fun headers ram => initialize_contract (World.mk (frames_ m1) headers ram) limit (object_reserve total) (Hun headers ram) Hlim) as Hc. cbn [World.frames] in Hc.
  assert (ChargeAccount.set_limit (ChargeAccount.new 0) limit = (ChargeAccount.mk limit 0 0, StatusCode.ok)) as Esl.
  { unfold ChargeAccount.set_limit. cbn. replace (limit <? 0) with false by lia. by rewrite andb_false_r. }
  unfold SlabAllocator.initialize, FrameAllocator.initialized, FrameAllocator.page_size in Hc |- *. cbn [SlabAllocator.frames_ SlabAllocator.pages_ SlabAllocator.new] in Hc |- *.
  rewrite Hpg, Esl in Hc |- *. unfold slab_page_size in Hc |- *. fold total in Hc |- *. change (FrameAllocator.frame_count_ (frames_ m1)) with total in Hc |- *.
  replace (total =? 0) with false in Hc |- * by lia. replace (total <=? object_reserve total) with false in Hc |- * by lia. cbn [negb orb status_ok] in Hc |- *.
  destruct (Z.eqb_spec ps 4096) as [Ep | Ep]; cbn [negb] in Hc |- *; [| by split_and!]. cbn. split_and!; try done. intros _. split_and!; try done; try lia.
  intros headers ram owner Hown. destruct (Hc headers ram) as [Hok _]. destruct (Hok eq_refl) as (Hw & _ & _ & _ & Hno).
  split_and!; try done; [constructor | | change (zsum snd []) with 0; lia]. intros o b. split; [by intros ?%not_elem_of_nil | intros Ho; by apply Hno in Ho].
Qed.
End Boot.

(** ** Witnesses *)
Section Witnesses.
#[local] Existing Instance arch64.
Import PhysicalMemoryMap.

(** 64 KiB of RAM at 64 KiB, a third of it reserved. *)
Definition boot_map : PhysicalMemoryMap.t :=
  fst (normalize (fst (reserve (fst (add PhysicalMemoryMap.new (MemoryRegion.mk 65536 65536 RegionType.usable) MapSource.e820))
    81920 20480 RegionType.kernel_image)) 4096).
Definition booted_manager : MemoryManager.t := fst (initialize_boot (MemoryManager.new 1) boot_map 4096 0).

Lemma boot_map_pieces : Forall (piece 4096) (usable_ boot_map) /\ Forall (fun r => 0 < base r + 0) (usable_ boot_map).
Proof. split; concrete. Qed.

Lemma booted_manager_ok : initialize_boot (MemoryManager.new 1) boot_map 4096 0 = (booted_manager, StatusCode.ok).
Proof. vm_compute. reflexivity. Qed.


Lemma boot_objects_witness :
  exists m2, initialize_objects booted_manager = (m2, StatusCode.ok) /\
    represents 0 [] (objects_ m2, World.mk (frames_ m2) (fun _ => SlabHeader.mk 0 0 0 0 0 []) (fun _ => 0), ChargeAccount.new 0).
Proof.
  pose proof (boot_objects_spec (MemoryManager.new 1) boot_map 4096 0 booted_manager (proj1 boot_map_pieces) (proj2 boot_map_pieces)
    ltac:(concrete) ltac:(lia) ltac:(lia) ltac:(concrete) eq_refl booted_manager_ok) as Hb. cbv zeta in Hb.
  destruct (initialize_objects booted_manager) as [m2 st]. destruct Hb as (_ & _ & Hst & Hok). exists m2.
  pose proof (proj2 Hst eq_refl) as E. split; [by rewrite E |].
  destruct (Hok E) as (_ & _ & _ & Hrep). exact (Hrep _ _ (ChargeAccount.new 0) sample_owner_wf).
Defined.
End Witnesses.
