(* ===== verification/PageCache.v ===== *)
(** * The file page cache (include/ok/fs/page_cache.hpp, src/fs/page_cache.cpp)

    Page-sized contents of one file: a sorted array of entries in a kernel
    object, one frame per entry, and the page state in the frame's descriptor.
    The allocators the cache is bound to are part of the state; the array at
    [entries_] is kept as a list of [capacity_] entries, as the slab headers
    are. *)

From S2P Require Import Prelude Charges Regions Sweep Frames FrameSearch FrameSpec FrameAlloc Slab.

Module Entry.
Record t := mk { index : Z; frame : PhysicalFrame.t }.
Definition zero : t := mk 0 (PhysicalFrame.mk 0 0 0 0).
#[global] Instance inhabited : Inhabited t := populate zero.
End Entry.

(** What [memory_] and [pages_] point to. *)
Module Machine.
Record t := mk { slab : SlabAllocator.t; world : World.t; pages : ChargeAccount.t }.
Definition frames (m : t) : FrameAllocator.t := World.frames (world m).
Definition with_frames (m : t) (a : FrameAllocator.t) : t := mk (slab m) (World.with_frames (world m) a) (pages m).
End Machine.

Module FilePageCache.
Section Defs.
Context `{Arch}.
(** sizeof(Entry). *)
Context (sizeof_Entry : Z).

Record t := mk {
  bound_ : bool;                  (* memory_ != nullptr *)
  objects_ : ChargeAccount.t;
  entries_ : Z;                   (* the pointer *)
  index_ : list Entry.t;          (* the array there *)
  count_ : Z;
  capacity_ : Z
}.
Definition new : t := mk false (ChargeAccount.new 0) 0 [] 0 0.
Definition bound (c : t) : bool := bound_ c.

Definition uptodate_flag : Z := 1.
Definition dirty_flag : Z := 2.

Definition bind (c : t) (m : Machine.t) : t * Status :=
  if bound_ c then (c, StatusCode.already_exists)
  else if negb (SlabAllocator.initialized (Machine.slab m)) || negb (FrameAllocator.page_size (Machine.frames m) =? 4096)
  then (c, StatusCode.not_initialized)
  else (mk true (objects_ c) (entries_ c) (index_ c) (count_ c) (capacity_ c), StatusCode.ok).

(** The binary search. *)
Fixpoint search (fuel : nat) (entries : list Entry.t) (index low high : Z) : Z :=
  match fuel with
  | O => low
  | S n =>
      if low <? high then
        let middle := low + (high - low) / 2 in
        if Entry.index entries.[middle] <? index then search n entries index (middle + 1) high
        else search n entries index low middle
      else low
  end.
Definition position (c : t) (index : Z) : Z := search (Z.to_nat (count_ c)) (index_ c) index 0 (count_ c).

(** [at == count_ || entries_[at].index != index] *)
Definition missing (c : t) (at_ index : Z) : bool := (at_ =? count_ c) || negb (Entry.index (index_ c).[at_] =? index).

Definition frame_at (c : t) (at_ : Z) : PhysicalFrame.t := Entry.frame (index_ c).[at_].

(** The descriptor a page's state lives in, and its frame. *)
Definition state (c : t) (m : Machine.t) (index : Z) : option (PhysicalFrame.t * PageDescriptor.t) :=
  let at_ := position c index in
  if missing c at_ index then None
  else
    match FrameAllocator.descriptor (Machine.frames m) (frame_at c at_) with
    | Some d => if PageDescriptor.kind d =? PageKind.page_cache then Some (frame_at c at_, d) else None
    | None => None
    end.

Definition lookup (c : t) (index : Z) : result PhysicalFrame.t :=
  if negb (bound_ c) then Err StatusCode.not_initialized
  else
    let at_ := position c index in
    if missing c at_ index then Err StatusCode.not_found else Ok (frame_at c at_).

Definition grow (c : t) (m : Machine.t) (context : AllocationContext.t) : option (t * Machine.t * Status) :=
  let capacity := if capacity_ c =? 0 then 8 else usize_wrap (capacity_ c * 2) in
  if usize_max / sizeof_Entry <? capacity then Some (c, m, StatusCode.overflow)
  else
    storage ← SlabAllocator.allocate (Machine.slab m) (Machine.world m) (capacity * sizeof_Entry) (objects_ c) context;
    let '(s, w, owner, storage) := storage in
    let c := mk (bound_ c) owner (entries_ c) (index_ c) (count_ c) (capacity_ c) in
    let m := Machine.mk s w (Machine.pages m) in
    match storage with
    | Err e => Some (c, m, e)
    | Ok entries =>
        let array := take (Z.to_nat (count_ c)) (index_ c) ++ replicate (Z.to_nat (capacity - count_ c)) Entry.zero in
        if entries_ c =? 0 then Some (mk (bound_ c) owner entries array (count_ c) capacity, m, StatusCode.ok)
        else
          released ← SlabAllocator.release s w (entries_ c) (usize_wrap (capacity_ c * sizeof_Entry)) owner;
          let '(s, w, owner, status) := released in
          let m := Machine.mk s w (Machine.pages m) in
          if negb (status_ok status) then
            undone ← SlabAllocator.release s w entries (capacity * sizeof_Entry) owner;
            let '(s, w, owner, _) := undone in
            Some (mk (bound_ c) owner (entries_ c) (index_ c) (count_ c) (capacity_ c), Machine.mk s w (Machine.pages m), status)
          else Some (mk (bound_ c) owner entries array (count_ c) capacity, m, StatusCode.ok)
    end.

(** [for (i = count_; i > at; --i) entries_[i] = entries_[i - 1]] *)
Fixpoint shift_up (n : nat) (entries : list Entry.t) (i : Z) : list Entry.t :=
  match n with
  | O => entries
  | S n' => shift_up n' entries.[i := entries.[i - 1]] (i - 1)
  end.
(** [for (i = at + 1; i < count_; ++i) entries_[i - 1] = entries_[i]] *)
Fixpoint shift_down (n : nat) (entries : list Entry.t) (i : Z) : list Entry.t :=
  match n with
  | O => entries
  | S n' => shift_down n' entries.[i - 1 := entries.[i]] (i + 1)
  end.

(** The fields of a descriptor obtain() writes. *)
Definition own (d : PageDescriptor.t) (index : Z) : PageDescriptor.t :=
  PageDescriptor.mk (PageDescriptor.generation d) (u32_wrap index) (PageDescriptor.pins d) PageKind.page_cache (PageDescriptor.flags d).

(** obtain() from the frame on. *)
Definition add_page (c : t) (m : Machine.t) (index : Z) (context : AllocationContext.t) : option (t * Machine.t * result PhysicalFrame.t) :=
  let a := Machine.frames m in
  if negb (AllocationContext.is_atomic context) && (FrameAllocator.free_frames a <=? SlabAllocator.reserve_frames (Machine.slab m))
  then Some (c, m, Err StatusCode.no_memory)
  else
    let '(a, account, frame) := FrameAllocator.allocate_charged a (Machine.pages m) in
    match frame with
    | Err e => Some (c, Machine.mk (Machine.slab m) (World.with_frames (Machine.world m) a) account, Err e)
    | Ok frame =>
        d ← FrameAllocator.descriptor a frame;
        let a := FrameAllocator.write_descriptor a frame (own d index) in
        let ram := SlabAllocator.zero (World.ram (Machine.world m)) (PhysicalFrame.address frame) (FrameAllocator.page_size a) in
        let m := Machine.mk (Machine.slab m) (World.mk a (World.headers (Machine.world m)) ram) account in
        let at_ := position c index in
        let entries := shift_up (Z.to_nat (count_ c - at_)) (index_ c) (count_ c) in
        Some (mk (bound_ c) (objects_ c) (entries_ c) entries.[at_ := Entry.mk index frame] (count_ c + 1) (capacity_ c), m, Ok frame)
    end.

Definition obtain (c : t) (m : Machine.t) (index : Z) (context : AllocationContext.t) : option (t * Machine.t * result PhysicalFrame.t) :=
  match lookup c index with
  | Ok f => Some (c, m, Ok f)
  | Err e =>
      if negb (bool_decide (e = StatusCode.not_found)) then Some (c, m, Err e)
      else if count_ c =? capacity_ c then
        grown ← grow c m context;
        let '(c, m, status) := grown in
        if negb (status_ok status) then Some (c, m, Err status) else add_page c m index context
      else add_page c m index context
  end.

(** [memory_ ? state(index) : nullptr] *)
Definition page (c : t) (m : Machine.t) (index : Z) : option (PhysicalFrame.t * PageDescriptor.t) :=
  if bound_ c then state c m index else None.
Definition write (m : Machine.t) (f : PhysicalFrame.t) (d : PageDescriptor.t) : Machine.t :=
  Machine.with_frames m (FrameAllocator.write_descriptor (Machine.frames m) f d).
Definition with_flags (d : PageDescriptor.t) (flags : Z) : PageDescriptor.t :=
  PageDescriptor.mk (PageDescriptor.generation d) (PageDescriptor.references d) (PageDescriptor.pins d) (PageDescriptor.kind d) flags.
Definition with_pins (d : PageDescriptor.t) (pins : Z) : PageDescriptor.t :=
  PageDescriptor.mk (PageDescriptor.generation d) (PageDescriptor.references d) pins (PageDescriptor.kind d) (PageDescriptor.flags d).
(** [flags & flag]. *)
Definition has (flag : Z) (d : PageDescriptor.t) : bool := negb (Z.land (PageDescriptor.flags d) flag =? 0).

Definition mark_uptodate (c : t) (m : Machine.t) (index : Z) : Machine.t * Status :=
  match page c m index with
  | None => (m, StatusCode.not_found)
  | Some (f, d) => (write m f (with_flags d (Z.lor (PageDescriptor.flags d) uptodate_flag)), StatusCode.ok)
  end.
Definition mark_dirty (c : t) (m : Machine.t) (index : Z) : Machine.t * Status :=
  match page c m index with
  | None => (m, StatusCode.not_found)
  | Some (f, d) =>
      if negb (has uptodate_flag d) then (m, StatusCode.invalid_argument)
      else (write m f (with_flags d (Z.lor (PageDescriptor.flags d) dirty_flag)), StatusCode.ok)
  end.
Definition mark_clean (c : t) (m : Machine.t) (index : Z) : Machine.t * Status :=
  match page c m index with
  | None => (m, StatusCode.not_found)
  | Some (f, d) => (write m f (with_flags d (Z.land (PageDescriptor.flags d) (u8_wrap (Z.lnot dirty_flag)))), StatusCode.ok)
  end.
Definition pin (c : t) (m : Machine.t) (index : Z) : Machine.t * Status :=
  match page c m index with
  | None => (m, StatusCode.not_found)
  | Some (f, d) =>
      if PageDescriptor.pins d =? 65535 then (m, StatusCode.overflow)
      else (write m f (with_pins d (PageDescriptor.pins d + 1)), StatusCode.ok)
  end.
Definition unpin (c : t) (m : Machine.t) (index : Z) : Machine.t * Status :=
  match page c m index with
  | None => (m, StatusCode.not_found)
  | Some (f, d) =>
      if PageDescriptor.pins d =? 0 then (m, StatusCode.invalid_argument)
      else (write m f (with_pins d (PageDescriptor.pins d - 1)), StatusCode.ok)
  end.

Definition descriptor_at (c : t) (m : Machine.t) (at_ : Z) : option PageDescriptor.t :=
  FrameAllocator.descriptor (Machine.frames m) (frame_at c at_).

Fixpoint dirty_from (n : nat) (c : t) (m : Machine.t) (at_ : Z) : result Z :=
  match n with
  | O => Err StatusCode.not_found
  | S n' =>
      match descriptor_at c m at_ with
      | Some d => if has dirty_flag d then Ok (Entry.index (index_ c).[at_]) else dirty_from n' c m (at_ + 1)
      | None => dirty_from n' c m (at_ + 1)
      end
  end.
Definition next_dirty (c : t) (m : Machine.t) (from : Z) : result Z :=
  if negb (bound_ c) then Err StatusCode.not_initialized
  else let at_ := position c from in dirty_from (Z.to_nat (count_ c - at_)) c m at_.

Definition remove_at (c : t) (m : Machine.t) (at_ : Z) : t * Machine.t * Status :=
  let '(a, account, status) := FrameAllocator.release_charged (Machine.frames m) (frame_at c at_) (Machine.pages m) in
  let m := Machine.mk (Machine.slab m) (World.with_frames (Machine.world m) a) account in
  if negb (status_ok status) then (c, m, status)
  else
    (mk (bound_ c) (objects_ c) (entries_ c) (shift_down (Z.to_nat (count_ c - (at_ + 1))) (index_ c) (at_ + 1)) (count_ c - 1) (capacity_ c),
     m, StatusCode.ok).

(** [!descriptor || descriptor->pins] and [|| (flags & dirty)]. *)
Definition held (d : option PageDescriptor.t) : bool :=
  match d with None => true | Some d => negb (PageDescriptor.pins d =? 0) end.
Definition kept (d : option PageDescriptor.t) : bool :=
  match d with None => true | Some d => negb (PageDescriptor.pins d =? 0) || has dirty_flag d end.

(** [for (at = count_; at-- != 0;)] *)
Fixpoint evict_loop (n : nat) (c : t) (m : Machine.t) (evicted : Z) : t * Machine.t * result Z :=
  match n with
  | O => (c, m, Ok evicted)
  | S n' =>
      let at_ := Z.of_nat n' in
      if kept (descriptor_at c m at_) then evict_loop n' c m evicted
      else
        let '(c, m, status) := remove_at c m at_ in
        if negb (status_ok status) then (c, m, Err status) else evict_loop n' c m (evicted + 1)
  end.
Definition evict_clean (c : t) (m : Machine.t) : t * Machine.t * result Z :=
  if negb (bound_ c) then (c, m, Err StatusCode.not_initialized) else evict_loop (Z.to_nat (count_ c)) c m 0.

(** [for (at; at < count_; ++at) if (test(at)) return busy] *)
Fixpoint any_from (n : nat) (test : option PageDescriptor.t -> bool) (c : t) (m : Machine.t) (at_ : Z) : bool :=
  match n with
  | O => false
  | S n' => if test (descriptor_at c m at_) then true else any_from n' test c m (at_ + 1)
  end.

(** [while (count_ != 0 && entries_[count_ - 1].index >= first)] *)
Fixpoint drop_from (fuel : nat) (first : Z) (c : t) (m : Machine.t) : t * Machine.t * Status :=
  match fuel with
  | O => (c, m, StatusCode.ok)
  | S n =>
      if negb (count_ c =? 0) && (first <=? Entry.index (index_ c).[count_ c - 1]) then
        let '(c, m, status) := remove_at c m (count_ c - 1) in
        if negb (status_ok status) then (c, m, status) else drop_from n first c m
      else (c, m, StatusCode.ok)
  end.

Definition truncate (c : t) (m : Machine.t) (first : Z) : t * Machine.t * Status :=
  if negb (bound_ c) then (c, m, StatusCode.not_initialized)
  else
    let at_ := position c first in
    if any_from (Z.to_nat (count_ c - at_)) held c m at_ then (c, m, StatusCode.busy)
    else drop_from (Z.to_nat (count_ c)) first c m.

(** [while (count_ != 0)] *)
Fixpoint drop_all (fuel : nat) (c : t) (m : Machine.t) : t * Machine.t * Status :=
  match fuel with
  | O => (c, m, StatusCode.ok)
  | S n =>
      if negb (count_ c =? 0) then
        let '(c, m, status) := remove_at c m (count_ c - 1) in
        if negb (status_ok status) then (c, m, status) else drop_all n c m
      else (c, m, StatusCode.ok)
  end.

Definition clear (c : t) (m : Machine.t) : option (t * Machine.t * Status) :=
  if negb (bound_ c) then Some (c, m, StatusCode.ok)
  else if any_from (Z.to_nat (count_ c)) kept c m 0 then Some (c, m, StatusCode.busy)
  else
    let '(c, m, status) := drop_all (Z.to_nat (count_ c)) c m in
    if negb (status_ok status) then Some (c, m, status)
    else if entries_ c =? 0 then Some (c, m, StatusCode.ok)
    else
      released ← SlabAllocator.release (Machine.slab m) (Machine.world m) (entries_ c) (usize_wrap (capacity_ c * sizeof_Entry)) (objects_ c);
      let '(s, w, owner, status) := released in
      let m := Machine.mk s w (Machine.pages m) in
      if negb (status_ok status) then Some (mk (bound_ c) owner (entries_ c) (index_ c) (count_ c) (capacity_ c), m, status)
      else Some (mk (bound_ c) owner 0 [] (count_ c) 0, m, StatusCode.ok).

(** The destructor. *)
Definition destroy (c : t) (m : Machine.t) : option (t * Machine.t) :=
  result ← clear c m; Some (fst result).

Record Accounting := mk_accounting { pages : Z; uptodate : Z; dirty : Z; pinned : Z; index_capacity : Z }.
Fixpoint accounting_from (n : nat) (c : t) (m : Machine.t) (at_ : Z) (r : Accounting) : Accounting :=
  match n with
  | O => r
  | S n' =>
      let r :=
        match descriptor_at c m at_ with
        | None => r
        | Some d =>
            mk_accounting (pages r) (uptodate r + (if has uptodate_flag d then 1 else 0)) (dirty r + (if has dirty_flag d then 1 else 0))
              (pinned r + (if PageDescriptor.pins d =? 0 then 0 else 1)) (index_capacity r)
        end in
      accounting_from n' c m (at_ + 1) r
  end.
Definition accounting (c : t) (m : Machine.t) : Accounting :=
  accounting_from (if bound_ c then Z.to_nat (count_ c) else O) c m 0 (mk_accounting (count_ c) 0 0 0 (capacity_ c)).
End Defs.
End FilePageCache.
