(* ===== verification/PageCacheInv.v ===== *)
(** * The page cache's invariant

    The sorted index, the frames it names and the kernel object it lives in;
    the binary search, insertion and removal on the index. *)

From S2P Require Import Prelude Charges Regions Sweep Frames FrameSearch FrameSpec FrameAlloc Slab SlabInv SlabSmall SlabAlloc SlabRelease SlabLarge SlabClaims PageCache.
Import FilePageCache.

(** ** Arrays *)
Section Arrays.
Implicit Types l : list Entry.t.

Definition sorted l (n : Z) : Prop := forall i j, 0 <= i < j -> j < n -> Entry.index l.[i] < Entry.index l.[j].

Lemma search_spec fuel l index low high n : sorted l n -> 0 <= low <= high -> high <= n -> high - low <= Z.of_nat fuel ->
  (forall i, 0 <= i < low -> Entry.index l.[i] < index) -> (forall i, high <= i < n -> index <= Entry.index l.[i]) ->
  let p := search fuel l index low high in
  0 <= p <= n /\ (forall i, 0 <= i < p -> Entry.index l.[i] < index) /\ (forall i, p <= i < n -> index <= Entry.index l.[i]).
Proof.
  intros Hs. revert low high. induction fuel as [| fuel IH]; intros low high Hr Hn Hf Hlo Hhi; cbn [search].
  { assert (low = high) as -> by lia. split_and!; try done; lia. }
  destruct (Z.ltb_spec low high); [| assert (low = high) as -> by lia; split_and!; try done; lia].
  assert (low <= low + (high - low) / 2 < high) as Hm.
  { assert (0 <= (high - low) / 2) by (apply Z.div_pos; lia). assert ((high - low) / 2 < high - low) by (apply Z.div_lt; lia). lia. }
  set (middle := low + (high - low) / 2) in *. destruct (Z.ltb_spec (Entry.index l.[middle]) index).
  - apply IH; try lia; [| done]. intros i Hi. destruct (Z.eq_dec i middle) as [-> |]; [done |]. pose proof (Hs i middle ltac:(lia) ltac:(lia)). lia.
  - apply IH; try lia; [done |]. intros i Hi. destruct (Z.eq_dec i middle) as [-> |]; [done |]. pose proof (Hs middle i ltac:(lia) ltac:(lia)). lia.
Qed.

Lemma shift_up_spec n l i : 0 <= i - Z.of_nat n -> i < zlen l ->
  zlen (shift_up n l i) = zlen l /\
  forall j, 0 <= j -> (shift_up n l i).[j] = if (i - Z.of_nat n <? j) && (j <=? i) then l.[j - 1] else l.[j].
Proof.
  revert l i. induction n as [| n IH]; intros l i Hi Hl; cbn [shift_up].
  { split; [done |]. intros j Hj. destruct (Z.ltb_spec (i - Z.of_nat 0) j), (Z.leb_spec j i); cbn; try done; lia. }
  destruct (IH l.[i := l.[i - 1]] (i - 1)) as [Hz Hg]; [lia | rewrite zlen_aset; lia |]. rewrite zlen_aset in Hz. split; [done |]. intros j Hj.
  rewrite Hg by done. destruct (Z.eq_dec j i) as [-> |].
  - replace (i <=? i - 1) with false by lia. rewrite andb_false_r, aget_aset_eq by lia. by cmp.
  - destruct (decide (i - Z.of_nat (S n) < j <= i)); [cmp; apply aget_aset_ne; lia |]. rewrite (aget_aset_ne _ i j) by lia.
    destruct (Z.ltb_spec (i - 1 - Z.of_nat n) j), (Z.leb_spec j (i - 1)), (Z.ltb_spec (i - Z.of_nat (S n)) j), (Z.leb_spec j i); cbn; try done; lia.
Qed.

Lemma cache_shift_down_spec n l i : 0 < i -> i + Z.of_nat n <= zlen l ->
  zlen (shift_down n l i) = zlen l /\
  forall j, 0 <= j -> (shift_down n l i).[j] = if (i <=? j + 1) && (j + 1 <? i + Z.of_nat n) then l.[j + 1] else l.[j].
Proof.
  revert l i. induction n as [| n IH]; intros l i Hi Hl; cbn [shift_down].
  { split; [done |]. intros j Hj. destruct (Z.leb_spec i (j + 1)), (Z.ltb_spec (j + 1) (i + Z.of_nat 0)); cbn; try done; lia. }
  destruct (IH l.[i - 1 := l.[i]] (i + 1)) as [Hz Hg]; [lia | rewrite zlen_aset; lia |]. rewrite zlen_aset in Hz. split; [done |]. intros j Hj.
  rewrite Hg by done. destruct (Z.eq_dec j (i - 1)) as [-> |].
  - cmp. rewrite aget_aset_eq by lia. f_equal. lia.
  - destruct (decide (i + 1 <= j + 1 < i + 1 + Z.of_nat n)); [cmp; apply aget_aset_ne; lia |]. rewrite (aget_aset_ne _ (i - 1) j) by lia.
    destruct (Z.leb_spec (i + 1) (j + 1)), (Z.ltb_spec (j + 1) (i + 1 + Z.of_nat n)), (Z.leb_spec i (j + 1)), (Z.ltb_spec (j + 1) (i + Z.of_nat (S n))); cbn; try done; lia.
Qed.
End Arrays.

Section Invariant.
Context `{Arch} (sizeof_Entry : Z).
Import FrameAllocator.
#[local] Arguments address_for : simpl never.
#[local] Arguments desc : simpl never.
#[local] Arguments object : simpl never.
Implicit Types (c : FilePageCache.t) (m : Machine.t).
Abbreviation frames m := (Machine.frames m).
Abbreviation D m j := (desc (Machine.frames m) j).
Abbreviation number f := (PhysicalFrame.index f).

(** The bytes the index is charged for. *)
Definition array_charge c : Z := SlabAllocator.charge_for (capacity_ c * sizeof_Entry).

Record ok c m : Prop := {
  ok_wf : SlabInv.wf (Machine.slab m) (Machine.world m);
  ok_slab : bound_ c = true -> SlabAllocator.frames_ (Machine.slab m) = true;
  ok_pages : ChargeAccount.wf (Machine.pages m);
  ok_paid : count_ c <= ChargeAccount.used (Machine.pages m);
  ok_objects : ChargeAccount.wf (objects_ c);
  ok_count : 0 <= count_ c <= capacity_ c;
  ok_length : zlen (index_ c) = capacity_ c;
  ok_bytes : capacity_ c * sizeof_Entry <= usize_max;
  ok_sorted : sorted (index_ c) (count_ c);
  ok_frames : forall i, 0 <= i < count_ c ->
    let f := frame_at c i in
    f = handle (frames m) (number f) /\ 0 <= number f < frame_count_ (frames m) /\ generation_at (frames m) (number f) <> 0 /\
    PageDescriptor.kind (D m (number f)) = PageKind.page_cache;
  ok_distinct : forall i j, 0 <= i < count_ c -> 0 <= j < count_ c -> number (frame_at c i) = number (frame_at c j) -> i = j;
  ok_dirty : forall i, 0 <= i < count_ c -> let d := D m (number (frame_at c i)) in has dirty_flag d = true -> has uptodate_flag d = true;
  ok_array : (capacity_ c = 0 /\ entries_ c = 0) \/
    (0 < capacity_ c /\ 0 < entries_ c <= usize_max /\ object (Machine.world m) (entries_ c) (array_charge c) /\ array_charge c <= ChargeAccount.used (objects_ c))
}.

(** The page at [index] with its frame and its descriptor. *)
Definition cached c m (index : Z) (f : PhysicalFrame.t) (d : PageDescriptor.t) : Prop :=
  exists i, 0 <= i < count_ c /\ (index_ c).[i] = Entry.mk index f /\ d = D m (number f).

Lemma position_spec c m index : ok c m ->
  let p := position c index in
  0 <= p <= count_ c /\ (forall i, 0 <= i < p -> Entry.index (index_ c).[i] < index) /\
  (forall i, p <= i < count_ c -> index <= Entry.index (index_ c).[i]).
Proof. intros Hok. destruct (ok_count c m Hok). apply search_spec; [apply (ok_sorted c m Hok) | lia..]. Qed.

(** The search finds the page when there is one. *)
Lemma missing_spec c m index : ok c m ->
  let p := position c index in
  if missing c p index then forall f d, ~ cached c m index f d
  else 0 <= p < count_ c /\ (index_ c).[p] = Entry.mk index (frame_at c p).
Proof.
  intros Hok p. destruct (position_spec c m index Hok) as (Hp & Hlo & Hhi). fold p in Hp, Hlo, Hhi.
  unfold missing. destruct (_ || _) eqn:E.
  - intros f d (i & Hi & Ei & _). assert (i = p) as ->.
    { destruct (Z.lt_trichotomy i p) as [Hlt | [? | Hgt]]; [| done |].
      - specialize (Hlo i ltac:(lia)). rewrite Ei in Hlo. cbn in Hlo. lia.
      - specialize (Hhi p ltac:(lia)). pose proof (ok_sorted c m Hok p i ltac:(lia) ltac:(lia)) as Hs. rewrite Ei in Hs. cbn in Hs. lia. }
    rewrite Ei in E. cbn in E. b2p. lia.
  - b2p. split; [lia |]. unfold frame_at. by destruct (index_ c).[p]; cbn in *; subst.
Qed.

Lemma entry_cached c m i : 0 <= i < count_ c -> cached c m (Entry.index (index_ c).[i]) (frame_at c i) (D m (number (frame_at c i))).
Proof. intros Hi. exists i. split_and!; try done; try lia. unfold frame_at. by destruct (index_ c).[i]. Qed.

Lemma cached_unique c m index f d f' d' : ok c m -> cached c m index f d -> cached c m index f' d' -> f' = f /\ d' = d.
Proof.
  intros Hok (i & Hi & Ei & ->) (j & Hj & Ej & ->). assert (i = j) as <-; [| rewrite Ei in Ej; injection Ej as ->; by split].
  destruct (Z.lt_trichotomy i j) as [? | [? | ?]]; [| done |];
    [pose proof (ok_sorted c m Hok i j ltac:(lia) ltac:(lia)) as Hs | pose proof (ok_sorted c m Hok j i ltac:(lia) ltac:(lia)) as Hs];
    rewrite Ei, Ej in Hs; cbn in Hs; lia.
Qed.

(** A cached frame is exact, so its descriptor is found. *)
Lemma descriptor_at_spec c m i : ok c m -> 0 <= i < count_ c -> descriptor_at c m i = Some (D m (number (frame_at c i))).
Proof.
  intros Hok Hi. destruct (ok_frames c m Hok i Hi) as (Ef & Hin & Hg & _). unfold descriptor_at. rewrite Ef at 1.
  by destruct (handle_descriptor (frames m) (number (frame_at c i)) (wf_frames _ _ (ok_wf c m Hok)) Hin Hg) as (_ & _ & ->).
Qed.

Lemma state_spec c m index : ok c m ->
  match state c m index with
  | Some (f, d) => cached c m index f d
  | None => forall f d, ~ cached c m index f d
  end.
Proof.
  intros Hok. pose proof (missing_spec c m index Hok) as Hm. cbv zeta in Hm. unfold state. destruct (missing _ _ _); [done |]. destruct Hm as [Hp Ee].
  pose proof (descriptor_at_spec c m _ Hok Hp) as Hd. unfold descriptor_at in Hd. rewrite Hd.
  destruct (ok_frames c m Hok _ Hp) as (_ & _ & _ & Hk). rewrite Hk. cbn [Z.eqb PageKind.page_cache Pos.eqb].
  exists (position c index). done.
Qed.

(** ** One frame changes *)

(** Changing a frame the slab allocator does not own keeps its invariant. *)
Lemma foreign_update s w w' i d1 : SlabInv.wf s w -> 0 <= i < frame_count_ (World.frames w) -> is_owned (desc (World.frames w) i) = false ->
  Frames.wf (World.frames w') -> same_geometry (World.frames w') (World.frames w) ->
  descriptors_ (World.frames w') = (descriptors_ (World.frames w)).[i := d1] -> is_owned d1 = false -> World.headers w' = World.headers w ->
  SlabInv.wf s w' /\ objects_same w w'.
Proof.
  intros Hwf Hi Ho Ha Hgeo Hd Ho1 Hh. assert (0 <= 0 < 7) as H0 by lia. destruct (wf_lists s w Hwf 0 H0) as [l Hl]. pose proof Hl as (Hdl & Hnd & Hin).
  destruct (unowned_nothing 0 _ Ho) as [Hs0 _]. destruct (unowned_nothing 0 _ Ho1) as [Hs1 _].
  assert (address_for (World.frames w) i ∉ l) as Hx.
  { intros (j & Hj & Hs & E & _)%Hin. apply (address_for_inj _ (wf_frames s w Hwf)) in E; [| done | done]. subst j. congruence. }
  assert (forall y, y <> address_for (World.frames w) i -> core (World.headers w' y) = core (World.headers w y)) as Hcore by (intros; by rewrite Hh).
  split.
  - eapply (page_update_wf s s w w' 0 i d1 l l); auto; try done; try (by rewrite Hh); try (intros E; congruence); unfold slab_unit, slab_refs, owned_unit; rewrite ?Hs0, ?Hs1, ?Ho, ?Ho1; cbn; try lia.
    + intros y. split; [intros Hy; left; split; [congruence | done] | intros [[_ ?] | (_ & ? & _)]; [done | congruence]].
    + apply (wf_classes s w Hwf).
    + apply (wf_allocations s w Hwf).
    + apply (wf_account s w Hwf).
  - intros y b. unfold object. assert (forall k, small w' k y <-> small w k y) as Hsm.
    { intros k. rewrite (unowned_elsewhere s w i k y Hwf Hi Ho), (page_update_small s w w' 0 i d1); auto; try done.
      split; [intros [? | (_ & ? & _)]; [done | congruence] | by left]. }
    assert (forall k, large w' k y <-> large w k y) as Hlg by (intros k; eapply (page_update_large s w w' 0 i d1); auto; done).
    split; intros [(k & ? & ? & Hk) | (k & ? & Hk)]; [left; exists k; by apply Hsm in Hk | right; exists k; by apply Hlg in Hk
      | left; exists k; by apply Hsm in Hk | right; exists k; by apply Hlg in Hk].
Qed.

Lemma same_handle a a' j : same_geometry a' a -> generation_at a' j = generation_at a j -> handle a' j = handle a j.
Proof.
  intros Hgeo Hg. pose proof Hgeo as (Ht & _). unfold handle. rewrite (same_geometry_address _ _ j Hgeo), Ht. f_equal. exact Hg.
Qed.

(** The cache depends on the machine only through its frames and its array. *)
Lemma ok_machine c m m' : ok c m -> SlabInv.wf (Machine.slab m') (Machine.world m') ->
  SlabAllocator.frames_ (Machine.slab m') = SlabAllocator.frames_ (Machine.slab m) ->
  ChargeAccount.wf (Machine.pages m') -> count_ c <= ChargeAccount.used (Machine.pages m') -> same_geometry (frames m') (frames m) ->
  (forall i, 0 <= i < count_ c ->
     let d := D m (number (frame_at c i)) in
     let d' := D m' (number (frame_at c i)) in
     PageDescriptor.generation d' = PageDescriptor.generation d /\ PageDescriptor.kind d' = PageDescriptor.kind d /\
     (has dirty_flag d' = true -> has uptodate_flag d' = true)) ->
  (0 < capacity_ c -> object (Machine.world m') (entries_ c) (array_charge c)) -> ok c m'.
Proof.
  intros [Hwf Hsl Hpw Hpd Hobj Hcnt Hlen Hby Hsort Hfr Hdist Hdirty Harr] Hwf' Hsl' Hpw' Hpd' Hgeo Hd Ho. pose proof Hgeo as (_ & _ & Hfc & _).
  split; try done; [by rewrite Hsl' | | |].
  - intros i Hi. destruct (Hfr i Hi) as (Ef & Hin & Hg & Hk), (Hd i Hi) as (Eg & Ek & _). cbn zeta in *.
    rewrite (same_handle _ _ _ Hgeo Eg), Ek, Hfc. split_and!; try done; try lia. unfold generation_at in *. by fold (D m' (number (frame_at c i))); rewrite Eg.
  - intros i Hi. by apply Hd.
  - destruct Harr as [? | (? & ? & ? & ?)]; [by left | right; by auto].
Qed.

Lemma cached_foreign c m i : ok c m -> 0 <= i < count_ c -> foreign (Machine.world m) (number (frame_at c i)).
Proof.
  intros Hok Hi. destruct (ok_frames c m Hok i Hi) as (_ & Hin & Hg & Hk). split; [done |]. split; [done |].
  unfold is_owned, is_large. fold (frames m). by rewrite Hk.
Qed.

(** The slab allocator leaves the cached pages alone. *)
Lemma ok_others c m m' : ok c m -> SlabInv.wf (Machine.slab m') (Machine.world m') -> same_setup (Machine.slab m) (Machine.slab m') ->
  others_kept (Machine.world m) (Machine.world m') -> Machine.pages m' = Machine.pages m ->
  (0 < capacity_ c -> object (Machine.world m') (entries_ c) (array_charge c)) ->
  ok c m' /\ forall i, 0 <= i < count_ c -> D m' (number (frame_at c i)) = D m (number (frame_at c i)).
Proof.
  intros Hok Hwf [Hset _] [Hgeo Hk] Hp Ho.
  assert (forall i, 0 <= i < count_ c -> D m' (number (frame_at c i)) = D m (number (frame_at c i))) as Hd
    by (intros i Hi; apply Hk; by apply cached_foreign).
  split; [| done]. eapply ok_machine; try done; rewrite ?Hp; try apply Hok. intros i Hi. cbn zeta. rewrite Hd by done. split_and!; try done. by apply (ok_dirty c m Hok).
Qed.

(** ** Writing a page's state *)
Lemma write_ok c m i d' : ok c m -> 0 <= i < count_ c ->
  let f := frame_at c i in
  PageDescriptor.generation d' = generation_at (frames m) (number f) -> PageDescriptor.kind d' = PageKind.page_cache ->
  (has dirty_flag d' = true -> has uptodate_flag d' = true) ->
  let m' := write m f d' in
  ok c m' /\ (forall j, 0 <= j -> D m' j = if j =? number f then d' else D m j) /\
  objects_same (Machine.world m) (Machine.world m').
Proof.
  intros Hok Hi f Hg Hk Hdirty m'. destruct (ok_frames c m Hok i Hi) as (Ef & Hin & Hgen & Hkind). fold f in Ef, Hin, Hgen, Hkind.
  pose proof (wf_frames _ _ (ok_wf c m Hok)) as Hf. fold (frames m) in Hf.
  destruct (write_handle_wf (frames m) (number f) d' Hf Hin Hg) as (Hwf1 & Hgeo & _ & Hd1 & _). rewrite <- Ef in Hwf1, Hgeo, Hd1.
  assert (is_owned (D m (number f)) = false) as Ho by (unfold is_owned, is_large; by rewrite Hkind).
  destruct (foreign_update (Machine.slab m) (Machine.world m) (Machine.world m') (number f) d' (ok_wf c m Hok) Hin Ho Hwf1 Hgeo) as [Hwf' Hobj]; try done.
  { unfold is_owned, is_large. by rewrite Hk. }
  split_and!; try done. eapply ok_machine; try done; try apply Hok.
  - intros k Hk'. destruct (ok_frames c m Hok k Hk') as (_ & Hink & _ & Hkk). cbn zeta. unfold m'. rewrite Hd1 by lia.
    destruct (Z.eqb_spec (number (frame_at c k)) (number f)) as [-> |]; [split_and!; try done; congruence |]. split_and!; try done. by apply (ok_dirty c m Hok).
  - intros Hc. apply Hobj. destruct (ok_array c m Hok) as [[? _] | (_ & _ & ? & _)]; [lia | done].
Qed.

(** What the cache holds after one page's state was written. *)
Lemma write_cached c m i d' index g d : ok c m -> 0 <= i < count_ c ->
  (forall j, 0 <= j -> D (write m (frame_at c i) d') j = if j =? number (frame_at c i) then d' else D m j) ->
  cached c (write m (frame_at c i) d') index g d <->
  if index =? Entry.index (index_ c).[i] then g = frame_at c i /\ d = d' else cached c m index g d.
Proof.
  intros Hok Hi Hd. destruct (ok_frames c m Hok i Hi) as (_ & Hin & _). destruct (Z.eqb_spec index (Entry.index (index_ c).[i])) as [-> | Hne].
  - split.
    + intros (k & Hk & Ek & ->). assert (k = i) as ->.
      { destruct (Z.lt_trichotomy k i) as [? | [? | ?]]; [| done |];
          [pose proof (ok_sorted c m Hok k i ltac:(lia) ltac:(lia)) as Hs | pose proof (ok_sorted c m Hok i k ltac:(lia) ltac:(lia)) as Hs];
          rewrite Ek in Hs; cbn in Hs; lia. }
      unfold frame_at in *. rewrite Ek in *. cbn in *. split; [done |]. rewrite Hd by lia. by rewrite Z.eqb_refl.
    + intros [-> ->]. exists i. split_and!; try lia; [unfold frame_at; by destruct (index_ c).[i] |]. rewrite Hd by lia. by rewrite Z.eqb_refl.
  - unfold cached. split; intros (k & Hk & Ek & ->); exists k; split_and!; try done; try lia.
    all: assert (g = frame_at c k) as -> by (unfold frame_at; by rewrite Ek). 
    all: destruct (ok_frames c m Hok k Hk) as (_ & Hink & _); rewrite Hd by lia.
    all: destruct (Z.eqb_spec (number (frame_at c k)) (number (frame_at c i))) as [E |]; [| done].
    all: apply (ok_distinct c m Hok) in E; [| done | done]; subst k; rewrite Ek in Hne; cbn in Hne; done.
Qed.

(** ** Removing a page *)

(** Where entry [k] was before entry [at_] went. *)
Definition before (at_ k : Z) : Z := if k <? at_ then k else k + 1.

Definition removed c m (at_ : Z) c' m' : Prop :=
  bound_ c' = bound_ c /\ entries_ c' = entries_ c /\ capacity_ c' = capacity_ c /\ objects_ c' = objects_ c /\ count_ c' = count_ c - 1 /\
  (forall k, 0 <= k < count_ c - 1 -> (index_ c').[k] = (index_ c).[before at_ k]) /\
  (forall j, 0 <= j -> D m' j = if j =? number (frame_at c at_) then PageDescriptor.zero else D m j) /\
  Machine.slab m' = Machine.slab m /\ objects_same (Machine.world m) (Machine.world m') /\ World.ram (Machine.world m') = World.ram (Machine.world m) /\
  ChargeAccount.used (Machine.pages m') = ChargeAccount.used (Machine.pages m) - 1 /\ free_frames (frames m') = free_frames (frames m) + 1.

Lemma remove_at_ok c m at_ : ok c m -> 0 <= at_ < count_ c ->
  exists c' m', remove_at c m at_ = (c', m', StatusCode.ok) /\ ok c' m' /\ removed c m at_ c' m'.
Proof.
  intros Hok Hat. pose proof Hok as [Hwf Hsl Hpw Hpd Hobj Hcnt Hlen Hby Hsort Hfr Hdist Hdirty Harr].
  destruct (Hfr at_ Hat) as (Ef & Hin & Hg & Hk). set (j0 := number (frame_at c at_)) in *.
  pose proof (release_charged_ok (frames m) j0 (Machine.pages m) (wf_frames _ _ Hwf) Hpw Hin Hg ltac:(lia)) as Hrel.
  unfold remove_at. rewrite Ef. destruct (release_charged _ _ _) as [[a acc] st]. destruct Hrel as (-> & Ha & Hgeo & Hacc & Hdesc & _ & Hus & Huc). cbn [status_ok negb].
  eexists _, _. split; [reflexivity |]. set (c' := FilePageCache.mk _ _ _ _ _ _). set (m' := Machine.mk _ _ _).
  destruct (cache_shift_down_spec (Z.to_nat (count_ c - (at_ + 1))) (index_ c) (at_ + 1)) as [Hz Hsh]; [lia | lia |].
  assert (forall k, 0 <= k < count_ c - 1 -> (index_ c').[k] = (index_ c).[before at_ k]) as Hix.
  { intros k Hk'. cbn. rewrite Hsh by lia. unfold before. destruct (Z.ltb_spec k at_); cmp; done. }
  assert (forall j, 0 <= j -> D m' j = if j =? j0 then PageDescriptor.zero else D m j) as HD.
  { intros j Hj. assert (0 <= j0 < zlen (descriptors_ (frames m))) as Hjz by (rewrite (Frames.wf_descriptors (frames m) (wf_frames _ _ Hwf)); done).
    change (D m' j) with ((descriptors_ a).[j]). rewrite Hdesc, aget_aset by lia. by rewrite (Z.eqb_sym j). }
  destruct (foreign_update (Machine.slab m) (Machine.world m) (Machine.world m') j0 PageDescriptor.zero Hwf Hin) as [Hwf' Hos]; try done.
  { unfold is_owned, is_large. fold (frames m). by rewrite Hk. }
  pose proof Hgeo as (_ & _ & Hfc & _). assert (forall k, 0 <= k < count_ c - 1 -> 0 <= before at_ k < count_ c /\ before at_ k <> at_) as Hbe
    by (intros k Hk'; unfold before; destruct (Z.ltb_spec k at_); lia).
  assert (forall k, 0 <= k < count_ c - 1 -> frame_at c' k = frame_at c (before at_ k)) as Hfa by (intros k Hk'; unfold frame_at; by rewrite Hix).
  assert (forall k, 0 <= k < count_ c - 1 -> D m' (number (frame_at c' k)) = D m (number (frame_at c (before at_ k)))) as HDk.
  { intros k Hk'. rewrite Hfa by done. destruct (Hbe k Hk') as [Hb Hne]. destruct (Hfr _ Hb) as (_ & ? & _). rewrite HD by lia.
    destruct (Z.eqb_spec (number (frame_at c (before at_ k))) j0) as [E |]; [| done]. exfalso. by apply Hne, (Hdist _ _ Hb Hat). }
  split.
  - assert (count_ c' = count_ c - 1) as Ec by done. split; rewrite ?Ec; try done; try (cbn; lia).
    + intros i j Hij Hj. rewrite !Hix by lia. apply Hsort; unfold before; destruct (Z.ltb_spec i at_), (Z.ltb_spec j at_); lia.
    + intros k Hk'. destruct (Hbe k Hk') as [Hb _]. destruct (Hfr _ Hb) as (Ef' & Hin' & Hg' & Hkk). cbn zeta. pose proof (HDk k Hk') as HDk'.
      assert (generation_at (frames m') (number (frame_at c' k)) = generation_at (frames m) (number (frame_at c' k))) as Eg
        by (unfold generation_at; fold (D m' (number (frame_at c' k))); rewrite HDk', Hfa by done; done).
      rewrite HDk', Eg, (same_handle (frames m) (frames m') _ Hgeo Eg), Hfa by done. by change (frame_count_ (frames m')) with (frame_count_ a); rewrite Hfc.
    + intros i j Hi Hj E. rewrite !Hfa in E by done. apply Hdist in E; [| by apply Hbe..]. revert E. unfold before. destruct (Z.ltb_spec i at_), (Z.ltb_spec j at_); lia.
    + intros k Hk'. cbn zeta. rewrite HDk by done. apply Hdirty. by apply Hbe.
    + destruct Harr as [? | (? & ? & Ho & ?)]; [by left | right]. split_and!; try done; try (cbn; lia). by apply Hos.
  - split_and!; try done; unfold free_frames; cbn; lia.
Qed.

Lemma removed_desc c m at_ c' m' k i f : ok c m -> 0 <= at_ < count_ c -> removed c m at_ c' m' -> 0 <= k < count_ c -> k <> at_ ->
  (index_ c).[k] = Entry.mk i f -> D m' (number f) = D m (number f).
Proof.
  intros Hok Hat (_ & _ & _ & _ & _ & _ & HD & _) Hk Hne Ek. assert (f = frame_at c k) as -> by (unfold frame_at; by rewrite Ek).
  destruct (ok_frames c m Hok k Hk) as (_ & ? & _). rewrite HD by lia.
  destruct (Z.eqb_spec (number (frame_at c k)) (number (frame_at c at_))) as [E |]; [| done]. exfalso. by apply Hne, (ok_distinct c m Hok _ _ Hk Hat).
Qed.

Lemma removed_cached c m at_ c' m' index f d : ok c m -> 0 <= at_ < count_ c -> removed c m at_ c' m' ->
  cached c' m' index f d <-> exists k, 0 <= k < count_ c /\ k <> at_ /\ (index_ c).[k] = Entry.mk index f /\ d = D m (number f).
Proof.
  intros Hok Hat Hrm. pose proof (fun k Hk Hne => removed_desc c m at_ c' m' k index f Hok Hat Hrm Hk Hne) as Hd.
  destruct Hrm as (_ & _ & _ & _ & Hc & Hix & _). unfold cached. rewrite Hc.
  split.
  - intros (k & Hk & Ek & ->). rewrite Hix in Ek by done. exists (before at_ k).
    assert (0 <= before at_ k < count_ c /\ before at_ k <> at_) as [? ?] by (unfold before; destruct (Z.ltb_spec k at_); lia).
    split_and!; try done; try lia. by eapply Hd.
  - intros (k & Hk & Hne & Ek & ->). exists (if k <? at_ then k else k - 1).
    assert (0 <= (if k <? at_ then k else k - 1) < count_ c - 1 /\ before at_ (if k <? at_ then k else k - 1) = k) as [Hr Eb].
    { unfold before. destruct (Z.ltb_spec k at_); [cmp; lia |]. cmp. lia. }
    split_and!; try lia; [by rewrite Hix, Eb | symmetry; by eapply Hd].
Qed.

(** ** Adding a page *)

(** Where entry [k] is after an entry was put at [p]. *)
Definition inserted c (p : Z) (e : Entry.t) c' : Prop :=
  bound_ c' = bound_ c /\ entries_ c' = entries_ c /\ capacity_ c' = capacity_ c /\ objects_ c' = objects_ c /\ count_ c' = count_ c + 1 /\
  zlen (index_ c') = zlen (index_ c) /\
  forall k, 0 <= k <= count_ c -> (index_ c').[k] = if k =? p then e else (index_ c).[if k <? p then k else k - 1].

Lemma insert_spec c m p e : ok c m -> count_ c < capacity_ c -> 0 <= p <= count_ c ->
  inserted c p e (FilePageCache.mk (bound_ c) (objects_ c) (entries_ c) (shift_up (Z.to_nat (count_ c - p)) (index_ c) (count_ c)).[p := e] (count_ c + 1) (capacity_ c)).
Proof.
  intros Hok Hlt Hp. pose proof (ok_length c m Hok) as Hlen. pose proof (ok_count c m Hok) as Hc.
  destruct (shift_up_spec (Z.to_nat (count_ c - p)) (index_ c) (count_ c)) as [Hz Hsh]; [lia | lia |].
  split_and!; try done; cbn; [by rewrite zlen_aset |]. intros k Hk. rewrite aget_aset by lia. destruct (Z.eqb_spec k p) as [-> |]; [done |].
  rewrite Hsh by lia. destruct (Z.ltb_spec k p); cmp; done.
Qed.

(** An entry for a fresh frame, at its place, keeps the invariant. *)
Lemma inserted_ok c m c' m' p index f : ok c m -> count_ c < capacity_ c -> p = position c index -> (forall g d, ~ cached c m index g d) ->
  inserted c p (Entry.mk index f) c' -> ok c m' -> f = handle (frames m') (number f) -> 0 <= number f < frame_count_ (frames m') ->
  generation_at (frames m') (number f) <> 0 -> PageDescriptor.kind (D m' (number f)) = PageKind.page_cache ->
  has dirty_flag (D m' (number f)) = false -> count_ c + 1 <= ChargeAccount.used (Machine.pages m') ->
  (forall k, 0 <= k < count_ c -> number (frame_at c k) <> number f) ->
  ok c' m' /\ forall i g d, cached c' m' i g d <-> cached c m' i g d \/ (i = index /\ g = f /\ d = D m' (number f)).
Proof.
  intros Hok Hlt -> Hno (Eb & Ee & Ecap & Eo & Ec & Ez & Hix) [Hwf Hsl Hpw Hpd Hobj Hcnt Hlen Hby Hsort Hfr Hdist Hdirty Harr] Ef Hin Hg Hk Hnd Hpaid Hfresh.
  destruct (position_spec c m index Hok) as (Hp & Hlo & Hhi). set (p := position c index) in *.
  assert (forall k, p <= k < count_ c -> index < Entry.index (index_ c).[k]) as Hhi'.
  { intros k Hk'. specialize (Hhi k Hk'). enough (index <> Entry.index (index_ c).[k]) by lia. intros ->. by eapply Hno, entry_cached; lia. }
  assert (forall k, 0 <= k <= count_ c -> k <> p -> 0 <= (if k <? p then k else k - 1) < count_ c) as Hr by (intros k Hk' Hne; destruct (Z.ltb_spec k p); lia).
  assert (forall k, 0 <= k <= count_ c -> frame_at c' k = if k =? p then f else frame_at c (if k <? p then k else k - 1)) as Hfa
    by (intros k Hk'; unfold frame_at; rewrite Hix by done; by destruct (k =? p)).
  split.
  - split; rewrite ?Eb, ?Ec, ?Ecap, ?Eo, ?Ee; try done; try lia.
    + intros i j Hij Hj. rewrite !Hix by lia. destruct (Z.eqb_spec i p) as [-> |], (Z.eqb_spec j p) as [-> |]; cbn [Entry.index]; try lia.
      * cmp. apply Hhi'. lia.
      * cmp. apply Hlo. lia.
      * apply Hsort; destruct (Z.ltb_spec i p), (Z.ltb_spec j p); lia.
    + intros k Hk'. cbn zeta. rewrite Hfa by lia. destruct (Z.eqb_spec k p); [by split_and!; try lia |]. apply Hfr, Hr; [lia | done].
    + intros i j Hi Hj. rewrite !Hfa by lia. destruct (Z.eqb_spec i p) as [-> |], (Z.eqb_spec j p) as [-> |]; try done; intros E.
      * exfalso. by eapply Hfresh; [| symmetry; exact E]; apply Hr; [lia | done].
      * exfalso. by eapply Hfresh; [| exact E]; apply Hr; [lia | done].
      * apply Hdist in E; [| apply Hr; [lia | done]..]. destruct (Z.ltb_spec i p), (Z.ltb_spec j p); lia.
    + intros k Hk'. cbn zeta. rewrite Hfa by lia. destruct (Z.eqb_spec k p); [intros E; congruence |]. apply Hdirty, Hr; [lia | done].
    + unfold array_charge in *. by rewrite Ecap.
  - intros i g d. unfold cached. rewrite Ec. split.
    + intros (k & Hk' & Ek & ->). rewrite Hix in Ek by lia. destruct (Z.eqb_spec k p) as [-> | Hne]; [injection Ek as <- <-; by right |]. left.
      exists (if k <? p then k else k - 1). split; [apply Hr; [lia | done] | done].
    + intros [(k & Hk' & Ek & ->) | (-> & -> & ->)].
      * exists (if k <? p then k else k + 1). split; [destruct (k <? p); lia |]. split; [| done]. rewrite Hix by (destruct (k <? p); lia).
        destruct (Z.ltb_spec k p); [cmp; done |]. cmp. rewrite <- Ek. f_equal. lia.
      * exists p. split; [lia |]. split; [| done]. rewrite Hix by lia. by rewrite Z.eqb_refl.
Qed.
End Invariant.
