(* ===== verification/PageCacheOps.v ===== *)
(** * Obtaining pages: growth of the index and new pages

    grow() moves the index to a larger kernel object; obtain() finds a page or
    adds a zeroed one. *)

From S2P Require Import Prelude Charges Regions Sweep Frames FrameSearch FrameSpec FrameAlloc Slab SlabInv SlabSmall SlabAlloc SlabRelease SlabLarge SlabClaims PageCache PageCacheInv.
Import FilePageCache.

Section Obtain.
Context `{Arch} (sizeof_Entry : Z).
Context (Hentry : 28 <= sizeof_Entry <= 64).
Import FrameAllocator.
#[local] Arguments address_for : simpl never.
#[local] Arguments desc : simpl never.
#[local] Arguments object : simpl never.
Implicit Types (c : FilePageCache.t) (m : Machine.t).
Abbreviation frames m := (Machine.frames m).
Abbreviation D m j := (desc (Machine.frames m) j).
Abbreviation number f := (PhysicalFrame.index f).
Abbreviation ok := (PageCacheInv.ok sizeof_Entry).

(** A page as obtain() creates it. *)
Definition fresh_page (w : World.t) (f : PhysicalFrame.t) (d : PageDescriptor.t) : Prop :=
  PageDescriptor.flags d = 0 /\ PageDescriptor.pins d = 0 /\
  forall p, PhysicalFrame.address f <= p < PhysicalFrame.address f + slab_page_size -> World.ram w p = 0.

(** What obtain() of a page that is not cached has done. *)
Definition obtained c m index c' m' (r : result PhysicalFrame.t) : Prop :=
  match r with
  | Ok f => exists d, (forall i g e, cached c' m' i g e <-> cached c m i g e \/ (i = index /\ g = f /\ e = d)) /\
      fresh_page (Machine.world m') f d /\ ~ foreign (Machine.world m) (number f) /\
      ChargeAccount.used (Machine.pages m') = ChargeAccount.used (Machine.pages m) + 1
  | Err e => e <> StatusCode.ok /\ (forall i g d, cached c' m' i g d <-> cached c m i g d) /\
      ChargeAccount.used (Machine.pages m') = ChargeAccount.used (Machine.pages m)
  end.

(** A free frame becomes a zeroed page of the cache. *)
Lemma page_taken c m i d m' : ok c m -> 0 <= i < frame_count_ (frames m) -> generation_at (frames m) i = 0 ->
  Frames.wf (frames m') -> same_geometry (frames m') (frames m) -> descriptors_ (frames m') = (descriptors_ (frames m)).[i := d] -> is_owned d = false ->
  Machine.slab m' = Machine.slab m -> World.headers (Machine.world m') = World.headers (Machine.world m) ->
  World.ram (Machine.world m') = SlabAllocator.zero (World.ram (Machine.world m)) (address_for (frames m) i) slab_page_size ->
  ChargeAccount.wf (Machine.pages m') -> ChargeAccount.used (Machine.pages m') = ChargeAccount.used (Machine.pages m) + 1 ->
  ok c m' /\ others_kept (Machine.world m) (Machine.world m') /\ objects_same (Machine.world m) (Machine.world m').
Proof.
  intros Hok Hi Hg Hw Hgeo Hdesc Hod Es Eh Er Hacc Hu. assert (is_owned (D m i) = false) as Ho.
  { destruct (is_owned (D m i)) eqn:E; [| done]. by apply (wf_owned _ _ (ok_wf _ c m Hok)) in E. }
  destruct (foreign_update (Machine.slab m) (Machine.world m) (Machine.world m') i d (ok_wf _ c m Hok) Hi Ho Hw Hgeo Hdesc Hod Eh) as [Hwf' Hobj].
  assert (others_kept (Machine.world m) (Machine.world m')) as Hoth.
  { eapply (others_kept_page (Machine.slab m) _ _ i d); try done; [apply (ok_wf _ c m Hok) | by left |]. intros q Hq. rewrite Er.
    unfold SlabAllocator.zero. fold (frames m) in Hq. destruct (Z.leb_spec (address_for (frames m) i) q), (Z.ltb_spec q (address_for (frames m) i + slab_page_size)); cbn; try done. lia. }
  split; [| done]. pose proof (ok_paid _ c m Hok). eapply (ok_machine _ c m m'); rewrite ?Es; try done; [lia | |].
  - intros k Hk. destruct Hoth as [_ Hk']. destruct (Hk' _ (cached_foreign _ c m k Hok Hk)) as [E _]. fold (frames m) (frames m') in E. cbn zeta. rewrite E.
    split_and!; try done. by apply (ok_dirty _ c m Hok).
  - intros Hc. apply Hobj. destruct (ok_array _ c m Hok) as [[? _] | (_ & _ & ? & _)]; [lia | done].
Qed.

Lemma cache_add_page_spec c m index ctx : ok c m -> count_ c < capacity_ c -> (forall f d, ~ cached c m index f d) ->
  exists c' m' r, add_page c m index ctx = Some (c', m', r) /\ ok c' m' /\ obtained c m index c' m' r /\
    others_kept (Machine.world m) (Machine.world m') /\ objects_same (Machine.world m) (Machine.world m') /\ Machine.slab m' = Machine.slab m /\
    (AllocationContext.is_atomic ctx = false -> result_ok r = true -> SlabAllocator.reserve_ (Machine.slab m) <= free_frames (frames m')).
Proof.
  intros Hok Hlt Hno. unfold add_page. destruct (_ && _) eqn:Er; [exists c, m, (Err StatusCode.no_memory); split_and!; try done |].
  pose proof (wf_frames _ _ (ok_wf _ c m Hok)) as Hf. fold (frames m) in Hf.
  pose proof (allocate_charged_cases (frames m) (Machine.pages m) Hf (ok_pages _ c m Hok)) as Ha.
  destruct (allocate_charged _ _) as [[a acc] [f | e]].
  2: { destruct Ha as (_ & _ & Hacc & -> & Hu & He & _). set (m' := Machine.mk _ _ _). assert (Machine.world m' = Machine.world m) as Ew by (cbn; unfold World.with_frames, Machine.frames; by destruct (Machine.world m)).
       exists c, m', (Err e). split; [done |]. assert (frames m' = frames m) as Efr by (unfold Machine.frames; by rewrite Ew).
       assert (ok c m') as Hok'.
       { destruct Hok. split; rewrite ?Ew, ?Efr; try done. cbn. lia. }
       rewrite Ew. by split_and!. }
  destruct Ha as (Hfw & Hgeo & Hacc & i & Hi & Hg & -> & Hd & Hng & Hu & Huc). pose proof Hgeo as (_ & Hps & Hfc & _).
  assert (0 <= i < zlen (descriptors_ (frames m))) as Hil by (rewrite (Frames.wf_descriptors _ Hf); done).
  assert (desc a i = PageDescriptor.mk (next_generation_ (frames m)) 0 0 0 0) as Edi by (unfold desc; rewrite Hd; by apply aget_aset_eq).
  assert (generation_at a i = next_generation_ (frames m)) as Hga by (unfold generation_at; fold (desc a i); by rewrite Edi).
  destruct (handle_descriptor a i Hfw ltac:(lia) ltac:(congruence)) as (_ & _ & ->). cbn [mbind option_bind]. rewrite Edi.
  set (d := own _ index). destruct (write_handle_wf a i d Hfw ltac:(lia) ltac:(by rewrite Hga)) as (Hw' & Hgeo1 & Huc1 & Hd1 & Hg1).
  set (a' := write_descriptor _ _ _) in *. set (x := PhysicalFrame.address _). assert (x = address_for (frames m) i) as Ex by (by apply same_geometry_address).
  set (m' := Machine.mk _ _ _). assert (same_geometry (frames m') (frames m)) as Hgeo'.
  { destruct Hgeo as (G1 & G2 & G3 & G4), Hgeo1 as (G5 & G6 & G7 & G8). repeat split; cbn; congruence. }
  assert (descriptors_ (frames m') = (descriptors_ (frames m)).[i := d]) as Hdesc by (cbn; rewrite Hd; unfold aset; by rewrite list_insert_insert_eq).
  assert (page_size a' = slab_page_size) as Eps.
  { pose proof (wf_page_size _ _ (ok_wf _ c m Hok)) as E. fold (frames m) in E. cbn. congruence. }
  destruct (page_taken c m i d m' Hok Hi Hg Hw' Hgeo' Hdesc) as (Hok' & Hoth & Hobj); try done; [by rewrite <- Ex, <- Eps |].
  assert (D m' i = d) as EDi by (change (desc a' i = d); rewrite Hd1 by lia; by rewrite Z.eqb_refl).
  assert (handle a i = handle (frames m') i) as Eh by (symmetry; apply same_handle; [done | apply Hg1; lia]).
  assert (forall k, 0 <= k < count_ c -> number (frame_at c k) <> i) as Hfresh.
  { intros k Hk E. destruct (ok_frames _ c m Hok k Hk) as (_ & _ & Hgk & _). rewrite E in Hgk. done. }
  pose proof (insert_spec _ c m (position c index) (Entry.mk index (handle a i)) Hok Hlt ltac:(apply (position_spec _ c m index Hok))) as Hins.
  destruct (inserted_ok _ c m _ m' (position c index) index (handle a i) Hok Hlt eq_refl Hno Hins Hok') as [Hok'' Hcached]; cbn [handle PhysicalFrame.index]; try done.
  { destruct Hgeo' as (_ & _ & -> & _). lia. }
  { change (generation_at a' i <> 0). by rewrite Hg1, Hga by lia. }
  { by rewrite EDi. }
  { by rewrite EDi. }
  { pose proof (ok_paid _ c m Hok). cbn. lia. }
  eexists _, m', (Ok (handle a i)). split; [reflexivity |]. split; [exact Hok'' |]. split.
  - exists d. split; [| split; [split; [done |]; split; [done |] | split; [by intros (_ & ? & _) | done]]].
    + intros j g e. rewrite Hcached. cbn [handle PhysicalFrame.index]. rewrite EDi. apply or_iff_compat_r. unfold cached. 
      split; intros (k & Hk & Ek & ->); exists k; split_and!; try done; try lia.
      all: assert (g = frame_at c k) as -> by (unfold frame_at; by rewrite Ek).
      all: destruct Hoth as [_ Hk']; destruct (Hk' _ (cached_foreign _ c m k Hok Hk)) as [E _]; fold (frames m) (frames m') in E; by rewrite E.
    + intros q Hq. cbn [Machine.world World.ram m']. fold x in Hq |- *. rewrite Eps. unfold SlabAllocator.zero. by cmp.
  - split_and!; try done. intros Hat _. rewrite Hat in Er. cbn [negb andb] in Er. destruct Hgeo' as (_ & _ & Hfc' & _).
    unfold SlabAllocator.reserve_frames, free_frames in *. rewrite Hfc'. change (used_count_ (frames m')) with (used_count_ a'). lia.
Qed.

(** ** Growing the index *)
Lemma object_below s w o b : SlabInv.wf s w -> object w o b -> o + b <= usize_max.
Proof.
  intros Hwf [(k & Hk & -> & i & j & Hi & Hs & Hj & _ & ->) | (n & -> & i & Hi & Hh & <- & ->)].
  - destruct (addr_facts s w i Hwf Hi) as (_ & _ & ?), (slab_slot_in_page k j Hk Hj). lia.
  - destruct (wf_runs s w Hwf i Hi Hh) as (Hn & Hle & Hadj & _). set (n := PageDescriptor.references _) in *.
    destruct (addr_facts s w (i + (n - 1)) Hwf) as (_ & _ & Hb); [lia |]. rewrite Hadj in Hb by lia. unfold slab_page_size in *. lia.
Qed.

(** The same pages in another array. *)
Lemma ok_array_moved c m c' : ok c m -> bound_ c' = bound_ c -> count_ c' = count_ c -> count_ c <= capacity_ c' ->
  (forall i, 0 <= i < count_ c -> (index_ c').[i] = (index_ c).[i]) -> zlen (index_ c') = capacity_ c' -> capacity_ c' * sizeof_Entry <= usize_max ->
  ChargeAccount.wf (objects_ c') ->
  (capacity_ c' = 0 /\ entries_ c' = 0) \/
  (0 < capacity_ c' /\ object (Machine.world m) (entries_ c') (array_charge sizeof_Entry c') /\ array_charge sizeof_Entry c' <= ChargeAccount.used (objects_ c')) ->
  ok c' m /\ forall i f d, cached c' m i f d <-> cached c m i f d.
Proof.
  intros [Hwf Hsl Hpw Hpd Hobj Hcnt Hlen Hby Hsort Hfr Hdist Hdirty Harr] Eb Ec Hcap Hix Hz Hby' Hw Harr'.
  assert (forall i, 0 <= i < count_ c -> frame_at c' i = frame_at c i) as Hfa by (intros i Hi; unfold frame_at; by rewrite Hix). split.
  - split; rewrite ?Eb, ?Ec; try done; try lia.
    + intros i j Hij Hj. rewrite !Hix by lia. by apply Hsort.
    + intros i Hi. rewrite Hfa by done. by apply Hfr.
    + intros i j Hi Hj. rewrite !Hfa by done. by apply Hdist.
    + intros i Hi. rewrite Hfa by done. by apply Hdirty.
    + destruct Harr' as [? | (? & Ho & ?)]; [by left | right]. pose proof (object_below _ _ _ _ Hwf Ho). destruct (object_positive _ _ _ _ Hwf Ho). split_and!; try done; lia.
  - intros i f d. unfold cached. rewrite Ec. split; intros (k & Hk & Ek & ->); exists k; rewrite Hix in * by done; done.
Qed.

(** The pages stay, in the descriptors and in the index. *)
Definition pages_kept c m c' m' : Prop :=
  (forall i f d, cached c' m' i f d <-> cached c m i f d) /\ count_ c' = count_ c /\ bound_ c' = bound_ c /\ Machine.pages m' = Machine.pages m.

Lemma cached_same c m m' i f d : (forall k, 0 <= k < count_ c -> D m' (number (frame_at c k)) = D m (number (frame_at c k))) ->
  cached c m' i f d <-> cached c m i f d.
Proof.
  intros Hd. unfold cached. split; intros (k & Hk & Ek & ->); exists k; split_and!; try done; try lia.
  all: assert (f = frame_at c k) as -> by (unfold frame_at; by rewrite Ek); by rewrite Hd.
Qed.

(** An object that is not the array is given back. *)
Lemma spare_released c m o size : ok c m -> bound_ c = true -> 0 < capacity_ c -> o <> entries_ c -> 0 < size -> 0 <= o <= usize_max ->
  object (Machine.world m) o (SlabAllocator.charge_for size) ->
  array_charge sizeof_Entry c + SlabAllocator.charge_for size <= ChargeAccount.used (objects_ c) ->
  exists s' w' owner', SlabAllocator.release (Machine.slab m) (Machine.world m) o size (objects_ c) = Some (s', w', owner', StatusCode.ok) /\
    let c' := FilePageCache.mk (bound_ c) owner' (entries_ c) (index_ c) (count_ c) (capacity_ c) in
    let m' := Machine.mk s' w' (Machine.pages m) in
    ok c' m' /\ pages_kept c m c' m' /\ others_kept (Machine.world m) w' /\ same_setup (Machine.slab m) s'.
Proof.
  intros Hok Hb Hc Hne Hs Hrange Hobj Hu. destruct (ok_array _ c m Hok) as [[? _] | (_ & Hent & Harr & Hch)]; [lia |].
  destruct (release_contract (Machine.slab m) (Machine.world m) o size (objects_ c) (ok_wf _ c m Hok) (ok_objects _ c m Hok) Hrange ltac:(lia)) as (s' & w' & owner' & st & Er & Hrel).
  destruct (object_positive _ _ _ _ (ok_wf _ c m Hok) Harr) as [? Hpos].
  assert (releasable (Machine.slab m) (Machine.world m) o size (objects_ c)) as Hable by (split_and!; [by apply (ok_slab _ c m Hok) | done | done | lia]).
  destruct Hrel as [(-> & _ & Hwf & Hset & Hrm & Hoth & _ & Hown & Hused) | (_ & Hno & _)]; [| by destruct (Hno Hable)].
  exists s', w', owner'. split; [done |]. cbv zeta. set (m' := Machine.mk s' w' (Machine.pages m)).
  assert (object w' (entries_ c) (array_charge sizeof_Entry c)) as Harr' by (apply Hrm; by split).
  destruct (ok_others _ c m m' Hok Hwf Hset Hoth eq_refl) as [Hok1 Hd1]; [done |].
  destruct (ok_array_moved c m' (FilePageCache.mk (bound_ c) owner' (entries_ c) (index_ c) (count_ c) (capacity_ c)) Hok1) as [Hok2 Hc2]; try done.
  - apply (ok_count _ c m Hok).
  - apply (ok_length _ c m Hok).
  - apply (ok_bytes _ c m Hok).
  - right. split_and!; try done. change (array_charge sizeof_Entry c <= ChargeAccount.used owner'). lia.
  - split; [done |]. split; [split; [| done]; intros i f d; rewrite Hc2; by apply cached_same | by split].
Qed.

Lemma grow_spec c m ctx : ok c m -> bound_ c = true -> next_generation_ (frames m) <> 0 ->
  exists c' m' st, grow sizeof_Entry c m ctx = Some (c', m', st) /\ ok c' m' /\ pages_kept c m c' m' /\
    others_kept (Machine.world m) (Machine.world m') /\ same_setup (Machine.slab m) (Machine.slab m') /\ (st = StatusCode.ok -> capacity_ c < capacity_ c').
Proof.
  intros Hok Hb Hng. pose proof (ok_count _ c m Hok) as Hcnt. pose proof (ok_bytes _ c m Hok) as Hby. pose proof usize_max_pos as Hmax. unfold grow.
  set (capacity := if capacity_ c =? 0 then 8 else usize_wrap (capacity_ c * 2)). assert (capacity_ c < capacity /\ 0 < capacity) as [Hcap Hcap0].
  { unfold capacity. destruct (Z.eqb_spec (capacity_ c) 0); [lia |]. rewrite usize_wrap_small by nia. lia. }
  destruct (Z.ltb_spec (usize_max / sizeof_Entry) capacity) as [Hov | Hfit].
  { exists c, m, StatusCode.overflow. split_and!; try done. }
  assert (0 <= capacity * sizeof_Entry <= usize_max) as [Hbytes0 Hbytes].
  { split; [nia |]. pose proof (Z.mul_div_le usize_max sizeof_Entry ltac:(lia)). nia. }
  destruct (allocate_contract (Machine.slab m) (Machine.world m) (capacity * sizeof_Entry) (objects_ c) ctx (ok_wf _ c m Hok) (ok_objects _ c m Hok) Hbytes0 ltac:(done))
    as (s1 & w1 & owner1 & r & -> & (Hwf1 & Hset1 & Hown1 & Hoth1 & Hr) & _). cbn [mbind option_bind].
  set (m1 := Machine.mk s1 w1 (Machine.pages m)).
  assert (0 < capacity_ c -> object (Machine.world m) (entries_ c) (array_charge sizeof_Entry c) /\ array_charge sizeof_Entry c <= ChargeAccount.used (objects_ c) /\
    0 < entries_ c <= usize_max) as Harr by (intros Hc; destruct (ok_array _ c m Hok) as [[? _] | (_ & ? & ? & ?)]; [lia | done]).
  destruct r as [entries | e].
  2: { destruct Hr as (-> & Hu & He & _). destruct (ok_others _ c m m1 Hok Hwf1 Hset1 Hoth1 eq_refl) as [Hok1 Hd1]; [intros Hc; by apply Harr |].
       eexists _, m1, e. split; [reflexivity |]. edestruct (ok_array_moved c m1) as [Hok2 Hca]; [exact Hok1 | ..]; cycle -1.
       - split; [exact Hok2 |]. split; [split; [| done]; intros i f d; rewrite Hca; by apply cached_same |]. by split_and!.
       - done.
       - done.
       - cbn. lia.
       - done.
       - apply (ok_length _ c m Hok).
       - done.
       - done.
       - cbn. destruct (ok_array _ c m Hok) as [? | (? & _)]; [by left | right]. destruct Harr as (? & ? & _); [done |]. split_and!; try done. change (array_charge sizeof_Entry c <= ChargeAccount.used owner1). lia. }
  destruct Hr as (Hle & Hpos & _ & Hadd & Hap & _ & _ & Hu1 & _). cbn [bound_ objects_ entries_ index_ count_ capacity_]. set (array := _ ++ replicate _ _).
  destruct (ok_others _ c m m1 Hok Hwf1 Hset1 Hoth1 eq_refl) as [Hok1 Hd1]; [intros Hc; apply Hadd; left; by apply Harr |].
  set (c1 := FilePageCache.mk (bound_ c) owner1 entries array (count_ c) capacity).
  assert (zlen array = capacity) as Hza.
  { unfold array. rewrite zlen_app, zlen_take, zlen_replicate, (ok_length _ c m Hok). lia. }
  assert (forall i, 0 <= i < count_ c -> array.[i] = (index_ c).[i]) as Hai.
  { intros i Hi. unfold array. rewrite aget_app_l, aget_take; [done | lia |]. rewrite zlen_take, (ok_length _ c m Hok). lia. }
  assert (object w1 entries (SlabAllocator.charge_for (capacity * sizeof_Entry))) as Hnew by (apply Hadd; by right).
  pose proof (used_nonneg (objects_ c) (ok_objects _ c m Hok)) as Hu0.
  destruct (ok_array_moved c m1 c1 Hok1) as [Hok2 Hc2]; try done; [cbn; lia | right; split_and!; try done; unfold array_charge; cbn; lia |].
  assert (pages_kept c m c1 m1) as Hpk by (split; [| done]; intros i f d; rewrite Hc2; by apply cached_same).
  destruct (Z.eqb_spec (entries_ c) 0) as [E0 | Hne].
  { eexists c1, m1, StatusCode.ok. by split_and!. }
  assert (0 < capacity_ c) as Hc0 by (destruct (ok_array _ c m Hok) as [[_ ?] | [? _]]; done). destruct (Harr Hc0) as (Hobj & Hch & Hrange).
  rewrite usize_wrap_small by nia.
  destruct (object_positive _ _ _ _ (ok_wf _ c m Hok) Hobj), (object_positive _ _ _ _ Hwf1 Hnew).
  destruct (spare_released c1 m1 (entries_ c) (capacity_ c * sizeof_Entry) Hok2) as (s2 & w2 & owner2 & Hrel & Hok3 & (Hca & Hpk3) & Hoth2 & Hset2); try done; try nia.
  { cbn. intros E. destruct (Hap _ _ Hobj); lia. }
  { apply Hadd. by left. }
  { unfold array_charge in *. cbn. lia. }
  cbn [Machine.slab Machine.world m1 c1 objects_] in Hrel. rewrite Hrel. cbn [mbind option_bind status_ok negb].
  eexists _, _, StatusCode.ok. split; [reflexivity |]. split; [exact Hok3 |]. split.
  - split; [| done]. intros i f d. etrans; [apply Hca | by apply Hpk].
  - split; [by eapply others_kept_trans |]. split; [destruct Hset1, Hset2; split; cbn in *; congruence | done].
Qed.

(** ** obtain() *)
Lemma lookup_cached c m index : ok c m -> bound_ c = true ->
  match lookup c index with
  | Ok f => exists d, cached c m index f d
  | Err e => e = StatusCode.not_found /\ forall f d, ~ cached c m index f d
  end.
Proof.
  intros Hok Hb. pose proof (missing_spec _ c m index Hok) as Hm. cbv zeta in Hm. unfold lookup. rewrite Hb. cbn [negb]. destruct (missing _ _ _); [done |].
  destruct Hm as [Hp Ee]. eexists. by exists (position c index).
Qed.

Lemma obtained_trans c m c1 m1 index c' m' r : pages_kept c m c1 m1 -> others_kept (Machine.world m) (Machine.world m1) ->
  obtained c1 m1 index c' m' r -> obtained c m index c' m' r.
Proof.
  intros (Hc & _ & _ & Hp) [(_ & _ & Hfc & _) Hoth]. destruct r as [f | e]; cbn.
  - intros (d & Hall & Hf & Hno & Hu). exists d. split_and!; try done; [intros i g e; by rewrite Hall, Hc | | congruence].
    intros Hfor. apply Hno. destruct (Hoth _ Hfor) as [E _]. destruct Hfor as (? & ? & ?). split; [lia |]. unfold generation_at in *.
    split; [| by rewrite E]. fold (desc (World.frames (Machine.world m1)) (number f)). by rewrite E.
  - intros (He & Hall & Hu). split_and!; try done; [intros i g d; by rewrite Hall, Hc | congruence].
Qed.

Lemma obtain_cases c m index ctx : ok c m -> bound_ c = true -> next_generation_ (frames m) <> 0 ->
  exists c' m' r, obtain sizeof_Entry c m index ctx = Some (c', m', r) /\ ok c' m' /\ bound_ c' = true /\
    others_kept (Machine.world m) (Machine.world m') /\
    ((exists f d, cached c m index f d /\ r = Ok f /\ c' = c /\ m' = m) \/
     ((forall f d, ~ cached c m index f d) /\ obtained c m index c' m' r)).
Proof.
  intros Hok Hb Hng. pose proof (lookup_cached c m index Hok Hb) as Hl. unfold obtain. destruct (lookup c index) as [f | e].
  { destruct Hl as [d Hd]. exists c, m, (Ok f). split_and!; try done. left. by exists f, d. }
  destruct Hl as [-> Hno]. cbn [negb bool_decide]. pose proof (ok_count _ c m Hok) as Hcnt. rewrite bool_decide_true by done. cbn [negb].
  assert (forall c1 m1, ok c1 m1 -> bound_ c1 = true -> pages_kept c m c1 m1 -> others_kept (Machine.world m) (Machine.world m1) -> count_ c1 < capacity_ c1 ->
    exists c' m' r, add_page c1 m1 index ctx = Some (c', m', r) /\ ok c' m' /\ bound_ c' = true /\ others_kept (Machine.world m) (Machine.world m') /\
      ((exists f d, cached c m index f d /\ r = Ok f /\ c' = c /\ m' = m) \/ ((forall f d, ~ cached c m index f d) /\ obtained c m index c' m' r))) as Hadd.
  { intros c1 m1 Hok1 Hb1 Hpk Hoth1 Hlt. destruct (cache_add_page_spec c1 m1 index ctx Hok1 Hlt) as (c' & m' & r & E & Hok' & Hob & Hoth & _).
    { intros f d Hf. by apply Hpk, Hno in Hf. }
    exists c', m', r. split_and!; try done; [| by eapply others_kept_trans | right; split; [done | by eapply obtained_trans]].
    revert E. unfold add_page. destruct (_ && _); [by intros [= <- _ _] |]. destruct (allocate_charged _ _) as [[a acc] [f | e]]; [| by intros [= <- _ _]].
    destruct (descriptor a f); [| done]. cbn [mbind option_bind]. by intros [= <- _ _]. }
  destruct (Z.eqb_spec (count_ c) (capacity_ c)) as [Efull | Hroom]; [| apply Hadd; try done; lia].
  destruct (grow_spec c m ctx Hok Hb Hng) as (c1 & m1 & st & -> & Hok1 & Hpk & Hoth & _ & Hcap). cbn [mbind option_bind].
  destruct (status_ok st) eqn:Est; cbn [negb].
  - assert (st = StatusCode.ok) as -> by (by destruct st). specialize (Hcap eq_refl). pose proof Hpk as (_ & Ec & Eb & _). apply Hadd; try done; [congruence | lia].
  - eexists c1, m1, (Err st). pose proof Hpk as (Hc & _ & Eb & Ep). split_and!; try done; [congruence |]. right. split; [done |].
    split_and!; try done; [by intros -> | by rewrite Ep].
Qed.
End Obtain.
