(* ===== verification/PageCacheClaims.v ===== *)
(** * The page cache: what its operations promise

    Lookup and creation, page states, write-back order, eviction, truncation
    and retirement, as statements about the pages the cache holds. *)

From S2P Require Import Prelude Charges Regions Sweep Frames FrameSearch FrameSpec FrameAlloc Slab SlabInv SlabSmall SlabAlloc SlabRelease SlabLarge SlabClaims PageCache PageCacheInv PageCacheOps.
Import FilePageCache.

Section Loops.
Context `{Arch} (sizeof_Entry : Z).
Context (Hentry : 28 <= sizeof_Entry <= 64).
Import FrameAllocator.
#[local] Arguments address_for : simpl never.
#[local] Arguments desc : simpl never.
#[local] Arguments object : simpl never.
Implicit Types (c : FilePageCache.t) (m : Machine.t).
Abbreviation frames m := (Machine.frames m).
Abbreviation D m j := (desc (Machine.frames m) j).
Abbreviation number f := (PhysicalFrame.index f).
Abbreviation ok := (PageCacheInv.ok sizeof_Entry).

Lemma dirty_from_spec n c m at_ : ok c m -> 0 <= at_ -> at_ + Z.of_nat n = count_ c ->
  match dirty_from n c m at_ with
  | Ok i => exists k, at_ <= k < count_ c /\ i = Entry.index (index_ c).[k] /\ has dirty_flag (D m (number (frame_at c k))) = true /\
      forall j, at_ <= j < k -> has dirty_flag (D m (number (frame_at c j))) = false
  | Err e => e = StatusCode.not_found /\ forall j, at_ <= j < count_ c -> has dirty_flag (D m (number (frame_at c j))) = false
  end.
Proof.
  intros Hok. revert at_. induction n as [| n IH]; intros at_ Hat Hn; cbn [dirty_from]; [split; [done | intros; lia] |].
  rewrite (descriptor_at_spec _ c m at_ Hok) by lia. destruct (has dirty_flag (D m (number (frame_at c at_)))) eqn:E; [exists at_; split_and!; try done; intros; lia |].
  specialize (IH (at_ + 1) ltac:(lia) ltac:(lia)). destruct (dirty_from n c m (at_ + 1)) as [i | e].
  - destruct IH as (k & Hk & -> & Hd & Hj). exists k. split_and!; try done; try lia. intros j Hr. destruct (Z.eq_dec j at_) as [-> |]; [done | apply Hj; lia].
  - destruct IH as [-> Hj]. split; [done |]. intros j Hr. destruct (Z.eq_dec j at_) as [-> |]; [done | apply Hj; lia].
Qed.

Lemma any_from_spec n test c m at_ :
  any_from n test c m at_ = true <-> exists k, at_ <= k < at_ + Z.of_nat n /\ test (descriptor_at c m k) = true.
Proof.
  revert at_. induction n as [| n IH]; intros at_; cbn [any_from]; [split; [done | intros (k & ? & _); lia] |].
  destruct (test (descriptor_at c m at_)) eqn:E; [split; [intros _; exists at_; split; [lia | done] | done] |]. rewrite IH.
  split; intros (k & Hk & Ht); exists k; (split; [| done]); [lia |]. enough (k <> at_) by lia. intros ->. congruence.
Qed.

(** ** Several removals *)

(** The cache lost pages; the rest of it and the kernel objects stay. *)
Definition dropped c m c' m' : Prop :=
  bound_ c' = bound_ c /\ entries_ c' = entries_ c /\ capacity_ c' = capacity_ c /\ objects_ c' = objects_ c /\ count_ c' <= count_ c /\
  Machine.slab m' = Machine.slab m /\ objects_same (Machine.world m) (Machine.world m') /\ World.ram (Machine.world m') = World.ram (Machine.world m) /\
  ChargeAccount.used (Machine.pages m') = ChargeAccount.used (Machine.pages m) - (count_ c - count_ c') /\
  free_frames (frames m') = free_frames (frames m) + (count_ c - count_ c').

Lemma dropped_refl c m : dropped c m c m.
Proof. split_and!; try done; lia. Qed.

Lemma removed_dropped c m at_ c1 m1 c' m' : removed c m at_ c1 m1 -> dropped c1 m1 c' m' -> dropped c m c' m'.
Proof.
  intros (E1 & E2 & E3 & E4 & E5 & _ & _ & E6 & Ho1 & E7 & E8 & E9) (F1 & F2 & F3 & F4 & F5 & F6 & Ho2 & F7 & F8 & F9).
  split_and!; try congruence; try lia. intros y b. pose proof (Ho2 y b) as E. rewrite E. apply Ho1.
Qed.

Lemma drop_from_spec fuel first c m : ok c m -> count_ c <= Z.of_nat fuel ->
  exists c' m', drop_from fuel first c m = (c', m', StatusCode.ok) /\ ok c' m' /\ dropped c m c' m' /\
    forall i f d, cached c' m' i f d <-> cached c m i f d /\ i < first.
Proof.
  revert c m. induction fuel as [| fuel IH]; intros c m Hok Hf; cbn [drop_from]; pose proof (ok_count _ c m Hok) as Hcnt.
  { exists c, m. split_and!; try done; [apply dropped_refl |]. intros i f d. split; [intros (k & ? & _); lia | by intros [? _]]. }
  destruct (negb (count_ c =? 0) && (first <=? Entry.index (index_ c).[count_ c - 1])) eqn:E.
  - b2p. destruct (remove_at_ok _ c m (count_ c - 1) Hok ltac:(lia)) as (c1 & m1 & -> & Hok1 & Hrm). cbn [status_ok negb].
    destruct (IH c1 m1 Hok1) as (c' & m' & -> & Hok' & Hdr & Hc'); [destruct Hrm as (_ & _ & _ & _ & ? & _); lia |].
    exists c', m'. split_and!; try done; [by eapply removed_dropped |]. intros i f d. rewrite Hc', (removed_cached _ c m (count_ c - 1) c1 m1) by (done || lia).
    split; [intros [(k & Hk & _ & Ek & ->) Hi]; split; [by exists k | done] |]. intros [(k & Hk & Ek & ->) Hi]. split; [| done]. exists k. split_and!; try done; try lia.
    intros ->. rewrite Ek in *. cbn in *. lia.
  - exists c, m. split_and!; try done; [apply dropped_refl |]. intros i f d. split; [| by intros [? _]]. intros Hc. split; [done |]. destruct Hc as (k & Hk & Ek & _).
    apply andb_false_iff in E as [E | E]; b2p; [lia |]. destruct (Z.eq_dec k (count_ c - 1)) as [-> |]; [by rewrite Ek in E |].
    pose proof (ok_sorted _ c m Hok k (count_ c - 1) ltac:(lia) ltac:(lia)) as Hs. rewrite Ek in Hs. cbn in Hs. lia.
Qed.

Lemma drop_all_spec fuel c m : ok c m -> count_ c <= Z.of_nat fuel ->
  exists c' m', drop_all fuel c m = (c', m', StatusCode.ok) /\ ok c' m' /\ dropped c m c' m' /\ count_ c' = 0.
Proof.
  revert c m. induction fuel as [| fuel IH]; intros c m Hok Hf; cbn [drop_all]; pose proof (ok_count _ c m Hok) as Hcnt.
  { exists c, m. split_and!; try done; [apply dropped_refl | lia]. }
  destruct (Z.eqb_spec (count_ c) 0); cbn [negb]; [exists c, m; split_and!; try done; apply dropped_refl |].
  destruct (remove_at_ok _ c m (count_ c - 1) Hok ltac:(lia)) as (c1 & m1 & -> & Hok1 & Hrm). cbn [status_ok negb].
  destruct (IH c1 m1 Hok1) as (c' & m' & -> & Hok' & Hdr & Hc'); [destruct Hrm as (_ & _ & _ & _ & ? & _); lia |].
  exists c', m'. split_and!; try done. by eapply removed_dropped.
Qed.

(** The first [n] entries are examined, from the last one down. *)
Lemma evict_loop_spec n c m e : ok c m -> Z.of_nat n <= count_ c ->
  exists c' m', evict_loop n c m e = (c', m', Ok (e + (count_ c - count_ c'))) /\ ok c' m' /\ dropped c m c' m' /\
    forall i f d, cached c' m' i f d <->
      exists k, 0 <= k < count_ c /\ (index_ c).[k] = Entry.mk i f /\ d = D m (number f) /\ (Z.of_nat n <= k \/ kept (Some d) = true).
Proof.
  revert c m e. induction n as [| n IH]; intros c m e Hok Hn; cbn [evict_loop].
  { exists c, m. rewrite Z.sub_diag, Z.add_0_r. split_and!; try done; [apply dropped_refl |]. intros i f d.
    split; [intros (k & ? & ? & ?); exists k; split_and!; try done; try lia; left; lia | intros (k & ? & ? & ? & _); by exists k]. }
  rewrite (descriptor_at_spec _ c m (Z.of_nat n) Hok) by lia. set (d0 := D m (number (frame_at c (Z.of_nat n)))).
  destruct (kept (Some d0)) eqn:Ek.
  - destruct (IH c m e Hok ltac:(lia)) as (c' & m' & -> & Hok' & Hdr & Hc). exists c', m'. split_and!; try done. intros i f d. rewrite Hc.
    split; intros (k & Hk & Ei & -> & Hor); exists k; split_and!; try done; try lia.
    + destruct Hor as [? | ?]; [| by right]. destruct (Z.eq_dec k (Z.of_nat n)) as [-> |]; [right | left; lia].
      unfold d0, frame_at in Ek. by rewrite Ei in Ek.
    + destruct Hor as [? | ?]; [left; lia | by right].
  - destruct (remove_at_ok _ c m (Z.of_nat n) Hok ltac:(lia)) as (c1 & m1 & -> & Hok1 & Hrm). cbn [status_ok negb].
    assert (count_ c1 = count_ c - 1) as Ec1 by (by destruct Hrm as (_ & _ & _ & _ & ? & _)).
    destruct (IH c1 m1 (e + 1) Hok1 ltac:(lia)) as (c' & m' & -> & Hok' & Hdr & Hc). exists c', m'. split_and!; try done; [f_equal; f_equal; lia | by eapply removed_dropped |].
    pose proof (fun k i f Hk Hne => removed_desc _ c m (Z.of_nat n) c1 m1 k i f Hok ltac:(lia) Hrm Hk Hne) as Hd.
    destruct Hrm as (_ & _ & _ & _ & _ & Hix & _). intros i f d. rewrite Hc, Ec1. split.
    + intros (k & Hk & Ei & -> & Hor). rewrite Hix in Ei by done. exists (before (Z.of_nat n) k).
      assert (0 <= before (Z.of_nat n) k < count_ c /\ before (Z.of_nat n) k <> Z.of_nat n) as [? ?] by (unfold before; destruct (Z.ltb_spec k (Z.of_nat n)); lia).
      rewrite (Hd (before (Z.of_nat n) k) i f) in * by done. split_and!; try done; try lia. destruct Hor as [? | ?]; [left | by right]. unfold before. cmp. lia.
    + intros (k & Hk & Ei & -> & Hor). assert (k <> Z.of_nat n) as Hne.
      { intros ->. destruct Hor as [? | Hkept]; [lia |]. unfold d0, frame_at in Ek. rewrite Ei in Ek. cbn [Entry.frame] in Ek. congruence. }
      exists (if k <? Z.of_nat n then k else k - 1). rewrite (Hd k i f) by done.
      assert (0 <= (if k <? Z.of_nat n then k else k - 1) < count_ c - 1 /\ before (Z.of_nat n) (if k <? Z.of_nat n then k else k - 1) = k) as [Hr Eb].
      { unfold before. destruct (Z.ltb_spec k (Z.of_nat n)); cmp; lia. }
      split_and!; try lia; [by rewrite Hix, Eb | done |]. destruct Hor as [? | ?]; [left | by right]. destruct (Z.ltb_spec k (Z.of_nat n)); lia.
Qed.
End Loops.

(** ** Page states *)

(** The operations on one page's state. *)
Inductive state_op := MarkUptodate | MarkDirty | MarkClean | Pin | Unpin.
Definition apply `{Arch} (o : state_op) (c : FilePageCache.t) (m : Machine.t) (index : Z) : Machine.t * Status :=
  match o with
  | MarkUptodate => mark_uptodate c m index
  | MarkDirty => mark_dirty c m index
  | MarkClean => mark_clean c m index
  | Pin => pin c m index
  | Unpin => unpin c m index
  end.

(** A page's state: uptodate, dirty, pins; and the machine the five
    operations are meant to be. *)
Definition summary (d : PageDescriptor.t) : bool * bool * Z := (has uptodate_flag d, has dirty_flag d, PageDescriptor.pins d).
Definition page_step (o : state_op) (x : bool * bool * Z) : result (bool * bool * Z) :=
  let '(u, w, p) := x in
  match o with
  | MarkUptodate => Ok (true, w, p)
  | MarkDirty => if u then Ok (u, true, p) else Err StatusCode.invalid_argument
  | MarkClean => Ok (u, false, p)
  | Pin => if p =? 65535 then Err StatusCode.overflow else Ok (u, w, p + 1)
  | Unpin => if p =? 0 then Err StatusCode.invalid_argument else Ok (u, w, p - 1)
  end.

Lemma has_set f g d : 0 < f -> has f (with_flags d (Z.lor (PageDescriptor.flags d) g)) = has f d || negb (Z.land g f =? 0).
Proof.
  intros Hf. unfold has. cbn. rewrite Z.land_lor_distr_l. destruct (Z.eqb_spec (Z.land (PageDescriptor.flags d) f) 0) as [-> | Hne]; cbn [negb orb].
  - by rewrite Z.lor_0_l.
  - destruct (Z.eqb_spec (Z.lor (Z.land (PageDescriptor.flags d) f) (Z.land g f)) 0) as [E |]; [| done]. apply Z.lor_eq_0_iff in E as [? _]. done.
Qed.

Lemma has_clear f g d : has f (with_flags d (Z.land (PageDescriptor.flags d) g)) = negb (Z.land (PageDescriptor.flags d) (Z.land g f) =? 0).
Proof. unfold has. cbn. by rewrite Z.land_assoc. Qed.

Section Claims.
Context `{Arch} (sizeof_Entry : Z).
Context (Hentry : 28 <= sizeof_Entry <= 64).
Import FrameAllocator.
#[local] Arguments address_for : simpl never.
#[local] Arguments desc : simpl never.
#[local] Arguments object : simpl never.
Implicit Types (c : FilePageCache.t) (m : Machine.t).
Abbreviation frames m := (Machine.frames m).
Abbreviation ok := (PageCacheInv.ok sizeof_Entry).

(** Writing [d'] for a cached page's descriptor. *)
Definition updated c m index (f : PhysicalFrame.t) (d' : PageDescriptor.t) m' : Prop :=
  ok c m' /\ Machine.slab m' = Machine.slab m /\ objects_same (Machine.world m) (Machine.world m') /\
  forall i g e, cached c m' i g e <-> if i =? index then g = f /\ e = d' else cached c m i g e.

Lemma page_updated c m index f d d' : ok c m -> cached c m index f d ->
  PageDescriptor.generation d' = PageDescriptor.generation d -> PageDescriptor.kind d' = PageDescriptor.kind d ->
  (has dirty_flag d' = true -> has uptodate_flag d' = true) -> updated c m index f d' (write m f d').
Proof.
  intros Hok (i & Hi & Ei & ->) Hg Hk Hd. assert (f = frame_at c i) as -> by (unfold frame_at; by rewrite Ei).
  destruct (ok_frames _ c m Hok i Hi) as (_ & _ & _ & Hkind). destruct (write_ok _ c m i d' Hok Hi Hg ltac:(congruence) Hd) as (Hok' & HD & Hobj).
  split_and!; try done. intros j g e. rewrite (write_cached _ c m i d' j g e Hok Hi HD). by rewrite Ei.
Qed.

Lemma cached_dirty c m index f d : ok c m -> cached c m index f d -> has dirty_flag d = true -> has uptodate_flag d = true.
Proof. intros Hok (i & Hi & Ei & ->). assert (f = frame_at c i) as -> by (unfold frame_at; by rewrite Ei). by apply (ok_dirty _ c m Hok). Qed.

(** C19: the five state operations are the page state machine: on a cached page
    the operation is refused with the machine's error and nothing changes, or
    that page's state makes the step and every other page, the index and the
    kernel objects stay; a page that is not cached is not found.  A dirty page
    is always uptodate and the pin count never wraps. *)
Theorem cache_page_states o c m index : ok c m -> bound_ c = true ->
  let '(m', st) := apply o c m index in
  ((forall f d, ~ cached c m index f d) /\ st = StatusCode.not_found /\ m' = m) \/
  exists f d, cached c m index f d /\
    match page_step o (summary d) with
    | Err e => st = e /\ m' = m
    | Ok x => st = StatusCode.ok /\ exists d', summary d' = x /\ updated c m index f d' m'
    end.
Proof.
  intros Hok Hb. pose proof (state_spec _ c m index Hok) as Hs. unfold apply, mark_uptodate, mark_dirty, mark_clean, pin, unpin, page. rewrite Hb.
  destruct (state c m index) as [[f d] |]; [| destruct o; by left].
  pose proof (cached_dirty c m index f d Hok Hs) as Hdu.
  assert (forall d', PageDescriptor.generation d' = PageDescriptor.generation d -> PageDescriptor.kind d' = PageDescriptor.kind d ->
    (has dirty_flag d' = true -> has uptodate_flag d' = true) -> updated c m index f d' (write m f d')) as Hup by (intros d'; by apply page_updated).
  destruct o; cbv beta iota; try (match goal with |- context [if ?b then _ else _] => destruct b eqn:Eb end; cbv beta iota); right; exists f, d; (split; [done |]); unfold summary, page_step.
  - split; [done |]. eexists. split; [| apply Hup; try done]; [rewrite !has_set by done; cbn; by rewrite orb_true_r, orb_false_r |].
    intros _. rewrite has_set by done. apply orb_true_r.
  - apply negb_true_iff in Eb. by rewrite Eb.
  - apply negb_false_iff in Eb. rewrite Eb. split; [done |]. eexists. split; [| apply Hup; try done]; [rewrite !has_set, Eb by done; cbn; by rewrite orb_true_r |].
    intros _. by rewrite has_set, Eb by done.
  - split; [done |]. eexists. split; [| apply Hup; try done]; [rewrite !has_clear; cbn; by rewrite Z.land_0_r |]. rewrite !has_clear. cbn. by rewrite Z.land_0_r.
  - by rewrite Eb.
  - rewrite Eb. split; [done |]. eexists. split; [| apply Hup; try done]; done.
  - by rewrite Eb.
  - rewrite Eb. split; [done |]. eexists. split; [| apply Hup; try done]; done.
Qed.

(** C20: obtain() returns the cached page unchanged, or adds one: a frame nobody
    else uses, zeroed, neither uptodate nor dirty nor pinned, with every other
    page of the cache and every frame of the rest of the kernel as before; or
    it refuses and the cache holds what it held.  Growing the index never
    loses a page.  The frame generation sequence is not exhausted. *)
Theorem cache_obtain_spec c m index ctx : ok c m -> bound_ c = true -> next_generation_ (frames m) <> 0 ->
  exists c' m' r, obtain sizeof_Entry c m index ctx = Some (c', m', r) /\ ok c' m' /\ others_kept (Machine.world m) (Machine.world m') /\
    ((exists f d, cached c m index f d /\ r = Ok f /\ c' = c /\ m' = m) \/
     (forall f d, ~ cached c m index f d) /\
     match r with
     | Ok f => exists d, (forall i g e, cached c' m' i g e <-> cached c m i g e \/ (i = index /\ g = f /\ e = d)) /\
         summary d = (false, false, 0) /\ ~ foreign (Machine.world m) (PhysicalFrame.index f) /\
         (forall p, PhysicalFrame.address f <= p < PhysicalFrame.address f + slab_page_size -> World.ram (Machine.world m') p = 0) /\
         ChargeAccount.used (Machine.pages m') = ChargeAccount.used (Machine.pages m) + 1
     | Err e => e <> StatusCode.ok /\ (forall i g d, cached c' m' i g d <-> cached c m i g d) /\
         ChargeAccount.used (Machine.pages m') = ChargeAccount.used (Machine.pages m)
     end).
Proof.
  intros Hok Hb Hng. destruct (obtain_cases sizeof_Entry Hentry c m index ctx Hok Hb Hng) as (c' & m' & r & E & Hok' & _ & Hoth & Hr).
  exists c', m', r. split_and!; try done. destruct Hr as [? | [Hno Ho]]; [by left | right]. split; [done |]. destruct r as [f | e]; [| done].
  destruct Ho as (d & Hc & (Hf & Hp & Hz) & Hfor & Hu). exists d. split_and!; try done. unfold summary, has. by rewrite Hf, Hp.
Qed.

(** Next_dirty() finds the first dirty page at or after the offset, so that
    a write-back walk misses none. *)
Theorem cache_next_dirty_spec c m from : ok c m -> bound_ c = true ->
  match next_dirty c m from with
  | Ok i => from <= i /\ (exists f d, cached c m i f d /\ has dirty_flag d = true) /\
      forall j f d, cached c m j f d -> from <= j < i -> has dirty_flag d = false
  | Err e => e = StatusCode.not_found /\ forall j f d, cached c m j f d -> from <= j -> has dirty_flag d = false
  end.
Proof.
  intros Hok Hb. unfold next_dirty. rewrite Hb. cbn [negb]. destruct (position_spec _ c m from Hok) as (Hp & Hlo & Hhi). set (p := position c from) in *.
  pose proof (dirty_from_spec sizeof_Entry (Z.to_nat (count_ c - p)) c m p Hok ltac:(lia) ltac:(lia)) as Hd.
  assert (forall k j f, 0 <= k < count_ c -> (index_ c).[k] = Entry.mk j f -> from <= j -> p <= k) as Hpos.
  { intros k j f Hk Ek Hj. destruct (Z.lt_ge_cases k p) as [Hlt |]; [| done]. specialize (Hlo k ltac:(lia)). rewrite Ek in Hlo. cbn in Hlo. lia. }
  destruct (dirty_from _ _ _ _) as [i | e].
  - destruct Hd as (k & Hk & -> & Hd & Hno). split_and!; [apply Hhi; lia | eexists _, _; split; [apply entry_cached; lia | done] |].
    intros j f d (k' & Hk' & Ek' & ->) Hj. assert (f = frame_at c k') as -> by (unfold frame_at; by rewrite Ek').
    apply Hno. split; [apply (Hpos k' j (frame_at c k')); [done | done | lia] |]. destruct (Z.lt_ge_cases k' k) as [| Hge]; [done |].
    destruct (Z.eq_dec k' k) as [-> |]; [rewrite Ek' in Hj; cbn in Hj; lia |]. pose proof (ok_sorted _ c m Hok k k' ltac:(lia) ltac:(lia)) as Hs. rewrite Ek' in Hs. cbn in Hs. lia.
  - destruct Hd as [-> Hno]. split; [done |]. intros j f d (k & Hk & Ek & ->) Hj. assert (f = frame_at c k) as -> by (unfold frame_at; by rewrite Ek).
    apply Hno. split; [by eapply Hpos | lia].
Qed.

(** evict_clean() releases exactly the pages that are neither pinned nor
    dirty and says how many; their frames are free again and uncharged. *)
Theorem cache_evict_spec c m : ok c m -> bound_ c = true ->
  exists c' m', evict_clean c m = (c', m', Ok (count_ c - count_ c')) /\ ok c' m' /\ dropped c m c' m' /\
    forall i f d, cached c' m' i f d <-> cached c m i f d /\ (PageDescriptor.pins d <> 0 \/ has dirty_flag d = true).
Proof.
  intros Hok Hb. unfold evict_clean. rewrite Hb. cbn [negb]. pose proof (ok_count _ c m Hok).
  destruct (evict_loop_spec sizeof_Entry (Z.to_nat (count_ c)) c m 0 Hok ltac:(lia)) as (c' & m' & -> & Hok' & Hdr & Hc).
  exists c', m'. split_and!; try done. intros i f d. rewrite Hc.
  assert (kept (Some d) = true <-> PageDescriptor.pins d <> 0 \/ has dirty_flag d = true) as <-
    by (cbn; rewrite orb_true_iff, negb_true_iff, Z.eqb_neq; done).
  split; [intros (k & Hk & Ek & -> & Hor); split; [by exists k |]; destruct Hor; [lia | done] | intros [(k & Hk & Ek & ->) Hkept]; exists k; by auto].
Qed.

(** Truncate() refuses, changing nothing, while a page at or past [first]
    is pinned; otherwise it drops exactly those pages. *)
Theorem cache_truncate_spec c m first : ok c m -> bound_ c = true ->
  ((exists i f d, cached c m i f d /\ first <= i /\ PageDescriptor.pins d <> 0) /\ truncate c m first = (c, m, StatusCode.busy)) \/
  ((forall i f d, cached c m i f d -> first <= i -> PageDescriptor.pins d = 0) /\
   exists c' m', truncate c m first = (c', m', StatusCode.ok) /\ ok c' m' /\ dropped c m c' m' /\
     forall i f d, cached c' m' i f d <-> cached c m i f d /\ i < first).
Proof.
  intros Hok Hb. unfold truncate. rewrite Hb. cbn [negb]. destruct (position_spec _ c m first Hok) as (Hp & Hlo & Hhi). set (p := position c first) in *.
  destruct (any_from _ _ _ _ _) eqn:Ea.
  - left. split; [| done]. apply any_from_spec in Ea as (k & Hk & Ht). assert (0 <= k < count_ c) as Hkr by lia. rewrite (descriptor_at_spec _ c m k Hok Hkr) in Ht. cbn in Ht. b2p.
    eexists _, _, _. split; [by apply entry_cached |]. split; [apply Hhi; lia | done].
  - right. split; [| apply drop_from_spec; [done | lia]]. intros i f d (k & Hk & Ek & ->) Hi. assert (f = frame_at c k) as -> by (unfold frame_at; by rewrite Ek).
    destruct (Z.eq_dec (PageDescriptor.pins (desc (frames m) (PhysicalFrame.index (frame_at c k)))) 0) as [| Hne]; [done | exfalso]. apply not_true_iff_false in Ea. apply Ea.
    apply any_from_spec. exists k. rewrite (descriptor_at_spec _ c m k Hok Hk). split; [| cbn; apply negb_true_iff; lia].
    destruct (Z.lt_ge_cases k p) as [Hlt |]; [| lia]. specialize (Hlo k ltac:(lia)). rewrite Ek in Hlo. cbn in Hlo. lia.
Qed.

(** An empty cache without an array. *)
Lemma ok_emptied c m c' : ok c m -> count_ c = 0 -> c' = FilePageCache.mk (bound_ c) (objects_ c) 0 [] (count_ c) 0 -> ok c' m.
Proof.
  intros Hok Hc ->. eapply (ok_array_moved sizeof_Entry c m); try done; cbn; rewrite ?Hc; try done; try lia; pose proof usize_max_pos; first [lia | apply (ok_objects _ c m Hok) | by left].
Qed.

(** clear() of a cache whose pages were dropped releases the array. *)
Lemma release_array c m : ok c m -> bound_ c = true -> count_ c = 0 -> 0 < capacity_ c ->
  exists s w owner, SlabAllocator.release (Machine.slab m) (Machine.world m) (entries_ c) (usize_wrap (capacity_ c * sizeof_Entry)) (objects_ c) = Some (s, w, owner, StatusCode.ok) /\
    ok (FilePageCache.mk (bound_ c) owner 0 [] (count_ c) 0) (Machine.mk s w (Machine.pages m)) /\
    ChargeAccount.used owner = ChargeAccount.used (objects_ c) - array_charge sizeof_Entry c /\ objects_removed (Machine.world m) w (entries_ c).
Proof.
  intros Hok Hb Hc Hcap. pose proof (ok_bytes _ c m Hok) as Hby. destruct (ok_array _ c m Hok) as [[? _] | (_ & Hr & Hobj & Hch)]; [lia |]. rewrite usize_wrap_small by nia.
  destruct (release_contract (Machine.slab m) (Machine.world m) (entries_ c) (capacity_ c * sizeof_Entry) (objects_ c) (ok_wf _ c m Hok) (ok_objects _ c m Hok) ltac:(lia) ltac:(nia))
    as (s & w & owner & st & -> & Hrel).
  destruct Hrel as [(-> & _ & Hwf & Hset & Hrm & Hoth & _ & Hown & Hu) | (_ & Hno & _)].
  2: { exfalso. apply Hno. split_and!; [by apply (ok_slab _ c m Hok) | nia | done | done]. }
  exists s, w, owner. split_and!; try done. set (c1 := FilePageCache.mk (bound_ c) (objects_ c) 0 [] (count_ c) 0).
  pose proof (ok_emptied c m c1 Hok Hc eq_refl) as Hok1.
  destruct (ok_others _ c1 m (Machine.mk s w (Machine.pages m)) Hok1 Hwf Hset Hoth eq_refl) as [Hok2 _]; [cbn; lia |].
  eapply (ok_array_moved sizeof_Entry c1); try done; cbn; rewrite ?Hc; try done; try lia; pose proof usize_max_pos; first [lia | by left].
Qed.

(** Clear() refuses, changing nothing, while a page is pinned or dirty;
    otherwise it releases every page and the index, so that the cache is empty,
    its frames and its bytes are uncharged, and the other kernel objects stay. *)
Theorem cache_clear_spec c m : ok c m -> bound_ c = true ->
  ((exists i f d, cached c m i f d /\ (PageDescriptor.pins d <> 0 \/ has dirty_flag d = true)) /\ clear sizeof_Entry c m = Some (c, m, StatusCode.busy)) \/
  ((forall i f d, cached c m i f d -> PageDescriptor.pins d = 0 /\ has dirty_flag d = false) /\
   exists c' m', clear sizeof_Entry c m = Some (c', m', StatusCode.ok) /\ ok c' m' /\ count_ c' = 0 /\ capacity_ c' = 0 /\ entries_ c' = 0 /\
     ChargeAccount.used (Machine.pages m') = ChargeAccount.used (Machine.pages m) - count_ c /\
     ChargeAccount.used (objects_ c') = ChargeAccount.used (objects_ c) - (if capacity_ c =? 0 then 0 else array_charge sizeof_Entry c) /\
     forall y b, object (Machine.world m') y b <-> object (Machine.world m) y b /\ y <> entries_ c).
Proof.
  intros Hok Hb. unfold clear. rewrite Hb. cbn [negb]. pose proof (ok_count _ c m Hok) as Hcnt. destruct (any_from _ _ _ _ _) eqn:Ea.
  - left. split; [| done]. apply any_from_spec in Ea as (k & Hk & Ht). assert (0 <= k < count_ c) as Hkr by lia. rewrite (descriptor_at_spec _ c m k Hok Hkr) in Ht. cbn in Ht.
    eexists _, _, _. split; [by apply entry_cached |]. apply orb_true_iff in Ht as [? | ?]; [left; b2p | right]; done.
  - right. split.
    + intros i f d (k & Hk & Ek & ->). assert (f = frame_at c k) as -> by (unfold frame_at; by rewrite Ek).
      apply not_true_iff_false in Ea. rewrite any_from_spec in Ea. destruct (kept (descriptor_at c m k)) eqn:Ekept; [exfalso; apply Ea; exists k; split; [lia | done] |].
      rewrite (descriptor_at_spec _ c m k Hok Hk) in Ekept. cbn in Ekept. apply orb_false_iff in Ekept as [? ?]. b2p. done.
    + destruct (drop_all_spec sizeof_Entry (Z.to_nat (count_ c)) c m Hok ltac:(lia)) as (c1 & m1 & -> & Hok1 & Hdr & Hc1). cbn [status_ok negb].
      destruct Hdr as (E1 & E2 & E3 & E4 & _ & E5 & Hos & _ & E6 & _). rewrite <- E2, <- E3, <- E4. destruct (Z.eqb_spec (entries_ c1) 0) as [E0 | Hne].
      * destruct (ok_array _ c1 m1 Hok1) as [[Ecap _] | (_ & ? & _)]; [| lia]. exists c1, m1. rewrite Ecap, Z.sub_0_r. split_and!; try done; [lia |]. intros y b. rewrite (Hos y b), E0.
        split; [intros Ho; split; [done |]; destruct (object_positive _ _ _ _ (ok_wf _ c m Hok) Ho); lia | by intros [? _]].
      * destruct (ok_array _ c1 m1 Hok1) as [[_ ?] | (Hcap & _)]; [done |]. destruct (release_array c1 m1 Hok1 ltac:(congruence) Hc1 Hcap) as (s & w & owner & -> & Hok2 & Hu & Hrm).
        cbn [mbind option_bind status_ok negb]. eexists _, _. split; [reflexivity |]. replace (capacity_ c1 =? 0) with false by lia. split_and!; try done; [cbn; lia | unfold array_charge in *; by rewrite <- E3 |].
        intros y b. cbn. pose proof (Hrm y b) as E. rewrite E, (Hos y b). done.
Qed.

(** bind() starts an empty cache over initialized allocators. *)
Lemma bind_ok m : SlabInv.wf (Machine.slab m) (Machine.world m) -> ChargeAccount.wf (Machine.pages m) ->
  let '(c, st) := bind FilePageCache.new m in
  (st = StatusCode.ok <-> SlabAllocator.frames_ (Machine.slab m) = true) /\
  (st = StatusCode.ok -> ok c m /\ bound_ c = true /\ forall i f d, ~ cached c m i f d).
Proof.
  intros Hwf Hp. unfold bind. cbn [bound_ FilePageCache.new]. unfold SlabAllocator.initialized, page_size. pose proof (wf_page_size _ _ Hwf) as Hps. fold (frames m) in Hps. rewrite Hps.
  destruct (SlabAllocator.frames_ (Machine.slab m)) eqn:Ef; cbn; [| done]. split; [done |]. intros _. split_and!; [| done | intros i f d (k & Hk & _); cbn in Hk; lia].
  pose proof usize_max_pos. split; cbn; try done; try lia; first [by apply used_nonneg | by left | intros ? ? ? ?; lia | split_and!; cbn; try done; lia].
Qed.

(** accounting() counts the pages in each state. *)
Lemma accounting_counts c m : ok c m -> bound_ c = true ->
  let d i := desc (frames m) (PhysicalFrame.index (frame_at c i)) in
  let counts (p : PageDescriptor.t -> bool) := zsum (fun i => if p (d i) then 1 else 0) (indices (count_ c)) in
  accounting c m = mk_accounting (count_ c) (counts (has uptodate_flag)) (counts (has dirty_flag)) (counts (fun d => negb (PageDescriptor.pins d =? 0))) (capacity_ c).
Proof.
  intros Hok Hb d counts. unfold accounting. rewrite Hb. pose proof (ok_count _ c m Hok) as Hcnt.
  assert (forall n at_ r, 0 <= at_ -> at_ + Z.of_nat n = count_ c ->
    accounting_from n c m at_ r = mk_accounting (pages r)
      (uptodate r + zsum (fun i => if has uptodate_flag (d i) then 1 else 0) (seqZ at_ (Z.of_nat n)))
      (dirty r + zsum (fun i => if has dirty_flag (d i) then 1 else 0) (seqZ at_ (Z.of_nat n)))
      (pinned r + zsum (fun i => if negb (PageDescriptor.pins (d i) =? 0) then 1 else 0) (seqZ at_ (Z.of_nat n))) (index_capacity r)) as Hfrom.
  { induction n as [| n IH]; intros at_ r Hat Hn; cbn [accounting_from]; [destruct r; cbn; by rewrite !Z.add_0_r |].
    rewrite (descriptor_at_spec _ c m at_ Hok) by lia. fold (d at_). rewrite IH by lia. cbn [pages uptodate dirty pinned index_capacity].
    rewrite (seqZ_cons at_) by lia. rewrite !zsum_cons. replace (Z.pred (Z.of_nat (S n))) with (Z.of_nat n) by lia. change (Z.succ at_) with (at_ + 1).
    destruct (PageDescriptor.pins (d at_) =? 0); cbn [negb]; f_equal; lia. }
  rewrite Hfrom by lia. cbn [pages uptodate dirty pinned index_capacity]. rewrite Z2Nat.id by lia. done.
Qed.
End Claims.

(** ** Witnesses *)
Section CacheWitnesses.
#[local] Existing Instance arch64.
Import FrameAllocator.

(** sizeof(Entry) on a 64-bit machine. *)
Definition entry_bytes : Z := 40.
Lemma entry_bytes_ok : 28 <= entry_bytes <= 64.
Proof. by vm_compute. Qed.

Definition sample_machine : Machine.t := Machine.mk sample_slab sample_world (ChargeAccount.new 0).
Definition sample_cache : FilePageCache.t := fst (bind FilePageCache.new sample_machine).

Lemma sample_cache_ok : PageCacheInv.ok entry_bytes sample_cache sample_machine /\ bound_ sample_cache = true.
Proof.
  pose proof (bind_ok entry_bytes sample_machine (proj1 sample_slab_wf) sample_owner_wf) as Hb. unfold sample_cache.
  destruct (bind FilePageCache.new sample_machine) as [c st]. destruct Hb as [Hst Hok]. destruct (Hok (proj2 Hst (proj1 (proj2 sample_slab_wf)))) as (? & ? & _). by split.
Qed.

(** The cache after page 7 was read. *)
Definition one_page : FilePageCache.t * Machine.t :=
  match obtain entry_bytes sample_cache sample_machine 7 AllocationContext.kernel with Some (c, m, _) => (c, m) | None => (sample_cache, sample_machine) end.

Lemma one_page_ok : PageCacheInv.ok entry_bytes (fst one_page) (snd one_page) /\ bound_ (fst one_page) = true.
Proof.
  destruct (obtain_cases entry_bytes entry_bytes_ok sample_cache sample_machine 7 AllocationContext.kernel (proj1 sample_cache_ok) (proj2 sample_cache_ok) ltac:(discriminate))
    as (c & m & r & E & Hok & Hb & _). unfold one_page. rewrite E. exact (conj Hok Hb).
Qed.

Lemma cache_obtain_witness :
  exists c' m' f, obtain entry_bytes sample_cache sample_machine 7 AllocationContext.kernel = Some (c', m', Ok f) /\ PageCacheInv.ok entry_bytes c' m'.
Proof.
  destruct (cache_obtain_spec entry_bytes entry_bytes_ok sample_cache sample_machine 7 AllocationContext.kernel (proj1 sample_cache_ok) (proj2 sample_cache_ok) ltac:(discriminate))
    as (c' & m' & r & E & Hok & _). destruct r as [f | e].
  - exists c', m', f. exact (conj E Hok).
  - exfalso. apply (f_equal (option_map (fun x => result_ok (snd x)))) in E. vm_compute in E. discriminate E.
Defined.

Lemma cache_states_witness :
  map (fun o => snd (apply o (fst one_page) (snd one_page) 7)) [MarkUptodate; MarkDirty; MarkClean; Pin; Unpin] =
    [StatusCode.ok; StatusCode.invalid_argument; StatusCode.ok; StatusCode.ok; StatusCode.invalid_argument] /\
  let '(m', st) := apply Pin (fst one_page) (snd one_page) 7 in
  exists f d, cached (fst one_page) (snd one_page) 7 f d /\
    match page_step Pin (summary d) with
    | Err e => st = e /\ m' = snd one_page
    | Ok x => st = StatusCode.ok /\ exists d', summary d' = x /\ updated entry_bytes (fst one_page) (snd one_page) 7 f d' m'
    end.
Proof.
  split; [vm_compute; reflexivity |].
  pose proof (cache_page_states entry_bytes Pin (fst one_page) (snd one_page) 7 (proj1 one_page_ok) (proj2 one_page_ok)) as Hs.
  assert (snd (apply Pin (fst one_page) (snd one_page) 7) = StatusCode.ok) as E by (vm_compute; reflexivity).
  destruct (apply Pin (fst one_page) (snd one_page) 7) as [m' st]. cbn [snd] in E. destruct Hs as [(_ & E' & _) | Hs]; [congruence | exact Hs].
Defined.

Lemma cache_next_dirty_witness : next_dirty (fst one_page) (snd one_page) 0 = Err StatusCode.not_found /\
  forall j f d, cached (fst one_page) (snd one_page) j f d -> 0 <= j -> has dirty_flag d = false.
Proof.
  pose proof (cache_next_dirty_spec entry_bytes (fst one_page) (snd one_page) 0 (proj1 one_page_ok) (proj2 one_page_ok)) as Hn.
  assert (next_dirty (fst one_page) (snd one_page) 0 = Err StatusCode.not_found) as E by (vm_compute; reflexivity).
  rewrite E in Hn. split; [exact E | apply Hn].
Defined.

Lemma cache_evict_witness : exists c' m', evict_clean (fst one_page) (snd one_page) = (c', m', Ok (count_ (fst one_page) - count_ c')) /\ PageCacheInv.ok entry_bytes c' m'.
Proof.
  destruct (cache_evict_spec entry_bytes (fst one_page) (snd one_page) (proj1 one_page_ok) (proj2 one_page_ok)) as (c' & m' & E & Hok & _).
  exists c', m'. exact (conj E Hok).
Defined.

Lemma cache_truncate_witness : snd (truncate (fst one_page) (snd one_page) 5) = StatusCode.ok.
Proof.
  destruct (cache_truncate_spec entry_bytes (fst one_page) (snd one_page) 5 (proj1 one_page_ok) (proj2 one_page_ok)) as [[_ E] | (_ & c' & m' & E & _)].
  - apply (f_equal snd) in E. vm_compute in E. discriminate E.
  - rewrite E. reflexivity.
Defined.

Lemma cache_clear_witness : option_map snd (clear entry_bytes (fst one_page) (snd one_page)) = Some StatusCode.ok.
Proof.
  destruct (cache_clear_spec entry_bytes entry_bytes_ok (fst one_page) (snd one_page) (proj1 one_page_ok) (proj2 one_page_ok)) as [[_ E] | (_ & c' & m' & E & _)].
  - apply (f_equal (option_map snd)) in E. vm_compute in E. discriminate E.
  - rewrite E. reflexivity.
Defined.
End CacheWitnesses.
