(* ===== verification/Epoch.v ===== *)
(** * Epoch time (include/ok/time/epoch.hpp, rtc.hpp, public_clock.hpp)

    Calendar conversion, epoch arithmetic, the one-time epoch anchor, and the
    readers of the clock devices.  The theorems show that the calendar counts
    seconds without gap or overlap, that elapsed time is added exactly, and
    what a device must do for its reading to be accepted. *)

From S2P Require Import Prelude.

Definition nanoseconds_per_second : Z := 1000000000.
Definition i64_max : Z := 2 ^ 63 - 1.
Definition i64_min : Z := - 2 ^ 63.

(** [static_cast<i64>] of a [u64]. *)
Definition to_i64 (x : Z) : Z := if x <=? i64_max then x else x - 2 ^ 64.

(** Linear arithmetic with division by constants. *)
Ltac dlia := Z.to_euclidean_division_equations; lia.

Module EpochTime.
Record t := mk { seconds : Z; nanoseconds : Z }.
#[global] Instance t_eq_dec : EqDecision t.
Proof. solve_decision. Defined.
#[global] Instance t_inhabited : Inhabited t := populate (mk 0 0).
End EpochTime.

Module Calendar.
Record t := mk { year : Z; month : Z; day : Z; hour : Z; minute : Z; second : Z }.
End Calendar.

Definition leap_year (year : Z) : bool :=
  (year mod 4 =? 0) && (negb (year mod 100 =? 0) || (year mod 400 =? 0)).

(** The table [lengths] of calendar_epoch(), and a month of a year. *)
Definition lengths : list Z := [31; 28; 31; 30; 31; 30; 31; 31; 30; 31; 30; 31].
Definition month_days (year month : Z) : Z :=
  lengths.[month - 1] + (if (month =? 2) && leap_year year then 1 else 0).

(** [for (month = 1; month < value.month; ++month)], from [month] on. *)
Fixpoint add_months (n : nat) (year month days : Z) : Z :=
  match n with
  | O => days
  | S n' => add_months n' year (month + 1) (days + month_days year month)
  end.

Definition calendar_epoch (value : Calendar.t) : result EpochTime.t :=
  let '(Calendar.mk year month day hour minute second) := value in
  if (year =? 0) || (9999 <? year) || (month =? 0) || (12 <? month) ||
     (day =? 0) || (23 <? hour) || (59 <? minute) || (59 <? second)
  then Err StatusCode.invalid_argument
  else
    let last_day := month_days year month in
    if last_day <? day then Err StatusCode.invalid_argument
    else
      let years := year - 1 in
      let days := years * 365 + years / 4 - years / 100 + years / 400 in
      let days := add_months (Z.to_nat (month - 1)) year 1 days in
      let days := days + (day - 1) in
      let days := days - 719162 in
      Ok (EpochTime.mk (days * 86400 + hour * 3600 + minute * 60 + second) 0).

Definition add_elapsed (epoch : EpochTime.t) (elapsed_ns : Z) : result EpochTime.t :=
  if nanoseconds_per_second <=? EpochTime.nanoseconds epoch then Err StatusCode.invalid_argument
  else
    let fraction := u64_wrap (EpochTime.nanoseconds epoch + elapsed_ns mod nanoseconds_per_second) in
    let seconds := to_i64 (u64_wrap (elapsed_ns / nanoseconds_per_second + fraction / nanoseconds_per_second)) in
    let maximum := i64_max in
    if maximum - seconds <? EpochTime.seconds epoch then Err StatusCode.overflow
    else Ok (EpochTime.mk (EpochTime.seconds epoch + seconds) (u32_wrap (fraction mod nanoseconds_per_second))).

Module MonotonicPoint.
Record t := mk { nanoseconds : Z; generation : Z }.
End MonotonicPoint.

Module EpochSource.
Inductive t : Set := unavailable | pl031 | goldfish | ls7a.
#[global] Instance t_eq_dec : EqDecision t.
Proof. solve_decision. Defined.
End EpochSource.

Module AnchorState.
Inductive t : Set := uninitialized | unavailable | ready | invalidated.
#[global] Instance t_eq_dec : EqDecision t.
Proof. solve_decision. Defined.
End AnchorState.

Module Accuracy.
Inductive t : Set := unknown.
End Accuracy.

Module EpochReading.
Record t := mk { time : EpochTime.t; source : EpochSource.t; resolution_ns : Z }.
End EpochReading.

Module AnchorInfo.
Record t := mk {
  state : AnchorState.t; source : EpochSource.t; source_resolution_ns : Z;
  acquisition_span_ns : Z; monotonic_generation : Z; accuracy : Accuracy.t
}.
Definition new : t := mk AnchorState.uninitialized EpochSource.unavailable 0 0 0 Accuracy.unknown.
Definition with_state (i : t) (s : AnchorState.t) : t :=
  mk s (source i) (source_resolution_ns i) (acquisition_span_ns i) (monotonic_generation i) (accuracy i).
End AnchorInfo.

(** A value of the enumeration outside its four names cannot be formed here,
    so the comparison with the last name in initialize() is always false. *)
Module EpochAnchor.
Record t := mk { info_ : AnchorInfo.t; epoch_ : EpochTime.t; anchor_ns_ : Z; last_ns_ : Z; failure_ : Status }.
Definition new : t := mk AnchorInfo.new (EpochTime.mk 0 0) 0 0 StatusCode.not_initialized.
Definition maximum_acquisition_ns : Z := 100000000.

Definition state (a : t) : AnchorState.t := AnchorInfo.state (info_ a).
Definition fail (a : t) (s : AnchorState.t) (failure : Status) : t :=
  mk (AnchorInfo.with_state (info_ a) s) (epoch_ a) (anchor_ns_ a) (last_ns_ a) failure.

Definition status (a : t) : Status :=
  if decide (state a = AnchorState.uninitialized) then StatusCode.not_initialized
  else if decide (state a = AnchorState.ready) then StatusCode.ok else failure_ a.

Definition reject (a : t) (reason : Status) : t * Status :=
  if decide (state a <> AnchorState.uninitialized) then (a, status a)
  else
    let failure := if status_ok reason then StatusCode.invalid_argument else reason in
    (fail a AnchorState.unavailable failure, failure).

Definition initialize (a : t) (reading : EpochReading.t) (before after : MonotonicPoint.t) : t * Status :=
  if decide (state a <> AnchorState.uninitialized) then (a, status a)
  else if (nanoseconds_per_second <=? EpochTime.nanoseconds (EpochReading.time reading)) ||
          bool_decide (EpochReading.source reading = EpochSource.unavailable) ||
          (EpochReading.resolution_ns reading =? 0) || (nanoseconds_per_second <? EpochReading.resolution_ns reading) ||
          (MonotonicPoint.generation before =? 0) ||
          negb (MonotonicPoint.generation before =? MonotonicPoint.generation after) ||
          (MonotonicPoint.nanoseconds after <? MonotonicPoint.nanoseconds before)
  then reject a StatusCode.invalid_argument
  else
    let span := MonotonicPoint.nanoseconds after - MonotonicPoint.nanoseconds before in
    if maximum_acquisition_ns <? span then reject a StatusCode.io_error
    else
      (mk (AnchorInfo.mk AnchorState.ready (EpochReading.source reading) (EpochReading.resolution_ns reading)
                         span (MonotonicPoint.generation after) Accuracy.unknown)
          (EpochReading.time reading) (MonotonicPoint.nanoseconds after) (MonotonicPoint.nanoseconds after) (failure_ a),
       StatusCode.ok).

Definition invalidate (a : t) (reason : Status) : t * Status :=
  let a :=
    if decide (state a = AnchorState.ready)
    then fail a AnchorState.invalidated (if status_ok reason then StatusCode.io_error else reason)
    else a in
  (a, status a).

Definition read (a : t) (point : MonotonicPoint.t) : t * result EpochTime.t :=
  if decide (state a <> AnchorState.ready) then (a, Err (status a))
  else if negb (MonotonicPoint.generation point =? AnchorInfo.monotonic_generation (info_ a)) ||
          (MonotonicPoint.nanoseconds point <? last_ns_ a)
  then let '(a, s) := invalidate a StatusCode.io_error in (a, Err s)
  else
    match add_elapsed (epoch_ a) (u64_wrap (MonotonicPoint.nanoseconds point - anchor_ns_ a)) with
    | Err e => let '(a, s) := invalidate a e in (a, Err s)
    | Ok r => (mk (info_ a) (epoch_ a) (anchor_ns_ a) (MonotonicPoint.nanoseconds point) (failure_ a), Ok r)
    end.

Definition info (a : t) : AnchorInfo.t := info_ a.
End EpochAnchor.

(** ** Clock devices

    A read of a device register may change the device: the bus is a state. *)
Class RtcReadBus (B : Type) := bus_read : B -> Z -> B * Z.

Section Rtc.
Context {B : Type} `{RtcReadBus B}.

Definition pl031_identity : list Z := [0x31; 0x10; 0x04; 0x00; 0x0d; 0xf0; 0x05; 0xb1].

(** [for (index = 0; index < 8; ++index)]: whether every register matches. *)
Fixpoint pl031_matches (n : nat) (bus : B) (index : Z) : B * bool :=
  match n with
  | O => (bus, true)
  | S n' =>
      let '(bus, v) := bus_read bus (0xfe0 + 4 * index) in
      if negb (Z.land v (if index =? 2 then 0x0f else u32_max) =? pl031_identity.[index]) then (bus, false)
      else pl031_matches n' bus (index + 1)
  end.

Definition read_pl031 (bus : B) : B * result EpochReading.t :=
  let '(bus, matches) := pl031_matches 8 bus 0 in
  if negb matches then (bus, Err StatusCode.unsupported)
  else
    let '(bus, control) := bus_read bus 0x0c in
    if Z.land control 1 =? 0 then (bus, Err StatusCode.io_error)
    else
      let '(bus, seconds) := bus_read bus 0 in
      let '(bus, control) := bus_read bus 0x0c in
      if Z.land control 1 =? 0 then (bus, Err StatusCode.io_error)
      else (bus, Ok (EpochReading.mk (EpochTime.mk seconds 0) EpochSource.pl031 nanoseconds_per_second)).

Definition read_goldfish (bus : B) : B * result EpochReading.t :=
  let '(bus, low) := bus_read bus 0 in
  let '(bus, high) := bus_read bus 4 in
  let value := Z.lor (u64_wrap (Z.shiftl high 32)) low in
  (bus, Ok (EpochReading.mk (EpochTime.mk (to_i64 (value / nanoseconds_per_second)) (u32_wrap (value mod nanoseconds_per_second)))
                            EpochSource.goldfish 1)).

Definition ls7a_enabled : Z := Z.lor (Z.shiftl 1 11) (Z.shiftl 1 8).

(** The fields of the two calendar registers. *)
Definition ls7a_calendar (year calendar : Z) : Calendar.t :=
  Calendar.mk (u32_wrap (year + 1900)) (Z.shiftr calendar 26) (Z.land (Z.shiftr calendar 21) 31)
    (Z.land (Z.shiftr calendar 16) 31) (Z.land (Z.shiftr calendar 10) 63) (Z.land (Z.shiftr calendar 4) 63).

(** [for (attempt = 0; attempt < 64; ++attempt)] *)
Fixpoint ls7a_attempts (n : nat) (bus : B) : B * result EpochReading.t :=
  match n with
  | O => (bus, Err StatusCode.io_error)
  | S n' =>
      let '(bus, year) := bus_read bus 0x30 in
      let '(bus, calendar) := bus_read bus 0x2c in
      let calendar := Z.land calendar (u32_max - 15) in
      let '(bus, checked_year) := bus_read bus 0x30 in
      let '(bus, checked_calendar) := bus_read bus 0x2c in
      let checked_calendar := Z.land checked_calendar (u32_max - 15) in
      if negb (year =? checked_year) || negb (calendar =? checked_calendar) then ls7a_attempts n' bus
      else
        let '(bus, control) := bus_read bus 0x40 in
        if negb (Z.land control ls7a_enabled =? ls7a_enabled) then (bus, Err StatusCode.io_error)
        else if 8099 <? year then (bus, Err StatusCode.overflow)
        else
          match calendar_epoch (ls7a_calendar year calendar) with
          | Err e => (bus, Err e)
          | Ok epoch => (bus, Ok (EpochReading.mk epoch EpochSource.ls7a nanoseconds_per_second))
          end
  end.

Definition read_ls7a (bus : B) : B * result EpochReading.t :=
  let '(bus, control) := bus_read bus 0x40 in
  if negb (Z.land control ls7a_enabled =? ls7a_enabled) then (bus, Err StatusCode.unsupported)
  else ls7a_attempts 64 bus.
End Rtc.

(** The public clock; the readings of the processor's clocks are arguments. *)
Definition split_ns (value : Z) : EpochTime.t :=
  EpochTime.mk (to_i64 (value / nanoseconds_per_second)) (u32_wrap (value mod nanoseconds_per_second)).
Definition public_clock (realtime : result EpochTime.t) (monotonic : result Z) (clock_resolution_ns identity : Z)
    (resolution : bool) : result EpochTime.t :=
  if 1 <? identity then Err StatusCode.invalid_argument
  else
    let value :=
      if identity =? 0 then
        match realtime with Err _ => Err StatusCode.io_error | Ok current => Ok current end
      else
        match monotonic with Err _ => Err StatusCode.io_error | Ok current => Ok (split_ns current) end in
    match value with
    | Err e => Err e
    | Ok value =>
        if resolution then
          let step := clock_resolution_ns in
          if step =? 0 then Err StatusCode.io_error else Ok (split_ns step)
        else Ok value
    end.

Definition native_time_seconds (word_bytes : Z) (value : EpochTime.t) : result Z :=
  let seconds := EpochTime.seconds value in
  if (word_bytes =? 4) && ((seconds <? -2147483648) || (2147483647 <? seconds)) then Err StatusCode.overflow
  else if (seconds <? 0) && (-4095 <=? seconds) then Err StatusCode.overflow
  else Ok seconds.

(** ** The calendar counts seconds *)

(** The proleptic Gregorian calendar, written down without the code: leap
    years, the lengths of the months, the dates with a time of day, and the
    second that follows another. *)
Definition leap (year : Z) : Prop := (4 | year) /\ (~ (100 | year) \/ (400 | year)).

Inductive has_days (year : Z) : Z -> Z -> Prop :=
| thirty month : month = 4 \/ month = 6 \/ month = 9 \/ month = 11 -> has_days year month 30
| thirty_one month : month = 1 \/ month = 3 \/ month = 5 \/ month = 7 \/ month = 8 \/ month = 10 \/ month = 12 -> has_days year month 31
| february : ~ leap year -> has_days year 2 28
| leap_february : leap year -> has_days year 2 29.

Definition gregorian (c : Calendar.t) : Prop :=
  let '(Calendar.mk year month day hour minute second) := c in
  1 <= year <= 9999 /\ (exists n, has_days year month n /\ 1 <= day <= n) /\
  0 <= hour < 24 /\ 0 <= minute < 60 /\ 0 <= second < 60.

Inductive follows : Calendar.t -> Calendar.t -> Prop :=
| second_follows y mo d h mi s : s < 59 -> follows (Calendar.mk y mo d h mi s) (Calendar.mk y mo d h mi (s + 1))
| minute_follows y mo d h mi : mi < 59 -> follows (Calendar.mk y mo d h mi 59) (Calendar.mk y mo d h (mi + 1) 0)
| hour_follows y mo d h : h < 23 -> follows (Calendar.mk y mo d h 59 59) (Calendar.mk y mo d (h + 1) 0 0)
| day_follows y mo d n : has_days y mo n -> d < n -> follows (Calendar.mk y mo d 23 59 59) (Calendar.mk y mo (d + 1) 0 0 0)
| month_follows y mo n : has_days y mo n -> mo < 12 -> follows (Calendar.mk y mo n 23 59 59) (Calendar.mk y (mo + 1) 1 0 0 0)
| year_follows y : follows (Calendar.mk y 12 31 23 59 59) (Calendar.mk (y + 1) 1 1 0 0 0).

(** The fields the code accepts. *)
Definition valid (c : Calendar.t) : Prop :=
  let '(Calendar.mk year month day hour minute second) := c in
  1 <= year <= 9999 /\ 1 <= month <= 12 /\ 1 <= day <= month_days year month /\
  0 <= hour <= 23 /\ 0 <= minute <= 59 /\ 0 <= second <= 59.

Lemma leap_spec year : leap_year year = true <-> leap year.
Proof.
  unfold leap_year, leap. rewrite andb_true_iff, orb_true_iff, negb_true_iff, !Z.eqb_eq, Z.eqb_neq, !Z.mod_divide by lia. done.
Qed.

(** The table of the code is the calendar. *)
Lemma has_days_spec year month n : has_days year month n <-> 1 <= month <= 12 /\ n = month_days year month.
Proof.
  pose proof (leap_spec year) as Hl. unfold month_days. split.
  - intros [m Hm | m Hm | Hn | Hn].
    + destruct Hm as [-> | [-> | [-> | ->]]]; (split; [lia |]); by vm_compute.
    + destruct Hm as [-> | [-> | [-> | [-> | [-> | [-> | ->]]]]]]; (split; [lia |]); by vm_compute.
    + split; [lia |]. destruct (leap_year year); [tauto | done].
    + split; [lia |]. rewrite (proj2 Hl Hn). done.
  - intros [Hm ->]. assert (month ∈ [1; 2; 3; 4; 5; 6; 7; 8; 9; 10; 11; 12]) as Hin by (rewrite !elem_of_cons; lia).
    destruct (Z.eq_dec month 2) as [-> | Hne].
    { destruct (leap_year year) eqn:E; [apply leap_february; tauto | apply february; rewrite <- Hl; congruence]. }
    repeat (apply elem_of_cons in Hin as [-> | Hin]; [try done; first [apply thirty | apply thirty_one]; lia |]). by apply not_elem_of_nil in Hin.
Qed.

Lemma gregorian_valid c : gregorian c <-> valid c.
Proof.
  destruct c as [year month day hour minute second]. unfold gregorian, valid. setoid_rewrite has_days_spec. split.
  - intros (? & (n & (? & ->) & ?) & ? & ? & ?). lia.
  - intros (? & ? & ? & ? & ? & ?). split_and!; try lia. eexists. split; [done | lia].
Qed.

(** The next second, by carrying. *)
Definition next_day (c : Calendar.t) : Calendar.t :=
  let '(Calendar.mk year month day hour minute second) := c in
  if day <? month_days year month then Calendar.mk year month (day + 1) 0 0 0
  else if month <? 12 then Calendar.mk year (month + 1) 1 0 0 0
  else Calendar.mk (year + 1) 1 1 0 0 0.
Definition next_second (c : Calendar.t) : Calendar.t :=
  let '(Calendar.mk year month day hour minute second) := c in
  if second <? 59 then Calendar.mk year month day hour minute (second + 1)
  else if minute <? 59 then Calendar.mk year month day hour (minute + 1) 0
  else if hour <? 23 then Calendar.mk year month day (hour + 1) 0 0
  else next_day c.

Definition epoch_days (year month day : Z) : Z :=
  let years := year - 1 in
  add_months (Z.to_nat (month - 1)) year 1 (years * 365 + years / 4 - years / 100 + years / 400) + (day - 1) - 719162.

Lemma calendar_epoch_ok year month day hour minute second :
  valid (Calendar.mk year month day hour minute second) ->
  calendar_epoch (Calendar.mk year month day hour minute second) =
    Ok (EpochTime.mk (epoch_days year month day * 86400 + hour * 3600 + minute * 60 + second) 0).
Proof. unfold valid, calendar_epoch. intros. cmp. done. Qed.

Lemma calendar_epoch_err c :
  (let '(Calendar.mk year month day hour minute second) := c in
   0 <= year /\ 0 <= month /\ 0 <= day /\ 0 <= hour /\ 0 <= minute /\ 0 <= second) ->
  ~ valid c -> calendar_epoch c = Err StatusCode.invalid_argument.
Proof.
  destruct c as [year month day hour minute second]. unfold valid, calendar_epoch. intros Hu Hv.
  case_cond; [done |]. case_cond; [done |]. b2p. exfalso. apply Hv. lia.
Qed.

(** A step across a multiple of [k]. *)
Lemma div_step y k : 0 < k -> y / k - (y - 1) / k = if y mod k =? 0 then 1 else 0.
Proof.
  intros Hk. pose proof (Z.div_mod y k). pose proof (Z.mod_pos_bound y k Hk). destruct (Z.eqb_spec (y mod k) 0) as [E | E].
  - rewrite <- (Z.div_unique (y - 1) k (y / k - 1) (k - 1)) by lia. lia.
  - rewrite <- (Z.div_unique (y - 1) k (y / k) (y mod k - 1)) by lia. lia.
Qed.

Lemma mod_factor y a b : 0 < a -> 0 < b -> y mod (a * b) = 0 -> y mod b = 0.
Proof.
  intros Ha Hb E. apply Z.mod_divide in E as [q ->]; [| lia]. rewrite Z.mul_assoc. apply Z_mod_mult.
Qed.

Lemma year_step y :
  let days y := (y - 1) * 365 + (y - 1) / 4 - (y - 1) / 100 + (y - 1) / 400 in
  days (y + 1) = days y + 365 + (if leap_year y then 1 else 0).
Proof.
  intros days. unfold days, leap_year. replace (y + 1 - 1) with y by lia.
  pose proof (div_step y 4 ltac:(lia)). pose proof (div_step y 100 ltac:(lia)). pose proof (div_step y 400 ltac:(lia)).
  assert (y mod 400 = 0 -> y mod 100 = 0) by (apply (mod_factor y 4 100); lia).
  assert (y mod 100 = 0 -> y mod 4 = 0) by (apply (mod_factor y 25 4); lia).
  destruct (Z.eqb_spec (y mod 4) 0), (Z.eqb_spec (y mod 100) 0), (Z.eqb_spec (y mod 400) 0); cbn [negb andb orb]; tauto || lia.
Qed.

Lemma add_months_snoc n year month days :
  add_months (S n) year month days = add_months n year month days + month_days year (month + Z.of_nat n).
Proof.
  revert month days. induction n as [| n IH]; intros month days; [cbn [add_months]; f_equal; f_equal; lia |].
  change (add_months (S (S n)) year month days) with (add_months (S n) year (month + 1) (days + month_days year month)).
  rewrite IH. cbn [add_months]. do 2 f_equal. lia.
Qed.

Lemma month_step year month : 1 <= month ->
  epoch_days year (month + 1) 1 = epoch_days year month (month_days year month) + 1.
Proof.
  intros Hm. unfold epoch_days. replace (Z.to_nat (month + 1 - 1)) with (S (Z.to_nat (month - 1))) by lia.
  rewrite add_months_snoc. replace (1 + Z.of_nat (Z.to_nat (month - 1))) with month by lia. lia.
Qed.

Lemma add_months_base n year month days : add_months n year month days = days + add_months n year month 0.
Proof.
  revert month days. induction n as [| n IH]; intros month days; cbn [add_months]; [lia |].
  rewrite (IH _ (days + _)), (IH _ (0 + _)). lia.
Qed.

Lemma year_days year : epoch_days (year + 1) 1 1 = epoch_days year 12 31 + 1.
Proof.
  unfold epoch_days. change (Z.to_nat (12 - 1)) with 11%nat. change (Z.to_nat (1 - 1)) with 0%nat.
  pose proof (year_step year) as Hy. cbv beta zeta in Hy. rewrite (add_months_base 11).
  assert (add_months 11 year 1 0 = 334 + if leap_year year then 1 else 0) as ->.
  { cbn [add_months]. unfold month_days. generalize (leap_year year). intros []; vm_compute; reflexivity. }
  cbn [add_months]. destruct (leap_year year); lia.
Qed.

Lemma month_days_range year month : 1 <= month <= 12 -> 28 <= month_days year month <= 31.
Proof.
  intros Hm. unfold month_days. assert (month ∈ [1; 2; 3; 4; 5; 6; 7; 8; 9; 10; 11; 12]) as Hin by (rewrite !elem_of_cons; lia).
  repeat (apply elem_of_cons in Hin as [-> | Hin]; [by destruct (leap_year year) |]). by apply not_elem_of_nil in Hin.
Qed.

Lemma december year : month_days year 12 = 31.
Proof. done. Qed.

Ltac value_of_next :=
  match goal with |- valid ?c /\ _ => assert (valid c) by (cbn; lia) end;
  split; [done |]; rewrite calendar_epoch_ok by done.

Lemma follows_next c c' : valid c -> follows c c' -> c' = next_second c.
Proof.
  intros Hv Hf. destruct Hf; cbn in Hv; unfold next_second, next_day; repeat case_cond; b2p; try done; try lia;
    repeat match goal with H : has_days _ _ _ |- _ => apply has_days_spec in H as [? ->] end; try lia; pose proof (december y); lia.
Qed.

Lemma next_follows c : valid c -> follows c (next_second c).
Proof.
  destruct c as [year month day hour minute second]. intros (Hy & Hm & Hd & Hh & Hmi & Hs).
  assert (has_days year month (month_days year month)) as Hn by (by apply has_days_spec).
  unfold next_second, next_day. repeat case_cond; b2p.
  - by constructor.
  - replace second with 59 by lia. by constructor.
  - replace second with 59 by lia. replace minute with 59 by lia. by constructor.
  - replace second with 59 by lia. replace minute with 59 by lia. replace hour with 23 by lia. by apply (day_follows year month day _ Hn).
  - replace second with 59 by lia. replace minute with 59 by lia. replace hour with 23 by lia. replace day with (month_days year month) by lia.
    by apply month_follows.
  - replace second with 59 by lia. replace minute with 59 by lia. replace hour with 23 by lia. assert (month = 12) as -> by lia.
    pose proof (december year). replace day with 31 by lia. constructor.
Qed.

Lemma next_second_counts c : valid c ->
  exists s, calendar_epoch c = Ok (EpochTime.mk s 0) /\
    (c = Calendar.mk 9999 12 31 23 59 59 \/ valid (next_second c) /\ calendar_epoch (next_second c) = Ok (EpochTime.mk (s + 1) 0)).
Proof.
  destruct c as [year month day hour minute second].
  intros Hv. eexists. split; [by apply calendar_epoch_ok |]. pose proof Hv as (Hy & Hm & Hd & Hh & Hmin & Hs). unfold next_second, next_day.
  pose proof (month_days_range year month Hm) as Hr.
  repeat case_cond; b2p; try (right; value_of_next; do 2 f_equal; unfold epoch_days; lia).
  - right. pose proof (month_days_range year (month + 1) ltac:(lia)). value_of_next.
    rewrite month_step by lia. do 2 f_equal. assert (day = month_days year month) as -> by lia. lia.
  - assert (month = 12) as -> by lia. assert (day = 31) as -> by (pose proof (december year); lia).
    destruct (Z.eq_dec year 9999) as [-> |]; [left; f_equal; lia | right].
    pose proof (month_days_range (year + 1) 1 ltac:(lia)). value_of_next. rewrite year_days. do 2 f_equal. lia.
Qed.

(** C28: calendar_epoch() counts the seconds of the Gregorian calendar.  On
    unsigned fields it refuses exactly what is not a date of years 1 to 9999
    with a time of day; it gives 1970-01-01 00:00:00 the value 0; and every
    second but the last of year 9999 is followed by one that has the next
    value.  The calendar is stated independently of the code's table. *)
Theorem calendar_counts_seconds c :
  (let '(Calendar.mk year month day hour minute second) := c in
   0 <= year /\ 0 <= month /\ 0 <= day /\ 0 <= hour /\ 0 <= minute /\ 0 <= second) ->
  calendar_epoch (Calendar.mk 1970 1 1 0 0 0) = Ok (EpochTime.mk 0 0) /\
  (~ gregorian c -> calendar_epoch c = Err StatusCode.invalid_argument) /\
  (gregorian c -> exists s, calendar_epoch c = Ok (EpochTime.mk s 0) /\
     (forall c', follows c c' -> gregorian c' -> calendar_epoch c' = Ok (EpochTime.mk (s + 1) 0)) /\
     (c = Calendar.mk 9999 12 31 23 59 59 \/ exists c', follows c c' /\ gregorian c')).
Proof.
  intros Hu. split; [by vm_compute |]. rewrite gregorian_valid. split; [by apply calendar_epoch_err |]. intros Hv.
  destruct (next_second_counts c Hv) as (s & Hs & Hn). exists s. split; [done |]. split.
  - intros c' Hf Hg. apply (follows_next c c' Hv) in Hf as ->. destruct Hn as [-> | [_ ?]]; [| done].
    destruct Hg as (? & _). lia.
  - destruct Hn as [? | [Hv' _]]; [by left | right]. exists (next_second c). split; [by apply next_follows | by apply gregorian_valid].
Qed.

(** 2000-02-29 exists and its first second follows the last of the 28th. *)
Lemma calendar_witness :
  calendar_epoch (Calendar.mk 2000 2 28 23 59 59) = Ok (EpochTime.mk 951782399 0) /\
  calendar_epoch (Calendar.mk 2000 2 29 0 0 0) = Ok (EpochTime.mk 951782400 0) /\
  calendar_epoch (Calendar.mk 1900 2 29 0 0 0) = Err StatusCode.invalid_argument.
Proof.
  assert (has_days 2000 2 29) as Hd by (apply has_days_spec; by vm_compute).
  destruct (calendar_counts_seconds (Calendar.mk 2000 2 28 23 59 59) ltac:(cbn; lia)) as (_ & _ & Hc).
  destruct Hc as (s & Hs & Hf & _); [cbn; split_and!; try lia; exists 29; split; [exact Hd | lia] |].
  assert (s = 951782399) as -> by (vm_compute in Hs; congruence).
  split; [exact Hs |]. split; [apply Hf; [exact (day_follows 2000 2 28 29 Hd ltac:(lia)) | cbn; split_and!; try lia; exists 29; split; [exact Hd | lia]] |].
  apply (calendar_counts_seconds (Calendar.mk 1900 2 29 0 0 0) ltac:(cbn; lia)). rewrite gregorian_valid. intros (_ & _ & Hx & _). change (month_days 1900 2) with 28 in Hx. lia.
Defined.

(** ** Elapsed time *)

(** An epoch time as nanoseconds, and a normalised one. *)
Definition instant (e : EpochTime.t) : Z := EpochTime.seconds e * nanoseconds_per_second + EpochTime.nanoseconds e.
Definition normal (e : EpochTime.t) : Prop :=
  i64_min <= EpochTime.seconds e <= i64_max /\ 0 <= EpochTime.nanoseconds e < nanoseconds_per_second.

Lemma add_elapsed_exact e elapsed : normal e -> 0 <= elapsed <= u64_max ->
  match add_elapsed e elapsed with
  | Ok e' => normal e' /\ instant e' = instant e + elapsed
  | Err s => s = StatusCode.overflow /\ (i64_max + 1) * nanoseconds_per_second <= instant e + elapsed
  end.
Proof.
  unfold normal, instant, add_elapsed, nanoseconds_per_second. destruct e as [seconds ns]. cbn [EpochTime.seconds EpochTime.nanoseconds].
  assert (u64_max = 18446744073709551615) as Hu by done. assert (i64_max = 9223372036854775807) as Hi by done.
  intros [Hs Hn] He. cmp. rewrite (u64_wrap_small (ns + _)) by dlia. rewrite u64_wrap_small by dlia. unfold to_i64.
  rewrite (proj2 (Z.leb_le _ i64_max)) by dlia.
  case_cond; b2p; [split; [done | dlia] |]. cbn [EpochTime.seconds EpochTime.nanoseconds].
  unfold u32_wrap. rewrite (Z.mod_small (_ mod 1000000000)) by dlia. dlia.
Qed.

(** ** Clock devices *)
Section Devices.
Context {B : Type} `{RtcReadBus B}.

(** What the anchor asks of a reading. *)
Definition acceptable (r : EpochReading.t) : Prop :=
  normal (EpochReading.time r) /\ EpochReading.source r <> EpochSource.unavailable /\
  0 < EpochReading.resolution_ns r <= nanoseconds_per_second.

(** A bus of 32-bit registers, and one whose registers stand still. *)
Definition words : Prop := forall b offset, 0 <= snd (bus_read b offset) <= u32_max.
Definition stable (registers : Z -> Z) : Prop := forall b offset, snd (bus_read b offset) = registers offset.

Lemma split_ns_normal v : 0 <= v <= u64_max -> normal (split_ns v) /\ instant (split_ns v) = v.
Proof.
  intros Hv. unfold normal, instant, split_ns, nanoseconds_per_second, to_i64, u32_wrap. cbn [EpochTime.seconds EpochTime.nanoseconds].
  assert (u64_max = 18446744073709551615) as Hu by done. assert (i64_max = 9223372036854775807) as Hi by done.
  assert (i64_min = -9223372036854775808) as Hm by done.
  rewrite (proj2 (Z.leb_le _ i64_max)) by dlia. rewrite (Z.mod_small (_ mod 1000000000)) by dlia. dlia.
Qed.

Lemma calendar_epoch_normal c e : (let '(Calendar.mk year month day hour minute second) := c in
    0 <= year /\ 0 <= month /\ 0 <= day /\ 0 <= hour /\ 0 <= minute /\ 0 <= second) ->
  calendar_epoch c = Ok e -> normal e.
Proof.
  destruct c as [year month day hour minute second]. intros Hu. unfold calendar_epoch. case_cond; [done |]. case_cond; [done |]. b2p.
  assert (valid (Calendar.mk year month day hour minute second)) as Hv by (cbn; lia).
  intros [= <-]. fold (epoch_days year month day). unfold normal, i64_min, i64_max, nanoseconds_per_second. cbn [EpochTime.seconds EpochTime.nanoseconds].
  pose proof (month_days_range year month ltac:(lia)).
  assert (-719162 <= epoch_days year month day <= 4000000); [| lia].
  assert (forall n m d, 1 <= m -> m + Z.of_nat n <= 13 -> d <= add_months n year m d <= d + 31 * Z.of_nat n) as Ha.
  { induction n as [| n IH]; intros m d Hm Hn; cbn [add_months]; [lia |]. pose proof (month_days_range year m ltac:(lia)).
    specialize (IH (m + 1) (d + month_days year m) ltac:(lia) ltac:(lia)). lia. }
  unfold epoch_days. specialize (Ha (Z.to_nat (month - 1)) 1
    ((year - 1) * 365 + (year - 1) / 4 - (year - 1) / 100 + (year - 1) / 400) ltac:(lia) ltac:(lia)). dlia.
Qed.

(** The calendar register of the device: [low] are the bits the driver masks. *)
Definition ls7a_register (c : Calendar.t) (low : Z) : Z :=
  let '(Calendar.mk _ month day hour minute second) := c in
  month * 2 ^ 26 + day * 2 ^ 21 + hour * 2 ^ 16 + minute * 2 ^ 10 + second * 2 ^ 4 + low.

Lemma ls7a_decodes c low : valid c -> 1900 <= Calendar.year c -> 0 <= low < 16 ->
  ls7a_calendar (Calendar.year c - 1900) (Z.land (ls7a_register c low) (u32_max - 15)) = c.
Proof.
  destruct c as [year month day hour minute second]. intros (Hy & Hm & Hd & Hh & Hmin & Hs) H1900 Hlow.
  pose proof (month_days_range year month Hm). cbn [Calendar.year] in *.
  assert (Z.land (ls7a_register (Calendar.mk year month day hour minute second) low) (u32_max - 15) =
          ls7a_register (Calendar.mk year month day hour minute second) 0) as ->.
  { change (u32_max - 15) with (@usize_not arch32 (2 ^ 4 - 1)).
    rewrite (@land_not_mask arch32) by (unfold ls7a_register; change (@usize_max arch32) with 4294967295; lia).
    unfold ls7a_register. dlia. }
  unfold ls7a_calendar, ls7a_register, u32_wrap. rewrite !Z.shiftr_div_pow2 by lia.
  change 31 with (Z.ones 5). change 63 with (Z.ones 6). rewrite !Z.land_ones by lia. f_equal; dlia.
Qed.

Lemma word_of bus offset : words -> 0 <= snd (bus_read bus offset) <= u32_max.
Proof. intros Hw. apply Hw. Qed.

Lemma ls7a_fields_unsigned year calendar : 0 <= year -> 0 <= calendar ->
  let '(Calendar.mk year month day hour minute second) := ls7a_calendar year calendar in
  0 <= year /\ 0 <= month /\ 0 <= day /\ 0 <= hour /\ 0 <= minute /\ 0 <= second.
Proof.
  intros Hy Hc. unfold ls7a_calendar, u32_wrap. split; [apply Z.mod_pos_bound; lia |].
  split_and!; rewrite ?Z.land_nonneg, ?Z.shiftr_nonneg; lia.
Qed.

(** Name the registers a sequence of bus reads returned. *)
Ltac bus_reads Hw :=
  repeat match goal with
  | |- context [bus_read ?b ?o] =>
      let v := fresh "v" in let E := fresh "E" in
      pose proof (word_of b o Hw); destruct (bus_read b o) as [? v] eqn:E; cbn [snd] in *
  end.

Lemma ls7a_attempts_acceptable n bus r : words -> snd (ls7a_attempts n bus) = Ok r -> acceptable r.
Proof.
  intros Hw. revert bus. induction n as [| n IH]; intros bus; cbn [ls7a_attempts]; [done |]. bus_reads Hw.
  case_cond; [apply IH |]. bus_reads Hw. case_cond; [done |]. case_cond; [done |].
  match goal with |- context [calendar_epoch ?c] => destruct (calendar_epoch c) as [e | s] eqn:Ec; [| done] end.
  intros [= <-]. split; [| by vm_compute]. cbn [EpochReading.time]. eapply calendar_epoch_normal; [| exact Ec].
  apply ls7a_fields_unsigned; [lia |]. apply Z.land_nonneg. left. lia.
Qed.

(** The first attempt reads a device whose registers do not change. *)
Lemma ls7a_attempt_stable n bus registers c low e : stable registers -> valid c -> 1900 <= Calendar.year c -> 0 <= low < 16 ->
  Z.land (registers 0x40) ls7a_enabled = ls7a_enabled -> registers 0x30 = Calendar.year c - 1900 -> registers 0x2c = ls7a_register c low ->
  calendar_epoch c = Ok e -> snd (ls7a_attempts (S n) bus) = Ok (EpochReading.mk e EpochSource.ls7a nanoseconds_per_second).
Proof.
  intros Hst Hv Hy Hlow Hen H30 H2c He. assert (Calendar.year c <= 9999) by (destruct c; apply Hv). cbn [ls7a_attempts].
  repeat match goal with
  | |- context [bus_read ?b ?o] => pose proof (Hst b o); destruct (bus_read b o) as [? ?]; cbn [snd] in *; subst
  end.
  rewrite Hen, !Z.eqb_refl. cbn [negb orb]. rewrite H30, H2c. cmp. rewrite ls7a_decodes, He by done. done.
Qed.

(** Whatever the device does, a reading its driver returns is one the
    epoch anchor accepts; and a running LS7A clock whose registers stand still
    is read as the date it shows. *)
Theorem clock_devices_spec (bus : B) : words ->
  (forall r, snd (read_pl031 bus) = Ok r \/ snd (read_goldfish bus) = Ok r \/ snd (read_ls7a bus) = Ok r -> acceptable r) /\
  (forall registers c low, stable registers -> valid c -> 1900 <= Calendar.year c -> 0 <= low < 16 ->
     Z.land (registers 0x40) ls7a_enabled = ls7a_enabled ->
     registers 0x30 = Calendar.year c - 1900 -> registers 0x2c = ls7a_register c low ->
     exists e, calendar_epoch c = Ok e /\
       snd (read_ls7a bus) = Ok (EpochReading.mk e EpochSource.ls7a nanoseconds_per_second)).
Proof.
  intros Hw. split.
  - intros r [Hr | [Hr | Hr]]; revert Hr.
    + unfold read_pl031. destruct (pl031_matches 8 bus 0) as [b matched]. case_cond; [done |]. bus_reads Hw. case_cond; [done |]. bus_reads Hw.
      case_cond; [done |]. intros [= <-]. unfold acceptable, normal, i64_min, i64_max, u32_max, nanoseconds_per_second in *. cbn. split_and!; try done; lia.
    + unfold read_goldfish. bus_reads Hw. intros [= <-]. split; [| by vm_compute]. cbn [EpochReading.time].
      apply split_ns_normal. unfold u64_max, u32_max in *. assert (0 <= Z.lor (u64_wrap (Z.shiftl v0 32)) v < 2 ^ 64); [| lia].
      apply lor_bound; [lia | apply Z.mod_pos_bound; lia | lia].
    + unfold read_ls7a. bus_reads Hw. case_cond; [done |]. by apply ls7a_attempts_acceptable.
  - intros registers c low Hst Hv Hy Hlow Hen H30 H2c.
    assert (exists e, calendar_epoch c = Ok e) as [e He] by (destruct c; rewrite calendar_epoch_ok by done; by eexists).
    exists e. split; [done |].
    unfold read_ls7a. pose proof (Hst bus 0x40). destruct (bus_read bus 0x40) as [bus' control]. cbn [snd] in *. subst.
    rewrite Hen, Z.eqb_refl. by apply (ls7a_attempt_stable 63 bus' registers c low).
Qed.
End Devices.

(** An LS7A clock that shows 2024-02-29 12:34:56. *)
Definition leap_day : Calendar.t := Calendar.mk 2024 2 29 12 34 56.
Definition leap_day_registers (offset : Z) : Z :=
  if offset =? 0x40 then 0x900 else if offset =? 0x30 then 124 else if offset =? 0x2c then ls7a_register leap_day 5 else 0.
Definition leap_day_bus : RtcReadBus unit := fun bus offset => (bus, leap_day_registers offset).

Lemma clock_devices_witness : exists e, calendar_epoch leap_day = Ok e /\
  snd (@read_ls7a unit leap_day_bus tt) = Ok (EpochReading.mk e EpochSource.ls7a nanoseconds_per_second).
Proof.
  assert (@words unit leap_day_bus) as Hw.
  { intros b offset. cbn. unfold leap_day_registers. repeat case_cond; by vm_compute. }
  apply (proj2 (@clock_devices_spec unit leap_day_bus tt Hw) leap_day_registers leap_day 5); try done; by vm_compute.
Defined.
