(* ===== verification/Realtime.v ===== *)
(** * The realtime clock (include/ok/time/realtime_clock.hpp)

    RealtimeClock follows the boot epoch anchor until an administrator sets a
    software epoch.  The theorems are about histories of its operations: two
    samples of one setting differ by exactly the monotonic time between them,
    and a clock that lost continuity never answers again. *)

From Stdlib Require Import Sorted.
From S2P Require Import Prelude Epoch.

Module RealtimeOrigin.
Inductive t : Set := none | boot_rtc | administrator_software.
#[global] Instance t_eq_dec : EqDecision t.
Proof. solve_decision. Defined.
End RealtimeOrigin.

Module RealtimeSample.
Record t := mk { value : EpochTime.t; monotonic : MonotonicPoint.t; wall_generation : Z; origin : RealtimeOrigin.t }.
End RealtimeSample.

Module RealtimeInfo.
Record t := mk {
  state : AnchorState.t; origin : RealtimeOrigin.t; wall_generation : Z;
  monotonic_generation : Z; conversion_resolution_ns : Z; accuracy : Accuracy.t
}.
Definition new : t := mk AnchorState.uninitialized RealtimeOrigin.none 0 0 0 Accuracy.unknown.
Definition with_state (i : t) (s : AnchorState.t) : t :=
  mk s (origin i) (wall_generation i) (monotonic_generation i) (conversion_resolution_ns i) (accuracy i).
End RealtimeInfo.

Definition next_wall_generation (current : Z) : result Z :=
  if current =? u64_max then Err StatusCode.overflow else Ok (current + 1).

Module RealtimeClock.
Record t := mk {
  boot_ : EpochAnchor.t; info_ : RealtimeInfo.t; software_epoch_ : EpochTime.t;
  software_anchor_ns_ : Z; last_ : MonotonicPoint.t; failure_ : Status
}.
Definition new : t :=
  mk EpochAnchor.new RealtimeInfo.new (EpochTime.mk 0 0) 0 (MonotonicPoint.mk 0 0) StatusCode.not_initialized.

Definition state (c : t) : AnchorState.t := RealtimeInfo.state (info_ c).
Definition with_boot (c : t) (b : EpochAnchor.t) : t :=
  mk b (info_ c) (software_epoch_ c) (software_anchor_ns_ c) (last_ c) (failure_ c).
Definition with_last (c : t) (p : MonotonicPoint.t) : t :=
  mk (boot_ c) (info_ c) (software_epoch_ c) (software_anchor_ns_ c) p (failure_ c).
Definition fail (c : t) (s : AnchorState.t) (failure : Status) : t :=
  mk (boot_ c) (RealtimeInfo.with_state (info_ c) s) (software_epoch_ c) (software_anchor_ns_ c) (last_ c) failure.

Definition boot_status (c : t) : Status := EpochAnchor.status (boot_ c).
Definition boot_info (c : t) : AnchorInfo.t := EpochAnchor.info (boot_ c).
Definition info (c : t) : RealtimeInfo.t := info_ c.

Definition status (c : t) : Status :=
  if decide (state c = AnchorState.uninitialized) then StatusCode.not_initialized
  else if decide (state c = AnchorState.ready) then StatusCode.ok else failure_ c.

Definition reject_boot (c : t) (reason : Status) : t * Status :=
  if decide (EpochAnchor.state (boot_ c) <> AnchorState.uninitialized) then (c, boot_status c)
  else
    let '(b, result) := EpochAnchor.reject (boot_ c) reason in
    (fail (with_boot c b) AnchorState.unavailable result, result).

Definition initialize_boot (c : t) (reading : EpochReading.t) (before after : MonotonicPoint.t)
    (conversion_resolution_ns : Z) : t * Status :=
  if decide (EpochAnchor.state (boot_ c) <> AnchorState.uninitialized) then (c, boot_status c)
  else if conversion_resolution_ns =? 0 then reject_boot c StatusCode.io_error
  else
    let '(b, result) := EpochAnchor.initialize (boot_ c) reading before after in
    let c := with_boot c b in
    if negb (status_ok result) then (fail c AnchorState.unavailable result, result)
    else
      (mk (boot_ c)
         (RealtimeInfo.mk AnchorState.ready RealtimeOrigin.boot_rtc 1 (MonotonicPoint.generation after)
            conversion_resolution_ns Accuracy.unknown)
         (software_epoch_ c) (software_anchor_ns_ c) after (failure_ c),
       StatusCode.ok).

Definition invalidate_boot (c : t) (reason : Status) : t * Status :=
  let '(b, s) := EpochAnchor.invalidate (boot_ c) reason in (with_boot c b, s).

Definition invalidate (c : t) (reason : Status) : t * Status :=
  let c :=
    if decide (state c = AnchorState.ready) then
      let c := fail c AnchorState.invalidated (if status_ok reason then StatusCode.io_error else reason) in
      if decide (RealtimeInfo.origin (info_ c) = RealtimeOrigin.boot_rtc)
      then with_boot c (fst (EpochAnchor.invalidate (boot_ c) (failure_ c)))
      else c
    else c in
  (c, status c).

(** Whether [point] breaks the continuity of the last observation. *)
Definition discontinuous (c : t) (point : MonotonicPoint.t) : bool :=
  negb (MonotonicPoint.generation point =? MonotonicPoint.generation (last_ c)) ||
  (MonotonicPoint.nanoseconds point <? MonotonicPoint.nanoseconds (last_ c)).

Definition set (c : t) (value : EpochTime.t) (point : MonotonicPoint.t) (conversion_resolution_ns : Z) : t * Status :=
  if decide (EpochAnchor.state (boot_ c) = AnchorState.uninitialized) then (c, StatusCode.not_initialized)
  else if decide (state c = AnchorState.invalidated) then (c, failure_ c)
  else if (nanoseconds_per_second <=? EpochTime.nanoseconds value) || (MonotonicPoint.generation point =? 0) ||
          (conversion_resolution_ns =? 0)
  then (c, StatusCode.invalid_argument)
  else if bool_decide (state c = AnchorState.ready) && discontinuous c point then (c, StatusCode.io_error)
  else
    match next_wall_generation (RealtimeInfo.wall_generation (info_ c)) with
    | Err e => (c, e)
    | Ok generation =>
        (mk (boot_ c)
           (RealtimeInfo.mk AnchorState.ready RealtimeOrigin.administrator_software generation
              (MonotonicPoint.generation point) conversion_resolution_ns Accuracy.unknown)
           value (MonotonicPoint.nanoseconds point) point (failure_ c),
         StatusCode.ok)
    end.

Definition read (c : t) (point : MonotonicPoint.t) : t * result RealtimeSample.t :=
  if decide (state c <> AnchorState.ready) then (c, Err (status c))
  else if discontinuous c point then
    let '(c, s) := invalidate c StatusCode.io_error in (c, Err s)
  else
    let '(c, value) :=
      if decide (RealtimeInfo.origin (info_ c) = RealtimeOrigin.boot_rtc)
      then let '(b, value) := EpochAnchor.read (boot_ c) point in (with_boot c b, value)
      else (c, add_elapsed (software_epoch_ c) (u64_wrap (MonotonicPoint.nanoseconds point - software_anchor_ns_ c))) in
    match value with
    | Err e => let '(c, s) := invalidate c e in (c, Err s)
    | Ok value =>
        (with_last c point,
         Ok (RealtimeSample.mk value point (RealtimeInfo.wall_generation (info_ c)) (RealtimeInfo.origin (info_ c))))
    end.
End RealtimeClock.

Import RealtimeClock.

(** ** Invariant *)

Definition point_ok (p : MonotonicPoint.t) : Prop := 0 <= MonotonicPoint.nanoseconds p <= u64_max.

Definition anchor_ok (b : EpochAnchor.t) : Prop :=
  match EpochAnchor.state b with
  | AnchorState.uninitialized => True
  | AnchorState.ready =>
      normal (EpochAnchor.epoch_ b) /\ 0 <= EpochAnchor.anchor_ns_ b <= EpochAnchor.last_ns_ b /\ EpochAnchor.last_ns_ b <= u64_max
  | _ => EpochAnchor.failure_ b <> StatusCode.ok
  end.

(** What a ready clock follows. *)
Definition following (c : t) : Prop :=
  match RealtimeInfo.origin (info_ c) with
  | RealtimeOrigin.none => False
  | RealtimeOrigin.boot_rtc =>
      EpochAnchor.state (boot_ c) = AnchorState.invalidated \/
      EpochAnchor.state (boot_ c) = AnchorState.ready /\
      EpochAnchor.last_ns_ (boot_ c) = MonotonicPoint.nanoseconds (last_ c) /\
      AnchorInfo.monotonic_generation (EpochAnchor.info_ (boot_ c)) = MonotonicPoint.generation (last_ c)
  | RealtimeOrigin.administrator_software =>
      normal (software_epoch_ c) /\ 0 <= software_anchor_ns_ c <= MonotonicPoint.nanoseconds (last_ c)
  end.

Record clock_ok (c : t) : Prop := {
  ok_boot : anchor_ok (boot_ c);
  ok_new : EpochAnchor.state (boot_ c) = AnchorState.uninitialized -> info_ c = RealtimeInfo.new;
  ok_wall : 0 <= RealtimeInfo.wall_generation (info_ c) <= u64_max;
  ok_failed : state c <> AnchorState.uninitialized -> state c <> AnchorState.ready -> failure_ c <> StatusCode.ok;
  ok_ready : state c = AnchorState.ready ->
    1 <= RealtimeInfo.wall_generation (info_ c) /\ point_ok (last_ c) /\ following c
}.

(** The epoch of monotonic time 0. *)
Definition offset (c : t) : Z :=
  if decide (RealtimeInfo.origin (info_ c) = RealtimeOrigin.boot_rtc)
  then instant (EpochAnchor.epoch_ (boot_ c)) - EpochAnchor.anchor_ns_ (boot_ c)
  else instant (software_epoch_ c) - software_anchor_ns_ c.

(** ** Histories *)
Inductive call :=
  | RejectBoot (reason : Status)
  | InitializeBoot (reading : EpochReading.t) (before after : MonotonicPoint.t) (resolution : Z)
  | InvalidateBoot (reason : Status)
  | Invalidate (reason : Status)
  | Set_ (value : EpochTime.t) (point : MonotonicPoint.t) (resolution : Z)
  | Read (point : MonotonicPoint.t).

(** The new clock, and the sample of a successful read. *)
Definition exec (c : t) (o : call) : t * option RealtimeSample.t :=
  match o with
  | RejectBoot reason => (fst (reject_boot c reason), None)
  | InitializeBoot r b a n => (fst (initialize_boot c r b a n), None)
  | InvalidateBoot reason => (fst (invalidate_boot c reason), None)
  | Invalidate reason => (fst (invalidate c reason), None)
  | Set_ v p n => (fst (set c v p n), None)
  | Read p => let '(c, r) := read c p in (c, match r with Ok s => Some s | Err _ => None end)
  end.
Fixpoint run (c : t) (calls : list call) : t * list RealtimeSample.t :=
  match calls with
  | [] => (c, [])
  | o :: calls =>
      let '(c, out) := exec c o in
      let '(c, samples) := run c calls in
      (c, option_list out ++ samples)
  end.

(** Arguments of the widths of their types. *)
Definition time_typed (e : EpochTime.t) : Prop :=
  i64_min <= EpochTime.seconds e <= i64_max /\ 0 <= EpochTime.nanoseconds e.
Definition typed (o : call) : Prop :=
  match o with
  | InitializeBoot r b a _ => time_typed (EpochReading.time r) /\ point_ok b /\ point_ok a
  | Set_ v p _ => time_typed v /\ point_ok p
  | Read p => point_ok p
  | _ => True
  end.

(** ** One step *)

(** How the clock before and after a call are related. *)
Definition continues (c c' : t) : Prop :=
  RealtimeInfo.wall_generation (info_ c) <= RealtimeInfo.wall_generation (info_ c') /\
  (state c = AnchorState.invalidated -> state c' = AnchorState.invalidated) /\
  (RealtimeInfo.wall_generation (info_ c) = RealtimeInfo.wall_generation (info_ c') -> state c' = AnchorState.ready ->
     state c = AnchorState.ready /\ offset c' = offset c /\ RealtimeInfo.origin (info_ c') = RealtimeInfo.origin (info_ c) /\
     MonotonicPoint.generation (last_ c') = MonotonicPoint.generation (last_ c) /\
     MonotonicPoint.nanoseconds (last_ c) <= MonotonicPoint.nanoseconds (last_ c')).

(** A sample taken in the present state of the clock. *)
Definition taken (c : t) (s : RealtimeSample.t) : Prop :=
  state c = AnchorState.ready /\ RealtimeSample.wall_generation s = RealtimeInfo.wall_generation (info_ c) /\
  RealtimeSample.origin s = RealtimeInfo.origin (info_ c) /\ RealtimeSample.monotonic s = last_ c /\
  normal (RealtimeSample.value s) /\
  instant (RealtimeSample.value s) = offset c + MonotonicPoint.nanoseconds (last_ c).

Lemma continues_refl c : continues c c.
Proof. unfold continues. by split_and!. Qed.

Lemma anchor_status b : anchor_ok b -> EpochAnchor.state b <> AnchorState.ready -> EpochAnchor.status b <> StatusCode.ok.
Proof. unfold anchor_ok, EpochAnchor.status. intros Hb Hs. destruct (EpochAnchor.state b); by repeat case_decide. Qed.

Lemma clock_status c : clock_ok c -> state c <> AnchorState.ready -> status c <> StatusCode.ok.
Proof. intros Hc Hs. unfold status. repeat case_decide; try done. by apply (ok_failed c Hc). Qed.

(** Marking the anchor invalid. *)
Lemma anchor_invalidate b reason : anchor_ok b -> let '(b', s) := EpochAnchor.invalidate b reason in
  anchor_ok b' /\ s = EpochAnchor.status b' /\ s <> StatusCode.ok /\ EpochAnchor.epoch_ b' = EpochAnchor.epoch_ b /\
  EpochAnchor.anchor_ns_ b' = EpochAnchor.anchor_ns_ b /\
  (EpochAnchor.state b' = AnchorState.uninitialized <-> EpochAnchor.state b = AnchorState.uninitialized) /\
  (EpochAnchor.state b = AnchorState.ready \/ EpochAnchor.state b = AnchorState.invalidated -> EpochAnchor.state b' = AnchorState.invalidated).
Proof.
  intros Hb. unfold EpochAnchor.invalidate. case_decide as E.
  - destruct (status_ok reason) eqn:Er; cbn; unfold anchor_ok, EpochAnchor.status; cbn; rewrite E; repeat case_decide; destruct reason; try done; split_and!; try done.
  - split_and!; try done; [by apply anchor_status |]. intros [? | ?]; congruence.
Qed.

(** Marking the clock invalid, and a clock that stops being ready. *)
Lemma invalidate_step c reason : clock_ok c -> let '(c', s) := invalidate c reason in
  clock_ok c' /\ continues c c' /\ state c' <> AnchorState.ready /\ s <> StatusCode.ok.
Proof.
  intros Hc. unfold invalidate. case_decide as E.
  - set (failure := if status_ok reason then _ else _). assert (failure <> StatusCode.ok) as Hf by (subst failure; by destruct reason).
    pose proof (ok_boot c Hc) as Hb. pose proof (anchor_invalidate (boot_ c) failure Hb) as Hi.
    cbn [RealtimeClock.failure_ boot_ fail RealtimeClock.info_ RealtimeInfo.with_state RealtimeInfo.origin].
    destruct (EpochAnchor.invalidate (boot_ c) failure) as [b' s']. cbn [fst]. destruct Hi as (Hb' & _ & _ & He & Ha & Hu & _).
    assert (EpochAnchor.state (boot_ c) <> AnchorState.uninitialized) as Hn.
    { intros Hn. apply (ok_new c Hc) in Hn. unfold state in E. by rewrite Hn in E. }
    assert (forall c', info_ c' = RealtimeInfo.with_state (info_ c) AnchorState.invalidated -> failure_ c' = failure ->
              anchor_ok (boot_ c') -> EpochAnchor.state (boot_ c') <> AnchorState.uninitialized ->
              clock_ok c' /\ continues c c' /\ state c' <> AnchorState.ready /\ status c' <> StatusCode.ok) as Hall.
    { intros c' Ei Ef Hb1 Hn1. assert (state c' = AnchorState.invalidated) as Es by (unfold state; by rewrite Ei).
      pose proof (ok_wall c Hc). split_and!.
      - split; try done; [by rewrite Ei | by rewrite Ef | by rewrite Es].
      - unfold continues. rewrite Ei, Es. by split_and!.
      - by rewrite Es.
      - unfold status. rewrite Es, Ef. done. }
    case_decide; apply Hall; try done. by rewrite Hu.
  - split_and!; [done | apply continues_refl | done | by apply clock_status].
Qed.

(** A call that only touches the anchor of a clock. *)
Lemma invalidate_boot_step c reason : clock_ok c ->
  let c' := fst (invalidate_boot c reason) in clock_ok c' /\ continues c c'.
Proof.
  intros Hc. unfold invalidate_boot. pose proof (anchor_invalidate (boot_ c) reason (ok_boot c Hc)) as Hi.
  destruct (EpochAnchor.invalidate (boot_ c) reason) as [b' s']. destruct Hi as (Hb' & _ & _ & He & Ha & Hu & Hinv). cbn [fst].
  split.
  - split; cbn; [done | | apply Hc | apply Hc |].
    + rewrite Hu. apply Hc.
    + intros Hr. destruct (ok_ready c Hc Hr) as (? & ? & Hf). split_and!; [done | done |]. revert Hf. unfold following. cbn.
      destruct (RealtimeInfo.origin (info_ c)); try done. intros [Hf | (Hf & _)]; left; apply Hinv; auto.
  - split_and!; try done. intros _ Hr. split_and!; try done. unfold offset. cbn. by rewrite He, Ha.
Qed.

(** The anchor of a failed boot attempt. *)
Lemma reject_boot_step c reason : clock_ok c ->
  let c' := fst (reject_boot c reason) in clock_ok c' /\ continues c c'.
Proof.
  intros Hc. unfold reject_boot. case_decide as E; [split; [done | apply continues_refl] |].
  pose proof (ok_new c Hc E) as Hn. unfold EpochAnchor.reject. rewrite decide_False by (by intros []).
  cbn [fst]. assert ((if status_ok reason then StatusCode.invalid_argument else reason) <> StatusCode.ok) as Hf by (by destruct reason).
  split.
  - split; cbn; rewrite ?Hn; try done.
  - unfold continues. cbn. rewrite Hn. unfold state. rewrite Hn. by split_and!.
Qed.

Lemma initialize_boot_step c reading before after resolution : clock_ok c ->
  typed (InitializeBoot reading before after resolution) ->
  let c' := fst (initialize_boot c reading before after resolution) in clock_ok c' /\ continues c c'.
Proof.
  intros Hc (Ht & Hpb & Hpa). unfold initialize_boot. case_decide as E; [split; [done | apply continues_refl] |].
  case_cond; [by apply reject_boot_step |]. pose proof (ok_new c Hc E) as Hn.
  assert (RealtimeInfo.wall_generation (info_ c) = 0) as Hw by (by rewrite Hn).
  unfold EpochAnchor.initialize, EpochAnchor.reject. rewrite !(decide_False (P := EpochAnchor.state _ <> _)) by (by intros []).
  case_cond; [| case_cond]; cbn [negb status_ok fst].
  1,2: split; [split; cbn; rewrite ?Hn; try done |]; unfold continues; cbn; unfold state; rewrite Hn; by split_and!.
  b2p. unfold point_ok, time_typed in *.
  split; [| unfold continues; cbn; unfold state; rewrite Hw, Hn; split_and!; done || lia].
  split; cbn; try done; [unfold anchor_ok, normal; cbn; split_and!; done || lia |].
  intros _. unfold following, point_ok. cbn. split_and!; try done; try lia. by right.
Qed.

Lemma set_step c value point resolution : clock_ok c -> typed (Set_ value point resolution) ->
  let c' := fst (set c value point resolution) in clock_ok c' /\ continues c c'.
Proof.
  intros Hc (Ht & Hp). unfold set. repeat (case_cond; [split; [done | apply continues_refl] |]).
  unfold next_wall_generation. pose proof (ok_wall c Hc) as Hw. unfold u64_max in Hw.
  case_cond; [split; [done | apply continues_refl] |]. b2p. cbn [fst]. unfold u64_max in *.
  assert (normal value) by (unfold normal, time_typed in *; lia).
  split; [| unfold continues; cbn; split_and!; done || lia].
  split; cbn; try done; unfold u64_max; try lia; [apply Hc |].
  intros _. unfold following, point_ok, u64_max in *. cbn. split_and!; try done; lia.
Qed.

(** Reading the anchor at a later point of its own monotonic clock. *)
Lemma anchor_read b point : anchor_ok b -> point_ok point ->
  EpochAnchor.state b = AnchorState.invalidated \/
  EpochAnchor.state b = AnchorState.ready /\ EpochAnchor.last_ns_ b <= MonotonicPoint.nanoseconds point /\
    AnchorInfo.monotonic_generation (EpochAnchor.info_ b) = MonotonicPoint.generation point ->
  let '(b', r) := EpochAnchor.read b point in
  anchor_ok b' /\ EpochAnchor.epoch_ b' = EpochAnchor.epoch_ b /\ EpochAnchor.anchor_ns_ b' = EpochAnchor.anchor_ns_ b /\
  match r with
  | Ok e => EpochAnchor.state b' = AnchorState.ready /\ EpochAnchor.last_ns_ b' = MonotonicPoint.nanoseconds point /\
      EpochAnchor.info_ b' = EpochAnchor.info_ b /\ normal e /\
      instant e = instant (EpochAnchor.epoch_ b) + MonotonicPoint.nanoseconds point - EpochAnchor.anchor_ns_ b
  | Err _ => EpochAnchor.state b' = AnchorState.invalidated
  end.
Proof.
  intros Hb Hp Hs. unfold EpochAnchor.read, point_ok in *.
  destruct Hs as [Hs | (Hs & Hl & Hg)]; [by rewrite decide_True by congruence |].
  rewrite decide_False by (intros []; done). rewrite Hg, Z.eqb_refl. cmp.
  pose proof Hb as Hr. unfold anchor_ok in Hr. rewrite Hs in Hr. destruct Hr as (Hn & Ha & Hu).
  rewrite u64_wrap_small by lia. pose proof (add_elapsed_exact (EpochAnchor.epoch_ b) (MonotonicPoint.nanoseconds point - EpochAnchor.anchor_ns_ b) Hn ltac:(lia)) as He.
  revert He. destruct (add_elapsed _ _) as [r | e] eqn:Ee; intros He.
  - destruct He as [Hne Hie]. split_and!; try done; [| lia]. unfold anchor_ok, EpochAnchor.state in *. cbn. rewrite Hs. split_and!; try done; lia.
  - pose proof (anchor_invalidate b e Hb) as Hi.
    destruct (EpochAnchor.invalidate b e) as [b' s]. destruct Hi as (? & _ & _ & ? & ? & _ & Hinv). split_and!; auto.
Qed.

(** The clock whose anchor was invalidated by a failed read. *)
Lemma boot_read_failed c b' e : clock_ok c -> state c = AnchorState.ready -> RealtimeInfo.origin (info_ c) = RealtimeOrigin.boot_rtc ->
  anchor_ok b' -> EpochAnchor.state b' = AnchorState.invalidated -> EpochAnchor.epoch_ b' = EpochAnchor.epoch_ (boot_ c) ->
  EpochAnchor.anchor_ns_ b' = EpochAnchor.anchor_ns_ (boot_ c) ->
  let '(c', s) := invalidate (with_boot c b') e in
  clock_ok c' /\ continues c c' /\ state c' <> AnchorState.ready /\ s <> StatusCode.ok.
Proof.
  intros Hc Hr Ho Hb Hs He Ha. assert (clock_ok (with_boot c b')) as Hc'.
  { split; cbn; [done | congruence | apply Hc | apply Hc |]. intros _. destruct (ok_ready c Hc Hr) as (? & ? & _).
    unfold following. cbn. rewrite Ho. auto. }
  pose proof (invalidate_step (with_boot c b') e Hc') as Hi. destruct (invalidate (with_boot c b') e) as [c' s].
  destruct Hi as (? & (Hw & Hinv & Hsame) & ? & ?). by split_and!.
Qed.

Lemma read_step c point : clock_ok c -> point_ok point -> let '(c', r) := read c point in
  clock_ok c' /\ continues c c' /\
  match r with Ok s => taken c' s | Err e => e <> StatusCode.ok /\ state c' <> AnchorState.ready end.
Proof.
  intros Hc Hp. unfold read. case_decide as E; [split_and!; [done | apply continues_refl | by apply clock_status | done] |].
  destruct (ok_ready c Hc E) as (Hw & Hl & Hf). destruct (discontinuous c point) eqn:Ed.
  { pose proof (invalidate_step c StatusCode.io_error Hc) as Hi. by destruct (invalidate c StatusCode.io_error) as [c' s]; destruct Hi as (? & ? & ? & ?). }
  unfold discontinuous in Ed. b2p. unfold following in Hf. case_decide as Eo.
  - rewrite Eo in Hf. assert (EpochAnchor.state (boot_ c) = AnchorState.invalidated \/
      EpochAnchor.state (boot_ c) = AnchorState.ready /\ EpochAnchor.last_ns_ (boot_ c) <= MonotonicPoint.nanoseconds point /\
      AnchorInfo.monotonic_generation (EpochAnchor.info_ (boot_ c)) = MonotonicPoint.generation point) as Hs
      by (destruct Hf as [? | (? & ? & ?)]; [by left | right; split_and!; [done | lia | congruence]]).
    pose proof (anchor_read (boot_ c) point (ok_boot c Hc) Hp Hs) as Hr. destruct (EpochAnchor.read (boot_ c) point) as [b' [e | e]].
    + destruct Hr as (Hb' & He & Ha & Hs' & Hl' & Hi & Hn & Hx). split_and!.
      * split; cbn; [done | congruence | apply Hc | apply Hc |]. intros _. split_and!; [done | done |]. unfold following. cbn. rewrite Eo.
        right. rewrite Hi. destruct Hs as [Hs | (_ & _ & Hs)]; [| done]. unfold EpochAnchor.state in *. congruence.
      * split_and!; try done. intros _ _. unfold offset. cbn. rewrite He, Ha. split_and!; try done.
      * unfold taken. split_and!; try done. unfold offset. cbn. rewrite decide_True by done. rewrite He, Ha. lia.
    + destruct Hr as (Hb' & He & Ha & Hs'). pose proof (boot_read_failed c b' e Hc E Eo Hb' Hs' He Ha) as Hi.
      destruct (invalidate (with_boot c b') e) as [c' s]. destruct Hi as (? & ? & ? & ?). done.
  - destruct (RealtimeInfo.origin (info_ c)) eqn:Eor; [done | done |]. destruct Hf as (Hn & Ha).
    unfold point_ok in *. rewrite u64_wrap_small by lia.
    pose proof (add_elapsed_exact (software_epoch_ c) (MonotonicPoint.nanoseconds point - software_anchor_ns_ c) Hn ltac:(lia)) as He.
    revert He. destruct (add_elapsed _ _) as [e | e]; intros He.
    + destruct He as (Hne & Hie). split_and!.
      * split; cbn; try apply Hc. intros _. unfold following. cbn. rewrite Eor. split_and!; try done; lia.
      * split_and!; try done.
      * unfold taken. cbn. split_and!; try done. unfold offset. rewrite decide_False by (cbn; congruence). cbn. lia.
    + pose proof (invalidate_step c e Hc) as Hi. destruct (invalidate c e) as [c' s]. destruct Hi as (? & ? & ? & ?). done.
Qed.

Lemma realtime_step c o : clock_ok c -> typed o -> let '(c', out) := exec c o in
  clock_ok c' /\ continues c c' /\ forall s, out = Some s -> taken c' s.
Proof.
  intros Hc Ht. destruct o as [reason | r b a n | reason | reason | v p n | p]; cbn [exec].
  - destruct (reject_boot_step c reason Hc) as [? ?]. done.
  - destruct (initialize_boot_step c r b a n Hc Ht) as [? ?]. done.
  - destruct (invalidate_boot_step c reason Hc) as [? ?]. done.
  - pose proof (invalidate_step c reason Hc) as Hi. destruct (invalidate c reason) as [c' s]. by destruct Hi as (? & ? & _).
  - destruct (set_step c v p n Hc Ht) as [? ?]. done.
  - pose proof (read_step c p Hc Ht) as Hr. destruct (read c p) as [c' [s | e]]; destruct Hr as (? & ? & Hs); split_and!; try done.
    by intros s' [= <-].
Qed.

(** How an earlier sample relates to the clock, and to a later sample. *)
Definition remembered (c : t) (s : RealtimeSample.t) : Prop :=
  1 <= RealtimeSample.wall_generation s <= RealtimeInfo.wall_generation (info_ c) /\
  (RealtimeSample.wall_generation s = RealtimeInfo.wall_generation (info_ c) -> state c = AnchorState.ready ->
     RealtimeSample.origin s = RealtimeInfo.origin (info_ c) /\
     MonotonicPoint.generation (RealtimeSample.monotonic s) = MonotonicPoint.generation (last_ c) /\
     MonotonicPoint.nanoseconds (RealtimeSample.monotonic s) <= MonotonicPoint.nanoseconds (last_ c) /\
     instant (RealtimeSample.value s) = offset c + MonotonicPoint.nanoseconds (RealtimeSample.monotonic s)).
Definition consistent (s s' : RealtimeSample.t) : Prop :=
  RealtimeSample.wall_generation s <= RealtimeSample.wall_generation s' /\
  (RealtimeSample.wall_generation s = RealtimeSample.wall_generation s' ->
     let elapsed := MonotonicPoint.nanoseconds (RealtimeSample.monotonic s') - MonotonicPoint.nanoseconds (RealtimeSample.monotonic s) in
     RealtimeSample.origin s = RealtimeSample.origin s' /\
     MonotonicPoint.generation (RealtimeSample.monotonic s) = MonotonicPoint.generation (RealtimeSample.monotonic s') /\
     0 <= elapsed /\ instant (RealtimeSample.value s') = instant (RealtimeSample.value s) + elapsed).

Lemma remembered_step c c' s : remembered c s -> continues c c' -> remembered c' s.
Proof.
  intros [Hw Hs] (Hle & _ & Hsame). split; [lia |]. intros E Hr.
  destruct (Hsame ltac:(lia) Hr) as (Hr0 & Ho & Hor & Hg & Hn). destruct (Hs ltac:(lia) Hr0) as (? & ? & ? & ?).
  split_and!; congruence || lia.
Qed.

Lemma remembered_taken c s : clock_ok c -> taken c s -> remembered c s.
Proof.
  intros Hc (Hr & Hw & Ho & Hm & Hn & Hi). destruct (ok_ready c Hc Hr) as (H1 & _ & _). split; [lia |]. intros _ _.
  rewrite Hm. split_and!; done || lia.
Qed.

Lemma remembered_consistent c s s' : remembered c s -> taken c s' -> consistent s s'.
Proof.
  intros [Hw Hs] (Hr & Hw' & Ho & Hm & Hn & Hi). split; [lia |]. intros E. destruct (Hs ltac:(lia) Hr) as (? & ? & ? & ?).
  rewrite Hm. cbv zeta. split_and!; congruence || lia.
Qed.

Lemma run_consistent calls : forall c, clock_ok c -> Forall typed calls -> let '(c', samples) := run c calls in
  clock_ok c' /\ StronglySorted consistent samples /\ Forall (fun s => normal (RealtimeSample.value s)) samples /\
  (forall p, remembered c p -> Forall (consistent p) samples) /\
  (state c = AnchorState.invalidated -> state c' = AnchorState.invalidated /\ samples = []).
Proof.
  induction calls as [| o calls IH]; intros c Hc Ht; cbn [run]; [split_and!; try done; constructor |].
  inversion Ht as [| ? ? Ho Hcalls]; subst. pose proof (realtime_step c o Hc Ho) as Hstep. destruct (exec c o) as [c1 out].
  destruct Hstep as (Hc1 & Hcont & Hout). specialize (IH c1 Hc1 Hcalls). destruct (run c1 calls) as [c' samples].
  destruct IH as (Hc' & Hsort & Hnorm & Hrem & Hfinal).
  assert (forall p, remembered c p -> Forall (consistent p) samples) as Hpast by (intros p Hp; apply Hrem; by eapply remembered_step).
  assert (state c = AnchorState.invalidated -> state c1 = AnchorState.invalidated) as Hinv by apply Hcont.
  destruct out as [s |]; cbn [option_list app]; [| split_and!; try done; intros Hi; apply Hfinal, Hinv, Hi].
  pose proof (Hout s eq_refl) as Hs. split_and!; [done | | | |].
  - constructor; [done |]. apply Hrem. by apply remembered_taken.
  - constructor; [apply Hs | done].
  - intros p Hp. constructor; [| by apply Hpast]. apply (remembered_consistent c1); [by eapply remembered_step | done].
  - intros Hi. destruct Hs as [Hs _]. rewrite (Hinv Hi) in Hs. done.
Qed.

Lemma new_ok : clock_ok new.
Proof. by split. Qed.

(** In every history of the clock, two samples of the same setting differ
    by exactly the monotonic time between them, come from the same origin and
    monotonic clock and never run backwards; a later sample is of the same or a
    later setting, and every sample is normalised.  Setting the clock, failed
    calls and a failing boot device in between change nothing of this. *)
Theorem realtime_samples_exact calls : Forall typed calls ->
  let samples := snd (run new calls) in
  StronglySorted consistent samples /\ Forall (fun s => normal (RealtimeSample.value s)) samples.
Proof.
  intros Ht. pose proof (run_consistent calls new new_ok Ht) as Hr. destruct (run new calls) as [c samples].
  by destruct Hr as (_ & ? & ? & _).
Qed.

(** A clock that lost its continuity never answers again: after any
    history that ends invalidated, no further history yields a sample, reading
    and setting give an error, and the clock stays invalidated. *)
Theorem realtime_loss_is_final before after value point resolution :
  Forall typed before -> Forall typed after -> typed (Set_ value point resolution) ->
  let c := fst (run new before) in
  state c = AnchorState.invalidated ->
  let '(c', samples) := run c after in
  state c' = AnchorState.invalidated /\ samples = [] /\
  (exists e, snd (read c' point) = Err e /\ e <> StatusCode.ok) /\ snd (set c' value point resolution) <> StatusCode.ok.
Proof.
  intros Hb Ha Ht c Hi. pose proof (run_consistent before new new_ok Hb) as Hr. subst c.
  destruct (run new before) as [c past]. destruct Hr as (Hc & _). cbn [fst] in *.
  pose proof (run_consistent after c Hc Ha) as Hr. destruct (run c after) as [c' samples]. destruct Hr as (Hc' & _ & _ & _ & Hf).
  destruct (Hf Hi) as [Hi' ->]. split_and!; [done | done | |].
  - unfold read. rewrite decide_True by congruence. eexists. split; [done |]. apply clock_status; congruence.
  - unfold set. case_decide; [done |]. rewrite decide_True by done. apply (ok_failed c' Hc'); congruence.
Qed.

(** ** Concrete histories *)
Definition at_ns (n : Z) : MonotonicPoint.t := MonotonicPoint.mk n 7.
Definition boot_call : call :=
  InitializeBoot (EpochReading.mk (EpochTime.mk 1700000000 0) EpochSource.pl031 1000000000) (at_ns 100) (at_ns 200) 1.
Definition sample_calls : list call :=
  [boot_call; Read (at_ns 1200); Set_ (EpochTime.mk 5 999999999) (at_ns 2000) 1; Read (at_ns 2001); Read (at_ns 3000)].

Lemma sample_calls_typed : Forall typed sample_calls.
Proof. repeat constructor; by vm_compute. Qed.

Lemma realtime_witness : StronglySorted consistent (snd (run new sample_calls)) /\
  map RealtimeSample.value (snd (run new sample_calls)) = [EpochTime.mk 1700000000 1000; EpochTime.mk 6 0; EpochTime.mk 6 999].
Proof. split; [apply (realtime_samples_exact sample_calls sample_calls_typed) | by vm_compute]. Defined.

(** The second read goes backwards; the setter comes too late. *)
Lemma realtime_loss_witness :
  snd (set (fst (run (fst (run new [boot_call; Read (at_ns 1200); Read (at_ns 1100)])) [Read (at_ns 2000)]))
        (EpochTime.mk 5 0) (at_ns 3000) 1) <> StatusCode.ok.
Proof.
  assert (Forall typed [boot_call; Read (at_ns 1200); Read (at_ns 1100)]) as Hb by (repeat constructor; by vm_compute).
  assert (Forall typed [Read (at_ns 2000)]) as Ha by (repeat constructor; by vm_compute).
  pose proof (realtime_loss_is_final _ _ (EpochTime.mk 5 0) (at_ns 3000) 1 Hb Ha ltac:(split; by vm_compute) ltac:(by vm_compute)) as Hr.
  destruct (run _ [Read (at_ns 2000)]) as [c' samples]. cbn [fst]. by destruct Hr as (_ & _ & _ & ?).
Defined.
