(* ===== verification/Timer.v ===== *)
(** * Interval timers (include/ok/time/interval_timer.hpp)

    One interval timer with its 64-bit saturating arithmetic.  The invariant
    excludes a division by zero in every history; the main theorem counts the
    expiries between a signal and its dequeue exactly. *)

From S2P Require Import Prelude Epoch.

Definition timer_horizon : Z := 0x7fffffffffffffff.
Definition timer_overrun_limit : Z := 0x7fffffff.

Module TimerSetting.
Record t := mk { value : Z; interval : Z }.
#[global] Instance t_eq_dec : EqDecision t.
Proof. solve_decision. Defined.
End TimerSetting.

Module IntervalTimer.
Module State.
Inductive t : Set := disarmed | armed | signalled.
#[global] Instance t_eq_dec : EqDecision t.
Proof. solve_decision. Defined.
End State.

Record t := mk {
  expiry_ : Z; interval_ : Z; previewed_ : Z; overrun_ : Z; overrun_last_ : Z; state_ : State.t; quiet_ : bool
}.
Definition new : t := mk 0 0 0 (-1) 0 State.disarmed false.

Definition with_state (t : t) (s : State.t) : IntervalTimer.t :=
  mk (expiry_ t) (interval_ t) (previewed_ t) (overrun_ t) (overrun_last_ t) s (quiet_ t).
Definition with_previewed (t : t) (now : Z) : IntervalTimer.t :=
  mk (expiry_ t) (interval_ t) now (overrun_ t) (overrun_last_ t) (state_ t) (quiet_ t).

Definition saturate (base delta : Z) : Z :=
  if (timer_horizon <=? base) || (timer_horizon - base <? delta) then timer_horizon else base + delta.

(** Adds skipped intervals to an overrun, an [i64] that is at least -1. *)
Definition add (overrun skipped : Z) : Z :=
  let maximum := i64_max in
  let headroom := u64_wrap (maximum - u64_wrap overrun) in
  if headroom <? skipped then maximum else to_i64 (u64_wrap (u64_wrap overrun + skipped)).
Definition clamp (overrun : Z) : Z :=
  if timer_overrun_limit <? overrun then timer_overrun_limit else if overrun <? 0 then 0 else overrun.

Definition forward (t : t) (now : Z) : IntervalTimer.t * Z :=
  if (interval_ t =? 0) || (now <? expiry_ t) then (t, 0)
  else
    let skipped := u64_wrap ((now - expiry_ t) / interval_ t + 1) in
    let delta := if timer_horizon / interval_ t <? skipped then timer_horizon else u64_wrap (skipped * interval_ t) in
    (mk (saturate (expiry_ t) delta) (interval_ t) (previewed_ t) (overrun_ t) (overrun_last_ t) (state_ t) (quiet_ t), skipped).
Definition count (t : t) (skipped : Z) : IntervalTimer.t :=
  mk (expiry_ t) (interval_ t) (previewed_ t) (add (overrun_ t) skipped) (overrun_last_ t) (state_ t) (quiet_ t).

Definition reset (quiet : bool) : t := mk 0 0 0 (-1) 0 State.disarmed quiet.

Definition set (t : t) (now : Z) (next : TimerSetting.t) (absolute : bool) : IntervalTimer.t :=
  if TimerSetting.value next =? 0
  then mk (expiry_ t) 0 (previewed_ t) (-1) 0 State.disarmed (quiet_ t)
  else
    let interval := if timer_horizon <? TimerSetting.interval next then timer_horizon else TimerSetting.interval next in
    let expiry :=
      if absolute then (if timer_horizon <? TimerSetting.value next then timer_horizon else TimerSetting.value next)
      else saturate now (TimerSetting.value next) in
    mk expiry interval (previewed_ t) (-1) 0 State.armed (quiet_ t).

Definition get (t : t) (now : Z) : IntervalTimer.t * TimerSetting.t :=
  if decide (state_ t = State.disarmed) then (t, TimerSetting.mk 0 0)
  else
    let interval := interval_ t in
    let t :=
      if negb (interval_ t =? 0) && (bool_decide (state_ t = State.signalled) || quiet_ t)
      then let '(t, skipped) := forward t now in count t skipped
      else t in
    let value := if now <? expiry_ t then expiry_ t - now else if negb (quiet_ t) then 1 else 0 in
    (t, TimerSetting.mk value interval).

Definition itimer (t : t) (now : Z) : TimerSetting.t :=
  if decide (state_ t <> State.armed) then TimerSetting.mk 0 (interval_ t)
  else TimerSetting.mk (if now <? expiry_ t then expiry_ t - now else 1000) (interval_ t).

Definition expire (t : t) (now : Z) : IntervalTimer.t * bool :=
  if quiet_ t || bool_decide (state_ t <> State.armed) || (now <? expiry_ t) then (t, false)
  else (with_previewed (with_state t (if interval_ t =? 0 then State.disarmed else State.signalled)) now, true).

Definition preview (t : t) (now : Z) : IntervalTimer.t * Z :=
  let t := with_previewed t now in
  if decide (state_ t <> State.signalled) then (t, 0)
  else
    let skipped := if now <? expiry_ t then 0 else u64_wrap ((now - expiry_ t) / interval_ t + 1) in
    (t, clamp (add (overrun_ t) skipped)).

Definition dequeued (t : t) : IntervalTimer.t :=
  if decide (state_ t <> State.signalled) then t
  else
    let '(t, skipped) := forward t (previewed_ t) in
    let t := count t skipped in
    mk (expiry_ t) (interval_ t) (previewed_ t) (-1) (overrun_ t) State.armed (quiet_ t).

Definition abandon (t : t) : IntervalTimer.t := with_state t State.disarmed.

Definition overrun (t : t) : Z := clamp (overrun_last_ t).
Definition state (t : t) : State.t := state_ t.
Definition quiet (t : t) : bool := quiet_ t.
Definition expiry (t : t) : Z := expiry_ t.
Definition interval (t : t) : Z := interval_ t.
End IntervalTimer.
Import IntervalTimer.

(** ** Arithmetic *)

Lemma saturate_range base delta : 0 <= base -> 0 <= delta -> 0 <= saturate base delta <= timer_horizon.
Proof. unfold saturate. intros. case_cond; b2p; unfold timer_horizon in *; lia. Qed.

Lemma add_exact overrun skipped : -1 <= overrun <= i64_max -> 0 <= skipped <= u64_max ->
  add overrun skipped = Z.min i64_max (overrun + skipped).
Proof.
  intros Ho Hs. unfold add, to_i64. assert (i64_max = 2 ^ 63 - 1) as Hi by done. assert (u64_max = 2 ^ 64 - 1) as Hu by done.
  assert (u64_wrap (i64_max - u64_wrap overrun) = i64_max - overrun) as Hh.
  { destruct (Z.eq_dec overrun (-1)) as [-> | Hne]; [by vm_compute |]. rewrite (u64_wrap_small overrun) by lia. apply u64_wrap_small. lia. }
  rewrite Hh. case_cond; b2p; [lia |]. assert (u64_wrap (u64_wrap overrun + skipped) = overrun + skipped mod 2 ^ 64 \/ skipped = 0) as Hc.
  { destruct (Z.eq_dec overrun (-1)) as [-> | Hne].
    - destruct (Z.eq_dec skipped 0) as [| Hz]; [by right | left]. rewrite (Z.mod_small skipped) by lia. change (u64_wrap (-1)) with (2 ^ 64 - 1).
      unfold u64_wrap. replace (2 ^ 64 - 1 + skipped) with (skipped - 1 + 1 * 2 ^ 64) by lia. rewrite Z_mod_plus_full, Z.mod_small by lia. lia.
    - left. rewrite (Z.mod_small skipped), (u64_wrap_small overrun), u64_wrap_small by lia. done. }
  destruct Hc as [-> | ->]; [rewrite (Z.mod_small skipped) by lia; destruct (Z.leb_spec (overrun + skipped) i64_max); lia |].
  destruct (Z.eq_dec overrun (-1)) as [-> | Hne]; [by vm_compute |]. rewrite !Z.add_0_r, (u64_wrap_small overrun), u64_wrap_small by lia.
  destruct (Z.leb_spec overrun i64_max); lia.
Qed.

(** ** Invariant *)
Record timer_ok (t : t) : Prop := {
  ok_interval : 0 <= interval_ t <= timer_horizon;
  ok_expiry : 0 <= expiry_ t <= timer_horizon;
  ok_set : state_ t <> State.disarmed -> 1 <= expiry_ t;
  ok_signalled : state_ t = State.signalled -> interval_ t <> 0;
  ok_overrun : -1 <= overrun_ t <= i64_max;
  ok_last : -1 <= overrun_last_ t <= i64_max;
  ok_previewed : 0 <= previewed_ t <= u64_max;
  ok_armed : state_ t = State.armed -> quiet_ t = false -> overrun_ t = -1
}.

(** The number of expiries from [expiry] on that are not after [now]. *)
Definition expiries (expiry interval now : Z) : Z := (now - expiry) / interval + 1.

Lemma expiries_spec e i now : 0 < i -> e <= now ->
  let k := expiries e i now in 1 <= k /\ e + (k - 1) * i <= now < e + k * i.
Proof.
  intros Hi Hn k. subst k. unfold expiries. pose proof (Z.div_mod (now - e) i ltac:(lia)). pose proof (Z.mod_pos_bound (now - e) i Hi).
  pose proof (Z.div_pos (now - e) i). nia.
Qed.

Lemma forward_fields t now : let '(t', k) := forward t now in
  interval_ t' = interval_ t /\ previewed_ t' = previewed_ t /\ overrun_ t' = overrun_ t /\ overrun_last_ t' = overrun_last_ t /\
  state_ t' = state_ t /\ quiet_ t' = quiet_ t.
Proof. unfold forward. by case_cond. Qed.

Lemma skipped_range t now : timer_ok t -> state_ t <> State.disarmed -> 0 <= now <= u64_max -> expiry_ t <= now -> interval_ t <> 0 ->
  u64_wrap (expiries (expiry_ t) (interval_ t) now) = expiries (expiry_ t) (interval_ t) now /\
  1 <= expiries (expiry_ t) (interval_ t) now <= u64_max.
Proof.
  intros Ht Hs Hnow He Hi. pose proof (ok_interval t Ht). pose proof (ok_set t Ht Hs).
  pose proof (expiries_spec (expiry_ t) (interval_ t) now ltac:(lia) He) as Hk. cbv zeta in Hk.
  assert (expiries (expiry_ t) (interval_ t) now <= u64_max) by nia. split; [apply u64_wrap_small; lia | lia].
Qed.

Lemma forward_ok t now : timer_ok t -> state_ t <> State.disarmed -> 0 <= now <= u64_max ->
  let '(t', k) := forward t now in timer_ok t' /\ 0 <= k <= u64_max.
Proof.
  intros Ht Hs Hnow. unfold forward. case_cond; [done |]. b2p.
  destruct (skipped_range t now) as [Hw Hr]; [done | done | done | lia | done |]. unfold expiries in Hw, Hr. rewrite !Hw.
  pose proof (ok_expiry t Ht). pose proof (ok_interval t Ht). pose proof (ok_set t Ht Hs).
  set (delta := if _ <? _ then _ else _) in *.
  assert (0 <= delta) by (subst delta; case_cond; [by vm_compute | apply Z.mod_pos_bound; lia]).
  split; [| lia]. pose proof (saturate_range (expiry_ t) delta ltac:(lia) ltac:(done)).
  pose proof Ht as []. split; cbn; try assumption. intros _. unfold saturate in *. case_cond; [by vm_compute | lia].
Qed.

Lemma count_ok t k : timer_ok t -> (state_ t = State.armed -> quiet_ t = true) -> 0 <= k <= u64_max -> timer_ok (count t k).
Proof.
  intros Ht Hq Hk. pose proof (ok_overrun t Ht). pose proof (add_exact (overrun_ t) k ltac:(lia) Hk) as Ha. unfold i64_max in *.
  pose proof Ht as []. split; cbn; try assumption; [unfold i64_max; lia |]. intros Harm Hnq. rewrite Hq in Hnq; done.
Qed.

Lemma with_previewed_ok t now : timer_ok t -> 0 <= now <= u64_max -> timer_ok (with_previewed t now).
Proof. intros [H1 H2 H3 H4 H5 H6 _ H8] Hn. exact (Build_timer_ok (with_previewed t now) H1 H2 H3 H4 H5 H6 Hn H8). Qed.

(** ** Histories *)
Inductive call :=
  | Reset (quiet : bool)
  | Set_ (now : Z) (next : TimerSetting.t) (absolute : bool)
  | Get (now : Z)
  | Expire (now : Z)
  | Preview (now : Z)
  | Dequeued
  | Abandon.
Definition exec (t : t) (o : call) : IntervalTimer.t :=
  match o with
  | Reset quiet => reset quiet
  | Set_ now next absolute => set t now next absolute
  | Get now => fst (get t now)
  | Expire now => fst (expire t now)
  | Preview now => fst (preview t now)
  | Dequeued => dequeued t
  | Abandon => abandon t
  end.
Definition typed (o : call) : Prop :=
  match o with
  | Set_ now next _ => 0 <= now <= u64_max /\ 0 <= TimerSetting.value next <= u64_max /\ 0 <= TimerSetting.interval next <= u64_max
  | Get now | Expire now | Preview now => 0 <= now <= u64_max
  | _ => True
  end.

Lemma get_ok t now : timer_ok t -> 0 <= now <= u64_max -> timer_ok (fst (get t now)).
Proof.
  intros Ht Hn. unfold get. case_decide as Hs; [done |]. cbn [fst]. destruct (negb (interval_ t =? 0) && _) eqn:E; [| done]. b2p.
  pose proof (forward_ok t now Ht Hs Hn) as Hf.
  pose proof (forward_fields t now) as Hfl. destruct (forward t now) as [t' k]. destruct Hfl as (_ & _ & _ & _ & Hst & Hq), Hf as [? ?].
  apply count_ok; [done | | done]. rewrite Hst, Hq. intros Ha. rewrite Ha in *. naive_solver.
Qed.

Lemma dequeued_ok t : timer_ok t -> timer_ok (dequeued t).
Proof.
  intros Ht. unfold dequeued. case_decide as Hs; [done |].
  pose proof (forward_ok t (previewed_ t) Ht ltac:(congruence) (ok_previewed t Ht)) as Hf. pose proof (forward_fields t (previewed_ t)) as Hfl.
  destruct (forward t (previewed_ t)) as [t' k]. destruct Hf as [Ht' Hk], Hfl as (_ & _ & _ & _ & Hst & _).
  pose proof (count_ok t' k Ht' ltac:(congruence) Hk) as Hc. pose proof Hc as [].
  split; cbn [expiry_ interval_ previewed_ overrun_ overrun_last_ state_] in *; try assumption; [| done | by vm_compute | done].
  intros _. apply (ok_set _ Hc). cbn. congruence.
Qed.

Lemma exec_ok t o : timer_ok t -> typed o -> timer_ok (exec t o).
Proof.
  intros Ht Ho. assert (timer_horizon = 9223372036854775807) as Hh by done. assert (i64_max = 9223372036854775807) as Hi by done.
  destruct o as [quiet | now next absolute | now | now | now | |]; cbn [exec typed] in *.
  - split; cbn; done || lia.
  - destruct Ho as (Hn & Hv & Hiv). pose proof Ht as []. unfold set. case_cond; [split; cbn; assumption || lia || done |]. b2p.
    assert (1 <= (if absolute then if timer_horizon <? TimerSetting.value next then timer_horizon else TimerSetting.value next
                  else saturate now (TimerSetting.value next)) <= timer_horizon) as He
      by (unfold saturate; repeat case_cond; b2p; lia).
    split; cbn [interval_ expiry_ state_ overrun_ overrun_last_ previewed_]; try assumption; try lia; [case_cond; b2p; lia | done].
  - by apply get_ok.
  - unfold expire. case_cond; [done |]. b2p. cbn [fst]. pose proof Ht as []. split; cbn; try assumption.
    + intros _. apply (ok_set t Ht). by match goal with H : bool_decide _ = false |- _ => apply bool_decide_eq_false, dec_stable in H; rewrite H end.
    + case_cond; b2p; done.
    + by case_cond.
  - unfold preview. case_decide; by apply with_previewed_ok.
  - by apply dequeued_ok.
  - destruct Ht as [H1 H2 _ _ H5 H6 H7 _]. split; [exact H1 | exact H2 | by cbn | done | exact H5 | exact H6 | exact H7 | done].
Qed.

(** ** The overrun of a signal *)

(** What may happen to a signalled timer before its signal is dequeued. *)
Inductive observation := Seen (now : Z) | Previewed (now : Z).
Definition time_of (o : observation) : Z := match o with Seen now | Previewed now => now end.
Definition observe (t : t) (o : observation) : IntervalTimer.t :=
  match o with Seen now => fst (get t now) | Previewed now => fst (preview t now) end.

(** A timer signalled at expiry [e] and observed until [now]: [k] expiries
    were counted, and the next one, cut off at the horizon, lies after all that
    was counted; [u] tells that it was not cut off. *)
Definition observed (u : bool) (e i now : Z) (t : t) : Prop :=
  timer_ok t /\ state_ t = State.signalled /\ interval_ t = i /\ 1 <= e <= previewed_ t /\ previewed_ t <= now /\
  exists k, 0 <= k /\ overrun_ t = k - 1 /\ expiry_ t = Z.min timer_horizon (e + k * i) /\ (k = 0 \/ e + (k - 1) * i <= now) /\
    (u = true -> e + k * i <= timer_horizon) /\ (expiry_ t <= now -> previewed_ t = now).

Lemma forward_exact t now : timer_ok t -> interval_ t <> 0 -> 1 <= expiry_ t -> 0 <= now <= timer_horizon ->
  let k := if now <? expiry_ t then 0 else expiries (expiry_ t) (interval_ t) now in
  let '(t', skipped) := forward t now in
  skipped = k /\ expiry_ t' = Z.min timer_horizon (expiry_ t + k * interval_ t) /\ 0 <= k <= i64_max.
Proof.
  intros Ht Hi He Hn k. subst k. pose proof (ok_interval t Ht). pose proof (ok_expiry t Ht). assert (timer_horizon = i64_max) by done. unfold forward.
  destruct (Z.ltb_spec now (expiry_ t)) as [Hlt | Hge]; [rewrite orb_true_r; cbn; unfold i64_max; lia |]. cmp.
  pose proof (expiries_spec (expiry_ t) (interval_ t) now ltac:(lia) Hge) as Hk. cbv zeta in Hk. unfold expiries in *.
  set (k := (now - expiry_ t) / interval_ t + 1) in *. assert (k <= timer_horizon) by nia.
  assert (i64_max <= u64_max) by done. rewrite (u64_wrap_small k) by lia. split; [done |]. split; [| lia]. cbn [expiry_].
  destruct (Z.ltb_spec (timer_horizon / interval_ t) k) as [Hbig | Hsmall].
  - assert (timer_horizon < k * interval_ t).
    { pose proof (Z.mul_succ_div_gt timer_horizon (interval_ t) ltac:(lia)). nia. }
    unfold saturate. case_cond; b2p; lia.
  - assert (k * interval_ t <= timer_horizon) by (pose proof (Z.mul_div_le timer_horizon (interval_ t) ltac:(lia)); nia).
    rewrite u64_wrap_small by nia. unfold saturate. case_cond; b2p; lia.
Qed.

(** Counting the expiries up to [later] leaves [expiries] of them counted. *)
Lemma counted u e i now t : 0 < i -> observed u e i now t -> forall later, now <= later ->
  later < timer_horizon \/ u = true /\ later = timer_horizon ->
  let k := expiries e i later in
  let '(t', skipped) := forward t later in
  expiry_ t' = Z.min timer_horizon (e + k * i) /\ add (overrun_ t) skipped = k - 1 /\ e + (k - 1) * i <= later < e + k * i.
Proof.
  intros Hi (Ht & Hs & Hint & Hp & Hpn & k0 & Hk0 & Ho & He & Hle & Hu & _) later Hl Hh k.
  assert (1 <= expiry_ t) by (apply (ok_set t Ht); congruence). pose proof (ok_previewed t Ht). pose proof (ok_overrun t Ht).
  pose proof (expiries_spec e i later Hi ltac:(lia)) as Hk. fold k in Hk. cbv zeta in Hk.
  pose proof (forward_exact t later Ht ltac:(lia) ltac:(lia) ltac:(lia)) as Hf. cbv zeta in Hf. rewrite Hint in Hf.
  destruct (forward t later) as [t' skipped]. destruct Hf as (-> & Hx & Hr).
  assert (expiry_ t <= later -> expiry_ t = e + k0 * i) as Hexact by (intros ?; destruct Hh as [? | [-> ->]]; [lia | specialize (Hu eq_refl); lia]).
  assert (k0 + (if later <? expiry_ t then 0 else expiries (expiry_ t) i later) = k) as Hsum.
  { destruct (Z.ltb_spec later (expiry_ t)) as [Hlt | Hge]; [nia |].
    pose proof (expiries_spec (expiry_ t) i later Hi Hge) as Hk2. cbv zeta in Hk2. rewrite (Hexact Hge) in *. nia. }
  assert (i64_max <= u64_max) by done. assert (timer_horizon = i64_max) by done. assert (k - 1 <= later) by nia.
  split_and!; [| rewrite add_exact by lia; lia | lia | lia].
  rewrite Hx, <- Hsum. destruct (Z.ltb_spec later (expiry_ t)) as [Hlt | Hge]; [rewrite He; lia | rewrite (Hexact Hge); lia].
Qed.

(** Observations a timer is exact for: reads before the horizon, and, if the
    next expiry must not be cut off, an interval before it. *)
Definition in_reach (u : bool) (i : Z) (o : observation) : Prop :=
  time_of o <= timer_horizon /\
  match o with Seen now => now < timer_horizon /\ (u = true -> now + i <= timer_horizon) | Previewed _ => True end.

Lemma observe_step u e i now t o : 0 < i -> observed u e i now t -> now <= time_of o -> in_reach u i o ->
  observed u e i (time_of o) (observe t o).
Proof.
  intros Hi Hob Hn Hh. pose proof Hob as (Ht & Hs & Hint & Hp & Hpn & k0 & Hk0 & Ho & He & Hle & Hu & Hpv).
  assert (i64_max <= u64_max) by done. assert (timer_horizon = i64_max) by done. pose proof (ok_previewed t Ht).
  destruct o as [later | later]; cbn [observe time_of in_reach] in *; destruct Hh as [Hh Hseen]; cbn [time_of] in Hh.
  - assert (timer_ok (fst (get t later))) as Hok by (apply get_ok; [done | lia]). revert Hok.
    unfold get. rewrite decide_False by congruence. rewrite bool_decide_true by done. cmp. cbn [orb]. cbn [fst].
    pose proof (counted u e i now t Hi Hob later Hn ltac:(lia)) as Hc. cbv zeta in Hc.
    pose proof (forward_fields t later) as Hf. destruct (forward t later) as [t' skipped].
    destruct Hf as (Hf1 & Hf2 & Hf3 & _ & Hf5 & _). destruct Hc as (Hc1 & Hc2 & Hc3). intros Hok.
    split_and!; cbn [count state_ interval_ previewed_ overrun_ expiry_]; try congruence; try lia.
    exists (expiries e i later). pose proof (expiries_spec e i later Hi ltac:(lia)) as Hx. cbv zeta in Hx. destruct Hseen as [Hlt Hun].
    split_and!; [lia | congruence | congruence | lia | intros Hu'; specialize (Hun Hu'); lia | lia].
  - unfold preview. assert (observed u e i later (with_previewed t later)) as Hob'.
    { split_and!; try done; [apply with_previewed_ok; [done | lia] | cbn; lia..|]. exists k0. cbn. split_and!; try done; lia. }
    by case_decide.
Qed.

(** The observations of a history, at times that do not go backwards. *)
Fixpoint in_order (now : Z) (l : list observation) : Prop :=
  match l with [] => True | o :: l => now <= time_of o /\ in_order (time_of o) l end.
Fixpoint last_time (now : Z) (l : list observation) : Z :=
  match l with [] => now | o :: l => last_time (time_of o) l end.

Lemma last_time_le l : forall now, in_order now l -> now <= last_time now l.
Proof. induction l as [| o l IH]; intros now; cbn; [lia |]. intros [H Ho]. specialize (IH _ Ho). lia. Qed.

Lemma times_le l : forall now, in_order now l -> Forall (fun o => time_of o <= last_time now l) l.
Proof.
  induction l as [| o l IH]; intros now; cbn; [constructor |]. intros [_ Ho]. constructor; [by apply last_time_le | by apply IH].
Qed.

Lemma observe_all u e i l : 0 < i -> forall now t, observed u e i now t -> in_order now l -> Forall (in_reach u i) l ->
  observed u e i (last_time now l) (fold_left observe l t).
Proof.
  intros Hi. induction l as [| o l IH]; intros now t Hob; cbn [in_order last_time fold_left]; [done |]. intros [Hn Ho] [Hr Hl]%Forall_cons.
  apply IH; [| done | done]. by apply (observe_step u e i now).
Qed.

(** The clock stays before the horizon; at the horizon itself the timer may be
    previewed, if it was last read at least an interval earlier. *)
Definition before_horizon (i last : Z) (l : list observation) : Prop :=
  last < timer_horizon \/
  last = timer_horizon /\ Forall (fun o => match o with Seen now => now + i <= timer_horizon | Previewed _ => True end) l.

Lemma before_horizon_reach i now l : 0 < i -> in_order now l -> before_horizon i (last_time now l) l -> exists u,
  Forall (in_reach u i) l /\ (last_time now l < timer_horizon \/ u = true /\ last_time now l = timer_horizon).
Proof.
  intros Hi Ho Hb. pose proof (times_le l now Ho) as Ht. destruct Hb as [Hlt | [He Hs]]; [exists false | exists true]; (split; [| tauto]).
  - eapply Forall_impl; [exact Ht |]. intros o Hle. cbn in Hle. split; [lia |]. destruct o; [| done]. cbn in Hle. split; [lia | done].
  - apply Forall_forall. intros o Hin. rewrite Forall_forall in Ht, Hs. specialize (Ht o Hin). specialize (Hs o Hin). cbn in Ht, Hs.
    split; [lia |]. destruct o; [| done]. cbn in Hs. lia.
Qed.

Lemma run_ok calls : Forall typed calls -> forall t, timer_ok t -> timer_ok (fold_left exec calls t).
Proof. induction 1 as [| o calls Ho _ IH]; intros t Ht; cbn; [done |]. apply IH. by apply exec_ok. Qed.

Lemma timer_new_ok : timer_ok new.
Proof. by split. Qed.

Lemma clamp_count k : 1 <= k -> clamp (k - 1) = Z.min timer_overrun_limit (k - 1).
Proof. intros. unfold clamp. repeat case_cond; b2p; lia. Qed.

Lemma dequeued_exact u e i now t : 0 < i -> observed u e i now t -> now < timer_horizon \/ u = true /\ now = timer_horizon ->
  let t2 := dequeued t in let k := expiries e i now in
  1 <= k /\ e + (k - 1) * i <= now < e + k * i /\
  state_ t2 = State.armed /\ expiry_ t2 = Z.min timer_horizon (e + k * i) /\ interval_ t2 = i /\ overrun_last_ t2 = k - 1 /\ quiet_ t2 = quiet_ t.
Proof.
  intros Hi Hob Hh t2 k. pose proof Hob as (Ht & Hs & Hint & Hp & Hpn & k0 & Hk0 & Ho & He & Hle & Hu & Hpv).
  pose proof (expiries_spec e i now Hi ltac:(lia)) as Hk. cbv zeta in Hk. fold k in Hk. split; [lia |]. split; [lia |].
  subst t2. unfold dequeued. rewrite decide_False by (by intros []).
  pose proof (forward_fields t (previewed_ t)) as Hf.
  assert (let '(t', skipped) := forward t (previewed_ t) in expiry_ t' = Z.min timer_horizon (e + k * i) /\ add (overrun_ t) skipped = k - 1) as Hc.
  { destruct (Z.lt_ge_cases now (expiry_ t)) as [Hlt | Hge].
    - unfold forward. rewrite (proj2 (Z.ltb_lt (previewed_ t) _)) by lia. rewrite orb_true_r.
      assert (k0 = k) as -> by nia. pose proof (ok_overrun t Ht). split; [done |]. rewrite add_exact; unfold u64_max; lia.
    - rewrite (Hpv Hge). pose proof (counted u e i now t Hi Hob now ltac:(lia) Hh) as Hc. cbv zeta in Hc. destruct (forward t now). naive_solver. }
  destruct (forward t (previewed_ t)) as [t' skipped]. destruct Hf as (Hf1 & _ & Hf3 & _ & _ & Hf6), Hc as [Hc1 Hc2].
  cbn. rewrite Hf3. split_and!; congruence.
Qed.

Lemma expire_true t now t1 : expire t now = (t1, true) ->
  quiet_ t = false /\ state_ t = State.armed /\ expiry_ t <= now /\
  t1 = with_previewed (with_state t (if interval_ t =? 0 then State.disarmed else State.signalled)) now.
Proof.
  unfold expire. case_cond; [done |]. b2p. intros [= <-].
  match goal with H : bool_decide _ = false |- _ => by apply bool_decide_eq_false, dec_stable in H end.
Qed.

Lemma quiet_observed l : forall t, quiet_ (fold_left observe l t) = quiet_ t.
Proof.
  induction l as [| o l IH]; intros t; cbn; [done |]. rewrite IH. destruct o as [now | now]; cbn.
  - unfold get. case_decide; [done |]. cbn. case_cond; [| done]. pose proof (forward_fields t now) as Hf.
    destruct (forward t now) as [t' k]. destruct Hf as (_ & _ & _ & _ & _ & Hq). exact Hq.
  - unfold preview. by case_decide.
Qed.

(** C27: in every history, when an interval timer expires at [now] it queues one
    signal.  Whatever is read or previewed until the signal is dequeued, at times
    that do not go backwards and stay before the horizon of 2^63 - 1 ns (a
    preview may also be at the horizon, if the reads were an interval earlier),
    the dequeue reports the [k - 1] further expiries up to the last observation,
    clamped to 31 bits.  The timer is armed for the first expiry after that
    observation, still on the grid of the first one, or for the horizon when
    that expiry lies behind it. *)
Theorem timer_overrun_exact calls now l : Forall typed calls ->
  let t := fold_left exec calls new in
  let e := expiry t in let i := interval t in
  let '(t1, signal) := expire t now in
  signal = true -> i <> 0 -> in_order now l -> before_horizon i (last_time now l) l ->
  let t2 := dequeued (fold_left observe l t1) in
  exists k, 1 <= k /\ e + (k - 1) * i <= last_time now l < e + k * i /\
    state t2 = State.armed /\ expiry t2 = Z.min timer_horizon (e + k * i) /\ interval t2 = i /\ overrun t2 = Z.min timer_overrun_limit (k - 1) /\
    (forall later, snd (expire t1 later) = false) /\ forall later, snd (expire t2 later) = (expiry t2 <=? later).
Proof.
  intros Hty t e i. assert (timer_ok t) as Ht by (apply run_ok; [done | apply timer_new_ok]).
  destruct (expire t now) as [t1 signal] eqn:Ee. intros -> Hi Ho Hh.
  destruct (expire_true t now t1 Ee) as (Hq & Harm & Hle & Et1). rewrite (proj2 (Z.eqb_neq (interval_ t) 0)) in Et1 by done.
  pose proof (ok_interval t Ht). pose proof (ok_expiry t Ht). pose proof (ok_set t Ht ltac:(congruence)). pose proof (last_time_le l now Ho).
  assert (0 < i) as Hpos by (unfold i, interval in *; lia). assert (timer_horizon <= u64_max) by done.
  destruct (before_horizon_reach i now l Hpos Ho Hh) as (u & Hreach & Hlast).
  assert (timer_ok t1) as Ht1 by (pose proof (exec_ok t (Expire now) Ht) as Hx; cbn in Hx; rewrite Ee in Hx; apply Hx; lia).
  assert (observed u e i now t1) as Hob.
  { split; [done |]. rewrite Et1. unfold e, i, expiry, interval in *. cbn. split_and!; try done. exists 0. rewrite (ok_armed t Ht Harm Hq). lia. }
  pose proof (observe_all u e i l Hpos now t1 Hob Ho Hreach) as Hall.
  pose proof (dequeued_exact u e i _ _ Hpos Hall Hlast) as Hd. cbv zeta in Hd. set (t2 := dequeued _) in *.
  set (k := expiries e i (last_time now l)) in *. destruct Hd as (Hk & Hr & Hs2 & He2 & Hi2 & Ho2 & Hq2).
  exists k. unfold overrun, state. rewrite Ho2, clamp_count by done. split_and!; try done; try lia.
  - intros later. unfold expire. rewrite Et1. cbn. by rewrite orb_true_r.
  - intros later. rewrite quiet_observed, Et1 in Hq2. cbn in Hq2. unfold expire. rewrite Hq2, Hq, bool_decide_false by (by intros []).
    cbn [orb]. unfold expiry. destruct (Z.ltb_spec later (expiry_ t2)); cbn; lia.
Qed.

(** An interval timer of 10 set at 100, signalled at 112, read at 125 and
    dequeued after a preview at 139: the expiries at 120 and 130 are reported.
    One of 1 previewed at the horizon is rearmed there. *)
Lemma timer_overrun_witness :
  (exists t1, expire (set new 100 (TimerSetting.mk 10 10) false) 112 = (t1, true) /\
    let t2 := dequeued (fold_left observe [Seen 125; Previewed 139] t1) in overrun t2 = 2 /\ expiry t2 = 140) /\
  (exists t1, expire (set new 0 (TimerSetting.mk 1 1) false) 1 = (t1, true) /\
    let t2 := dequeued (fold_left observe [Previewed timer_horizon] t1) in overrun t2 = timer_overrun_limit /\ expiry t2 = timer_horizon).
Proof.
  split.
  - assert (Forall typed [Set_ 100 (TimerSetting.mk 10 10) false]) as Hty by (repeat constructor; by vm_compute).
    pose proof (timer_overrun_exact [Set_ 100 (TimerSetting.mk 10 10) false] 112 [Seen 125; Previewed 139] Hty) as Hc.
    cbv zeta in Hc. cbn [fold_left exec] in *.
    destruct (expire (set new 100 (TimerSetting.mk 10 10) false) 112) as [t1 signal] eqn:E.
    assert (signal = true) as -> by (vm_compute in E; congruence). exists t1. split; [done |].
    destruct Hc as (k & Hk & Hr & _ & He & _ & Ho & _); [done | by vm_compute | by vm_compute | by left; vm_compute |].
    change (expiry (set new 100 (TimerSetting.mk 10 10) false)) with 110 in *.
    change (interval (set new 100 (TimerSetting.mk 10 10) false)) with 10 in *. cbn [last_time time_of] in *.
    assert (k = 3) as -> by lia. cbn zeta. rewrite He, Ho. by vm_compute.
  - assert (Forall typed [Set_ 0 (TimerSetting.mk 1 1) false]) as Hty by (repeat constructor; by vm_compute).
    pose proof (timer_overrun_exact [Set_ 0 (TimerSetting.mk 1 1) false] 1 [Previewed timer_horizon] Hty) as Hc.
    cbv zeta in Hc. cbn [fold_left exec] in *.
    destruct (expire (set new 0 (TimerSetting.mk 1 1) false) 1) as [t1 signal] eqn:E.
    assert (signal = true) as -> by (vm_compute in E; congruence). exists t1. split; [done |].
    destruct Hc as (k & Hk & Hr & _ & He & _ & Ho & _); [done | by vm_compute | by vm_compute | right; split; [done | by constructor] |].
    change (expiry (set new 0 (TimerSetting.mk 1 1) false)) with 1 in *.
    change (interval (set new 0 (TimerSetting.mk 1 1) false)) with 1 in *. cbn [last_time time_of] in *.
    assert (k = timer_horizon) as -> by lia. cbn zeta. rewrite He, Ho. by vm_compute.
Defined.
