(* ===== verification/Clock.v ===== *)
(** * Clock sources and latencies (include/ok/time/clocksource.hpp,
      include/ok/time/latency_histogram.hpp)

    Conversion of counter ticks to nanoseconds with 64-bit arithmetic only, and
    the log-linear latency histogram.  The theorems compare the conversions with
    the exact ones on all inputs, the ranges where they wrap or round the wrong
    way included, and bound the error of a percentile. *)

From S2P Require Import Prelude Epoch.

(** The concept ClockSource: what a clock reads from its counter. *)
Class ClockSource (S : Type) := {
  counter : S -> Z;
  frequency_hz : S -> Z
}.

Module ModelClockSource.
Record t := mk { frequency_ : Z; counter_ : Z }.
Definition new (frequency_hz : Z) : t := mk frequency_hz 0.
Definition advance (s : t) (ticks : Z) : t := mk (frequency_ s) (u64_wrap (counter_ s + ticks)).
End ModelClockSource.
#[global] Instance model_clock_source : ClockSource ModelClockSource.t := {
  counter := ModelClockSource.counter_;
  frequency_hz := ModelClockSource.frequency_
}.

(** The clock holds a reference to its source, which moves on its own: the
    source is an argument of each operation. *)
Module CalibratedClock.
Record t := mk { origin_ : Z; initialized_ : bool }.
Definition new : t := mk 0 false.

Section Defs.
Context {S : Type} `{ClockSource S}.

Definition initialize (c : t) (source : S) : t * Status :=
  if frequency_hz source =? 0 then (c, StatusCode.invalid_argument)
  else (mk (counter source) true, StatusCode.ok).

Definition monotonic_ns (c : t) (source : S) : result Z :=
  if negb (initialized_ c) then Err StatusCode.not_initialized
  else
    let ticks := u64_wrap (counter source - origin_ c) in
    let hz := frequency_hz source in
    let seconds := ticks / hz in
    let remainder := ticks mod hz in
    if u64_max / nanoseconds_per_second <? seconds then Err StatusCode.overflow
    else
      let whole := seconds * nanoseconds_per_second in
      if u64_max / nanoseconds_per_second <? hz then Err StatusCode.unsupported
      else Ok (u64_wrap (whole + u64_wrap (remainder * nanoseconds_per_second) / hz)).

Definition deadline_ticks (c : t) (source : S) (relative_ns : Z) : result Z :=
  if negb (initialized_ c) then Err StatusCode.not_initialized
  else
    let hz := frequency_hz source in
    let seconds := relative_ns / nanoseconds_per_second in
    let rem := relative_ns mod nanoseconds_per_second in
    if negb (hz =? 0) && (u64_max / hz <? seconds) then Err StatusCode.overflow
    else
      let ticks := u64_wrap (seconds * hz + u64_wrap (rem * hz) / nanoseconds_per_second) in
      Ok (u64_wrap (counter source + ticks)).

Definition initialized (c : t) : bool := initialized_ c.
End Defs.
End CalibratedClock.

Definition ticks_to_nanoseconds (ticks frequency : Z) : Z :=
  let second := 1000000000 in
  let maximum := u64_max in
  if frequency =? 0 then 0
  else
    let seconds := ticks / frequency in
    let fraction := ticks mod frequency in
    if maximum / second <? seconds then maximum
    else
      let part :=
        if frequency <=? maximum / second then u64_wrap (fraction * second) / frequency
        else fraction / (frequency / second) in
      if maximum - part <? u64_wrap (seconds * second) then maximum else u64_wrap (u64_wrap (seconds * second) + part).

Module LatencyHistogram.
Definition sub_buckets : Z := 8.
Definition maximum_exponent : Z := 31.
Definition bucket_count : Z := sub_buckets + (maximum_exponent - 2) * sub_buckets.

Record t := mk { buckets_ : list Z; count_ : Z; minimum_ : Z; maximum_ : Z; total_ : Z }.
Definition new : t := mk (replicate (Z.to_nat bucket_count) 0) 0 0 0 0.

(** [while (!(value >> exponent)) --exponent]; a value of at least 8 stops it. *)
Fixpoint leading (n : nat) (value exponent : Z) : Z :=
  match n with
  | O => exponent
  | S n' => if Z.shiftr value exponent =? 0 then leading n' value (exponent - 1) else exponent
  end.

Definition index (nanoseconds : Z) : Z :=
  if nanoseconds <? sub_buckets then nanoseconds
  else if u32_max <? nanoseconds then bucket_count - 1
  else
    let value := nanoseconds in
    let exponent := leading 32 value 31 in
    let mantissa := Z.land (Z.shiftr value (exponent - 3)) (sub_buckets - 1) in
    sub_buckets + (exponent - 3) * sub_buckets + mantissa.

Definition upper_bound (bucket : Z) : Z :=
  if bucket <? sub_buckets then bucket
  else if bucket_count - 1 <=? bucket then u64_max
  else
    let exponent := (bucket - sub_buckets) / sub_buckets + 3 in
    let mantissa := (bucket - sub_buckets) mod sub_buckets in
    u32_wrap (u32_wrap (Z.shiftl (sub_buckets + mantissa + 1) (exponent - 3)) - 1).

Section Defs.
Context `{Arch}.
Definition record (h : t) (nanoseconds : Z) : t :=
  let i := index nanoseconds in
  mk (buckets_ h).[i := u32_wrap ((buckets_ h).[i] + 1)]
     (usize_wrap (count_ h + 1))
     (if (count_ h =? 0) || (nanoseconds <? minimum_ h) then nanoseconds else minimum_ h)
     (if maximum_ h <? nanoseconds then nanoseconds else maximum_ h)
     (if u64_max - total_ h <? nanoseconds then u64_max else total_ h + nanoseconds).
End Defs.

Definition count (h : t) : Z := count_ h.
Definition minimum (h : t) : Z := minimum_ h.
Definition maximum (h : t) : Z := maximum_ h.
Definition mean (h : t) : Z := if count_ h =? 0 then 0 else total_ h / count_ h.

(** [for (bucket = 0; bucket < bucket_count; ++bucket)], from [bucket] on. *)
Fixpoint percentile_from (n : nat) (h : t) (rank bucket seen : Z) : Z :=
  match n with
  | O => maximum_ h
  | S n' =>
      let seen := u64_wrap (seen + (buckets_ h).[bucket]) in
      if negb (seen =? 0) && (rank <=? seen) then
        let bound := upper_bound bucket in
        if bound <? minimum_ h then minimum_ h else if maximum_ h <? bound then maximum_ h else bound
      else percentile_from n' h rank (bucket + 1) seen
  end.
Definition percentile (h : t) (per_mille : Z) : Z :=
  if count_ h =? 0 then 0
  else
    let rank := u64_wrap (u64_wrap (count_ h * per_mille) + 999) / 1000 in
    percentile_from (Z.to_nat bucket_count) h rank 0 0.
End LatencyHistogram.
Import LatencyHistogram.

(** ** Conversions *)

(** The number of whole nanoseconds in [ticks] of a [hz] counter. *)
Definition exact_ns (ticks hz : Z) : Z := ticks * nanoseconds_per_second / hz.

(** Whole units first, then the remainder. *)
Lemma scale_split x d b : 0 < d -> 0 <= x -> 0 <= b -> x / d * b + x mod d * b / d = x * b / d.
Proof.
  intros Hd Hx Hb. rewrite (Z.div_mod x d) at 3 by lia.
  replace ((d * (x / d) + x mod d) * b) with (x / d * b * d + x mod d * b) by lia. rewrite Z.div_add_l by lia. done.
Qed.

Lemma remainder_scaled x d b : 0 < d -> d <= u64_max / b -> 0 < b -> 0 <= x mod d * b <= u64_max.
Proof.
  intros Hd Hm Hb. pose proof (Z.mod_pos_bound x d Hd). assert (d * b <= u64_max) by (pose proof (Z.mul_div_le u64_max b Hb); nia). nia.
Qed.

Lemma ticks_to_nanoseconds_exact ticks hz : 0 <= ticks <= u64_max -> 0 < hz <= u64_max / nanoseconds_per_second ->
  ticks_to_nanoseconds ticks hz = Z.min u64_max (exact_ns ticks hz).
Proof.
  intros Ht Hz. unfold ticks_to_nanoseconds, exact_ns. fold nanoseconds_per_second. cmp.
  pose proof (remainder_scaled ticks hz nanoseconds_per_second ltac:(lia) ltac:(lia) ltac:(done)) as Hr. rewrite (u64_wrap_small (_ mod _ * _)) by done.
  pose proof (scale_split ticks hz nanoseconds_per_second ltac:(lia) ltac:(lia) ltac:(done)) as Hs. pose proof (Z.div_pos ticks hz ltac:(lia) ltac:(lia)).
  pose proof (Z.div_pos (ticks mod hz * nanoseconds_per_second) hz ltac:(lia) ltac:(lia)).
  destruct (Z.ltb_spec (u64_max / nanoseconds_per_second) (ticks / hz)) as [Hlt | Hge].
  - assert (u64_max < ticks / hz * nanoseconds_per_second) by (unfold u64_max, nanoseconds_per_second in *; dlia). lia.
  - assert (ticks / hz * nanoseconds_per_second <= u64_max) by (unfold u64_max, nanoseconds_per_second in *; dlia).
    assert (0 <= ticks / hz * nanoseconds_per_second) by (apply Z.mul_nonneg_nonneg; done).
    rewrite (u64_wrap_small (ticks / hz * _)) by lia. case_cond; b2p; [lia |]. rewrite u64_wrap_small by lia. lia.
Qed.

(** Above 18.4 GHz the fraction is divided by the truncated frequency. *)
Lemma ticks_to_nanoseconds_fast ticks hz : 0 <= ticks <= u64_max -> u64_max / nanoseconds_per_second < hz <= u64_max ->
  ticks_to_nanoseconds ticks hz = ticks / hz * nanoseconds_per_second + ticks mod hz / (hz / nanoseconds_per_second).
Proof.
  intros Ht Hz. unfold ticks_to_nanoseconds. fold nanoseconds_per_second.
  assert (u64_max / nanoseconds_per_second = 18446744073) as Hm by done. rewrite Hm in *. assert (u64_max = 18446744073709551615) as Hu by done.
  assert (nanoseconds_per_second = 1000000000) as Hn by done. cmp.
  pose proof (Z.div_mod hz nanoseconds_per_second ltac:(lia)) as Hq. pose proof (Z.mod_pos_bound hz nanoseconds_per_second ltac:(lia)) as Hr.
  set (q := hz / nanoseconds_per_second) in *. assert (18 <= q) as Hq18 by lia.
  pose proof (Z.mod_pos_bound ticks hz ltac:(lia)). pose proof (Z.div_pos ticks hz ltac:(lia) ltac:(lia)).
  assert (ticks / hz <= 1000000000) by (apply Z.div_le_upper_bound; lia).
  assert (0 <= ticks mod hz / q < 2000000000) by (split; [apply Z.div_pos | apply Z.div_lt_upper_bound]; lia).
  rewrite (proj2 (Z.ltb_ge 18446744073 (ticks / hz))) by lia. rewrite (u64_wrap_small (ticks / hz * _)) by lia.
  rewrite (proj2 (Z.ltb_ge (u64_max - _) _)) by lia. apply u64_wrap_small. lia.
Qed.

(** It never rounds down too far, and goes backwards at a whole second exactly
    when the frequency has more left over than whole ticks per nanosecond. *)
Lemma ticks_to_nanoseconds_fast_bound ticks hz : 0 <= ticks <= u64_max -> u64_max / nanoseconds_per_second < hz <= u64_max ->
  exact_ns ticks hz <= ticks_to_nanoseconds ticks hz.
Proof.
  intros Ht Hz. rewrite ticks_to_nanoseconds_fast by done. unfold exact_ns.
  assert (18446744073 < hz) by (change (u64_max / nanoseconds_per_second) with 18446744073 in Hz; lia).
  rewrite <- scale_split by (done || lia). apply Z.add_le_mono_l.
  pose proof (Z.mul_div_le hz nanoseconds_per_second ltac:(done)). set (q := hz / nanoseconds_per_second) in *.
  assert (0 < q) by (apply Z.div_str_pos; unfold nanoseconds_per_second; lia). pose proof (Z.mod_pos_bound ticks hz ltac:(lia)).
  apply Z.div_le_lower_bound; [done |]. set (x := ticks mod hz) in *. pose proof (Z.mul_div_le (x * nanoseconds_per_second) hz ltac:(lia)).
  pose proof (Z.div_pos (x * nanoseconds_per_second) hz ltac:(unfold nanoseconds_per_second; lia) ltac:(lia)).
  assert (0 < nanoseconds_per_second) by done. nia.
Qed.

Lemma ticks_to_nanoseconds_backwards k hz : u64_max / nanoseconds_per_second < hz -> 0 < k -> k * hz <= u64_max ->
  ticks_to_nanoseconds (k * hz) hz < ticks_to_nanoseconds (k * hz - 1) hz <-> hz / nanoseconds_per_second < hz mod nanoseconds_per_second.
Proof.
  intros Hz Hk Hm. assert (18446744073 < hz) by (change (u64_max / nanoseconds_per_second) with 18446744073 in Hz; lia).
  assert (0 < nanoseconds_per_second) by done.
  rewrite !ticks_to_nanoseconds_fast by nia. rewrite Z.div_mul, Z_mod_mult by lia.
  assert ((k * hz - 1) / hz = k - 1) as -> by (symmetry; apply (Z.div_unique _ _ _ (hz - 1)); lia).
  assert ((k * hz - 1) mod hz = hz - 1) as -> by (symmetry; apply (Z.mod_unique _ _ (k - 1)); lia).
  pose proof (Z.div_mod hz nanoseconds_per_second ltac:(lia)). set (q := hz / nanoseconds_per_second) in *.
  assert (0 < q) by (apply Z.div_str_pos; unfold nanoseconds_per_second; lia). rewrite Z.div_0_l by lia.
  assert (nanoseconds_per_second < (hz - 1) / q <-> nanoseconds_per_second * q + q <= hz - 1) as Hd.
  { split; intros Hx.
    - pose proof (Z.mul_div_le (hz - 1) q ltac:(lia)). nia.
    - assert (nanoseconds_per_second + 1 <= (hz - 1) / q); [apply Z.div_le_lower_bound; lia | lia]. }
  lia.
Qed.

Section Conversions.
Context {S : Type} `{ClockSource S}.
Implicit Types (c : CalibratedClock.t) (source : S).

Lemma monotonic_ns_exact c source : CalibratedClock.initialized_ c = true ->
  0 < frequency_hz source <= u64_max / nanoseconds_per_second ->
  let exact := exact_ns (u64_wrap (counter source - CalibratedClock.origin_ c)) (frequency_hz source) in
  let limit := (u64_max / nanoseconds_per_second + 1) * nanoseconds_per_second in
  (exact <= u64_max -> CalibratedClock.monotonic_ns c source = Ok exact) /\
  (u64_max < exact < limit -> CalibratedClock.monotonic_ns c source = Ok (exact - 2 ^ 64)) /\
  (limit <= exact -> CalibratedClock.monotonic_ns c source = Err StatusCode.overflow).
Proof.
  intros Hi Hz. unfold CalibratedClock.monotonic_ns, exact_ns. rewrite Hi. cbn [negb]. set (ticks := u64_wrap _).
  assert (0 <= ticks) as Ht by (apply Z.mod_pos_bound; lia). set (hz := frequency_hz source) in *. clearbody ticks hz.
  pose proof (remainder_scaled ticks hz nanoseconds_per_second ltac:(lia) ltac:(lia) ltac:(done)) as Hr. rewrite (u64_wrap_small (_ mod _ * _)) by done.
  rewrite scale_split by (done || lia).
  pose proof (scale_split ticks hz nanoseconds_per_second ltac:(lia) ltac:(lia) ltac:(done)) as Hs. pose proof (Z.div_pos ticks hz ltac:(lia) ltac:(lia)).
  pose proof (Z.div_pos (ticks mod hz * nanoseconds_per_second) hz ltac:(lia) ltac:(lia)).
  assert (ticks mod hz * nanoseconds_per_second / hz < nanoseconds_per_second)
    by (apply Z.div_lt_upper_bound; [lia |]; pose proof (Z.mod_pos_bound ticks hz); unfold nanoseconds_per_second; lia).
  cbv zeta. unfold u64_max, nanoseconds_per_second in *. change ((2 ^ 64 - 1) / 1000000000) with 18446744073 in *.
  split_and!; intros He; cmp; [| | done]; f_equal; [rewrite u64_wrap_small by (unfold u64_max; nia); done |].
  symmetry. apply (Z.mod_unique _ _ 1); lia.
Qed.

Lemma deadline_ticks_exact c source ns : CalibratedClock.initialized_ c = true ->
  0 < frequency_hz source <= u64_max / nanoseconds_per_second -> 0 <= ns ->
  CalibratedClock.deadline_ticks c source ns =
    if u64_max / frequency_hz source <? ns / nanoseconds_per_second then Err StatusCode.overflow
    else Ok (u64_wrap (counter source + ns * frequency_hz source / nanoseconds_per_second)).
Proof.
  intros Hi Hz Hn. unfold CalibratedClock.deadline_ticks. rewrite Hi. cbn [negb]. set (hz := frequency_hz source) in *.
  pose proof (scale_split ns nanoseconds_per_second hz ltac:(done) ltac:(lia) ltac:(lia)) as Hs.
  pose proof (Z.mod_pos_bound ns nanoseconds_per_second ltac:(done)).
  assert (0 <= ns mod nanoseconds_per_second * hz <= u64_max)
    by (pose proof (Z.mul_div_le u64_max nanoseconds_per_second ltac:(done)); nia).
  cmp. cbn [negb andb]. destruct (_ <? _); [done |]. f_equal. rewrite (u64_wrap_small (_ mod _ * _)), Hs by done.
  unfold u64_wrap. by rewrite Zplus_mod_idemp_r.
Qed.
End Conversions.

(** C36: the clock arithmetic in full, and where it leaves the exact values.  For
    every source up to 18.4 GHz, monotonic_ns() gives the floor of the exact
    nanoseconds while it fits in 64 bits and reports overflow from the next
    whole second on, but in between it gives the value less 2^64; and
    deadline_ticks() reports overflow exactly when the whole seconds exceed the
    counter range, and otherwise gives the exact deadline modulo 2^64.
    ticks_to_nanoseconds() gives the floor, saturated, up to 18.4 GHz; above, it
    is never too small, and it runs backwards at a whole second exactly when the
    frequency modulo 10^9 exceeds its quotient by 10^9. *)
Theorem clock_arithmetic {S : Type} `{ClockSource S} (c : CalibratedClock.t) (source : S) ns :
  let hz := frequency_hz source in
  0 < hz <= u64_max / nanoseconds_per_second -> 0 <= ns -> CalibratedClock.initialized_ c = true ->
  let elapsed := exact_ns (u64_wrap (counter source - CalibratedClock.origin_ c)) hz in
  let limit := (u64_max / nanoseconds_per_second + 1) * nanoseconds_per_second in
  ((elapsed <= u64_max -> CalibratedClock.monotonic_ns c source = Ok elapsed) /\
   (u64_max < elapsed < limit -> CalibratedClock.monotonic_ns c source = Ok (elapsed - 2 ^ 64)) /\
   (limit <= elapsed -> CalibratedClock.monotonic_ns c source = Err StatusCode.overflow)) /\
  CalibratedClock.deadline_ticks c source ns =
    (if u64_max / hz <? ns / nanoseconds_per_second then Err StatusCode.overflow
     else Ok (u64_wrap (counter source + ns * hz / nanoseconds_per_second))) /\
  forall f ticks, 0 <= ticks <= u64_max -> 0 < f <= u64_max ->
    if f <=? u64_max / nanoseconds_per_second
    then ticks_to_nanoseconds ticks f = Z.min u64_max (exact_ns ticks f)
    else exact_ns ticks f <= ticks_to_nanoseconds ticks f /\
         forall k, 0 < k -> k * f <= u64_max ->
           ticks_to_nanoseconds (k * f) f < ticks_to_nanoseconds (k * f - 1) f <-> f / nanoseconds_per_second < f mod nanoseconds_per_second.
Proof.
  intros hz Hz Hn Hi elapsed limit. split; [by apply monotonic_ns_exact |]. split; [by apply deadline_ticks_exact |]. intros f ticks Ht Hf.
  destruct (Z.leb_spec f (u64_max / nanoseconds_per_second)); [by apply ticks_to_nanoseconds_exact; [| lia] |].
  split; [by apply ticks_to_nanoseconds_fast_bound; [| lia] |]. intros k Hk Hm. by apply ticks_to_nanoseconds_backwards.
Qed.

(** ** Buckets *)

Lemma leading_log2 value n exponent : 0 < value -> Z.log2 value <= exponent -> exponent - Z.of_nat n < Z.log2 value ->
  leading n value exponent = Z.log2 value.
Proof.
  intros Hv. revert exponent. induction n as [| n IH]; intros exponent Hle Hn; [lia |]. cbn [leading].
  pose proof (Z.log2_nonneg value). rewrite Z.shiftr_div_pow2 by lia.
  destruct (Z.eqb_spec (value / 2 ^ exponent) 0) as [Hz | Hz].
  - apply Z.div_small_iff in Hz; [| lia]. pose proof (Z.pow_pos_nonneg 2 exponent). destruct Hz as [Hz | Hz]; [| lia].
    assert (exponent <> Z.log2 value) by (intros ->; pose proof (Z.log2_spec value Hv); lia). apply IH; lia.
  - destruct (Z.eq_dec exponent (Z.log2 value)); [done |]. exfalso. apply Hz, Z.div_small. split; [lia |].
    apply (Z.lt_le_trans _ (2 ^ Z.succ (Z.log2 value))); [by apply Z.log2_spec | apply Z.pow_le_mono_r; lia].
Qed.

(** A value of exponent [e] lies in bucket [8 (e - 3) + m], where [m] in
    [8, 16) is its leading digits. *)
Lemma index_eq v : 8 <= v <= u32_max ->
  let e := Z.log2 v in let m := v / 2 ^ (e - 3) in
  index v = (e - 3) * 8 + m /\ 3 <= e <= 31 /\ 8 <= m < 16.
Proof.
  intros Hv e m. assert (3 <= e <= 31) as He.
  { split; [apply (Z.log2_le_mono 8); lia |]. apply (Z.log2_le_mono v u32_max). lia. }
  destruct (Z.log2_spec v ltac:(lia)) as [Hlo Hhi]. fold e in Hlo, Hhi.
  assert (2 ^ e = 8 * 2 ^ (e - 3)) as H8 by (rewrite <- (Z.pow_add_r 2 3) by lia; f_equal; lia).
  assert (2 ^ Z.succ e = 16 * 2 ^ (e - 3)) as H16 by (rewrite <- (Z.pow_add_r 2 4) by lia; f_equal; lia).
  pose proof (Z.pow_pos_nonneg 2 (e - 3)).
  assert (8 <= m < 16) as Hm by (subst m; split; [apply Z.div_le_lower_bound | apply Z.div_lt_upper_bound]; lia).
  split_and!; try lia. unfold index, sub_buckets, u32_max in *. cmp.
  rewrite (leading_log2 v 32 31) by (fold e; lia). fold e. rewrite Z.shiftr_div_pow2 by lia. fold m. change (8 - 1) with (Z.ones 3).
  rewrite Z.land_ones by lia. change (2 ^ 3) with 8. replace m with (m - 8 + 1 * 8) at 1 by lia. rewrite Z_mod_plus_full, Z.mod_small by lia. lia.
Qed.

Lemma index_range v : 0 <= v -> 0 <= index v < bucket_count.
Proof.
  intros Hv. unfold bucket_count, sub_buckets, maximum_exponent. destruct (Z.lt_ge_cases v 8) as [Hlt | Hge].
  - unfold index, sub_buckets. cmp. lia.
  - destruct (Z.lt_ge_cases u32_max v) as [Hb | Hb].
    + unfold index, sub_buckets. cmp. by vm_compute.
    + destruct (index_eq v ltac:(lia)) as (-> & ? & ?). lia.
Qed.

Lemma index_mono x y : 0 <= x <= y -> index x <= index y.
Proof.
  intros Hxy. destruct (Z.lt_ge_cases x 8) as [Hx | Hx].
  - destruct (Z.lt_ge_cases y 8) as [Hy | Hy]; [unfold index, sub_buckets; cmp; lia |]. unfold index at 1, sub_buckets. cmp.
    destruct (Z.lt_ge_cases u32_max y) as [Hb | Hb]; [unfold index, sub_buckets; cmp; change (bucket_count - 1) with 239; lia |].
    destruct (index_eq y ltac:(lia)) as (-> & ? & ?). lia.
  - destruct (Z.lt_ge_cases u32_max y) as [Hb | Hb].
    { pose proof (index_range x ltac:(lia)). unfold index at 2, sub_buckets. cmp. lia. }
    destruct (index_eq x ltac:(lia)) as (-> & ? & ?), (index_eq y ltac:(lia)) as (-> & ? & ?).
    pose proof (Z.log2_le_mono x y ltac:(lia)). destruct (Z.eq_dec (Z.log2 x) (Z.log2 y)) as [E | E]; [| lia].
    rewrite <- E. pose proof (Z.div_le_mono x y (2 ^ (Z.log2 x - 3)) ltac:(apply Z.pow_pos_nonneg; lia) ltac:(lia)). lia.
Qed.

(** The edges of the buckets, checked one by one. *)
Definition bucket_edges (b : Z) : bool :=
  let u := upper_bound b in
  (0 <=? u) && (index u =? b) &&
  ((b =? 239) || (b <? index (u + 1)) && (u <? upper_bound (b + 1)) &&
                 ((b =? 0) || let l := upper_bound (b - 1) + 1 in u <=? l + l / 8)).

Lemma edges b : 0 <= b < bucket_count -> bucket_edges b = true.
Proof.
  intros Hb. assert (forallb bucket_edges (indices bucket_count) = true) as Hall by (by vm_compute).
  rewrite forallb_forall in Hall. apply Hall. apply list_elem_of_In, elem_of_indices. lia.
Qed.

Lemma index_le v b : 0 <= v <= u64_max -> 0 <= b < bucket_count -> index v <= b <-> v <= upper_bound b.
Proof.
  intros Hv Hb. pose proof (edges b Hb) as He. unfold bucket_edges in He. b2p. split.
  - intros Hi. destruct (Z.le_gt_cases v (upper_bound b)) as [| Hgt]; [done | exfalso].
    pose proof (index_mono (upper_bound b + 1) v ltac:(lia)).
    match goal with H : _ \/ _ |- _ => destruct H as [H | H]; b2p end; [| lia]. subst b. change (upper_bound 239) with u64_max in Hgt. lia.
  - intros Hle. pose proof (index_mono v (upper_bound b) ltac:(lia)). lia.
Qed.

(** The bucket of a value exceeds it by at most an eighth. *)
(** The last bucket begins at [15 * 2 ^ 28], below the [2 ^ 32] of the comment. *)
Lemma last_bucket v : 0 <= v <= u64_max -> index v = bucket_count - 1 <-> 15 * 2 ^ 28 <= v.
Proof.
  intros Hv. pose proof (index_range v ltac:(lia)). pose proof (index_le v 238 Hv ltac:(by vm_compute)) as Hi.
  change (upper_bound 238) with (15 * 2 ^ 28 - 1) in Hi. change bucket_count with 240 in *. lia.
Qed.

Lemma bucket_error v : 0 <= v < 15 * 2 ^ 28 -> v <= upper_bound (index v) <= v + v / 8.
Proof.
  intros Hv. pose proof (index_range v ltac:(lia)) as Hr. assert (v <= u64_max) by (unfold u64_max; lia).
  assert (index v <= 238) as H238 by (apply index_le; [lia | by vm_compute | change (upper_bound 238) with (15 * 2 ^ 28 - 1); lia]).
  split; [apply (index_le v (index v)); [lia | done | lia] |]. pose proof (edges (index v) Hr) as He. unfold bucket_edges in He. b2p.
  match goal with H : _ \/ _ |- _ => destruct H as [H | H]; b2p; [lia |] end.
  match goal with H : _ \/ _ |- _ => destruct H as [H | H]; b2p end.
  - match goal with H : index v = 0 |- _ => rewrite H end. change (upper_bound 0) with 0. pose proof (Z.div_pos v 8). lia.
  - assert (upper_bound (index v - 1) + 1 <= v) as Hl.
    { destruct (Z.eq_dec (index v) 0) as [E | E]; [rewrite E; change (upper_bound (0 - 1)) with (-1); lia |].
      destruct (Z.le_gt_cases v (upper_bound (index v - 1))) as [Hle |]; [| lia]. apply index_le in Hle; [lia | lia | lia]. }
    pose proof (Z.div_le_mono (upper_bound (index v - 1) + 1) v 8 ltac:(lia) Hl). lia.
Qed.

(** ** Percentiles *)

(** The number of samples with a property. *)
Definition tally (f : Z -> bool) (xs : list Z) : Z := zsum (fun x => if f x then 1 else 0) xs.

Lemma tally_snoc f xs x : tally f (xs ++ [x]) = tally f xs + (if f x then 1 else 0).
Proof. unfold tally. rewrite zsum_app, zsum_cons. change (zsum ?h []) with 0. lia. Qed.

Lemma tally_bounds f xs : 0 <= tally f xs <= zlen xs.
Proof. induction xs as [| x xs IH]; [done |]. unfold tally in *. rewrite zsum_cons, zlen_cons. destruct (f x); lia. Qed.

Lemma tally_mono f g xs : (forall x, x ∈ xs -> f x = true -> g x = true) -> tally f xs <= tally g xs.
Proof.
  unfold tally. induction xs as [| x xs IH]; intros Hfg; [done |]. rewrite !zsum_cons.
  specialize (IH (fun y Hy => Hfg y (list_elem_of_further _ _ _ Hy))). specialize (Hfg x (list_elem_of_here _ _)).
  destruct (f x), (g x); lia.
Qed.

Lemma tally_split b xs : tally (fun x => index x <? b + 1) xs = tally (fun x => index x <? b) xs + tally (fun x => index x =? b) xs.
Proof.
  unfold tally. induction xs as [| x xs IH]; [done |]. rewrite !zsum_cons, IH.
  destruct (Z.ltb_spec (index x) (b + 1)), (Z.ltb_spec (index x) b), (Z.eqb_spec (index x) b); lia.
Qed.

Section Percentiles.
Context `{Arch}.

(** A histogram of the samples [xs]. *)
Definition total (xs : list Z) : Z := zsum (fun x => x) xs.
Definition histogram (xs : list Z) : LatencyHistogram.t := fold_left record xs LatencyHistogram.new.

Record shows (xs : list Z) (h : LatencyHistogram.t) : Prop := {
  shows_length : zlen (buckets_ h) = bucket_count;
  shows_buckets : forall b, 0 <= b < bucket_count -> (buckets_ h).[b] = tally (fun x => index x =? b) xs;
  shows_count : count_ h = zlen xs;
  shows_range : forall x, x ∈ xs -> minimum_ h <= x <= maximum_ h;
  shows_total : total_ h = Z.min u64_max (total xs);
  shows_nonneg : 0 <= maximum_ h /\ 0 <= total xs
}.

Lemma shows_new : shows [] LatencyHistogram.new.
Proof.
  split; try done; [| by intros x Hx%not_elem_of_nil].
  intros b Hb. cbn [buckets_ LatencyHistogram.new]. unfold bucket_count in *. rewrite aget_replicate by lia. done.
Qed.

Lemma record_shows xs h x : shows xs h -> 0 <= x <= u64_max -> zlen xs < u32_max -> shows (xs ++ [x]) (record h x).
Proof.
  intros [Hl Hb Hc Hr Ht Hn] Hx Hlen. pose proof (index_range x ltac:(lia)) as Hi. pose proof usize_max_pos.
  assert (u32_max = 2 ^ 32 - 1) as Hu by done. pose proof (zlen_nonneg xs). assert (total (xs ++ [x]) = total xs + x) as Hsum by (unfold total; rewrite zsum_app, zsum_cons; change (zsum ?h []) with 0; lia).
  split; cbn [record buckets_ count_ minimum_ maximum_ total_].
  - by rewrite zlen_aset.
  - intros b Hb'. rewrite tally_snoc, aget_aset by lia. rewrite <- Hb by done. pose proof (tally_bounds (fun y => index y =? b) xs) as Htb.
    rewrite <- Hb in Htb by done. rewrite (Z.eqb_sym b). destruct (Z.eqb_spec (index x) b) as [-> |]; [| lia].
    unfold u32_wrap. apply Z.mod_small. lia.
  - rewrite zlen_app, Hc, usize_wrap_small by (unfold usize_max in *; lia). done.
  - intros y [Hy | ->%list_elem_of_singleton]%elem_of_app; [| repeat case_cond; b2p; lia].
    specialize (Hr y Hy). assert (count_ h <> 0).
    { rewrite Hc. destruct xs as [| z zs]; [by apply not_elem_of_nil in Hy |]. rewrite zlen_cons. pose proof (zlen_nonneg zs). lia. }
    repeat case_cond; b2p; lia.
  - rewrite Hsum. case_cond; b2p; lia.
  - rewrite Hsum. split; [| lia]. case_cond; b2p; lia.
Qed.

Lemma histogram_shows xs : Forall (fun x => 0 <= x <= u64_max) xs -> zlen xs <= u32_max -> shows xs (histogram xs).
Proof.
  unfold histogram. induction xs as [| x xs IH] using rev_ind; intros Hx Hl; [apply shows_new |].
  apply Forall_app in Hx as [Hxs Hx]. inversion_clear Hx. rewrite zlen_app in Hl. change (zlen [x]) with 1 in Hl.
  rewrite fold_left_app. cbn [fold_left]. apply record_shows; [apply IH; [done | lia] | done | lia].
Qed.

(** The samples of the buckets before [b] are those below their upper bound. *)
Lemma tally_bucket xs b : Forall (fun x => 0 <= x <= u64_max) xs -> 0 <= b < bucket_count ->
  tally (fun x => index x <? b + 1) xs = tally (fun x => x <=? upper_bound b) xs.
Proof.
  intros Hx Hb. rewrite Forall_forall in Hx. apply Z.le_antisymm; apply tally_mono; intros x Hin Hf; specialize (Hx x Hin); pose proof (index_le x b Hx Hb); b2p.
  - apply Z.leb_le. lia.
  - apply Z.ltb_lt. lia.
Qed.

(** The loop stops at the bucket of the sample of the rank. *)
Lemma percentile_from_stops xs h q rank : shows xs h -> Forall (fun x => 0 <= x <= u64_max) xs -> zlen xs <= u32_max -> 0 <= q <= u64_max ->
  tally (fun x => x <? q) xs < rank <= tally (fun x => x <=? q) xs -> 1 <= rank ->
  forall n b, b + Z.of_nat n = bucket_count -> 0 <= b <= index q ->
  percentile_from n h rank b (tally (fun x => index x <? b) xs) = Z.max (minimum_ h) (Z.min (maximum_ h) (upper_bound (index q))).
Proof.
  intros Hs Hx Hl Hq Hrank H1. pose proof (index_range q ltac:(lia)) as Hiq. induction n as [| n IH]; intros b Hn Hb; [lia |]. cbn [percentile_from].
  rewrite (shows_buckets xs h Hs), <- tally_split by lia. pose proof (tally_bounds (fun x => index x <? b + 1) xs) as Htb.
  rewrite u64_wrap_small by (unfold u32_max, u64_max in *; lia). rewrite (tally_bucket xs b) in * by (done || lia).
  destruct (Z.eq_dec b (index q)) as [-> | Hne].
  - assert (tally (fun x => x <=? q) xs <= tally (fun x => x <=? upper_bound (index q)) xs).
    { apply tally_mono. intros x _ Hle. b2p. apply Z.leb_le. pose proof (proj1 (index_le q (index q) Hq Hiq)). lia. }
    pose proof (tally_bounds (fun x => x <=? q) xs).
    cmp. assert (exists x, x ∈ xs) as [x Hin] by (destruct xs as [| x xs']; [change (zlen []) with 0 in *; lia | exists x; by left]).
    pose proof (shows_range xs h Hs x Hin). repeat case_cond; b2p; lia.
  - assert (tally (fun x => x <=? upper_bound b) xs <= tally (fun x => x <? q) xs).
    { apply tally_mono. intros x _ Hle. b2p. apply Z.ltb_lt. pose proof (proj2 (index_le q b Hq ltac:(lia))). lia. }
    rewrite (proj2 (Z.leb_gt rank _)) by lia. rewrite andb_false_r. rewrite <- (tally_bucket xs b) by (done || lia). apply IH; lia.
Qed.

Lemma rank_sample xs q : tally (fun x => x <? q) xs < tally (fun x => x <=? q) xs -> q ∈ xs.
Proof.
  intros Hlt. destruct (decide (q ∈ xs)) as [| Hni]; [done | exfalso].
  assert (tally (fun x => x <=? q) xs <= tally (fun x => x <? q) xs); [| lia].
  apply tally_mono. intros x Hx Hle. b2p. apply Z.ltb_lt. assert (x <> q) by (by intros ->). lia.
Qed.

(** percentile() finds the sample of the rank, ceil(count * per_mille /
    1000) of the sorted samples, to within one eighth: it is never below that
    sample, at most an eighth above it, and never above the largest sample. *)
Theorem percentile_within_eighth xs per_mille q :
  Forall (fun x => 0 <= x <= u64_max) xs -> zlen xs <= u32_max -> 1 <= per_mille <= 1000 ->
  let rank := (zlen xs * per_mille + 999) / 1000 in
  tally (fun x => x <? q) xs < rank <= tally (fun x => x <=? q) xs ->
  let h := histogram xs in
  q <= percentile h per_mille <= maximum h /\ (q < 15 * 2 ^ 28 -> percentile h per_mille <= q + q / 8).
Proof.
  intros Hx Hl Hp rank Hr h. pose proof (histogram_shows xs Hx Hl) as Hs. fold h in Hs. pose proof (zlen_nonneg xs).
  pose proof (rank_sample xs q ltac:(lia)) as Hq. pose proof (shows_range xs h Hs q Hq). rewrite Forall_forall in Hx. pose proof (Hx q Hq) as Hqr.
  rewrite <- Forall_forall in Hx. pose proof (tally_bounds (fun x => x <? q) xs). pose proof (tally_bounds (fun x => x <=? q) xs).
  pose proof (index_range q ltac:(lia)) as Hiq.
  assert (percentile h per_mille = Z.max (minimum_ h) (Z.min (maximum_ h) (upper_bound (index q)))) as ->.
  { unfold percentile. rewrite (shows_count xs h Hs). unfold u32_max in Hl. assert (0 <= zlen xs * per_mille <= 1000 * zlen xs) by nia.
    cmp. rewrite (u64_wrap_small (zlen xs * per_mille)), u64_wrap_small by (unfold u64_max; lia). fold rank.
    assert (tally (fun x => index x <? 0) xs = 0) as Hz0.
    { apply Z.le_antisymm; [| apply tally_bounds]. rewrite Forall_forall in Hx.
      assert (tally (fun x => index x <? 0) xs <= tally (fun _ => false) xs) as Hle
        by (apply tally_mono; intros x Hin Hf; pose proof (index_range x ltac:(apply Hx in Hin; lia)); b2p; lia).
      assert (tally (fun _ => false) xs = 0) as Hz by (clear; induction xs as [| x xs IH]; [done |]; unfold tally in *; rewrite zsum_cons; lia). lia. }
    rewrite <- (percentile_from_stops xs h q rank Hs Hx Hl Hqr Hr ltac:(lia) (Z.to_nat bucket_count) 0 eq_refl ltac:(lia)). by rewrite Hz0. }
  pose proof (proj1 (index_le q (index q) Hqr Hiq) ltac:(lia)). unfold maximum. split; [lia |]. intros Hsmall.
  pose proof (bucket_error q ltac:(lia)). assert (0 <= q / 8) by (apply Z.div_pos; lia). lia.
Qed.
End Percentiles.

(** The median of four latencies: the sample 1000 is reported as 1023. *)
Lemma percentile_witness : 1000 <= percentile (@histogram arch64 [7; 1000; 5000; 100000]) 500 <= 1125.
Proof.
  pose proof (@percentile_within_eighth arch64 [7; 1000; 5000; 100000] 500 1000 ltac:(by concrete) ltac:(by vm_compute) ltac:(lia) ltac:(by vm_compute)) as [Hr He].
  split; [apply Hr | apply He; by vm_compute].
Defined.

(** A 1 GHz counter one second after its clock was calibrated. *)
(** At 1000 Hz the clock wraps in its last second, at 1 GHz a deadline of 2^64 - 1 ns
    lies in the past, and just below 19 GHz the conversion runs backwards. *)
Lemma clock_arithmetic_witness :
  CalibratedClock.monotonic_ns (CalibratedClock.mk 500 true) (ModelClockSource.mk 1000000000 1000000500) = Ok 1000000000 /\
  CalibratedClock.monotonic_ns (CalibratedClock.mk 0 true) (ModelClockSource.mk 1000 18446744073710) = Ok 448384 /\
  CalibratedClock.deadline_ticks (CalibratedClock.mk 0 true) (ModelClockSource.mk 1000000000 10) u64_max = Ok 9 /\
  ticks_to_nanoseconds 18999999999 18999999999 < ticks_to_nanoseconds 18999999998 18999999999.
Proof.
  destruct (clock_arithmetic (CalibratedClock.mk 500 true) (ModelClockSource.mk 1000000000 1000000500) 0) as ((H1 & _) & _ & Hf); [by vm_compute.. |].
  destruct (clock_arithmetic (CalibratedClock.mk 0 true) (ModelClockSource.mk 1000 18446744073710) 0) as ((_ & H2 & _) & _); [by vm_compute.. |].
  destruct (clock_arithmetic (CalibratedClock.mk 0 true) (ModelClockSource.mk 1000000000 10) u64_max) as (_ & H3 & _); [by vm_compute.. |].
  specialize (Hf 18999999999 0 ltac:(by vm_compute) ltac:(by vm_compute)).
  change (18999999999 <=? u64_max / nanoseconds_per_second) with false in Hf. destruct Hf as [_ Hf].
  split_and!; [apply H1; by vm_compute | rewrite H2 by (by vm_compute); by vm_compute | rewrite H3; by vm_compute |].
  exact (proj2 (Hf 1 ltac:(lia) ltac:(by vm_compute)) ltac:(by vm_compute)).
Defined.
