(* ===== verification/Wire.v ===== *)
(** * Packets on the wire (include/ok/net/wire.hpp, include/ok/net/tcp_wire.hpp)

    Byte fields, the Internet checksum, the parsers of Ethernet, ARP, IPv4, UDP
    and TCP, and the IPv4 builders of UDP and TCP packets.  A span is a list of
    bytes; a span whose address matters (the builders refuse overlapping
    buffers) is a [Span.t].  The checksum is related to the sum of the 16-bit
    words modulo 65535. *)

From S2P Require Import Prelude Epoch.

Abbreviation Bytes := (list Z).

Module Span.
Record t := mk { data : Z; bytes : Bytes }.
Definition size (s : t) : Z := zlen (bytes s).
End Span.

(** [subspan(at, n)] and [first(n)]. *)
Definition subspan (b : Bytes) (at_ n : Z) : Bytes := take (Z.to_nat n) (drop (Z.to_nat at_) b).
Definition rest (b : Bytes) (at_ : Z) : Bytes := drop (Z.to_nat at_) b.
Definition first (b : Bytes) (n : Z) : Bytes := take (Z.to_nat n) b.

(** The bytes an array member is filled with: [for (i = 0; i < n; ++i)]. *)
Definition array_at (b : Bytes) (at_ n : Z) : Bytes := map (fun i => b.[at_ + i]) (indices n).

(** ** Fields *)
Definition byte (bytes : Bytes) (at_ : Z) : Z := bytes.[at_].
Definition be16 (bytes : Bytes) (at_ : Z) : Z :=
  u16_wrap (Z.lor (Z.shiftl (byte bytes at_) 8) (byte bytes (at_ + 1))).
Definition put16 (bytes : Bytes) (at_ value : Z) : Bytes :=
  bytes.[at_ := u8_wrap (Z.shiftr value 8)].[at_ + 1 := u8_wrap value].
Definition be32 (bytes : Bytes) (at_ : Z) : Z :=
  Z.lor (u32_wrap (Z.shiftl (be16 bytes at_) 16)) (be16 bytes (at_ + 2)).
Definition put32 (bytes : Bytes) (at_ value : Z) : Bytes :=
  put16 (put16 bytes at_ (u16_wrap (Z.shiftr value 16))) (at_ + 2) (u16_wrap value).

(** ** Checksum *)
Definition fold (value : Z) : Z := u32_wrap (Z.land value 0xffff + Z.shiftr value 16).

(** [for (at = 0; at < bytes.size(); at += 2)], from [at_] on. *)
Fixpoint sum_loop (n : nat) (bytes : Bytes) (at_ value : Z) : Z :=
  match n with
  | O => value
  | S n' =>
      let word := u16_wrap (Z.lor (Z.shiftl (byte bytes at_) 8)
                                  (if at_ + 1 <? zlen bytes then byte bytes (at_ + 1) else 0)) in
      sum_loop n' bytes (at_ + 2) (fold (u32_wrap (value + word)))
  end.

(** [while (value >> 16)]: a 32-bit value is folded at most three times. *)
Fixpoint fold_loop (n : nat) (value : Z) : Z :=
  match n with
  | O => value
  | S n' => if Z.shiftr value 16 =? 0 then value else fold_loop n' (fold value)
  end.

Definition sum (bytes : Bytes) (initial : Z) : Z :=
  let value := fold initial in
  let value := sum_loop (Z.to_nat ((zlen bytes + 1) / 2)) bytes 0 value in
  fold_loop 3 value.

(** [static_cast<u16>(~value)] *)
Definition not16 (value : Z) : Z := u16_wrap (Z.lnot value).
Definition checksum (bytes : Bytes) : Z := not16 (sum bytes 0).

(** ** Ethernet and ARP *)
Module Ethernet.
Record t := mk { destination : Bytes; source : Bytes; type_ : Z; payload : Bytes }.
End Ethernet.

Definition ethernet (frame : Bytes) : result Ethernet.t :=
  if zlen frame <? 14 then Err StatusCode.invalid_argument
  else
    let type_ := be16 frame 12 in
    if type_ <? 0x0600 then Err StatusCode.unsupported
    else if (type_ =? 0x8100) || (type_ =? 0x88a8) then Err StatusCode.unsupported
    else Ok (Ethernet.mk (array_at frame 0 6) (array_at frame 6 6) type_ (rest frame 14)).

Module Arp.
Record t := mk { operation : Z; sender_mac : Bytes; target_mac : Bytes; sender_ip : Bytes; target_ip : Bytes }.
End Arp.

Definition arp (payload : Bytes) : result Arp.t :=
  if zlen payload <? 28 then Err StatusCode.invalid_argument
  else if negb (be16 payload 0 =? 1) || negb (be16 payload 2 =? 0x0800) || negb (byte payload 4 =? 6) || negb (byte payload 5 =? 4)
  then Err StatusCode.unsupported
  else
    let operation := be16 payload 6 in
    if negb (operation =? 1) && negb (operation =? 2) then Err StatusCode.unsupported
    else Ok (Arp.mk operation (array_at payload 8 6) (array_at payload 18 6) (array_at payload 14 4) (array_at payload 24 4)).

(** ** IPv4 *)
Module Ipv4Packet.
Record t := mk {
  source : Bytes; destination : Bytes; traffic_class : Z; ttl : Z; protocol : Z;
  identification : Z; dont_fragment : bool; payload : Bytes
}.
End Ipv4Packet.

Definition ipv4 (packet : Bytes) : result Ipv4Packet.t :=
  if zlen packet <? 20 then Err StatusCode.invalid_argument
  else if negb (Z.shiftr (byte packet 0) 4 =? 4) then Err StatusCode.unsupported
  else
    let header := Z.land (byte packet 0) 15 * 4 in
    if (header <? 20) || (zlen packet <? header) then Err StatusCode.invalid_argument
    else
      let length := be16 packet 2 in
      if (length <? header) || (zlen packet <? length) then Err StatusCode.invalid_argument
      else if negb (checksum (first packet header) =? 0) then Err StatusCode.invalid_argument
      else
        let fragments := be16 packet 6 in
        if negb (Z.land fragments 0x8000 =? 0) then Err StatusCode.invalid_argument
        else if negb (Z.land fragments 0x3fff =? 0) then Err StatusCode.unsupported
        else if negb (header =? 20) then Err StatusCode.unsupported
        else Ok (Ipv4Packet.mk (array_at packet 12 4) (array_at packet 16 4) (byte packet 1) (byte packet 8) (byte packet 9)
                               (be16 packet 4) (negb (Z.land fragments 0x4000 =? 0)) (subspan packet header (length - header))).

(** [for (i = 0; i < 4; i += 2)] of one address. *)
Definition address_words (a : Bytes) : Z :=
  Z.lor (Z.shiftl a.[0] 8) a.[1] + Z.lor (Z.shiftl a.[2] 8) a.[3].
Definition pseudo_sum (source destination : Bytes) (protocol length : Z) : Z :=
  let value := u32_wrap (protocol + length) in
  let value := u32_wrap (value + address_words source) in
  let value := u32_wrap (value + address_words destination) in
  fold value.

Module Udp.
Record t := mk { source_port : Z; destination_port : Z; checksum_present : bool; payload : Bytes }.
End Udp.

Definition udp (ip : Ipv4Packet.t) : result Udp.t :=
  let payload := Ipv4Packet.payload ip in
  if negb (Ipv4Packet.protocol ip =? 17) then Err StatusCode.unsupported
  else if zlen payload <? 8 then Err StatusCode.invalid_argument
  else
    let length := be16 payload 4 in
    if (length <? 8) || (zlen payload <? length) then Err StatusCode.invalid_argument
    else
      let datagram := first payload length in
      let destination_port := be16 datagram 2 in
      if destination_port =? 0 then Err StatusCode.invalid_argument
      else
        let checksum_present := negb (be16 datagram 6 =? 0) in
        if checksum_present &&
           negb (sum datagram (pseudo_sum (Ipv4Packet.source ip) (Ipv4Packet.destination ip) 17 (u16_wrap length)) =? 0xffff)
        then Err StatusCode.invalid_argument
        else Ok (Udp.mk (be16 datagram 0) destination_port checksum_present (rest datagram 8)).

(** ** Builders *)

(** [for (i = 0; i < n; ++i) output[at + i] = ...] of bytes and of zeros. *)
Fixpoint copy_bytes (output : Bytes) (at_ : Z) (input : Bytes) : Bytes :=
  match input with
  | [] => output
  | b :: input => copy_bytes output.[at_ := b] (at_ + 1) input
  end.
Definition zero_bytes (output : Bytes) (at_ n : Z) : Bytes := copy_bytes output at_ (replicate (Z.to_nat n) 0).

(** Whether a span begins inside the first [length] bytes of the output or the
    output inside the span. *)
Definition aliases (input : Span.t) (output length : Z) : bool :=
  if output <=? Span.data input then Span.data input - output <? length else output - Span.data input <? Span.size input.

Definition build_udp (output : Span.t) (source destination : Bytes) (source_port destination_port identification ttl : Z)
    (payload : Span.t) : Bytes * result Z :=
  let o := Span.bytes output in
  if ttl =? 0 then (o, Err StatusCode.invalid_argument)
  else if (65507 <? Span.size payload) || (zlen o <? 28 + Span.size payload) then (o, Err StatusCode.overflow)
  else
    let length := 28 + Span.size payload in
    if negb (Span.size payload =? 0) && aliases payload (Span.data output) length then (o, Err StatusCode.invalid_argument)
    else
      let o := zero_bytes o 0 28 in
      let o := o.[0 := 0x45].[8 := ttl].[9 := 17] in
      let o := put16 (put16 (put16 o 2 (u16_wrap length)) 4 identification) 6 0x4000 in
      let o := copy_bytes (copy_bytes o 12 source) 16 destination in
      let o := put16 o 10 (checksum (first o 20)) in
      let o := put16 (put16 (put16 o 20 source_port) 22 destination_port) 24 (u16_wrap (length - 20)) in
      let o := copy_bytes o 28 (Span.bytes payload) in
      let transport_checksum :=
        not16 (sum (subspan o 20 (length - 20)) (pseudo_sum source destination 17 (u16_wrap (length - 20)))) in
      let transport_checksum := if transport_checksum =? 0 then 0xffff else transport_checksum in
      (put16 o 26 transport_checksum, Ok length).

(** ** TCP *)
Definition tcp_fin : Z := 0x01.
Definition tcp_syn : Z := 0x02.
Definition tcp_rst : Z := 0x04.
Definition tcp_psh : Z := 0x08.
Definition tcp_ack : Z := 0x10.
Definition tcp_urg : Z := 0x20.
Definition tcp_ece : Z := 0x40.
Definition tcp_cwr : Z := 0x80.

Module TcpOption.
Record t := mk { kind : Z; bytes : Bytes; data : Bytes }.
End TcpOption.

Module TcpOptions.
Record t := mk { options_ : Bytes; at_ : Z; flags_ : Z }.
Definition new (options : Bytes) (flags : Z) : t := mk options 0 flags.

Definition next (c : t) : t * result (option TcpOption.t) :=
  let options := options_ c in
  let at_ := at_ c in
  if 40 <? zlen options then (c, Err StatusCode.invalid_argument)
  else if at_ =? zlen options then (c, Ok None)
  else
    let kind := byte options at_ in
    if kind =? 0 then
      if existsb (fun b => negb (b =? 0)) (rest options (at_ + 1)) then (c, Err StatusCode.invalid_argument)
      else (mk options (zlen options) (flags_ c), Ok (Some (TcpOption.mk kind (subspan options at_ 1) [])))
    else if kind =? 1 then
      (mk options (at_ + 1) (flags_ c), Ok (Some (TcpOption.mk kind (subspan options at_ 1) [])))
    else
      let remaining := zlen options - at_ in
      if remaining <? 2 then (c, Err StatusCode.invalid_argument)
      else
        let length := byte options (at_ + 1) in
        if (length <? 2) || (remaining <? length) then (c, Err StatusCode.invalid_argument)
        else if (kind =? 2) && (negb (length =? 4) || (Z.land (flags_ c) tcp_syn =? 0)) then (c, Err StatusCode.invalid_argument)
        else
          let bytes := subspan options at_ length in
          (mk options (at_ + length) (flags_ c), Ok (Some (TcpOption.mk kind bytes (rest bytes 2)))).
End TcpOptions.

(** [for (;;)] of tcp_detail::options(); [None] when the fuel does not suffice. *)
Fixpoint options_loop (n : nat) (cursor : TcpOptions.t) : option Status :=
  match n with
  | O => None
  | S n' =>
      let '(cursor, option) := TcpOptions.next cursor in
      match option with
      | Err e => Some e
      | Ok None => Some StatusCode.ok
      | Ok (Some _) => options_loop n' cursor
      end
  end.
Definition tcp_options (bytes : Bytes) (flags : Z) : option Status :=
  options_loop (S (length bytes)) (TcpOptions.new bytes flags).

Definition overlaps (input : Span.t) (output length : Z) : bool :=
  if (Span.size input =? 0) || (length =? 0) then false else aliases input output length.

Module TcpFields.
Record t := mk {
  source_port : Z; destination_port : Z; sequence : Z; acknowledgment : Z; flags : Z; window : Z; urgent_pointer : Z
}.
End TcpFields.
Module Tcp.
Record t := mk { fields : TcpFields.t; options : Bytes; payload : Bytes }.
End Tcp.

(** The fields of a segment. *)
Definition tcp_fields (segment : Bytes) : TcpFields.t :=
  TcpFields.mk (be16 segment 0) (be16 segment 2) (be32 segment 4) (be32 segment 8) (byte segment 13)
               (be16 segment 14) (be16 segment 18).

Definition tcp (ip : Ipv4Packet.t) : option (result Tcp.t) :=
  if negb (Ipv4Packet.protocol ip =? 6) then Some (Err StatusCode.unsupported)
  else
    let segment := Ipv4Packet.payload ip in
    if (zlen segment <? 20) || (65515 <? zlen segment) then Some (Err StatusCode.invalid_argument)
    else
      let header := Z.shiftr (byte segment 12) 4 * 4 in
      if (header <? 20) || (zlen segment <? header) then Some (Err StatusCode.invalid_argument)
      else if negb (sum segment (pseudo_sum (Ipv4Packet.source ip) (Ipv4Packet.destination ip) 6 (u16_wrap (zlen segment))) =? 0xffff)
      then Some (Err StatusCode.invalid_argument)
      else
        let flags := byte segment 13 in
        let options := subspan segment 20 (header - 20) in
        status ← tcp_options options flags;
        if negb (status_ok status) then Some (Err status)
        else Some (Ok (Tcp.mk (tcp_fields segment) options (rest segment header))).

Section Build.
Context `{Arch}.

(** The length of a TCP header: [20 + ((options.size() + 3) & ~usize{3})]. *)
Definition tcp_header (options : Z) : Z := 20 + Z.land (options + 3) (usize_not 3).

(** The fields of a segment that starts at [at_]. *)
Definition put_fields (o : Bytes) (at_ header : Z) (f : TcpFields.t) : Bytes :=
  let o := put16 (put16 o at_ (TcpFields.source_port f)) (at_ + 2) (TcpFields.destination_port f) in
  let o := put32 (put32 o (at_ + 4) (TcpFields.sequence f)) (at_ + 8) (TcpFields.acknowledgment f) in
  let o := o.[at_ + 12 := u8_wrap (Z.shiftl (header / 4) 4)].[at_ + 13 := TcpFields.flags f] in
  put16 (put16 o (at_ + 14) (TcpFields.window f)) (at_ + 18) (TcpFields.urgent_pointer f).

Definition build_tcp (output : Span.t) (source destination : Bytes) (identification ttl : Z) (fields : TcpFields.t)
    (options payload : Span.t) : option (Bytes * result Z) :=
  let o := Span.bytes output in
  if ttl =? 0 then Some (o, Err StatusCode.invalid_argument)
  else
    status ← tcp_options (Span.bytes options) (TcpFields.flags fields);
    if negb (status_ok status) then Some (o, Err status)
    else
      let header := tcp_header (Span.size options) in
      if 65515 - header <? Span.size payload then Some (o, Err StatusCode.overflow)
      else
        let length := 20 + header + Span.size payload in
        if zlen o <? length then Some (o, Err StatusCode.overflow)
        else if overlaps options (Span.data output) length || overlaps payload (Span.data output) length
        then Some (o, Err StatusCode.invalid_argument)
        else
          let o := zero_bytes o 0 (20 + header) in
          let o := o.[0 := 0x45].[8 := ttl].[9 := 6] in
          let o := put16 (put16 (put16 o 2 (u16_wrap length)) 4 identification) 6 0x4000 in
          let o := copy_bytes (copy_bytes o 12 source) 16 destination in
          let o := put16 o 10 (checksum (first o 20)) in
          let o := put_fields o 20 header fields in
          let o := copy_bytes o 40 (Span.bytes options) in
          let o := copy_bytes o (20 + header) (Span.bytes payload) in
          let transport_checksum :=
            not16 (sum (subspan o 20 (length - 20)) (pseudo_sum source destination 6 (u16_wrap (length - 20)))) in
          Some (put16 o 36 transport_checksum, Ok length).
End Build.
