(* ===== verification/Checksum.v ===== *)
(** * The Internet checksum and byte fields

    The loop of [sum] computes the sum of the big-endian words of a buffer in
    one's complement arithmetic: modulo 65535, with 0 only for the empty sum.
    Field writes are related to explicit lists of bytes. *)

From S2P Require Import Prelude Epoch Wire.

Definition bytes_ok (b : Bytes) : Prop := Forall (fun x => 0 <= x < 256) b.

Lemma bytes_ok_aget b i : bytes_ok b -> 0 <= i < zlen b -> 0 <= b.[i] < 256.
Proof. intros Hb Hi. by apply (Forall_lookup_1 _ _ _ _ Hb (lookup_aget b i Hi)). Qed.

(** ** One's complement sums *)

(** Equality modulo 65535. *)
Definition same (a b : Z) : Prop := exists k, a = b + 65535 * k.

Lemma fold_spec v : 0 <= v < 2 ^ 32 -> fold v = v mod 65536 + v / 65536.
Proof.
  intros Hv. unfold fold. change 0xffff with (Z.ones 16). rewrite Z.land_ones, Z.shiftr_div_pow2 by lia.
  change (2 ^ 16) with 65536. unfold u32_wrap. apply Z.mod_small. dlia.
Qed.

(** What a fold keeps: the class modulo 65535, and whether the value is 0. *)
Lemma fold_same v : 0 <= v < 2 ^ 32 -> same (fold v) v /\ 0 <= fold v <= 65535 + v / 65536 /\ (fold v = 0 <-> v = 0).
Proof. intros Hv. rewrite fold_spec by done. split; [exists (- (v / 65536)); dlia | dlia]. Qed.

(** The sum of the words of a buffer; an odd last byte is a high byte. *)
Fixpoint words (b : Bytes) : Z :=
  match b with
  | a :: c :: l => a * 256 + c + words l
  | [a] => a * 256
  | [] => 0
  end.

(** Induction two bytes at a time. *)
Lemma pair_ind (P : Bytes -> Prop) : P [] -> (forall x, P [x]) -> (forall x y l, P l -> P (x :: y :: l)) -> forall l, P l.
Proof.
  intros H0 H1 H2. fix IH 1. intros [| x [| y l]]; [exact H0 | apply H1 |]. apply H2, IH.
Qed.

Lemma words_app b c : Nat.Even (length b) -> words (b ++ c) = words b + words c.
Proof.
  induction b as [| x | x y b IH] using pair_ind; intros Hm; [done | destruct Hm as [k Hk]; cbn in Hk; lia |].
  cbn [app words]. rewrite IH; [lia |]. destruct Hm as [k Hk]. cbn [length] in Hk. exists (k - 1)%nat. lia.
Qed.

Lemma words_nonneg b : bytes_ok b -> 0 <= words b.
Proof.
  induction b as [| x | x y b IH] using pair_ind; intros Hb; cbn [words]; [done | inversion_clear Hb; lia |].
  inversion_clear Hb as [| ? ? Hx Hb']. inversion_clear Hb' as [| ? ? Hy Hb2]. specialize (IH Hb2). lia.
Qed.

(** [(h << n) | l] puts two fields side by side. *)
Lemma lor_shift h l n : 0 <= n -> 0 <= l < 2 ^ n -> Z.lor (Z.shiftl h n) l = h * 2 ^ n + l.
Proof.
  intros Hn Hl. rewrite <- Z.shiftl_mul_pow2 by done. rewrite <- Z.add_lor_land.
  assert (Z.land (Z.shiftl h n) l = 0) as ->; [| lia]. apply Z.bits_inj'. intros i Hi. rewrite Z.land_spec, Z.bits_0.
  destruct (Z.lt_ge_cases i n); [by rewrite Z.shiftl_spec_low | rewrite (testbit_high l n) by lia; apply andb_false_r].
Qed.

Lemma word_value h l : 0 <= h < 256 -> 0 <= l < 256 -> u16_wrap (Z.lor (Z.shiftl h 8) l) = h * 256 + l.
Proof. intros Hh Hl. rewrite lor_shift by lia. unfold u16_wrap. apply Z.mod_small. lia. Qed.

Lemma drop_aget (b : Bytes) i : 0 <= i < zlen b -> drop (Z.to_nat i) b = b.[i] :: drop (Z.to_nat (i + 1)) b.
Proof.
  intros Hi. rewrite (drop_S b b.[i] (Z.to_nat i)) by (by apply lookup_aget). f_equal. f_equal. lia.
Qed.

Lemma sum_loop_spec b n : bytes_ok b -> forall at_ v, 0 <= at_ -> Z.of_nat n = (zlen b - at_ + 1) / 2 -> at_ <= zlen b + 1 ->
  0 <= v < 2 ^ 17 -> let r := sum_loop n b at_ v in
  same r (v + words (drop (Z.to_nat at_) b)) /\ 0 <= r < 2 ^ 17 /\ (r = 0 <-> v = 0 /\ words (drop (Z.to_nat at_) b) = 0).
Proof.
  intros Hb. induction n as [| n IH]; intros at_ v Ha Hn Hle Hv; cbn [sum_loop].
  - assert (zlen b <= at_) by dlia. rewrite drop_ge by (unfold zlen in *; lia). cbn [words].
    split; [exists 0; lia | split; [lia | tauto]].
  - assert (at_ < zlen b) as Hlt by dlia. unfold byte. set (low := if at_ + 1 <? zlen b then b.[at_ + 1] else 0).
    pose proof (bytes_ok_aget b at_ Hb ltac:(lia)) as Hh.
    assert (0 <= low < 256) as Hl by (subst low; destruct (Z.ltb_spec (at_ + 1) (zlen b)); [apply bytes_ok_aget; [done | lia] | lia]).
    rewrite word_value by done.
    assert (words (drop (Z.to_nat at_) b) = b.[at_] * 256 + low + words (drop (Z.to_nat (at_ + 2)) b)) as Hw.
    { rewrite drop_aget by lia. subst low. destruct (Z.ltb_spec (at_ + 1) (zlen b)) as [H1 | H1].
      - rewrite drop_aget by lia. replace (at_ + 1 + 1) with (at_ + 2) by lia. done.
      - rewrite !drop_ge by (unfold zlen in *; lia). cbn. lia. }
    unfold u32_wrap. rewrite Z.mod_small by lia. set (w := b.[at_] * 256 + low) in *.
    destruct (fold_same (v + w) ltac:(lia)) as ([k Hk] & Hr & Hz).
    destruct (IH (at_ + 2) (fold (v + w))) as ([k' Hk'] & Hr' & Hz'); [lia | dlia | lia | split; [lia | dlia] |].
    assert (0 <= words (drop (Z.to_nat (at_ + 2)) b)) by (apply words_nonneg; by apply Forall_drop).
    split; [exists (k + k'); lia |]. split; [lia |]. rewrite Hz', Hz, Hw. lia.
Qed.

Lemma fold_loop_spec v : 0 <= v < 2 ^ 17 -> let r := fold_loop 3 v in same r v /\ 0 <= r <= 65535 /\ (r = 0 <-> v = 0).
Proof.
  intros Hv. assert (forall x, Z.shiftr x 16 = x / 65536) as Hs by (intros x; by rewrite Z.shiftr_div_pow2).
  cbn [fold_loop]. rewrite !Hs. destruct (fold_same v ltac:(lia)) as ([k Hk] & Hr & Hz).
  destruct (fold_same (fold v) ltac:(dlia)) as ([k' Hk'] & Hr' & Hz').
  destruct (Z.eqb_spec (v / 65536) 0); [split; [exists 0; lia | split; [dlia | tauto]] |].
  destruct (Z.eqb_spec (fold v / 65536) 0); [split; [exists k; lia | split; [dlia | tauto]] |].
  assert (fold (fold v) / 65536 = 0) as -> by (rewrite (fold_spec (fold v)) by dlia; rewrite (fold_spec v) in * by dlia; dlia).
  cbn. split; [exists (k + k'); lia |]. split; [| tauto]. rewrite (fold_spec (fold v)) by dlia. rewrite (fold_spec v) in * by dlia. dlia.
Qed.

(** The sum is the class of the words modulo 65535, and 0 only for zeros. *)
Lemma sum_spec b initial : bytes_ok b -> 0 <= initial < 2 ^ 32 -> let r := sum b initial in
  same r (initial + words b) /\ 0 <= r <= 65535 /\ (r = 0 <-> initial = 0 /\ words b = 0).
Proof.
  intros Hb Hi. unfold sum. destruct (fold_same initial Hi) as ([k Hk] & Hr & Hz). pose proof (zlen_nonneg b).
  destruct (sum_loop_spec b (Z.to_nat ((zlen b + 1) / 2)) Hb 0 (fold initial)) as ([k' Hk'] & Hr' & Hz'); [lia | dlia | lia | split; [lia | dlia] |].
  rewrite drop_0 in *. destruct (fold_loop_spec _ Hr') as ([k2 Hk2] & Hr2 & Hz2).
  split; [exists (k + k' + k2); lia |]. split; [done |]. rewrite Hz2, Hz', Hz. tauto.
Qed.

(** ** Closing a checksum *)

Lemma not16_spec v : 0 <= v <= 65535 -> not16 v = 65535 - v.
Proof.
  intros Hv. unfold not16, u16_wrap. pose proof (Z.add_lnot_diag v) as Hl.
  replace (Z.lnot v) with (65535 - v + (-1) * 2 ^ 16) by lia. rewrite Z_mod_plus_full. apply Z.mod_small. lia.
Qed.

(** A word that completes the sum of the rest makes the check succeed; both
    representations of zero do. *)
Lemma checksum_closes b b' initial c : bytes_ok b -> bytes_ok b' -> 0 <= initial < 2 ^ 32 ->
  words b' = words b + c -> c = not16 (sum b initial) \/ not16 (sum b initial) = 0 /\ c = 65535 ->
  sum b' initial = 65535.
Proof.
  intros Hb Hb' Hi Hw Hc. destruct (sum_spec b initial Hb Hi) as ([k Hk] & Hr & Hz).
  destruct (sum_spec b' initial Hb' Hi) as ([k' Hk'] & Hr' & Hz'). rewrite not16_spec in Hc by done.
  pose proof (words_nonneg b Hb). assert (sum b' initial <> 0) by (rewrite Hz'; lia). lia.
Qed.

(** ** Writing bytes *)

Lemma aset_app_l {A} (a b : list A) i v : 0 <= i < zlen a -> aset (a ++ b) i v = aset a i v ++ b.
Proof. unfold aset, zlen. intros Hi. apply insert_app_l. lia. Qed.

Lemma aset_app_r {A} (a b : list A) i v : 0 <= i -> aset (a ++ b) (zlen a + i) v = a ++ aset b i v.
Proof. unfold aset, zlen. intros Hi. rewrite insert_app_r_alt by lia. do 2 f_equal. lia. Qed.

Lemma copy_bytes_app_r h t at_ x : 0 <= at_ -> copy_bytes (h ++ t) (zlen h + at_) x = h ++ copy_bytes t at_ x.
Proof.
  revert t at_. induction x as [| b x IH]; intros t at_ Ha; cbn [copy_bytes]; [done |].
  rewrite aset_app_r by done. rewrite <- Z.add_assoc. apply IH. lia.
Qed.

Lemma copy_bytes_app o at_ x y : copy_bytes o at_ (x ++ y) = copy_bytes (copy_bytes o at_ x) (at_ + zlen x) y.
Proof.
  revert o at_. induction x as [| b x IH]; intros o at_; cbn [app copy_bytes]; [by rewrite Z.add_0_r |].
  rewrite IH, zlen_cons. f_equal. lia.
Qed.

Lemma copy_bytes_0 x t t' : zlen t = zlen x -> copy_bytes (t ++ t') 0 x = x ++ t'.
Proof.
  revert t. assert (forall (h t : Bytes), zlen t = zlen x -> copy_bytes (h ++ t ++ t') (zlen h) x = h ++ x ++ t') as Hg.
  { induction x as [| b x IH]; intros h t Hl; cbn [copy_bytes].
    - destruct t; [done | rewrite zlen_cons in Hl; pose proof (zlen_nonneg t); change (zlen []) with 0 in Hl; lia].
    - destruct t as [| c t]; [rewrite zlen_cons in Hl; pose proof (zlen_nonneg x); change (zlen []) with 0 in Hl; lia |].
      rewrite !zlen_cons in Hl. replace (zlen h) with (zlen h + 0) at 1 by lia. rewrite aset_app_r by lia.
      assert (((c :: t) ++ t').[0 := b] = b :: t ++ t') as -> by done.
      pose proof (IH (h ++ [b]) t ltac:(lia)) as IH'. rewrite zlen_app, <- !app_assoc in IH'. exact IH'. }
  intros t Hl. apply (Hg [] t Hl).
Qed.

(** Writing [x] at [at_]: the bytes before and after stay. *)
Lemma copy_bytes_eq o at_ x : 0 <= at_ -> at_ + zlen x <= zlen o ->
  copy_bytes o at_ x = first o at_ ++ x ++ rest o (at_ + zlen x).
Proof.
  intros Ha Hl. unfold first, rest. pose proof (zlen_nonneg x).
  pose proof (copy_bytes_app_r (take (Z.to_nat at_) o) (drop (Z.to_nat at_) o) 0 x ltac:(lia)) as E.
  rewrite take_drop, zlen_take, Z.add_0_r, Z.min_l, Z2Nat.id in E by lia. rewrite E. f_equal.
  rewrite <- (take_drop (Z.to_nat (zlen x)) (drop (Z.to_nat at_) o)) at 1.
  rewrite copy_bytes_0 by (rewrite zlen_take, zlen_drop; lia). rewrite drop_drop. do 2 f_equal. lia.
Qed.

Lemma zlen_copy_bytes o at_ x : zlen (copy_bytes o at_ x) = zlen o.
Proof. revert o at_. induction x as [| b x IH]; intros o at_; cbn [copy_bytes]; [done |]. by rewrite IH, zlen_aset. Qed.

(** The two bytes of a word. *)
Definition hi (v : Z) : Z := u8_wrap (Z.shiftr v 8).
Definition lo (v : Z) : Z := u8_wrap v.

Lemma put16_copy o at_ v : put16 o at_ v = copy_bytes o at_ [hi v; lo v].
Proof. done. Qed.

Lemma bytes16 v : 0 <= v < 65536 -> hi v * 256 + lo v = v /\ 0 <= hi v < 256 /\ 0 <= lo v < 256.
Proof.
  intros Hv. unfold hi, lo, u8_wrap. rewrite Z.shiftr_div_pow2 by lia. change (2 ^ 8) with 256. dlia.
Qed.

Lemma be16_at b at_ h l : b.[at_] = h -> b.[at_ + 1] = l -> 0 <= h < 256 -> 0 <= l < 256 -> be16 b at_ = h * 256 + l.
Proof. intros <- <- Hh Hl. by apply word_value. Qed.

(** ** Parts of a buffer *)
Lemma aget_first b n k : 0 <= k < n -> (first b n).[k] = b.[k].
Proof. intros Hk. unfold first. apply aget_take. lia. Qed.
Lemma aget_rest b n k : 0 <= n -> 0 <= k -> (rest b n).[k] = b.[n + k].
Proof. intros Hn Hk. unfold rest. rewrite aget_drop by lia. f_equal. lia. Qed.
Lemma zlen_first b n : 0 <= n -> zlen (first b n) = Z.min n (zlen b).
Proof. intros Hn. unfold first. rewrite zlen_take. lia. Qed.
Lemma zlen_skip b n : 0 <= n -> zlen (rest b n) = Z.max 0 (zlen b - n).
Proof. intros Hn. unfold rest. rewrite zlen_drop. lia. Qed.
Lemma zlen_slice b p n : 0 <= p -> 0 <= n -> p + n <= zlen b -> zlen (subspan b p n) = n.
Proof. intros Hp Hn Hb. unfold subspan. rewrite zlen_take, zlen_drop. lia. Qed.
Lemma aget_subspan b p n k : 0 <= p -> 0 <= k < n -> (subspan b p n).[k] = b.[p + k].
Proof. intros Hp Hk. unfold subspan. rewrite aget_take, aget_drop by lia. f_equal. lia. Qed.
