(* ===== verification/Ip.v ===== *)
(** * IP addresses, IPv6 and the address families (include/ok/net/ip.hpp)

    Address predicates, the IPv6 parser with its extension headers, and the
    transport codecs that are generic in the address family.  The concept
    AddressFamily is the class [AddressFamily], with the instances
    [ipv4_family] and [ipv6_family]. *)

From S2P Require Import Prelude Epoch Wire.

Definition ethertype_ipv4 : Z := 0x0800.
Definition ethertype_arp : Z := 0x0806.
Definition ethertype_ipv6 : Z := 0x86dd.
Definition protocol_icmp : Z := 1.
Definition protocol_tcp : Z := 6.
Definition protocol_udp : Z := 17.
Definition protocol_icmpv6 : Z := 58.
Definition protocol_no_next : Z := 59.
Definition broadcast_mac : Bytes := [0xff; 0xff; 0xff; 0xff; 0xff; 0xff].
Definition all_nodes : Bytes := [0xff; 0x02; 0; 0; 0; 0; 0; 0; 0; 0; 0; 0; 0; 0; 0; 1].
Definition all_routers : Bytes := [0xff; 0x02; 0; 0; 0; 0; 0; 0; 0; 0; 0; 0; 0; 0; 0; 2].

(** The overloads of multicast(), unspecified() and loopback() by the address. *)
Definition multicast_address (mac : Bytes) : bool := negb (Z.land mac.[0] 1 =? 0).
Definition multicast4 (address : Bytes) : bool := (224 <=? address.[0]) && (address.[0] <? 240).
Definition broadcast (address : Bytes) : bool := bool_decide (address = [255; 255; 255; 255]).
Definition unspecified4 (address : Bytes) : bool := bool_decide (address = [0; 0; 0; 0]).
Definition loopback4 (address : Bytes) : bool := address.[0] =? 127.
Definition multicast6 (address : Bytes) : bool := address.[0] =? 0xff.
Definition unspecified6 (address : Bytes) : bool := bool_decide (address = replicate 16 0).
Definition loopback6 (address : Bytes) : bool := bool_decide (address = replicate 15 0 ++ [1]).
Definition link_local (address : Bytes) : bool := (address.[0] =? 0xfe) && (Z.land address.[1] 0xc0 =? 0x80).
Definition ipv4_mapped (address : Bytes) : bool :=
  forallb (fun i => address.[i] =? 0) (indices 10) && (address.[10] =? 0xff) && (address.[11] =? 0xff).
Definition solicited_node (target : Bytes) : Bytes :=
  [0xff; 0x02; 0; 0; 0; 0; 0; 0; 0; 0; 0; 1; 0xff; target.[13]; target.[14]; target.[15]].
Definition multicast_mac (address : Bytes) : Bytes := [0x33; 0x33; address.[12]; address.[13]; address.[14]; address.[15]].
Definition with_interface_id (prefix mac : Bytes) : Bytes :=
  prefix.[8 := u8_wrap (Z.lxor mac.[0] 2)].[9 := mac.[1]].[10 := mac.[2]].[11 := 0xff].[12 := 0xfe].[13 := mac.[3]].[14 := mac.[4]].[15 := mac.[5]].
Definition link_local_from_mac (mac : Bytes) : Bytes := with_interface_id (0xfe :: 0x80 :: replicate 14 0) mac.

Definition prefix_match (a b : Bytes) (length : Z) : bool :=
  let bytes := length / 8 in
  let bits := length mod 8 in
  forallb (fun i => a.[i] =? b.[i]) (indices bytes) &&
  ((bits =? 0) || let mask := u8_wrap (Z.shiftl 0xff (8 - bits)) in Z.land a.[bytes] mask =? Z.land b.[bytes] mask).

Module Ipv6Packet.
Record t := mk {
  source : Bytes; destination : Bytes; traffic_class : Z; hop_limit : Z; protocol : Z; flow_label : Z; payload : Bytes
}.
End Ipv6Packet.

(** [for (at = 2; at < header.size();)] of ip_detail::options(), from [at_] on;
    [None] when the fuel does not suffice. *)
Fixpoint ip_options_loop (n : nat) (header : Bytes) (at_ : Z) : option Status :=
  match n with
  | O => None
  | S n' =>
      if zlen header <=? at_ then Some StatusCode.ok
      else
        let type_ := byte header at_ in
        if type_ =? 0 then ip_options_loop n' header (at_ + 1)
        else if zlen header - at_ <? 2 then Some StatusCode.invalid_argument
        else
          let length := 2 + byte header (at_ + 1) in
          if zlen header - at_ <? length then Some StatusCode.invalid_argument
          else if negb (type_ =? 1) && negb (Z.shiftr type_ 6 =? 0) then Some StatusCode.unsupported
          else ip_options_loop n' header (at_ + length)
  end.
Definition ip_options (header : Bytes) : option Status := ip_options_loop (S (length header)) header 2.

(** The loop over the extension headers: the upper protocol and its offset. *)
Fixpoint extension_loop (n : nat) (payload : Bytes) (next at_ : Z) (first : bool) : option (result (Z * Z)) :=
  match n with
  | O => None
  | S n' =>
      if (next =? 0) && negb first then Some (Err StatusCode.invalid_argument)
      else if negb (next =? 0) && negb (next =? 43) && negb (next =? 60) then
        if next =? 44 then Some (Err StatusCode.unsupported) else Some (Ok (next, at_))
      else if zlen payload - at_ <? 8 then Some (Err StatusCode.invalid_argument)
      else
        let size := (byte payload (at_ + 1) + 1) * 8 in
        if zlen payload - at_ <? size then Some (Err StatusCode.invalid_argument)
        else
          let header := subspan payload at_ size in
          if next =? 43 then
            if negb (byte header 3 =? 0) then Some (Err StatusCode.unsupported)
            else extension_loop n' payload (byte header 0) (at_ + size) false
          else
            status ← ip_options header;
            if negb (status_ok status) then Some (Err status)
            else extension_loop n' payload (byte header 0) (at_ + size) false
  end.

Definition ipv6 (packet : Bytes) : option (result Ipv6Packet.t) :=
  if zlen packet <? 40 then Some (Err StatusCode.invalid_argument)
  else if negb (Z.shiftr (byte packet 0) 4 =? 6) then Some (Err StatusCode.unsupported)
  else
    let length_ := be16 packet 4 in
    if zlen packet <? 40 + length_ then Some (Err StatusCode.invalid_argument)
    else
      let source := array_at packet 8 16 in
      let destination := array_at packet 24 16 in
      if multicast6 source then Some (Err StatusCode.invalid_argument)
      else
        let traffic_class := u8_wrap (Z.lor (Z.shiftl (Z.land (byte packet 0) 15) 4) (Z.shiftr (byte packet 1) 4)) in
        let flow_label := Z.lor (Z.shiftl (Z.land (byte packet 1) 15) 16) (be16 packet 2) in
        let hop_limit := byte packet 7 in
        let payload := subspan packet 40 length_ in
        found ← extension_loop (S (length payload)) payload (byte packet 6) 0 true;
        match found with
        | Err e => Some (Err e)
        | Ok (protocol, at_) =>
            Some (Ok (Ipv6Packet.mk source destination traffic_class hop_limit protocol flow_label (rest payload at_)))
        end.

(** [for (i = 0; i < 16; i += 2)], from [i] on. *)
Fixpoint pseudo_loop (n : nat) (source destination : Bytes) (i value : Z) : Z :=
  match n with
  | O => value
  | S n' =>
      let value := u32_wrap (value + Z.lor (Z.shiftl source.[i] 8) source.[i + 1]) in
      let value := u32_wrap (value + Z.lor (Z.shiftl destination.[i] 8) destination.[i + 1]) in
      pseudo_loop n' source destination (i + 2) (fold value)
  end.
Definition pseudo_sum6 (source destination : Bytes) (protocol length : Z) : Z :=
  let value := u32_wrap (protocol + Z.shiftr length 16 + Z.land length 0xffff) in
  fold (pseudo_loop 8 source destination 0 value).

(** ** Address families *)

(** The concept AddressFamily; [parse] is [None] when a parser's fuel does not
    suffice, which the laws exclude. *)
Class AddressFamily (Packet : Type) := {
  version : Z; ethertype : Z; header_size : Z; icmp_protocol : Z; max_packet : Z;
  parse : Bytes -> option (result Packet);
  pseudo : Bytes -> Bytes -> Z -> Z -> Z;
  icmp_initial : Bytes -> Bytes -> Z -> Z;
  family_header : Bytes -> Bytes -> Bytes -> Z -> Z -> Z -> Z -> Bytes;
  packet_source : Packet -> Bytes; packet_destination : Packet -> Bytes;
  packet_protocol : Packet -> Z; packet_payload : Packet -> Bytes
}.

Arguments version Packet {_}.
Arguments ethertype Packet {_}.
Arguments header_size Packet {_}.
Arguments icmp_protocol Packet {_}.
Arguments max_packet Packet {_}.
Arguments parse Packet {_} _.
Arguments pseudo Packet {_} _ _ _ _.
Arguments icmp_initial Packet {_} _ _ _.
Arguments family_header Packet {_} _ _ _ _ _ _ _.

(** The two address loops write disjoint bytes; they are one after the other. *)
Definition ipv4_header (output source destination : Bytes) (protocol length ttl identification : Z) : Bytes :=
  let o := zero_bytes output 0 20 in
  let o := o.[0 := 0x45].[8 := ttl].[9 := protocol] in
  let o := put16 (put16 (put16 o 2 (u16_wrap (20 + length))) 4 identification) 6 0x4000 in
  let o := copy_bytes (copy_bytes o 12 source) 16 destination in
  put16 o 10 (checksum (first o 20)).

Definition ipv6_header (output source destination : Bytes) (protocol length hop_limit identification : Z) : Bytes :=
  let o := zero_bytes output 0 40 in
  let o := put16 o.[0 := 0x60] 4 (u16_wrap length) in
  let o := o.[6 := protocol].[7 := hop_limit] in
  copy_bytes (copy_bytes o 8 source) 24 destination.

#[global] Instance ipv4_family : AddressFamily Ipv4Packet.t := {
  version := 4; ethertype := ethertype_ipv4; header_size := 20; icmp_protocol := protocol_icmp; max_packet := 65535;
  parse b := Some (ipv4 b);
  pseudo source destination protocol length := pseudo_sum source destination protocol (u16_wrap length);
  icmp_initial _ _ _ := 0;
  family_header := ipv4_header;
  packet_source := Ipv4Packet.source; packet_destination := Ipv4Packet.destination;
  packet_protocol := Ipv4Packet.protocol; packet_payload := Ipv4Packet.payload
}.
#[global] Instance ipv6_family : AddressFamily Ipv6Packet.t := {
  version := 6; ethertype := ethertype_ipv6; header_size := 40; icmp_protocol := protocol_icmpv6; max_packet := 40 + 65535;
  parse := ipv6;
  pseudo source destination protocol length := pseudo_sum6 source destination protocol (u32_wrap length);
  icmp_initial source destination length := pseudo_sum6 source destination protocol_icmpv6 (u32_wrap length);
  family_header := ipv6_header;
  packet_source := Ipv6Packet.source; packet_destination := Ipv6Packet.destination;
  packet_protocol := Ipv6Packet.protocol; packet_payload := Ipv6Packet.payload
}.

Definition ip_version (packet : Bytes) : Z := if zlen packet =? 0 then 0 else Z.shiftr (byte packet 0) 4.

Section Codecs.
Context {Packet : Type} `{AddressFamily Packet}.

Definition family_udp (ip : Packet) : result Udp.t :=
  let payload := packet_payload ip in
  if negb (packet_protocol ip =? protocol_udp) then Err StatusCode.unsupported
  else if zlen payload <? 8 then Err StatusCode.invalid_argument
  else
    let length := be16 payload 4 in
    if (length <? 8) || (zlen payload <? length) then Err StatusCode.invalid_argument
    else
      let datagram := first payload length in
      let destination_port := be16 datagram 2 in
      if destination_port =? 0 then Err StatusCode.invalid_argument
      else
        let checksum_present := negb (be16 datagram 6 =? 0) in
        if negb checksum_present && (version Packet =? 6) then Err StatusCode.invalid_argument
        else if checksum_present &&
                negb (sum datagram (pseudo Packet (packet_source ip) (packet_destination ip) protocol_udp length) =? 0xffff)
        then Err StatusCode.invalid_argument
        else Ok (Udp.mk (be16 datagram 0) destination_port checksum_present (rest datagram 8)).

Definition family_tcp (ip : Packet) : option (result Tcp.t) :=
  if negb (packet_protocol ip =? protocol_tcp) then Some (Err StatusCode.unsupported)
  else
    let segment := packet_payload ip in
    if (zlen segment <? 20) || (max_packet Packet - header_size Packet <? zlen segment) then Some (Err StatusCode.invalid_argument)
    else
      let header := Z.shiftr (byte segment 12) 4 * 4 in
      if (header <? 20) || (zlen segment <? header) then Some (Err StatusCode.invalid_argument)
      else if negb (sum segment (pseudo Packet (packet_source ip) (packet_destination ip) protocol_tcp (zlen segment)) =? 0xffff)
      then Some (Err StatusCode.invalid_argument)
      else
        let flags := byte segment 13 in
        let options := subspan segment 20 (header - 20) in
        status ← tcp_options options flags;
        if negb (status_ok status) then Some (Err status)
        else Some (Ok (Tcp.mk (tcp_fields segment) options (rest segment header))).

Definition family_build_udp (output : Span.t) (source destination : Bytes) (source_port destination_port identification ttl : Z)
    (payload : Span.t) : Bytes * result Z :=
  let o := Span.bytes output in
  let header := header_size Packet in
  if ttl =? 0 then (o, Err StatusCode.invalid_argument)
  else if (max_packet Packet - header - 8 <? Span.size payload) || (65535 - 8 <? Span.size payload) || (zlen o <? header + 8 + Span.size payload)
  then (o, Err StatusCode.overflow)
  else
    let length := header + 8 + Span.size payload in
    if overlaps payload (Span.data output) length then (o, Err StatusCode.invalid_argument)
    else
      let o := family_header Packet o source destination protocol_udp (length - header) ttl identification in
      let o := put16 (put16 o header source_port) (header + 2) destination_port in
      let o := put16 (put16 o (header + 4) (u16_wrap (length - header))) (header + 6) 0 in
      let o := copy_bytes o (header + 8) (Span.bytes payload) in
      let value := not16 (sum (subspan o header (length - header)) (pseudo Packet source destination protocol_udp (length - header))) in
      let value := if value =? 0 then 0xffff else value in
      (put16 o (header + 6) value, Ok length).

Definition family_build_tcp `{Arch} (output : Span.t) (source destination : Bytes) (identification ttl : Z) (fields : TcpFields.t)
    (options payload : Span.t) : option (Bytes * result Z) :=
  let o := Span.bytes output in
  let ip := header_size Packet in
  if ttl =? 0 then Some (o, Err StatusCode.invalid_argument)
  else
    status ← tcp_options (Span.bytes options) (TcpFields.flags fields);
    if negb (status_ok status) then Some (o, Err status)
    else
      let header := tcp_header (Span.size options) in
      if max_packet Packet - ip - header <? Span.size payload then Some (o, Err StatusCode.overflow)
      else
        let length := ip + header + Span.size payload in
        if zlen o <? length then Some (o, Err StatusCode.overflow)
        else if overlaps options (Span.data output) length || overlaps payload (Span.data output) length
        then Some (o, Err StatusCode.invalid_argument)
        else
          let o := family_header Packet o source destination protocol_tcp (length - ip) ttl identification in
          let o := zero_bytes o ip header in
          let o := put_fields o ip header fields in
          let o := copy_bytes o (ip + 20) (Span.bytes options) in
          let o := copy_bytes o (ip + header) (Span.bytes payload) in
          let value := not16 (sum (subspan o ip (length - ip)) (pseudo Packet source destination protocol_tcp (length - ip))) in
          Some (put16 o (ip + 16) value, Ok length).
End Codecs.

Definition build_ethernet (output destination source : Bytes) (type_ payload : Z) : Bytes * result Z :=
  if type_ <? 0x0600 then (output, Err StatusCode.invalid_argument)
  else if (1500 <? payload) || (zlen output <? 14 + payload) then (output, Err StatusCode.overflow)
  else (put16 (copy_bytes (copy_bytes output 0 destination) 6 source) 12 type_, Ok (14 + payload)).

Definition build_arp (output : Bytes) (operation : Z) (sender_mac sender_ip target_mac target_ip : Bytes) : Bytes * result Z :=
  if negb (operation =? 1) && negb (operation =? 2) then (output, Err StatusCode.invalid_argument)
  else if zlen output <? 28 then (output, Err StatusCode.overflow)
  else
    let o := put16 (put16 output 0 1) 2 ethertype_ipv4 in
    let o := put16 o.[4 := 6].[5 := 4] 6 operation in
    let o := copy_bytes (copy_bytes o 8 sender_mac) 18 target_mac in
    (copy_bytes (copy_bytes o 14 sender_ip) 24 target_ip, Ok 28).
