(* ===== verification/Packets.v ===== *)
(** * Packets: what the builders emit the parsers accept

    The laws of an address family, proved for IPv4 and IPv6; the round trips
    of the UDP and TCP codecs for every family that meets the laws; the
    equality of the IPv4 builders with the generic ones; and the totality of
    the option and extension-header loops. *)

From S2P Require Import Prelude Epoch Wire Checksum Ip.

(** ** The headers as lists *)
Definition ipv4_bytes (source destination : Bytes) (protocol total ttl identification c : Z) : Bytes :=
  [0x45; 0; hi total; lo total; hi identification; lo identification; 0x40; 0; ttl; protocol; hi c; lo c] ++ source ++ destination.
Definition ipv6_bytes (source destination : Bytes) (protocol length hop_limit : Z) : Bytes :=
  [0x60; 0; 0; 0; hi length; lo length; protocol; hop_limit] ++ source ++ destination.

Lemma zero_bytes_0 o n : 0 <= n <= zlen o -> zero_bytes o 0 n = replicate (Z.to_nat n) 0 ++ rest o n.
Proof.
  intros Hn. unfold zero_bytes. rewrite copy_bytes_eq by (rewrite ?zlen_replicate; lia). rewrite zlen_replicate.
  by replace (0 + Z.of_nat (Z.to_nat n)) with n by lia.
Qed.

Lemma four (l : Bytes) : zlen l = 4 -> exists a b c d, l = [a; b; c; d].
Proof.
  unfold zlen. intros Hl. destruct l as [| a [| b [| c [| d [| e l]]]]]; cbn in Hl; try lia. by exists a, b, c, d.
Qed.

Lemma ipv4_header_eq o source destination protocol length ttl identification :
  20 <= zlen o -> zlen source = 4 -> zlen destination = 4 ->
  let h := ipv4_bytes source destination protocol (u16_wrap (20 + length)) ttl identification in
  ipv4_header o source destination protocol length ttl identification = h (checksum (h 0)) ++ rest o 20.
Proof.
  intros Ho Hs Hd. destruct (four source Hs) as (s0 & s1 & s2 & s3 & ->), (four destination Hd) as (d0 & d1 & d2 & d3 & ->).
  unfold ipv4_header, ipv4_bytes. rewrite zero_bytes_0, !put16_copy by lia. change (hi 0x4000) with 0x40. change (lo 0x4000) with 0.
  change (hi 0) with 0. change (lo 0) with 0. generalize (rest o 20). intros r.
  generalize (hi (u16_wrap (20 + length))) (lo (u16_wrap (20 + length))) (hi identification) (lo identification). intros t1 t0 i1 i0.
  set (h := fun c1 c0 => [0x45; 0; t1; t0; i1; i0; 0x40; 0; ttl; protocol; c1; c0; s0; s1; s2; s3; d0; d1; d2; d3]).
  match goal with |- copy_bytes ?x 10 _ = _ => assert (x = h 0 0 ++ r) as -> by reflexivity end.
  change (first (h 0 0 ++ r) 20) with (h 0 0). change (([69; 0; t1; t0; i1; i0; 64; 0; ttl; protocol; 0; 0] ++ [s0; s1; s2; s3] ++ [d0; d1; d2; d3])) with (h 0 0).
  generalize (hi (checksum (h 0 0))) (lo (checksum (h 0 0))). intros c1 c0. reflexivity.
Qed.

(** Writing over the middle of a list. *)
Lemma copy_over h t r x at_ : at_ = zlen h -> zlen t = zlen x -> copy_bytes (h ++ t ++ r) at_ x = h ++ x ++ r.
Proof. intros -> Hl. rewrite <- (Z.add_0_r (zlen h)) at 1. rewrite copy_bytes_app_r by lia. by rewrite copy_bytes_0. Qed.

Lemma ipv6_header_eq o source destination protocol length hop_limit identification :
  40 <= zlen o -> zlen source = 16 -> zlen destination = 16 ->
  ipv6_header o source destination protocol length hop_limit identification =
    ipv6_bytes source destination protocol (u16_wrap length) hop_limit ++ rest o 40.
Proof.
  intros Ho Hs Hd. unfold ipv6_header, ipv6_bytes. rewrite zero_bytes_0, put16_copy by lia. generalize (rest o 40). intros r.
  generalize (hi (u16_wrap length)) (lo (u16_wrap length)). intros l1 l0.
  set (h := [0x60; 0; 0; 0; l1; l0; protocol; hop_limit]). set (z := replicate 16 0).
  match goal with |- copy_bytes (copy_bytes ?x 8 _) 24 _ = _ => assert (x = h ++ z ++ z ++ r) as -> by reflexivity end.
  rewrite copy_over by (done || by rewrite Hs). rewrite app_assoc. rewrite copy_over; [by rewrite <- !app_assoc | | by rewrite Hd].
  rewrite zlen_app, Hs. done.
Qed.

(** ** The laws of a family *)
Class FamilyLaws (Packet : Type) `{AddressFamily Packet} := {
  address_ok : Bytes -> Prop;
  source_ok : Bytes -> Prop;
  law_sizes : 0 < header_size Packet /\ header_size Packet + 65515 <= max_packet Packet <= header_size Packet + 65535;
  law_pseudo source destination protocol length :
    address_ok source -> address_ok destination -> 0 <= protocol < 256 -> 0 <= length < 2 ^ 32 ->
    0 <= pseudo Packet source destination protocol length < 2 ^ 32;
  law_header o source destination protocol length ttl identification :
    address_ok source -> source_ok source -> address_ok destination -> protocol = protocol_tcp \/ protocol = protocol_udp ->
    0 <= length -> header_size Packet + length <= max_packet Packet -> 0 <= ttl < 256 -> 0 <= identification < 65536 -> header_size Packet <= zlen o ->
    exists h, zlen h = header_size Packet /\ bytes_ok h /\
      family_header Packet o source destination protocol length ttl identification = h ++ rest o (header_size Packet) /\
      forall payload padding, zlen payload = length -> bytes_ok payload ->
        exists packet, parse Packet (h ++ payload ++ padding) = Some (Ok packet) /\ packet_source packet = source /\
          packet_destination packet = destination /\ packet_protocol packet = protocol /\ packet_payload packet = payload
}.

Lemma first_app (a b : Bytes) n : n = zlen a -> first (a ++ b) n = a.
Proof. intros ->. unfold first, zlen. rewrite Nat2Z.id. apply take_app_length. Qed.
Lemma rest_app (a b : Bytes) n : n = zlen a -> rest (a ++ b) n = b.
Proof. intros ->. unfold rest, zlen. rewrite Nat2Z.id. apply drop_app_length. Qed.
Lemma subspan_app (a b c : Bytes) at_ n : at_ = zlen a -> n = zlen b -> subspan (a ++ b ++ c) at_ n = b.
Proof. intros Ha Hb. unfold subspan. change (first (rest (a ++ b ++ c) at_) n = b). by rewrite rest_app, first_app. Qed.

Lemma bytes_ok_app a b : bytes_ok (a ++ b) <-> bytes_ok a /\ bytes_ok b.
Proof. apply Forall_app. Qed.

(** The header with its checksum. *)
Lemma ipv4_checksum h source destination protocol total ttl identification :
  h = ipv4_bytes source destination protocol total ttl identification ->
  zlen source = 4 -> zlen destination = 4 -> bytes_ok source -> bytes_ok destination ->
  0 <= protocol < 256 -> 0 <= total < 65536 -> 0 <= ttl < 256 -> 0 <= identification < 65536 ->
  bytes_ok (h (checksum (h 0))) /\ zlen (h (checksum (h 0))) = 20 /\ checksum (h (checksum (h 0))) = 0.
Proof.
  intros Hh0 Hs Hd Hbs Hbd Hp Ht Httl Hi. destruct (bytes16 total Ht) as (_ & ? & ?), (bytes16 identification Hi) as (_ & ? & ?).
  assert (forall c, 0 <= c < 65536 -> bytes_ok (h c) /\ words (h c) = words (h 0) + c) as Hh.
  { intros c Hc. destruct (bytes16 c Hc) as (Hv & ? & ?). split.
    - rewrite Hh0. apply bytes_ok_app. split; [| by apply bytes_ok_app]. unfold bytes_ok. repeat constructor; done || lia.
    - rewrite Hh0. unfold ipv4_bytes. cbn [app words]. change (hi 0) with 0. change (lo 0) with 0. lia. }
  destruct (Hh 0 ltac:(lia)) as [Hz0 _]. destruct (sum_spec (h 0) 0 Hz0 ltac:(lia)) as (_ & Hr & _).
  assert (checksum (h 0) = 65535 - sum (h 0) 0) as Hc by (unfold checksum; by rewrite not16_spec).
  destruct (Hh (checksum (h 0)) ltac:(lia)) as [Hz1 Hw]. split; [done |]. split; [rewrite Hh0; unfold ipv4_bytes; rewrite !zlen_app, Hs, Hd; done |].
  unfold checksum at 1. rewrite (checksum_closes (h 0) (h (checksum (h 0))) 0 (checksum (h 0))); [done | done | done | lia | done |]. by left.
Qed.

Lemma ipv4_accepts source destination protocol total ttl identification payload padding :
  zlen source = 4 -> zlen destination = 4 -> bytes_ok source -> bytes_ok destination ->
  0 <= protocol < 256 -> 0 <= total < 65536 -> 0 <= ttl < 256 -> 0 <= identification < 65536 -> zlen payload = total - 20 ->
  let h := ipv4_bytes source destination protocol total ttl identification in
  ipv4 (h (checksum (h 0)) ++ payload ++ padding) =
    Ok (Ipv4Packet.mk source destination 0 ttl protocol identification true payload).
Proof.
  intros Hs Hd Hbs Hbd Hp Ht Httl Hi Hpl h. destruct (ipv4_checksum h source destination protocol total ttl identification) as (_ & Hl & Hc); try done.
  unfold ipv4. rewrite zlen_app, Hl, zlen_app. rewrite (first_app (h (checksum (h 0)))) by (rewrite Hl; done).
  pose proof (zlen_nonneg payload). pose proof (zlen_nonneg padding).
  set (c := checksum (h 0)) in *. clearbody c.
  destruct (four source Hs) as (s0 & s1 & s2 & s3 & ->), (four destination Hd) as (d0 & d1 & d2 & d3 & ->).
  destruct (bytes16 total Ht) as (Hvt & Ht1 & Ht0), (bytes16 identification Hi) as (Hvi & Hi1 & Hi0).
  assert (be16 (h c ++ payload ++ padding) 2 = total) as -> by (rewrite <- Hvt; by apply be16_at).
  assert (be16 (h c ++ payload ++ padding) 4 = identification) as -> by (rewrite <- Hvi; by apply be16_at).
  assert (be16 (h c ++ payload ++ padding) 6 = 0x4000) as -> by (apply (be16_at _ _ 0x40 0); done || lia).
  change (byte (h c ++ payload ++ padding) 0) with 0x45. change (byte (h c ++ payload ++ padding) 1) with 0.
  change (byte (h c ++ payload ++ padding) 8) with ttl. change (byte (h c ++ payload ++ padding) 9) with protocol.
  change (array_at (h c ++ payload ++ padding) 12 4) with [s0; s1; s2; s3]. change (array_at (h c ++ payload ++ padding) 16 4) with [d0; d1; d2; d3].
  change (Z.shiftr 0x45 4) with 4. change (Z.land 0x45 15 * 4) with 20. rewrite Hc. cmp. change (20 <? 20) with false.
  cbn [orb negb]. rewrite subspan_app by (rewrite ?Hl; lia). done.
Qed.

Lemma array_at_subspan b at_ n : 0 <= at_ -> 0 <= n -> at_ + n <= zlen b -> array_at b at_ n = subspan b at_ n.
Proof.
  intros Ha Hn Hl. assert (zlen (array_at b at_ n) = n) as Hz by (unfold array_at; rewrite (zlen_fmap (fun i => b.[at_ + i])), zlen_indices; done).
  apply list_eq_aget; [rewrite Hz; unfold subspan; rewrite zlen_take, zlen_drop; lia |]. intros i Hi. rewrite Hz in Hi.
  unfold array_at, subspan. rewrite (aget_fmap (fun i => b.[at_ + i])) by (rewrite zlen_indices; lia). rewrite aget_indices by lia.
  rewrite aget_take, aget_drop by lia. f_equal. lia.
Qed.

Lemma array_at_app a b c at_ n : at_ = zlen a -> n = zlen b -> array_at (a ++ b ++ c) at_ n = b.
Proof.
  intros -> ->. pose proof (zlen_nonneg a). pose proof (zlen_nonneg b). pose proof (zlen_nonneg c).
  rewrite array_at_subspan by (rewrite ?zlen_app; lia). by apply subspan_app.
Qed.

Lemma ipv6_accepts source destination protocol length_ hop_limit payload padding :
  zlen source = 16 -> zlen destination = 16 -> multicast6 source = false ->
  protocol = protocol_tcp \/ protocol = protocol_udp -> 0 <= length_ < 65536 -> zlen payload = length_ ->
  ipv6 (ipv6_bytes source destination protocol length_ hop_limit ++ payload ++ padding) =
    Some (Ok (Ipv6Packet.mk source destination 0 hop_limit protocol 0 payload)).
Proof.
  intros Hs Hd Hm Hp Hl Hpl. set (h := ipv6_bytes source destination protocol length_ hop_limit).
  assert (zlen h = 40) as Hh by (unfold h, ipv6_bytes; rewrite !zlen_app, Hs, Hd; done).
  destruct (bytes16 length_ Hl) as (Hvl & Hl1 & Hl0). unfold ipv6. rewrite zlen_app, Hh, zlen_app.
  pose proof (zlen_nonneg payload). pose proof (zlen_nonneg padding).
  assert (be16 (h ++ payload ++ padding) 4 = length_) as -> by (rewrite (be16_at _ 4 (hi length_) (lo length_)); done).
  assert (be16 (h ++ payload ++ padding) 2 = 0) as -> by (apply (be16_at _ _ 0 0); done || lia).
  assert (array_at (h ++ payload ++ padding) 8 16 = source) as -> by (unfold h, ipv6_bytes; rewrite <- !app_assoc; apply array_at_app; done).
  assert (array_at (h ++ payload ++ padding) 24 16 = destination) as ->.
  { unfold h, ipv6_bytes. rewrite <- !app_assoc, (app_assoc _ source). apply array_at_app; [rewrite zlen_app, Hs; done | done]. }
  rewrite Hm. change (byte (h ++ payload ++ padding) 0) with 0x60. change (byte (h ++ payload ++ padding) 1) with 0.
  change (byte (h ++ payload ++ padding) 6) with protocol. change (byte (h ++ payload ++ padding) 7) with hop_limit.
  change (Z.shiftr 0x60 4) with 6. cmp. rewrite subspan_app by lia.
  assert (extension_loop (S (length payload)) payload protocol 0 true = Some (Ok (protocol, 0))) as -> by (by destruct Hp as [-> | ->]). done.
Qed.

(** ** The two families meet the laws *)
Lemma fold_range v : 0 <= fold v < 2 ^ 32.
Proof. apply Z.mod_pos_bound. lia. Qed.

Lemma ipv4_header_parsed o source destination protocol length ttl identification :
  zlen source = 4 /\ bytes_ok source -> True -> zlen destination = 4 /\ bytes_ok destination ->
  protocol = protocol_tcp \/ protocol = protocol_udp ->
  0 <= length -> 20 + length <= 65535 -> 0 <= ttl < 256 -> 0 <= identification < 65536 -> 20 <= zlen o ->
  exists h, zlen h = 20 /\ bytes_ok h /\
    ipv4_header o source destination protocol length ttl identification = h ++ rest o 20 /\
    forall payload padding, zlen payload = length -> bytes_ok payload ->
      exists packet, parse Ipv4Packet.t (h ++ payload ++ padding) = Some (Ok packet) /\ packet_source packet = source /\
        packet_destination packet = destination /\ packet_protocol packet = protocol /\ packet_payload packet = payload.
Proof.
  intros [Hs Hbs] _ [Hd Hbd] Hp Hl Hmax Httl Hid Ho.
  assert (0 <= protocol < 256) by (destruct Hp as [-> | ->]; by vm_compute).
  pose proof (ipv4_header_eq o source destination protocol length ttl identification Ho Hs Hd) as He.
  unfold u16_wrap in He. rewrite (Z.mod_small (20 + length)) in He by lia.
  set (h := ipv4_bytes source destination protocol (20 + length) ttl identification) in *.
  destruct (ipv4_checksum h source destination protocol (20 + length) ttl identification) as (Hb & Hlen & _); try done; [lia |].
  exists (h (checksum (h 0))). split_and!; try done. intros payload padding Hpl _.
  eexists. split; [cbn [parse ipv4_family]; f_equal; apply ipv4_accepts; done || lia | done].
Qed.

#[global] Instance ipv4_laws : FamilyLaws Ipv4Packet.t.
Proof.
  refine {| address_ok a := zlen a = 4 /\ bytes_ok a; source_ok _ := True |}; [by vm_compute | intros; apply fold_range |].
  cbn. exact ipv4_header_parsed.
Defined.

Lemma ipv6_header_parsed o source destination protocol length ttl identification :
  zlen source = 16 /\ bytes_ok source -> multicast6 source = false -> zlen destination = 16 /\ bytes_ok destination ->
  protocol = protocol_tcp \/ protocol = protocol_udp ->
  0 <= length -> 40 + length <= 40 + 65535 -> 0 <= ttl < 256 -> 0 <= identification < 65536 -> 40 <= zlen o ->
  exists h, zlen h = 40 /\ bytes_ok h /\
    ipv6_header o source destination protocol length ttl identification = h ++ rest o 40 /\
    forall payload padding, zlen payload = length -> bytes_ok payload ->
      exists packet, parse Ipv6Packet.t (h ++ payload ++ padding) = Some (Ok packet) /\ packet_source packet = source /\
        packet_destination packet = destination /\ packet_protocol packet = protocol /\ packet_payload packet = payload.
Proof.
  intros [Hs Hbs] Hm [Hd Hbd] Hp Hl Hmax Httl Hid Ho.
  assert (0 <= protocol < 256) by (destruct Hp as [-> | ->]; by vm_compute). assert (0 <= length < 65536) as Hlen by lia.
  pose proof (ipv6_header_eq o source destination protocol length ttl identification Ho Hs Hd) as He.
  unfold u16_wrap in He. rewrite (Z.mod_small length) in He by lia. destruct (bytes16 length Hlen) as (_ & ? & ?).
  exists (ipv6_bytes source destination protocol length ttl). split_and!; [| | done |].
  - unfold ipv6_bytes. rewrite !zlen_app, Hs, Hd. done.
  - apply bytes_ok_app. split; [| by apply bytes_ok_app]. unfold bytes_ok. repeat constructor; done || lia.
  - intros payload padding Hpl _. eexists. split; [cbn [parse ipv6_family]; by apply ipv6_accepts | done].
Qed.

#[global] Instance ipv6_laws : FamilyLaws Ipv6Packet.t.
Proof.
  refine {| address_ok a := zlen a = 16 /\ bytes_ok a; source_ok a := multicast6 a = false |}; [by vm_compute | intros; apply fold_range |].
  cbn. exact ipv6_header_parsed.
Defined.

(** ** UDP *)
Definition udp_bytes (source_port destination_port length c : Z) (payload : Bytes) : Bytes :=
  [hi source_port; lo source_port; hi destination_port; lo destination_port; hi length; lo length; hi c; lo c] ++ payload.

Lemma zlen_udp source_port destination_port length c payload :
  zlen (udp_bytes source_port destination_port length c payload) = 8 + zlen payload.
Proof. unfold udp_bytes. by rewrite zlen_app. Qed.

(** Consecutive writes into [r] are one write. *)
Lemma udp_writes r source_port destination_port length payload : 8 + zlen payload <= zlen r ->
  copy_bytes (put16 (put16 (put16 (put16 r 0 source_port) 2 destination_port) 4 length) 6 0) 8 payload =
    udp_bytes source_port destination_port length 0 payload ++ rest r (8 + zlen payload).
Proof.
  intros Hl. pose proof (zlen_nonneg payload).
  pose proof (zlen_udp source_port destination_port length 0 payload) as Hz.
  transitivity (copy_bytes r 0 (udp_bytes source_port destination_port length 0 payload)).
  - unfold udp_bytes. rewrite copy_bytes_app. reflexivity.
  - rewrite copy_bytes_eq by lia. by rewrite Hz.
Qed.

(** Writes behind a header. *)
Lemma copy_behind h t at_ k x : at_ = zlen h + k -> 0 <= k -> copy_bytes (h ++ t) at_ x = h ++ copy_bytes t k x.
Proof. intros -> Hk. by apply copy_bytes_app_r. Qed.
Lemma put16_behind h t at_ k v : at_ = zlen h + k -> 0 <= k -> put16 (h ++ t) at_ v = h ++ put16 t k v.
Proof. intros Ha Hk. rewrite !put16_copy. by apply copy_behind. Qed.

(** The checksum word of a transport header: it closes the sum, and is not 0
    when the code replaces 0. *)
Definition closing (b : Bytes) (initial : Z) : Z := not16 (sum b initial).
Definition closing_nonzero (b : Bytes) (initial : Z) : Z := if closing b initial =? 0 then 0xffff else closing b initial.

Lemma closing_range b initial : bytes_ok b -> 0 <= initial < 2 ^ 32 -> 0 <= closing b initial < 65536.
Proof. intros Hb Hi. unfold closing. destruct (sum_spec b initial Hb Hi) as (_ & Hr & _). rewrite not16_spec by done. lia. Qed.

Section UdpRoundTrip.
Context {Packet : Type} `{FamilyLaws Packet}.

(** What the builder asks of its arguments. *)
Definition port (p : Z) : Prop := 0 <= p < 65536.

Definition udp_fits (output : Span.t) (ttl : Z) (payload : Span.t) : Prop :=
  ttl <> 0 /\ header_size Packet + 8 + Span.size payload <= max_packet Packet /\ Span.size payload <= 65527 /\
  header_size Packet + 8 + Span.size payload <= zlen (Span.bytes output) /\
  overlaps payload (Span.data output) (header_size Packet + 8 + Span.size payload) = false.

Lemma udp_accepts packet source_port destination_port payload c :
  let d := udp_bytes source_port destination_port (8 + zlen payload) in
  port source_port -> port destination_port -> 8 + zlen payload < 65536 -> bytes_ok payload -> port c -> c <> 0 ->
  packet_protocol packet = protocol_udp -> packet_payload packet = d c payload ->
  sum (d c payload) (pseudo Packet (packet_source packet) (packet_destination packet) protocol_udp (8 + zlen payload)) = 65535 ->
  family_udp packet = if destination_port =? 0 then Err StatusCode.invalid_argument
    else Ok (Udp.mk source_port destination_port true payload).
Proof.
  intros d Hsp Hdp Hl Hb Hc Hcz Hp Hpl Hsum. unfold family_udp. rewrite Hp, Hpl. change (negb (protocol_udp =? protocol_udp)) with false.
  pose proof (zlen_nonneg payload). assert (zlen (d c payload) = 8 + zlen payload) as Hz by apply zlen_udp.
  destruct (bytes16 source_port Hsp) as (Hs & ? & ?), (bytes16 destination_port Hdp) as (Hd & ? & ?), (bytes16 c Hc) as (Hcv & ? & ?).
  destruct (bytes16 (8 + zlen payload) ltac:(lia)) as (Hlv & ? & ?).
  assert (be16 (d c payload) 4 = 8 + zlen payload) as -> by (rewrite (be16_at _ 4 (hi (8 + zlen payload)) (lo (8 + zlen payload))); done).
  assert (first (d c payload) (8 + zlen payload) = d c payload) as -> by (unfold first; apply take_ge; unfold zlen in *; lia).
  assert (be16 (d c payload) 2 = destination_port) as -> by (rewrite (be16_at _ 2 (hi destination_port) (lo destination_port)); done).
  assert (be16 (d c payload) 0 = source_port) as -> by (rewrite (be16_at _ 0 (hi source_port) (lo source_port)); done).
  assert (be16 (d c payload) 6 = c) as -> by (rewrite (be16_at _ 6 (hi c) (lo c)); done).
  rewrite Hz. destruct (Z.eqb_spec destination_port 0); cmp; done.
Qed.

(** The bytes the builder writes, once its checks have passed. *)
Definition udp_output (o source destination : Bytes) (source_port destination_port identification ttl : Z) (payload : Bytes) : Bytes :=
  let header := header_size Packet in
  let length := 8 + zlen payload in
  let o := family_header Packet o source destination protocol_udp length ttl identification in
  let o := put16 (put16 o header source_port) (header + 2) destination_port in
  let o := put16 (put16 o (header + 4) (u16_wrap length)) (header + 6) 0 in
  let o := copy_bytes o (header + 8) payload in
  put16 o (header + 6) (closing_nonzero (subspan o header length) (pseudo Packet source destination protocol_udp length)).

Lemma udp_built o source destination source_port destination_port identification ttl payload padding :
  address_ok source -> source_ok source -> address_ok destination -> port source_port -> port destination_port ->
  port identification -> 0 <= ttl < 256 -> bytes_ok payload -> zlen payload <= 65527 ->
  let length := header_size Packet + 8 + zlen payload in length <= max_packet Packet -> length <= zlen o ->
  let o' := udp_output o source destination source_port destination_port identification ttl payload in
  rest o' length = rest o length /\
  exists packet, parse Packet (first o' length ++ padding) = Some (Ok packet) /\
    packet_source packet = source /\ packet_destination packet = destination /\
    family_udp packet = if destination_port =? 0 then Err StatusCode.invalid_argument
      else Ok (Udp.mk source_port destination_port true payload).
Proof.
  intros Hs Hso Hd Hsp Hdp Hid Httl Hb Hl65 length_ Hmax Ho o'. subst length_. pose proof (zlen_nonneg payload). destruct law_sizes as [Hh _].
  destruct (law_header o source destination protocol_udp (8 + zlen payload) ttl identification) as (h & Hlen & Hbh & Eh & Hparse); try done; try lia.
  set (d := udp_bytes source_port destination_port (8 + zlen payload)).
  set (initial := pseudo Packet source destination protocol_udp (8 + zlen payload)).
  assert (0 <= initial < 2 ^ 32) as Hi by (apply law_pseudo; done || lia).
  set (c := closing_nonzero (d 0 payload) initial).
  destruct (bytes16 source_port Hsp) as (_ & ? & ?), (bytes16 destination_port Hdp) as (_ & ? & ?), (bytes16 (8 + zlen payload) ltac:(lia)) as (_ & ? & ?).
  assert (forall c, port c -> bytes_ok (d c payload) /\ words (d c payload) = words (d 0 payload) + c) as Hdc.
  { intros x Hx. destruct (bytes16 x Hx) as (Hv & ? & ?). split.
    - apply bytes_ok_app. split; [unfold bytes_ok; repeat constructor; done || lia | done].
    - unfold d, udp_bytes. cbn [app words]. change (hi 0) with 0. change (lo 0) with 0. lia. }
  destruct (Hdc 0 ltac:(done)) as [Hd0 _]. pose proof (closing_range (d 0 payload) initial Hd0 Hi) as Hcr.
  assert (port c /\ c <> 0) as [Hc Hcz] by (unfold c, closing_nonzero, port; case_cond; b2p; lia).
  destruct (Hdc c Hc) as [Hbc Hwc].
  assert (o' = h ++ d c payload ++ rest o (header_size Packet + 8 + zlen payload)) as Eo.
  { subst o'. unfold udp_output. rewrite Eh. set (t := rest o (header_size Packet)).
    assert (zlen t = zlen o - header_size Packet) as Ht by (subst t; unfold rest; rewrite zlen_drop; lia).
    rewrite (put16_behind h t _ 0), (put16_behind h _ _ 2), (put16_behind h _ _ 4), (put16_behind h _ _ 6), (copy_behind h _ _ 8) by lia.
    unfold u16_wrap. rewrite (Z.mod_small (8 + zlen payload)) by lia. rewrite udp_writes by lia. fold (d 0 payload).
    assert (zlen (d 0 payload) = 8 + zlen payload) as Hzd by apply zlen_udp.
    rewrite subspan_app by (done || lia). fold initial c. rewrite (put16_behind h _ _ 6) by lia. f_equal.
    subst t. unfold rest. rewrite drop_drop. rewrite put16_copy. unfold d, udp_bytes. rewrite <- !app_assoc.
    change ([hi source_port; lo source_port; hi destination_port; lo destination_port; hi (8 + zlen payload); lo (8 + zlen payload); hi 0; lo 0])
      with ([hi source_port; lo source_port; hi destination_port; lo destination_port; hi (8 + zlen payload); lo (8 + zlen payload)] ++ [hi 0; lo 0]).
    rewrite <- !app_assoc, copy_over by done. rewrite !app_assoc. do 2 f_equal. lia. }
  assert (zlen (h ++ d c payload) = header_size Packet + 8 + zlen payload) as Hz by (unfold d; rewrite zlen_app, zlen_udp; lia).
  rewrite Eo, app_assoc, rest_app, first_app by done. split; [done |]. rewrite <- app_assoc.
  destruct (Hparse (d c payload) padding) as (packet & Hpk & Hps & Hpd & Hpp & Hpl); [rewrite zlen_app in Hz; lia | done |].
  exists packet. split_and!; try done. apply (udp_accepts packet source_port destination_port payload c); try done; [lia |].
  rewrite Hps, Hpd. apply (checksum_closes (d 0 payload) (d c payload) initial c); try done.
  unfold c, closing_nonzero. fold (closing (d 0 payload) initial). case_cond; b2p; [by right | by left].
Qed.

(** C11: UDP for every address family, from any source that can send (for
    IPv6 one that is not multicast, which ipv6() refuses).  When the time to
    live is not 0, the packet fits and the payload does not overlap the emitted
    bytes, the builder emits a packet that the IP parser reads back as the same
    addresses, even with padding after it; udp() reads it back as the same
    ports and payload when the destination port is not 0, and refuses it as
    invalid when it is.  The rest of the output is left alone.  Otherwise the
    builder reports why and leaves the whole output unchanged. *)
Theorem udp_roundtrip output source destination source_port destination_port identification ttl payload padding :
  address_ok source -> source_ok source -> address_ok destination -> port source_port -> port destination_port ->
  port identification -> 0 <= ttl < 256 -> bytes_ok (Span.bytes payload) ->
  let '(o, r) := family_build_udp (Packet := Packet) output source destination source_port destination_port identification ttl payload in
  let length := header_size Packet + 8 + Span.size payload in
  (udp_fits output ttl payload -> r = Ok length /\ rest o length = rest (Span.bytes output) length /\
     exists packet, parse Packet (first o length ++ padding) = Some (Ok packet) /\
       packet_source packet = source /\ packet_destination packet = destination /\
       family_udp packet = if destination_port =? 0 then Err StatusCode.invalid_argument
         else Ok (Udp.mk source_port destination_port true (Span.bytes payload))) /\
  (~ udp_fits output ttl payload -> o = Span.bytes output /\ exists e, r = Err e /\ e <> StatusCode.ok).
Proof.
  intros Hs Hso Hd Hsp Hdp Hid Httl Hb. unfold family_build_udp, udp_fits.
  destruct (Z.eqb_spec ttl 0); [split; [tauto | by eauto] |]. destruct law_sizes as [Hh Hmax].
  case_cond; b2p; [split; [lia | by eauto] |]. case_cond; [split; [by intros (_ & _ & _ & _ & ?) | by eauto] |].
  split; [intros _ | intros Hn; exfalso; apply Hn; split_and!; done || lia].
  replace (header_size Packet + 8 + Span.size payload - header_size Packet) with (8 + Span.size payload) by lia.
  split; [done |]. unfold Span.size. apply udp_built; try done; unfold Span.size in *; lia.
Qed.
End UdpRoundTrip.

Definition loopback : Bytes := [127; 0; 0; 1].
Definition buffer : Span.t := Span.mk 0x1000 (replicate 64 0xff).
Definition text : Span.t := Span.mk 0x2000 [104; 101; 108; 108; 111].

Lemma udp_witness :
  let '(o, r) := family_build_udp (Packet := Ipv4Packet.t) buffer loopback loopback 53 5353 7 64 text in
  r = Ok 33 /\ exists packet, parse Ipv4Packet.t (first o 33 ++ [0]) = Some (Ok packet) /\
    family_udp packet = Ok (Udp.mk 53 5353 true [104; 101; 108; 108; 111]).
Proof.
  assert (address_ok (Packet := Ipv4Packet.t) loopback) as Ha by (split; [done | by repeat apply Forall_cons_2]).
  assert (bytes_ok (Span.bytes text)) as Hb by (by repeat apply Forall_cons_2).
  pose proof (udp_roundtrip buffer loopback loopback 53 5353 7 64 text [0] Ha I Ha ltac:(done) ltac:(done) ltac:(done) ltac:(done) Hb) as Hu.
  destruct (family_build_udp buffer loopback loopback 53 5353 7 64 text) as [o r]. cbv zeta in Hu. destruct Hu as [Hu _].
  destruct Hu as (Hr & _ & packet & Hp & _ & _ & Hd); [by vm_compute |]. split; [exact Hr |]. exists packet. split; [exact Hp | exact Hd].
Defined.
