(* ===== verification/TcpPackets.v ===== *)
(** * TCP segments: options and round trip

    The option cursor always reaches an end; padding valid options with zeros
    keeps them valid; and what the TCP builder emits the parsers accept, for
    every address family. *)

From S2P Require Import Prelude Epoch Wire Checksum Ip Packets.

(** ** The option cursor *)

Lemma next_cases c : bytes_ok (TcpOptions.options_ c) -> 0 <= TcpOptions.at_ c <= zlen (TcpOptions.options_ c) ->
  let '(c', r) := TcpOptions.next c in
  match r with
  | Ok (Some _) => TcpOptions.options_ c' = TcpOptions.options_ c /\ TcpOptions.flags_ c' = TcpOptions.flags_ c /\
      TcpOptions.at_ c < TcpOptions.at_ c' <= zlen (TcpOptions.options_ c)
  | _ => True
  end.
Proof.
  destruct c as [options at_ flags]. cbn [TcpOptions.options_ TcpOptions.at_ TcpOptions.flags_]. intros Hb Ha. unfold TcpOptions.next.
  cbn [TcpOptions.options_ TcpOptions.at_ TcpOptions.flags_]. case_cond; [done |]. case_cond; [done |]. b2p.
  case_cond; [case_cond; [done |]; cbn; split_and!; done || lia |]. case_cond; [cbn; split_and!; done || lia |].
  case_cond; [done |]. case_cond; [done |]. case_cond; [done |]. b2p. cbn. split_and!; done || lia.
Qed.

Lemma options_loop_total n c : bytes_ok (TcpOptions.options_ c) -> 0 <= TcpOptions.at_ c <= zlen (TcpOptions.options_ c) ->
  zlen (TcpOptions.options_ c) - TcpOptions.at_ c < Z.of_nat n -> exists s, options_loop n c = Some s.
Proof.
  revert c. induction n as [| n IH]; intros c Hb Ha Hn; [lia |]. cbn [options_loop]. pose proof (next_cases c Hb Ha) as Hc.
  destruct (TcpOptions.next c) as [c' [[o |] | e]]; [| by eexists | by eexists]. destruct Hc as (Ho & _ & Hat).
  apply IH; rewrite Ho; done || lia.
Qed.

(** ** The loops of the IPv6 parser *)
Lemma ip_options_loop_total n header at_ : bytes_ok header -> 0 <= at_ <= zlen header -> zlen header - at_ < Z.of_nat n ->
  exists s, ip_options_loop n header at_ = Some s.
Proof.
  intros Hb. revert at_. induction n as [| n IH]; intros at_ Ha Hn; [lia |]. cbn [ip_options_loop].
  case_cond; [by eexists |]. b2p. case_cond; [apply IH; lia |]. case_cond; [by eexists |]. b2p.
  pose proof (bytes_ok_aget header (at_ + 1) Hb ltac:(lia)). unfold byte.
  case_cond; [by eexists |]. case_cond; [by eexists |]. b2p. apply IH; lia.
Qed.

Lemma extension_loop_total n payload next at_ first : bytes_ok payload -> 0 <= at_ <= zlen payload -> zlen payload - at_ < Z.of_nat n ->
  exists r, extension_loop n payload next at_ first = Some r.
Proof.
  intros Hb. revert next at_ first. induction n as [| n IH]; intros next at_ first Ha Hn; [lia |]. cbn [extension_loop].
  case_cond; [by eexists |]. case_cond; [case_cond; by eexists |]. case_cond; [by eexists |]. b2p.
  assert (0 <= byte payload (at_ + 1) < 256) by (apply bytes_ok_aget; [done | lia]). set (size := (byte payload (at_ + 1) + 1) * 8).
  case_cond; [by eexists |]. b2p. assert (8 <= size) by (subst size; lia).
  case_cond; [case_cond; [by eexists | apply IH; lia] |].
  set (h := subspan payload at_ size). assert (zlen h = size) as Hh by (subst h; unfold subspan; rewrite zlen_take, zlen_drop; lia).
  destruct (ip_options_loop_total (S (length h)) h 2) as [s Hs]; [by apply Forall_take, Forall_drop | lia | unfold zlen in *; lia |].
  unfold ip_options. rewrite Hs. cbn [mbind option_bind]. case_cond; [by eexists |]. apply IH; lia.
Qed.

(** ** The parsers *)
Lemma tcp_options_total o flags : bytes_ok o -> exists s, tcp_options o flags = Some s.
Proof. intros Hb. apply options_loop_total; [done | cbn; pose proof (zlen_nonneg o); lia | cbn; unfold zlen; lia]. Qed.

Lemma ipv6_total packet : bytes_ok packet -> exists r, ipv6 packet = Some r.
Proof.
  intros Hp. unfold ipv6. repeat (case_cond; [by eexists |]). set (payload := subspan packet 40 (be16 packet 4)).
  destruct (extension_loop_total (S (length payload)) payload (byte packet 6) 0 true) as [r Hr];
    [by apply Forall_take, Forall_drop | pose proof (zlen_nonneg payload); lia | unfold zlen; lia |].
  rewrite Hr. cbn [mbind option_bind]. destruct r as [[protocol at_] | e]; by eexists.
Qed.

Lemma family_tcp_total {Packet : Type} `{AddressFamily Packet} (ip : Packet) : bytes_ok (packet_payload ip) -> exists r, family_tcp ip = Some r.
Proof.
  intros Hp. unfold family_tcp. repeat (case_cond; [by eexists |]).
  destruct (tcp_options_total (subspan (packet_payload ip) 20 (Z.shiftr (byte (packet_payload ip) 12) 4 * 4 - 20)) (byte (packet_payload ip) 13)) as [s ->];
    [by apply Forall_take, Forall_drop |]. cbn [mbind option_bind]. case_cond; by eexists.
Qed.

(** C24: the parsers with unbounded loops end on every input: the TCP option
    cursor, the IPv6 option and extension-header loops, and with them the TCP
    and IPv6 parsers, always give a result within the fuel of their input's
    length. *)
Theorem packet_parsers_total (packet options : Bytes) (flags : Z) (ip4 : Ipv4Packet.t) (ip6 : Ipv6Packet.t) :
  bytes_ok packet -> bytes_ok options -> bytes_ok (Ipv4Packet.payload ip4) -> bytes_ok (Ipv6Packet.payload ip6) ->
  (exists s, tcp_options options flags = Some s) /\ (exists r, ipv6 packet = Some r) /\
  (exists r, tcp ip4 = Some r) /\ (exists r, family_tcp ip6 = Some r).
Proof.
  intros Hp Ho H4 H6. split_and!; [by apply tcp_options_total | by apply ipv6_total | exact (family_tcp_total ip4 H4) | exact (family_tcp_total ip6 H6)].
Qed.

(** ** Padding *)

Lemma existsb_zeros k : existsb (fun b => negb (b =? 0)) (replicate k 0) = false.
Proof. induction k as [| k IH]; [done |]. cbn. apply IH. Qed.

Lemma aget_prefix (a b : Bytes) i : 0 <= i < zlen a -> byte (a ++ b) i = byte a i.
Proof. apply aget_app_l. Qed.

(** A cursor that ends well on [o] ends well on [o] followed by zeros. *)
Lemma padded_loop o k flags : zlen o + Z.of_nat k <= 40 -> bytes_ok o -> forall n at_, 0 <= at_ <= zlen o ->
  options_loop n (TcpOptions.mk o at_ flags) = Some StatusCode.ok ->
  options_loop (S n) (TcpOptions.mk (o ++ replicate k 0) at_ flags) = Some StatusCode.ok.
Proof.
  intros Hk Hb. set (z := replicate k 0). assert (zlen (o ++ z) = zlen o + Z.of_nat k) as Hz by (unfold z; by rewrite zlen_app, zlen_replicate).
  assert (forall n, options_loop (S n) (TcpOptions.mk (o ++ z) (zlen (o ++ z)) flags) = Some StatusCode.ok) as Hend.
  { intros n. cbn [options_loop]. unfold TcpOptions.next. cbn [TcpOptions.options_ TcpOptions.at_]. cmp. done. }
  induction n as [| n IH]; intros at_ Ha; [done |]. cbn [options_loop]. intros Hn.
  change (match TcpOptions.next (TcpOptions.mk (o ++ z) at_ flags) with (c', r) =>
    match r with Ok None => Some StatusCode.ok | Ok (Some _) => options_loop (S n) c' | Err e => Some e end end = Some StatusCode.ok).
  revert Hn. unfold TcpOptions.next. cbn [TcpOptions.options_ TcpOptions.at_ TcpOptions.flags_]. rewrite Hz.
  pose proof (zlen_nonneg o). destruct (Z.ltb_spec 40 (zlen o)); [lia |]. rewrite (proj2 (Z.ltb_ge 40 _)) by lia.
  destruct (Z.eqb_spec at_ (zlen o)) as [-> | Hne].
  - intros _. destruct (Z.eqb_spec (zlen o) (zlen o + Z.of_nat k)); [done |].
    assert (byte (o ++ z) (zlen o) = 0) as -> by (unfold byte, z; rewrite aget_app_r, Z.sub_diag by lia; apply aget_replicate; lia).
    change (0 =? 0) with true. cbv iota.
    assert (rest (o ++ z) (zlen o + 1) = replicate (k - 1) 0) as ->.
    { unfold rest, z. replace (Z.to_nat (zlen o + 1)) with (length o + 1)%nat by (unfold zlen; lia). by rewrite drop_app_add, drop_replicate. }
    rewrite existsb_zeros. rewrite <- Hz. apply Hend.
  - rewrite (proj2 (Z.eqb_neq at_ (zlen o + Z.of_nat k))) by lia. rewrite !aget_prefix by lia.
    assert (rest (o ++ z) (at_ + 1) = rest o (at_ + 1) ++ z) as Er by (unfold rest; apply drop_app_le; unfold zlen in *; lia). rewrite Er.
    destruct (byte o at_ =? 0).
    { rewrite existsb_app. unfold z at 1. rewrite existsb_zeros, orb_false_r. destruct (existsb _ (rest o (at_ + 1))); [done |]. intros _.
      rewrite <- Hz. apply Hend. }
    destruct (byte o at_ =? 1); [apply IH; lia |]. destruct (Z.ltb_spec (zlen o - at_) 2); [done |].
    rewrite (proj2 (Z.ltb_ge (zlen o + Z.of_nat k - at_) 2)) by lia. rewrite aget_prefix by lia.
    destruct (Z.ltb_spec (byte o (at_ + 1)) 2); [done |]. destruct (Z.ltb_spec (zlen o - at_) (byte o (at_ + 1))); [done |].
    rewrite (proj2 (Z.ltb_ge (zlen o + Z.of_nat k - at_) _)) by lia. cbn [orb]. case_cond; [done |]. apply IH. lia.
Qed.

Lemma options_loop_more c n m e : options_loop n c = Some e -> (n <= m)%nat -> options_loop m c = Some e.
Proof.
  revert c m. induction n as [| n IH]; intros c m Hn Hm; [done |]. destruct m as [| m]; [lia |]. cbn [options_loop] in *.
  destruct (TcpOptions.next c) as [c' [[o |] | e']]; try done. apply IH; [done | lia].
Qed.

Lemma padded_options o k flags : zlen o + Z.of_nat k <= 40 -> bytes_ok o ->
  tcp_options o flags = Some StatusCode.ok -> tcp_options (o ++ replicate k 0) flags = Some StatusCode.ok.
Proof.
  intros Hk Hb Ho. destruct k as [| k]; [by rewrite app_nil_r |]. unfold tcp_options, TcpOptions.new in *.
  eapply options_loop_more; [apply padded_loop; [done | done | pose proof (zlen_nonneg o); lia | exact Ho] |].
  rewrite length_app, length_replicate. lia.
Qed.

(** ** A segment as a list *)
Definition fields_ok (f : TcpFields.t) : Prop :=
  port (TcpFields.source_port f) /\ port (TcpFields.destination_port f) /\ 0 <= TcpFields.sequence f < 2 ^ 32 /\
  0 <= TcpFields.acknowledgment f < 2 ^ 32 /\ 0 <= TcpFields.flags f < 256 /\ port (TcpFields.window f) /\ port (TcpFields.urgent_pointer f).

Definition word2 (v : Z) : Bytes := [hi v; lo v].
Definition word4 (v : Z) : Bytes := word2 (u16_wrap (Z.shiftr v 16)) ++ word2 (u16_wrap v).

(** The twenty bytes of a header of [header] bytes, with checksum [c]. *)
Definition tcp_head (f : TcpFields.t) (header c : Z) : Bytes :=
  word2 (TcpFields.source_port f) ++ word2 (TcpFields.destination_port f) ++ word4 (TcpFields.sequence f) ++
  word4 (TcpFields.acknowledgment f) ++ [u8_wrap (Z.shiftl (header / 4) 4); TcpFields.flags f] ++
  word2 (TcpFields.window f) ++ word2 c ++ word2 (TcpFields.urgent_pointer f).

Lemma zlen_head f header c : zlen (tcp_head f header c) = 20.
Proof. done. Qed.

Lemma word2_ok v : port v -> bytes_ok (word2 v).
Proof. intros Hv. destruct (bytes16 v Hv) as (_ & ? & ?). by repeat apply Forall_cons_2. Qed.
Lemma word4_ok v : bytes_ok (word4 v).
Proof. apply bytes_ok_app. split; apply word2_ok, Z.mod_pos_bound; lia. Qed.

Lemma head_ok f header c : fields_ok f -> port c -> bytes_ok (tcp_head f header c).
Proof.
  intros (? & ? & ? & ? & ? & ? & ?) Hc. unfold tcp_head. rewrite !bytes_ok_app.
  split_and!; try (by apply word2_ok); try apply word4_ok. repeat apply Forall_cons_2; try done. apply Z.mod_pos_bound; lia.
Qed.

Lemma head_words f header c t : port c -> words (tcp_head f header c ++ t) = words (tcp_head f header 0 ++ t) + c.
Proof.
  intros Hc. destruct (bytes16 c Hc) as (Hv & ? & ?). unfold tcp_head, word4, word2. cbn [app words].
  change (hi 0) with 0. change (lo 0) with 0. lia.
Qed.

Lemma be16_word p v q at_ : at_ = zlen p -> port v -> be16 (p ++ word2 v ++ q) at_ = v.
Proof.
  intros -> Hv. destruct (bytes16 v Hv) as (He & ? & ?). rewrite <- He at 2. pose proof (zlen_nonneg p).
  apply be16_at; try done; rewrite aget_app_r by lia; [by rewrite Z.sub_diag |]. by replace (zlen p + 1 - zlen p) with 1 by lia.
Qed.

Lemma be32_word p v q at_ : at_ = zlen p -> 0 <= v < 2 ^ 32 -> be32 (p ++ word4 v ++ q) at_ = v.
Proof.
  intros -> Hv. unfold be32, word4. rewrite <- app_assoc.
  assert (Z.shiftr v 16 = v / 65536) as Es by (by rewrite Z.shiftr_div_pow2). assert (port (v / 65536) /\ port (v mod 65536)) as [Hh Hl] by (unfold port; dlia).
  unfold u16_wrap. change (2 ^ 16) with 65536. rewrite Es. rewrite (Z.mod_small (v / 65536)) by done.
  rewrite (be16_word p) by done. rewrite app_assoc, (be16_word (p ++ word2 (v / 65536))) by (done || by rewrite zlen_app).
  unfold port in *. unfold u32_wrap. rewrite Z.mod_small by (rewrite Z.shiftl_mul_pow2 by lia; lia). rewrite lor_shift by lia. dlia.
Qed.

(** Reading the header back. *)
Lemma head_fields f header c t : fields_ok f -> tcp_fields (tcp_head f header c ++ t) = f.
Proof.
  destruct f as [sp dp sq ak fl wi up]. intros (Hsp & Hdp & Hsq & Hak & Hfl & Hwi & Hup).
  cbn in Hsp, Hdp, Hsq, Hak, Hfl, Hwi, Hup. unfold tcp_fields, tcp_head. rewrite <- !app_assoc.
  cbn [TcpFields.source_port TcpFields.destination_port TcpFields.sequence TcpFields.acknowledgment
    TcpFields.flags TcpFields.window TcpFields.urgent_pointer].
  set (hb := u8_wrap _). clearbody hb.
  f_equal.
  - by apply (be16_word []).
  - by apply (be16_word (word2 sp)).
  - rewrite (app_assoc (word2 sp)). by apply be32_word.
  - rewrite (app_assoc (word2 sp)), (app_assoc (_ ++ _)). by apply be32_word.
  - rewrite !app_assoc, <- (app_assoc _ _ t), <- (app_assoc _ (word2 c)), <- (app_assoc _ (word2 wi)). by apply be16_word.
  - rewrite !app_assoc, <- (app_assoc _ _ t). by apply be16_word.
Qed.

(** Writing it. *)
Lemma put32_behind h t at_ k v : at_ = zlen h + k -> 0 <= k -> put32 (h ++ t) at_ v = h ++ put32 t k v.
Proof. intros -> Hk. unfold put32. by rewrite (put16_behind h t _ k), (put16_behind h _ _ (k + 2)) by lia. Qed.

Lemma put_fields_behind h t header f : put_fields (h ++ t) (zlen h) header f = h ++ put_fields t 0 header f.
Proof.
  unfold put_fields.
  rewrite (put16_behind h t _ 0), (put16_behind h _ _ 2), (put32_behind h _ _ 4), (put32_behind h _ _ 8) by lia.
  rewrite !(aset_app_r h) by lia. by rewrite (put16_behind h _ _ 14), (put16_behind h _ _ 18) by lia.
Qed.

Lemma put_fields_zero t header f : put_fields (replicate 20 0 ++ t) 0 header f = tcp_head f header 0 ++ t.
Proof.
  destruct f as [sp dp sq ak fl wi up]. unfold put_fields, put32, tcp_head, word4, word2. rewrite !put16_copy.
  cbn [TcpFields.source_port TcpFields.destination_port TcpFields.sequence TcpFields.acknowledgment
    TcpFields.flags TcpFields.window TcpFields.urgent_pointer].
  change (hi 0) with 0. change (lo 0) with 0. generalize (u8_wrap (Z.shiftl (header / 4) 4)). intros hb.
  generalize (u16_wrap (Z.shiftr sq 16)) (u16_wrap sq) (u16_wrap (Z.shiftr ak 16)) (u16_wrap ak). intros s1 s0 a1 a0.
  generalize (hi sp) (lo sp) (hi dp) (lo dp) (hi s1) (lo s1) (hi s0) (lo s0) (hi a1) (lo a1) (hi a0) (lo a0) (hi wi) (lo wi) (hi up) (lo up).
  intros. reflexivity.
Qed.

Lemma head_checksum f header c t : put16 (tcp_head f header 0 ++ t) 16 c = tcp_head f header c ++ t.
Proof.
  rewrite put16_copy. unfold tcp_head, word4, word2. generalize (u8_wrap (Z.shiftl (header / 4) 4)) (hi c) (lo c). intros hb c1 c0.
  repeat match goal with |- context [hi ?v] => generalize (hi v); intros ? end.
  repeat match goal with |- context [lo ?v] => generalize (lo v); intros ? end. reflexivity.
Qed.

Lemma copy_tail h t x : zlen x <= zlen t -> copy_bytes (h ++ t) (zlen h) x = h ++ x ++ rest t (zlen x).
Proof. intros Hx. rewrite (copy_behind h t _ 0) by lia. by rewrite copy_bytes_eq by lia. Qed.

Section TcpRoundTrip.
Context {Packet : Type} `{FamilyLaws Packet} `{Arch}.

(** The header length: twenty bytes and the options, rounded up to words. *)
Lemma tcp_header_words n : 0 <= n <= 40 -> tcp_header n = 4 * (5 + (n + 3) / 4).
Proof.
  intros Hn. unfold tcp_header. change 3 with (2 ^ 2 - 1) at 2. rewrite land_not_mask; [change (2 ^ 2) with 4; dlia | | lia].
  assert (2 ^ 32 - 1 <= usize_max) by (unfold usize_max; destruct word_bits_cases as [-> | ->]; lia). lia.
Qed.

Lemma header_byte words : 5 <= words <= 15 -> Z.shiftr (u8_wrap (Z.shiftl (4 * words / 4) 4)) 4 * 4 = 4 * words.
Proof.
  intros Hw. rewrite Z.shiftr_div_pow2, Z.shiftl_mul_pow2 by lia. unfold u8_wrap. change (2 ^ 4) with 16. change (2 ^ 8) with 256. dlia.
Qed.

(** Options as the builder emits them: padded with zeros to a whole word. *)
Definition padded (o : Bytes) : Bytes := o ++ replicate (Z.to_nat (tcp_header (zlen o) - 20 - zlen o)) 0.
Definition tcp_segment (f : TcpFields.t) (o payload : Bytes) (c : Z) : Bytes :=
  tcp_head f (tcp_header (zlen o)) c ++ padded o ++ payload.

Lemma zlen_padded o : zlen o <= 40 -> zlen (padded o) = tcp_header (zlen o) - 20.
Proof.
  intros Ho. unfold padded. pose proof (zlen_nonneg o). rewrite zlen_app, zlen_replicate, tcp_header_words by lia. dlia.
Qed.

Lemma zlen_segment f o payload c : zlen o <= 40 -> zlen (tcp_segment f o payload c) = tcp_header (zlen o) + zlen payload.
Proof. intros Ho. unfold tcp_segment. rewrite !zlen_app, zlen_head, zlen_padded by done. lia. Qed.

Lemma tcp_accepts packet f o payload c : fields_ok f -> bytes_ok o -> zlen o <= 40 -> tcp_options o (TcpFields.flags f) = Some StatusCode.ok ->
  tcp_header (zlen o) + zlen payload <= max_packet Packet - header_size Packet ->
  packet_protocol packet = protocol_tcp -> packet_payload packet = tcp_segment f o payload c ->
  sum (tcp_segment f o payload c)
    (pseudo Packet (packet_source packet) (packet_destination packet) protocol_tcp (tcp_header (zlen o) + zlen payload)) = 65535 ->
  family_tcp packet = Some (Ok (Tcp.mk f (padded o) payload)).
Proof.
  intros Hf Hb Ho Hopt Hmax Hp Hpl Hsum. unfold family_tcp. rewrite Hp, Hpl. change (negb (protocol_tcp =? protocol_tcp)) with false.
  rewrite zlen_segment, Hsum by done. pose proof (zlen_nonneg o). pose proof (zlen_nonneg payload).
  pose proof (tcp_header_words (zlen o) ltac:(lia)) as Hw. assert (5 <= 5 + (zlen o + 3) / 4 <= 15) as Hw15 by dlia.
  assert (Z.shiftr (byte (tcp_segment f o payload c) 12) 4 * 4 = tcp_header (zlen o)) as ->.
  { change (byte (tcp_segment f o payload c) 12) with (u8_wrap (Z.shiftl (tcp_header (zlen o) / 4) 4)). rewrite Hw. by apply header_byte. }
  change (byte (tcp_segment f o payload c) 13) with (TcpFields.flags f). cmp. cbn [orb negb].
  unfold tcp_segment. rewrite subspan_app by (rewrite ?zlen_padded; done).
  assert (tcp_options (padded o) (TcpFields.flags f) = Some StatusCode.ok) as -> by (apply padded_options; try done; rewrite Hw; dlia). cbn [mbind option_bind]. change (negb (status_ok StatusCode.ok)) with false.
  rewrite head_fields, app_assoc, rest_app by (done || rewrite zlen_app, zlen_head, zlen_padded by done; lia). done.
Qed.

(** The bytes the builder writes, once its checks have passed. *)
Definition tcp_writes (o : Bytes) (ip : Z) (f : TcpFields.t) (options payload : Bytes) : Bytes :=
  let header := tcp_header (zlen options) in
  copy_bytes (copy_bytes (put_fields (zero_bytes o ip header) ip header f) (ip + 20) options) (ip + header) payload.

Lemma tcp_writes_eq h t f o payload : zlen o <= 40 -> tcp_header (zlen o) + zlen payload <= zlen t ->
  tcp_writes (h ++ t) (zlen h) f o payload = h ++ tcp_segment f o payload 0 ++ rest t (tcp_header (zlen o) + zlen payload).
Proof.
  intros Ho Ht. pose proof (zlen_nonneg o). pose proof (zlen_nonneg payload). pose proof (tcp_header_words (zlen o) ltac:(lia)) as Hw.
  assert (20 + zlen o <= tcp_header (zlen o)) as Hh by (rewrite Hw; dlia). unfold tcp_writes, tcp_segment, padded.
  set (header := tcp_header (zlen o)) in *. clearbody header.
  assert (zero_bytes (h ++ t) (zlen h) header = h ++ replicate 20 0 ++ replicate (length o) 0 ++ replicate (Z.to_nat (header - 20 - zlen o)) 0 ++ rest t header) as ->.
  { unfold zero_bytes. rewrite (copy_behind h t _ 0) by lia. change (copy_bytes t 0 (replicate (Z.to_nat header) 0)) with (zero_bytes t 0 header).
    rewrite zero_bytes_0 by lia. f_equal. rewrite !app_assoc, <- !replicate_add. do 2 f_equal. unfold zlen in *. lia. }
  rewrite put_fields_behind, put_fields_zero. rewrite app_assoc.
  rewrite copy_over by (rewrite ?zlen_app, ?zlen_head, ?zlen_replicate; done || unfold zlen; lia).
  rewrite (app_assoc _ o), (app_assoc _ (replicate _ 0)).
  set (a := ((h ++ tcp_head f header 0) ++ o) ++ replicate (Z.to_nat (header - 20 - zlen o)) 0).
  assert (zlen a = zlen h + header) as Ha by (subst a; rewrite !zlen_app, zlen_head, zlen_replicate; lia).
  rewrite <- Ha, copy_tail by (unfold rest; rewrite zlen_drop; lia). subst a. unfold rest. rewrite drop_drop.
  rewrite <- !app_assoc. do 6 f_equal. lia.
Qed.

Lemma tcp_built o source destination identification ttl f options payload padding :
  address_ok source -> source_ok source -> address_ok destination -> port identification -> 0 <= ttl < 256 ->
  fields_ok f -> bytes_ok options -> bytes_ok payload -> zlen options <= 40 -> tcp_options options (TcpFields.flags f) = Some StatusCode.ok ->
  let ip := header_size Packet in
  let transport := tcp_header (zlen options) + zlen payload in
  transport <= max_packet Packet - ip -> ip + transport <= zlen o ->
  let w := tcp_writes (family_header Packet o source destination protocol_tcp transport ttl identification) ip f options payload in
  let o' := put16 w (ip + 16) (closing (subspan w ip transport) (pseudo Packet source destination protocol_tcp transport)) in
  rest o' (ip + transport) = rest o (ip + transport) /\
  exists packet, parse Packet (first o' (ip + transport) ++ padding) = Some (Ok packet) /\
    packet_source packet = source /\ packet_destination packet = destination /\
    family_tcp packet = Some (Ok (Tcp.mk f (padded options) payload)).
Proof.
  intros Hs Hso Hd Hid Httl Hf Hbo Hbp Ho Hopt ip transport Hmax Hlo w o'. destruct law_sizes as [Hh Hsz].
  pose proof (zlen_nonneg options). pose proof (zlen_nonneg payload). assert (tcp_header (zlen options) <= 60) as H60 by (rewrite tcp_header_words by lia; dlia).
  assert (20 <= tcp_header (zlen options)) by (rewrite tcp_header_words by lia; dlia).
  destruct (law_header o source destination protocol_tcp transport ttl identification) as (h & Hlen & Hbh & Eh & Hparse); try done; try (subst ip transport; lia).
  set (initial := pseudo Packet source destination protocol_tcp transport) in *.
  assert (0 <= initial < 2 ^ 32) as Hi by (apply law_pseudo; done || subst ip transport; lia).
  set (d := tcp_segment f options payload).
  assert (forall c, port c -> bytes_ok (d c)) as Hbd.
  { intros c Hc. unfold d, tcp_segment, padded. rewrite !bytes_ok_app. split_and!; try done; [by apply head_ok |]. apply Forall_replicate. lia. }
  assert (zlen (d 0) = transport) as Hzd by (by apply zlen_segment).
  assert (w = h ++ d 0 ++ rest o (ip + transport)) as Ew.
  { subst w. rewrite Eh. fold ip. replace ip with (zlen h) at 2 by done. rewrite tcp_writes_eq; [| done |].
    - do 2 f_equal. unfold rest. rewrite drop_drop. f_equal. subst ip transport. lia.
    - unfold rest. rewrite zlen_drop. subst ip transport. lia. }
  set (c := closing (d 0) initial). assert (port c) as Hc by (by apply closing_range; [apply Hbd |]).
  assert (o' = h ++ d c ++ rest o (ip + transport)) as Eo.
  { subst o'. rewrite Ew, subspan_app by done. fold c. rewrite (put16_behind h _ _ 16) by (subst ip; lia).
    unfold d, tcp_segment. rewrite <- !app_assoc. by rewrite head_checksum. }
  assert (zlen (h ++ d c) = ip + transport) as Hz by (unfold d; rewrite zlen_app, zlen_segment by done; subst ip transport; lia).
  rewrite Eo, app_assoc, rest_app, first_app by done. split; [done |]. rewrite <- app_assoc.
  destruct (Hparse (d c) padding) as (packet & Hpk & Hps & Hpd & Hpp & Hpl); [by apply zlen_segment | by apply Hbd |].
  exists packet. split_and!; try done. apply (tcp_accepts packet f options payload c); try done.
  rewrite Hps, Hpd. apply (checksum_closes (d 0) (d c) initial c); [by apply Hbd | by apply Hbd | exact Hi | | left; reflexivity].
  unfold d, tcp_segment. by apply head_words.
Qed.

(** What the builder asks of its arguments. *)
Definition tcp_fits (output : Span.t) (ttl : Z) (f : TcpFields.t) (options payload : Span.t) : Prop :=
  let length := header_size Packet + tcp_header (Span.size options) + Span.size payload in
  ttl <> 0 /\ tcp_options (Span.bytes options) (TcpFields.flags f) = Some StatusCode.ok /\
  length <= max_packet Packet /\ length <= zlen (Span.bytes output) /\
  overlaps options (Span.data output) length = false /\ overlaps payload (Span.data output) length = false.

Lemma valid_options_short o flags : tcp_options o flags = Some StatusCode.ok -> zlen o <= 40.
Proof.
  unfold tcp_options, TcpOptions.new. cbn [options_loop]. unfold TcpOptions.next at 1. cbn [TcpOptions.options_].
  destruct (Z.ltb_spec 40 (zlen o)); [done | lia].
Qed.

(** The builder by its answer. *)
Lemma family_build_tcp_spec output source destination identification ttl f options payload :
  address_ok source -> source_ok source -> address_ok destination -> port identification -> 0 <= ttl < 256 ->
  fields_ok f -> bytes_ok (Span.bytes options) -> bytes_ok (Span.bytes payload) ->
  exists o r, family_build_tcp (Packet := Packet) output source destination identification ttl f options payload = Some (o, r) /\
  let length := header_size Packet + tcp_header (Span.size options) + Span.size payload in
  match r with
  | Ok n => tcp_fits output ttl f options payload /\ n = length /\ forall padding, rest o length = rest (Span.bytes output) length /\
      exists packet, parse Packet (first o length ++ padding) = Some (Ok packet) /\ packet_source packet = source /\ packet_destination packet = destination /\
        family_tcp packet = Some (Ok (Tcp.mk f (padded (Span.bytes options)) (Span.bytes payload)))
  | Err e => ~ tcp_fits output ttl f options payload /\ o = Span.bytes output /\ e <> StatusCode.ok
  end.
Proof.
  intros Hs Hso Hd Hid Httl Hf Hbo Hbp. unfold family_build_tcp, tcp_fits.
  destruct (tcp_options_total (Span.bytes options) (TcpFields.flags f) Hbo) as [status Hopt].
  rewrite Hopt. cbn [mbind option_bind].
  destruct (Z.eqb_spec ttl 0); [do 2 eexists; split; [done |]; cbn; split_and!; [tauto | done | done] |].
  destruct (decide (status = StatusCode.ok)) as [-> | Hst].
  2: { rewrite (proj2 (negb_true_iff (status_ok status))) by (by destruct status).
    do 2 eexists. split; [done |]. cbn. split_and!; [intros (_ & ? & _); congruence | done | done]. }
  change (negb (status_ok StatusCode.ok)) with false. cbv iota. unfold Span.size in *.
  case_cond; b2p; [do 2 eexists; split; [done |]; cbn; split_and!; [lia | done | done] |].
  case_cond; b2p; [do 2 eexists; split; [done |]; cbn; split_and!; [lia | done | done] |].
  case_cond; [do 2 eexists; split; [done |]; cbn; split_and!; [| done | done] |].
  { intros (_ & _ & _ & _ & Hov & Hp). match goal with He : _ || _ = true |- _ => by rewrite Hov, Hp in He end. }
  match goal with He : _ || _ = false |- _ => apply orb_false_iff in He end.
  pose proof (valid_options_short _ _ Hopt) as Ho. set (ip := header_size Packet). set (transport := tcp_header (zlen (Span.bytes options)) + zlen (Span.bytes payload)).
  do 2 eexists. split; [done |]. cbv zeta iota beta. split; [subst ip transport; split_and!; tauto || lia |].
  split; [done |]. intros padding. rewrite <- !Z.add_assoc. fold transport. replace (ip + transport - ip) with transport by lia.
  apply tcp_built; try done; subst ip transport; lia.
Qed.

(** C10: TCP for every address family, from any source that can send (for IPv6
    one that is not multicast).  When the time to live is not 0, the options are
    valid, the segment fits and neither input overlaps the emitted bytes, the builder emits a
    packet that its parsers read back as the same addresses, header fields,
    options padded with zeros to a whole word, and payload, even with padding
    after it, and leaves the rest of the output alone; otherwise it reports why
    and leaves the whole output unchanged. *)
Theorem tcp_roundtrip output source destination identification ttl f options payload padding :
  address_ok source -> source_ok source -> address_ok destination -> port identification -> 0 <= ttl < 256 ->
  fields_ok f -> bytes_ok (Span.bytes options) -> bytes_ok (Span.bytes payload) ->
  exists o r, family_build_tcp (Packet := Packet) output source destination identification ttl f options payload = Some (o, r) /\
  let length := header_size Packet + tcp_header (Span.size options) + Span.size payload in
  (tcp_fits output ttl f options payload -> r = Ok length /\ rest o length = rest (Span.bytes output) length /\
     exists packet, parse Packet (first o length ++ padding) = Some (Ok packet) /\
       packet_source packet = source /\ packet_destination packet = destination /\
       family_tcp packet = Some (Ok (Tcp.mk f (padded (Span.bytes options)) (Span.bytes payload)))) /\
  (~ tcp_fits output ttl f options payload -> o = Span.bytes output /\ exists e, r = Err e /\ e <> StatusCode.ok).
Proof.
  intros Hs Hso Hd Hid Httl Hf Hbo Hbp.
  destruct (family_build_tcp_spec output source destination identification ttl f options payload Hs Hso Hd Hid Httl Hf Hbo Hbp) as (o & r & -> & Hr).
  exists o, r. split; [done |]. cbv zeta in *. destruct r as [n | e].
  - destruct Hr as (Hfit & -> & Hp). split; [intros _; split; [done | apply Hp] | done].
  - destruct Hr as (Hfit & -> & He). split; [done | by eauto].
Qed.
End TcpRoundTrip.

Definition syn_fields : TcpFields.t := TcpFields.mk 40000 80 0x01020304 0 2 65535 0.
(** A window scale of 7: three bytes, which the builder pads with one zero. *)
Definition syn_options : Span.t := Span.mk 0x3000 [3; 3; 7].

Lemma tcp_witness : exists o r,
  family_build_tcp (Packet := Ipv4Packet.t) (H0 := arch64) buffer loopback loopback 7 64 syn_fields syn_options text = Some (o, r) /\ r = Ok 49 /\
  exists packet, parse Ipv4Packet.t (first o 49 ++ [0]) = Some (Ok packet) /\
    family_tcp packet = Some (Ok (Tcp.mk syn_fields [3; 3; 7; 0] [104; 101; 108; 108; 111])).
Proof.
  assert (address_ok (Packet := Ipv4Packet.t) loopback) as Ha by (split; [done | by repeat apply Forall_cons_2]).
  assert (bytes_ok (Span.bytes text)) as Hb by (by repeat apply Forall_cons_2).
  assert (bytes_ok (Span.bytes syn_options)) as Ho by (by repeat apply Forall_cons_2).
  destruct (tcp_roundtrip (H1 := arch64) buffer loopback loopback 7 64 syn_fields syn_options text [0] Ha I Ha ltac:(done) ltac:(done) ltac:(by vm_compute) Ho Hb)
    as (o & r & Hbuilt & Hok & _).
  exists o, r. split; [exact Hbuilt |]. destruct Hok as (Hr & _ & packet & Hp & _ & _ & Ht); [by vm_compute |].
  split; [exact Hr |]. exists packet. split; [exact Hp | exact Ht].
Defined.

Lemma totality_witness : (exists s, tcp_options [2; 4; 5] 2 = Some s) /\ (exists r, ipv6 [0x60; 0] = Some r).
Proof.
  destruct (packet_parsers_total [0x60; 0] [2; 4; 5] 2 (Ipv4Packet.mk [] [] 0 0 6 0 false [1; 2])
    (Ipv6Packet.mk [] [] 0 0 6 0 [])) as (Ho & Hp & _); [unfold bytes_ok; cbn; by repeat apply Forall_cons_2 .. |]. by split.
Defined.

(** ** The IPv4 codecs *)

(** Zeroing [n] bytes before writing a header is zeroing the rest after it. *)
Lemma zero_twice o n m : 0 <= m <= n -> n <= zlen o -> zero_bytes (zero_bytes o 0 n) 0 m = zero_bytes o 0 n.
Proof.
  intros Hm Hn. rewrite (zero_bytes_0 o n) by lia. rewrite zero_bytes_0 by (rewrite zlen_app, zlen_replicate; unfold rest; rewrite zlen_drop; lia).
  unfold rest. rewrite drop_app_le by (rewrite length_replicate; lia). rewrite drop_replicate, app_assoc, <- replicate_add. do 2 f_equal. lia.
Qed.

Lemma rest_zeroed o n at_ : 0 <= at_ <= n -> n <= zlen o -> rest (zero_bytes o 0 n) at_ = replicate (Z.to_nat (n - at_)) 0 ++ rest o n.
Proof.
  intros Ha Hn. rewrite zero_bytes_0 by lia. unfold rest at 1. rewrite drop_app_le by (rewrite length_replicate; lia).
  rewrite drop_replicate. do 2 f_equal. lia.
Qed.

(** The header the IPv4 builders write in place, over [n] zeroed bytes. *)
Lemma header_in_place o n source destination protocol length total ttl identification :
  20 <= n <= zlen o -> zlen source = 4 -> zlen destination = 4 -> total = 20 + length ->
  let z := (zero_bytes o 0 n).[0 := 0x45].[8 := ttl].[9 := protocol] in
  let z := put16 (put16 (put16 z 2 (u16_wrap total)) 4 identification) 6 0x4000 in
  let z := copy_bytes (copy_bytes z 12 source) 16 destination in
  exists h, zlen h = 20 /\ put16 z 10 (checksum (first z 20)) = h ++ replicate (Z.to_nat (n - 20)) 0 ++ rest o n /\
    ipv4_header o source destination protocol length ttl identification = h ++ rest o 20.
Proof.
  intros Hn Hs Hd -> z0 z1 z. assert (put16 z 10 (checksum (first z 20)) = ipv4_header (zero_bytes o 0 n) source destination protocol length ttl identification) as ->.
  { unfold ipv4_header. by rewrite zero_twice by lia. }
  pose proof (ipv4_header_eq o source destination protocol length ttl identification ltac:(lia) Hs Hd) as Ho.
  pose proof (ipv4_header_eq (zero_bytes o 0 n) source destination protocol length ttl identification
    ltac:(unfold zero_bytes; rewrite zlen_copy_bytes; lia) Hs Hd) as Hz.
  eexists. split; [| split; [by rewrite Hz, rest_zeroed by lia | exact Ho]]. unfold ipv4_bytes. rewrite !zlen_app, Hs, Hd. done.
Qed.

Lemma udp_words_over_zeros t a b c : put16 (put16 (put16 (replicate 8 0 ++ t) 0 a) 2 b) 4 c =
  put16 (put16 (put16 (put16 (replicate 8 0 ++ t) 0 a) 2 b) 4 c) 6 0.
Proof. rewrite !put16_copy. change (hi 0) with 0. change (lo 0) with 0. generalize (hi a) (lo a) (hi b) (lo b) (hi c) (lo c). intros. reflexivity. Qed.

Lemma udp_in_place h o source_port destination_port length payload : zlen h = 20 -> 28 + zlen payload <= zlen o ->
  copy_bytes (put16 (put16 (put16 (h ++ replicate 8 0 ++ rest o 28) 20 source_port) 22 destination_port) 24 length) 28 payload =
  copy_bytes (put16 (put16 (put16 (put16 (h ++ rest o 20) 20 source_port) 22 destination_port) 24 length) 26 0) 28 payload.
Proof.
  intros Hh Hl. pose proof (zlen_nonneg payload).
  do 2 rewrite (put16_behind h _ 20 0), (put16_behind h _ 22 2), (put16_behind h _ 24 4) by lia.
  rewrite (put16_behind h _ 26 6) by lia. rewrite !(copy_behind h _ 28 8) by lia. f_equal. rewrite udp_words_over_zeros.
  rewrite !udp_writes by (rewrite ?zlen_app; unfold rest; rewrite ?zlen_drop, ?zlen_replicate; lia). f_equal.
  unfold rest. rewrite drop_drop. rewrite drop_app_ge, drop_drop by (rewrite length_replicate; lia). rewrite length_replicate. f_equal. lia.
Qed.

Lemma build_udp_generic output source destination source_port destination_port identification ttl payload :
  zlen source = 4 -> zlen destination = 4 ->
  build_udp output source destination source_port destination_port identification ttl payload =
    family_build_udp (Packet := Ipv4Packet.t) output source destination source_port destination_port identification ttl payload.
Proof.
  intros Hs Hd. unfold build_udp, family_build_udp. pose proof (zlen_nonneg (Span.bytes payload)) as Hp. unfold Span.size in *.
  change (header_size Ipv4Packet.t) with 20. change (max_packet Ipv4Packet.t) with 65535. change (20 + 8) with 28.
  set (n := zlen (Span.bytes payload)) in *. set (o := Span.bytes output). case_cond; [done |].
  replace (65535 - 20 - 8 <? n) with (65507 <? n) by done. 
  replace ((65507 <? n) || (65535 - 8 <? n)) with (65507 <? n) by (destruct (Z.ltb_spec 65507 n), (Z.ltb_spec (65535 - 8) n); done || lia).
  case_cond; [done |]. b2p. change (overlaps payload (Span.data output) (28 + n)) with
    (if (n =? 0) || (28 + n =? 0) then false else aliases payload (Span.data output) (28 + n)).
  rewrite (proj2 (Z.eqb_neq (28 + n) 0)) by lia. rewrite orb_false_r.
  replace (if n =? 0 then false else aliases payload (Span.data output) (28 + n)) with (negb (n =? 0) && aliases payload (Span.data output) (28 + n)) by (by destruct (n =? 0)).
  case_cond; [done |]. cbv zeta.
  destruct (header_in_place o 28 source destination 17 (28 + n - 20) (28 + n) ttl identification ltac:(lia) Hs Hd ltac:(lia)) as (h & Hh & -> & Eh).
  change (family_header Ipv4Packet.t) with ipv4_header. change protocol_udp with 17. rewrite Eh.
  change (20 + 2) with 22. change (20 + 4) with 24. change (20 + 6) with 26. change (Z.to_nat (28 - 20)) with 8%nat.
  rewrite (udp_in_place h o) by done. reflexivity.
Qed.

Lemma build_tcp_generic `{Arch} output source destination identification ttl f options payload :
  zlen source = 4 -> zlen destination = 4 ->
  build_tcp output source destination identification ttl f options payload =
    family_build_tcp (Packet := Ipv4Packet.t) output source destination identification ttl f options payload.
Proof.
  intros Hs Hd. unfold build_tcp, family_build_tcp. pose proof (zlen_nonneg (Span.bytes payload)) as Hp. unfold Span.size in *.
  change (header_size Ipv4Packet.t) with 20. change (max_packet Ipv4Packet.t) with 65535. case_cond; [done |].
  destruct (tcp_options (Span.bytes options) (TcpFields.flags f)) as [status |] eqn:Hopt; cbn [mbind option_bind]; [| reflexivity].
  case_cond; [done |]. assert (zlen (Span.bytes options) <= 40) as Ho by (apply (valid_options_short _ (TcpFields.flags f)); by destruct status).
  pose proof (zlen_nonneg (Span.bytes options)). change (65535 - 20) with 65515.
  assert (20 <= tcp_header (zlen (Span.bytes options))) as Hh by (rewrite tcp_header_words by lia; dlia).
  set (header := tcp_header (zlen (Span.bytes options))) in *. clearbody header. set (n := zlen (Span.bytes payload)) in *. set (o := Span.bytes output).
  do 3 (case_cond; [done |]). b2p. cbv zeta.
  destruct (header_in_place o (20 + header) source destination 6 (20 + header + n - 20) (20 + header + n) ttl identification ltac:(lia) Hs Hd ltac:(lia))
    as (h & Hlh & -> & Eh).
  change (family_header Ipv4Packet.t) with ipv4_header. change protocol_tcp with 6. rewrite Eh.
  replace (zero_bytes (h ++ rest o 20) 20 header) with (h ++ replicate (Z.to_nat (20 + header - 20)) 0 ++ rest o (20 + header)); [reflexivity |].
  unfold zero_bytes. rewrite (copy_behind h _ _ 0) by lia. f_equal. change (copy_bytes (rest o 20) 0 (replicate (Z.to_nat header) 0)) with (zero_bytes (rest o 20) 0 header).
  rewrite zero_bytes_0 by (unfold rest; rewrite zlen_drop; lia). unfold rest. rewrite drop_drop. do 2 f_equal; [f_equal |]; lia.
Qed.

(** C23: the IPv4 codecs and the generic ones at IPv4 are the same functions:
    the parsers accept the same packets with the same results, and the builders
    report the same results and emit the same bytes. *)
Theorem ipv4_codecs_agree `{Arch} (ip : Ipv4Packet.t) output source destination source_port destination_port identification ttl f options payload :
  zlen source = 4 -> zlen destination = 4 -> 
  udp ip = family_udp ip /\ tcp ip = family_tcp ip /\
  build_udp output source destination source_port destination_port identification ttl payload =
    family_build_udp (Packet := Ipv4Packet.t) output source destination source_port destination_port identification ttl payload /\
  build_tcp output source destination identification ttl f options payload =
    family_build_tcp (Packet := Ipv4Packet.t) output source destination identification ttl f options payload.
Proof.
  intros Hs Hd. split_and!.
  - unfold family_udp. change (version Ipv4Packet.t =? 6) with false. by rewrite andb_false_r.
  - done.
  - by apply build_udp_generic.
  - by apply build_tcp_generic.
Qed.

Lemma ipv4_codecs_witness :
  build_udp buffer loopback loopback 53 5353 7 64 text = family_build_udp (Packet := Ipv4Packet.t) buffer loopback loopback 53 5353 7 64 text.
Proof.
  exact (proj1 (proj2 (proj2 (ipv4_codecs_agree (H := arch64) (Ipv4Packet.mk [] [] 0 0 17 0 false [])
    buffer loopback loopback 53 5353 7 64 syn_fields syn_options text eq_refl eq_refl)))).
Defined.
