(* ===== verification/LinkPackets.v ===== *)
(** * Link packets, and the types of parsed packets

    The round trip of the Ethernet and ARP codecs, and the ranges of the fields
    every parser returns. *)

From S2P Require Import Prelude Epoch Wire Checksum Ip Packets TcpPackets.

(** ** Fields of a buffer *)
Definition address (n : Z) (a : Bytes) : Prop := zlen a = n /\ bytes_ok a.

Lemma byte_range b at_ : bytes_ok b -> 0 <= at_ < zlen b -> 0 <= byte b at_ < 256.
Proof. apply bytes_ok_aget. Qed.

Lemma be16_port b at_ : port (be16 b at_).
Proof. apply Z.mod_pos_bound. lia. Qed.

Lemma be32_range b at_ : 0 <= be32 b at_ < 2 ^ 32.
Proof.
  unfold be32. pose proof (be16_port b at_) as Hh. pose proof (be16_port b (at_ + 2)) as Hl. unfold port, u32_wrap in *.
  rewrite Z.mod_small by (rewrite Z.shiftl_mul_pow2 by lia; lia). rewrite lor_shift by lia. lia.
Qed.

Lemma array_address b at_ n : bytes_ok b -> 0 <= at_ -> 0 <= n -> at_ + n <= zlen b -> address n (array_at b at_ n).
Proof.
  intros Hb Ha Hn Hl. rewrite array_at_subspan by done. split; [unfold subspan; rewrite zlen_take, zlen_drop; lia | by apply Forall_take, Forall_drop].
Qed.

Lemma subspan_ok b at_ n : bytes_ok b -> bytes_ok (subspan b at_ n).
Proof. intros Hb. by apply Forall_take, Forall_drop. Qed.
Lemma rest_ok b at_ : bytes_ok b -> bytes_ok (rest b at_).
Proof. intros Hb. by apply Forall_drop. Qed.

Lemma zlen_subspan b at_ n : 0 <= at_ -> 0 <= n -> at_ + n <= zlen b -> zlen (subspan b at_ n) = n.
Proof. intros. unfold subspan. rewrite zlen_take, zlen_drop. lia. Qed.
Lemma zlen_rest b at_ : 0 <= at_ <= zlen b -> zlen (rest b at_) = zlen b - at_.
Proof. intros. unfold rest. rewrite zlen_drop. lia. Qed.

(** ** The types of the parsed packets *)
Definition typed_ethernet (v : Ethernet.t) : Prop :=
  address 6 (Ethernet.destination v) /\ address 6 (Ethernet.source v) /\ 0x600 <= Ethernet.type_ v < 65536 /\ bytes_ok (Ethernet.payload v).
Definition typed_arp (v : Arp.t) : Prop :=
  (Arp.operation v = 1 \/ Arp.operation v = 2) /\ address 6 (Arp.sender_mac v) /\ address 6 (Arp.target_mac v) /\
  address 4 (Arp.sender_ip v) /\ address 4 (Arp.target_ip v).
Definition typed_ipv4 (v : Ipv4Packet.t) : Prop :=
  address 4 (Ipv4Packet.source v) /\ address 4 (Ipv4Packet.destination v) /\ 0 <= Ipv4Packet.traffic_class v < 256 /\
  0 <= Ipv4Packet.ttl v < 256 /\ 0 <= Ipv4Packet.protocol v < 256 /\ port (Ipv4Packet.identification v) /\
  zlen (Ipv4Packet.payload v) <= 65515 /\ bytes_ok (Ipv4Packet.payload v).
Definition typed_ipv6 (v : Ipv6Packet.t) : Prop :=
  address 16 (Ipv6Packet.source v) /\ multicast6 (Ipv6Packet.source v) = false /\ address 16 (Ipv6Packet.destination v) /\
  0 <= Ipv6Packet.traffic_class v < 256 /\ 0 <= Ipv6Packet.hop_limit v < 256 /\ 0 <= Ipv6Packet.protocol v < 256 /\
  0 <= Ipv6Packet.flow_label v < 2 ^ 20 /\ zlen (Ipv6Packet.payload v) <= 65535 /\ bytes_ok (Ipv6Packet.payload v).
Definition typed_udp (v : Udp.t) : Prop :=
  port (Udp.source_port v) /\ port (Udp.destination_port v) /\ Udp.destination_port v <> 0 /\ zlen (Udp.payload v) <= 65527 /\ bytes_ok (Udp.payload v).
Definition typed_tcp (v : Tcp.t) : Prop :=
  fields_ok (Tcp.fields v) /\ zlen (Tcp.options v) <= 40 /\ zlen (Tcp.options v) mod 4 = 0 /\
  tcp_options (Tcp.options v) (TcpFields.flags (Tcp.fields v)) = Some StatusCode.ok /\ bytes_ok (Tcp.options v) /\ bytes_ok (Tcp.payload v).

Ltac refused := let Hx := fresh in intros Hx; discriminate Hx.

Lemma ethernet_typed b v : bytes_ok b -> ethernet b = Ok v -> typed_ethernet v.
Proof.
  intros Hb. unfold ethernet. case_cond; [refused |]. case_cond; [refused |]. case_cond; [refused |]. b2p. intros [= <-].
  pose proof (be16_port b 12) as Hp. unfold port in Hp. split_and!; cbn; try (apply array_address; done || lia); try lia. by apply rest_ok.
Qed.

Lemma arp_typed b v : bytes_ok b -> arp b = Ok v -> typed_arp v.
Proof.
  intros Hb. unfold arp. case_cond; [refused |]. case_cond; [refused |].
  destruct (Z.eqb_spec (be16 b 6) 1) as [H1 |]; [| destruct (Z.eqb_spec (be16 b 6) 2) as [H2 |]; [| refused]]; cbn [negb andb]; b2p; intros [= <-];
    (split_and!; cbn; [auto | apply array_address; done || lia ..]).
Qed.

Lemma ipv4_typed b v : bytes_ok b -> ipv4 b = Ok v -> typed_ipv4 v.
Proof.
  intros Hb. unfold ipv4. do 8 (case_cond; [refused |]). b2p. intros [= <-]. pose proof (be16_port b 2) as Hp. unfold port in Hp.
  split_and!; cbn; try (apply array_address; done || lia); try (apply byte_range; done || lia); try apply be16_port; [| by apply subspan_ok].
  rewrite zlen_subspan; lia.
Qed.

Lemma extension_loop_bounds n payload next at_ first protocol at' : bytes_ok payload -> 0 <= next < 256 -> 0 <= at_ <= zlen payload ->
  extension_loop n payload next at_ first = Some (Ok (protocol, at')) -> 0 <= protocol < 256 /\ at_ <= at' <= zlen payload.
Proof.
  intros Hb. revert next at_ first. induction n as [| n IH]; intros next at_ first Hn Ha; [done |]. cbn [extension_loop].
  case_cond; [done |]. case_cond; [case_cond; [done |]; intros [= <- <-]; lia |]. case_cond; [done |]. b2p.
  assert (0 <= byte payload (at_ + 1) < 256) by (apply byte_range; done || lia). set (size := (byte payload (at_ + 1) + 1) * 8).
  case_cond; [done |]. b2p. assert (8 <= size) by (subst size; lia). set (h := subspan payload at_ size).
  assert (zlen h = size) as Hh by (apply zlen_subspan; lia).
  assert (0 <= byte h 0 < 256) as Hh0 by (apply byte_range; [by apply subspan_ok | lia]).
  case_cond; [case_cond; [done |]; intros He; apply IH in He; lia |]. destruct (ip_options h) as [s |]; cbn [mbind option_bind]; [| done].
  case_cond; [done |]. intros He. apply IH in He; lia.
Qed.

Lemma ipv6_typed b v : bytes_ok b -> ipv6 b = Some (Ok v) -> typed_ipv6 v.
Proof.
  intros Hb. unfold ipv6. do 2 (case_cond; [refused |]). case_cond; [refused |]. destruct (multicast6 _) eqn:Hm; [refused |]. b2p.
  pose proof (be16_port b 4) as Hp. unfold port in Hp. set (payload := subspan b 40 (be16 b 4)).
  assert (zlen payload = be16 b 4) as Hl by (apply zlen_subspan; lia). assert (bytes_ok payload) as Hbp by (by apply subspan_ok).
  destruct (extension_loop _ payload _ 0 true) as [[[protocol at_] | e] |] eqn:He; cbn [mbind option_bind]; [| refused | refused]. intros [= <-].
  apply extension_loop_bounds in He as [Hpr Hat]; [| done | apply byte_range; done || lia | lia].
  pose proof (byte_range b 1 Hb ltac:(lia)) as H1. pose proof (be16_port b 2) as H2. unfold port in H2.
  split_and!; cbn; try (apply array_address; done || lia); try (apply byte_range; done || lia); try done; try (apply Z.mod_pos_bound; lia); try lia.
  - apply Z.lor_nonneg. split; [apply Z.shiftl_nonneg, Z.land_nonneg; lia | lia].
  - change 15 with (Z.ones 4). rewrite Z.land_ones, lor_shift by lia. change (2 ^ 4) with 16. dlia.
  - rewrite zlen_rest; lia.
  - by apply rest_ok.
Qed.

Section Transport.
Context {Packet : Type} `{AddressFamily Packet}.

Lemma family_udp_typed ip v : bytes_ok (packet_payload ip) -> family_udp ip = Ok v -> typed_udp v.
Proof.
  intros Hb. unfold family_udp. do 6 (case_cond; [refused |]). b2p. intros [= <-]. pose proof (be16_port (packet_payload ip) 4) as Hp. unfold port in Hp.
  split_and!; cbn; try apply be16_port; try done.
  - rewrite zlen_rest; unfold first; rewrite zlen_take; lia.
  - apply rest_ok. by apply Forall_take.
Qed.

Lemma segment_fields b : bytes_ok b -> 20 <= zlen b -> fields_ok (tcp_fields b).
Proof.
  intros Hb Hl. unfold fields_ok, tcp_fields. cbn [TcpFields.source_port TcpFields.destination_port TcpFields.sequence TcpFields.acknowledgment
    TcpFields.flags TcpFields.window TcpFields.urgent_pointer]. split_and!; try apply be16_port; try apply be32_range; apply byte_range; done || lia.
Qed.

Lemma family_tcp_typed ip v : bytes_ok (packet_payload ip) -> family_tcp ip = Some (Ok v) -> typed_tcp v.
Proof.
  intros Hb. unfold family_tcp. do 4 (case_cond; [refused |]). b2p. set (segment := packet_payload ip) in *.
  set (options := subspan _ 20 _). destruct (tcp_options options _) as [s |] eqn:Ho; cbn [mbind option_bind]; [| refused].
  destruct s; try refused. intros [= <-]. pose proof (valid_options_short _ _ Ho) as H40.
  assert (zlen options = Z.shiftr (byte segment 12) 4 * 4 - 20) as Hz by (apply zlen_subspan; lia).
  split_and!; cbn; [apply segment_fields; done || lia | done | rewrite Hz; dlia | done | by apply subspan_ok | by apply rest_ok].
Qed.
End Transport.

(** C25: every successful parse is well typed: addresses have their length,
    ports, times to live and flags are within their widths, a UDP destination
    port is not 0, TCP options are valid and whole words, an IPv6 source is not
    multicast, and payloads are within the limits of their packet. *)
Theorem parsed_packets_typed (b : Bytes) : bytes_ok b ->
  (forall v, ethernet b = Ok v -> typed_ethernet v) /\ (forall v, arp b = Ok v -> typed_arp v) /\
  (forall v, ipv4 b = Ok v -> typed_ipv4 v /\ (forall u, family_udp v = Ok u -> typed_udp u) /\ (forall s, family_tcp v = Some (Ok s) -> typed_tcp s)) /\
  (forall v, ipv6 b = Some (Ok v) -> typed_ipv6 v /\ (forall u, family_udp v = Ok u -> typed_udp u) /\ (forall s, family_tcp v = Some (Ok s) -> typed_tcp s)).
Proof.
  intros Hb. split_and!; [intros v; by apply ethernet_typed | intros v; by apply arp_typed | |]; intros v Hv.
  - pose proof (ipv4_typed b v Hb Hv) as Ht. split_and!; [done | intros u; apply family_udp_typed, Ht | intros s; apply family_tcp_typed, Ht].
  - pose proof (ipv6_typed b v Hb Hv) as Ht. split_and!; [done | intros u; apply family_udp_typed, Ht | intros s; apply family_tcp_typed, Ht].
Qed.

(** ** Ethernet and ARP *)
Lemma split_at (b : Bytes) n : 0 <= n <= zlen b -> exists a r, b = a ++ r /\ zlen a = n /\ zlen r = zlen b - n.
Proof.
  intros Hn. exists (first b n), (rest b n). unfold first, rest. rewrite zlen_take, zlen_drop. split_and!; [symmetry; apply take_drop | lia | lia].
Qed.

Definition ethernet_fits (output : Bytes) (type_ payload : Z) : Prop := 0x600 <= type_ /\ payload <= 1500 /\ 14 + payload <= zlen output.

Lemma ethernet_built output destination source type_ payload : address 6 destination -> address 6 source -> 0 <= payload ->
  ethernet_fits output type_ payload ->
  build_ethernet output destination source type_ payload = (destination ++ source ++ word2 type_ ++ rest output 14, Ok (14 + payload)).
Proof.
  intros [Hd _] [Hs _] Hp (Ht & Hl & Ho). unfold build_ethernet. cmp. f_equal. rewrite put16_copy.
  transitivity (copy_bytes output 0 (destination ++ source ++ word2 type_)).
  - rewrite !copy_bytes_app, Hd, Hs. done.
  - rewrite copy_bytes_eq by (rewrite ?zlen_app, ?Hd, ?Hs; change (zlen (word2 type_)) with 2; lia).
    rewrite !zlen_app, Hd, Hs. change (zlen (word2 type_)) with 2. change (first output 0) with (@nil Z). by rewrite <- !app_assoc.
Qed.

Definition arp_bytes (operation : Z) (sender_mac sender_ip target_mac target_ip : Bytes) : Bytes :=
  [0; 1; 8; 0; 6; 4] ++ word2 operation ++ sender_mac ++ sender_ip ++ target_mac ++ target_ip.

Lemma arp_built output operation sender_mac sender_ip target_mac target_ip :
  address 6 sender_mac -> address 4 sender_ip -> address 6 target_mac -> address 4 target_ip -> operation = 1 \/ operation = 2 -> 28 <= zlen output ->
  build_arp output operation sender_mac sender_ip target_mac target_ip =
    (arp_bytes operation sender_mac sender_ip target_mac target_ip ++ rest output 28, Ok 28).
Proof.
  intros [Hsm _] [Hsi _] [Htm _] [Hti _] Hop Ho. unfold build_arp.
  replace (negb (operation =? 1) && negb (operation =? 2)) with false by (destruct Hop as [-> | ->]; done). cmp. f_equal.
  destruct (split_at output 28) as (b & r & -> & Hb & _); [lia |]. rewrite rest_app by done.
  destruct (split_at b 8) as (h & b1 & -> & Hh & Hb1); [lia |]. destruct (split_at b1 6) as (m & b2 & -> & Hm & Hb2); [lia |].
  destruct (split_at b2 4) as (i & b3 & -> & Hi & Hb3); [lia |]. destruct (split_at b3 6) as (m' & i' & -> & Hm' & Hi'); [lia |].
  assert (exists h0 h1 h2 h3 h4 h5 h6 h7, h = [h0; h1; h2; h3; h4; h5; h6; h7]) as (h0 & h1 & h2 & h3 & h4 & h5 & h6 & h7 & ->).
  { unfold zlen in Hh. destruct h as [| ? [| ? [| ? [| ? [| ? [| ? [| ? [| ? [| ? ?]]]]]]]]]; cbn in Hh; try lia. repeat eexists. }
  unfold arp_bytes. rewrite <- !app_assoc. set (t := m ++ i ++ m' ++ i' ++ r).
  assert (put16 (put16 (put16 ([h0; h1; h2; h3; h4; h5; h6; h7] ++ t) 0 1) 2 ethertype_ipv4).[4 := 6].[5 := 4] 6 operation =
    ([0; 1; 8; 0; 6; 4] ++ word2 operation) ++ t) as ->.
  { rewrite !put16_copy. unfold word2. change (hi 1) with 0. change (lo 1) with 1. change (hi ethertype_ipv4) with 8. change (lo ethertype_ipv4) with 0.
    generalize (hi operation) (lo operation). intros. reflexivity. }
  set (h := [0; 1; 8; 0; 6; 4] ++ word2 operation). assert (zlen h = 8) as Hz by done. subst t.
  rewrite (copy_over h m) by (rewrite ?Hz, ?Hm, ?Hsm; done).
  rewrite !(app_assoc h), (app_assoc (h ++ sender_mac)). rewrite (copy_over ((h ++ sender_mac) ++ i) m') by (rewrite ?zlen_app, ?Hz, ?Hsm, ?Hi, ?Hm', ?Htm; done).
  rewrite <- !app_assoc, (app_assoc h). rewrite (copy_over (h ++ sender_mac) i) by (rewrite ?zlen_app, ?Hz, ?Hsm, ?Hi, ?Hsi; done).
  rewrite !app_assoc, <- (app_assoc _ i'). rewrite (copy_over _ i') by (rewrite ?zlen_app, ?Hz, ?Hsm, ?Hsi, ?Htm, ?Hi', ?Hti; done || lia).
  subst h. by rewrite <- !app_assoc.
Qed.

Lemma ethernet_accepts destination source type_ payload : address 6 destination -> address 6 source -> 0x600 <= type_ < 65536 ->
  type_ <> 0x8100 -> type_ <> 0x88a8 ->
  ethernet (destination ++ source ++ word2 type_ ++ payload) = Ok (Ethernet.mk destination source type_ payload).
Proof.
  intros [Hd _] [Hs _] Ht Hv1 Hv2. unfold ethernet. pose proof (zlen_nonneg payload).
  rewrite !zlen_app, Hd, Hs. change (zlen (word2 type_)) with 2.
  assert (be16 (destination ++ source ++ word2 type_ ++ payload) 12 = type_) as ->.
  { rewrite app_assoc. apply be16_word; [by rewrite zlen_app, Hd, Hs | unfold port; lia]. }
  cmp. f_equal. f_equal.
  - by apply (array_at_app [] destination).
  - by apply array_at_app.
  - rewrite !app_assoc. apply rest_app. by rewrite !zlen_app, Hd, Hs.
Qed.

Lemma arp_accepts operation sender_mac sender_ip target_mac target_ip padding :
  address 6 sender_mac -> address 4 sender_ip -> address 6 target_mac -> address 4 target_ip -> operation = 1 \/ operation = 2 ->
  arp (arp_bytes operation sender_mac sender_ip target_mac target_ip ++ padding) = Ok (Arp.mk operation sender_mac target_mac sender_ip target_ip).
Proof.
  intros [Hsm _] [Hsi _] [Htm _] [Hti _] Hop. unfold arp, arp_bytes. pose proof (zlen_nonneg padding). rewrite <- !app_assoc.
  set (t := sender_mac ++ sender_ip ++ target_mac ++ target_ip ++ padding). set (h := [0; 1; 8; 0; 6; 4]).
  assert (zlen (h ++ word2 operation ++ t) = 28 + zlen padding) as -> by (subst t; rewrite !zlen_app, Hsm, Hsi, Htm, Hti; change (zlen h) with 6; change (zlen (word2 operation)) with 2; lia).
  assert (be16 (h ++ word2 operation ++ t) 6 = operation) as -> by (apply be16_word; [done | unfold port; lia]).
  change (be16 (h ++ word2 operation ++ t) 0) with 1. change (be16 (h ++ word2 operation ++ t) 2) with 0x800.
  change (byte (h ++ word2 operation ++ t) 4) with 6. change (byte (h ++ word2 operation ++ t) 5) with 4.
  cmp. replace (negb (operation =? 1) && negb (operation =? 2)) with false by (destruct Hop as [-> | ->]; done). f_equal. rewrite app_assoc.
  assert (zlen (h ++ word2 operation) = 8) as Hh by done. set (a := h ++ word2 operation) in *. clearbody a. subst t. f_equal.
  - by apply array_at_app.
  - rewrite (app_assoc a), (app_assoc (a ++ _)). apply array_at_app; [rewrite !zlen_app; lia | done].
  - rewrite (app_assoc a). apply array_at_app; [rewrite !zlen_app; lia | done].
  - rewrite (app_assoc a), (app_assoc (a ++ _)), (app_assoc ((a ++ _) ++ _)). apply array_at_app; [rewrite !zlen_app; lia | done].
Qed.

(** Ethernet and ARP round trips.  A frame the Ethernet builder completes
    is read back with its addresses, type and the payload placed behind the
    header, unless the type is a VLAN tag; an ARP packet is read back as built,
    with padding after it; a call that does not fit or has an invalid type or
    operation is refused and changes no byte. *)
Theorem link_roundtrip output destination source type_ payload operation sender_ip target_ip padding :
  address 6 destination -> address 6 source -> address 4 sender_ip -> address 4 target_ip -> port type_ -> 0 <= payload ->
  (let '(o, r) := build_ethernet output destination source type_ payload in
   (ethernet_fits output type_ payload -> r = Ok (14 + payload) /\ rest o 14 = rest output 14 /\
      (type_ <> 0x8100 -> type_ <> 0x88a8 ->
       ethernet (first o (14 + payload)) = Ok (Ethernet.mk destination source type_ (subspan output 14 payload)))) /\
   (~ ethernet_fits output type_ payload -> o = output /\ exists e, r = Err e /\ e <> StatusCode.ok)) /\
  (let '(o, r) := build_arp output operation source sender_ip destination target_ip in
   ((operation = 1 \/ operation = 2) /\ 28 <= zlen output -> r = Ok 28 /\ rest o 28 = rest output 28 /\
      arp (first o 28 ++ padding) = Ok (Arp.mk operation source destination sender_ip target_ip)) /\
   (~ ((operation = 1 \/ operation = 2) /\ 28 <= zlen output) -> o = output /\ exists e, r = Err e /\ e <> StatusCode.ok)).
Proof.
  intros Hd Hs Hsi Hti Ht Hp. pose proof Hd as [Hdl _]. pose proof Hs as [Hsl _]. unfold port in Ht. split.
  - destruct (decide (0x600 <= type_ /\ payload <= 1500 /\ 14 + payload <= zlen output)) as [Hf | Hf].
    + rewrite (ethernet_built output destination source type_ payload) by done. split; [intros _ | intros Hn; by destruct (Hn Hf)].
      assert (zlen (destination ++ source ++ word2 type_) = 14) as Hh by (rewrite !zlen_app, Hdl, Hsl; done).
      split_and!; [done | rewrite !app_assoc, rest_app; [done | by rewrite <- app_assoc, Hh] |]. intros Hv1 Hv2.
      replace (first _ (14 + payload)) with (destination ++ source ++ word2 type_ ++ subspan output 14 payload); [apply ethernet_accepts; done || lia |].
      unfold first, subspan, rest. rewrite (app_assoc _ source), (app_assoc (_ ++ source)), (app_assoc _ source (word2 type_ ++ _)), (app_assoc (_ ++ source)).
      rewrite take_app_ge by (rewrite <- app_assoc; unfold zlen in *; lia). rewrite <- (app_assoc destination source (word2 type_)). do 2 f_equal. unfold zlen in *; lia.
    + unfold build_ethernet. case_cond; [split; [intros Hx; by destruct (Hf Hx) | by eauto] |].
      case_cond; [split; [intros Hx; by destruct (Hf Hx) | by eauto] |]. b2p. lia.
  - destruct (decide ((operation = 1 \/ operation = 2) /\ 28 <= zlen output)) as [[Hop Hl] | Hn].
    + rewrite arp_built by done. split; [intros _ | tauto]. split; [done |].
      assert (zlen (arp_bytes operation source sender_ip destination target_ip) = 28) as Hz
        by (unfold arp_bytes; rewrite !zlen_app, Hdl, Hsl, (proj1 Hsi), (proj1 Hti); done).
      rewrite rest_app, first_app by done. split; [done |]. by apply arp_accepts.
    + unfold build_arp.
      destruct (Z.eqb_spec operation 1); [| destruct (Z.eqb_spec operation 2); [| split; [tauto | by eauto]]]; cbn [negb andb];
        (case_cond; [split; [tauto | by eauto] |]); b2p; lia.
Qed.

Lemma link_witness :
  (build_ethernet (replicate 60 0) broadcast_mac [2; 0; 0; 0; 0; 1] 0x806 28).2 = Ok 42 /\
  arp (first (build_arp (replicate 60 0) 1 [2; 0; 0; 0; 0; 1] loopback broadcast_mac loopback).1 28 ++ [0]) =
    Ok (Arp.mk 1 [2; 0; 0; 0; 0; 1] broadcast_mac loopback loopback).
Proof.
  assert (address 6 broadcast_mac) as Hd by (split; [done | by repeat apply Forall_cons_2]).
  assert (address 6 [2; 0; 0; 0; 0; 1]) as Hs by (split; [done | by repeat apply Forall_cons_2]).
  assert (address 4 loopback) as Hl by (split; [done | by repeat apply Forall_cons_2]).
  destruct (link_roundtrip (replicate 60 0) broadcast_mac [2; 0; 0; 0; 0; 1] 0x806 28 1 loopback loopback [0] Hd Hs Hl Hl ltac:(by vm_compute) ltac:(by vm_compute))
    as [He Ha].
  destruct (build_ethernet _ _ _ _ _) as [o r]. destruct (build_arp _ _ _ _ _ _) as [o' r']. destruct He as [He _], Ha as [Ha _].
  split; [apply He; by vm_compute | apply Ha; split; [by left | by vm_compute]].
Defined.

Lemma typed_witness : typed_ethernet (Ethernet.mk broadcast_mac [2; 0; 0; 0; 0; 1] 0x806 []).
Proof.
  apply (proj1 (parsed_packets_typed (broadcast_mac ++ [2; 0; 0; 0; 0; 1; 8; 6]) ltac:(by repeat apply Forall_cons_2))). by vm_compute.
Defined.
