(* ===== verification/Route.v ===== *)
(** * The routing table (include/ok/net/route.hpp)

    [RouteTable] holds the routes of one address family in a fixed array of
    slots.  An address is its list of bytes; the overloads of multicast() and
    unspecified() by the address type are the class [AddressKind].  The table
    refines the list of its routes, oldest first, and lookup() is the longest
    prefix match. *)

From S2P Require Import Prelude Epoch Wire Checksum Ip.

(** ** Address types *)
Class AddressKind := { address_size : Z; address_size_pos : 0 < address_size <= 16; multicast : Bytes -> bool; unspecified : Bytes -> bool }.
Definition ipv4_kind : AddressKind :=
  {| address_size := 4; address_size_pos := ltac:(lia); multicast := multicast4; unspecified := unspecified4 |}.
Definition ipv6_kind : AddressKind :=
  {| address_size := 16; address_size_pos := ltac:(lia); multicast := multicast6; unspecified := unspecified6 |}.

Module RouteOrigin.
Inductive t := connected | configured | router_advertisement.
End RouteOrigin.

Module Route.
Record t := mk {
  prefix : Bytes; length : Z; gateway : option Bytes; interface : Z; metric : Z; origin : RouteOrigin.t; expires : Z
}.
End Route.
Module RouteLookup.
Record t := mk { interface : Z; next_hop : Bytes; gateway : bool; length : Z; metric : Z }.
End RouteLookup.

(** One turn of the loop of mask_prefix(). *)
Definition mask_byte (length : Z) (address : Bytes) (i : Z) : Bytes :=
  let bit := i * 8 in
  if length <=? bit then address.[i := 0]
  else if length - bit <? 8 then address.[i := Z.land address.[i] (u8_wrap (Z.shiftl 0xff (8 - (length - bit))))]
  else address.
Definition mask_prefix (address : Bytes) (length : Z) : Bytes := foldl (mask_byte length) address (indices (zlen address)).

(** The first index below [n] that meets [f]. *)
Definition first_index_of (f : Z -> bool) (n : Z) : option Z := List.find f (indices n).

Module RouteTable.

Module Slot.
Record t := mk { used : bool; order : Z; route : Route.t }.
End Slot.

Record t := mk { slots_ : list Slot.t; order_ : Z }.

#[global] Instance slot_inhabited : Inhabited Slot.t :=
  populate (Slot.mk false 0 (Route.mk [] 0 None 0 0 RouteOrigin.configured 0)).

Section Operations.
Context `{AddressKind} (Capacity : Z).

Definition width : Z := address_size * 8.

(** [Slot{}], and the table as constructed. *)
Definition no_slot : Slot.t :=
  Slot.mk false 0 (Route.mk (replicate (Z.to_nat address_size) 0) 0 None 0 0 RouteOrigin.configured u64_max).
Definition new : t := mk (replicate (Z.to_nat Capacity) no_slot) 0.

Definition size (t : t) : Z := zsum (fun s => Z.b2z (Slot.used s)) (slots_ t).

(** The routes each() visits, in order. *)
Definition each (t : t) : list Route.t := Slot.route <$> List.filter Slot.used (slots_ t).

Definition same_key (prefix : Bytes) (length : Z) (gateway : option Bytes) (interface : Z) (r : Route.t) : bool :=
  (Route.length r =? length) && bool_decide (Route.prefix r = prefix) && bool_decide (Route.gateway r = gateway) &&
  (Route.interface r =? interface).
Definition exact (t : t) (prefix : Bytes) (length : Z) (gateway : option Bytes) (interface : Z) : option Z :=
  first_index_of (fun i => Slot.used (slots_ t).[i] && same_key prefix length gateway interface (Slot.route (slots_ t).[i]))
    (zlen (slots_ t)).

Definition bad_gateway (gateway : option Bytes) : bool :=
  match gateway with Some g => multicast g || unspecified g | None => false end.

Definition add (t : t) (route : Route.t) : RouteTable.t * Status :=
  if width <? Route.length route then (t, StatusCode.invalid_argument)
  else if bad_gateway (Route.gateway route) then (t, StatusCode.invalid_argument)
  else
    let route := Route.mk (mask_prefix (Route.prefix route) (Route.length route)) (Route.length route) (Route.gateway route)
                          (Route.interface route) (Route.metric route) (Route.origin route) (Route.expires route) in
    match exact t (Route.prefix route) (Route.length route) (Route.gateway route) (Route.interface route) with
    | Some i => (mk (slots_ t).[i := Slot.mk (Slot.used (slots_ t).[i]) (Slot.order (slots_ t).[i]) route] (order_ t), StatusCode.ok)
    | None =>
        match first_index_of (fun i => negb (Slot.used (slots_ t).[i])) (zlen (slots_ t)) with
        | Some i =>
            let order := u64_wrap (order_ t + 1) in
            (mk (slots_ t).[i := Slot.mk true order route] order, StatusCode.ok)
        | None => (t, StatusCode.no_memory)
        end
    end.

Definition remove (t : t) (prefix : Bytes) (length : Z) (gateway : option Bytes) (interface : Z) : RouteTable.t * Status :=
  match exact t (mask_prefix prefix length) length gateway interface with
  | None => (t, StatusCode.not_found)
  | Some i => (mk (slots_ t).[i := no_slot] (order_ t), StatusCode.ok)
  end.

Definition remove_if (t : t) (match_ : Route.t -> bool) : RouteTable.t * Z :=
  let hit s := Slot.used s && match_ (Slot.route s) in
  (mk ((fun s => if hit s then no_slot else s) <$> slots_ t) (order_ t), zsum (fun s => Z.b2z (hit s)) (slots_ t)).

Definition expire (t : t) (now : Z) : RouteTable.t * Z := remove_if t (fun r => Route.expires r <=? now).

Definition next_expiry (t : t) : option Z :=
  foldl (fun next s =>
    let e := Route.expires (Slot.route s) in
    if Slot.used s && negb (e =? u64_max) && match next with None => true | Some n => e <? n end then Some e else next)
  None (slots_ t).

(** The condition under which lookup() passes a slot over, and the one under
    which it takes a slot in place of the best so far. *)
Definition passed_over (destination : Bytes) (now : Z) (s : Slot.t) : bool :=
  negb (Slot.used s) || (Route.expires (Slot.route s) <=? now) ||
  negb (prefix_match (Route.prefix (Slot.route s)) destination (Route.length (Slot.route s))).
Definition better (s best : Slot.t) : bool :=
  let r := Slot.route s in
  let b := Slot.route best in
  (Route.length b <? Route.length r) ||
  ((Route.length r =? Route.length b) &&
   ((Route.metric r <? Route.metric b) || ((Route.metric r =? Route.metric b) && (Slot.order s <? Slot.order best)))).
Definition lookup_step (destination : Bytes) (now : Z) (best : option Slot.t) (s : Slot.t) : option Slot.t :=
  if passed_over destination now s then best
  else match best with None => Some s | Some b => if better s b then Some s else best end.

Definition answer (destination : Bytes) (r : Route.t) : RouteLookup.t :=
  RouteLookup.mk (Route.interface r) (default destination (Route.gateway r))
                 (match Route.gateway r with Some _ => true | None => false end) (Route.length r) (Route.metric r).
Definition lookup (t : t) (destination : Bytes) (now : Z) : result RouteLookup.t :=
  match foldl (lookup_step destination now) None (slots_ t) with
  | None => Err StatusCode.not_found
  | Some best => Ok (answer destination (Slot.route best))
  end.
End Operations.
End RouteTable.
