(* ===== verification/RouteClaims.v ===== *)
(** * Routing: prefixes as bits, and the table against the list of its routes *)

From Stdlib Require Import Sorted.
From S2P Require Import Prelude Epoch Wire Checksum Ip Route.

(** ** The bits of an address, the most significant first *)
Definition addr_bit (a : Bytes) (k : Z) : bool := Z.testbit a.[k / 8] (7 - k mod 8).
Definition agree (a b : Bytes) (n : Z) : Prop := forall k, 0 <= k < n -> addr_bit a k = addr_bit b k.

Lemma mask_bit bits j : 0 < bits < 8 -> 0 <= j < 8 -> Z.testbit (u8_wrap (Z.shiftl 0xff (8 - bits))) j = (8 - bits <=? j).
Proof.
  intros Hb Hj.
  assert (bits = 1 \/ bits = 2 \/ bits = 3 \/ bits = 4 \/ bits = 5 \/ bits = 6 \/ bits = 7) as Hc by lia.
  assert (j = 0 \/ j = 1 \/ j = 2 \/ j = 3 \/ j = 4 \/ j = 5 \/ j = 6 \/ j = 7) as Hd by lia.
  destruct_or! Hc; destruct_or! Hd; subst; by vm_compute.
Qed.

Lemma byte_bits x y : 0 <= x < 256 -> 0 <= y < 256 -> (forall j, 0 <= j < 8 -> Z.testbit x j = Z.testbit y j) -> x = y.
Proof.
  intros Hx Hy Hj. apply Z.bits_inj'. intros j Hn. destruct (Z.ltb_spec j 8); [apply Hj; lia |].
  by rewrite (testbit_high x 8), (testbit_high y 8) by (change (2 ^ 8) with 256; lia).
Qed.

Lemma addr_bit_byte a i j : 0 <= i -> 0 <= j < 8 -> addr_bit a (8 * i + (7 - j)) = Z.testbit a.[i] j.
Proof. intros Hi Hj. unfold addr_bit. replace ((8 * i + (7 - j)) / 8) with i by dlia. f_equal. dlia. Qed.

Lemma bytes_agree a b i : 0 <= i -> bytes_ok a -> bytes_ok b -> i < zlen a -> i < zlen b ->
  (forall j, 0 <= j < 8 -> addr_bit a (8 * i + (7 - j)) = addr_bit b (8 * i + (7 - j))) -> a.[i] = b.[i].
Proof.
  intros Hi Ha Hb Hla Hlb Hj. apply byte_bits; [by apply bytes_ok_aget | by apply bytes_ok_aget |].
  intros j Hr. rewrite <- !addr_bit_byte by done. by apply Hj.
Qed.

(** prefix_match() compares the first [n] bits. *)
Lemma prefix_match_bits a b n : bytes_ok a -> bytes_ok b -> zlen a = zlen b -> 0 <= n <= 8 * zlen a ->
  prefix_match a b n = true <-> agree a b n.
Proof.
  intros Ha Hb Hl Hn. unfold prefix_match. rewrite andb_true_iff, forallb_forall. split.
  - intros [Hbytes Hbits] k Hk. destruct (Z.ltb_spec (k / 8) (n / 8)) as [Hlt | Hge].
    + unfold addr_bit. f_equal. apply Z.eqb_eq, Hbytes, list_elem_of_In, elem_of_indices. dlia.
    + assert (k / 8 = n / 8 /\ k mod 8 < n mod 8) as [Hq Hm] by dlia.
      apply orb_true_iff in Hbits as [Hz | He]; b2p; [dlia |]. unfold addr_bit. rewrite Hq.
      apply (f_equal (fun x => Z.testbit x (7 - k mod 8))) in He. rewrite !Z.land_spec, mask_bit in He by dlia.
      rewrite (proj2 (Z.leb_le _ _)), !andb_true_r in He by dlia. done.
  - intros Hag. split.
    + intros i Hi. apply list_elem_of_In, elem_of_indices in Hi. apply Z.eqb_eq, bytes_agree; try done; try dlia.
      intros j Hj. apply Hag. dlia.
    + destruct (Z.eqb_spec (n mod 8) 0) as [| Hz]; [done |]. apply Z.eqb_eq, Z.bits_inj'. intros j Hj. rewrite !Z.land_spec.
      destruct (Z.ltb_spec j 8) as [Hj8 |].
      * rewrite mask_bit by dlia. destruct (Z.leb_spec (8 - n mod 8) j); [| by rewrite !andb_false_r].
        rewrite !andb_true_r, <- !addr_bit_byte by dlia. apply Hag. dlia.
      * rewrite (testbit_high (u8_wrap _) 8) by (try apply Z.mod_pos_bound; lia). by rewrite !andb_false_r.
Qed.

(** mask_prefix() clears the bits from [n] on. *)
Definition masked_byte (n i x : Z) : Z :=
  if n <=? i * 8 then 0 else if n - i * 8 <? 8 then Z.land x (u8_wrap (Z.shiftl 0xff (8 - (n - i * 8)))) else x.

Lemma aset_same {A} `{Inhabited A} (l : list A) i : 0 <= i < zlen l -> l.[i := l.[i]] = l.
Proof. intros Hi. unfold aset. apply list_insert_id. by apply lookup_aget. Qed.

Lemma mask_loop a n m : 0 <= m <= zlen a -> let r := foldl (mask_byte n) a (indices m) in
  zlen r = zlen a /\ forall i, 0 <= i < zlen a -> r.[i] = if i <? m then masked_byte n i a.[i] else a.[i].
Proof.
  intros Hm. destruct (Z_of_nat_complete m) as [k ->]; [lia |]. induction k as [| k IH].
  - split; [done |]. intros i Hi. by rewrite (proj2 (Z.ltb_ge i _)) by lia.
  - rewrite Nat2Z.inj_succ. unfold Z.succ. rewrite indices_succ, foldl_app by lia. cbn [foldl].
    destruct IH as [Hl Hv]; [lia |]. set (r := foldl (mask_byte n) a (indices (Z.of_nat k))) in *.
    assert (mask_byte n r (Z.of_nat k) = r.[Z.of_nat k := masked_byte n (Z.of_nat k) r.[Z.of_nat k]]) as ->.
    { unfold mask_byte, masked_byte. case_cond; [done |]. case_cond; [done |]. symmetry. apply aset_same. lia. }
    split; [by rewrite zlen_aset |]. intros i Hi. rewrite aget_aset by lia. rewrite (Hv i Hi), (Hv (Z.of_nat k)) by lia.
    destruct (Z.eqb_spec i (Z.of_nat k)) as [-> | Hne].
    + by rewrite (proj2 (Z.ltb_ge _ _)), (proj2 (Z.ltb_lt _ _)) by lia.
    + destruct (Z.ltb_spec i (Z.of_nat k)), (Z.ltb_spec i (Z.of_nat k + 1)); done || lia.
Qed.

Lemma masked_bits n i x j : 0 <= n -> 0 <= i -> 0 <= j < 8 ->
  Z.testbit (masked_byte n i x) j = if 8 * i + (7 - j) <? n then Z.testbit x j else false.
Proof.
  intros Hn Hi Hj. unfold masked_byte. destruct (Z.leb_spec n (i * 8)); [rewrite (proj2 (Z.ltb_ge _ n)) by lia; apply Z.bits_0 |].
  destruct (Z.ltb_spec (n - i * 8) 8); [| by rewrite (proj2 (Z.ltb_lt _ n)) by lia].
  rewrite Z.land_spec, mask_bit by lia. destruct (Z.leb_spec (8 - (n - i * 8)) j), (Z.ltb_spec (8 * i + (7 - j)) n);
    rewrite ?andb_true_r, ?andb_false_r; done || lia.
Qed.

Lemma mask_prefix_spec a n : bytes_ok a -> 0 <= n -> let r := mask_prefix a n in
  bytes_ok r /\ zlen r = zlen a /\
  forall k, 0 <= k < 8 * zlen a -> addr_bit r k = if k <? n then addr_bit a k else false.
Proof.
  intros Ha Hn r. destruct (mask_loop a n (zlen a)) as [Hl Hv]; [pose proof (zlen_nonneg a); lia |]. fold (mask_prefix a n) in Hl, Hv. fold r in Hl, Hv.
  assert (forall i, 0 <= i < zlen a -> r.[i] = masked_byte n i a.[i]) as Hm by (intros i Hi; rewrite Hv by done; by rewrite (proj2 (Z.ltb_lt i _)) by lia).
  split_and!; [| done |].
  - apply Forall_lookup_2. intros i x Hx. pose proof (lookup_lt_Some _ _ _ Hx) as Hi.
    assert (0 <= Z.of_nat i < zlen a) as Hz by (unfold zlen in *; lia).
    pose proof (aget_lookup r (Z.of_nat i) x ltac:(lia) ltac:(by rewrite Nat2Z.id)) as He. rewrite <- He, Hm by done.
    pose proof (bytes_ok_aget a (Z.of_nat i) Ha Hz). unfold masked_byte. case_cond; [lia |]. case_cond; [| done].
    apply (land_bound _ _ 8); [lia | done | apply Z.mod_pos_bound; lia].
  - intros k Hk. unfold addr_bit. rewrite Hm by dlia. rewrite masked_bits by dlia. by replace (8 * (k / 8) + (7 - (7 - k mod 8))) with k by dlia.
Qed.

Lemma first_index_some f n i : first_index_of f n = Some i -> 0 <= i < n /\ f i = true.
Proof. intros Hi. apply List.find_some in Hi as [Hin Hf]. by apply list_elem_of_In, elem_of_indices in Hin. Qed.
Lemma first_index_none f n i : first_index_of f n = None -> 0 <= i < n -> f i = false.
Proof. intros Hn Hi. by apply (List.find_none _ _ Hn), list_elem_of_In, elem_of_indices. Qed.

(** ** The specification: the routes, oldest first *)
Section Spec.
Context `{AddressKind} (Capacity : Z).

(** A route covers the addresses that agree with its prefix on its length. *)
Definition covers (r : Route.t) (destination : Bytes) : bool :=
  forallb (fun k => Bool.eqb (addr_bit (Route.prefix r) k) (addr_bit destination k)) (indices (Route.length r)).
Definition usable (destination : Bytes) (now : Z) (r : Route.t) : bool := (now <? Route.expires r) && covers r destination.

(** A longer prefix, then a lower metric. *)
Definition preferred (r b : Route.t) : bool :=
  (Route.length b <? Route.length r) || ((Route.length r =? Route.length b) && (Route.metric r <? Route.metric b)).
Definition spec_best (destination : Bytes) (now : Z) (best : option Route.t) (r : Route.t) : option Route.t :=
  if usable destination now r then match best with None => Some r | Some b => if preferred r b then Some r else best end else best.
Definition spec_lookup (l : list Route.t) (destination : Bytes) (now : Z) : result RouteLookup.t :=
  match foldl (spec_best destination now) None l with
  | None => Err StatusCode.not_found
  | Some r => Ok (RouteTable.answer destination r)
  end.

Definition masked (r : Route.t) : Route.t :=
  Route.mk (mask_prefix (Route.prefix r) (Route.length r)) (Route.length r) (Route.gateway r)
           (Route.interface r) (Route.metric r) (Route.origin r) (Route.expires r).
Definition same_route (r x : Route.t) : bool :=
  RouteTable.same_key (Route.prefix r) (Route.length r) (Route.gateway r) (Route.interface r) x.

Definition spec_add (l : list Route.t) (r : Route.t) : list Route.t * Status :=
  if (RouteTable.width <? Route.length r) || RouteTable.bad_gateway (Route.gateway r) then (l, StatusCode.invalid_argument)
  else
    let r := masked r in
    if existsb (same_route r) l then ((fun x => if same_route r x then r else x) <$> l, StatusCode.ok)
    else if zlen l <? Capacity then (l ++ [r], StatusCode.ok)
    else (l, StatusCode.no_memory).

Definition spec_remove_if (l : list Route.t) (m : Route.t -> bool) : list Route.t * Z :=
  (List.filter (fun x => negb (m x)) l, zlen (List.filter m l)).
Definition spec_remove (l : list Route.t) (prefix : Bytes) (length : Z) (gateway : option Bytes) (interface : Z) : list Route.t * Status :=
  let key := RouteTable.same_key (mask_prefix prefix length) length gateway interface in
  if existsb key l then (List.filter (fun x => negb (key x)) l, StatusCode.ok) else (l, StatusCode.not_found).

Definition spec_expiry (next : option Z) (r : Route.t) : option Z :=
  let e := Route.expires r in
  if negb (e =? u64_max) && match next with None => true | Some n => e <? n end then Some e else next.

(** Calls and their answers. *)
Inductive call :=
  | Add (r : Route.t) | Remove (prefix : Bytes) (length : Z) (gateway : option Bytes) (interface : Z)
  | RemoveIf (m : Route.t -> bool) | Expire (now : Z) | Lookup (destination : Bytes) (now : Z) | NextExpiry | Size.
Inductive reply :=
  | Done (s : Status) | Removed (n : Z) | Found (r : result RouteLookup.t) | Expiry (e : option Z) | Count (n : Z).

Definition run_call (t : RouteTable.t) (c : call) : RouteTable.t * reply :=
  match c with
  | Add r => let '(t, s) := RouteTable.add t r in (t, Done s)
  | Remove p n g i => let '(t, s) := RouteTable.remove t p n g i in (t, Done s)
  | RemoveIf m => let '(t, n) := RouteTable.remove_if t m in (t, Removed n)
  | Expire now => let '(t, n) := RouteTable.expire t now in (t, Removed n)
  | Lookup d now => (t, Found (RouteTable.lookup t d now))
  | NextExpiry => (t, Expiry (RouteTable.next_expiry t))
  | Size => (t, Count (RouteTable.size t))
  end.
Definition spec_call (l : list Route.t) (c : call) : list Route.t * reply :=
  match c with
  | Add r => let '(l, s) := spec_add l r in (l, Done s)
  | Remove p n g i => let '(l, s) := spec_remove l p n g i in (l, Done s)
  | RemoveIf m => let '(l, n) := spec_remove_if l m in (l, Removed n)
  | Expire now => let '(l, n) := spec_remove_if l (fun r => Route.expires r <=? now) in (l, Removed n)
  | Lookup d now => (l, Found (spec_lookup l d now))
  | NextExpiry => (l, Expiry (foldl spec_expiry None l))
  | Size => (l, Count (zlen l))
  end.

Fixpoint replies {S : Type} (step : S -> call -> S * reply) (s : S) (script : list call) : list reply :=
  match script with [] => [] | c :: script => let '(s, r) := step s c in r :: replies step s script end.

(** Arguments of the types of the code. *)
Definition call_ok (c : call) : Prop :=
  match c with
  | Add r => bytes_ok (Route.prefix r) /\ zlen (Route.prefix r) = address_size /\ 0 <= Route.length r
  | Lookup d _ => bytes_ok d /\ zlen d = address_size
  | _ => True
  end.
End Spec.

(** ** Lists of slots *)
Lemma filter_fmap {A B} (f : B -> bool) (g : A -> B) l : List.filter f (g <$> l) = g <$> List.filter (fun x => f (g x)) l.
Proof. induction l as [| x l IH]; [done |]. cbn. rewrite IH. by destruct (f (g x)). Qed.

Lemma elem_of_filter_bool {A} (f : A -> bool) l x : x ∈ List.filter f l <-> x ∈ l /\ f x = true.
Proof. rewrite !list_elem_of_In. apply List.filter_In. Qed.

Lemma sorted_filter {A} (R : A -> A -> Prop) f l : StronglySorted R l -> StronglySorted R (List.filter f l).
Proof.
  induction 1 as [| x l Hl IH Hx]; [constructor |]. cbn. destruct (f x); [| done]. constructor; [done |].
  rewrite Forall_forall in *. intros y Hy. apply elem_of_filter_bool in Hy as [Hy _]. by apply Hx.
Qed.

Lemma sorted_snoc {A} (R : A -> A -> Prop) l x : StronglySorted R l -> Forall (fun y => R y x) l -> StronglySorted R (l ++ [x]).
Proof.
  induction 1 as [| y l Hl IH Hy]; intros Hx; [by repeat constructor |]. cbn. apply Forall_cons in Hx as [Hyx Hx].
  constructor; [by apply IH |]. apply Forall_app. split; [done | by constructor].
Qed.

Lemma sorted_impl {A} (R R' : A -> A -> Prop) l : (forall x y, x ∈ l -> y ∈ l -> R x y -> R' x y) -> StronglySorted R l -> StronglySorted R' l.
Proof.
  intros Hr. induction 1 as [| x l Hl IH Hx]; constructor.
  - apply IH. intros y z Hy Hz. apply Hr; by right.
  - rewrite Forall_forall in *. intros y Hy. apply Hr; [by left | by right | by apply Hx].
Qed.

Lemma sorted_nodup (f : Z -> Z) l : StronglySorted (fun i j => f i < f j) l -> NoDup l.
Proof.
  induction 1 as [| x l Hl IH Hx]; constructor; [| done]. intros Hin. rewrite Forall_forall in Hx. specialize (Hx x Hin). cbn in Hx. lia.
Qed.

Lemma sorted_order (f : Z -> Z) l i j : StronglySorted (fun i j => f i < f j) l -> i ∈ l -> j ∈ l -> f i = f j -> i = j.
Proof.
  induction 1 as [| x l Hl IH Hx]; intros Hi Hj He; [by apply elem_of_nil in Hi |]. rewrite Forall_forall in Hx.
  apply elem_of_cons in Hi, Hj. destruct Hi as [-> | Hi], Hj as [-> | Hj]; [done | | | by apply IH].
  - specialize (Hx j Hj). cbn in Hx. lia.
  - specialize (Hx i Hi). cbn in Hx. lia.
Qed.

Lemma zsum_filter {A} `{Inhabited A} (f : A -> bool) (l : list A) :
  zsum (fun s => Z.b2z (f s)) l = zlen (List.filter (fun i => f l.[i]) (indices (zlen l))).
Proof.
  rewrite zsum_indices. generalize (indices (zlen l)). intros k. induction k as [| i k IH]; [done |].
  rewrite zsum_cons, IH. cbn [List.filter]. destruct (f l.[i]); rewrite ?zlen_cons; cbn [Z.b2z]; lia.
Qed.

Lemma zlen_perm {A} (l k : list A) : l ≡ₚ k -> zlen l = zlen k.
Proof. intros Hp. unfold zlen. by rewrite Hp. Qed.

Lemma nodup_indices n : NoDup (indices n).
Proof. apply NoDup_seqZ. Qed.

Lemma nodup_filter {A} (f : A -> bool) l : NoDup l -> NoDup (List.filter f l).
Proof.
  induction 1 as [| x l Hx Hl IH]; [constructor |]. cbn. destruct (f x); [| done]. constructor; [| done].
  rewrite elem_of_filter_bool. tauto.
Qed.

(** ** The table represents a list *)
Section Refinement.
Context `{AddressKind} (Capacity : Z) (HC : 0 < Capacity).
Import RouteTable.

Definition order_at (t : t) (i : Z) : Z := Slot.order (slots_ t).[i].
Definition route_at (t : t) (i : Z) : Route.t := Slot.route (slots_ t).[i].
Definition route_ok (r : Route.t) : Prop := bytes_ok (Route.prefix r) /\ zlen (Route.prefix r) = address_size /\ 0 <= Route.length r <= width.

(** [l] are the used slots, oldest first. *)
Record represents (t : t) (l : list Z) : Prop := {
  rep_len : zlen (slots_ t) = Capacity;
  rep_in i : i ∈ l <-> 0 <= i < Capacity /\ Slot.used (slots_ t).[i] = true;
  rep_sorted : StronglySorted (fun i j => order_at t i < order_at t j) l;
  rep_order : Forall (fun i => order_at t i <= order_ t) l;
  rep_keys i j : i ∈ l -> j ∈ l -> same_route (route_at t i) (route_at t j) = true -> i = j;
  rep_routes : Forall (fun i => route_ok (route_at t i)) l
}.

Lemma same_key_spec p n g f r : same_key p n g f r = true <->
  Route.length r = n /\ Route.prefix r = p /\ Route.gateway r = g /\ Route.interface r = f.
Proof. unfold same_key. rewrite !andb_true_iff, !Z.eqb_eq, !bool_decide_eq_true. tauto. Qed.

Lemma existsb_routes t l (f : Route.t -> bool) : existsb f (route_at t <$> l) = true <-> exists i, i ∈ l /\ f (route_at t i) = true.
Proof.
  rewrite List.existsb_exists. setoid_rewrite <- list_elem_of_In. setoid_rewrite list_elem_of_fmap.
  split; [intros (r & (i & -> & Hi) & Hf); by exists i | intros (i & Hi & Hf); by eexists; split; [exists i |]].
Qed.

Section Table.
Context (t : t) (l : list Z) (Hr : represents t l).

Lemma rep_nodup : NoDup l.
Proof. apply (sorted_nodup (order_at t)), Hr. Qed.

Lemma rep_perm : l ≡ₚ List.filter (fun i => Slot.used (slots_ t).[i]) (indices (zlen (slots_ t))).
Proof.
  apply NoDup_Permutation; [apply rep_nodup | apply nodup_filter, nodup_indices |]. intros i.
  rewrite elem_of_filter_bool, elem_of_indices, (rep_len _ _ Hr). apply Hr.
Qed.

Lemma rep_size : size t = zlen l.
Proof. unfold size. rewrite zsum_filter. symmetry. apply zlen_perm, rep_perm. Qed.

(** exact() finds the slot of a key. *)
Lemma exact_found p n g f :
  match exact t p n g f with
  | Some i => i ∈ l /\ same_key p n g f (route_at t i) = true
  | None => forall i, i ∈ l -> same_key p n g f (route_at t i) = false
  end.
Proof.
  unfold exact. destruct (first_index_of _ _) as [i |] eqn:He.
  - apply first_index_some in He as [Hi Hf]. rewrite (rep_len _ _ Hr) in Hi. apply andb_true_iff in Hf as [Hu Hk]. split; [by apply (rep_in _ _ Hr) | done].
  - intros i Hi. apply (rep_in _ _ Hr) in Hi as [Hi Hu]. rewrite <- (rep_len _ _ Hr) in Hi.
    pose proof (first_index_none _ _ i He Hi) as Hf. cbn in Hf. by rewrite Hu in Hf.
Qed.

Lemma exact_existsb p n g f : existsb (same_key p n g f) (route_at t <$> l) = match exact t p n g f with Some _ => true | None => false end.
Proof.
  pose proof (exact_found p n g f) as He. destruct (exact t p n g f) as [i |]; [apply existsb_routes; by exists i |].
  apply not_true_is_false. intros Hx. apply existsb_routes in Hx as (i & Hi & Hk). by rewrite (He i Hi) in Hk.
Qed.

(** Dropping slots. *)
Lemma rep_drop t' (keep : Z -> bool) : zlen (slots_ t') = zlen (slots_ t) -> order_ t' = order_ t ->
  (forall i, 0 <= i < Capacity -> if keep i then (slots_ t').[i] = (slots_ t).[i] else Slot.used (slots_ t').[i] = Slot.used (slots_ t).[i] && keep i) ->
  represents t' (List.filter keep l).
Proof.
  intros Hl Ho Hs. assert (forall i, i ∈ List.filter keep l -> i ∈ l /\ (slots_ t').[i] = (slots_ t).[i]) as Hk.
  { intros i Hi. apply elem_of_filter_bool in Hi as [Hi Hk]. split; [done |]. apply (rep_in _ _ Hr) in Hi as [Hi _]. specialize (Hs i Hi). by rewrite Hk in Hs. }
  split.
  - by rewrite Hl, (rep_len _ _ Hr).
  - intros i. rewrite elem_of_filter_bool, (rep_in _ _ Hr). split.
    + intros [[Hi Hu] Hki]. split; [done |]. specialize (Hs i Hi). rewrite Hki in Hs. by rewrite Hs.
    + intros [Hi Hu]. specialize (Hs i Hi). destruct (keep i); [by rewrite Hs in Hu | by rewrite Hs, andb_false_r in Hu].
  - eapply sorted_impl; [| apply sorted_filter, (rep_sorted _ _ Hr)]. intros i j Hi Hj. unfold order_at.
    by rewrite (proj2 (Hk i Hi)), (proj2 (Hk j Hj)).
  - apply Forall_forall. intros i Hi. unfold order_at. rewrite Ho, (proj2 (Hk i Hi)). pose proof (rep_order _ _ Hr) as Hf.
    rewrite Forall_forall in Hf. by apply Hf, Hk.
  - intros i j Hi Hj. unfold route_at. rewrite (proj2 (Hk i Hi)), (proj2 (Hk j Hj)). apply (rep_keys _ _ Hr); by apply Hk.
  - apply Forall_forall. intros i Hi. unfold route_at. rewrite (proj2 (Hk i Hi)). pose proof (rep_routes _ _ Hr) as Hf.
    rewrite Forall_forall in Hf. by apply Hf, Hk.
Qed.

Lemma rep_remove_if m : let '(t', n) := remove_if t m in
  let l' := List.filter (fun i => negb (m (route_at t i))) l in
  represents t' l' /\ (route_at t' <$> l', n) = spec_remove_if (route_at t <$> l) m.
Proof.
  unfold remove_if. set (hit := fun s => Slot.used s && m (Slot.route s)). set (clear := fun s => if hit s then no_slot else s).
  assert (forall i, 0 <= i < Capacity -> (clear <$> slots_ t).[i] = clear (slots_ t).[i]) as Hs by (intros i Hi; apply aget_fmap; by rewrite (rep_len _ _ Hr)).
  split.
  - apply rep_drop; [apply zlen_fmap | done |]. intros i Hi. cbn [slots_]. rewrite Hs by done. unfold clear, hit. fold (route_at t i).
    destruct (m (route_at t i)); cbn [negb]; [rewrite andb_true_r, andb_false_r; by destruct (Slot.used (slots_ t).[i]) eqn:Hu |]. by rewrite andb_false_r.
  - unfold spec_remove_if. rewrite !filter_fmap. f_equal.
    + apply list_fmap_ext. intros k i Hi. apply list_elem_of_lookup_2, elem_of_filter_bool in Hi as [Hi Hm]. apply (rep_in _ _ Hr) in Hi as [Hi _].
      unfold route_at at 1. cbn [slots_]. rewrite Hs by done. unfold clear, hit. fold (route_at t i). apply negb_true_iff in Hm. by rewrite Hm, andb_false_r.
    + rewrite zsum_filter, zlen_fmap. symmetry. apply zlen_perm, NoDup_Permutation; [apply nodup_filter, rep_nodup | apply nodup_filter, nodup_indices |].
      intros i. rewrite !elem_of_filter_bool, elem_of_indices, (rep_in _ _ Hr), (rep_len _ _ Hr). unfold hit. rewrite andb_true_iff. tauto.
Qed.

(** remove() drops the one slot with its key. *)
Lemma rep_remove p n g f : let '(t', s) := remove t p n g f in
  exists l', represents t' l' /\ (route_at t' <$> l', s) = spec_remove (route_at t <$> l) p n g f.
Proof.
  unfold remove, spec_remove. set (p' := mask_prefix p n). rewrite exact_existsb. pose proof (exact_found p' n g f) as He.
  destruct (exact t p' n g f) as [i |]; [| by exists l]. destruct He as [Hi Hk].
  pose proof (proj1 (rep_in _ _ Hr i) Hi) as [Hir Hiu]. apply same_key_spec in Hk as (<- & Hp & <- & <-).
  assert (forall j, j ∈ l -> same_key p' (Route.length (route_at t i)) (Route.gateway (route_at t i)) (Route.interface (route_at t i)) (route_at t j) =
    bool_decide (i = j)) as Hkey.
  { intros j Hj. rewrite <- Hp. apply eq_true_iff_eq. rewrite bool_decide_eq_true. split; [apply (rep_keys _ _ Hr); done |].
    intros <-. by apply same_key_spec. }
  set (t' := mk _ _). assert (forall j, 0 <= j < Capacity -> j <> i -> (slots_ t').[j] = (slots_ t).[j]) as Hs
    by (intros j Hj Hne; apply aget_aset_ne; lia).
  exists (List.filter (fun j => negb (bool_decide (i = j))) l). split.
  - apply rep_drop; [apply zlen_aset | done |]. intros j Hj. destruct (decide (i = j)) as [<- | Hne].
    + rewrite bool_decide_true by done. cbn [negb]. rewrite andb_false_r. subst t'. cbn [slots_].
      by rewrite aget_aset_eq by (by rewrite (rep_len _ _ Hr)).
    + rewrite bool_decide_false by done. by apply Hs; [| congruence].
  - f_equal. rewrite filter_fmap.
    match goal with |- _ = _ <$> List.filter ?f l => rewrite (List.filter_ext_in f (fun j => negb (bool_decide (i = j))) l) end.
    + apply list_fmap_ext. intros k j Hj. apply list_elem_of_lookup_2, elem_of_filter_bool in Hj as [Hj Hne].
      apply negb_true_iff, bool_decide_eq_false in Hne. apply (rep_in _ _ Hr) in Hj as [Hj _]. unfold route_at. by rewrite Hs by congruence.
    + intros j Hj. by rewrite Hkey by (by apply list_elem_of_In).
Qed.

(** add() refreshes the slot of the key in place. *)
Lemma rep_refresh i r : i ∈ l -> route_ok r -> same_route r (route_at t i) = true ->
  let t' := mk (slots_ t).[i := Slot.mk (Slot.used (slots_ t).[i]) (Slot.order (slots_ t).[i]) r] (order_ t) in
  represents t' l /\ route_at t' <$> l = (fun x => if same_route r x then r else x) <$> (route_at t <$> l).
Proof.
  intros Hi Hok Hk t'. pose proof (proj1 (rep_in _ _ Hr i) Hi) as [Hir Hiu]. rewrite <- (rep_len _ _ Hr) in Hir.
  assert (forall j, 0 <= j -> (slots_ t').[j] = if j =? i then Slot.mk true (order_at t i) r else (slots_ t).[j]) as Hs.
  { intros j Hj. subst t'. cbn [slots_]. rewrite Hiu. by apply aget_aset. }
  assert (forall j, j ∈ l -> 0 <= j) as Hnn by (intros j Hj; by apply (rep_in _ _ Hr) in Hj as [? _]; lia).
  assert (forall j, 0 <= j -> order_at t' j = order_at t j) as Hord by (intros j Hj; unfold order_at at 1; rewrite Hs by done; by destruct (Z.eqb_spec j i) as [-> |]).
  assert (forall j, 0 <= j -> route_at t' j = if j =? i then r else route_at t j) as Hrt by (intros j Hj; unfold route_at; rewrite Hs by done; by destruct (j =? i)).
  assert (forall x, same_route r x = same_route (route_at t i) x) as Hsame.
  { intros x. apply same_key_spec in Hk as (H1 & H2 & H3 & H4). unfold same_route. by rewrite H1, H2, H3, H4. }
  assert (forall x, same_route x r = same_route x (route_at t i)) as Hsame'.
  { intros x. apply same_key_spec in Hk as (H1 & H2 & H3 & H4). unfold same_route, same_key. by rewrite H1, H2, H3, H4. }
  split; [split |].
  - subst t'. cbn [slots_]. by rewrite zlen_aset, (rep_len _ _ Hr).
  - intros j. rewrite (rep_in _ _ Hr). split; intros [Hj Hu]; (split; [done |]); rewrite Hs in * by lia; by destruct (Z.eqb_spec j i) as [-> |].
  - eapply sorted_impl; [| apply (rep_sorted _ _ Hr)]. intros j k Hj Hk'. cbn. by rewrite !Hord by auto.
  - apply Forall_forall. intros j Hj. cbn. rewrite Hord by auto. pose proof (rep_order _ _ Hr) as Hf. rewrite Forall_forall in Hf. by apply Hf.
  - intros j k Hj Hk'. rewrite !Hrt by auto. pose proof (rep_keys _ _ Hr) as Hu.
    destruct (Z.eqb_spec j i) as [-> |], (Z.eqb_spec k i) as [-> |]; [done | | |]; rewrite ?Hsame, ?Hsame'; by apply Hu.
  - apply Forall_forall. intros j Hj. rewrite Hrt by auto. destruct (j =? i); [done |]. pose proof (rep_routes _ _ Hr) as Hf. rewrite Forall_forall in Hf. by apply Hf.
  - rewrite <- list_fmap_compose. apply list_fmap_ext. intros k j Hj. apply list_elem_of_lookup_2 in Hj. cbn. rewrite Hrt by auto.
    destruct (Z.eqb_spec j i) as [-> | Hne]; [by rewrite Hk |]. destruct (same_route r (route_at t j)) eqn:Hx; [| done].
    rewrite Hsame in Hx. by apply (rep_keys _ _ Hr) in Hx.
Qed.

(** ... or takes a free one. *)
Lemma rep_append i r : 0 <= i < Capacity -> Slot.used (slots_ t).[i] = false -> route_ok r ->
  (forall j, j ∈ l -> same_route r (route_at t j) = false) ->
  let t' := mk (slots_ t).[i := Slot.mk true (order_ t + 1) r] (order_ t + 1) in
  represents t' (l ++ [i]) /\ route_at t' <$> (l ++ [i]) = (route_at t <$> l) ++ [r].
Proof.
  intros Hi Hu Hok Hk t'. assert (i ∉ l) as Hni by (rewrite (rep_in _ _ Hr), Hu; by intros [_ ?]).
  assert ((slots_ t').[i] = Slot.mk true (order_ t + 1) r) as Hsi by (apply aget_aset_eq; by rewrite (rep_len _ _ Hr)).
  assert (forall j, 0 <= j -> j <> i -> (slots_ t').[j] = (slots_ t).[j]) as Hs by (intros j Hj Hne; apply aget_aset_ne; lia).
  assert (forall j, j ∈ l -> (slots_ t').[j] = (slots_ t).[j]) as Hsl.
  { intros j Hj. apply Hs; [by apply (rep_in _ _ Hr) in Hj as [? _]; lia | by intros ->]. }
  pose proof (rep_order _ _ Hr) as Hord. pose proof (rep_routes _ _ Hr) as Hrt. rewrite Forall_forall in Hord, Hrt. unfold order_at, route_at in *.
  split; [split |].
  - subst t'. cbn [slots_]. by rewrite zlen_aset, (rep_len _ _ Hr).
  - intros j. rewrite elem_of_app, list_elem_of_singleton, (rep_in _ _ Hr). destruct (decide (j = i)) as [-> | Hne]; [rewrite Hsi; tauto |].
    split; [intros [[Hj Huj] | ?]; [| done] | intros [Hj Huj]; left]; rewrite Hs in * by lia; done.
  - apply sorted_snoc; [eapply sorted_impl; [| apply (rep_sorted _ _ Hr)]; intros j k Hj Hkl; unfold order_at; by rewrite !Hsl |].
    apply Forall_forall. intros j Hj. unfold order_at. rewrite Hsi, Hsl by done. cbn. specialize (Hord j Hj). lia.
  - apply Forall_app. split; [| apply Forall_singleton; unfold order_at; rewrite Hsi; cbn; lia].
    apply Forall_forall. intros j Hj. unfold order_at. rewrite Hsl by done. cbn. specialize (Hord j Hj). lia.
  - intros j k Hj Hkl. apply elem_of_app in Hj, Hkl. rewrite !list_elem_of_singleton in *. unfold route_at.
    destruct Hj as [Hj | ->], Hkl as [Hkl | ->]; [| | | done]; rewrite ?Hsi, ?Hsl by done; cbn [Slot.route].
    + apply (rep_keys _ _ Hr); done.
    + intros Hx. specialize (Hk j Hj). apply same_key_spec in Hx as (H1 & H2 & H3 & H4).
      assert (same_route r (Slot.route (slots_ t).[j]) = true) by (apply same_key_spec; done). congruence.
    + intros Hx. by rewrite (Hk k Hkl) in Hx.
  - apply Forall_app. split; [| apply Forall_singleton; unfold route_at; by rewrite Hsi]. apply Forall_forall. intros j Hj. unfold route_at. rewrite Hsl by done. by apply Hrt.
  - rewrite fmap_app. f_equal; [| cbn [fmap list_fmap]; by rewrite Hsi].
    apply list_fmap_ext. intros k j Hj. apply list_elem_of_lookup_2 in Hj. by rewrite Hsl.
Qed.
End Table.

(** A free slot is left exactly below the capacity. *)
Lemma rep_bound t l : represents t l -> zlen l <= Capacity.
Proof.
  intros Hr. rewrite <- (rep_size t l Hr), <- (rep_len _ _ Hr). apply zsum_bounds. intros s. by destruct (Slot.used s).
Qed.
Lemma rep_free t l : represents t l -> zlen l < Capacity -> exists i, 0 <= i < Capacity /\ Slot.used (slots_ t).[i] = false.
Proof.
  intros Hr Hl. rewrite <- (rep_size t l Hr), <- (rep_len _ _ Hr) in Hl.
  destruct (zsum_zero (fun s => Z.b2z (Slot.used s)) (slots_ t)) as (i & Hi & Hu); [intros s; by destruct (Slot.used s) | done |].
  exists i. rewrite (rep_len _ _ Hr) in Hi. split; [done |]. by destruct (Slot.used _).
Qed.

Lemma rep_add t l r : represents t l -> bytes_ok (Route.prefix r) -> zlen (Route.prefix r) = address_size -> 0 <= Route.length r ->
  0 <= order_ t < 2 ^ 64 - 1 -> let '(t', s) := add t r in order_ t <= order_ t' <= order_ t + 1 /\
  exists l', represents t' l' /\ (route_at t' <$> l', s) = spec_add Capacity (route_at t <$> l) r.
Proof.
  intros Hr Hb Hz Hn Ho. unfold add, spec_add. destruct (Z.ltb_spec width (Route.length r)) as [| Hw]; cbn [orb]; [split; [lia |]; by exists l |].
  destruct (bad_gateway _); [split; [lia |]; by exists l |]. fold (masked r). set (r' := masked r). cbv zeta.
  assert (route_ok r') as Hok by (destruct (mask_prefix_spec (Route.prefix r) (Route.length r) Hb Hn) as (? & ? & _); split_and!; cbn; done || lia).
  change (existsb (same_route r')) with (existsb (same_key (Route.prefix r') (Route.length r') (Route.gateway r') (Route.interface r'))).
  rewrite (exact_existsb t l Hr). pose proof (exact_found t l Hr (Route.prefix r') (Route.length r') (Route.gateway r') (Route.interface r')) as He.
  destruct (exact _ _ _ _ _) as [i |].
  { split; [cbn; lia |]. exists l. destruct (rep_refresh t l Hr i r') as [Hrep Hl]; [apply He | done | apply He |]. split; [done |]. by rewrite Hl. }
  rewrite zlen_fmap. unfold u64_wrap. rewrite Z.mod_small by lia.
  destruct (first_index_of _ _) as [i |] eqn:Hf.
  - apply first_index_some in Hf as [Hi Hu]. apply negb_true_iff in Hu. rewrite (rep_len _ _ Hr) in Hi. split; [cbn; lia |].
    exists (l ++ [i]). destruct (rep_append t l Hr i r' Hi Hu Hok He) as [Hrep Hl]. split; [done |]. rewrite Hl.
    pose proof (rep_bound _ _ Hrep) as Hlen. rewrite zlen_app in Hlen. change (zlen [i]) with 1 in Hlen. by rewrite (proj2 (Z.ltb_lt _ _)) by lia.
  - split; [lia |]. exists l. split; [done |]. destruct (Z.ltb_spec (zlen l) Capacity) as [Hlt |]; [| done].
    destruct (rep_free t l Hr Hlt) as (i & Hi & Hu). rewrite <- (rep_len _ _ Hr) in Hi. pose proof (first_index_none _ _ i Hf Hi) as Hx. cbn in Hx. by rewrite Hu in Hx.
Qed.

(** ** lookup() *)
Lemma better_false s b : better s b = false <->
  Route.length (Slot.route s) < Route.length (Slot.route b) \/ Route.length (Slot.route s) = Route.length (Slot.route b) /\
  (Route.metric (Slot.route b) < Route.metric (Slot.route s) \/ Route.metric (Slot.route s) = Route.metric (Slot.route b) /\ Slot.order b <= Slot.order s).
Proof.
  unfold better. destruct (Z.ltb_spec (Route.length (Slot.route b)) (Route.length (Slot.route s))), (Z.eqb_spec (Route.length (Slot.route s)) (Route.length (Slot.route b))),
    (Z.ltb_spec (Route.metric (Slot.route s)) (Route.metric (Slot.route b))), (Z.eqb_spec (Route.metric (Slot.route s)) (Route.metric (Slot.route b))),
    (Z.ltb_spec (Slot.order s) (Slot.order b)); cbn; split; intros; done || lia.
Qed.
Lemma better_true s b : better s b = true -> better b s = false.
Proof.
  intros Hs. apply better_false. apply not_false_iff_true in Hs. rewrite better_false in Hs. lia.
Qed.
Lemma better_trans a b c : better a b = false -> better b c = false -> better a c = false.
Proof. rewrite !better_false. lia. Qed.

Section Lookup.
Context (destination : Bytes) (now : Z).

Lemma better_refl s : better s s = false.
Proof. apply better_false. lia. Qed.

Lemma lookup_step_cases best s :
  (passed_over destination now s = true /\ lookup_step destination now best s = best) \/
  (passed_over destination now s = false /\ exists b, lookup_step destination now best s = Some b /\ (best = Some b \/ b = s) /\
     better s b = false /\ forall b0, best = Some b0 -> better b0 b = false).
Proof.
  unfold lookup_step. destruct (passed_over destination now s); [by left | right]. split; [done |].
  destruct best as [b |]; [destruct (better s b) eqn:Hb |].
  - exists s. split_and!; [done | by right | apply better_refl |]. intros b0 [= <-]. by apply better_true.
  - exists b. split_and!; [done | by left | done |]. intros b0 [= <-]. apply better_refl.
  - exists s. split_and!; [done | by right | apply better_refl | done].
Qed.

(** The loop keeps the best of the slots it does not pass over. *)
Lemma lookup_loop ss best :
  match foldl (lookup_step destination now) best ss with
  | None => best = None /\ Forall (fun s => passed_over destination now s = true) ss
  | Some b => (best = Some b \/ b ∈ ss /\ passed_over destination now b = false) /\
      (forall b0, best = Some b0 -> better b0 b = false) /\
      Forall (fun s => passed_over destination now s = false -> better s b = false) ss
  end.
Proof.
  revert best. induction ss as [| s ss IH]; intros best; cbn [foldl].
  { destruct best as [b |]; [| done]. split_and!; [by left | intros b0 [= ->]; apply better_refl | constructor]. }
  specialize (IH (lookup_step destination now best s)). destruct (foldl _ _ ss) as [b |].
  - destruct IH as (Hin & Hb & Hss). destruct (lookup_step_cases best s) as [[Hp He] | (Hp & b1 & He & Hor & Hs1 & Hb1)]; rewrite He in *.
    + split_and!; [destruct Hin as [? | []]; [by left | right; split; [by right | done]] | done | constructor; [by rewrite Hp | done]].
    + specialize (Hb b1 eq_refl). split_and!.
      * destruct Hin as [[= ->] | [Hin ?]]; [destruct Hor as [| ->]; [by left | right; split; [by left | done]] | right; split; [by right | done]].
      * intros b0 H0. eapply better_trans; [by apply Hb1 | done].
      * constructor; [intros _; by eapply better_trans | done].
  - destruct IH as [Hn Hss]. destruct (lookup_step_cases best s) as [[Hp He] | (Hp & b1 & He & _)]; rewrite He in Hn; [| done].
    split; [done | by constructor].
Qed.

Lemma covers_agree r : covers r destination = true <-> agree (Route.prefix r) destination (Route.length r).
Proof.
  unfold covers, agree. rewrite forallb_forall. setoid_rewrite <- list_elem_of_In. setoid_rewrite elem_of_indices.
  by setoid_rewrite Bool.eqb_true_iff.
Qed.

Lemma passed_usable t l i : represents t l -> bytes_ok destination -> zlen destination = address_size -> i ∈ l ->
  passed_over destination now (slots_ t).[i] = negb (usable destination now (route_at t i)).
Proof.
  intros Hr Hd Hz Hi. pose proof (rep_routes _ _ Hr) as Hok. rewrite Forall_forall in Hok. destruct (Hok i Hi) as (Hb & Hl & Hn).
  apply (rep_in _ _ Hr) in Hi as [_ Hu]. unfold passed_over, usable. rewrite Hu. fold (route_at t i). cbn [negb orb]. rewrite negb_andb, <- Z.leb_antisym.
  do 2 f_equal. apply eq_true_iff_eq. rewrite covers_agree. apply prefix_match_bits; try done; [by rewrite Hl | unfold width in Hn; lia].
Qed.

(** Along slots of growing order the order never decides. *)
Lemma lookup_sorted t l : represents t l -> bytes_ok destination -> zlen destination = address_size -> forall k best,
  (forall i, i ∈ k -> i ∈ l) -> StronglySorted (fun i j => order_at t i < order_at t j) k ->
  (forall b, best = Some b -> Forall (fun i => Slot.order b < order_at t i) k) ->
  foldl (spec_best destination now) (Slot.route <$> best) (route_at t <$> k) =
    Slot.route <$> foldl (lookup_step destination now) best ((fun i => (slots_ t).[i]) <$> k).
Proof.
  intros Hr Hd Hz. induction k as [| i k IH]; intros best Hin Hs Hb; [done |]. cbn [fmap list_fmap foldl]. change (list_fmap ?f ?l) with (f <$> l).
  inversion_clear Hs as [| ? ? Hsk Hsi].
  assert (spec_best destination now (Slot.route <$> best) (route_at t i) = Slot.route <$> lookup_step destination now best (slots_ t).[i]) as ->.
  { unfold spec_best, lookup_step. rewrite (passed_usable t l) by (done || apply Hin; by left). destruct (usable _ _ _); [| done]. cbn [negb].
    destruct best as [b |]; [| done]. specialize (Hb b eq_refl). apply Forall_cons in Hb as [Hb _]. unfold order_at in Hb.
    cbn [fmap option_fmap option_map]. unfold better, preferred. fold (route_at t i). rewrite (proj2 (Z.ltb_ge (Slot.order (slots_ t).[i]) _)) by lia.
    rewrite andb_false_r, orb_false_r. by destruct (_ || _). }
  apply IH; [intros j Hj; apply Hin; by right | done |]. intros b Hbs.
  destruct (lookup_step_cases best (slots_ t).[i]) as [[_ He] | (_ & b1 & He & Hor & _)]; rewrite He in Hbs.
  - by apply Hb, Forall_cons in Hbs as [_ ?].
  - injection Hbs as <-. destruct Hor as [Hor | ->]; [by apply Hb, Forall_cons in Hor as [_ ?] | done].
Qed.

(** The order of the slots in the array does not matter. *)
Lemma rep_lookup t l : represents t l -> bytes_ok destination -> zlen destination = address_size ->
  lookup t destination now = spec_lookup (route_at t <$> l) destination now.
Proof.
  intros Hr Hd Hz. unfold lookup, spec_lookup. change (@None Route.t) with (Slot.route <$> @None Slot.t).
  rewrite (lookup_sorted t l) by (done || apply Hr).
  pose proof (lookup_loop (slots_ t) None) as H1. pose proof (lookup_loop ((fun i => (slots_ t).[i]) <$> l) None) as H2.
  assert (forall s, s ∈ slots_ t -> passed_over destination now s = false -> exists i, i ∈ l /\ s = (slots_ t).[i]) as Hall.
  { intros s Hs Hp. apply list_elem_of_lookup in Hs as [k Hk]. pose proof (lookup_lt_Some _ _ _ Hk) as Hlt. exists (Z.of_nat k).
    assert ((slots_ t).[Z.of_nat k] = s) as He by (apply aget_lookup; [lia | by rewrite Nat2Z.id]). split; [| done].
    apply (rep_in _ _ Hr). rewrite <- (rep_len _ _ Hr), He. split; [unfold zlen; lia |]. unfold passed_over in Hp. by destruct (Slot.used s). }
  assert (forall i, i ∈ l -> (slots_ t).[i] ∈ slots_ t) as Hel.
  { intros i Hi. apply (rep_in _ _ Hr) in Hi as [Hi _]. rewrite <- (rep_len _ _ Hr) in Hi. eapply list_elem_of_lookup_2. by apply lookup_aget. }
  destruct (foldl _ None (slots_ t)) as [b |], (foldl _ None (_ <$> l)) as [b' |]; cbn [fmap option_fmap option_map]; [| | | done].
  - destruct H1 as ([? | [Hb Hp]] & _ & Hmax), H2 as ([? | [Hb' Hp']] & _ & Hmax'); [done .. |]. apply list_elem_of_fmap in Hb' as (j & -> & Hj).
    destruct (Hall b Hb Hp) as (i & Hi & ->). rewrite Forall_forall in Hmax, Hmax'. specialize (Hmax _ (Hel j Hj) Hp').
    specialize (Hmax' _ ltac:(by apply (list_elem_of_fmap_2 (fun i => (slots_ t).[i]))) Hp). rewrite better_false in Hmax, Hmax'.
    by rewrite (sorted_order (order_at t) l i j (rep_sorted _ _ Hr) Hi Hj) by (unfold order_at; lia).
  - destruct H1 as ([? | [Hb Hp]] & _), H2 as [_ Hn]; [done |]. destruct (Hall b Hb Hp) as (i & Hi & ->). rewrite Forall_forall in Hn.
    specialize (Hn _ ltac:(by apply (list_elem_of_fmap_2 (fun i => (slots_ t).[i])))). cbn in Hn. congruence.
  - destruct H1 as [_ Hn], H2 as ([? | [Hb Hp]] & _); [done |]. apply list_elem_of_fmap in Hb as (j & -> & Hj). rewrite Forall_forall in Hn.
    specialize (Hn _ (Hel j Hj)). cbn in Hn. congruence.
Qed.
End Lookup.

(** ** next_expiry() *)
Definition earlier (next : option Z) (e : Z) : option Z :=
  if negb (e =? u64_max) && match next with None => true | Some n => e <? n end then Some e else next.

Lemma earlier_comm next a b : earlier (earlier next a) b = earlier (earlier next b) a.
Proof.
  unfold earlier. destruct (Z.eqb_spec a u64_max), (Z.eqb_spec b u64_max); cbn [negb andb]; try done.
  destruct next as [k |]; cbn [negb andb];
    repeat match goal with |- context [?x <? ?y] => destruct (Z.ltb_spec x y); cbn [andb] end; try lia; try (f_equal; lia); done.
Qed.

Lemma earlier_perm l l' : l ≡ₚ l' -> forall next, foldl earlier next l = foldl earlier next l'.
Proof.
  induction 1 as [| x l l' _ IH | x y l | l1 l2 l3 _ IH1 _ IH2]; intros next; cbn [foldl]; [done | apply IH | by rewrite earlier_comm |].
  by rewrite IH1.
Qed.

Lemma next_expiry_used ss : forall next, foldl (fun next s =>
    let e := Route.expires (Slot.route s) in
    if Slot.used s && negb (e =? u64_max) && match next with None => true | Some n => e <? n end then Some e else next) next ss =
  foldl earlier next ((fun s => Route.expires (Slot.route s)) <$> List.filter Slot.used ss).
Proof. induction ss as [| s ss IH]; intros next; [done |]. cbn. destruct (Slot.used s); cbn; apply IH. Qed.

Lemma all_slots (ss : list Slot.t) : ss = (fun i => ss.[i]) <$> indices (zlen ss).
Proof.
  pose proof (zlen_nonneg ss). apply list_eq_aget; [rewrite zlen_fmap, zlen_indices; done |]. intros i Hi.
  rewrite (aget_fmap (fun i => ss.[i])) by (by rewrite zlen_indices). by rewrite aget_indices.
Qed.

Lemma rep_expiry t l : represents t l -> next_expiry t = foldl spec_expiry None (route_at t <$> l).
Proof.
  intros Hr. unfold next_expiry. rewrite next_expiry_used.
  assert (forall rs next, foldl spec_expiry next rs = foldl earlier next (Route.expires <$> rs)) as ->.
  { induction rs as [| r rs IH]; intros next; [done |]. apply IH. }
  apply earlier_perm. rewrite (all_slots (slots_ t)) at 1. rewrite filter_fmap, <- !list_fmap_compose, <- (rep_perm t l Hr). done.
Qed.

(** ** Every call *)
Lemma rep_call t l c : represents t l -> call_ok c -> 0 <= order_ t < 2 ^ 64 - 1 ->
  let '(t', r) := run_call t c in order_ t <= order_ t' <= order_ t + 1 /\
  exists l', represents t' l' /\ (route_at t' <$> l', r) = spec_call Capacity (route_at t <$> l) c.
Proof.
  intros Hr Hc Ho. destruct c as [r | p n g f | m | now | d now | |]; cbn [run_call spec_call].
  - destruct Hc as (Hb & Hz & Hn). pose proof (rep_add t l r Hr Hb Hz Hn Ho) as Ha. destruct (add t r) as [t' s].
    destruct Ha as (Ho' & l' & Hr' & He). split; [done |]. exists l'. split; [done |]. by rewrite <- He.
  - pose proof (rep_remove t l Hr p n g f) as Ha. assert (order_ (remove t p n g f).1 = order_ t) as Hord by (unfold remove; by destruct (exact _ _ _ _ _)).
    destruct (remove t p n g f) as [t' s]. destruct Ha as (l' & Hr' & He). cbn in Hord. split; [lia |]. exists l'. split; [done |]. by rewrite <- He.
  - pose proof (rep_remove_if t l Hr m) as Ha. destruct (remove_if t m) as [t' s] eqn:Ht. destruct Ha as (Hr' & He). injection Ht as <- <-.
    split; [cbn; lia |]. eexists. split; [done |]. by rewrite <- He.
  - pose proof (rep_remove_if t l Hr (fun r => Route.expires r <=? now)) as Ha. unfold expire.
    destruct (remove_if t _) as [t' s] eqn:Ht. destruct Ha as (Hr' & He). injection Ht as <- <-.
    split; [cbn; lia |]. eexists. split; [done |]. by rewrite <- He.
  - destruct Hc as [Hd Hz]. split; [lia |]. exists l. split; [done |]. by rewrite (rep_lookup d now t l).
  - split; [lia |]. exists l. split; [done |]. by rewrite (rep_expiry t l).
  - split; [lia |]. exists l. split; [done |]. by rewrite (rep_size t l), zlen_fmap.
Qed.

Lemma rep_new : represents (new Capacity) [].
Proof.
  split.
  - cbn. rewrite zlen_replicate. lia.
  - intros i. split; [intros Hi; by apply elem_of_nil in Hi |]. intros [Hi Hu]. cbn [new slots_] in Hu. rewrite aget_replicate in Hu by lia. done.
  - constructor.
  - constructor.
  - intros i j Hi. by apply elem_of_nil in Hi.
  - constructor.
Qed.

Lemma rep_replies script : forall t l, represents t l -> Forall call_ok script -> 0 <= order_ t -> order_ t + zlen script < 2 ^ 64 ->
  replies run_call t script = replies (spec_call Capacity) (route_at t <$> l) script.
Proof.
  induction script as [| c script IH]; intros t l Hr Hc Ho Hlen; [done |]. apply Forall_cons in Hc as [Hc Hcs]. rewrite zlen_cons in Hlen.
  pose proof (zlen_nonneg script). cbn [replies]. pose proof (rep_call t l c Hr Hc ltac:(lia)) as Hcall. destruct (run_call t c) as [t' r].
  destruct Hcall as (Ho' & l' & Hr' & He). rewrite <- He. f_equal. apply IH; done || lia.
Qed.
End Refinement.

(** C14: the routing table refines the list of its routes, oldest first: every
    script of fewer than 2^64 calls gets the answers of that list.  add() refreshes the route
    with the same prefix, gateway and interface in place, appends a new one
    while there is room and refuses otherwise; removals drop exactly the routes
    they name; lookup() prefers the longest prefix that agrees with the
    destination bit by bit, then the lowest metric, then the older route. *)
Theorem route_table_refines_list `{AddressKind} (Capacity : Z) (script : list call) :
  0 < Capacity -> Forall call_ok script -> zlen script < 2 ^ 64 ->
  replies run_call (RouteTable.new Capacity) script = replies (spec_call Capacity) [] script.
Proof. intros HC Hs Hlen. apply (rep_replies Capacity script (RouteTable.new Capacity) []); cbn; [by apply rep_new | done | lia | lia]. Qed.

(** A default route, a 10.0.0.0/8 route added as 10.1.2.3/8, and a look-up. *)
Definition route_script : list call :=
  [Add (Route.mk [0; 0; 0; 0] 0 (Some [192; 168; 0; 1]) 1 10 RouteOrigin.configured u64_max);
   Add (Route.mk [10; 1; 2; 3] 8 None 2 5 RouteOrigin.connected 100);
   Lookup [10; 9; 9; 9] 50; Lookup [10; 9; 9; 9] 100; Expire 100; NextExpiry; Size].

Lemma route_table_witness :
  replies (run_call (H := ipv4_kind)) (RouteTable.new (H := ipv4_kind) 2) route_script =
    [Done StatusCode.ok; Done StatusCode.ok; Found (Ok (RouteLookup.mk 2 [10; 9; 9; 9] false 8 5));
     Found (Ok (RouteLookup.mk 1 [192; 168; 0; 1] true 0 10)); Removed 1; Expiry None; Count 1].
Proof.
  rewrite (route_table_refines_list (H := ipv4_kind) 2 route_script); [by vm_compute | lia | | by vm_compute].
  unfold route_script, call_ok, bytes_ok. repeat apply Forall_cons_2; try done; repeat split; by repeat apply Forall_cons_2.
Defined.

Lemma each_in t r : r ∈ RouteTable.each t <-> exists s, s ∈ RouteTable.slots_ t /\ RouteTable.Slot.used s = true /\ RouteTable.Slot.route s = r.
Proof.
  unfold RouteTable.each. rewrite list_elem_of_fmap. setoid_rewrite elem_of_filter_bool. naive_solver.
Qed.

(** lookup() is the longest prefix match over the routes the table holds:
    it answers with an unexpired route that agrees with the destination on the
    first bits of its length, and no other such route has a longer prefix, or
    the same length and a lower metric; it reports not_found exactly when no
    route qualifies. *)
Theorem route_lookup_longest_prefix `{AddressKind} t destination now :
  Forall route_ok (RouteTable.each t) -> bytes_ok destination -> zlen destination = address_size ->
  let candidate r := r ∈ RouteTable.each t /\ now < Route.expires r /\ agree (Route.prefix r) destination (Route.length r) in
  match RouteTable.lookup t destination now with
  | Ok a => exists r, candidate r /\ a = RouteTable.answer destination r /\
      forall r', candidate r' -> Route.length r' < Route.length r \/ Route.length r' = Route.length r /\ Route.metric r <= Route.metric r'
  | Err e => e = StatusCode.not_found /\ forall r, ~ candidate r
  end.
Proof.
  intros Hok Hd Hz candidate. rewrite Forall_forall in Hok.
  assert (forall s, s ∈ RouteTable.slots_ t -> RouteTable.Slot.used s = true ->
    RouteTable.passed_over destination now s = false <-> candidate (RouteTable.Slot.route s)) as Hc.
  { intros s Hs Hu. assert (RouteTable.Slot.route s ∈ RouteTable.each t) as He by (apply each_in; by exists s).
    destruct (Hok _ He) as (Hb & Hl & Hn). unfold RouteTable.passed_over, candidate. rewrite Hu. cbn [negb orb].
    rewrite orb_false_iff, negb_false_iff, Z.leb_gt, prefix_match_bits; [tauto | done | done | by rewrite Hl | unfold RouteTable.width in Hn; lia]. }
  unfold RouteTable.lookup. pose proof (lookup_loop destination now (RouteTable.slots_ t) None) as Hloop.
  destruct (foldl _ None _) as [b |].
  - destruct Hloop as ([? | [Hb Hp]] & _ & Hmax); [done |]. assert (RouteTable.Slot.used b = true) as Hu by (unfold RouteTable.passed_over in Hp; by destruct (RouteTable.Slot.used b)).
    exists (RouteTable.Slot.route b). split; [by apply Hc |]. split; [done |]. intros r' Hr'. pose proof Hr' as [Hin _].
    apply each_in in Hin as (s & Hs & Hus & <-). rewrite Forall_forall in Hmax. specialize (Hmax s Hs ltac:(by apply Hc)). apply better_false in Hmax. lia.
  - split; [done |]. destruct Hloop as [_ Hall]. rewrite Forall_forall in Hall. intros r Hr. pose proof Hr as [Hin _].
    apply each_in in Hin as (s & Hs & Hus & <-). specialize (Hall s Hs). cbn in Hall. apply (Hc s Hs Hus) in Hr. congruence.
Qed.

Lemma longest_prefix_witness :
  let t := (run_call (H := ipv4_kind) (RouteTable.new (H := ipv4_kind) 2) (Add (Route.mk [10; 1; 2; 3] 8 None 2 5 RouteOrigin.connected 100))).1 in
  exists r, r ∈ RouteTable.each t /\ RouteTable.lookup t [10; 9; 9; 9] 50 = Ok (RouteTable.answer [10; 9; 9; 9] r).
Proof.
  intros t. assert (RouteTable.each t = [Route.mk [10; 0; 0; 0] 8 None 2 5 RouteOrigin.connected 100]) as He by (by vm_compute).
  pose proof (route_lookup_longest_prefix (H := ipv4_kind) t [10; 9; 9; 9] 50) as Hl.
  assert (RouteTable.lookup t [10; 9; 9; 9] 50 = Ok (RouteLookup.mk 2 [10; 9; 9; 9] false 8 5)) as Ha by (by vm_compute). rewrite Ha in *.
  destruct Hl as (r & [Hin _] & Hr & _).
  - rewrite He. apply Forall_cons_2; [| done]. split_and!; [by repeat apply Forall_cons_2 | done ..].
  - by repeat apply Forall_cons_2.
  - done.
  - exists r. split; [exact Hin | by rewrite Hr].
Defined.
