(* ===== verification/Congestion.v ===== *)
(** * Congestion control (include/ok/net/tcp_congestion.hpp)

    NewReno: the congestion window and the slow-start threshold of a TCP
    connection, in 32-bit arithmetic with the wrap-around written out.
    acknowledged() divides by the window; the division by 0 is [None].  The
    concept CongestionControl is the class [CongestionControl]. *)

From S2P Require Import Prelude Epoch.

Class CongestionControl (Policy : Type) := {
  start : Policy -> Z -> Policy;
  acknowledged : Policy -> Z -> Z -> option Policy;
  enter_recovery : Policy -> Z -> Z -> Policy;
  duplicate : Policy -> Z -> Policy;
  partial : Policy -> Z -> Z -> Policy;
  exit_recovery : Policy -> Z -> Z -> Policy;
  timeout : Policy -> Z -> Z -> Policy;
  window : Policy -> Z;
  threshold : Policy -> Z
}.

Module NewReno.
Record t := mk { cwnd_ : Z; ssthresh_ : Z }.

Definition new : t := mk 0 u32_max.

Definition half (flight mss : Z) : Z := if u32_wrap (2 * mss) <? flight / 2 then flight / 2 else u32_wrap (2 * mss).
Definition grow (p : t) (bytes : Z) : t :=
  mk (if u32_max - bytes <? cwnd_ p then u32_max else cwnd_ p + bytes) (ssthresh_ p).

(** The old windows are overwritten. *)
Definition start_ (_ : t) (mss : Z) : t :=
  let limit := if u32_wrap (2 * mss) <? 4380 then 4380 else u32_wrap (2 * mss) in
  mk (if u32_wrap (4 * mss) <? limit then u32_wrap (4 * mss) else limit) u32_max.

Definition acknowledged_ (p : t) (bytes mss : Z) : option t :=
  if cwnd_ p <? ssthresh_ p then Some (grow p (if bytes <? mss then bytes else mss))
  else if cwnd_ p =? 0 then None
  else
    let step := u32_wrap (mss * mss / cwnd_ p) in
    Some (grow p (if step =? 0 then 1 else step)).

Definition enter_recovery_ (p : t) (flight mss : Z) : t :=
  grow (mk (half flight mss) (half flight mss)) (u32_wrap (3 * mss)).
Definition duplicate_ (p : t) (mss : Z) : t := grow p mss.
Definition partial_ (p : t) (bytes mss : Z) : t :=
  grow (mk (if bytes <? cwnd_ p then cwnd_ p - bytes else 0) (ssthresh_ p)) mss.
Definition exit_recovery_ (p : t) (flight mss : Z) : t :=
  let pipe := u32_wrap ((if mss <? flight then flight else mss) + mss) in
  mk (if ssthresh_ p <? pipe then ssthresh_ p else pipe) (ssthresh_ p).
Definition timeout_ (p : t) (flight mss : Z) : t := mk mss (half flight mss).

#[global] Instance control : CongestionControl t := {
  start := start_; acknowledged := acknowledged_; enter_recovery := enter_recovery_; duplicate := duplicate_;
  partial := partial_; exit_recovery := exit_recovery_; timeout := timeout_; window := cwnd_; threshold := ssthresh_
}.
End NewReno.

(** ** Events of a connection with one segment size *)
Inductive event :=
  | Acknowledged (bytes : Z) | Third (flight : Z) | Duplicate | Partial (bytes : Z) | Recovered (flight : Z) | Timeout (flight : Z).

Section Policy.
Context {Policy : Type} `{CongestionControl Policy} (mss : Z).
Definition on (p : Policy) (e : event) : option Policy :=
  match e with
  | Acknowledged bytes => acknowledged p bytes mss
  | Third flight => Some (enter_recovery p flight mss)
  | Duplicate => Some (duplicate p mss)
  | Partial bytes => Some (partial p bytes mss)
  | Recovered flight => Some (exit_recovery p flight mss)
  | Timeout flight => Some (timeout p flight mss)
  end.
Fixpoint history (p : Policy) (es : list event) : option Policy :=
  match es with [] => Some p | e :: es => match on p e with Some p => history p es | None => None end end.
End Policy.

(** Sizes of the types of the code; data in flight is at most [2 ^ 31]. *)
Definition event_ok (e : event) : Prop :=
  match e with
  | Acknowledged bytes | Partial bytes => 0 <= bytes < 2 ^ 32
  | Third flight | Recovered flight | Timeout flight => 0 <= flight <= 2 ^ 31
  | Duplicate => True
  end.

Definition segment_ok (mss : Z) : Prop := 1 <= mss < 65536.

(** The window holds a segment, the threshold two. *)
Definition windows_ok (mss : Z) (p : NewReno.t) : Prop :=
  mss <= NewReno.cwnd_ p <= u32_max /\ 2 * mss <= NewReno.ssthresh_ p <= u32_max.

Ltac windows :=
  unfold windows_ok, segment_ok, NewReno.half, NewReno.grow, u32_wrap, u32_max in *; cbn [NewReno.cwnd_ NewReno.ssthresh_] in *;
  change (2 ^ 32 - 1) with 4294967295 in *; change (2 ^ 32) with 4294967296 in *; change (2 ^ 31) with 2147483648 in *;
  repeat match goal with |- context [?x mod 4294967296] => rewrite (Z.mod_small x 4294967296) by lia end;
  repeat match goal with |- context [?x <? ?y] => destruct (Z.ltb_spec x y) end.

Lemma start_ok p mss : segment_ok mss -> windows_ok mss (start p mss).
Proof. intros Hm. cbn [start NewReno.control]. unfold NewReno.start_. windows; lia. Qed.

Lemma on_ok mss p e : segment_ok mss -> windows_ok mss p -> event_ok e ->
  exists p', on mss p e = Some p' /\ windows_ok mss p'.
Proof.
  intros Hm Hp He. destruct p as [cwnd ssthresh]. destruct e as [bytes | flight | | bytes | flight | flight]; cbn [on acknowledged enter_recovery duplicate partial exit_recovery timeout NewReno.control event_ok] in *.
  - unfold NewReno.acknowledged_. cbn [NewReno.cwnd_ NewReno.ssthresh_]. assert (0 <= bytes < 4294967296) by done.
    case_cond; [eexists; split; [done |]; windows; lia |]. assert (0 < cwnd) by (windows; lia). cmp.
    eexists. split; [done |]. set (step := if _ =? 0 then _ else _). assert (0 <= step) by (subst step; case_cond; [lia | apply Z.mod_pos_bound; lia]).
    windows; lia.
  - eexists. split; [done |]. unfold NewReno.enter_recovery_. assert (flight / 2 <= 2147483648) by dlia. windows; lia.
  - eexists. split; [done |]. unfold NewReno.duplicate_. windows; lia.
  - eexists. split; [done |]. unfold NewReno.partial_. assert (0 <= bytes < 4294967296) by done. windows; lia.
  - eexists. split; [done |]. unfold NewReno.exit_recovery_. assert (0 <= flight <= 2147483648) by done. destruct (Z.ltb_spec mss flight); windows; lia.
  - eexists. split; [done |]. unfold NewReno.timeout_. assert (flight / 2 <= 2147483648) by dlia. windows; lia.
Qed.

(** What a connection relies on: a policy answers every event of a connection
    with the segment size it was started with. *)
Class CongestionLaws (Policy : Type) `{CongestionControl Policy} := {
  policy_ok : Z -> Policy -> Prop;
  law_start p mss : segment_ok mss -> policy_ok mss (start p mss);
  law_on mss p e : segment_ok mss -> policy_ok mss p -> event_ok e -> exists p', on mss p e = Some p' /\ policy_ok mss p'
}.
#[global] Instance newreno_laws : CongestionLaws NewReno.t := {
  policy_ok := windows_ok; law_start := start_ok; law_on := on_ok
}.

Lemma history_ok mss es : segment_ok mss -> Forall event_ok es -> forall p, windows_ok mss p ->
  exists p', history mss p es = Some p' /\ windows_ok mss p'.
Proof.
  intros Hm. induction 1 as [| e es He _ IH]; intros p Hp; [by exists p |]. cbn [history].
  destruct (on_ok mss p e Hm Hp He) as (p' & -> & Hp'). by apply IH.
Qed.

(** Slow start adds at most a segment per acknowledgment, congestion avoidance
    about a segment per window. *)
Lemma acknowledged_growth mss p bytes : segment_ok mss -> windows_ok mss p -> 0 <= bytes < 2 ^ 32 ->
  exists p', acknowledged p bytes mss = Some p' /\ threshold p' = threshold p /\
    window p <= window p' <= window p + (if window p <? threshold p then Z.min bytes mss else Z.max 1 (mss * mss / window p)).
Proof.
  intros Hm Hp Hb. destruct p as [cwnd ssthresh]. cbn [acknowledged threshold window NewReno.control NewReno.cwnd_ NewReno.ssthresh_].
  unfold NewReno.acknowledged_. cbn [NewReno.cwnd_ NewReno.ssthresh_]. assert (0 <= bytes < 4294967296) as Hb' by done. assert (0 < cwnd) as Hc by (windows; lia).
  case_cond; [eexists; split; [done |]; split; [done |]; destruct (Z.ltb_spec bytes mss); windows; lia |]. rewrite (proj2 (Z.eqb_neq cwnd 0)) by lia.
  eexists. split; [done |]. split; [done |]. assert (0 <= mss * mss / cwnd < 4294967296) as Hs.
  { windows. assert (0 <= mss * mss < 4294967296) by nia. split; [apply Z.div_pos; lia |]. apply Z.div_lt_upper_bound; nia. }
  unfold u32_wrap. rewrite Z.mod_small by done. set (q := mss * mss / cwnd) in *. clearbody q.
  destruct (Z.eqb_spec q 0); windows; lia.
Qed.

(** C29: NewReno in every history of events of a connection with a 16-bit segment
    size and at most 2^31 bytes in flight: no call divides by
    0, the window always admits a segment and the threshold two, and neither
    wraps; an acknowledgment grows the window by at most the acknowledged bytes
    or a segment in slow start and by a segment's share of the window, or one
    byte, after it; the third duplicate and a timeout halve the threshold to the
    data in flight, but not below two segments, and a timeout restarts from one
    segment; leaving recovery the window is at most the threshold. *)
Theorem newreno_bounds mss es flight bytes : segment_ok mss -> Forall event_ok es -> 0 <= flight <= 2 ^ 31 -> 0 <= bytes < 2 ^ 32 ->
  exists p, history mss (start NewReno.new mss) es = Some p /\ windows_ok mss p /\
    (exists p', acknowledged p bytes mss = Some p' /\ threshold p' = threshold p /\
       window p <= window p' <= window p + (if window p <? threshold p then Z.min bytes mss else Z.max 1 (mss * mss / window p))) /\
    threshold (enter_recovery p flight mss) = Z.max (flight / 2) (2 * mss) /\
    window (enter_recovery p flight mss) = threshold (enter_recovery p flight mss) + 3 * mss /\
    threshold (timeout p flight mss) = Z.max (flight / 2) (2 * mss) /\ window (timeout p flight mss) = mss /\
    window (exit_recovery p flight mss) = Z.min (threshold p) (Z.max flight mss + mss).
Proof.
  intros Hm Hes Hf Hb. destruct (history_ok mss es Hm Hes _ (start_ok NewReno.new mss Hm)) as (p & Hh & Hp). exists p.
  split; [done |]. split; [done |]. split; [by apply acknowledged_growth |]. assert (0 <= flight <= 2147483648) as Hf' by done.
  assert (flight / 2 <= 1073741824) by dlia. cbn [threshold enter_recovery window timeout exit_recovery NewReno.control].
  unfold NewReno.enter_recovery_, NewReno.timeout_, NewReno.exit_recovery_. destruct p as [cwnd ssthresh].
  assert (NewReno.half flight mss = Z.max (flight / 2) (2 * mss)) as -> by (windows; lia).
  split_and!; try done; [windows; lia | destruct (Z.ltb_spec mss flight); windows; lia].
Qed.

Definition sample_events : list event := [Acknowledged 1460; Third 8000; Duplicate; Recovered 3000; Timeout 6000].

Lemma newreno_witness : exists p, history 1460 (start NewReno.new 1460) sample_events = Some p /\ 1460 <= window p /\ 2920 <= threshold p.
Proof.
  assert (Forall event_ok sample_events) as He by (unfold sample_events; repeat apply Forall_cons_2; cbn [event_ok]; lia || constructor).
  destruct (newreno_bounds 1460 sample_events 0 0 ltac:(unfold segment_ok; lia) He ltac:(lia) ltac:(lia)) as (p & Hp & [[Hw _] [Ht _]] & _).
  exists p. split; [exact Hp |]. split; [exact Hw | exact Ht].
Defined.
