(* ===== verification/Neighbour.v ===== *)
(** * The neighbour cache (include/ok/net/neighbour.hpp)

    Link-layer addresses of neighbours, with the states of RFC 4861, and the
    packets held for neighbours that are not resolved yet.  An entry or a packet
    slot the code points to is its index; an address is its list of bytes.  The
    sink of flush() is a function on an arbitrary world. *)

From S2P Require Import Prelude Epoch Wire Ip Route.

Module NeighbourState.
Inductive t := incomplete | reachable | stale | delay | probe | permanent.
#[global] Instance t_eq_dec : EqDecision t.
Proof. solve_decision. Defined.
End NeighbourState.

Module NeighbourTiming.
Record t := mk { reachable_ms : Z; retransmit_ms : Z; delay_ms : Z; multicast_probes : Z; unicast_probes : Z }.
Definition default_timing : t := mk 30000 1000 5000 3 3.
End NeighbourTiming.

Module NeighbourUpdate.
Inductive t := announcement | advertisement.
End NeighbourUpdate.
Module NeighbourAdvertisement.
Record t := mk { solicited : bool; override_flag : bool; router : bool }.
End NeighbourAdvertisement.
Module Solicitation.
Record t := mk { target : Bytes; unicast : option Bytes }.
End Solicitation.
Module NeighbourSnapshot.
Record t := mk { address : Bytes; mac : Bytes; state : NeighbourState.t; router : bool; probes : Z; deadline : Z; pending : Z }.
End NeighbourSnapshot.
Module NeighbourStats.
Record t := mk { resolved : Z; failed : Z; evicted : Z; pending_dropped : Z; ignored : Z }.
End NeighbourStats.

Module NeighbourCache.
Module Entry.
Record t := mk {
  used : bool; router : bool; address : Bytes; mac : Bytes; state : NeighbourState.t; probes : Z; deadline : Z; used_at : Z
}.
Definition with_used_at (e : t) v := mk (used e) (router e) (address e) (mac e) (state e) (probes e) (deadline e) v.
Definition with_state (e : t) v := mk (used e) (router e) (address e) (mac e) v (probes e) (deadline e) (used_at e).
Definition with_mac (e : t) v := mk (used e) (router e) (address e) v (state e) (probes e) (deadline e) (used_at e).
Definition with_router (e : t) v := mk (used e) v (address e) (mac e) (state e) (probes e) (deadline e) (used_at e).
Definition with_probes (e : t) v := mk (used e) (router e) (address e) (mac e) (state e) v (deadline e) (used_at e).
Definition with_deadline (e : t) v := mk (used e) (router e) (address e) (mac e) (state e) (probes e) v (used_at e).
End Entry.

Module Packet.
Record t := mk { used : bool; address : Bytes; length : Z; order : Z; bytes : Bytes }.
Definition release (p : t) : t := mk false (address p) (length p) (order p) (bytes p).
End Packet.

Record t := mk {
  timing_ : NeighbourTiming.t; entries_ : list Entry.t; pending_ : list Packet.t; order_ : Z; stats_ : NeighbourStats.t
}.
Definition with_timing (c : t) v := mk v (entries_ c) (pending_ c) (order_ c) (stats_ c).
Definition with_entries (c : t) v := mk (timing_ c) v (pending_ c) (order_ c) (stats_ c).
Definition with_pending (c : t) v := mk (timing_ c) (entries_ c) v (order_ c) (stats_ c).
Definition with_stats (c : t) v := mk (timing_ c) (entries_ c) (pending_ c) (order_ c) v.

#[global] Instance entry_inhabited : Inhabited Entry.t :=
  populate (Entry.mk false false [] [] NeighbourState.incomplete 0 0 0).
#[global] Instance packet_inhabited : Inhabited Packet.t := populate (Packet.mk false [] 0 0 []).

Section Operations.
Context `{AddressKind} (Capacity Pending PacketBytes : Z).

Definition no_address : Bytes := replicate (Z.to_nat address_size) 0.
Definition no_entry : Entry.t := Entry.mk false false no_address (replicate 6 0) NeighbourState.incomplete 0 0 0.
Definition no_packet : Packet.t := Packet.mk false no_address 0 0 (replicate (Z.to_nat PacketBytes) 0).
Definition per_neighbour_pending : Z := if Pending <? 3 then Pending else 3.

Definition new (timing : NeighbourTiming.t) : t :=
  mk timing (replicate (Z.to_nat Capacity) no_entry) (replicate (Z.to_nat Pending) no_packet) 0 (NeighbourStats.mk 0 0 0 0 0).

Definition set_reachable_time (c : t) (ms : Z) : t :=
  let v := timing_ c in
  if negb (ms =? 0) then with_timing c (NeighbourTiming.mk ms (NeighbourTiming.retransmit_ms v) (NeighbourTiming.delay_ms v)
                                          (NeighbourTiming.multicast_probes v) (NeighbourTiming.unicast_probes v))
  else c.
Definition set_retransmit_time (c : t) (ms : Z) : t :=
  let v := timing_ c in
  if negb (ms =? 0) then with_timing c (NeighbourTiming.mk (NeighbourTiming.reachable_ms v) ms (NeighbourTiming.delay_ms v)
                                          (NeighbourTiming.multicast_probes v) (NeighbourTiming.unicast_probes v))
  else c.

Definition size (c : t) : Z := zsum (fun e => Z.b2z (Entry.used e)) (entries_ c).
Definition pending (c : t) : Z := zsum (fun p => Z.b2z (Packet.used p)) (pending_ c).

(** add() of a statistic, and its updates. *)
Definition add (value : Z) : Z := if negb (value =? u64_max) then value + 1 else value.
Definition count_resolved (c : t) : t :=
  let s := stats_ c in
  with_stats c (NeighbourStats.mk (add (NeighbourStats.resolved s)) (NeighbourStats.failed s) (NeighbourStats.evicted s)
                  (NeighbourStats.pending_dropped s) (NeighbourStats.ignored s)).
Definition count_failed (c : t) : t :=
  let s := stats_ c in
  with_stats c (NeighbourStats.mk (NeighbourStats.resolved s) (add (NeighbourStats.failed s)) (NeighbourStats.evicted s)
                  (NeighbourStats.pending_dropped s) (NeighbourStats.ignored s)).
Definition count_evicted (c : t) : t :=
  let s := stats_ c in
  with_stats c (NeighbourStats.mk (NeighbourStats.resolved s) (NeighbourStats.failed s) (add (NeighbourStats.evicted s))
                  (NeighbourStats.pending_dropped s) (NeighbourStats.ignored s)).
Definition count_dropped (c : t) : t :=
  let s := stats_ c in
  with_stats c (NeighbourStats.mk (NeighbourStats.resolved s) (NeighbourStats.failed s) (NeighbourStats.evicted s)
                  (add (NeighbourStats.pending_dropped s)) (NeighbourStats.ignored s)).
Definition count_ignored (c : t) : t :=
  let s := stats_ c in
  with_stats c (NeighbourStats.mk (NeighbourStats.resolved s) (NeighbourStats.failed s) (NeighbourStats.evicted s)
                  (NeighbourStats.pending_dropped s) (add (NeighbourStats.ignored s))).

Definition deadline (now delay : Z) : Z := if u64_max - delay <? now then u64_max else now + delay.

Definition lookup (c : t) (address : Bytes) : option Z :=
  first_index_of (fun i => Entry.used (entries_ c).[i] && bool_decide (Entry.address (entries_ c).[i] = address)) (zlen (entries_ c)).
Definition holds (address : Bytes) (p : Packet.t) : bool := Packet.used p && bool_decide (Packet.address p = address).
Definition held (c : t) (address : Bytes) : Z := zsum (fun p => Z.b2z (holds address p)) (pending_ c).

(** The oldest packet, of one address or of all. *)
Definition oldest (c : t) (address : option Bytes) : option Z :=
  foldl (fun found i =>
    let p := (pending_ c).[i] in
    if Packet.used p && match address with None => true | Some a => bool_decide (Packet.address p = a) end &&
       match found with None => true | Some f => Packet.order p <? Packet.order (pending_ c).[f] end
    then Some i else found) None (indices (zlen (pending_ c))).

Definition set_entry (c : t) (i : Z) (e : Entry.t) : t := with_entries c (entries_ c).[i := e].

Definition to (c : t) (i : Z) (state : NeighbourState.t) (now : Z) : t :=
  let e := Entry.with_probes (Entry.with_state (entries_ c).[i] state) 0 in
  set_entry c i (Entry.with_deadline e (if bool_decide (state = NeighbourState.reachable)
                                        then deadline now (NeighbourTiming.reachable_ms (timing_ c)) else u64_max)).

(** [for (auto &p : pending_)] of drop(), from slot [i] on. *)
Fixpoint drop_packets (n : nat) (c : t) (address : Bytes) (i : Z) : t :=
  match n with
  | O => c
  | S n' =>
      let p := (pending_ c).[i] in
      let c := if holds address p then count_dropped (with_pending c (pending_ c).[i := Packet.release p]) else c in
      drop_packets n' c address (i + 1)
  end.
Definition drop (c : t) (i : Z) : t :=
  set_entry (drop_packets (length (pending_ c)) c (Entry.address (entries_ c).[i]) 0) i no_entry.

(** The entry create() may evict: dynamic, resolved, without packets, least
    recently used. *)
Definition evictable (c : t) : option Z :=
  foldl (fun slot i =>
    let e := (entries_ c).[i] in
    if negb (bool_decide (Entry.state e = NeighbourState.permanent)) && negb (bool_decide (Entry.state e = NeighbourState.incomplete)) &&
       (held c (Entry.address e) =? 0) && match slot with None => true | Some s => Entry.used_at e <? Entry.used_at (entries_ c).[s] end
    then Some i else slot) None (indices (zlen (entries_ c))).

Definition create (c : t) (address : Bytes) (now : Z) : t * result Z :=
  let slot := match first_index_of (fun i => negb (Entry.used (entries_ c).[i])) (zlen (entries_ c)) with
              | Some i => Some i
              | None => evictable c
              end in
  match slot with
  | None => (c, Err StatusCode.no_memory)
  | Some i =>
      let c := if Entry.used (entries_ c).[i] then drop (count_evicted c) i else c in
      let e := (entries_ c).[i] in
      (set_entry c i (Entry.mk true (Entry.router e) address (Entry.mac e) (Entry.state e) (Entry.probes e) (Entry.deadline e) now), Ok i)
  end.

Definition snapshot (c : t) (e : Entry.t) : NeighbourSnapshot.t :=
  NeighbourSnapshot.mk (Entry.address e) (Entry.mac e) (Entry.state e) (Entry.router e) (Entry.probes e) (Entry.deadline e)
                       (held c (Entry.address e)).
Definition find (c : t) (address : Bytes) : option NeighbourSnapshot.t :=
  match lookup c address with None => None | Some i => Some (snapshot c (entries_ c).[i]) end.
Definition each (c : t) : list NeighbourSnapshot.t := snapshot c <$> List.filter Entry.used (entries_ c).

Definition resolve (c : t) (address : Bytes) (now : Z) : t * result Bytes :=
  match lookup c address with
  | None =>
      match create c address now with
      | (c, Err e) => (c, Err e)
      | (c, Ok i) =>
          (set_entry c i (Entry.with_deadline (Entry.with_state (entries_ c).[i] NeighbourState.incomplete) now), Err StatusCode.would_block)
      end
  | Some i =>
      let c := set_entry c i (Entry.with_used_at (entries_ c).[i] now) in
      if bool_decide (Entry.state (entries_ c).[i] = NeighbourState.incomplete) then (c, Err StatusCode.would_block)
      else
        let c := if bool_decide (Entry.state (entries_ c).[i] = NeighbourState.stale)
                 then set_entry c i (Entry.with_deadline (Entry.with_state (entries_ c).[i] NeighbourState.delay)
                                                         (deadline now (NeighbourTiming.delay_ms (timing_ c))))
                 else c in
        (c, Ok (Entry.mac (entries_ c).[i]))
  end.

(** The slot hold() fills. *)
Definition hold_slot (c : t) (address : Bytes) : option Z :=
  let slot := if per_neighbour_pending <=? held c address then oldest c (Some address) else None in
  let slot := match slot with
              | Some i => Some i
              | None => first_index_of (fun i => negb (Packet.used (pending_ c).[i])) (zlen (pending_ c))
              end in
  match slot with Some i => Some i | None => oldest c None end.

Definition hold (c : t) (address packet : Bytes) : t * Status :=
  match lookup c address with
  | None => (c, StatusCode.invalid_argument)
  | Some i =>
      if negb (bool_decide (Entry.state (entries_ c).[i] = NeighbourState.incomplete)) then (c, StatusCode.invalid_argument)
      else if (zlen packet =? 0) || (PacketBytes <? zlen packet) then (c, StatusCode.overflow)
      else
        match hold_slot c address with
        | None => (c, StatusCode.no_memory)
        | Some k =>
            let c := if Packet.used (pending_ c).[k] then count_dropped c else c in
            let order := u64_wrap (order_ c + 1) in
            let p := Packet.mk true address (zlen packet) order (copy_bytes (Packet.bytes (pending_ c).[k]) 0 packet) in
            (mk (timing_ c) (entries_ c) (pending_ c).[k := p] order (stats_ c), StatusCode.ok)
        end
  end.

Definition announce (c : t) (address mac : Bytes) (now : Z) : t * result bool :=
  match lookup c address with
  | None =>
      match create c address now with
      | (c, Err e) => (c, Err e)
      | (c, Ok i) => (to (set_entry c i (Entry.with_mac (entries_ c).[i] mac)) i NeighbourState.stale now, Ok true)
      end
  | Some i =>
      let e := (entries_ c).[i] in
      if bool_decide (Entry.state e = NeighbourState.permanent) then (c, Ok true)
      else if bool_decide (Entry.state e = NeighbourState.incomplete) || negb (bool_decide (Entry.mac e = mac)) then
        let c := if bool_decide (Entry.state e = NeighbourState.incomplete) then count_resolved c else c in
        (to (set_entry c i (Entry.with_mac e mac)) i NeighbourState.stale now, Ok true)
      else (c, Ok true)
  end.

Definition advertise (c : t) (address : Bytes) (mac : option Bytes) (flags : NeighbourAdvertisement.t) (now : Z) : t * result bool :=
  match lookup c address with
  | None => (count_ignored c, Ok false)
  | Some i =>
      let e := (entries_ c).[i] in
      if bool_decide (Entry.state e = NeighbourState.permanent) then (c, Ok true)
      else if bool_decide (Entry.state e = NeighbourState.incomplete) then
        match mac with
        | None => (count_ignored c, Ok false)
        | Some m =>
            let c := count_resolved (set_entry c i (Entry.with_router (Entry.with_mac e m) (NeighbourAdvertisement.router flags))) in
            (to c i (if NeighbourAdvertisement.solicited flags then NeighbourState.reachable else NeighbourState.stale) now, Ok true)
        end
      else
        let changed := match mac with Some m => negb (bool_decide (m = Entry.mac e)) | None => false end in
        if negb (NeighbourAdvertisement.override_flag flags) && changed then
          ((if bool_decide (Entry.state e = NeighbourState.reachable) then to c i NeighbourState.stale now else c), Ok true)
        else
          let c := if changed then set_entry c i (Entry.with_mac e (default [] mac)) else c in
          let c := if NeighbourAdvertisement.solicited flags then to c i NeighbourState.reachable now
                   else if changed then to c i NeighbourState.stale now else c in
          (set_entry c i (Entry.with_router (entries_ c).[i] (NeighbourAdvertisement.router flags)), Ok true)
  end.

Definition update (c : t) (address : Bytes) (mac : option Bytes) (kind : NeighbourUpdate.t) (flags : NeighbourAdvertisement.t) (now : Z)
    : t * result bool :=
  if match mac with Some m => multicast_address m | None => false end then (count_ignored c, Err StatusCode.invalid_argument)
  else match kind with
       | NeighbourUpdate.announcement => match mac with None => (c, Ok false) | Some m => announce c address m now end
       | NeighbourUpdate.advertisement => advertise c address mac flags now
       end.

Definition confirm (c : t) (address : Bytes) (now : Z) : t :=
  match lookup c address with
  | None => c
  | Some i =>
      let e := (entries_ c).[i] in
      if negb (bool_decide (Entry.state e = NeighbourState.incomplete)) && negb (bool_decide (Entry.state e = NeighbourState.permanent))
      then to c i NeighbourState.reachable now else c
  end.

Definition add_permanent (c : t) (address mac : Bytes) (now : Z) : t * Status :=
  if multicast_address mac then (c, StatusCode.invalid_argument)
  else
    let '(c, slot) := match lookup c address with Some i => (c, Ok i) | None => create c address now end in
    match slot with
    | Err e => (c, e)
    | Ok i =>
        let e := Entry.with_state (Entry.with_mac (entries_ c).[i] mac) NeighbourState.permanent in
        (set_entry c i (Entry.with_probes (Entry.with_deadline e 0) 0), StatusCode.ok)
    end.

Definition remove (c : t) (address : Bytes) : t * Status :=
  match lookup c address with None => (c, StatusCode.not_found) | Some i => (drop c i, StatusCode.ok) end.

(** The case of tick() for an entry that is probed: [capacity] is the size of
    the output, [out] what was reported so far. *)
Definition solicit (c : t) (i now capacity : Z) (out : list Solicitation.t) : t * list Solicitation.t :=
  let e := (entries_ c).[i] in
  let multicast := bool_decide (Entry.state e = NeighbourState.incomplete) in
  if (if multicast then NeighbourTiming.multicast_probes (timing_ c) else NeighbourTiming.unicast_probes (timing_ c)) <=? Entry.probes e
  then (drop (count_failed c) i, out)
  else if zlen out =? capacity then (c, out)
  else
    (set_entry c i (Entry.with_deadline (Entry.with_probes e (u8_wrap (Entry.probes e + 1)))
                                        (deadline now (NeighbourTiming.retransmit_ms (timing_ c)))),
     out ++ [Solicitation.mk (Entry.address e) (if multicast then None else Some (Entry.mac e))]).

Definition tick_entry (now capacity : Z) (s : t * list Solicitation.t) (i : Z) : t * list Solicitation.t :=
  let '(c, out) := s in
  let e := (entries_ c).[i] in
  if negb (Entry.used e) || bool_decide (Entry.state e = NeighbourState.permanent) || (now <? Entry.deadline e) then (c, out)
  else match Entry.state e with
       | NeighbourState.reachable => (to c i NeighbourState.stale now, out)
       | NeighbourState.stale => (set_entry c i (Entry.with_deadline e u64_max), out)
       | NeighbourState.delay =>
           solicit (set_entry c i (Entry.with_probes (Entry.with_state e NeighbourState.probe) 0)) i now capacity out
       | NeighbourState.probe | NeighbourState.incomplete => solicit c i now capacity out
       | NeighbourState.permanent => (c, out)
       end.
Definition tick (c : t) (now capacity : Z) : t * list Solicitation.t :=
  foldl (tick_entry now capacity) (c, []) (indices (zlen (entries_ c))).

Definition next_deadline (c : t) : option Z :=
  foldl (fun next e =>
    if Entry.used e && negb (bool_decide (Entry.state e = NeighbourState.permanent)) && negb (bool_decide (Entry.state e = NeighbourState.stale)) &&
       match next with None => true | Some d => Entry.deadline e <? d end
    then Some (Entry.deadline e) else next) None (entries_ c).

(** The oldest packet whose neighbour is resolved. *)
Definition ready (c : t) (p : Packet.t) : bool :=
  Packet.used p &&
  match lookup c (Packet.address p) with
  | None => false
  | Some i => negb (bool_decide (Entry.state (entries_ c).[i] = NeighbourState.incomplete))
  end.
Definition next_packet (c : t) : option Z :=
  foldl (fun next k =>
    let p := (pending_ c).[k] in
    if ready c p && match next with None => true | Some f => Packet.order p <? Packet.order (pending_ c).[f] end then Some k else next)
  None (indices (zlen (pending_ c))).

(** The loop of flush(); [None] when the fuel does not suffice. *)
Fixpoint flush_loop {W : Type} (sink : W -> Bytes -> Bytes -> Bytes -> W * bool) (n : nat) (c : t) (w : W) (sent : Z) : option (t * W * Z) :=
  match n with
  | O => None
  | S n' =>
      match next_packet c with
      | None => Some (c, w, sent)
      | Some k =>
          let p := (pending_ c).[k] in
          let mac := match lookup c (Packet.address p) with Some i => Entry.mac (entries_ c).[i] | None => [] end in
          let '(w, taken) := sink w mac (Packet.address p) (first (Packet.bytes p) (Packet.length p)) in
          if negb taken then Some (c, w, sent)
          else flush_loop sink n' (with_pending c (pending_ c).[k := Packet.release p]) w (sent + 1)
      end
  end.
Definition flush {W : Type} (sink : W -> Bytes -> Bytes -> Bytes -> W * bool) (c : t) (w : W) : option (t * W * Z) :=
  flush_loop sink (S (length (pending_ c))) c w 0.
End Operations.
End NeighbourCache.
