(* ===== verification/NeighbourInv.v ===== *)
(** * The neighbour cache: invariant

    Used entries have distinct addresses and unicast link-layer addresses, held
    packets belong to a known neighbour, no neighbour holds more than its
    share, and probes stay within their limits.  Every operation keeps this. *)

From S2P Require Import Prelude Epoch Wire Checksum Ip Route RouteClaims Neighbour.
Import NeighbourCache.

Section Invariant.
Context `{AddressKind} (Capacity Pending PacketBytes : Z) (HC : 0 < Capacity) (HP : 0 < Pending) (HB : 0 < PacketBytes).
Local Notation "'per'" := (per_neighbour_pending Pending).

Definition entry (c : t) (i : Z) : Entry.t := (entries_ c).[i].
Definition packet (c : t) (k : Z) : Packet.t := (pending_ c).[k].

(** The probes of an entry are within the limit of its state. *)
Definition probes_ok (timing : NeighbourTiming.t) (e : Entry.t) : Prop :=
  match Entry.state e with
  | NeighbourState.incomplete => 0 <= Entry.probes e <= NeighbourTiming.multicast_probes timing
  | NeighbourState.probe => 0 <= Entry.probes e <= NeighbourTiming.unicast_probes timing
  | _ => Entry.probes e = 0
  end.
Definition entry_ok (timing : NeighbourTiming.t) (e : Entry.t) : Prop :=
  multicast_address (Entry.mac e) = false /\ probes_ok timing e /\ (Entry.used e = false -> e = no_entry).
Definition timing_ok (timing : NeighbourTiming.t) : Prop :=
  0 <= NeighbourTiming.multicast_probes timing < 256 /\ 0 <= NeighbourTiming.unicast_probes timing < 256.

Record cache_ok (c : t) : Prop := {
  ok_timing : timing_ok (timing_ c);
  ok_entries : zlen (entries_ c) = Capacity;
  ok_pending : zlen (pending_ c) = Pending;
  ok_addresses i j : 0 <= i < Capacity -> 0 <= j < Capacity -> Entry.used (entry c i) = true -> Entry.used (entry c j) = true ->
    Entry.address (entry c i) = Entry.address (entry c j) -> i = j;
  ok_entry i : 0 <= i < Capacity -> entry_ok (timing_ c) (entry c i);
  ok_known k : 0 <= k < Pending -> Packet.used (packet c k) = true ->
    exists i, 0 <= i < Capacity /\ Entry.used (entry c i) = true /\ Entry.address (entry c i) = Packet.address (packet c k);
  ok_packet k : 0 <= k < Pending -> zlen (Packet.bytes (packet c k)) = PacketBytes /\
    (Packet.used (packet c k) = true -> 0 < Packet.length (packet c k) <= PacketBytes /\ 0 < Packet.order (packet c k) <= order_ c);
  ok_orders k m : 0 <= k < Pending -> 0 <= m < Pending -> Packet.used (packet c k) = true -> Packet.used (packet c m) = true ->
    Packet.order (packet c k) = Packet.order (packet c m) -> k = m;
  ok_held a : held c a <= per;
  ok_order : 0 <= order_ c
}.

Lemma per_pos : 0 < per <= Pending.
Proof. unfold per_neighbour_pending. case_cond; b2p; lia. Qed.

Lemma lookup_cases c a : zlen (entries_ c) = Capacity ->
  match lookup c a with
  | Some i => 0 <= i < Capacity /\ Entry.used (entry c i) = true /\ Entry.address (entry c i) = a
  | None => forall i, 0 <= i < Capacity -> Entry.used (entry c i) = true -> Entry.address (entry c i) <> a
  end.
Proof.
  intros Hl. unfold lookup. destruct (first_index_of _ _) as [i |] eqn:Hf.
  - apply first_index_some in Hf as [Hi Hf]. apply andb_true_iff in Hf as [Hu Ha]. rewrite Hl in Hi. by apply bool_decide_eq_true in Ha.
  - intros i Hi Hu Ha. rewrite <- Hl in Hi. pose proof (first_index_none _ _ i Hf Hi) as Hx. cbn in Hx. unfold entry in *. rewrite Hu in Hx.
    by apply bool_decide_eq_false in Hx.
Qed.

(** ** Pieces of the operations *)
Lemma ok_stats c s : cache_ok c -> cache_ok (with_stats c s).
Proof. intros []. by split. Qed.

Lemma entry_set c i j e : zlen (entries_ c) = Capacity -> 0 <= i < Capacity -> 0 <= j ->
  entry (set_entry c i e) j = if j =? i then e else entry c j.
Proof. intros Hl Hi Hj. unfold entry, set_entry. cbn [entries_ with_entries]. apply aget_aset; [by rewrite Hl | done]. Qed.

(** Changing a used entry that keeps its address. *)
Lemma ok_set_entry c i e : cache_ok c -> 0 <= i < Capacity -> Entry.used (entry c i) = true -> Entry.used e = true ->
  Entry.address e = Entry.address (entry c i) -> multicast_address (Entry.mac e) = false -> probes_ok (timing_ c) e -> cache_ok (set_entry c i e).
Proof.
  intros Hc Hi Hu Hue Ha Hm Hp. pose proof (ok_entries c Hc) as Hl.
  assert (forall j, 0 <= j -> Entry.used (entry (set_entry c i e) j) = Entry.used (entry c j) /\
    Entry.address (entry (set_entry c i e) j) = Entry.address (entry c j)) as Hsame.
  { intros j Hj. rewrite entry_set by done. destruct (Z.eqb_spec j i) as [-> |]; [by rewrite Hue, Hu | done]. }
  destruct Hc. split; try done.
  - unfold set_entry. cbn [entries_ with_entries]. by rewrite zlen_aset.
  - intros j k Hj Hk. rewrite (proj1 (Hsame j ltac:(lia))), (proj2 (Hsame j ltac:(lia))), (proj1 (Hsame k ltac:(lia))), (proj2 (Hsame k ltac:(lia))). auto.
  - intros j Hj. rewrite entry_set by lia. destruct (Z.eqb_spec j i) as [-> |]; [| by apply ok_entry0]. split_and!; [done | done | congruence].
  - intros k Hk Hpu. destruct (ok_known0 k Hk Hpu) as (j & Hj & Huj & Haj). exists j. by rewrite (proj1 (Hsame j ltac:(lia))), (proj2 (Hsame j ltac:(lia))).
Qed.

(** drop() releases the packets of the address and nothing else. *)
Lemma drop_packets_spec n : forall c a i, 0 <= i -> i + Z.of_nat n = zlen (pending_ c) ->
  let c' := drop_packets n c a i in
  entries_ c' = entries_ c /\ timing_ c' = timing_ c /\ order_ c' = order_ c /\ zlen (pending_ c') = zlen (pending_ c) /\
  forall k, 0 <= k < zlen (pending_ c) -> packet c' k = if (i <=? k) && holds a (packet c k) then Packet.release (packet c k) else packet c k.
Proof.
  induction n as [| n IH]; intros c a i Hi Hn; cbn [drop_packets].
  - split_and!; try done. intros k Hk. by rewrite (proj2 (Z.leb_gt i k)) by lia.
  - set (c1 := if holds a _ then _ else c).
    assert (entries_ c1 = entries_ c /\ timing_ c1 = timing_ c /\ order_ c1 = order_ c /\ zlen (pending_ c1) = zlen (pending_ c)) as (He & Ht & Ho & Hl)
      by (unfold c1; case_cond; [by cbn; rewrite zlen_aset | done]).
    assert (forall k, 0 <= k < zlen (pending_ c) -> packet c1 k = if (k =? i) && holds a (packet c k) then Packet.release (packet c k) else packet c k) as Hk1.
    { intros k Hk. unfold c1. fold (packet c i). destruct (holds a (packet c i)) eqn:Hh.
      - unfold packet at 1. cbn [pending_ with_pending count_dropped with_stats]. rewrite aget_aset by lia. fold (packet c k).
        destruct (Z.eqb_spec k i) as [-> |]; [by rewrite Hh | done].
      - destruct (Z.eqb_spec k i) as [-> |]; [by rewrite Hh | done]. }
    destruct (IH c1 a (i + 1)) as (He' & Ht' & Ho' & Hl' & Hk'); [lia | lia |].
    split_and!; [congruence | congruence | congruence | congruence |]. intros k Hk. rewrite Hk', Hk1 by lia.
    destruct (Z.eqb_spec k i) as [-> | Hne]; cbn [andb].
    + rewrite (proj2 (Z.leb_gt (i + 1) i)), (proj2 (Z.leb_le i i)) by lia. cbn [andb]. by destruct (holds a (packet c i)).
    + destruct (Z.leb_spec (i + 1) k), (Z.leb_spec i k); try lia; done.
Qed.

Lemma held_le c c' a : zlen (pending_ c') = zlen (pending_ c) ->
  (forall k, 0 <= k < zlen (pending_ c) -> holds a (packet c' k) = true -> holds a (packet c k) = true) -> held c' a <= held c a.
Proof.
  intros Hl Hk. unfold held. rewrite (zsum_indices _ (pending_ c')), (zsum_indices _ (pending_ c)), Hl. apply zsum_indices_le. intros k Hr. specialize (Hk k Hr). unfold packet in Hk.
  destruct (holds a (pending_ c').[k]); [rewrite Hk by done; done |]. by destruct (holds a (pending_ c).[k]).
Qed.

Lemma drop_spec c i : cache_ok c -> 0 <= i < Capacity ->
  let c' := drop c i in
  timing_ c' = timing_ c /\ order_ c' = order_ c /\ zlen (entries_ c') = Capacity /\ zlen (pending_ c') = Pending /\
  (forall j, 0 <= j -> entry c' j = if j =? i then no_entry else entry c j) /\
  (forall k, 0 <= k < Pending -> packet c' k = if holds (Entry.address (entry c i)) (packet c k) then Packet.release (packet c k) else packet c k).
Proof.
  intros Hc Hi. unfold drop. pose proof (ok_entries c Hc) as Hl. pose proof (ok_pending c Hc) as Hp.
  destruct (drop_packets_spec (length (pending_ c)) c (Entry.address (entry c i)) 0) as (He & Ht & Ho & Hlp & Hk); [done | done |].
  fold (entry c i). set (d := drop_packets _ _ _ _) in *. assert (zlen (entries_ d) = Capacity) as Hd by (by rewrite He).
  split_and!; try done.
  - unfold set_entry. cbn [entries_ with_entries]. by rewrite zlen_aset.
  - cbn [set_entry pending_ with_entries]. by rewrite Hlp.
  - intros j Hj. rewrite entry_set by done. unfold entry. by rewrite He.
  - intros k Hkr. unfold packet. cbn [set_entry pending_ with_entries]. fold (packet d k) (packet c k). rewrite Hk by lia.
    by rewrite (proj2 (Z.leb_le 0 k)) by lia.
Qed.

Lemma no_entry_ok timing : timing_ok timing -> entry_ok timing no_entry.
Proof. intros [? ?]. split_and!; [done | unfold probes_ok; cbn; lia | done]. Qed.

Lemma holds_release a p : holds a (Packet.release p) = false.
Proof. done. Qed.

Lemma ok_drop c i : cache_ok c -> 0 <= i < Capacity -> cache_ok (drop c i).
Proof.
  intros Hc Hi. destruct (drop_spec c i Hc Hi) as (Ht & Ho & Hle & Hlp & He & Hk). set (c' := drop c i) in *. clearbody c'.
  set (a := Entry.address (entry c i)) in *.
  assert (forall k, 0 <= k < Pending -> Packet.used (packet c' k) = true -> packet c' k = packet c k /\ Packet.address (packet c k) <> a /\ Packet.used (packet c k) = true) as Hu.
  { intros k Hkr. rewrite Hk by done. destruct (holds a (packet c k)) eqn:Hh; [done |]. intros Hpu. split; [done |]. split; [| done].
    unfold holds in Hh. rewrite Hpu in Hh. by apply bool_decide_eq_false in Hh. }
  destruct Hc. split; try done; try (by rewrite Ht); try (by rewrite Ho).
  - intros j k Hj Hkr. rewrite !He by lia. destruct (j =? i); [done |]. destruct (k =? i); [done |]. auto.
  - intros j Hj. rewrite Ht, He by lia. destruct (j =? i); [by apply no_entry_ok | auto].
  - intros k Hkr Hpu. destruct (Hu k Hkr Hpu) as (-> & Hne & Hpu'). destruct (ok_known0 k Hkr Hpu') as (j & Hj & Huj & Haj). exists j.
    rewrite He by lia. destruct (Z.eqb_spec j i) as [-> |]; [| done]. by destruct Hne.
  - intros k Hkr. destruct (ok_packet0 k Hkr) as [Hb Hx]. split.
    + rewrite Hk by done. by destruct (holds a (packet c k)).
    + intros Hpu. destruct (Hu k Hkr Hpu) as (-> & _ & Hpu'). rewrite Ho. auto.
  - intros k m Hkr Hm Hpk Hpm. destruct (Hu k Hkr Hpk) as (-> & _ & ?). destruct (Hu m Hm Hpm) as (-> & _ & ?). auto.
  - intros b. etrans; [| apply (ok_held0 b)]. apply held_le; [congruence |]. intros k Hkr. rewrite Hk by lia. by destruct (holds a (packet c k)).
Qed.

(** Filling a free entry. *)
Lemma ok_fill c i e : cache_ok c -> 0 <= i < Capacity -> Entry.used (entry c i) = false ->
  (forall j, 0 <= j < Capacity -> Entry.used (entry c j) = true -> Entry.address (entry c j) <> Entry.address e) ->
  Entry.used e = true -> multicast_address (Entry.mac e) = false -> probes_ok (timing_ c) e -> cache_ok (set_entry c i e).
Proof.
  intros Hc Hi Hf Hnew Hue Hm Hp. pose proof (ok_entries c Hc) as Hl.
  assert (forall j, 0 <= j -> entry (set_entry c i e) j = if j =? i then e else entry c j) as He by (intros j Hj; by apply entry_set).
  destruct Hc. split; try done.
  - unfold set_entry. cbn [entries_ with_entries]. by rewrite zlen_aset.
  - intros j k Hj Hk. rewrite !He by lia. destruct (Z.eqb_spec j i) as [-> |], (Z.eqb_spec k i) as [-> |]; [done | | | auto].
    + intros _ Huk Ha. by destruct (Hnew k Hk Huk).
    + intros Huj _ Ha. by destruct (Hnew j Hj Huj).
  - intros j Hj. rewrite He by lia. destruct (j =? i); [| by apply ok_entry0]. split_and!; [done | done | congruence].
  - intros k Hk Hpu. destruct (ok_known0 k Hk Hpu) as (j & Hj & Huj & Haj). exists j. rewrite He by lia. destruct (Z.eqb_spec j i) as [-> |]; [congruence | done].
Qed.

Lemma fold_choice {A} (f : option A -> A -> bool) l : forall s i, foldl (fun s i => if f s i then Some i else s) s l = Some i ->
  s = Some i \/ i ∈ l /\ exists s, f s i = true.
Proof.
  induction l as [| x l IH]; intros s i Hf; [by left |]. cbn [foldl] in Hf. apply IH in Hf as [Hf | [Hin Hs]]; [| right; split; [by right | done]].
  destruct (f s x) eqn:Hx; [injection Hf as ->; right; split; [by left | by exists s] | by left].
Qed.

Definition fresh (a : Bytes) (now : Z) : Entry.t := Entry.mk true false a (replicate 6 0) NeighbourState.incomplete 0 0 now.

(** create() gives a fresh entry; an evicted one was dynamic. *)
Lemma created_entry_spec c a now : cache_ok c -> lookup c a = None ->
  let '(c', r) := create c a now in
  match r with
  | Err e => c' = c /\ e = StatusCode.no_memory
  | Ok i => 0 <= i < Capacity /\ cache_ok c' /\ timing_ c' = timing_ c /\ order_ c' = order_ c /\ entry c' i = fresh a now /\
      (Entry.used (entry c i) = true -> Entry.state (entry c i) <> NeighbourState.permanent) /\
      forall j, 0 <= j -> j <> i -> entry c' j = entry c j
  end.
Proof.
  intros Hc Hnone. pose proof (lookup_cases c a (ok_entries c Hc)) as Hnew. rewrite Hnone in Hnew. unfold create.
  set (slot := match first_index_of _ _ with Some i => Some i | None => evictable c end).
  assert (match slot with None => True | Some i => 0 <= i < Capacity /\ (Entry.used (entry c i) = true -> Entry.state (entry c i) <> NeighbourState.permanent) end) as Hs.
  { unfold slot. destruct (first_index_of _ _) as [i |] eqn:Hf.
    - apply first_index_some in Hf as [Hi Hu]. rewrite (ok_entries c Hc) in Hi. apply negb_true_iff in Hu. split; [done |]. unfold entry. congruence.
    - destruct (evictable c) as [i |] eqn:He; [| done]. unfold evictable in He. apply fold_choice in He as [He | [Hin [s Hs]]]; [done |].
      apply elem_of_indices in Hin. rewrite (ok_entries c Hc) in Hin. split; [done |]. intros _. fold (entry c i) in Hs.
      rewrite !andb_true_iff, !negb_true_iff in Hs. destruct Hs as [[[Hs _] _] _]. by apply bool_decide_eq_false in Hs. }
  destruct slot as [i |]; [| done]. destruct Hs as [Hi Hperm]. fold (entry c i).
  set (c1 := if Entry.used (entry c i) then _ else c).
  assert (cache_ok c1 /\ timing_ c1 = timing_ c /\ order_ c1 = order_ c /\ entry c1 i = no_entry /\ forall j, 0 <= j -> j <> i -> entry c1 j = entry c j) as (Hok & Ht & Ho & Hei & Hej).
  { unfold c1. destruct (Entry.used (entry c i)) eqn:Hu.
    - assert (cache_ok (count_evicted c)) as Hc' by (by apply ok_stats). destruct (drop_spec (count_evicted c) i Hc' Hi) as (Ht & Ho & _ & _ & He & _).
      split_and!; [by apply ok_drop | done | done | rewrite He by lia; by rewrite Z.eqb_refl |]. intros j Hj Hne. rewrite He by lia. by rewrite (proj2 (Z.eqb_neq j i)) by done.
    - split_and!; try done. by apply (ok_entry c Hc i Hi). }
  clearbody c1. fold (entry c1 i). rewrite Hei. cbn [Entry.router Entry.mac Entry.state Entry.probes Entry.deadline no_entry].
  change (Entry.mk true _ a _ _ _ _ now) with (fresh a now). pose proof (ok_entries c1 Hok) as Hl.
  split_and!; try done; try lia.
  - apply ok_fill; try done; [by rewrite Hei | | destruct (ok_timing c1 Hok); unfold probes_ok; cbn; lia].
    intros j Hj Huj. destruct (decide (j = i)) as [-> | Hne]; [by rewrite Hei in Huj |]. rewrite Hej in * by lia. by apply Hnew.
  - rewrite entry_set by (done || lia). by rewrite Z.eqb_refl.
  - intros j Hj Hne. rewrite entry_set by (done || lia). rewrite (proj2 (Z.eqb_neq j i)) by done. by apply Hej.
Qed.

(** ** Permanent neighbours *)
Definition permanent_kept (c c' : t) : Prop := forall j, 0 <= j < Capacity -> Entry.used (entry c j) = true ->
  Entry.state (entry c j) = NeighbourState.permanent ->
  Entry.used (entry c' j) = true /\ Entry.state (entry c' j) = NeighbourState.permanent /\
  Entry.address (entry c' j) = Entry.address (entry c j) /\ Entry.mac (entry c' j) = Entry.mac (entry c j).

#[local] Instance kept_refl : Reflexive permanent_kept.
Proof. intros c j Hj Hu Hs. done. Qed.
#[local] Instance kept_trans : Transitive permanent_kept.
Proof.
  intros c1 c2 c3 H12 H23 j Hj Hu Hs. destruct (H12 j Hj Hu Hs) as (Hu2 & Hs2 & Ha & Hm). destruct (H23 j Hj Hu2 Hs2) as (? & ? & ? & ?).
  split_and!; congruence.
Qed.

Lemma kept_entries c c' : entries_ c' = entries_ c -> permanent_kept c c'.
Proof. intros He j Hj Hu Hs. unfold entry in *. by rewrite He. Qed.

Lemma kept_set c i e : zlen (entries_ c) = Capacity -> 0 <= i < Capacity ->
  (Entry.used (entry c i) = true -> Entry.state (entry c i) = NeighbourState.permanent ->
     Entry.used e = true /\ Entry.state e = NeighbourState.permanent /\ Entry.address e = Entry.address (entry c i) /\ Entry.mac e = Entry.mac (entry c i)) ->
  permanent_kept c (set_entry c i e).
Proof. intros Hl Hi He j Hj Hu Hs. rewrite entry_set by (done || lia). destruct (Z.eqb_spec j i) as [-> |]; [by apply He | done]. Qed.

Lemma kept_except c c' i : (forall j, 0 <= j -> j <> i -> entry c' j = entry c j) ->
  (Entry.used (entry c i) = true -> Entry.state (entry c i) <> NeighbourState.permanent) -> permanent_kept c c'.
Proof. intros Hj Hi j Hr Hu Hs. destruct (decide (j = i)) as [-> | Hne]; [by destruct (Hi Hu) | by rewrite Hj by (done || lia)]. Qed.

(** A step is good when it keeps the invariant and the permanent neighbours. *)
Definition good (c c' : t) : Prop := cache_ok c' /\ permanent_kept c c' /\ timing_ c' = timing_ c /\ order_ c' = order_ c.

Lemma good_refl c : cache_ok c -> good c c.
Proof. done. Qed.
Lemma good_stats c s : cache_ok c -> good c (with_stats c s).
Proof. intros Hc. split_and!; [by apply ok_stats | by apply kept_entries | done | done]. Qed.
Lemma good_trans c1 c2 c3 : good c1 c2 -> good c2 c3 -> good c1 c3.
Proof. intros (? & ? & ? & ?) (? & ? & ? & ?). split_and!; [done | by etrans | congruence | congruence]. Qed.

Lemma good_set c i e : cache_ok c -> 0 <= i < Capacity -> Entry.used (entry c i) = true -> Entry.used e = true ->
  Entry.address e = Entry.address (entry c i) -> multicast_address (Entry.mac e) = false -> probes_ok (timing_ c) e ->
  (Entry.state (entry c i) = NeighbourState.permanent -> Entry.state e = NeighbourState.permanent /\ Entry.mac e = Entry.mac (entry c i)) ->
  good c (set_entry c i e).
Proof.
  intros Hc Hi Hu Hue Ha Hm Hp Hk. split_and!; [by apply ok_set_entry | | done | done]. apply kept_set; [apply ok_entries, Hc | done |].
  intros _ Hs. destruct (Hk Hs). done.
Qed.

Lemma good_to c i state now : cache_ok c -> 0 <= i < Capacity -> Entry.used (entry c i) = true ->
  Entry.state (entry c i) <> NeighbourState.permanent -> good c (to c i state now).
Proof.
  intros Hc Hi Hu Hn. unfold to. fold (entry c i). destruct (ok_entry c Hc i Hi) as (Hm & _). destruct (ok_timing c Hc).
  apply good_set; try done. unfold probes_ok. cbn. destruct state; done || lia.
Qed.

Lemma good_drop c i : cache_ok c -> 0 <= i < Capacity -> Entry.state (entry c i) <> NeighbourState.permanent -> good c (drop c i).
Proof.
  intros Hc Hi Hn. destruct (drop_spec c i Hc Hi) as (Ht & Ho & _ & _ & He & _). split_and!; [by apply ok_drop | | done | done].
  apply (kept_except c _ i); [| done]. intros j Hj Hne. rewrite He by done. by rewrite (proj2 (Z.eqb_neq j i)) by done.
Qed.

Lemma good_create c a now : cache_ok c -> lookup c a = None ->
  match create c a now with
  | (c', Err _) => c' = c
  | (c', Ok i) => good c c' /\ 0 <= i < Capacity /\ entry c' i = fresh a now
  end.
Proof.
  intros Hc Hn. pose proof (created_entry_spec c a now Hc Hn) as Hs. destruct (create c a now) as [c' [i | e]]; [| by destruct Hs].
  destruct Hs as (Hi & Hok & Ht & Ho & He & Hp & Hj). split; [| done]. split_and!; [done | by apply (kept_except c c' i) | done | done].
Qed.

(** ** The operations *)
Lemma entry_set_eq c i e : cache_ok c -> 0 <= i < Capacity -> entry (set_entry c i e) i = e.
Proof. intros Hc Hi. rewrite entry_set by (done || lia || apply ok_entries, Hc). by rewrite Z.eqb_refl. Qed.

Lemma lookup_found c a i : cache_ok c -> lookup c a = Some i -> 0 <= i < Capacity /\ Entry.used (entry c i) = true /\ Entry.address (entry c i) = a.
Proof. intros Hc Hl. pose proof (lookup_cases c a (ok_entries c Hc)) as Hi. by rewrite Hl in Hi. Qed.

Lemma good_resolve c a now : cache_ok c -> good c (resolve c a now).1.
Proof.
  intros Hc. unfold resolve. destruct (lookup c a) as [i |] eqn:Hl.
  - apply lookup_found in Hl as (Hi & Hu & Ha); [| done]. fold (entry c i). destruct (ok_entry c Hc i Hi) as (Hm & Hp & _).
    set (c1 := set_entry c i _). assert (good c c1) as H1 by (by apply good_set).
    assert (entry c1 i = Entry.with_used_at (entry c i) now) as He1 by (by apply entry_set_eq). fold (entry c1 i). rewrite He1. cbn [Entry.state Entry.with_used_at].
    case_bool_decide as Hs; [done |]. case_bool_decide as Hst; [| done]. cbn [fst]. eapply good_trans; [exact H1 |].
    destruct H1 as (Hok1 & _ & Ht1 & _). apply good_set; rewrite ?He1; try done; [| cbn; by rewrite Hst].
    unfold probes_ok in *. cbn. by rewrite Hst in Hp.
  - pose proof (good_create c a now Hc Hl) as Hg. destruct (create c a now) as [c' [i | e]]; [| by subst c'].
    destruct Hg as (Hg & Hi & He). cbn [fst]. eapply good_trans; [exact Hg |]. fold (entry c' i). rewrite He. destruct Hg as (Hok & _ & Ht & _).
    destruct (ok_timing c' Hok). apply good_set; rewrite ?He; try done. unfold probes_ok. cbn. lia.
Qed.

Lemma good_announce c a mac now : cache_ok c -> multicast_address mac = false -> good c (announce c a mac now).1.
Proof.
  intros Hc Hmac. unfold announce. destruct (lookup c a) as [i |] eqn:Hl.
  - apply lookup_found in Hl as (Hi & Hu & Ha); [| done]. fold (entry c i). destruct (ok_entry c Hc i Hi) as (Hm & Hp & _).
    case_bool_decide as Hs; [by apply good_refl |]. case_cond; [| by apply good_refl].
    set (c1 := if bool_decide _ then count_resolved c else c). assert (good c c1) as H1 by (unfold c1; case_bool_decide; [by apply good_stats | by apply good_refl]).
    assert (entry c1 i = entry c i) as He1 by (unfold c1; by case_bool_decide). clearbody c1. cbn [fst]. eapply good_trans; [exact H1 |].
    destruct H1 as (Hok1 & _ & Ht1 & _).
    set (c2 := set_entry c1 i _). assert (good c1 c2) as H2 by (apply good_set; rewrite ?He1; try done; unfold probes_ok; cbn; by rewrite Ht1).
    eapply good_trans; [exact H2 |]. assert (entry c2 i = Entry.with_mac (entry c i) mac) as He2 by (by apply entry_set_eq).
    destruct H2 as (Hok2 & _). apply good_to; rewrite ?He2; done.
  - pose proof (good_create c a now Hc Hl) as Hg. destruct (create c a now) as [c' [i | e]]; [| by subst c'].
    destruct Hg as (Hg & Hi & He). cbn [fst]. eapply good_trans; [exact Hg |]. fold (entry c' i). rewrite He. destruct Hg as (Hok & _ & Ht & _).
    destruct (ok_timing c' Hok). set (c2 := set_entry c' i _). assert (good c' c2) as H2 by (apply good_set; rewrite ?He; try done; unfold probes_ok; cbn; lia).
    eapply good_trans; [exact H2 |]. destruct H2 as (Hok2 & _). assert (entry c2 i = Entry.with_mac (fresh a now) mac) as He2 by (by apply entry_set_eq).
    apply good_to; rewrite ?He2; done.
Qed.

(** Learning: new contents of a dynamic entry, and its new state. *)
Lemma good_learn c i e state now : cache_ok c -> 0 <= i < Capacity -> Entry.used (entry c i) = true ->
  Entry.state (entry c i) <> NeighbourState.permanent -> Entry.used e = true -> Entry.address e = Entry.address (entry c i) ->
  Entry.state e = Entry.state (entry c i) -> Entry.probes e = Entry.probes (entry c i) -> multicast_address (Entry.mac e) = false ->
  good c (set_entry c i e) /\ good c (to (set_entry c i e) i state now).
Proof.
  intros Hc Hi Hu Hn Hue Ha Hs Hpe Hm. destruct (ok_entry c Hc i Hi) as (_ & Hp & _).
  assert (good c (set_entry c i e)) as H1 by (apply good_set; try done; unfold probes_ok in *; by rewrite Hs, Hpe).
  split; [done |]. eapply good_trans; [exact H1 |]. apply good_to; [apply H1 | done | |]; by rewrite entry_set_eq, ?Hs.
Qed.

Lemma good_router c i r : cache_ok c -> 0 <= i < Capacity -> Entry.used (entry c i) = true ->
  good c (set_entry c i (Entry.with_router (entry c i) r)).
Proof. intros Hc Hi Hu. destruct (ok_entry c Hc i Hi) as (Hm & Hp & _). by apply good_set. Qed.

Lemma good_advertise c a mac flags now : cache_ok c -> match mac with Some m => multicast_address m = false | None => True end ->
  good c (advertise c a mac flags now).1.
Proof.
  intros Hc Hmac. unfold advertise. destruct (lookup c a) as [i |] eqn:Hl; [| by apply good_stats].
  apply lookup_found in Hl as (Hi & Hu & Ha); [| done]. fold (entry c i). destruct (ok_entry c Hc i Hi) as (Hm & Hp & _).
  case_bool_decide as Hs; [by apply good_refl |]. case_bool_decide as Hinc.
  - destruct mac as [m |]; [| by apply good_stats]. cbn [fst].
    set (c1 := set_entry c i _). assert (good c c1) as H1 by (by apply (good_learn c i _ NeighbourState.stale now)).
    eapply good_trans; [exact H1 |]. eapply good_trans; [apply good_stats; apply H1 |].
    assert (entry c1 i = Entry.with_router (Entry.with_mac (entry c i) m) (NeighbourAdvertisement.router flags)) as He1 by (by apply entry_set_eq).
    change (entry (count_resolved c1) i) with (entry c1 i). apply good_to; [apply ok_stats, H1 | done | |];
      change (entry (count_resolved c1) i) with (entry c1 i); by rewrite He1.
  - set (changed := match mac with Some _ => _ | None => false end). case_cond; [case_bool_decide; [by apply good_to | by apply good_refl] |]. cbn [fst].
    set (c1 := if changed then set_entry c i _ else c).
    assert (good c c1 /\ Entry.used (entry c1 i) = true /\ Entry.state (entry c1 i) = Entry.state (entry c i)) as (H1 & Hu1 & Hs1).
    { unfold c1. destruct changed eqn:Hch; [| by split_and!; [apply good_refl | |]].
      destruct mac as [m |]; [| done]. rewrite entry_set_eq by done. split_and!; [| done | done]. by apply (good_learn c i _ NeighbourState.stale now). }
    set (c2 := if NeighbourAdvertisement.solicited flags then _ else _).
    assert (good c1 c2) as H2.
    { unfold c2. case_cond; [apply good_to; try done; [apply H1 | by rewrite Hs1] |]. case_cond; [apply good_to; try done; [apply H1 | by rewrite Hs1] | apply good_refl, H1]. }
    assert (Entry.used (entry c2 i) = true) as Hu2.
    { unfold c2. case_cond; [unfold to; rewrite entry_set_eq; [done | apply H1 | done] |]. case_cond; [unfold to; rewrite entry_set_eq; [done | apply H1 | done] | done]. }
    eapply good_trans; [exact H1 |]. eapply good_trans; [exact H2 |]. apply good_router; [apply H2 | done | done].
Qed.

Lemma good_update c a mac kind flags now : cache_ok c -> good c (update c a mac kind flags now).1.
Proof.
  intros Hc. unfold update. destruct mac as [m |].
  - destruct (multicast_address m) eqn:Hm; [by apply good_stats |]. destruct kind; [by apply good_announce | by apply good_advertise].
  - destruct kind; [by apply good_refl | by apply good_advertise].
Qed.

Lemma good_confirm c a now : cache_ok c -> good c (confirm c a now).
Proof.
  intros Hc. unfold confirm. destruct (lookup c a) as [i |] eqn:Hl; [| by apply good_refl]. apply lookup_found in Hl as (Hi & Hu & Ha); [| done].
  fold (entry c i). case_bool_decide; [by apply good_refl |]. case_bool_decide; [by apply good_refl |]. by apply good_to.
Qed.

Lemma good_solicit c i now capacity out : cache_ok c -> 0 <= i < Capacity -> Entry.used (entry c i) = true ->
  Entry.state (entry c i) = NeighbourState.incomplete \/ Entry.state (entry c i) = NeighbourState.probe -> good c (solicit c i now capacity out).1.
Proof.
  intros Hc Hi Hu Hs. unfold solicit. fold (entry c i). destruct (ok_entry c Hc i Hi) as (Hm & Hp & _). destruct (ok_timing c Hc) as [Hmp Hup].
  assert (Entry.state (entry c i) <> NeighbourState.permanent) as Hn by (by destruct Hs as [-> | ->]).
  case_cond; [eapply good_trans; [by apply good_stats | apply good_drop; [by apply ok_stats | done | done]] |]. case_cond; [by apply good_refl |].
  b2p. apply good_set; try done. unfold probes_ok in *. cbn. unfold u8_wrap.
  destruct Hs as [Hs | Hs]; rewrite Hs in *; [rewrite bool_decide_true in * by done | rewrite bool_decide_false in * by done]; rewrite Z.mod_small; lia.
Qed.

Lemma good_tick_entry now capacity c out i : cache_ok c -> 0 <= i < Capacity -> good c (tick_entry now capacity (c, out) i).1.
Proof.
  intros Hc Hi. unfold tick_entry. fold (entry c i). case_cond; [by apply good_refl |]. apply orb_false_iff in E as [E _]. apply orb_false_iff in E as [Hu Hn].
  apply negb_false_iff in Hu. apply bool_decide_eq_false in Hn. destruct (ok_entry c Hc i Hi) as (Hm & Hp & _). destruct (ok_timing c Hc) as [Hmp Hup].
  destruct (Entry.state (entry c i)) eqn:Hs; cbn [fst].
  - apply good_solicit; auto.
  - apply good_to; done || by rewrite Hs.
  - apply good_set; try done; unfold probes_ok in *; cbn; by rewrite Hs in *.
  - set (c1 := set_entry c i _). assert (good c c1) as H1 by (apply good_set; try done; [unfold probes_ok; cbn; lia | rewrite Hs; done]).
    eapply good_trans; [exact H1 |]. assert (entry c1 i = Entry.with_probes (Entry.with_state (entry c i) NeighbourState.probe) 0) as He1 by (by apply entry_set_eq).
    apply good_solicit; rewrite ?He1; auto. apply H1.
  - apply good_solicit; auto.
  - done.
Qed.

Lemma good_tick c now capacity : cache_ok c -> good c (tick c now capacity).1.
Proof.
  intros Hc. unfold tick. rewrite (ok_entries c Hc).
  assert (forall l s, Forall (fun i => 0 <= i < Capacity) l -> cache_ok s.1 -> good s.1 (foldl (tick_entry now capacity) s l).1) as Hg.
  { induction l as [| i l IH]; intros s Hl Hs; [by apply good_refl |]. apply Forall_cons in Hl as [Hi Hl]. cbn [foldl].
    destruct s as [c0 out]. pose proof (good_tick_entry now capacity c0 out i Hs Hi) as H1. eapply good_trans; [exact H1 |]. apply IH; [done | apply H1]. }
  apply (Hg _ (c, [])); [| done]. apply Forall_forall. intros i Hi. by apply elem_of_indices.
Qed.

(** ** Held packets *)
Lemma oldest_found c a k : cache_ok c -> oldest c a = Some k ->
  0 <= k < Pending /\ Packet.used (packet c k) = true /\ match a with Some a => Packet.address (packet c k) = a | None => True end.
Proof.
  intros Hc Ho. unfold oldest in Ho. apply fold_choice in Ho as [Ho | [Hin [s Hs]]]; [done |]. apply elem_of_indices in Hin. rewrite (ok_pending c Hc) in Hin.
  rewrite !andb_true_iff in Hs. destruct Hs as [[Hu Ha] _]. split_and!; [lia | lia | done |]. destruct a as [a |]; [| done]. by apply bool_decide_eq_true in Ha.
Qed.

Lemma fold_chosen {A} (f : option A -> A -> bool) l : forall s, foldl (fun s i => if f s i then Some i else s) s l = None ->
  s = None /\ Forall (fun i => f None i = false) l.
Proof.
  induction l as [| x l IH]; intros s Hf; [done |]. cbn [foldl] in Hf. apply IH in Hf as [Hs Hl].
  destruct (f s x) eqn:Hx; [done |]. subst s. split; [done |]. by constructor.
Qed.

(** hold() finds a slot: its share's oldest packet once the share is used up. *)
Lemma hold_slot_found c a : cache_ok c -> exists k, hold_slot Pending c a = Some k /\ 0 <= k < Pending /\
  (per <= held c a -> holds a (packet c k) = true).
Proof.
  intros Hc. unfold hold_slot. pose proof per_pos as Hper. destruct (Z.leb_spec per (held c a)) as [Hfull | Hroom].
  - destruct (oldest c (Some a)) as [k |] eqn:Ho.
    + apply oldest_found in Ho as (Hk & Hu & Ha); [| done]. exists k. split_and!; try done; try lia. intros _. unfold holds. rewrite Hu. by rewrite bool_decide_true.
    + exfalso. unfold oldest in Ho. apply fold_chosen in Ho as [_ Hn]. rewrite Forall_forall in Hn.
      assert (held c a = 0) as Hz; [| lia]. unfold held. rewrite zsum_indices.
      assert (forall l, (forall k, k ∈ l -> Z.b2z (holds a (pending_ c).[k]) = 0) -> zsum (fun k => Z.b2z (holds a (pending_ c).[k])) l = 0) as Hsum.
      { induction l as [| k l IH]; intros Hl; [done |]. rewrite zsum_cons, IH by (intros j Hj; apply Hl; by right). rewrite Hl by (by left). done. }
      apply Hsum. intros k Hk. specialize (Hn k Hk). cbn in Hn. rewrite andb_true_r in Hn. unfold holds. by rewrite Hn.
  - destruct (first_index_of _ _) as [k |] eqn:Hf.
    + apply first_index_some in Hf as [Hk _]. rewrite (ok_pending c Hc) in Hk. exists k. split_and!; done || lia.
    + destruct (oldest c None) as [k |] eqn:Ho.
      * apply oldest_found in Ho as (Hk & _); [| done]. exists k. split_and!; done || lia.
      * exfalso. unfold oldest in Ho. apply fold_chosen in Ho as [_ Hn]. rewrite Forall_forall in Hn.
        pose proof (first_index_none _ _ 0 Hf ltac:(rewrite (ok_pending c Hc); lia)) as Hu. specialize (Hn 0 ltac:(apply elem_of_indices; rewrite (ok_pending c Hc); lia)).
        cbn in Hu, Hn. rewrite !andb_true_r in Hn. by rewrite Hn in Hu.
Qed.

Lemma packet_set (c : t) k m p : zlen (pending_ c) = Pending -> 0 <= k < Pending -> 0 <= m ->
  (pending_ c).[k := p].[m] = if m =? k then p else packet c m.
Proof. intros Hl Hk Hm. apply aget_aset; [by rewrite Hl | done]. Qed.

(** hold() keeps the invariant; it takes the next order number. *)
Lemma ok_hold c a b : cache_ok c -> order_ c < u64_max ->
  let c' := (hold Pending PacketBytes c a b).1 in
  cache_ok c' /\ permanent_kept c c' /\ timing_ c' = timing_ c /\ order_ c <= order_ c' <= order_ c + 1.
Proof.
  intros Hc Ho. unfold hold. assert (forall s, cache_ok (c, s : Status).1 /\ permanent_kept c (c, s).1 /\ timing_ (c, s).1 = timing_ c /\ order_ c <= order_ (c, s).1 <= order_ c + 1) as Hsame.
  { intros s. cbn. split_and!; [done | apply kept_refl | done | lia | lia]. }
  destruct (lookup c a) as [i |] eqn:Hl; [| apply Hsame]. apply lookup_found in Hl as (Hi & Hu & Ha); [| done].
  case_cond; [apply Hsame |]. case_cond; [apply Hsame |]. b2p. destruct (hold_slot_found c a Hc) as (k & -> & Hk & Hfull).
  set (c1 := if Packet.used _ then _ else c). assert (entries_ c1 = entries_ c /\ pending_ c1 = pending_ c /\ order_ c1 = order_ c /\ timing_ c1 = timing_ c)
    as (He & Hp & Hor & Ht) by (unfold c1; by case_cond). clearbody c1. cbn [fst]. rewrite He, Hp, Hor, Ht. unfold u64_wrap, u64_max in *.
  pose proof (ok_order c Hc) as Ho0. rewrite Z.mod_small by lia. pose proof (zlen_nonneg b) as Hb. pose proof (ok_pending c Hc) as Hlp.
  set (p := Packet.mk true a (zlen b) (order_ c + 1) _). set (c' := mk _ _ _ _ _).
  assert (forall m, 0 <= m -> packet c' m = if m =? k then p else packet c m) as Hm by (intros m Hm; by apply packet_set).
  split_and!; [| by apply kept_entries | done | cbn; lia | cbn; lia]. destruct Hc. split; try done.
  - cbn [pending_]. subst c'. cbn [pending_]. by rewrite zlen_aset.
  - intros m Hmr. rewrite Hm by lia. destruct (m =? k); [intros _; exists i; done | auto].
  - intros m Hmr. rewrite Hm by lia. destruct (Z.eqb_spec m k) as [-> |].
    + split; [cbn; rewrite zlen_copy_bytes; apply (ok_packet0 k Hk) | cbn; lia].
    + destruct (ok_packet0 m Hmr) as [Hz Hx]. split; [done |]. intros Hpu. destruct (Hx Hpu). cbn. lia.
  - intros m n Hmr Hn. rewrite !Hm by lia. destruct (Z.eqb_spec m k) as [-> |], (Z.eqb_spec n k) as [-> |]; [done | | | auto]; intros Hpm Hpn He'.
    + destruct (ok_packet0 n Hn) as [_ Hx]. destruct (Hx Hpn). cbn in He'. lia.
    + destruct (ok_packet0 m Hmr) as [_ Hx]. destruct (Hx Hpm). cbn in He'. lia.
  - intros x. unfold held. subst c'. cbn [pending_]. rewrite zsum_aset by lia. fold (packet c k). pose proof (ok_held0 x) as Hx. unfold held in Hx.
    assert (holds x p = bool_decide (a = x)) as Hpx by done. rewrite Hpx. case_bool_decide as Hax; [subst x | destruct (holds x (packet c k)); cbn; lia].
    destruct (Z.leb_spec per (held c a)) as [Hf | Hf]; [rewrite Hfull by done; cbn; lia |]. unfold held in Hf. destruct (holds a (packet c k)); cbn; lia.
  - cbn. lia.
Qed.

(** Releasing a packet that flush() handed over. *)
Lemma good_release c k : cache_ok c -> 0 <= k < Pending -> good c (with_pending c (pending_ c).[k := Packet.release (packet c k)]).
Proof.
  intros Hc Hk. pose proof (ok_pending c Hc) as Hlp. set (c' := with_pending c _).
  assert (forall m, 0 <= m -> packet c' m = if m =? k then Packet.release (packet c k) else packet c m) as Hm by (intros m Hm; by apply packet_set).
  split_and!; [| by apply kept_entries | done | done]. destruct Hc. split; try done.
  - subst c'. cbn [pending_ with_pending]. by rewrite zlen_aset.
  - intros m Hmr. rewrite Hm by lia. destruct (m =? k); [done | auto].
  - intros m Hmr. rewrite Hm by lia. destruct (Z.eqb_spec m k) as [-> |]; [| auto]. destruct (ok_packet0 k Hk) as [Hz _]. done.
  - intros m n Hmr Hn. rewrite !Hm by lia. destruct (m =? k); [done |]. destruct (n =? k); [done |]. auto.
  - intros x. etrans; [| apply (ok_held0 x)]. apply held_le; [subst c'; cbn [pending_ with_pending]; by rewrite zlen_aset |].
    intros m Hmr. rewrite Hm by lia. destruct (Z.eqb_spec m k); [done | done].
Qed.

(** ** flush() *)
Lemma next_packet_found c k : cache_ok c -> next_packet c = Some k -> 0 <= k < Pending /\ ready c (packet c k) = true.
Proof.
  intros Hc Hn. unfold next_packet in Hn. apply fold_choice in Hn as [Hn | [Hin [s Hs]]]; [done |]. apply elem_of_indices in Hin.
  rewrite (ok_pending c Hc) in Hin. apply andb_true_iff in Hs as [Hr _]. done.
Qed.

Lemma pending_release c k : cache_ok c -> 0 <= k < Pending -> Packet.used (packet c k) = true ->
  pending (with_pending c (pending_ c).[k := Packet.release (packet c k)]) = pending c - 1.
Proof.
  intros Hc Hk Hu. unfold pending. cbn [pending_ with_pending]. rewrite zsum_aset by (rewrite (ok_pending c Hc); lia). fold (packet c k). rewrite Hu. cbn. lia.
Qed.

Lemma flush_loop_good {W} (sink : W -> Bytes -> Bytes -> Bytes -> W * bool) n : forall c w sent, cache_ok c -> pending c < Z.of_nat n ->
  exists c' w' sent', flush_loop sink n c w sent = Some (c', w', sent') /\ good c c'.
Proof.
  induction n as [| n IH]; intros c w sent Hc Hn.
  { assert (0 <= pending c) by (apply zsum_bounds; intros p; by destruct (Packet.used p)). lia. }
  cbn [flush_loop]. destruct (next_packet c) as [k |] eqn:Hk; [| do 3 eexists; split; [done | by apply good_refl]].
  apply next_packet_found in Hk as [Hk Hr]; [| done]. fold (packet c k). destruct (sink w _ _ _) as [w' taken].
  destruct taken; cbn [negb]; [| do 3 eexists; split; [done | by apply good_refl]].
  pose proof (good_release c k Hc Hk) as Hg. assert (Packet.used (packet c k) = true) as Hu by (unfold ready in Hr; by apply andb_true_iff in Hr as [? _]).
  destruct (IH (with_pending c (pending_ c).[k := Packet.release (packet c k)]) w' (sent + 1)) as (c' & w2 & s & He & Hg'); [apply Hg | rewrite pending_release by done; lia |].
  exists c', w2, s. split; [exact He |]. exact (good_trans _ _ _ Hg Hg').
Qed.

Lemma flush_good {W} (sink : W -> Bytes -> Bytes -> Bytes -> W * bool) c w : cache_ok c ->
  exists c' w' sent, flush sink c w = Some (c', w', sent) /\ good c c'.
Proof.
  intros Hc. apply flush_loop_good; [done |]. assert (pending c <= zlen (pending_ c)) by (apply zsum_bounds; intros p; by destruct (Packet.used p)). unfold zlen in *. lia.
Qed.

(** ** Settings, permanent entries and removal *)
Lemma ok_settings c v : cache_ok c -> NeighbourTiming.multicast_probes v = NeighbourTiming.multicast_probes (timing_ c) ->
  NeighbourTiming.unicast_probes v = NeighbourTiming.unicast_probes (timing_ c) -> cache_ok (with_timing c v).
Proof.
  intros Hc Hm Hu. destruct Hc. split; try done; cbn [timing_ with_timing].
  - unfold timing_ok in *. by rewrite Hm, Hu.
  - intros i Hi. destruct (ok_entry0 i Hi) as (? & Hp & ?). split_and!; try done. unfold probes_ok in *. by rewrite Hm, Hu.
Qed.

(** Entries of other addresses stay. *)
Definition others_kept (a : Bytes) (c c' : t) : Prop := forall j, 0 <= j < Capacity -> Entry.used (entry c j) = true ->
  Entry.state (entry c j) = NeighbourState.permanent -> Entry.address (entry c j) <> a ->
  Entry.used (entry c' j) = true /\ Entry.state (entry c' j) = NeighbourState.permanent /\
  Entry.address (entry c' j) = Entry.address (entry c j) /\ Entry.mac (entry c' j) = Entry.mac (entry c j).

Lemma ok_remove c a : cache_ok c -> let c' := (remove c a).1 in cache_ok c' /\ others_kept a c c' /\ order_ c' = order_ c.
Proof.
  intros Hc. unfold remove. destruct (lookup c a) as [i |] eqn:Hl; cbn [fst]; [| split_and!; [done | by intros j | done]].
  apply lookup_found in Hl as (Hi & Hu & Ha); [| done]. destruct (drop_spec c i Hc Hi) as (_ & Ho & _ & _ & He & _).
  split_and!; [by apply ok_drop | | done]. intros j Hj Huj Hs Hne. rewrite He by lia. destruct (Z.eqb_spec j i) as [-> |]; [by destruct Hne | done].
Qed.

Lemma ok_add_permanent c a mac now : cache_ok c -> let c' := (add_permanent c a mac now).1 in
  cache_ok c' /\ others_kept a c c' /\ order_ c' = order_ c /\
  ((add_permanent c a mac now).2 = StatusCode.ok -> exists i, 0 <= i < Capacity /\ Entry.used (entry c' i) = true /\
     Entry.state (entry c' i) = NeighbourState.permanent /\ Entry.address (entry c' i) = a /\ Entry.mac (entry c' i) = mac).
Proof.
  intros Hc. unfold add_permanent. destruct (multicast_address mac) eqn:Hm; cbn [fst snd]; [split_and!; [done | by intros j | done | done] |].
  assert (exists c1 slot, match lookup c a with Some i => (c, Ok i) | None => create c a now end = (c1, slot) /\ good c c1 /\
    match slot with Ok i => 0 <= i < Capacity /\ Entry.used (entry c1 i) = true /\ Entry.address (entry c1 i) = a | Err e => e = StatusCode.no_memory end) as (c1 & slot & -> & Hg & Hs).
  { destruct (lookup c a) as [i |] eqn:Hl.
    - apply lookup_found in Hl; [| done]. exists c, (Ok i). split; [done |]. split; [by apply good_refl | exact Hl].
    - pose proof (good_create c a now Hc Hl) as Hgc. pose proof (created_entry_spec c a now Hc Hl) as Hcs. destruct (create c a now) as [c1 slot]. exists c1, slot. split; [done |].
      destruct slot as [i | e]; [| subst c1; split; [by apply good_refl | apply Hcs]]. destruct Hgc as (Hg & Hi & He). split; [done |]. by rewrite He. }
  destruct Hg as (Hok & Hk & Ht & Ho). destruct slot as [i | e]; cbn [fst snd].
  2: { subst e. split_and!; [done | | done | done]. intros j Hj Hu Hst _. by apply Hk. }
  destruct Hs as (Hi & Hu & Ha). fold (entry c1 i). set (e := Entry.with_probes _ 0). destruct (ok_timing c1 Hok).
  assert (cache_ok (set_entry c1 i e)) as Hok2 by (by apply ok_set_entry).
  split_and!; [done | | done |].
  - intros j Hj Huj Hst Hne. destruct (Hk j Hj Huj Hst) as (Hu1 & Hs1 & Ha1 & Hm1).
    rewrite entry_set by (lia || apply ok_entries, Hok). destruct (Z.eqb_spec j i) as [-> |]; [congruence | done].
  - intros _. exists i. rewrite entry_set_eq by done. done.
Qed.
End Invariant.
