(* ===== verification/NeighbourClaims.v ===== *)
(** * The neighbour cache: histories, flushing and unanswered neighbours *)

From Stdlib Require Import Sorted.
From S2P Require Import Prelude Epoch Wire Checksum Ip Route RouteClaims Neighbour NeighbourInv.
Import NeighbourCache.

(** ** Histories *)
Inductive operation :=
  | Resolve (address : Bytes) (now : Z) | Hold (address packet : Bytes)
  | Update (address : Bytes) (mac : option Bytes) (kind : NeighbourUpdate.t) (flags : NeighbourAdvertisement.t) (now : Z)
  | Confirm (address : Bytes) (now : Z) | AddPermanent (address mac : Bytes) (now : Z) | Drop (address : Bytes)
  | Tick (now capacity : Z) | Flush (answers : list bool) | ReachableTime (ms : Z) | RetransmitTime (ms : Z).

(** A sink that gives the listed answers, and then refuses. *)
Definition answering (answers : list bool) (_ _ _ : Bytes) : list bool * bool :=
  match answers with [] => ([], false) | x :: answers => (answers, x) end.

Section Histories.
Context `{AddressKind} (Capacity Pending PacketBytes : Z) (HC : 0 < Capacity) (HP : 0 < Pending) (HB : 0 < PacketBytes).
Local Notation "'cache_ok'" := (cache_ok Capacity Pending PacketBytes).

Definition exec (c : t) (o : operation) : option t :=
  match o with
  | Resolve a now => Some (resolve c a now).1
  | Hold a b => Some (hold Pending PacketBytes c a b).1
  | Update a mac kind flags now => Some (update c a mac kind flags now).1
  | Confirm a now => Some (confirm c a now)
  | AddPermanent a mac now => Some (add_permanent c a mac now).1
  | Drop a => Some (remove c a).1
  | Tick now capacity => Some (tick c now capacity).1
  | Flush answers => match flush answering c answers with Some (c, _, _) => Some c | None => None end
  | ReachableTime ms => Some (set_reachable_time c ms)
  | RetransmitTime ms => Some (set_retransmit_time c ms)
  end.
Fixpoint exec_ops (c : t) (os : list operation) : option t :=
  match os with [] => Some c | o :: os => match exec c o with Some c => exec_ops c os | None => None end end.

(** The operations that are meant to change a permanent neighbour. *)
Definition administers (a : Bytes) (o : operation) : bool :=
  match o with AddPermanent b _ _ | Drop b => bool_decide (b = a) | _ => false end.

(** The neighbour at [a] is permanent with link-layer address [mac]. *)
Definition permanent_at (c : t) (a mac : Bytes) : Prop := exists i, 0 <= i < Capacity /\ Entry.used (entry c i) = true /\
  Entry.state (entry c i) = NeighbourState.permanent /\ Entry.address (entry c i) = a /\ Entry.mac (entry c i) = mac.

Lemma exec_good c o : cache_ok c -> order_ c < u64_max ->
  exists c', exec c o = Some c' /\ cache_ok c' /\ order_ c <= order_ c' <= order_ c + 1 /\
    forall a mac, administers a o = false -> permanent_at c a mac -> permanent_at c' a mac.
Proof.
  intros Hc Ho.
  assert (forall c', good Capacity Pending PacketBytes c c' -> cache_ok c' /\ order_ c <= order_ c' <= order_ c + 1 /\
    forall a mac, administers a o = false -> permanent_at c a mac -> permanent_at c' a mac) as Hgood.
  { intros c' (Hok & Hk & _ & Hor). split_and!; [done | lia | lia |]. intros a mac _ (i & Hi & Hu & Hs & Ha & Hm). exists i.
    destruct (Hk i Hi Hu Hs) as (? & ? & ? & ?). split_and!; try done; try lia; congruence. }
  assert (forall b c', others_kept Capacity b c c' -> administers b o = true -> (forall a, administers a o = bool_decide (b = a)) ->
    forall a mac, administers a o = false -> permanent_at c a mac -> permanent_at c' a mac) as Hother.
  { intros b c' Hk _ Hadm a mac Hna (i & Hi & Hu & Hs & Ha & Hm). rewrite Hadm in Hna. apply bool_decide_eq_false in Hna. exists i.
    destruct (Hk i Hi Hu Hs) as (? & ? & ? & ?); [congruence |]. split_and!; try done; try lia; congruence. }
  destruct o as [a now | a b | a mac kind flags now | a now | a mac now | a | now capacity | answers | ms | ms]; cbn [exec].
  - eexists. split; [done |]. by apply Hgood, good_resolve.
  - eexists. split; [done |]. destruct (ok_hold Capacity Pending PacketBytes HP c a b Hc Ho) as (Hok & Hk & _ & Hor). split_and!; [done | lia | lia |].
    intros a' mac _ (i & Hi & Hu & Hs & Ha & Hm). exists i. destruct (Hk i Hi Hu Hs) as (? & ? & ? & ?). split_and!; try done; try lia; congruence.
  - eexists. split; [done |]. by apply Hgood, good_update.
  - eexists. split; [done |]. by apply Hgood, good_confirm.
  - eexists. split; [done |]. destruct (ok_add_permanent Capacity Pending PacketBytes c a mac now Hc) as (Hok & Hk & Hor & _).
    split_and!; [done | lia | lia |]. apply (Hother a); [done | by apply bool_decide_true | done].
  - eexists. split; [done |]. destruct (ok_remove Capacity Pending PacketBytes c a Hc) as (Hok & Hk & Hor).
    split_and!; [done | lia | lia |]. apply (Hother a); [done | by apply bool_decide_true | done].
  - eexists. split; [done |]. by apply Hgood, good_tick.
  - destruct (flush_good Capacity Pending PacketBytes answering c answers Hc) as (c' & w & n & -> & Hg). exists c'. split; [done |]. by apply Hgood.
  - eexists. split; [done |]. unfold set_reachable_time. case_cond; [| by apply Hgood, good_refl]. split_and!; [by apply ok_settings | cbn; lia | cbn; lia |].
    intros a mac _ Hp. exact Hp.
  - eexists. split; [done |]. unfold set_retransmit_time. case_cond; [| by apply Hgood, good_refl]. split_and!; [by apply ok_settings | cbn; lia | cbn; lia |].
    intros a mac _ Hp. exact Hp.
Qed.

Lemma exec_ops_good os : forall c, cache_ok c -> order_ c + zlen os <= u64_max ->
  exists c', exec_ops c os = Some c' /\ cache_ok c' /\ order_ c' <= order_ c + zlen os /\
    forall a mac, forallb (fun o => negb (administers a o)) os = true -> permanent_at c a mac -> permanent_at c' a mac.
Proof.
  induction os as [| o os IH]; intros c Hc Hn; [exists c; split_and!; [done | done | rewrite zlen_nil; lia | done] |]. rewrite zlen_cons in *. pose proof (zlen_nonneg os).
  cbn [exec_ops]. destruct (exec_good c o Hc ltac:(lia)) as (c1 & -> & Hok1 & Ho1 & Hp1).
  destruct (IH c1 Hok1 ltac:(lia)) as (c2 & He & Hok2 & Ho2 & Hp2). exists c2. split_and!; [done | done | lia |].
  intros a mac Hf Hp. cbn [forallb] in Hf. apply andb_true_iff in Hf as [Ho Hf]. apply Hp2; [done |]. apply Hp1; [by apply negb_true_iff | done].
Qed.

Lemma new_cache_ok timing : timing_ok timing -> cache_ok (new Capacity Pending PacketBytes timing).
Proof.
  intros Ht. set (c := new _ _ _ timing).
  assert (forall i, 0 <= i < Capacity -> entry c i = no_entry) as He by (intros i Hi; apply aget_replicate; lia).
  assert (forall k, 0 <= k < Pending -> packet c k = no_packet PacketBytes) as Hk by (intros k Hk; apply aget_replicate; lia).
  split; try done.
  - cbn. rewrite zlen_replicate. lia.
  - cbn. rewrite zlen_replicate. lia.
  - intros i j Hi Hj. by rewrite He.
  - intros i Hi. rewrite He by done. by apply no_entry_ok.
  - intros k Hr. by rewrite Hk.
  - intros k Hr. rewrite Hk by done. split; [cbn; rewrite zlen_replicate; lia | done].
  - intros k m Hr. by rewrite Hk.
  - intros a. unfold held. cbn [pending_ c new]. rewrite zsum_replicate by done. pose proof (per_pos Pending HP). lia.
Qed.

(** resolve() answers with the address of the entry, unless it is incomplete. *)
Lemma resolve_answer c a now : cache_ok c ->
  (resolve c a now).2 = match find c a with
                        | Some s => if bool_decide (NeighbourSnapshot.state s = NeighbourState.incomplete) then Err StatusCode.would_block
                                    else Ok (NeighbourSnapshot.mac s)
                        | None => if result_ok (create c a now).2 then Err StatusCode.would_block else Err StatusCode.no_memory
                        end.
Proof.
  intros Hc. unfold resolve, find. destruct (lookup c a) as [i |] eqn:Hl.
  - apply (lookup_found Capacity Pending PacketBytes) in Hl as (Hi & Hu & Ha); [| done]. pose proof (ok_entries _ _ _ c Hc) as Hlen.
    assert (forall d e, zlen (entries_ d) = Capacity -> entry (set_entry d i e) i = e) as Hset.
    { intros d e Hd. rewrite (entry_set Capacity) by (done || lia). by rewrite Z.eqb_refl. }
    fold (entry c i). set (c1 := set_entry c i _). assert (zlen (entries_ c1) = Capacity) as Hl1 by (unfold c1, set_entry; cbn [entries_ with_entries]; by rewrite zlen_aset).
    assert (entry c1 i = Entry.with_used_at (entry c i) now) as He1 by (by apply Hset). fold (entry c1 i). rewrite He1.
    cbn [Entry.state Entry.with_used_at snapshot NeighbourSnapshot.state NeighbourSnapshot.mac].
    case_bool_decide; [done |]. cbn [snd]. f_equal. case_bool_decide; [| unfold entry in He1; by rewrite He1].
    match goal with |- Entry.mac (entries_ (set_entry c1 i ?e)).[i] = _ => change (Entry.mac (entry (set_entry c1 i e) i) = Entry.mac (entry c i)) end.
    by rewrite Hset.
  - pose proof (created_entry_spec Capacity Pending PacketBytes c a now Hc Hl) as Hcr. destruct (create c a now) as [c1 [i | e]]; cbn; [done |]. by destruct Hcr as [_ ->].
Qed.

Lemma permanent_found c a mac : cache_ok c -> permanent_at c a mac ->
  exists s, find c a = Some s /\ NeighbourSnapshot.state s = NeighbourState.permanent /\ NeighbourSnapshot.mac s = mac.
Proof.
  intros Hc (i & Hi & Hu & Hs & Ha & Hm). unfold find. destruct (lookup c a) as [j |] eqn:Hl.
  - apply (lookup_found Capacity Pending PacketBytes) in Hl as (Hj & Huj & Haj); [| done]. eexists. split; [done |]. fold (entry c j).
    assert (j = i) as -> by (apply (ok_addresses _ _ _ c Hc); [done | done | done | done | congruence]). done.
  - pose proof (lookup_cases Capacity c a (ok_entries _ _ _ c Hc)) as Hn. rewrite Hl in Hn. by destruct (Hn i Hi Hu).
Qed.

Lemma found_unicast c a s : cache_ok c -> find c a = Some s -> multicast_address (NeighbourSnapshot.mac s) = false.
Proof.
  intros Hc. unfold find. destruct (lookup c a) as [i |] eqn:Hl; [| done]. apply (lookup_found Capacity Pending PacketBytes) in Hl as (Hi & _); [| done].
  intros [= <-]. apply (ok_entry _ _ _ c Hc i Hi).
Qed.
End Histories.

(** C21: the neighbour cache in every history of calls, whatever the peers, the
    timers and the sink do: each call answers; neighbours are distinct, held
    packets belong to a known neighbour and number at most three each, probe
    counts stay within their limits; resolve() never answers with a multicast
    address, nor for a neighbour that is not resolved. *)
Theorem neighbour_cache_invariant `{AddressKind} (Capacity Pending PacketBytes : Z) timing script a now :
  0 < Capacity -> 0 < Pending -> 0 < PacketBytes -> timing_ok timing -> zlen script <= u64_max ->
  exists c, exec_ops Pending PacketBytes (new Capacity Pending PacketBytes timing) script = Some c /\
    cache_ok Capacity Pending PacketBytes c /\
    forall mac, (resolve c a now).2 = Ok mac -> multicast_address mac = false /\
      exists s, find c a = Some s /\ NeighbourSnapshot.mac s = mac /\ NeighbourSnapshot.state s <> NeighbourState.incomplete.
Proof.
  intros HC HP HB Ht Hn. pose proof (new_cache_ok Capacity Pending PacketBytes HC HP HB timing Ht) as H0.
  destruct (exec_ops_good Capacity Pending PacketBytes HP script _ H0 ltac:(cbn; lia)) as (c & He & Hok & _). exists c. split_and!; [done | done |].
  intros mac Hr. rewrite (resolve_answer Capacity Pending PacketBytes) in Hr by done. destruct (find c a) as [s |] eqn:Hf; [| by case_match].
  case_bool_decide; [done |]. injection Hr as <-. split; [by apply (found_unicast Capacity Pending PacketBytes c a) | by exists s].
Qed.

(** A permanent neighbour stays: after any history without add_permanent()
    or remove() of its address, resolve() still answers with its link-layer
    address; received packets, timers and a full cache do not change it. *)
Theorem permanent_neighbours_stay `{AddressKind} (Capacity Pending PacketBytes : Z) timing before after a mac now :
  0 < Capacity -> 0 < Pending -> 0 < PacketBytes -> timing_ok timing -> zlen before + zlen after <= u64_max - 1 ->
  forallb (fun o => negb (administers a o)) after = true ->
  exists c c', exec_ops Pending PacketBytes (new Capacity Pending PacketBytes timing) before = Some c /\
    exec_ops Pending PacketBytes (add_permanent c a mac now).1 after = Some c' /\
    ((add_permanent c a mac now).2 = StatusCode.ok -> forall later, (resolve c' a later).2 = Ok mac).
Proof.
  intros HC HP HB Ht Hn Hf. pose proof (new_cache_ok Capacity Pending PacketBytes HC HP HB timing Ht) as H0. pose proof (zlen_nonneg after).
  destruct (exec_ops_good Capacity Pending PacketBytes HP before _ H0 ltac:(cbn; lia)) as (c & He & Hok & Ho & _).
  destruct (ok_add_permanent Capacity Pending PacketBytes c a mac now Hok) as (Hok1 & _ & Ho1 & Hat). cbn in Ho.
  destruct (exec_ops_good Capacity Pending PacketBytes HP after _ Hok1 ltac:(lia)) as (c' & He' & Hok' & _ & Hp). exists c, c'. split_and!; [done | done |].
  intros Hs later. destruct (permanent_found Capacity Pending PacketBytes c' a mac Hok') as (s & Hfs & Hst & Hm).
  - apply Hp; [done |]. by apply Hat.
  - rewrite (resolve_answer Capacity Pending PacketBytes) by done. rewrite Hfs, Hst. cbn. by rewrite Hm.
Qed.

(** ** Flushing *)

(** What flush() offers for a slot, and a sink that takes everything. *)
Definition offered (c : t) (k : Z) : Bytes * Bytes * Bytes :=
  (match lookup c (Packet.address (packet c k)) with Some i => Entry.mac (entry c i) | None => [] end,
   Packet.address (packet c k), first (Packet.bytes (packet c k)) (Packet.length (packet c k))).
Definition taking (log : list (Bytes * Bytes * Bytes)) (mac address b : Bytes) : list (Bytes * Bytes * Bytes) * bool := (log ++ [(mac, address, b)], true).

Lemma fold_least (p : Z -> bool) (key : Z -> Z) l : forall s,
  match foldl (fun s i => if p i && match s with None => true | Some f => key i <? key f end then Some i else s) s l with
  | None => s = None /\ forall i, i ∈ l -> p i = false
  | Some k => (forall f, s = Some f -> key k <= key f) /\ forall i, i ∈ l -> p i = true -> key k <= key i
  end.
Proof.
  induction l as [| x l IH]; intros s; cbn [foldl].
  { destruct s as [k |]; [split; [intros f [= ->]; lia |] | split; [done |]]; intros i Hi; by apply elem_of_nil in Hi. }
  set (s1 := if p x && match s with None => true | Some f => key x <? key f end then Some x else s). specialize (IH s1).
  assert (p x = true -> exists f, s1 = Some f /\ key f <= key x) as Hx.
  { intros Hp. unfold s1. rewrite Hp. destruct s as [f |]; cbn [andb]; [| exists x; split; [done | lia]].
    destruct (Z.ltb_spec (key x) (key f)); [exists x; split; [done | lia] | exists f; split; [done | lia]]. }
  assert (forall f, s = Some f -> exists g, s1 = Some g /\ key g <= key f) as Hs.
  { intros f ->. unfold s1. destruct (p x); cbn [andb]; [| exists f; split; [done | lia]].
    destruct (Z.ltb_spec (key x) (key f)); [exists x; split; [done | lia] | exists f; split; [done | lia]]. }
  destruct (foldl _ s1 l) as [k |].
  - destruct IH as [H1 H2]. split.
    + intros f Hf. destruct (Hs f Hf) as (g & Hg & Hle). specialize (H1 g Hg). lia.
    + intros i Hi Hp. apply elem_of_cons in Hi as [-> | Hi]; [destruct (Hx Hp) as (f & Hf & Hle); specialize (H1 f Hf); lia | by apply H2].
  - destruct IH as [H1 H2]. split.
    + destruct s as [f |]; [destruct (Hs f eq_refl) as (g & Hg & _); congruence | done].
    + intros i Hi. apply elem_of_cons in Hi as [-> | Hi]; [| by apply H2]. destruct (p x); [| done]. destruct (Hx eq_refl) as (f & Hf & _). congruence.
Qed.

Section Flushing.
Context `{AddressKind} (Capacity Pending PacketBytes : Z).
Local Notation "'cache_ok'" := (cache_ok Capacity Pending PacketBytes).

Definition ready_at (c : t) (k : Z) : bool := ready c (packet c k).
Definition released (c : t) (k : Z) : t := with_pending c (pending_ c).[k := Packet.release (packet c k)].

Lemma next_packet_least c : cache_ok c ->
  match next_packet c with
  | None => forall k, 0 <= k < Pending -> ready_at c k = false
  | Some k => 0 <= k < Pending /\ ready_at c k = true /\
      forall m, 0 <= m < Pending -> ready_at c m = true -> m <> k -> Packet.order (packet c k) < Packet.order (packet c m)
  end.
Proof.
  intros Hc. pose proof (fold_least (ready_at c) (fun k => Packet.order (packet c k)) (indices (zlen (pending_ c))) None) as Hl.
  fold (next_packet c) in Hl. change (foldl _ None (indices (zlen (pending_ c)))) with (next_packet c) in Hl. rewrite (ok_pending _ _ _ c Hc) in Hl.
  destruct (next_packet c) as [k |] eqn:Hn.
  - apply (next_packet_found Capacity Pending PacketBytes) in Hn as [Hk Hr]; [| done]. split_and!; [lia | lia | done |]. intros m Hm Hrm Hne.
    destruct Hl as [_ Hl]. specialize (Hl m ltac:(by apply elem_of_indices) Hrm). destruct (decide (Packet.order (packet c k) = Packet.order (packet c m))); [| lia].
    unfold ready_at, ready in Hr, Hrm. apply andb_true_iff in Hr as [Hu _], Hrm as [Hum _].
    by destruct Hne; symmetry; apply (ok_orders _ _ _ c Hc).
  - intros k Hk. by apply Hl, elem_of_indices.
Qed.

Lemma released_packet c k m : cache_ok c -> 0 <= k < Pending -> 0 <= m ->
  packet (released c k) m = if m =? k then Packet.release (packet c k) else packet c m.
Proof. intros Hc Hk Hm. apply (packet_set Pending); [apply (ok_pending _ _ _ c Hc) | done | done]. Qed.

Lemma released_ready c k m : cache_ok c -> 0 <= k < Pending -> 0 <= m -> ready_at (released c k) m = negb (m =? k) && ready_at c m.
Proof. intros Hc Hk Hm. unfold ready_at. rewrite released_packet by done. by destruct (m =? k). Qed.

Lemma flush_taking n : forall c w sent, cache_ok c -> pending c < Z.of_nat n ->
  exists c' ks, flush_loop taking n c w sent = Some (c', w ++ (offered c <$> ks), sent + zlen ks) /\
    StronglySorted (fun k m => Packet.order (packet c k) < Packet.order (packet c m)) ks /\
    (forall k, k ∈ ks <-> 0 <= k < Pending /\ ready_at c k = true) /\ entries_ c' = entries_ c /\
    (forall k, 0 <= k < Pending -> packet c' k = if ready_at c k then Packet.release (packet c k) else packet c k).
Proof.
  induction n as [| n IH]; intros c w sent Hc Hn.
  { assert (0 <= pending c) by (apply zsum_bounds; intros p; by destruct (Packet.used p)). lia. }
  cbn [flush_loop]. pose proof (next_packet_least c Hc) as Hnext. destruct (next_packet c) as [k |].
  - destruct Hnext as (Hk & Hr & Hleast). unfold taking at 1. cbn [negb]. fold (packet c k) (released c k).
    assert (Packet.used (packet c k) = true) as Hu by (unfold ready_at, ready in Hr; by apply andb_true_iff in Hr as [? _]).
    destruct (good_release Capacity Pending PacketBytes c k Hc Hk) as (Hok & _). fold (released c k) in Hok.
    destruct (IH (released c k) (w ++ [offered c k]) (sent + 1) Hok) as (c' & ks & He & Hsort & Hin & Hent & Hpk).
    { unfold released. rewrite (pending_release Capacity Pending PacketBytes) by done. lia. }
    assert (forall m, m ∈ ks -> 0 <= m < Pending /\ m <> k /\ ready_at c m = true) as Hks.
    { intros m Hm. apply Hin in Hm as [Hm Hrm]. rewrite released_ready in Hrm by (done || lia). apply andb_true_iff in Hrm as [Hne ?].
      apply negb_true_iff, Z.eqb_neq in Hne. done. }
    exists c', (k :: ks). split_and!.
    + assert (offered (released c k) <$> ks = offered c <$> ks) as Hoff.
      { apply list_fmap_ext. intros j m Hm. apply list_elem_of_lookup_2 in Hm. destruct (Hks m Hm) as (? & ? & _). unfold offered.
        rewrite released_packet by (done || lia). by rewrite (proj2 (Z.eqb_neq m k)) by done. }
      transitivity (flush_loop taking n (released c k) (w ++ [offered c k]) (sent + 1)); [reflexivity |].
      rewrite He, Hoff, zlen_cons, <- app_assoc. cbn [app fmap list_fmap]. do 2 f_equal. lia.
    + constructor.
      * eapply sorted_impl; [| exact Hsort]. intros m m' Hm Hm'. destruct (Hks m Hm) as (? & ? & _), (Hks m' Hm') as (? & ? & _).
        rewrite !released_packet by (done || lia). by rewrite !(proj2 (Z.eqb_neq _ k)) by done.
      * apply Forall_forall. intros m Hm. destruct (Hks m Hm) as (? & ? & ?). by apply Hleast.
    + intros m. rewrite elem_of_cons. split; [intros [-> | Hm]; [done | by destruct (Hks m Hm) as (? & _ & ?)] |]. intros [Hm Hrm].
      destruct (decide (m = k)) as [-> | Hne]; [by left | right]. apply Hin. split; [done |]. rewrite released_ready by (done || lia).
      by rewrite (proj2 (Z.eqb_neq m k)) by done.
    + done.
    + intros m Hm. rewrite Hpk, released_ready, released_packet by (done || lia). destruct (Z.eqb_spec m k) as [-> |]; [by rewrite Hr | done].
  - exists c, []. split_and!; [by rewrite app_nil_r, zlen_nil, Z.add_0_r | constructor | | done |].
    + intros k. split; [intros Hk; by apply elem_of_nil in Hk |]. intros [Hk Hr]. by rewrite Hnext in Hr.
    + intros k Hk. by rewrite Hnext.
Qed.
End Flushing.

(** C22: flush() into a sink that takes everything ends, offers exactly the held
    packets of resolved neighbours, in the order in which they were held, each
    with the link-layer address and the bytes held for it, counts them, frees
    exactly their slots, and changes no entry. *)
Theorem flush_in_order `{AddressKind} (Capacity Pending PacketBytes : Z) c : cache_ok Capacity Pending PacketBytes c ->
  exists c' ks, flush taking c [] = Some (c', offered c <$> ks, zlen ks) /\
    StronglySorted (fun k m => Packet.order (packet c k) < Packet.order (packet c m)) ks /\
    (forall k, k ∈ ks <-> 0 <= k < Pending /\ ready c (packet c k) = true) /\ entries_ c' = entries_ c /\
    (forall k, 0 <= k < Pending -> packet c' k = if ready c (packet c k) then Packet.release (packet c k) else packet c k).
Proof.
  intros Hc. apply (flush_taking Capacity Pending PacketBytes (S (length (pending_ c))) c [] 0 Hc).
  assert (pending c <= zlen (pending_ c)) by (apply zsum_bounds; intros p; by destruct (Packet.used p)). unfold zlen in *. lia.
Qed.

(** ** Unanswered neighbours *)

(** The solicitations of one address. *)
Definition asks (a : Bytes) (out : list Solicitation.t) : list Solicitation.t := List.filter (fun s => bool_decide (Solicitation.target s = a)) out.

Lemma asks_app a out out' : asks a (out ++ out') = asks a out ++ asks a out'.
Proof. apply List.filter_app. Qed.

(** The solicitations an entry can still send when nobody answers. *)
Definition budget (tm : NeighbourTiming.t) (e : Entry.t) : Z :=
  if Entry.used e then
    match Entry.state e with
    | NeighbourState.incomplete => NeighbourTiming.multicast_probes tm - Entry.probes e
    | NeighbourState.probe => NeighbourTiming.unicast_probes tm - Entry.probes e
    | NeighbourState.delay => NeighbourTiming.unicast_probes tm
    | _ => 0
    end
  else 0.
Definition outstanding (c : t) : Z := zsum (budget (timing_ c)) (entries_ c).

Section Ticking.
Context `{AddressKind} (Capacity Pending PacketBytes : Z).
Local Notation "'cache_ok'" := (cache_ok Capacity Pending PacketBytes).
Context (now capacity : Z).

(** No entry comes into use or changes its address. *)
Definition no_new (c c' : t) : Prop := forall j, 0 <= j < Capacity -> Entry.used (entry c' j) = true ->
  Entry.used (entry c j) = true /\ Entry.address (entry c' j) = Entry.address (entry c j).

Lemma no_new_trans c1 c2 c3 : no_new c1 c2 -> no_new c2 c3 -> no_new c1 c3.
Proof. intros H1 H2 j Hj Hu. destruct (H2 j Hj Hu) as [Hu2 Ha2]. destruct (H1 j Hj Hu2) as [Hu1 Ha1]. split; congruence. Qed.

(** The step of one entry leaves the others alone and reports at most one
    solicitation, of its own address, out of its budget and into the room left. *)
Definition local_step (i : Z) (c c' : t) (out out' : list Solicitation.t) : Prop :=
  cache_ok c' /\ timing_ c' = timing_ c /\ (forall j, 0 <= j -> j <> i -> entry c' j = entry c j) /\ no_new c c' /\
  budget (timing_ c) (entry c' i) + zlen out' <= budget (timing_ c) (entry c i) + zlen out /\
  (zlen out <= capacity -> zlen out' <= capacity) /\
  (out' = out \/ Entry.used (entry c i) = true /\ exists m, out' = out ++ [Solicitation.mk (Entry.address (entry c i)) m]).

Lemma local_set i e c out : cache_ok c -> cache_ok (set_entry c i e) -> 0 <= i < Capacity ->
  Entry.used e = Entry.used (entry c i) -> Entry.address e = Entry.address (entry c i) ->
  budget (timing_ c) e <= budget (timing_ c) (entry c i) -> local_step i c (set_entry c i e) out out.
Proof.
  intros Hc Hok Hi Hu Ha Hb. assert (forall j, 0 <= j -> entry (set_entry c i e) j = if j =? i then e else entry c j) as He.
  { intros j Hj. apply (entry_set Capacity); done || lia || apply (ok_entries _ _ _ c Hc). }
  split_and!; [done | done | | | rewrite He, Z.eqb_refl by lia; lia | done | by left];
    intros j Hj; rewrite He by lia; destruct (Z.eqb_spec j i) as [-> |]; intros; try split; congruence.
Qed.

Lemma local_solicit i c out : cache_ok c -> 0 <= i < Capacity -> Entry.used (entry c i) = true ->
  Entry.state (entry c i) = NeighbourState.incomplete \/ Entry.state (entry c i) = NeighbourState.probe ->
  local_step i c (solicit c i now capacity out).1 out (solicit c i now capacity out).2.
Proof.
  intros Hc Hi Hu Hs. pose proof (good_solicit Capacity Pending PacketBytes c i now capacity out Hc Hi Hu Hs) as (Hok & _). revert Hok.
  destruct (ok_entry _ _ _ c Hc i Hi) as (_ & Hp & _). destruct (ok_timing _ _ _ c Hc) as [Hmp Hup].
  unfold solicit. fold (entry c i). case_cond.
  - intros Hok. cbn [fst snd]. assert (cache_ok (count_failed c)) as Hc' by (by apply ok_stats).
    destruct (drop_spec Capacity Pending PacketBytes (count_failed c) i Hc' Hi) as (Ht & _ & _ & _ & He & _).
    split_and!; [done | done | | | | done | by left]; [intros j Hj; rewrite He by lia; by destruct (Z.eqb_spec j i).. |].
    rewrite He, Z.eqb_refl by lia. unfold budget, probes_ok in *. rewrite Hu. destruct Hs as [Hs | Hs]; rewrite Hs in *; cbn; lia.
  - case_cond; [intros Hok; split_and!; try done; by left |]. intros Hok. cbn [fst snd] in *. b2p.
    set (e := Entry.with_deadline _ _) in *. assert (budget (timing_ c) e + 1 = budget (timing_ c) (entry c i)) as Hb.
    { unfold e, budget, probes_ok in *. cbn. unfold u8_wrap. rewrite Hu.
      destruct Hs as [Hs | Hs]; rewrite Hs in *; [rewrite bool_decide_true in * by done | rewrite bool_decide_false in * by done]; rewrite Z.mod_small; lia. }
    destruct (local_set i e c out Hc Hok Hi eq_refl eq_refl ltac:(lia)) as (_ & Ht & He & Hn & _).
    split_and!; [done | done | done | done | | rewrite zlen_app; change (zlen [_]) with 1; lia | right; split; [done | eexists; reflexivity]].
    rewrite (entry_set_eq Capacity Pending PacketBytes), zlen_app by done. change (zlen [_]) with 1. lia.
Qed.

Lemma local_tick i c out : cache_ok c -> 0 <= i < Capacity ->
  local_step i c (tick_entry now capacity (c, out) i).1 out (tick_entry now capacity (c, out) i).2.
Proof.
  intros Hc Hi. pose proof (good_tick_entry Capacity Pending PacketBytes now capacity c out i Hc Hi) as (Hok & _). revert Hok.
  unfold tick_entry. fold (entry c i). case_cond; [intros Hok; split_and!; try done; by left |].
  apply orb_false_iff in E as [E _]. apply orb_false_iff in E as [Hu Hn]. apply negb_false_iff in Hu. apply bool_decide_eq_false in Hn.
  destruct (Entry.state (entry c i)) eqn:Hs; cbn [fst snd].
  - intros _. apply local_solicit; auto.
  - unfold to. intros Hok. apply local_set; try done. unfold budget. cbn. fold (entry c i). rewrite Hu, Hs. lia.
  - intros Hok. by apply local_set.
  - intros _. destruct (ok_timing _ _ _ c Hc) as [? Hup]. destruct (ok_entry _ _ _ c Hc i Hi) as (Hm & _).
    set (c1 := set_entry c i _). assert (cache_ok c1) as Hok1 by (apply ok_set_entry; try done; unfold probes_ok; cbn; lia).
    destruct (local_set i (Entry.with_probes (Entry.with_state (entry c i) NeighbourState.probe) 0) c out Hc Hok1 Hi eq_refl eq_refl) as (_ & Ht1 & He1 & Hn1 & Hb1 & _);
      [unfold budget; cbn; rewrite Hu, Hs; lia |].
    assert (entry c1 i = Entry.with_probes (Entry.with_state (entry c i) NeighbourState.probe) 0) as Hei by (by apply (entry_set_eq Capacity Pending PacketBytes)).
    destruct (local_solicit i c1 out Hok1 Hi) as (Hok & Ht & He & Hnew & Hb & Hroom & Ho); [by rewrite Hei | rewrite Hei; by right |].
    change (timing_ c1) with (timing_ c) in Hb. fold c1 in Hb1. split_and!; [done | by rewrite Ht | intros j Hj Hne; rewrite He by done; by apply He1 | by apply (no_new_trans c c1) | lia | done |]. by rewrite Hei in Ho.
  - intros _. apply local_solicit; auto.
  - done.
Qed.

Lemma outstanding_step i c c' : cache_ok c -> cache_ok c' -> timing_ c' = timing_ c -> 0 <= i < Capacity ->
  (forall j, 0 <= j -> j <> i -> entry c' j = entry c j) ->
  outstanding c' = outstanding c - budget (timing_ c) (entry c i) + budget (timing_ c) (entry c' i).
Proof.
  intros Hc Hc' Ht Hi He. unfold outstanding. rewrite Ht, !(zsum_indices (budget _)), (ok_entries _ _ _ c Hc), (ok_entries _ _ _ c' Hc').
  apply (zsum_indices_update (fun j => budget (timing_ c) (entry c j)) (fun j => budget (timing_ c) (entry c' j)) Capacity i Hi).
  intros j Hj Hne. by rewrite He by (done || lia).
Qed.

(** Entries not visited keep their contents, an address no visited entry has is
    not asked, and what is reported comes out of the outstanding solicitations. *)
Lemma tick_unvisited a l : forall c out, cache_ok c -> Forall (fun j => 0 <= j < Capacity) l ->
  (forall j, j ∈ l -> Entry.used (entry c j) = true -> Entry.address (entry c j) <> a) -> NoDup l -> zlen out <= capacity ->
  let '(c', out') := foldl (tick_entry now capacity) (c, out) l in
  cache_ok c' /\ timing_ c' = timing_ c /\ (forall i, 0 <= i -> i ∉ l -> entry c' i = entry c i) /\ asks a out' = asks a out /\
  zlen out <= zlen out' <= capacity /\ no_new c c' /\ outstanding c' + zlen out' <= outstanding c + zlen out.
Proof.
  induction l as [| x l IH]; intros c out Hc Hl Ha Hnd Hcap; cbn [foldl]; [split_and!; done || lia |].
  apply Forall_cons in Hl as [Hx Hl]. apply NoDup_cons in Hnd as [Hxl Hnd].
  pose proof (local_tick x c out Hc Hx) as (Hok & Ht & He & Hn & Hb & Hroom & Ho).
  destruct (tick_entry now capacity (c, out) x) as [c1 out1]. cbn [fst snd] in *.
  pose proof (outstanding_step x c c1 Hc Hok Ht Hx He) as Hs.
  specialize (IH c1 out1 Hok Hl). destruct (foldl _ (c1, out1) l) as [c2 out2].
  destruct IH as (Hok2 & Ht2 & He2 & Ha2 & Hz2 & Hn2 & Hs2); [| done | by apply Hroom |].
  { intros j Hj. rewrite He; [apply Ha; by right | | by intros ->]. rewrite Forall_forall in Hl. specialize (Hl j Hj). lia. }
  assert (zlen out <= zlen out1) by (destruct Ho as [-> | (_ & m & ->)]; rewrite ?zlen_app; change (zlen [_]) with 1; lia).
  split_and!; [done | congruence | | | lia | lia | by apply (no_new_trans c c1) | lia].
  - intros i Hi Hni. apply not_elem_of_cons in Hni as [Hix Hni]. by rewrite He2, He.
  - rewrite Ha2. destruct Ho as [-> | (Hu & m & ->)]; [done |]. rewrite asks_app. unfold asks at 2. cbn. rewrite bool_decide_false by (apply Ha; [by left | done]).
    by rewrite app_nil_r.
Qed.
End Ticking.

Section Unanswered.
Context `{AddressKind} (Capacity Pending PacketBytes : Z).
Local Notation "'cache_ok'" := (cache_ok Capacity Pending PacketBytes).

(** An INCOMPLETE neighbour at entry [i]. *)
Definition waiting (c : t) (i : Z) (a : Bytes) (probes due : Z) : Prop :=
  0 <= i < Capacity /\ Entry.used (entry c i) = true /\ Entry.state (entry c i) = NeighbourState.incomplete /\
  Entry.address (entry c i) = a /\ Entry.probes (entry c i) = probes /\ Entry.deadline (entry c i) = due.

(** Gone: not in the cache, no packet held. *)
Definition gone (c : t) (a : Bytes) : Prop := find c a = None /\ held c a = 0.

Lemma gone_dropped c a : cache_ok c -> (forall j, 0 <= j < Capacity -> Entry.used (entry c j) = true -> Entry.address (entry c j) <> a) -> gone c a.
Proof.
  intros Hc Hn. split.
  - unfold find. pose proof (lookup_cases Capacity c a (ok_entries _ _ _ c Hc)) as Hl. destruct (lookup c a) as [i |]; [| done].
    destruct Hl as (Hi & Hu & Ha). by destruct (Hn i Hi Hu).
  - unfold held. rewrite zsum_indices, (ok_pending _ _ _ c Hc).
    assert (forall l, Forall (fun k => 0 <= k < Pending) l -> zsum (fun k => Z.b2z (holds a (pending_ c).[k])) l = 0) as Hz.
    { induction 1 as [| k l Hk _ IH]; [done |]. rewrite zsum_cons, IH. fold (packet c k). unfold holds. destruct (Packet.used (packet c k)) eqn:Hu; [| done].
      destruct (ok_known _ _ _ c Hc k Hk Hu) as (j & Hj & Huj & Haj). rewrite bool_decide_false; [done |]. rewrite <- Haj. by apply Hn. }
    apply Hz, Forall_forall. intros k Hk. by apply elem_of_indices.
Qed.

(** The step of a waiting entry: nothing before its deadline; then it is
    deleted when it has been asked often enough, asked once more when there is
    room, and left alone when there is not. *)
Lemma tick_due c i a probes due now capacity out : cache_ok c -> waiting c i a probes due ->
  let '(c', out') := tick_entry now capacity (c, out) i in
  cache_ok c' /\ timing_ c' = timing_ c /\ (forall j, 0 <= j -> j <> i -> entry c' j = entry c j) /\
  (if now <? due then c' = c /\ out' = out
   else if NeighbourTiming.multicast_probes (timing_ c) <=? probes then Entry.used (entry c' i) = false /\ out' = out
   else if zlen out =? capacity then c' = c /\ out' = out
   else waiting c' i a (probes + 1) (deadline now (NeighbourTiming.retransmit_ms (timing_ c))) /\ out' = out ++ [Solicitation.mk a None]).
Proof.
  intros Hc (Hi & Hu & Hs & Ha & Hp & Hd). pose proof (local_tick Capacity Pending PacketBytes now capacity i c out Hc Hi) as (Hok & Ht & He & _).
  destruct (tick_entry now capacity (c, out) i) as [c' out'] eqn:Hte. cbn [fst snd] in Hok, Ht, He. split_and!; try done.
  destruct (ok_entry _ _ _ c Hc i Hi) as (_ & Hpr & _). unfold probes_ok in Hpr. rewrite Hs, Hp in Hpr. destruct (ok_timing _ _ _ c Hc) as [Hmp _].
  unfold tick_entry in Hte. fold (entry c i) in Hte. rewrite Hu, Hs, Hd in Hte. cbn [negb orb] in Hte.
  rewrite bool_decide_false in Hte by done. cbn [orb] in Hte. destruct (now <? due); [by injection Hte as <- <- |].
  unfold solicit in Hte. fold (entry c i) in Hte. rewrite Hs, Hp, Ha in Hte. rewrite bool_decide_true in Hte by done.
  destruct (Z.leb_spec (NeighbourTiming.multicast_probes (timing_ c)) probes) as [Hlim | Hlim].
  - injection Hte as <- <-. split; [| done]. destruct (drop_spec Capacity Pending PacketBytes (count_failed c) i (ok_stats _ _ _ c _ Hc) Hi) as (_ & _ & _ & _ & Hdr & _).
    rewrite Hdr by lia. by rewrite Z.eqb_refl.
  - destruct (zlen out =? capacity); injection Hte as <- <-; [done |]. split; [| done].
    unfold waiting. rewrite (entry_set_eq Capacity Pending PacketBytes) by done. cbn. split_and!; try done; try lia. apply Z.mod_small. lia.
Qed.

Definition absent (c : t) (a : Bytes) : Prop :=
  forall j, 0 <= j < Capacity -> Entry.used (entry c j) = true -> Entry.address (entry c j) <> a.

Lemma indices_range : Forall (fun j => 0 <= j < Capacity) (indices Capacity).
Proof. apply Forall_forall. intros j Hj. by apply elem_of_indices. Qed.

(** An absent neighbour is not asked and does not come back. *)
Lemma tick_absent c a now capacity : cache_ok c -> 0 <= capacity -> absent c a ->
  let '(c', out) := tick c now capacity in cache_ok c' /\ absent c' a /\ asks a out = [].
Proof.
  intros Hc Hcap Hab. unfold tick. rewrite (ok_entries _ _ _ c Hc).
  pose proof (tick_unvisited Capacity Pending PacketBytes now capacity a (indices Capacity) c [] Hc indices_range) as H1.
  destruct (foldl _ _ _) as [c' out]. destruct H1 as (Hok & _ & _ & Ha & _ & Hn & _); [| apply nodup_indices | by rewrite zlen_nil |].
  - intros j Hj. apply Hab. by apply elem_of_indices.
  - split_and!; [done | | done]. intros j Hj Hu. destruct (Hn j Hj Hu) as [Hu' ->]. by apply Hab.
Qed.

(** What one tick does to a waiting neighbour. *)
Definition waiting_tick (c c' : t) (i : Z) (a : Bytes) (probes due now capacity : Z) (out : list Solicitation.t) : Prop :=
  if now <? due then waiting c' i a probes due /\ asks a out = []
  else if NeighbourTiming.multicast_probes (timing_ c) <=? probes then absent c' a /\ asks a out = []
  else waiting c' i a (probes + 1) (deadline now (NeighbourTiming.retransmit_ms (timing_ c))) /\ asks a out = [Solicitation.mk a None] \/
       waiting c' i a probes due /\ asks a out = [] /\ zlen out = capacity.

Lemma tick_waiting c i a probes due now capacity : cache_ok c -> waiting c i a probes due -> 0 <= capacity ->
  let '(c', out) := tick c now capacity in
  cache_ok c' /\ timing_ c' = timing_ c /\ outstanding c' + zlen out <= outstanding c /\ waiting_tick c c' i a probes due now capacity out.
Proof.
  intros Hc Hw Hcap. pose proof Hw as (Hi & Hu & Hs & Ha & Hp & Hd). unfold tick. rewrite (ok_entries _ _ _ c Hc).
  destruct (list_elem_of_split (indices Capacity) i) as (l1 & l2 & Hsplit); [by apply elem_of_indices |].
  pose proof (nodup_indices Capacity) as Hnd. pose proof indices_range as Hr. rewrite Hsplit in Hnd, Hr.
  apply NoDup_app in Hnd as (Hnd1 & Hdis & Hnd2). apply NoDup_cons in Hnd2 as [Hi2 Hnd2].
  assert (i ∉ l1) as Hi1 by (intros Hin; apply (Hdis i Hin); by left).
  apply Forall_app in Hr as [Hr1 Hr2]. apply Forall_cons in Hr2 as [_ Hr2]. rewrite Hsplit, foldl_app. cbn [foldl].
  pose proof (tick_unvisited Capacity Pending PacketBytes now capacity a l1 c [] Hc Hr1) as H1.
  destruct (foldl _ (c, []) l1) as [c1 out1].
  destruct H1 as (Hok1 & Ht1 & He1 & Ha1 & Hz1 & _ & Hs1); [| done | by rewrite zlen_nil |].
  { intros j Hj Huj Haj. rewrite Forall_forall in Hr1. assert (j = i) as ->; [| done].
    apply (ok_addresses _ _ _ c Hc); [by apply Hr1 | done | done | done | congruence]. }
  rewrite zlen_nil in Hs1. specialize (He1 i ltac:(lia) Hi1).
  pose proof (tick_due c1 i a probes due now capacity out1 Hok1 ltac:(unfold waiting; rewrite He1; done)) as H2.
  pose proof (local_tick Capacity Pending PacketBytes now capacity i c1 out1 Hok1 Hi) as (_ & _ & _ & _ & Hb2 & Hroom2 & _).
  destruct (tick_entry now capacity (c1, out1) i) as [c2 out2]. cbn [fst snd] in Hb2, Hroom2. destruct H2 as (Hok2 & Ht2 & Hk2 & Hcase).
  pose proof (outstanding_step Capacity Pending PacketBytes i c1 c2 Hok1 Hok2 Ht2 Hi Hk2) as Hs2.
  assert (forall j, 0 <= j < Capacity -> j <> i -> Entry.used (entry c2 j) = true -> Entry.address (entry c2 j) <> a) as Hother2.
  { intros j Hj Hne. rewrite Hk2 by (done || lia). intros Huj Haj. destruct Hne. apply (ok_addresses _ _ _ c1 Hok1); try done; rewrite He1; [done | congruence]. }
  pose proof (tick_unvisited Capacity Pending PacketBytes now capacity a l2 c2 out2 Hok2 Hr2) as H3.
  destruct (foldl _ (c2, out2) l2) as [c3 out3].
  destruct H3 as (Hok3 & Ht3 & He3 & Ha3 & Hz3 & Hn3 & Hs3); [| done | apply Hroom2; lia |].
  { intros j Hj. rewrite Forall_forall in Hr2. apply Hother2; [by apply Hr2 | by intros ->]. }
  rewrite Ht1 in *. split_and!; [done | congruence | lia |].
  assert (forall p d, waiting c2 i a p d -> waiting c3 i a p d) as Hkeep.
  { intros p d (? & ? & ? & ? & ? & ?). unfold waiting. rewrite He3 by (done || lia). done. }
  assert (waiting c1 i a probes due) as Hw1 by (unfold waiting; by rewrite He1).
  unfold waiting_tick. rewrite Ha3. destruct (now <? due); [destruct Hcase as [-> ->]; split; [by apply Hkeep | done] |].
  destruct (NeighbourTiming.multicast_probes (timing_ c) <=? probes).
  { destruct Hcase as [Hu2 ->]. split; [| done]. intros j Hj Huj.
    destruct (Hn3 j Hj Huj) as [Huj2 ->]. apply Hother2; [done | | done]. intros ->. congruence. }
  destruct (Z.eqb_spec (zlen out1) capacity); [right | left].
  - destruct Hcase as [-> ->]. split_and!; [by apply Hkeep | done | lia].
  - destruct Hcase as [Hw2 ->]. rewrite asks_app, Ha1. unfold asks. cbn. rewrite bool_decide_true by done. split; [by apply Hkeep | done].
Qed.

(** Ticks at the given times, each with room for [capacity] solicitations. *)
Fixpoint ticks (capacity : Z) (c : t) (times : list Z) : t * list Solicitation.t :=
  match times with
  | [] => (c, [])
  | now :: times => let '(c, out) := tick c now capacity in let '(c, rest) := ticks capacity c times in (c, out ++ rest)
  end.

(** The number of those ticks that come when the neighbour is due to be asked. *)
Definition due (c : t) (a : Bytes) (now : Z) : bool :=
  match find c a with
  | Some s => bool_decide (NeighbourSnapshot.state s = NeighbourState.incomplete) && (NeighbourSnapshot.deadline s <=? now)
  | None => false
  end.
Fixpoint due_ticks (capacity : Z) (c : t) (a : Bytes) (times : list Z) : Z :=
  match times with
  | [] => 0
  | now :: times => Z.b2z (due c a now) + due_ticks capacity (tick c now capacity).1 a times
  end.

Lemma ticks_absent capacity a times : 0 <= capacity -> forall c, cache_ok c -> absent c a ->
  let '(c', out) := ticks capacity c times in cache_ok c' /\ absent c' a /\ asks a out = [].
Proof.
  intros Hcap. induction times as [| now times IH]; intros c Hc Hab; cbn [ticks]; [done |].
  pose proof (tick_absent c a now capacity Hc Hcap Hab) as Ht. destruct (tick c now capacity) as [c1 out]. destruct Ht as (Hok & Hab1 & Ha).
  specialize (IH c1 Hok Hab1). destruct (ticks capacity c1 times) as [c2 rest]. destruct IH as (? & ? & Hr). split_and!; [done | done |].
  by rewrite asks_app, Ha, Hr.
Qed.

Lemma waiting_find c i a probes d : cache_ok c -> waiting c i a probes d -> exists s, find c a = Some s /\
  NeighbourSnapshot.state s = NeighbourState.incomplete /\ NeighbourSnapshot.probes s = probes /\ NeighbourSnapshot.deadline s = d.
Proof.
  intros Hc (Hi & Hu & Hs & Ha & Hp & Hd). unfold find. pose proof (lookup_cases Capacity c a (ok_entries _ _ _ c Hc)) as Hl.
  destruct (lookup c a) as [j |]; [| by destruct (Hl i Hi Hu)]. destruct Hl as (Hj & Huj & Haj).
  assert (j = i) as -> by (apply (ok_addresses _ _ _ c Hc); try done; congruence). eexists. split; [reflexivity |]. cbn. by fold (entry c i).
Qed.

Lemma waiting_due c i a probes d now : cache_ok c -> waiting c i a probes d -> due c a now = negb (now <? d).
Proof.
  intros Hc Hw. destruct (waiting_find c i a probes d Hc Hw) as (s & Hf & Hs & _ & Hd). unfold due. rewrite Hf, Hs, Hd, bool_decide_true by done.
  cbn [andb]. lia.
Qed.
End Unanswered.

Section Given_up.
Context `{AddressKind} (Capacity Pending PacketBytes : Z).
Local Notation "'cache_ok'" := (cache_ok Capacity Pending PacketBytes).
Local Notation waiting := (waiting Capacity).

(** The outcome of a sequence of ticks for a neighbour asked [probes] times, when
    the other entries have [others] solicitations to send. *)
Definition tried (c c' : t) (i : Z) (a : Bytes) (probes others capacity : Z) (times : list Z) (out : list Solicitation.t) : Prop :=
  exists asked, asks a out = replicate asked (Solicitation.mk a None) /\
    (absent Capacity c' a /\ Z.of_nat asked = NeighbourTiming.multicast_probes (timing_ c) - probes \/
     exists d, waiting c' i a (probes + Z.of_nat asked) d /\ probes + Z.of_nat asked <= NeighbourTiming.multicast_probes (timing_ c) /\
       due_ticks capacity c a times <= Z.of_nat asked + others / capacity).

Lemma outstanding_waiting c i a probes d : cache_ok c -> waiting c i a probes d ->
  NeighbourTiming.multicast_probes (timing_ c) - probes <= outstanding c.
Proof.
  intros Hc (Hi & Hu & Hs & _ & Hp & _).
  assert (budget (timing_ c) (entry c i) = NeighbourTiming.multicast_probes (timing_ c) - probes) as <- by (unfold budget; by rewrite Hu, Hs, Hp).
  apply zsum_elem; [| by rewrite (ok_entries _ _ _ c Hc)]. apply Forall_lookup. intros n e He.
  assert (0 <= Z.of_nat n < Capacity) as Hn by (rewrite <- (ok_entries _ _ _ c Hc); apply lookup_lt_Some in He; unfold zlen; lia).
  destruct (ok_entry _ _ _ c Hc (Z.of_nat n) Hn) as (_ & Hpr & _). destruct (ok_timing _ _ _ c Hc). unfold entry in Hpr.
  rewrite (aget_lookup _ _ e) in Hpr by (try rewrite Nat2Z.id; done || lia). unfold probes_ok in Hpr. unfold budget.
  destruct (Entry.used e); [| done]. destruct (Entry.state e); lia.
Qed.

(** A tick that asked [k] times, followed by others. *)
Lemma tried_cons c c1 c2 i a probes others others' capacity now times out rest k :
  (tick c now capacity).1 = c1 -> timing_ c1 = timing_ c -> asks a out = replicate k (Solicitation.mk a None) ->
  Z.b2z (due c a now) + others' / capacity <= Z.of_nat k + others / capacity ->
  tried c1 c2 i a (probes + Z.of_nat k) others' capacity times rest ->
  tried c c2 i a probes others capacity (now :: times) (out ++ rest).
Proof.
  intros Hc1 Htm Ha Hle (asked & Hr & Hend). exists (k + asked)%nat. rewrite asks_app, Ha, Hr, replicate_add. split; [done |].
  rewrite Htm in Hend. destruct Hend as [[? ?] | (d & Hw & Hlim & Hd)]; [left; split; [done | lia] | right]. exists d.
  cbn [due_ticks]. rewrite Hc1. split; [| lia]. by replace (probes + Z.of_nat (k + asked)) with (probes + Z.of_nat k + Z.of_nat asked) by lia.
Qed.

Lemma ticks_waiting capacity i a times : 0 < capacity -> forall c probes d others, cache_ok c -> waiting c i a probes d ->
  outstanding c <= NeighbourTiming.multicast_probes (timing_ c) - probes + others -> 0 <= others ->
  let '(c', out) := ticks capacity c times in cache_ok c' /\ tried c c' i a probes others capacity times out.
Proof.
  intros Hcap. induction times as [| now times IH]; intros c probes d others Hc Hw Hout Hoth; cbn [ticks];
    destruct (ok_entry _ _ _ c Hc i (proj1 Hw)) as (_ & Hpr & _); unfold probes_ok in Hpr; pose proof Hw as (_ & _ & Hs & _ & Hp & _); rewrite Hs, Hp in Hpr.
  { split; [done |]. exists 0%nat. split; [done |]. right. exists d. rewrite Z.add_0_r. split_and!; [done | lia |]. cbn. by apply Z.div_pos. }
  pose proof (tick_waiting Capacity Pending PacketBytes c i a probes d now capacity Hc Hw ltac:(lia)) as Ht.
  pose proof (waiting_due Capacity Pending PacketBytes c i a probes d now Hc Hw) as Hdue.
  destruct (tick c now capacity) as [c1 out] eqn:Etick. destruct Ht as (Hok & Htm & Hbud & Hcase). unfold waiting_tick in Hcase.
  assert ((tick c now capacity).1 = c1) as E1 by (by rewrite Etick). pose proof (zlen_nonneg out).
  assert (forall k others' d', asks a out = replicate k (Solicitation.mk a None) -> waiting c1 i a (probes + Z.of_nat k) d' ->
    outstanding c1 <= NeighbourTiming.multicast_probes (timing_ c) - (probes + Z.of_nat k) + others' -> 0 <= others' ->
    Z.b2z (due c a now) + others' / capacity <= Z.of_nat k + others / capacity ->
    let '(c', out') := let '(c2, rest) := ticks capacity c1 times in (c2, out ++ rest) in
    cache_ok c' /\ tried c c' i a probes others capacity (now :: times) out') as Hnext.
  { intros k others' d' Ha Hw' Hout' Hoth' Hle. rewrite <- Htm in Hout'. specialize (IH c1 _ d' others' Hok Hw' Hout' Hoth').
    destruct (ticks capacity c1 times) as [c2 rest]. destruct IH as [? Htried]. split; [done |]. by apply (tried_cons c c1 c2 i a probes others others' capacity now times out rest k). }
  rewrite Hdue in Hnext. destruct (now <? d); [| destruct (Z.leb_spec (NeighbourTiming.multicast_probes (timing_ c)) probes)].
  - destruct Hcase as [Hw1 Ha]. apply (Hnext 0%nat others d); rewrite ?Z.add_0_r; cbn; done || lia.
  - destruct Hcase as [Hab Ha]. pose proof (ticks_absent Capacity Pending PacketBytes capacity a times ltac:(lia) c1 Hok Hab) as Hr.
    destruct (ticks capacity c1 times) as [c2 rest]. destruct Hr as (? & ? & Hr). split; [done |].
    exists 0%nat. rewrite asks_app, Ha, Hr. split; [done |]. left. split; [done | lia].
  - destruct Hcase as [[Hw1 Ha] | (Hw1 & Ha & Hz)].
    + apply (Hnext 1%nat others _ Ha Hw1); cbn; try lia. assert (1 <= zlen out); [| lia].
      destruct out; [done | rewrite zlen_cons; pose proof (zlen_nonneg out); lia].
    + pose proof (outstanding_waiting c1 i a probes d Hok Hw1) as Hge. rewrite Htm in Hge.
      apply (Hnext 0%nat (others - capacity) d); rewrite ?Z.add_0_r; cbn; try done; try lia.
      replace (others / capacity) with ((others - capacity + 1 * capacity) / capacity) by (f_equal; lia). rewrite Z.div_add by lia. lia.
Qed.
End Given_up.

(** C26: a neighbour that never answers is given up, however few solicitations
    fit the output of a tick.  Over any sequence of ticks with room for at least
    one solicitation each, an INCOMPLETE neighbour is asked by multicast only,
    and either it has been asked up to the limit and is gone, with every packet
    held for it, or it is still INCOMPLETE with those probes counted and the
    ticks that found it due are no more than it was asked, plus the ticks the
    solicitations of the other entries can fill. *)
Theorem unanswered_neighbour_fails `{AddressKind} (Capacity Pending PacketBytes : Z) c a s times capacity :
  cache_ok Capacity Pending PacketBytes c -> 0 < capacity ->
  find c a = Some s -> NeighbourSnapshot.state s = NeighbourState.incomplete ->
  let remaining := NeighbourTiming.multicast_probes (timing_ c) - NeighbourSnapshot.probes s in
  let others := outstanding c - remaining in
  let '(c', out) := ticks capacity c times in
  cache_ok Capacity Pending PacketBytes c' /\
  exists asked, asks a out = replicate asked (Solicitation.mk a None) /\
    (find c' a = None /\ held c' a = 0 /\ Z.of_nat asked = remaining \/
     exists s', find c' a = Some s' /\ NeighbourSnapshot.state s' = NeighbourState.incomplete /\
       NeighbourSnapshot.probes s' = NeighbourSnapshot.probes s + Z.of_nat asked /\ Z.of_nat asked <= remaining /\
       due_ticks capacity c a times <= Z.of_nat asked + others / capacity).
Proof.
  intros Hc Hcap Hf Hs remaining others. unfold find in Hf. destruct (lookup c a) as [i |] eqn:Hl; [| done]. injection Hf as <-.
  apply (lookup_found Capacity Pending PacketBytes) in Hl as (Hi & Hu & Ha); [| done]. cbn in Hs, remaining |- *. fold (entry c i) in *.
  set (probes := Entry.probes (entry c i)) in *. assert (waiting Capacity c i a probes (Entry.deadline (entry c i))) as Hw by done.
  pose proof (outstanding_waiting Capacity Pending PacketBytes c i a _ _ Hc Hw).
  pose proof (ticks_waiting Capacity Pending PacketBytes capacity i a times Hcap c probes _ others Hc Hw ltac:(lia) ltac:(lia)) as Ht.
  destruct (ticks capacity c times) as [c' out]. destruct Ht as (Hok & asked & Hasks & Hend). split; [done |]. exists asked. split; [done |].
  destruct Hend as [[Hab ?] | (d & Hw' & Hlim & Hdue)]; [left | right].
  - destruct (gone_dropped Capacity Pending PacketBytes c' a Hok Hab). by split_and!.
  - destruct (waiting_find Capacity Pending PacketBytes c' i a _ d Hok Hw') as (s' & ? & ? & Hp & _). exists s'. split_and!; try done. lia.
Qed.

(** ** Witnesses: a cache of two neighbours, two packets of eight bytes *)
#[local] Existing Instance ipv4_kind.
Definition host (n : Z) : Bytes := [10; 0; 0; n].
Definition link (n : Z) : Bytes := [2; 0; 0; 0; 0; n].
Definition small_cache : t := new 2 2 8 NeighbourTiming.default_timing.
Definition after (script : list operation) : t := default small_cache (exec_ops 2 8 small_cache script).

Lemma after_ok script : zlen script <= u64_max -> cache_ok 2 2 8 (after script).
Proof.
  intros Hn. unfold after.
  destruct (exec_ops_good 2 2 8 ltac:(lia) script small_cache) as (c & -> & Hok & _); [| cbn; lia | done].
  by apply new_cache_ok.
Qed.

(** Two packets held for one neighbour, which answers; the third neighbour
    takes the place of the oldest. *)
Definition busy_script : list operation :=
  [Resolve (host 1) 10; Hold (host 1) [1; 2]; Hold (host 1) [3]; Update (host 1) (Some (link 1)) NeighbourUpdate.advertisement (NeighbourAdvertisement.mk false true true) 20].
Definition crowd : list operation := [Resolve (host 2) 20; Resolve (host 3) 30; Tick 5000 4; Hold (host 3) [7]; Flush [true; false]; Drop (host 2)].

Lemma neighbour_cache_witness : exists c, exec_ops 2 8 small_cache busy_script = Some c /\
  (resolve c (host 1) 30).2 = Ok (link 1) /\ multicast_address (link 1) = false.
Proof.
  destruct (neighbour_cache_invariant 2 2 8 NeighbourTiming.default_timing busy_script (host 1) 30) as (c & He & _ & Hr); [lia | lia | lia | done | done |].
  exists c. assert ((resolve c (host 1) 30).2 = Ok (link 1)) as Ha by (vm_compute in He; injection He as <-; by vm_compute).
  split; [exact He |]. split; [exact Ha |]. apply (Hr _ Ha).
Defined.

Lemma permanent_witness : exists c c', exec_ops 2 8 small_cache [] = Some c /\
  exec_ops 2 8 (add_permanent c (host 1) (link 9) 5).1 crowd = Some c' /\
  (resolve c' (host 1) 9000).2 = Ok (link 9).
Proof.
  destruct (permanent_neighbours_stay 2 2 8 NeighbourTiming.default_timing [] crowd (host 1) (link 9) 5)
    as (c & c' & He & He' & Hr); [lia | lia | lia | done | done | by vm_compute |].
  exists c, c'. split; [exact He |]. split; [exact He' |]. apply Hr. vm_compute in He. injection He as <-. by vm_compute.
Defined.

Lemma flush_witness : exists c', flush taking (after busy_script) [] =
  Some (c', [(link 1, host 1, [1; 2]); (link 1, host 1, [3])], 2) /\ entries_ c' = entries_ (after busy_script).
Proof.
  destruct (flush_in_order 2 2 8 (after busy_script)) as (c' & ks & Hf & _ & _ & He & _); [by apply after_ok |].
  exists c'. split; [| exact He]. rewrite Hf. vm_compute in Hf. injection Hf as _ Ho Hk. vm_compute. by rewrite <- ?Ho, <- ?Hk.
Defined.

(** Two hosts and room for one solicitation per tick: the first fills three of
    the seven ticks that find the second due, which is gone in the end. *)
Definition two_waiting : list operation := [Resolve (host 1) 10; Resolve (host 2) 15; Hold (host 2) [1; 2]].
Definition busy_times : list Z := [15; 1015; 2015; 3015; 4015; 5015; 6015].

Lemma unanswered_witness :
  let c := after two_waiting in
  let '(c', out) := ticks 1 c busy_times in
  held c (host 2) = 1 /\ due_ticks 1 c (host 2) busy_times = 7 /\
  find c' (host 2) = None /\ held c' (host 2) = 0 /\ asks (host 2) out = replicate 3 (Solicitation.mk (host 2) None).
Proof.
  assert (find (after two_waiting) (host 2) = Some (NeighbourSnapshot.mk (host 2) (replicate 6 0) NeighbourState.incomplete false 0 15 1)) as Hf by (vm_compute; reflexivity).
  pose proof (unanswered_neighbour_fails 2 2 8 (after two_waiting) (host 2)
    (NeighbourSnapshot.mk (host 2) (replicate 6 0) NeighbourState.incomplete false 0 15 1) busy_times 1 (after_ok two_waiting ltac:(by vm_compute)) ltac:(lia) Hf eq_refl) as Ht.
  assert (due_ticks 1 (after two_waiting) (host 2) busy_times = 7) as Hd by (vm_compute; reflexivity).
  assert (outstanding (after two_waiting) = 6) as Ho by (vm_compute; reflexivity).
  assert (NeighbourTiming.multicast_probes (timing_ (after two_waiting)) = 3) as Hm by (vm_compute; reflexivity).
  cbv zeta in Ht |- *. rewrite Hd, Ho, Hm in Ht. destruct (ticks _ _ _) as [c' out].
  destruct Ht as (_ & asked & Ha & [(Hn & Hh & Hk) | (s' & _ & _ & _ & Hk & Hle)]).
  - split; [vm_compute; reflexivity |]. split; [exact Hd |]. split; [exact Hn |]. split; [exact Hh |]. rewrite Ha. f_equal. cbn in Hk. lia.
  - exfalso. cbn [NeighbourSnapshot.probes] in Hk, Hle. rewrite Z.div_1_r in Hle. lia.
Defined.
