(* ===== verification/Address.v ===== *)
(** * Addresses of transport endpoints (include/ok/net/address.hpp)

    An address of either family; an IPv4 address keeps its four bytes in front
    of zeros.  Addresses of different families are never equal. *)

From S2P Require Import Prelude Epoch Wire Checksum Ip.

Module Family.
Inductive t := ipv4 | ipv6.
#[global] Instance eq_dec : EqDecision t.
Proof. solve_decision. Defined.
End Family.

Module IpAddress.
Record t := mk { family : Family.t; bytes : Bytes }.
#[global] Instance eq_dec : EqDecision t.
Proof. solve_decision. Defined.

Definition none : t := mk Family.ipv4 (replicate 16 0).
Definition of_ipv4 (address : Bytes) : t := mk Family.ipv4 (copy_bytes (replicate 16 0) 0 (array_at address 0 4)).
Definition of_ipv6 (address : Bytes) : t := mk Family.ipv6 address.

Definition v4 (a : t) : bool := bool_decide (family a = Family.ipv4).
Definition v6 (a : t) : bool := bool_decide (family a = Family.ipv6).
Definition ipv4 (a : t) : Bytes := [(bytes a).[0]; (bytes a).[1]; (bytes a).[2]; (bytes a).[3]].
Definition ipv6 (a : t) : Bytes := bytes a.
Definition unspecified (a : t) : bool := if v4 a then unspecified4 (ipv4 a) else unspecified6 (ipv6 a).

(** A unicast address a transport may use as either end of a connection. *)
Definition unicast (a : t) : bool :=
  if v4 a then negb ((bytes a).[0] =? 0) && ((bytes a).[0] <? 224)
  else negb (unspecified6 (ipv6 a)) && negb (multicast6 (ipv6 a)) && negb (loopback6 (ipv6 a)) && negb (ipv4_mapped (ipv6 a)).

(** Sixteen bytes, of which an IPv4 address uses four. *)
Definition ok (a : t) : Prop :=
  zlen (bytes a) = 16 /\ bytes_ok (bytes a) /\ (family a = Family.ipv4 -> rest (bytes a) 4 = replicate 12 0).

Lemma sixteen (l : Bytes) : zlen l = 16 -> exists a b c d r, l = a :: b :: c :: d :: r /\ zlen r = 12.
Proof.
  intros Hl. destruct l as [| a [| b [| c [| d r]]]]; try done. exists a, b, c, d, r. split; [done |].
  rewrite !zlen_cons in Hl. lia.
Qed.

(** The conversions are inverse to each other. *)
Lemma of_ipv4_ipv4 a : ok a -> family a = Family.ipv4 -> of_ipv4 (ipv4 a) = a.
Proof.
  destruct a as [f l]. intros (Hl & _ & Hz). cbn in *. intros ->. specialize (Hz eq_refl).
  destruct (sixteen l Hl) as (a & b & c & d & r & -> & Hr). change (r = replicate 12 0) in Hz. by subst r.
Qed.
Lemma ipv4_ok a : ok a -> zlen (ipv4 a) = 4 /\ bytes_ok (ipv4 a).
Proof.
  intros (Hl & Hb & _). destruct a as [f l]. cbn in *. destruct (sixteen l Hl) as (a & b & c & d & r & -> & Hr).
  split; [done |]. unfold bytes_ok, ipv4 in *. cbn. rewrite !Forall_cons in Hb. destruct Hb as (? & ? & ? & ? & _). repeat (apply Forall_cons_2; [done |]). apply Forall_nil_2.
Qed.
End IpAddress.
