(* ===== verification/TransportState.v ===== *)
(** * State of a TCP connection (include/ok/net/tcp_transport.hpp, data)

    Serial comparison of sequence numbers, endpoints, states, and the fields of
    class Connection.  The fields are grouped by the part of the protocol they
    belong to; a group is a coercion target, so that [snd_una_ c] is the member
    of the code, and [set_snd_una v c] is its assignment. *)

From S2P Require Import Prelude Epoch Wire Checksum Ip Address Congestion.

(** Serial comparisons are valid for distances below half the sequence space. *)
Definition before (a b : Z) : bool := negb (a =? b) && (u32_wrap (b - a) <? 0x80000000).
Definition after (a b : Z) : bool := before b a.
Definition between (value first last : Z) : bool :=
  (u32_wrap (last - first) <? 0x80000000) && (u32_wrap (value - first) <=? u32_wrap (last - first)).

Module Endpoint.
Record t := mk { address : IpAddress.t; port : Z }.
#[global] Instance eq_dec : EqDecision t.
Proof. solve_decision. Defined.
Definition none : t := mk IpAddress.none 0.
End Endpoint.

Module State.
Inductive t := closed | listen | syn_sent | syn_received | established | fin_wait_1 | fin_wait_2 | close_wait | closing | last_ack | time_wait.
#[global] Instance eq_dec : EqDecision t.
Proof. solve_decision. Defined.
End State.
Module Failure.
Inductive t := none | reset | refused | timed_out | aborted.
#[global] Instance eq_dec : EqDecision t.
Proof. solve_decision. Defined.
End Failure.
Module Ingress.
Inductive t := ignored | accepted | challenged | reset.
End Ingress.
Module PreparedPacket.
Record t := mk { length : Z; token : Z }.
End PreparedPacket.

Module Snapshot.
Record t := mk {
  state : State.t; failure : Failure.t; send_unacknowledged : Z; send_next : Z; receive_next : Z; send_buffered : Z; receive_buffered : Z;
  peer_window : Z; receive_window : Z; peer_mss : Z; retransmit_deadline : Z; time_wait_deadline : Z; rto_ms : Z; retransmissions : Z;
  flight : bool; eof : bool; write_shutdown : bool; prepared : bool; listener_armed : bool;
  congestion_window : Z; slow_start_threshold : Z; in_flight : Z; out_of_order : Z; duplicate_acks : Z; recovering : bool
}.
End Snapshot.

Module Connection.
Module Kind.
Inductive t := ack | syn | data | fin | retry | reset | fast | probe.
#[global] Instance eq_dec : EqDecision t.
Proof. solve_decision. Defined.
End Kind.
Module Timer.
Record t := mk { active : bool; deadline : Z; retries : Z }.
Definition none : t := mk false 0 0.
End Timer.
Module Plan.
Record t := mk {
  active : bool; token : Z; kind : Kind.t; destination : Endpoint.t; fields : TcpFields.t; payload : Z; offset : Z
}.
Definition none : t := mk false 0 Kind.ack Endpoint.none (TcpFields.mk 0 0 0 0 0 0 0) 0 0.
End Plan.
Module Range.
Record t := mk { start : Z; end_ : Z; fin : bool }.
Definition none : t := mk 0 0 false.
#[global] Instance inhabited : Inhabited t := populate none.
End Range.

(** The send side: the ring of unacknowledged and unsent bytes and its sequence numbers. *)
Record Send := mk_send {
  tx_ : Bytes; tx_head_ : Z; tx_size_ : Z; snd_una_ : Z; snd_nxt_ : Z; snd_max_ : Z; iss_ : Z;
  write_shutdown_ : bool; fin_acknowledged_ : bool
}.
(** The receive side: the ring of unread bytes and the ranges kept beyond them. *)
Record Receive := mk_receive {
  rx_ : Bytes; rx_head_ : Z; rx_size_ : Z; rcv_nxt_ : Z; irs_ : Z; eof_ : bool; ooo_ : list Range.t;
  ooo_count_ : Z
}.
(** What the peer announced. *)
Record Peer := mk_peer {
  peer_window_ : Z; peer_mss_ : Z; wl1_ : Z; wl2_ : Z
}.
(** Round-trip times. *)
Record Rtt := mk_rtt {
  rto_ : Z; srtt8_ : Z; variance4_ : Z; rtt_known_ : bool; rtt_timing_ : bool; rtt_sequence_ : Z;
  rtt_sent_at_ : Z; syn_retried_ : bool
}.
(** Loss recovery and the congestion policy. *)
Record Loss (Policy : Type) := mk_loss {
  dupacks_ : Z; recovery_ : bool; recover_ : Z; retransmit_head_ : bool; cc_ : Policy
}.
(** Timers. *)
Record Timers := mk_timers {
  rtx_ : Timer.t; time_wait_deadline_ : Z; fin_wait_deadline_ : Z; challenge_deadline_ : Z;
  challenge_seen_ : bool; persist_deadline_ : Z; last_now_ : Z
}.
(** Packets to be sent. *)
Record Pending := mk_pending {
  pending_syn_ : bool; pending_ack_ : bool; reset_pending_ : bool; reset_peer_ : Endpoint.t; reset_seq_ : Z
}.
(** State, endpoints and the outstanding packet. *)
Record Control := mk_control {
  state_ : State.t; failure_ : Failure.t; local_ : Endpoint.t; peer_ : Endpoint.t; passive_ : bool;
  listener_armed_ : bool; plan_ : Plan.t; next_token_ : Z
}.
Arguments mk_loss {Policy} _ _ _ _ _.
Arguments dupacks_ {Policy} _.
Arguments recovery_ {Policy} _.
Arguments recover_ {Policy} _.
Arguments retransmit_head_ {Policy} _.
Arguments cc_ {Policy} _.

Record t (Policy : Type) := mk {
  send : Send; receive_side : Receive; peer_side : Peer; rtt : Rtt; loss : Loss Policy; timers : Timers; pending : Pending; control : Control
}.
Arguments mk {Policy} _ _ _ _ _ _ _ _.
Arguments send {Policy} _.
Arguments receive_side {Policy} _.
Arguments peer_side {Policy} _.
Arguments rtt {Policy} _.
Arguments loss {Policy} _.
Arguments timers {Policy} _.
Arguments pending {Policy} _.
Arguments control {Policy} _.
Coercion send : t >-> Send.
Coercion receive_side : t >-> Receive.
Coercion peer_side : t >-> Peer.
Coercion rtt : t >-> Rtt.
Coercion loss : t >-> Loss.
Coercion timers : t >-> Timers.
Coercion pending : t >-> Pending.
Coercion control : t >-> Control.

Section Setters.
Context {Policy : Type}.
Definition with_send (v : Send) (c : t Policy) : t Policy := mk v (receive_side c) (peer_side c) (rtt c) (loss c) (timers c) (pending c) (control c).
Definition with_receive_side (v : Receive) (c : t Policy) : t Policy := mk (send c) v (peer_side c) (rtt c) (loss c) (timers c) (pending c) (control c).
Definition with_peer_side (v : Peer) (c : t Policy) : t Policy := mk (send c) (receive_side c) v (rtt c) (loss c) (timers c) (pending c) (control c).
Definition with_rtt (v : Rtt) (c : t Policy) : t Policy := mk (send c) (receive_side c) (peer_side c) v (loss c) (timers c) (pending c) (control c).
Definition with_loss (v : Loss Policy) (c : t Policy) : t Policy := mk (send c) (receive_side c) (peer_side c) (rtt c) v (timers c) (pending c) (control c).
Definition with_timers (v : Timers) (c : t Policy) : t Policy := mk (send c) (receive_side c) (peer_side c) (rtt c) (loss c) v (pending c) (control c).
Definition with_pending (v : Pending) (c : t Policy) : t Policy := mk (send c) (receive_side c) (peer_side c) (rtt c) (loss c) (timers c) v (control c).
Definition with_control (v : Control) (c : t Policy) : t Policy := mk (send c) (receive_side c) (peer_side c) (rtt c) (loss c) (timers c) (pending c) v.
Definition set_tx (v : Bytes) (c : t Policy) : t Policy :=
  with_send (mk_send v (tx_head_ c) (tx_size_ c) (snd_una_ c) (snd_nxt_ c) (snd_max_ c) (iss_ c) (write_shutdown_ c) (fin_acknowledged_ c)) c.
Definition set_tx_head (v : Z) (c : t Policy) : t Policy :=
  with_send (mk_send (tx_ c) v (tx_size_ c) (snd_una_ c) (snd_nxt_ c) (snd_max_ c) (iss_ c) (write_shutdown_ c) (fin_acknowledged_ c)) c.
Definition set_tx_size (v : Z) (c : t Policy) : t Policy :=
  with_send (mk_send (tx_ c) (tx_head_ c) v (snd_una_ c) (snd_nxt_ c) (snd_max_ c) (iss_ c) (write_shutdown_ c) (fin_acknowledged_ c)) c.
Definition set_snd_una (v : Z) (c : t Policy) : t Policy :=
  with_send (mk_send (tx_ c) (tx_head_ c) (tx_size_ c) v (snd_nxt_ c) (snd_max_ c) (iss_ c) (write_shutdown_ c) (fin_acknowledged_ c)) c.
Definition set_snd_nxt (v : Z) (c : t Policy) : t Policy :=
  with_send (mk_send (tx_ c) (tx_head_ c) (tx_size_ c) (snd_una_ c) v (snd_max_ c) (iss_ c) (write_shutdown_ c) (fin_acknowledged_ c)) c.
Definition set_snd_max (v : Z) (c : t Policy) : t Policy :=
  with_send (mk_send (tx_ c) (tx_head_ c) (tx_size_ c) (snd_una_ c) (snd_nxt_ c) v (iss_ c) (write_shutdown_ c) (fin_acknowledged_ c)) c.
Definition set_iss (v : Z) (c : t Policy) : t Policy :=
  with_send (mk_send (tx_ c) (tx_head_ c) (tx_size_ c) (snd_una_ c) (snd_nxt_ c) (snd_max_ c) v (write_shutdown_ c) (fin_acknowledged_ c)) c.
Definition set_write_shutdown (v : bool) (c : t Policy) : t Policy :=
  with_send (mk_send (tx_ c) (tx_head_ c) (tx_size_ c) (snd_una_ c) (snd_nxt_ c) (snd_max_ c) (iss_ c) v (fin_acknowledged_ c)) c.
Definition set_fin_acknowledged (v : bool) (c : t Policy) : t Policy :=
  with_send (mk_send (tx_ c) (tx_head_ c) (tx_size_ c) (snd_una_ c) (snd_nxt_ c) (snd_max_ c) (iss_ c) (write_shutdown_ c) v) c.
Definition set_rx (v : Bytes) (c : t Policy) : t Policy :=
  with_receive_side (mk_receive v (rx_head_ c) (rx_size_ c) (rcv_nxt_ c) (irs_ c) (eof_ c) (ooo_ c) (ooo_count_ c)) c.
Definition set_rx_head (v : Z) (c : t Policy) : t Policy :=
  with_receive_side (mk_receive (rx_ c) v (rx_size_ c) (rcv_nxt_ c) (irs_ c) (eof_ c) (ooo_ c) (ooo_count_ c)) c.
Definition set_rx_size (v : Z) (c : t Policy) : t Policy :=
  with_receive_side (mk_receive (rx_ c) (rx_head_ c) v (rcv_nxt_ c) (irs_ c) (eof_ c) (ooo_ c) (ooo_count_ c)) c.
Definition set_rcv_nxt (v : Z) (c : t Policy) : t Policy :=
  with_receive_side (mk_receive (rx_ c) (rx_head_ c) (rx_size_ c) v (irs_ c) (eof_ c) (ooo_ c) (ooo_count_ c)) c.
Definition set_irs (v : Z) (c : t Policy) : t Policy :=
  with_receive_side (mk_receive (rx_ c) (rx_head_ c) (rx_size_ c) (rcv_nxt_ c) v (eof_ c) (ooo_ c) (ooo_count_ c)) c.
Definition set_eof (v : bool) (c : t Policy) : t Policy :=
  with_receive_side (mk_receive (rx_ c) (rx_head_ c) (rx_size_ c) (rcv_nxt_ c) (irs_ c) v (ooo_ c) (ooo_count_ c)) c.
Definition set_ooo (v : list Range.t) (c : t Policy) : t Policy :=
  with_receive_side (mk_receive (rx_ c) (rx_head_ c) (rx_size_ c) (rcv_nxt_ c) (irs_ c) (eof_ c) v (ooo_count_ c)) c.
Definition set_ooo_count (v : Z) (c : t Policy) : t Policy :=
  with_receive_side (mk_receive (rx_ c) (rx_head_ c) (rx_size_ c) (rcv_nxt_ c) (irs_ c) (eof_ c) (ooo_ c) v) c.
Definition set_peer_window (v : Z) (c : t Policy) : t Policy :=
  with_peer_side (mk_peer v (peer_mss_ c) (wl1_ c) (wl2_ c)) c.
Definition set_peer_mss (v : Z) (c : t Policy) : t Policy :=
  with_peer_side (mk_peer (peer_window_ c) v (wl1_ c) (wl2_ c)) c.
Definition set_wl1 (v : Z) (c : t Policy) : t Policy :=
  with_peer_side (mk_peer (peer_window_ c) (peer_mss_ c) v (wl2_ c)) c.
Definition set_wl2 (v : Z) (c : t Policy) : t Policy :=
  with_peer_side (mk_peer (peer_window_ c) (peer_mss_ c) (wl1_ c) v) c.
Definition set_rto (v : Z) (c : t Policy) : t Policy :=
  with_rtt (mk_rtt v (srtt8_ c) (variance4_ c) (rtt_known_ c) (rtt_timing_ c) (rtt_sequence_ c) (rtt_sent_at_ c) (syn_retried_ c)) c.
Definition set_srtt8 (v : Z) (c : t Policy) : t Policy :=
  with_rtt (mk_rtt (rto_ c) v (variance4_ c) (rtt_known_ c) (rtt_timing_ c) (rtt_sequence_ c) (rtt_sent_at_ c) (syn_retried_ c)) c.
Definition set_variance4 (v : Z) (c : t Policy) : t Policy :=
  with_rtt (mk_rtt (rto_ c) (srtt8_ c) v (rtt_known_ c) (rtt_timing_ c) (rtt_sequence_ c) (rtt_sent_at_ c) (syn_retried_ c)) c.
Definition set_rtt_known (v : bool) (c : t Policy) : t Policy :=
  with_rtt (mk_rtt (rto_ c) (srtt8_ c) (variance4_ c) v (rtt_timing_ c) (rtt_sequence_ c) (rtt_sent_at_ c) (syn_retried_ c)) c.
Definition set_rtt_timing (v : bool) (c : t Policy) : t Policy :=
  with_rtt (mk_rtt (rto_ c) (srtt8_ c) (variance4_ c) (rtt_known_ c) v (rtt_sequence_ c) (rtt_sent_at_ c) (syn_retried_ c)) c.
Definition set_rtt_sequence (v : Z) (c : t Policy) : t Policy :=
  with_rtt (mk_rtt (rto_ c) (srtt8_ c) (variance4_ c) (rtt_known_ c) (rtt_timing_ c) v (rtt_sent_at_ c) (syn_retried_ c)) c.
Definition set_rtt_sent_at (v : Z) (c : t Policy) : t Policy :=
  with_rtt (mk_rtt (rto_ c) (srtt8_ c) (variance4_ c) (rtt_known_ c) (rtt_timing_ c) (rtt_sequence_ c) v (syn_retried_ c)) c.
Definition set_syn_retried (v : bool) (c : t Policy) : t Policy :=
  with_rtt (mk_rtt (rto_ c) (srtt8_ c) (variance4_ c) (rtt_known_ c) (rtt_timing_ c) (rtt_sequence_ c) (rtt_sent_at_ c) v) c.
Definition set_dupacks (v : Z) (c : t Policy) : t Policy :=
  with_loss (mk_loss v (recovery_ c) (recover_ c) (retransmit_head_ c) (cc_ c)) c.
Definition set_recovery (v : bool) (c : t Policy) : t Policy :=
  with_loss (mk_loss (dupacks_ c) v (recover_ c) (retransmit_head_ c) (cc_ c)) c.
Definition set_recover (v : Z) (c : t Policy) : t Policy :=
  with_loss (mk_loss (dupacks_ c) (recovery_ c) v (retransmit_head_ c) (cc_ c)) c.
Definition set_retransmit_head (v : bool) (c : t Policy) : t Policy :=
  with_loss (mk_loss (dupacks_ c) (recovery_ c) (recover_ c) v (cc_ c)) c.
Definition set_cc (v : Policy) (c : t Policy) : t Policy :=
  with_loss (mk_loss (dupacks_ c) (recovery_ c) (recover_ c) (retransmit_head_ c) v) c.
Definition set_rtx (v : Timer.t) (c : t Policy) : t Policy :=
  with_timers (mk_timers v (time_wait_deadline_ c) (fin_wait_deadline_ c) (challenge_deadline_ c) (challenge_seen_ c) (persist_deadline_ c) (last_now_ c)) c.
Definition set_time_wait_deadline (v : Z) (c : t Policy) : t Policy :=
  with_timers (mk_timers (rtx_ c) v (fin_wait_deadline_ c) (challenge_deadline_ c) (challenge_seen_ c) (persist_deadline_ c) (last_now_ c)) c.
Definition set_fin_wait_deadline (v : Z) (c : t Policy) : t Policy :=
  with_timers (mk_timers (rtx_ c) (time_wait_deadline_ c) v (challenge_deadline_ c) (challenge_seen_ c) (persist_deadline_ c) (last_now_ c)) c.
Definition set_challenge_deadline (v : Z) (c : t Policy) : t Policy :=
  with_timers (mk_timers (rtx_ c) (time_wait_deadline_ c) (fin_wait_deadline_ c) v (challenge_seen_ c) (persist_deadline_ c) (last_now_ c)) c.
Definition set_challenge_seen (v : bool) (c : t Policy) : t Policy :=
  with_timers (mk_timers (rtx_ c) (time_wait_deadline_ c) (fin_wait_deadline_ c) (challenge_deadline_ c) v (persist_deadline_ c) (last_now_ c)) c.
Definition set_persist_deadline (v : Z) (c : t Policy) : t Policy :=
  with_timers (mk_timers (rtx_ c) (time_wait_deadline_ c) (fin_wait_deadline_ c) (challenge_deadline_ c) (challenge_seen_ c) v (last_now_ c)) c.
Definition set_last_now (v : Z) (c : t Policy) : t Policy :=
  with_timers (mk_timers (rtx_ c) (time_wait_deadline_ c) (fin_wait_deadline_ c) (challenge_deadline_ c) (challenge_seen_ c) (persist_deadline_ c) v) c.
Definition set_pending_syn (v : bool) (c : t Policy) : t Policy :=
  with_pending (mk_pending v (pending_ack_ c) (reset_pending_ c) (reset_peer_ c) (reset_seq_ c)) c.
Definition set_pending_ack (v : bool) (c : t Policy) : t Policy :=
  with_pending (mk_pending (pending_syn_ c) v (reset_pending_ c) (reset_peer_ c) (reset_seq_ c)) c.
Definition set_reset_pending (v : bool) (c : t Policy) : t Policy :=
  with_pending (mk_pending (pending_syn_ c) (pending_ack_ c) v (reset_peer_ c) (reset_seq_ c)) c.
Definition set_reset_peer (v : Endpoint.t) (c : t Policy) : t Policy :=
  with_pending (mk_pending (pending_syn_ c) (pending_ack_ c) (reset_pending_ c) v (reset_seq_ c)) c.
Definition set_reset_seq (v : Z) (c : t Policy) : t Policy :=
  with_pending (mk_pending (pending_syn_ c) (pending_ack_ c) (reset_pending_ c) (reset_peer_ c) v) c.
Definition set_state (v : State.t) (c : t Policy) : t Policy :=
  with_control (mk_control v (failure_ c) (local_ c) (peer_ c) (passive_ c) (listener_armed_ c) (plan_ c) (next_token_ c)) c.
Definition set_failure (v : Failure.t) (c : t Policy) : t Policy :=
  with_control (mk_control (state_ c) v (local_ c) (peer_ c) (passive_ c) (listener_armed_ c) (plan_ c) (next_token_ c)) c.
Definition set_local (v : Endpoint.t) (c : t Policy) : t Policy :=
  with_control (mk_control (state_ c) (failure_ c) v (peer_ c) (passive_ c) (listener_armed_ c) (plan_ c) (next_token_ c)) c.
Definition set_peer (v : Endpoint.t) (c : t Policy) : t Policy :=
  with_control (mk_control (state_ c) (failure_ c) (local_ c) v (passive_ c) (listener_armed_ c) (plan_ c) (next_token_ c)) c.
Definition set_passive (v : bool) (c : t Policy) : t Policy :=
  with_control (mk_control (state_ c) (failure_ c) (local_ c) (peer_ c) v (listener_armed_ c) (plan_ c) (next_token_ c)) c.
Definition set_listener_armed (v : bool) (c : t Policy) : t Policy :=
  with_control (mk_control (state_ c) (failure_ c) (local_ c) (peer_ c) (passive_ c) v (plan_ c) (next_token_ c)) c.
Definition set_plan (v : Plan.t) (c : t Policy) : t Policy :=
  with_control (mk_control (state_ c) (failure_ c) (local_ c) (peer_ c) (passive_ c) (listener_armed_ c) v (next_token_ c)) c.
Definition set_next_token (v : Z) (c : t Policy) : t Policy :=
  with_control (mk_control (state_ c) (failure_ c) (local_ c) (peer_ c) (passive_ c) (listener_armed_ c) (plan_ c) v) c.
End Setters.

End Connection.
