(* ===== verification/Transport.v ===== *)
(** * A TCP connection (include/ok/net/tcp_transport.hpp, operations)

    Every operation of class Connection over the state of [TransportState].
    The congestion policy is any instance of [CongestionControl]; a division by
    0 in it, or a parser out of fuel, is [None].  The addresses of the control
    block and of the two local arrays of prepare() are variables: the code
    refuses buffers that overlap the control block. *)

From S2P Require Import Prelude Epoch Wire Checksum Ip Address Congestion TransportState.
Import Connection.

Definition msl_ms : Z := 120000.
Definition max_rto_ms : Z := 60000.
Definition max_retransmissions : Z := 8.
Definition fast_retransmit_threshold : Z := 3.
Definition max_out_of_order : Z := 4.

Definition deadline (now delay : Z) : Z := if u64_max - delay <? now then u64_max else now + delay.
Definition valid_endpoint (ep : Endpoint.t) : bool := negb (Endpoint.port ep =? 0) && IpAddress.unicast (Endpoint.address ep).

(** Whether a segment has one of the flags. *)
Definition has (f : TcpFields.t) (flags : Z) : bool := negb (Z.land (TcpFields.flags f) flags =? 0).

(** [for (i = 0; i < n; ++i) ring[(at + i) % capacity] = bytes[i]] and the
    loop that reads the ring. *)
Fixpoint ring_put (capacity : Z) (ring : Bytes) (at_ : Z) (bytes : Bytes) : Bytes :=
  match bytes with
  | [] => ring
  | b :: bytes => ring_put capacity ring.[at_ mod capacity := b] (at_ + 1) bytes
  end.
Definition ring_get (capacity : Z) (ring : Bytes) (at_ n : Z) : Bytes := map (fun i => ring.[(at_ + i) mod capacity]) (indices n).

Section Operations.
Context {Policy : Type} `{CongestionControl Policy} `{Arch}.
Context (initial : Policy) (SendCapacity ReceiveCapacity SegmentCapacity : Z).
Context (self sizeof_self mss_address payload_address : Z).
Local Abbreviation t := (t Policy).

Definition aliases_self (input : Span.t) : bool :=
  if Span.size input =? 0 then false
  else if self <=? Span.data input then Span.data input - self <? sizeof_self else self - Span.data input <? Span.size input.

(** ** Derived values *)
Definition window (c : t) : Z := u16_wrap (ReceiveCapacity - rx_size_ c).
Definition segment_of (mss : Z) : Z := Z.min SegmentCapacity mss.
Definition segment (c : t) : Z := segment_of (peer_mss_ c).
Definition outstanding (c : t) : Z := u32_wrap (snd_nxt_ c - snd_una_ c).
Definition fin_sequence (c : t) : Z := u32_wrap (snd_una_ c + tx_size_ c).
Definition fin_in_flight (c : t) : bool := write_shutdown_ c && (snd_nxt_ c =? u32_wrap (fin_sequence c + 1)).
Definition fin_sent (c : t) : bool := write_shutdown_ c && after (snd_max_ c) (fin_sequence c).
Definition sent_data (c : t) : Z := u32_wrap (outstanding c - if fin_in_flight c then 1 else 0).
Definition sending (c : t) : bool :=
  match state_ c with
  | State.established | State.close_wait | State.fin_wait_1 | State.closing | State.last_ack => true
  | _ => false
  end.
Definition out_of_order (c : t) : Z :=
  zsum (fun i => u32_wrap (Range.end_ (ooo_ c).[i] - Range.start (ooo_ c).[i])) (indices (ooo_count_ c)).

Definition snapshot (c : t) : Snapshot.t :=
  Snapshot.mk (state_ c) (failure_ c) (snd_una_ c) (snd_nxt_ c) (rcv_nxt_ c) (tx_size_ c) (rx_size_ c) (peer_window_ c) (window c) (peer_mss_ c)
    (if Timer.active (rtx_ c) then Timer.deadline (rtx_ c) else 0) (time_wait_deadline_ c) (rto_ c) (Timer.retries (rtx_ c)) (Timer.active (rtx_ c))
    (eof_ c) (write_shutdown_ c) (Plan.active (plan_ c)) (listener_armed_ c) (Congestion.window (cc_ c)) (threshold (cc_ c)) (outstanding c) (out_of_order c)
    (dupacks_ c) (recovery_ c).

(** ** Helpers *)
Definition start_sequence (iss : Z) (c : t) : t :=
  set_iss iss (set_snd_una iss (set_snd_nxt iss (set_snd_max iss (set_recover iss c)))).
Definition time (end_ now : Z) (c : t) : t :=
  if rtt_timing_ c then c else set_rtt_timing true (set_rtt_sequence end_ (set_rtt_sent_at now c)).
Definition arm (now : Z) (c : t) : t :=
  if Timer.active (rtx_ c) then c else set_rtx (Timer.mk true (deadline now (rto_ c)) 0) c.
Definition queue_reset (destination : Endpoint.t) (seq : Z) (c : t) : t :=
  set_reset_pending true (set_reset_peer destination (set_reset_seq seq c)).
Definition challenge (now : Z) (c : t) : t * Ingress.t :=
  (if negb (challenge_seen_ c) || (challenge_deadline_ c <=? now)
   then set_pending_ack true (set_challenge_seen true (set_challenge_deadline (deadline now 1000) c)) else c,
   Ingress.challenged).
Definition enter_time_wait (now : Z) (c : t) : t :=
  set_state State.time_wait (set_time_wait_deadline (deadline now (2 * msl_ms)) (set_rtx Timer.none c)).
Definition terminate (reason : Failure.t) (c : t) : t :=
  let c := set_state State.closed (set_failure reason (set_tx_size 0 (set_rx_size 0 (set_ooo_count 0 c)))) in
  let c := set_rtx Timer.none c in
  set_pending_syn false (set_pending_ack false (set_reset_pending false (set_retransmit_head false (set_write_shutdown true c)))).

(** Packet token generation and monotonic time survive. *)
Definition reset_fields (c : t) : t :=
  mk (mk_send (tx_ c) 0 0 0 0 0 0 false false)
     (mk_receive (rx_ c) 0 0 0 0 false (ooo_ c) 0)
     (mk_peer 0 536 0 0)
     (mk_rtt 1000 0 0 false false 0 0 false)
     (mk_loss 0 false 0 false (start initial (segment_of 536)))
     (mk_timers Timer.none 0 0 0 false 0 (last_now_ c))
     (mk_pending false false false (reset_peer_ c) (reset_seq_ c))
     (mk_control State.closed Failure.none (local_ c) Endpoint.none false false Plan.none (next_token_ c)).
Definition return_to_listen (c : t) : t :=
  let iss := iss_ c in
  set_state State.listen (set_passive true (start_sequence iss (reset_fields c))).

(** A control block as it is constructed. *)
Definition new : t :=
  mk (mk_send (replicate (Z.to_nat SendCapacity) 0) 0 0 0 0 0 0 false false)
     (mk_receive (replicate (Z.to_nat ReceiveCapacity) 0) 0 0 0 0 false (replicate (Z.to_nat max_out_of_order) Range.none) 0)
     (mk_peer 0 536 0 0)
     (mk_rtt 1000 0 0 false false 0 0 false)
     (mk_loss 0 false 0 false initial)
     (mk_timers Timer.none 0 0 0 false 0 0)
     (mk_pending false false false Endpoint.none 0)
     (mk_control State.closed Failure.none Endpoint.none Endpoint.none false false Plan.none 0).

(** ** Opening and closing *)
Definition in_use (c : t) : bool :=
  Plan.active (plan_ c) || negb (bool_decide (state_ c = State.closed)) || negb (rx_size_ c =? 0).

Definition active_open (c : t) (local peer : Endpoint.t) (iss now : Z) : t * Status :=
  if in_use c then (c, StatusCode.busy)
  else if negb (valid_endpoint local) || negb (valid_endpoint peer) ||
          negb (bool_decide (IpAddress.family (Endpoint.address local) = IpAddress.family (Endpoint.address peer)))
  then (c, StatusCode.invalid_argument)
  else if now <? last_now_ c then (c, StatusCode.invalid_argument)
  else
    let c := start_sequence iss (set_peer peer (set_local local (reset_fields c))) in
    (set_last_now now (set_pending_syn true (set_state State.syn_sent c)), StatusCode.ok).

Definition passive_open (c : t) (local : Endpoint.t) (iss now : Z) : t * Status :=
  if in_use c then (c, StatusCode.busy)
  else if negb (valid_endpoint local) then (c, StatusCode.invalid_argument)
  else if now <? last_now_ c then (c, StatusCode.invalid_argument)
  else
    let c := start_sequence iss (set_local local (reset_fields c)) in
    (set_last_now now (set_listener_armed true (set_passive true (set_state State.listen c))), StatusCode.ok).

Definition rearm_listener (c : t) (iss now : Z) : t * Status :=
  if Plan.active (plan_ c) || negb (bool_decide (state_ c = State.listen)) || listener_armed_ c || reset_pending_ c
  then (c, StatusCode.busy)
  else if (now <? last_now_ c) || (iss =? iss_ c) then (c, StatusCode.invalid_argument)
  else (set_last_now now (set_listener_armed true (start_sequence iss c)), StatusCode.ok).

Definition abort (c : t) : t * Status :=
  if Plan.active (plan_ c) then (c, StatusCode.busy) else (terminate Failure.aborted c, StatusCode.ok).

Definition shutdown_write (c : t) : t * Status :=
  if Plan.active (plan_ c) then (c, StatusCode.busy)
  else if negb (bool_decide (state_ c = State.established)) && negb (bool_decide (state_ c = State.close_wait)) then (c, StatusCode.fault)
  else (set_write_shutdown true c, StatusCode.ok).

(** ** The byte stream *)
Definition write (c : t) (input : Span.t) : t * result Z :=
  if Plan.active (plan_ c) then (c, Err StatusCode.busy)
  else if write_shutdown_ c || (negb (bool_decide (state_ c = State.established)) && negb (bool_decide (state_ c = State.close_wait)))
  then (c, Err StatusCode.fault)
  else if aliases_self input then (c, Err StatusCode.invalid_argument)
  else if Span.size input =? 0 then (c, Ok 0)
  else
    let count := Z.min (Span.size input) (SendCapacity - tx_size_ c) in
    if count =? 0 then (c, Err StatusCode.would_block)
    else (set_tx_size (tx_size_ c + count)
            (set_tx (ring_put SendCapacity (tx_ c) (tx_head_ c + tx_size_ c) (first (Span.bytes input) count)) c), Ok count).

(** The common part of peek() and read(): the bytes copied to the output, whose
    address and size are given. *)
Definition peek (c : t) (output : Span.t) : result Bytes :=
  if Plan.active (plan_ c) then Err StatusCode.busy
  else if aliases_self output then Err StatusCode.invalid_argument
  else if negb (bool_decide (failure_ c = Failure.none)) then Err StatusCode.fault
  else if Span.size output =? 0 then Ok []
  else if rx_size_ c =? 0 then if eof_ c then Ok [] else Err StatusCode.would_block
  else Ok (ring_get ReceiveCapacity (rx_ c) (rx_head_ c) (Z.min (Span.size output) (rx_size_ c))).

Definition read (c : t) (output : Span.t) : t * result Bytes :=
  if Plan.active (plan_ c) then (c, Err StatusCode.busy)
  else if aliases_self output then (c, Err StatusCode.invalid_argument)
  else if negb (bool_decide (failure_ c = Failure.none)) then (c, Err StatusCode.fault)
  else if Span.size output =? 0 then (c, Ok [])
  else if rx_size_ c =? 0 then (c, if eof_ c then Ok [] else Err StatusCode.would_block)
  else
    let count := Z.min (Span.size output) (rx_size_ c) in
    let bytes := ring_get ReceiveCapacity (rx_ c) (rx_head_ c) count in
    let c := set_rx_head ((rx_head_ c + count) mod ReceiveCapacity) (set_rx_size (rx_size_ c - count) c) in
    let c := if negb (bool_decide (state_ c = State.closed)) && negb (bool_decide (state_ c = State.listen)) then set_pending_ack true c else c in
    (c, Ok bytes).

(** ** Acknowledgments *)
Definition sample_rtt (sample : Z) (c : t) : t :=
  let sample := Z.min sample (max_rto_ms * 1024) in
  let c :=
    if negb (rtt_known_ c) then set_srtt8 (u64_wrap (sample * 8)) (set_variance4 (u64_wrap (sample * 2)) (set_rtt_known true c))
    else
      let old_srtt := srtt8_ c / 8 in
      let error := if sample <? old_srtt then old_srtt - sample else sample - old_srtt in
      let c := set_variance4 (u64_wrap (3 * variance4_ c + 4 * error) / 4) c in
      set_srtt8 (u64_wrap (7 * srtt8_ c + sample * 8) / 8) c in
  let computed := u64_wrap (u64_wrap (srtt8_ c + 7) / 8 + (if variance4_ c =? 0 then 1 else variance4_ c)) in
  set_rto (Z.min (if computed <? 1000 then 1000 else computed) max_rto_ms) c.

(** The RFC 6582 part: leaving recovery, a partial acknowledgment, or growth. *)
Definition acknowledge_loss (ack released : Z) (c : t) : option t :=
  if recovery_ c then
    if negb (before ack (recover_ c))
    then Some (set_recovery false (set_cc (exit_recovery (cc_ c) (u32_wrap (snd_max_ c - snd_una_ c)) (segment c)) c))
    else Some (set_retransmit_head true (set_cc (partial (cc_ c) released (segment c)) c))
  else if negb (released =? 0) then match acknowledged (cc_ c) released (segment c) with Some cc => Some (set_cc cc c) | None => None end
  else Some c.

Definition acknowledge_timer (now : Z) (c : t) : t :=
  let c := set_rtx (Timer.mk (Timer.active (rtx_ c)) (Timer.deadline (rtx_ c)) 0) c in
  if snd_una_ c =? snd_max_ c then set_rtx Timer.none c
  else set_rtx (Timer.mk (Timer.active (rtx_ c)) (deadline now (rto_ c)) (Timer.retries (rtx_ c))) c.

(** What the acknowledgment of the FIN does to the state. *)
Definition acknowledge_fin (now : Z) (c : t) : t :=
  match state_ c with
  | State.fin_wait_1 => set_state State.fin_wait_2 (set_fin_wait_deadline (deadline now (2 * msl_ms)) c)
  | State.closing => enter_time_wait now c
  | State.last_ack => set_state State.closed (set_pending_ack false c)
  | _ => c
  end.

Definition acknowledge (ack now : Z) (c : t) : option t :=
  if negb (after ack (snd_una_ c)) || after ack (snd_max_ c) then Some c
  else
    let syn := match state_ c with State.syn_sent | State.syn_received => true | _ => false end in
    let fin := fin_sent c && (ack =? u32_wrap (fin_sequence c + 1)) in
    let data := u32_wrap (u32_wrap (ack - snd_una_ c) - (if syn then 1 else 0) - (if fin then 1 else 0)) in
    let released := Z.min data (tx_size_ c) in
    let c := set_tx_head ((tx_head_ c + released) mod SendCapacity) (set_tx_size (tx_size_ c - released) c) in
    let c := if rtt_timing_ c && negb (before ack (rtt_sequence_ c))
             then set_rtt_timing false (sample_rtt (u64_wrap (now - rtt_sent_at_ c)) c) else c in
    let c := set_snd_una ack c in
    let c := if before (snd_nxt_ c) (snd_una_ c) then set_snd_nxt (snd_una_ c) c else c in
    let c := if fin then set_fin_acknowledged true c else c in
    let c := set_dupacks 0 c in
    match acknowledge_loss ack released c with
    | None => None
    | Some c =>
        let c := acknowledge_timer now c in
        Some (if fin then acknowledge_fin now c else c)
    end.

Definition duplicate_ack (c : t) : t :=
  let c := if negb (dupacks_ c =? 0xff) then set_dupacks (dupacks_ c + 1) c else c in
  if recovery_ c then set_cc (duplicate (cc_ c) (segment c)) c
  else if (dupacks_ c =? fast_retransmit_threshold) && after (snd_una_ c) (recover_ c) then
    let c := set_cc (enter_recovery (cc_ c) (u32_wrap (snd_max_ c - snd_una_ c)) (segment c)) c in
    set_recover (snd_max_ c) (set_recovery true (set_retransmit_head true c))
  else c.

(** ** Received bytes *)
Definition acceptable (c : t) (seq length : Z) : bool :=
  let wnd := window c in
  let within value := u32_wrap (value - rcv_nxt_ c) <? wnd in
  if length =? 0 then if negb (wnd =? 0) then within seq else seq =? rcv_nxt_ c
  else negb (wnd =? 0) && (within seq || within (u32_wrap (seq + length - 1))).

(** [ooo_[i] = ooo_[--ooo_count_]] *)
Definition remove_range (i : Z) (c : t) : t :=
  let c := set_ooo_count (ooo_count_ c - 1) c in
  set_ooo (ooo_ c).[i := (ooo_ c).[ooo_count_ c]] c.

(** The loop of remember() from [i] on: [n] records are left to be visited. *)
Fixpoint remember_loop (n : nat) (i start end_ : Z) (fin : bool) (c : t) : t * Range.t :=
  match n with
  | O => (c, Range.mk start end_ fin)
  | S n' =>
      let r := (ooo_ c).[i] in
      if before end_ (Range.start r) || before (Range.end_ r) start then remember_loop n' (i + 1) start end_ fin c
      else
        let first := if before (Range.start r) start then Range.start r else start in
        let last := if after (Range.end_ r) end_ then Range.end_ r else end_ in
        let fin := (fin && (end_ =? last)) || (Range.fin r && (Range.end_ r =? last)) in
        remember_loop n' i first last fin (remove_range i c)
  end.
Definition remember (start end_ : Z) (fin : bool) (c : t) : t :=
  if (start =? end_) && negb fin then c
  else
    let '(c, range) := remember_loop (Z.to_nat (ooo_count_ c)) 0 start end_ fin c in
    if ooo_count_ c <? max_out_of_order
    then set_ooo (ooo_ c).[ooo_count_ c := range] (set_ooo_count (ooo_count_ c + 1) c) else c.

(** One pass of the joining loop: the first range that begins at or before
    RCV.NXT, if any. *)
Definition joinable (c : t) : option Z := List.find (fun i => negb (after (Range.start (ooo_ c).[i]) (rcv_nxt_ c))) (indices (ooo_count_ c)).
Definition join_range (i : Z) (final : bool) (c : t) : t * bool :=
  let range := (ooo_ c).[i] in
  let '(c, final) :=
    if after (Range.end_ range) (rcv_nxt_ c)
    then (set_rcv_nxt (Range.end_ range) (set_rx_size (rx_size_ c + u32_wrap (Range.end_ range - rcv_nxt_ c)) c), false)
    else (c, final) in
  let final := if Range.fin range && (Range.end_ range =? rcv_nxt_ c) then true else final in
  (remove_range i c, final).
(** Every pass but the last removes a record: [n] is the number of records. *)
Fixpoint join (n : nat) (final : bool) (c : t) : t * bool :=
  match joinable c with
  | None => (c, final)
  | Some i => match n with O => (c, final) | S n' => let '(c, final) := join_range i final c in join n' final c end
  end.

(** What the FIN does when all bytes before it have arrived. *)
Definition finish (now : Z) (c : t) : t :=
  let c := set_rcv_nxt (u32_wrap (rcv_nxt_ c + 1)) (set_eof true (set_ooo_count 0 c)) in
  match state_ c with
  | State.established => set_state State.close_wait c
  | State.fin_wait_1 => set_state State.closing c
  | State.fin_wait_2 => enter_time_wait now c
  | _ => c
  end.

Definition consume (seg : Tcp.t) (now : Z) (c : t) : t :=
  let f := Tcp.fields seg in
  let fin := has f tcp_fin in
  if (zlen (Tcp.payload seg) =? 0) && negb fin then c
  else
    let c := set_pending_ack true c in
    if eof_ c then c
    else
      let old := before (TcpFields.sequence f) (rcv_nxt_ c) in
      let skip := if old then u32_wrap (rcv_nxt_ c - TcpFields.sequence f) else 0 in
      if zlen (Tcp.payload seg) <? skip then c
      else
        let data := rest (Tcp.payload seg) skip in
        let sequence := if old then rcv_nxt_ c else TcpFields.sequence f in
        let free := ReceiveCapacity - rx_size_ c in
        let offset := u32_wrap (sequence - rcv_nxt_ c) in
        if free <=? offset then c
        else
          let count := Z.min (zlen data) (free - offset) in
          let c := set_rx (ring_put ReceiveCapacity (rx_ c) (rx_head_ c + rx_size_ c + offset) (first data count)) c in
          let closes := fin && (count =? zlen data) in
          if negb (offset =? 0) then remember sequence (u32_wrap (sequence + count)) closes c
          else
            let c := set_rx_size (rx_size_ c + count) (set_rcv_nxt (u32_wrap (rcv_nxt_ c + count)) c) in
            let '(c, final) := join (Z.to_nat (ooo_count_ c)) closes c in
            if final && negb (window c =? 0) then finish now c else c.

(** ** Received segments *)

(** The loop over the options: the announced segment size, if any. *)
Fixpoint mss_loop (n : nat) (cursor : TcpOptions.t) : option Z :=
  match n with
  | O => None
  | S n' =>
      match TcpOptions.next cursor with
      | (cursor, Ok (Some option)) =>
          if TcpOption.kind option =? 2 then
            let value := be16 (TcpOption.data option) 0 in
            if negb (value =? 0) then Some value else mss_loop n' cursor
          else mss_loop n' cursor
      | _ => Some 536
      end
  end.
Definition negotiate_mss (seg : Tcp.t) (c : t) : option t :=
  match mss_loop (S (length (Tcp.options seg))) (TcpOptions.new (Tcp.options seg) (TcpFields.flags (Tcp.fields seg))) with
  | None => None
  | Some mss => let c := set_peer_mss mss c in Some (set_cc (start (cc_ c) (segment c)) c)
  end.

Definition raise_rto (c : t) : t := if syn_retried_ c && (rto_ c <? 3000) then set_rto 3000 c else c.

Definition receive_syn (seg : Tcp.t) (now : Z) (c : t) : option (t * Ingress.t) :=
  let f := Tcp.fields seg in
  if bool_decide (state_ c = State.syn_received) && negb (passive_ c) && (TcpFields.sequence f =? irs_ c) && has f tcp_ack &&
     negb (has f tcp_fin) && (TcpFields.acknowledgment f =? snd_max_ c) && (snd_max_ c =? u32_wrap (iss_ c + 1))
  then
    match acknowledge (TcpFields.acknowledgment f) now c with
    | None => None
    | Some c =>
        let c := set_pending_syn false (set_state State.established c) in
        let c := set_wl2 (TcpFields.acknowledgment f) (set_wl1 (TcpFields.sequence f) (set_peer_window (TcpFields.window f) c)) in
        Some (raise_rto (set_pending_ack true c), Ingress.accepted)
    end
  else Some (challenge now c).

(** The window fields of a segment that carries the peer's SYN. *)
Definition record_syn (f : TcpFields.t) (wl2 : Z) (c : t) : t :=
  let c := set_rcv_nxt (u32_wrap (TcpFields.sequence f + 1)) (set_irs (TcpFields.sequence f) c) in
  set_wl2 wl2 (set_wl1 (TcpFields.sequence f) (set_peer_window (TcpFields.window f) c)).

Definition ingress_listen (source : Endpoint.t) (seg : Tcp.t) (c : t) : option (t * result Ingress.t) :=
  let f := Tcp.fields seg in
  if has f tcp_rst then Some (c, Ok Ingress.ignored)
  else if has f tcp_ack then Some (queue_reset source (TcpFields.acknowledgment f) c, Ok Ingress.accepted)
  else if negb (has f tcp_syn) || has f tcp_fin then Some (c, Ok Ingress.ignored)
  else if negb (listener_armed_ c) then Some (c, Err StatusCode.not_initialized)
  else
    let c := record_syn f 0 (set_peer source (set_listener_armed false c)) in
    match negotiate_mss seg c with
    | None => None
    | Some c => Some (set_pending_syn true (set_state State.syn_received c), Ok Ingress.accepted)
    end.

Definition ingress_syn_sent (seg : Tcp.t) (now : Z) (c : t) : option (t * result Ingress.t) :=
  let f := Tcp.fields seg in
  let ack := has f tcp_ack in
  if ack && (negb (TcpFields.acknowledgment f =? u32_wrap (iss_ c + 1)) || negb (snd_max_ c =? u32_wrap (iss_ c + 1)))
  then Some (if negb (has f tcp_rst) then queue_reset (peer_ c) (TcpFields.acknowledgment f) c else c, Ok Ingress.ignored)
  else if has f tcp_rst then
    Some (if ack then (terminate Failure.refused c, Ok Ingress.reset) else (c, Ok Ingress.ignored))
  else if negb (has f tcp_syn) || has f tcp_fin then Some (c, Ok Ingress.ignored)
  else
    match negotiate_mss seg (record_syn f (if ack then TcpFields.acknowledgment f else 0) c) with
    | None => None
    | Some c =>
        if ack then
          match acknowledge (TcpFields.acknowledgment f) now c with
          | None => None
          | Some c => Some (set_pending_ack true (set_pending_syn false (raise_rto (set_state State.established c))), Ok Ingress.accepted)
          end
        else Some (set_pending_syn true (set_state State.syn_received c), Ok Ingress.accepted)
    end.

(** The acknowledgment of an acceptable segment: [None] inside when the
    segment is refused. *)
Definition ingress_ack (seg : Tcp.t) (now : Z) (c : t) : option (t * option Ingress.t) :=
  let ack := TcpFields.acknowledgment (Tcp.fields seg) in
  match state_ c with
  | State.syn_received =>
      if negb (ack =? snd_max_ c) || negb (snd_max_ c =? u32_wrap (iss_ c + 1)) then Some (queue_reset (peer_ c) ack c, Some Ingress.ignored)
      else
        match acknowledge ack now c with
        | None => None
        | Some c => Some (raise_rto (set_pending_syn false (set_state State.established c)), None)
        end
  | _ =>
      if after ack (snd_una_ c) then match acknowledge ack now c with None => None | Some c => Some (c, None) end
      else Some (c, None)
  end.

(** The window update, the duplicate acknowledgment and the data. *)
Definition ingress_data (seg : Tcp.t) (now previous_una previous_window : Z) (c : t) : t * result Ingress.t :=
  let f := Tcp.fields seg in
  let ack := TcpFields.acknowledgment f in
  if bool_decide (state_ c = State.closed) then (c, Ok Ingress.accepted)
  else
    let c := if between ack (snd_una_ c) (snd_max_ c) &&
                (after (TcpFields.sequence f) (wl1_ c) || ((TcpFields.sequence f =? wl1_ c) && negb (before ack (wl2_ c))))
             then set_wl2 ack (set_wl1 (TcpFields.sequence f) (set_peer_window (TcpFields.window f) c)) else c in
    let c := if negb (peer_window_ c =? 0) then set_persist_deadline 0 c else c in
    let c := if (ack =? previous_una) && (snd_una_ c =? previous_una) && (zlen (Tcp.payload seg) =? 0) &&
                negb (has f (Z.lor tcp_syn tcp_fin)) && (TcpFields.window f =? previous_window) &&
                after (snd_max_ c) (snd_una_ c) && negb (sent_data c =? 0)
             then duplicate_ack c else c in
    if bool_decide (state_ c = State.time_wait) then (c, Ok Ingress.ignored)
    else (consume seg now c, Ok Ingress.accepted).

Definition ingress_open (seg : Tcp.t) (now : Z) (c : t) : option (t * result Ingress.t) :=
  let f := Tcp.fields seg in
  let length := u32_wrap (zlen (Tcp.payload seg) + (if has f tcp_syn then 1 else 0) + (if has f tcp_fin then 1 else 0)) in
  if negb (acceptable c (TcpFields.sequence f) length)
  then Some (if negb (has f tcp_rst) then set_pending_ack true c else c, Ok Ingress.ignored)
  else if has f tcp_rst then
    if negb (TcpFields.sequence f =? rcv_nxt_ c) then let '(c, i) := challenge now c in Some (c, Ok i)
    else if bool_decide (state_ c = State.syn_received) && passive_ c then Some (return_to_listen c, Ok Ingress.reset)
    else Some (terminate Failure.reset c, Ok Ingress.reset)
  else if has f tcp_syn then match receive_syn seg now c with None => None | Some (c, i) => Some (c, Ok i) end
  else if negb (has f tcp_ack) then Some (c, Ok Ingress.ignored)
  else if negb (between (TcpFields.acknowledgment f) (u32_wrap (snd_una_ c - 65535)) (snd_max_ c))
  then let '(c, i) := challenge now c in Some (c, Ok i)
  else
    let previous_una := snd_una_ c in
    let previous_window := peer_window_ c in
    match ingress_ack seg now c with
    | None => None
    | Some (c, Some i) => Some (c, Ok i)
    | Some (c, None) => Some (ingress_data seg now previous_una previous_window c)
    end.

Definition ingress (from to : IpAddress.t) (seg : Tcp.t) (now : Z) (c : t) : option (t * result Ingress.t) :=
  let f := Tcp.fields seg in
  if negb (bool_decide (to = Endpoint.address (local_ c))) || negb (TcpFields.destination_port f =? Endpoint.port (local_ c)) ||
     (TcpFields.source_port f =? 0)
  then Some (c, Ok Ingress.ignored)
  else
    let source := Endpoint.mk from (TcpFields.source_port f) in
    if negb (valid_endpoint source) || (negb (bool_decide (state_ c = State.listen)) && negb (bool_decide (source = peer_ c)))
    then Some (c, Ok Ingress.ignored)
    else
      let c := set_last_now now c in
      if bool_decide (state_ c = State.closed) then Some (c, Ok Ingress.ignored)
      else if bool_decide (state_ c = State.time_wait) && has f tcp_rst then Some (c, Ok Ingress.ignored)
      else if has f tcp_urg then Some (c, Err StatusCode.unsupported)
      else if bool_decide (state_ c = State.listen) then ingress_listen source seg c
      else if bool_decide (state_ c = State.syn_sent) then ingress_syn_sent seg now c
      else if bool_decide (state_ c = State.time_wait) && has f tcp_fin && negb (has f (Z.lor tcp_rst tcp_syn)) && has f tcp_ack &&
              (u32_wrap (TcpFields.sequence f + zlen (Tcp.payload seg) + 1) =? rcv_nxt_ c)
      then
        if negb (between (TcpFields.acknowledgment f) (u32_wrap (snd_una_ c - 65535)) (snd_max_ c))
        then let '(c, i) := challenge now c in Some (c, Ok i)
        else Some (set_pending_ack true (set_time_wait_deadline (deadline now (2 * msl_ms)) c), Ok Ingress.accepted)
      else if bool_decide (state_ c = State.syn_received) && passive_ c && (TcpFields.sequence f =? irs_ c) && has f tcp_syn &&
              negb (has f (Z.lor tcp_ack (Z.lor tcp_rst tcp_fin)))
      then Some (if negb (Timer.active (rtx_ c)) || (Timer.deadline (rtx_ c) <=? now) then set_pending_syn true c else c, Ok Ingress.accepted)
      else if bool_decide (state_ c = State.syn_received) && negb (passive_ c) && has f tcp_syn &&
              (TcpFields.sequence f =? irs_ c) && has f tcp_ack && negb (has f (Z.lor tcp_rst tcp_fin))
      then match receive_syn seg now c with None => None | Some (c, i) => Some (c, Ok i) end
      else ingress_open seg now c.

Definition receive (c : t) (packet : Span.t) (now : Z) : option (t * result Ingress.t) :=
  if Plan.active (plan_ c) then Some (c, Err StatusCode.busy)
  else if aliases_self packet then Some (c, Err StatusCode.invalid_argument)
  else if now <? last_now_ c then Some (c, Err StatusCode.invalid_argument)
  else if ip_version (Span.bytes packet) =? 6 then
    match ipv6 (Span.bytes packet) with
    | None => None
    | Some (Err e) => Some (c, Err e)
    | Some (Ok ip) =>
        match family_tcp ip with
        | None => None
        | Some (Err e) => Some (c, Err e)
        | Some (Ok seg) => ingress (IpAddress.of_ipv6 (Ipv6Packet.source ip)) (IpAddress.of_ipv6 (Ipv6Packet.destination ip)) seg now c
        end
    end
  else
    match ipv4 (Span.bytes packet) with
    | Err e => Some (c, Err e)
    | Ok ip =>
        match tcp ip with
        | None => None
        | Some (Err e) => Some (c, Err e)
        | Some (Ok seg) => ingress (IpAddress.of_ipv4 (Ipv4Packet.source ip)) (IpAddress.of_ipv4 (Ipv4Packet.destination ip)) seg now c
        end
    end.

(** ** Timers and transmission *)
Definition tick (c : t) (now : Z) : t * Status :=
  if Plan.active (plan_ c) then (c, StatusCode.busy)
  else if now <? last_now_ c then (c, StatusCode.invalid_argument)
  else
    let c := set_last_now now c in
    let c := if bool_decide (state_ c = State.time_wait) && (time_wait_deadline_ c <=? now)
             then set_state State.closed (set_pending_ack false (set_reset_pending false c)) else c in
    let c := if Timer.active (rtx_ c) && (Timer.deadline (rtx_ c) <=? now) && (max_retransmissions <=? Timer.retries (rtx_ c))
             then if bool_decide (state_ c = State.syn_received) && passive_ c then return_to_listen c else terminate Failure.timed_out c
             else c in
    (if bool_decide (state_ c = State.fin_wait_2) && (fin_wait_deadline_ c <=? now) then terminate Failure.timed_out c else c, StatusCode.ok).

(** A plan of kind, sequence number, flags, payload and offset. *)
Definition plan (c : t) (kind : Kind.t) (destination : Endpoint.t) (sequence flags payload offset : Z) : Plan.t :=
  Plan.mk true 0 kind destination
    (TcpFields.mk (Endpoint.port (local_ c)) (Endpoint.port destination) sequence
       (if negb (Z.land flags tcp_ack =? 0) then rcv_nxt_ c else 0) flags (window c) 0) payload offset.

(** head(): payload and flags of the first unacknowledged segment. *)
Definition head (c : t) : option (Z * Z) :=
  let data := Z.min (Z.min (tx_size_ c) (u32_wrap (snd_max_ c - snd_una_ c))) (segment c) in
  if negb (data =? 0) then Some (data, Z.lor tcp_ack tcp_psh)
  else if fin_sent c then Some (0, Z.lor tcp_fin tcp_ack) else None.

Definition send_next (now : Z) (c : t) : t * option Plan.t :=
  let sent := sent_data c in
  let unsent := if sent <? tx_size_ c then tx_size_ c - sent else 0 in
  let limit := if Congestion.window (cc_ c) <? peer_window_ c then Congestion.window (cc_ c) else peer_window_ c in
  let usable := if outstanding c <? limit then limit - outstanding c else 0 in
  if negb (unsent =? 0) && negb (usable =? 0) then
    (c, Some (plan c Kind.data (peer_ c) (snd_nxt_ c) (Z.lor tcp_ack tcp_psh) (Z.min (Z.min unsent (segment c)) usable) sent))
  else if negb (unsent =? 0) && (peer_window_ c =? 0) && (outstanding c =? 0) then
    if persist_deadline_ c =? 0 then (set_persist_deadline (deadline now (rto_ c)) c, None)
    else if now <? persist_deadline_ c then (c, None)
    else (c, Some (plan c Kind.probe (peer_ c) (snd_nxt_ c) (Z.lor tcp_ack tcp_psh) 1 sent))
  else if (unsent =? 0) && write_shutdown_ c && negb (peer_window_ c =? 0) && (snd_nxt_ c =? fin_sequence c) && negb (fin_acknowledged_ c)
  then (c, Some (plan c Kind.fin (peer_ c) (snd_nxt_ c) (Z.lor tcp_fin tcp_ack) 0 0))
  else (c, None).

(** The packet prepare() chooses, if any. *)
Definition choose (now : Z) (c : t) : t * option Plan.t :=
  let syn_outstanding := match state_ c with State.syn_sent | State.syn_received => true | _ => false end in
  let syn_flags := Z.lor tcp_syn (if bool_decide (state_ c = State.syn_received) then tcp_ack else 0) in
  if reset_pending_ c then (c, Some (plan c Kind.reset (reset_peer_ c) (reset_seq_ c) tcp_rst 0 0))
  else if pending_syn_ c then
    (c, Some (plan c (if Timer.active (rtx_ c) && passive_ c then Kind.retry else Kind.syn) (peer_ c) (iss_ c) syn_flags 0 0))
  else if Timer.active (rtx_ c) && (Timer.deadline (rtx_ c) <=? now) then
    if syn_outstanding then (c, Some (plan c Kind.retry (peer_ c) (snd_una_ c) syn_flags 0 0))
    else
      match head c with
      | None => (c, None)
      | Some (payload, flags) => (c, Some (plan c Kind.retry (peer_ c) (snd_una_ c) flags payload 0))
      end
  else if retransmit_head_ c && sending c then
    match head c with
    | None => (set_retransmit_head false c, None)
    | Some (payload, flags) => (c, Some (plan c Kind.fast (peer_ c) (snd_una_ c) flags payload 0))
    end
  else
    let '(c, next) := if sending c then send_next now c else (c, None) in
    match next with
    | Some next => (c, Some next)
    | None => (c, if negb (pending_ack_ c) then None else Some (plan c Kind.ack (peer_ c) (snd_nxt_ c) tcp_ack 0 0))
    end.

(** The packet of a plan. *)
Definition mss_option : Bytes := [2; 4; u8_wrap (Z.shiftr SegmentCapacity 8); u8_wrap SegmentCapacity].
Definition build (c : t) (output : Span.t) (identification : Z) (next : Plan.t) : option (Bytes * result Z) :=
  let fields := Plan.fields next in
  let data := Span.mk payload_address (ring_get SendCapacity (tx_ c) (tx_head_ c + Plan.offset next) (Plan.payload next)) in
  let options := if has fields tcp_syn then Span.mk mss_address mss_option else Span.mk 0 [] in
  let from := Endpoint.address (local_ c) in
  let to := Endpoint.address (Plan.destination next) in
  if IpAddress.v6 from
  then family_build_tcp (Packet := Ipv6Packet.t) output (IpAddress.ipv6 from) (IpAddress.ipv6 to) identification 64 fields options data
  else build_tcp output (IpAddress.ipv4 from) (IpAddress.ipv4 to) identification 64 fields options data.

Definition with_token (p : Plan.t) (token : Z) : Plan.t :=
  Plan.mk (Plan.active p) token (Plan.kind p) (Plan.destination p) (Plan.fields p) (Plan.payload p) (Plan.offset p).

(** The new state, the contents of the output, and the answer. *)
Definition prepare (c : t) (output : Span.t) (now identification : Z) : option (t * Bytes * result (option PreparedPacket.t)) :=
  let o := Span.bytes output in
  if Plan.active (plan_ c) then Some (c, o, Err StatusCode.busy)
  else if aliases_self output then Some (c, o, Err StatusCode.invalid_argument)
  else
    let '(c, status) := tick c now in
    if negb (status_ok status) then Some (c, o, Err status)
    else if next_token_ c =? u64_max then Some (c, o, Err StatusCode.overflow)
    else
      let '(c, next) := choose now c in
      match next with
      | None => Some (c, o, Ok None)
      | Some next =>
          match build c output identification next with
          | None => None
          | Some (o, Err e) => Some (c, o, Err e)
          | Some (o, Ok length) =>
              let c := set_next_token (next_token_ c + 1) c in
              Some (set_plan (with_token next (next_token_ c)) c, o, Ok (Some (PreparedPacket.mk length (next_token_ c))))
          end
      end.

(** A retransmission was accepted by the device. *)
Definition complete_retry (sent : Plan.t) (end_ now : Z) (c : t) : t :=
  let c := set_rtt_timing false (set_rtx (Timer.mk (Timer.active (rtx_ c)) (Timer.deadline (rtx_ c)) (u8_wrap (Timer.retries (rtx_ c) + 1))) c) in
  let c := set_rto (Z.min (u64_wrap (rto_ c * 2)) max_rto_ms) c in
  let c := set_rtx (Timer.mk (Timer.active (rtx_ c)) (deadline now (rto_ c)) (Timer.retries (rtx_ c))) c in
  if has (Plan.fields sent) tcp_syn then set_pending_syn false (set_syn_retried true c)
  else
    let c := if negb (peer_window_ c =? 0) then set_cc (timeout (cc_ c) (outstanding c) (segment c)) c else c in
    let c := set_recover (snd_max_ c) (set_recovery false (set_retransmit_head false (set_dupacks 0 c))) in
    set_snd_nxt end_ c.

(** The initial SYN was accepted by the device. *)
Definition complete_syn (end_ now : Z) (c : t) : t :=
  let c := if snd_max_ c =? iss_ c then arm now (time end_ now (set_snd_nxt end_ (set_snd_max end_ c)))
           else set_rtx (Timer.mk (Timer.active (rtx_ c)) (deadline now (rto_ c)) (Timer.retries (rtx_ c))) (set_rtt_timing false c) in
  set_pending_syn false c.

(** Data, a probe or the FIN was accepted by the device. *)
Definition complete_new (sent : Plan.t) (end_ now : Z) (c : t) : t :=
  let fresh := negb (before (TcpFields.sequence (Plan.fields sent)) (snd_max_ c)) in
  let c := set_snd_nxt end_ c in
  let c := if after end_ (snd_max_ c) then set_snd_max end_ c else c in
  let c := if fresh then time end_ now c else c in
  let c := set_persist_deadline 0 (arm now c) in
  if bool_decide (Plan.kind sent = Kind.fin) && fresh
  then set_state (if bool_decide (state_ c = State.close_wait) then State.last_ack else State.fin_wait_1) c else c.

Definition complete_transmit (c : t) (token : Z) (accepted : bool) (now : Z) : t * Status :=
  if negb (Plan.active (plan_ c)) || negb (Plan.token (plan_ c) =? token) then (c, StatusCode.invalid_argument)
  else if now <? last_now_ c then (c, StatusCode.invalid_argument)
  else
    let sent := plan_ c in
    let f := Plan.fields sent in
    let c := set_last_now now (set_plan Plan.none c) in
    if negb accepted then (c, StatusCode.ok)
    else if bool_decide (Plan.kind sent = Kind.reset) then (set_reset_pending false c, StatusCode.ok)
    else
      let c := if has f tcp_ack then set_pending_ack false c else c in
      let end_ := u32_wrap (TcpFields.sequence f + Plan.payload sent + (if has f (Z.lor tcp_syn tcp_fin) then 1 else 0)) in
      (match Plan.kind sent with
       | Kind.ack => c
       | Kind.syn => complete_syn end_ now c
       | Kind.retry => complete_retry sent end_ now c
       | Kind.fast => set_retransmit_head false (set_rtt_timing false c)
       | _ => complete_new sent end_ now c
       end, StatusCode.ok).
End Operations.
