(* ===== verification/Serial.v ===== *)
(** * Sequence numbers and byte rings

    A sequence number is an integer position in the stream, counted from an
    initial number and wrapped to 32 bits.  As long as two positions are less
    than half the sequence space apart the serial comparisons of the code are
    the comparisons of the positions.  A ring holds positions modulo its size. *)

From S2P Require Import Prelude Epoch Wire Checksum Ip Address Congestion TransportState Transport.

(** The sequence number of position [x] of a stream that starts at [i]. *)
Definition seqno (i x : Z) : Z := u32_wrap (i + x).

Lemma u32_range x : 0 <= u32_wrap x < 4294967296.
Proof. apply Z.mod_pos_bound. lia. Qed.
Lemma u32_small x : 0 <= x < 4294967296 -> u32_wrap x = x.
Proof. apply Z.mod_small. Qed.
Lemma seqno_0 i : 0 <= i < 4294967296 -> seqno i 0 = i.
Proof. intros Hi. unfold seqno. rewrite Z.add_0_r. by apply u32_small. Qed.
Lemma seqno_add i x y : u32_wrap (seqno i x + y) = seqno i (x + y).
Proof. unfold seqno, u32_wrap. rewrite Zplus_mod_idemp_l. f_equal. lia. Qed.
Lemma seqno_shift i x y : seqno (seqno i x) y = seqno i (x + y).
Proof. apply seqno_add. Qed.
Lemma seqno_range i x : 0 <= seqno i x < 4294967296.
Proof. apply u32_range. Qed.

Lemma seqno_diff i x y : 0 <= y - x < 4294967296 -> u32_wrap (seqno i y - seqno i x) = y - x.
Proof.
  intros Hd. unfold seqno, u32_wrap. rewrite <- Zminus_mod. replace (i + y - (i + x)) with (y - x) by lia. by apply Z.mod_small.
Qed.
Lemma seqno_diff_neg i x y : - 4294967296 < y - x < 0 -> u32_wrap (seqno i y - seqno i x) = y - x + 4294967296.
Proof.
  intros Hd. unfold seqno, u32_wrap. rewrite <- Zminus_mod. replace (i + y - (i + x)) with (y - x + 4294967296 + (-1) * 4294967296) by lia.
  change (2 ^ 32) with 4294967296. rewrite Z.mod_add by lia. apply Z.mod_small. lia.
Qed.
Lemma seqno_eqb i x y : - 4294967296 < y - x < 4294967296 -> (seqno i x =? seqno i y) = (x =? y).
Proof.
  intros Hd. destruct (Z.eqb_spec x y) as [-> | Hn]; [apply Z.eqb_refl |]. apply Z.eqb_neq. intros He.
  destruct (decide (x <= y)).
  - pose proof (seqno_diff i x y ltac:(lia)) as Hs. rewrite He, Z.sub_diag in Hs. change (u32_wrap 0) with 0 in Hs. lia.
  - pose proof (seqno_diff i y x ltac:(lia)) as Hs. rewrite He, Z.sub_diag in Hs. change (u32_wrap 0) with 0 in Hs. lia.
Qed.

(** The half of the sequence space. *)
Definition near (x y : Z) : Prop := - 2147483648 < y - x < 2147483648.

Lemma before_wide i x y : - 2147483648 <= y - x < 2147483648 -> before (seqno i x) (seqno i y) = (x <? y).
Proof.
  intros Hn. unfold before. rewrite seqno_eqb by lia. destruct (Z.eqb_spec x y) as [-> | Hne]; [by rewrite Z.ltb_irrefl |]. cbn [negb andb].
  destruct (Z.ltb_spec x y).
  - rewrite seqno_diff by lia. apply Z.ltb_lt. lia.
  - rewrite seqno_diff_neg by lia. apply Z.ltb_ge. lia.
Qed.
Lemma before_spec i x y : near x y -> before (seqno i x) (seqno i y) = (x <? y).
Proof. unfold near. intros Hn. apply before_wide. lia. Qed.
Lemma after_spec i x y : near x y -> after (seqno i x) (seqno i y) = (y <? x).
Proof. intros Hn. apply before_spec. unfold near in *. lia. Qed.

(** Every sequence number is that of one position around a given one. *)
Lemma seqno_around i p a : 0 <= a < 4294967296 -> exists q, a = seqno i q /\ - 2147483648 <= p - q < 2147483648.
Proof.
  intros Ha. set (d := u32_wrap (i + p - a + 2147483648) - 2147483648). pose proof (u32_range (i + p - a + 2147483648)). exists (p - d). split; [| subst d; lia].
  unfold seqno, d. set (x := i + p - a + 2147483648) in *. unfold u32_wrap. change (2 ^ 32) with 4294967296.
  replace (i + (p - (x mod 4294967296 - 2147483648))) with (a + (x / 4294967296) * 4294967296) by (pose proof (Z.div_mod x 4294967296 ltac:(lia)); subst x; lia).
  rewrite Z.mod_add by lia. symmetry. by apply Z.mod_small.
Qed.

(** A number that is after one position and not after another lies between. *)
Lemma after_distance i x a : 0 <= a < 4294967296 -> after a (seqno i x) = true -> exists d, 0 < d < 2147483648 /\ a = seqno i (x + d).
Proof.
  intros Ha H. unfold after, before in H. apply andb_true_iff in H as [Hne Hd]. apply negb_true_iff, Z.eqb_neq in Hne. apply Z.ltb_lt in Hd.
  exists (u32_wrap (a - seqno i x)). pose proof (u32_range (a - seqno i x)).
  assert (a = seqno i (x + u32_wrap (a - seqno i x))) as He.
  { rewrite <- seqno_add. unfold u32_wrap. rewrite Zplus_mod_idemp_r. replace (seqno i x + (a - seqno i x)) with a by lia. symmetry. by apply Z.mod_small. }
  split; [| done]. split; [| lia]. destruct (Z.eq_dec (u32_wrap (a - seqno i x)) 0) as [Hz |]; [| lia]. rewrite Hz, Z.add_0_r in He. by destruct Hne.
Qed.

Lemma ack_between i u m a : 0 <= a < 4294967296 -> 0 <= m - u < 2147483648 -> after a (seqno i u) = true -> after a (seqno i m) = false ->
  exists d, 0 < d <= m - u /\ a = seqno i (u + d).
Proof.
  intros Ha Hm H1 H2. destruct (after_distance i u a Ha H1) as (d & Hd & ->). exists d. split; [| done]. split; [lia |].
  rewrite after_spec in H2 by (unfold near; lia). apply Z.ltb_ge in H2. lia.
Qed.

(** ** Rings *)
Lemma zlen_ring_put cap b : forall ring at_, zlen (ring_put cap ring at_ b) = zlen ring.
Proof. induction b as [| x b IH]; intros ring at_; cbn [ring_put]; [done |]. by rewrite IH, zlen_aset. Qed.

Lemma mod_eq_near cap x y : 0 < cap -> - cap < x - y < cap -> x mod cap = y mod cap -> x = y.
Proof.
  intros Hc Hd He. assert ((x - y) mod cap = 0) as H0 by (rewrite Zminus_mod, He, Z.sub_diag; apply Z.mod_0_l; lia).
  apply Z.mod_divide in H0 as [k Hk]; [| lia]. assert (k = 0) by nia. lia.
Qed.

Lemma ring_put_get cap b : 0 < cap -> forall ring at_ j, zlen ring = cap -> 0 <= j < cap -> zlen b <= cap ->
  (ring_put cap ring at_ b).[(at_ + j) mod cap] = if j <? zlen b then b.[j] else ring.[(at_ + j) mod cap].
Proof.
  intros Hc. induction b as [| x b IH]; intros ring at_ j Hr Hj Hb; cbn [ring_put].
  { rewrite zlen_nil. by rewrite (proj2 (Z.ltb_ge j 0)) by lia. }
  rewrite zlen_cons in Hb |- *. pose proof (zlen_nonneg b). pose proof (Z.mod_pos_bound at_ cap Hc). pose proof (Z.mod_pos_bound (at_ + j) cap Hc).
  destruct (Z.eq_dec j 0) as [-> | Hj0].
  - rewrite (proj2 (Z.ltb_lt 0 _)) by lia. replace (at_ + 0) with (at_ + 1 + (cap - 1) + (-1) * cap) by lia. rewrite Z.mod_add by lia.
    rewrite IH by (rewrite ?zlen_aset; lia). rewrite (proj2 (Z.ltb_ge _ _)) by lia. replace (at_ + 1 + (cap - 1)) with (at_ + 1 * cap) by lia.
    rewrite Z.mod_add by lia. apply aget_aset_eq. lia.
  - replace (at_ + j) with (at_ + 1 + (j - 1)) by lia. rewrite IH by (rewrite ?zlen_aset; lia). rewrite aget_cons_pos by lia.
    destruct (Z.ltb_spec (j - 1) (zlen b)), (Z.ltb_spec j (zlen b + 1)); try lia.
    apply aget_aset_ne; [lia | apply Z.mod_pos_bound; lia |]. intros He. apply (mod_eq_near cap) in He; lia.
Qed.

Lemma zlen_ring_get cap ring at_ n : 0 <= n -> zlen (ring_get cap ring at_ n) = n.
Proof. intros Hn. unfold ring_get. change (zlen ((fun i => ring.[(at_ + i) mod cap]) <$> indices n) = n). by rewrite zlen_fmap, zlen_indices. Qed.
Lemma ring_get_aget cap ring at_ n k : 0 <= k < n -> (ring_get cap ring at_ n).[k] = ring.[(at_ + k) mod cap].
Proof.
  intros Hk. unfold ring_get. change (map ?f ?l) with (f <$> l). rewrite aget_fmap by (rewrite zlen_indices; lia). by rewrite aget_indices.
Qed.

(** A ring read from [at_] on holds the bytes of [b] from [p] on. *)
Lemma ring_get_eq cap ring at_ n b p : 0 <= n -> 0 <= p -> p + n <= zlen b -> (forall k, 0 <= k < n -> ring.[(at_ + k) mod cap] = b.[p + k]) ->
  ring_get cap ring at_ n = subspan b p n.
Proof.
  intros Hn Hp Hb Hk. assert (zlen (subspan b p n) = n) as Hl by (unfold subspan; rewrite zlen_take, zlen_drop; lia).
  apply list_eq_aget; rewrite zlen_ring_get by done; [done |]. intros k Hr. rewrite ring_get_aget, Hk by lia.
  unfold subspan. rewrite aget_take, aget_drop by lia. f_equal. lia.
Qed.
