(* ===== verification/TransportReceive.v ===== *)
(** * The receive side of a connection

    The peer's stream is described by what it says of its bytes: [holds p b],
    that byte [p] may be [b], and [ends p], that it may end at [p]; its sequence
    numbers start at [iss].  [R] bytes have been read so far.  The ring holds
    the unread bytes [R .. R + rx_size) of the stream, and beyond them the bytes
    of the kept ranges, each at the place it will be read from. *)

From S2P Require Import Prelude Epoch Wire Checksum Ip Address Congestion TransportState Transport Serial.
Import Connection.

(** States in which the SYNs have been exchanged: data may be sent and may arrive. *)
Definition data_state (s : State.t) : bool :=
  match s with State.closed | State.listen | State.syn_sent | State.syn_received => false | _ => true end.

Section Receive.
Context {Policy : Type} (RC : Z) (HRC : 0 < RC <= 65535).
Local Abbreviation t := (t Policy).
Implicit Types c : t.
Context (iss : Z) (holds : Z -> Z -> Prop) (ends : Z -> Prop).

Definition shaped (c : t) : Prop :=
  zlen (rx_ c) = RC /\ 0 <= rx_head_ c < RC /\ 0 <= rx_size_ c <= RC /\ zlen (ooo_ c) = max_out_of_order /\ 0 <= ooo_count_ c <= max_out_of_order.

(** The ring holds byte [p] of the stream. *)
Definition keeps (R : Z) (c : t) (p : Z) : Prop := holds p (rx_ c).[(rx_head_ c + (p - R)) mod RC].

(** A kept range lies above [low] and within the window. *)
Definition range_ok (R low : Z) (c : t) (r : Range.t) : Prop :=
  exists s e, Range.start r = seqno iss (1 + s) /\ Range.end_ r = seqno iss (1 + e) /\ low < s <= e /\ e <= R + RC /\
    (forall p, s <= p < e -> keeps R c p) /\ (Range.fin r = true -> ends e).
Definition ranges_ok (R low : Z) (c : t) : Prop := forall i, 0 <= i < ooo_count_ c -> range_ok R low c (ooo_ c).[i].

Definition fresh (R : Z) (c : t) : Prop := rx_size_ c = 0 /\ ooo_count_ c = 0 /\ eof_ c = false /\ R = 0.
Definition synced (R : Z) (c : t) : Prop :=
  irs_ c = iss /\ rcv_nxt_ c = seqno iss (1 + (R + rx_size_ c) + Z.b2z (eof_ c)) /\ (eof_ c = false -> ranges_ok R (R + rx_size_ c) c).
Definition unread (R : Z) (c : t) : Prop := forall p, R <= p < R + rx_size_ c -> keeps R c p.
Definition by_state (R : Z) (c : t) : Prop :=
  match state_ c with
  | State.closed => True
  | State.listen | State.syn_sent => fresh R c
  | State.syn_received => fresh R c /\ synced R c
  | _ => synced R c
  end.

Record rcv_ok (R : Z) (c : t) : Prop := {
  rcv_shape : shaped c;
  rcv_read : 0 <= R;
  rcv_unread : unread R c;
  rcv_eof : eof_ c = true -> failure_ c = Failure.none -> ends (R + rx_size_ c);
  rcv_state : by_state R c
}.

(** The parts of the state a receiver depends on. *)
Lemma rcv_ext R c c' : receive_side c' = receive_side c -> failure_ c' = failure_ c -> state_ c' = state_ c -> rcv_ok R c -> rcv_ok R c'.
Proof.
  intros Hr Hf Hs [H1 H2 H3 H4 H5]. destruct c' as [? r' ? ? ? ? ? ctl]; cbn in *. subst r'. split; try done; cbn.
  - by rewrite Hf.
  - unfold by_state in *. cbn. by rewrite Hs.
Qed.

(** The same received bytes after a change of state. *)
Definition state_step (s s' : State.t) : Prop :=
  s' = s \/ s' = State.closed \/ (data_state s' = true /\ (data_state s = true \/ s = State.syn_received)).
Lemma rcv_move R c c' : receive_side c' = receive_side c -> failure_ c' = failure_ c -> state_step (state_ c) (state_ c') -> rcv_ok R c -> rcv_ok R c'.
Proof.
  intros Hr Hf Hs [H1 H2 H3 H4 H5]. destruct c' as [? r' ? ? ? ? ? ctl]; cbn in *. subst r'. split; try done; cbn.
  - by rewrite Hf.
  - unfold by_state in *. cbn. destruct Hs as [-> | [-> | (Hd & [Hd' | Hd'])]]; [done | done | |].
    + destruct (state_ c), (state_ ctl); done.
    + rewrite Hd' in H5. destruct H5 as [_ H5]. destruct (state_ ctl); done.
Qed.

(** A connection that failed has nothing left to read. *)
Lemma rcv_terminate R reason c : reason <> Failure.none -> rcv_ok R c -> rcv_ok R (terminate reason c).
Proof.
  intros Hn [(S1 & S2 & S3 & S4 & S5) H2 H3 H4 H5]. split; try done.
  - unfold shaped. cbn. split_and!; done || lia.
  - intros p Hp. cbn in Hp. lia.
Qed.
(** A connection that was opened, or listens again. *)
Lemma rcv_opened c : zlen (rx_ c) = RC -> rx_head_ c = 0 -> rx_size_ c = 0 -> zlen (ooo_ c) = max_out_of_order -> ooo_count_ c = 0 -> eof_ c = false ->
  state_ c = State.listen \/ state_ c = State.syn_sent -> rcv_ok 0 c.
Proof.
  intros H1 H2 H3 H4 H5 H6 Hs. split; try done; try congruence.
  - unfold shaped. rewrite H1, H2, H3, H4, H5. split_and!; done || lia.
  - intros p Hp. lia.
  - unfold by_state. by destruct Hs as [-> | ->].
Qed.

(** The peer's SYN. *)
Lemma rcv_record R c c' : 0 <= iss < 4294967296 -> rcv_ok R c -> state_ c = State.listen \/ state_ c = State.syn_sent ->
  receive_side c' = receive_side (set_rcv_nxt (u32_wrap (iss + 1)) (set_irs iss c)) -> failure_ c' = failure_ c ->
  state_ c' = State.syn_received \/ data_state (state_ c') = true -> rcv_ok R c'.
Proof.
  intros Hi [H1 H2 H3 H4 H5] Hs Hr Hf Hs'. assert (fresh R c) as Hfr by (unfold by_state in H5; by destruct Hs as [-> | ->] in H5).
  destruct Hfr as (F1 & F2 & F3 & ->).
  assert (rx_ c' = rx_ c /\ rx_head_ c' = rx_head_ c /\ rx_size_ c' = 0 /\ rcv_nxt_ c' = seqno iss 1 /\ irs_ c' = iss /\ eof_ c' = false /\ ooo_ c' = ooo_ c /\ ooo_count_ c' = 0)
    as (E1 & E2 & E3 & E4 & E5 & E6 & E7 & E8) by (by rewrite Hr).
  assert (synced 0 c') as Hsy by (unfold synced, ranges_ok; rewrite E3, E4, E5, E6, E8; split_and!; try done; lia).
  split; try done; try congruence.
  - unfold shaped in *. rewrite E1, E2, E3, E7, E8. split_and!; try tauto; lia.
  - intros p Hp. lia.
  - unfold by_state. destruct Hs' as [-> | Hst]; [by split |]. by destruct (state_ c').
Qed.

(** ** The kept ranges *)

(** Only the records of kept ranges differ. *)
Definition with_records (o : list Range.t) (k : Z) (c : t) : t := set_ooo o (set_ooo_count k c).

Lemma remove_range_spec i c : shaped c -> 0 <= i < ooo_count_ c ->
  exists o, remove_range i c = with_records o (ooo_count_ c - 1) c /\ zlen o = max_out_of_order /\
    forall P : Range.t -> Prop, (forall j, 0 <= j < ooo_count_ c -> P (ooo_ c).[j]) -> forall j, 0 <= j < ooo_count_ c - 1 -> P o.[j].
Proof.
  intros (H1 & H2 & H3 & H4 & H5) Hi. unfold remove_range. eexists. split; [reflexivity |]. assert (max_out_of_order = 4) by done.
  cbn. rewrite zlen_aset. split; [done |]. intros P Hp j Hj. rewrite aget_aset by lia. case_cond; b2p; apply Hp; lia.
Qed.

Lemma shaped_records o k c : shaped c -> zlen o = max_out_of_order -> 0 <= k <= max_out_of_order -> shaped (with_records o k c).
Proof. intros (H1 & H2 & H3 & _) Ho Hk. unfold shaped. by cbn. Qed.

Section Ranges.
Context (R low : Z) (HR : 0 <= R <= low).
Local Notation "'range_ok'" := (range_ok R low).
Local Notation "'ranges_ok'" := (ranges_ok R low).

(** Two ranges that overlap or touch are merged. *)
Lemma merge_ok c start end_ f r : range_ok c (Range.mk start end_ f) -> range_ok c r ->
  before end_ (Range.start r) || before (Range.end_ r) start = false ->
  let first := if before (Range.start r) start then Range.start r else start in
  let last := if after (Range.end_ r) end_ then Range.end_ r else end_ in
  range_ok c (Range.mk first last ((f && (end_ =? last)) || (Range.fin r && (Range.end_ r =? last)))).
Proof.
  intros (s & e & Hs & He & Hl & Hw & Hk & Hf) (s' & e' & Hs' & He' & Hl' & Hw' & Hk' & Hf') Ho. cbn in Hs, He, Hf. subst start end_.
  rewrite Hs', He' in *. assert (forall x y, R <= x <= R + RC -> R <= y <= R + RC -> near (1 + x) (1 + y)) as Hn by (unfold near; lia).
  rewrite !before_spec, after_spec in * by (apply Hn; lia). apply orb_false_iff in Ho as [Ho1 Ho2]. apply Z.ltb_ge in Ho1, Ho2. cbv zeta.
  exists (if 1 + s' <? 1 + s then s' else s), (if 1 + e <? 1 + e' then e' else e). cbn [Range.start Range.end_ Range.fin].
  split; [by case_cond |]. split; [by case_cond |].
  destruct (Z.ltb_spec (1 + s') (1 + s)), (Z.ltb_spec (1 + e) (1 + e')); (split_and!; [lia | lia | lia | | ]).
  all: try (intros p Hp; destruct (decide (s' <= p < e')); [by apply Hk' | apply Hk; lia]).
  all: intros Hfin; apply orb_true_iff in Hfin as [[Hfx Hx]%andb_true_iff | [Hfx Hx]%andb_true_iff];
    rewrite seqno_eqb in Hx by lia; apply Z.eqb_eq in Hx; 
    match goal with |- ends ?x => first [replace x with e by lia; by apply Hf | replace x with e' by lia; by apply Hf'] end.
Qed.

Lemma remember_loop_spec n : forall i start end_ f c, shaped c -> ranges_ok c -> range_ok c (Range.mk start end_ f) ->
  0 <= i -> Z.of_nat n = ooo_count_ c - i ->
  exists o k r, remember_loop n i start end_ f c = (with_records o k c, r) /\ zlen o = max_out_of_order /\ 0 <= k <= ooo_count_ c /\
    ranges_ok (with_records o k c) /\ range_ok c r.
Proof.
  induction n as [| n IH]; intros i start end_ f c Hsh Hr Hc Hi Hn; cbn [remember_loop].
  { exists (ooo_ c), (ooo_count_ c), (Range.mk start end_ f). destruct Hsh as (? & ? & ? & ? & ?). split_and!; try done; try lia. by destruct c as [? [] ? ? ? ? ? ?]. }
  case_cond.
  - destruct (IH (i + 1) start end_ f c) as (o & k & r & ? & ? & ? & ? & ?); try done; try lia. by exists o, k, r.
  - destruct (remove_range_spec i c Hsh ltac:(lia)) as (o & -> & Ho & HP). pose proof (merge_ok c start end_ f _ Hc (Hr i ltac:(lia)) E) as Hm. cbv zeta in Hm.
    assert (0 <= ooo_count_ c <= max_out_of_order) as Hcnt by apply Hsh.
    destruct (IH i _ _ _ (with_records o (ooo_count_ c - 1) c) ltac:(apply shaped_records; done || lia)
      ltac:(intros j Hj; apply (HP (range_ok c)); [exact Hr | exact Hj]) Hm Hi ltac:(cbn; lia)) as (o' & k' & r & -> & Ho' & Hk' & Hr' & Hc').
    exists o', k', r. cbn in Hk'. split_and!; try done; lia.
Qed.

Lemma remember_spec start end_ f c : shaped c -> ranges_ok c -> range_ok c (Range.mk start end_ f) ->
  exists o k, remember start end_ f c = with_records o k c /\ shaped (with_records o k c) /\ ranges_ok (with_records o k c).
Proof.
  intros Hsh Hr Hc. assert (0 <= ooo_count_ c <= max_out_of_order) as Hcnt by apply Hsh. unfold remember. case_cond.
  { exists (ooo_ c), (ooo_count_ c). replace (with_records (ooo_ c) (ooo_count_ c) c) with c by (by destruct c as [? [] ? ? ? ? ? ?]). done. }
  destruct (remember_loop_spec (Z.to_nat (ooo_count_ c)) 0 start end_ f c Hsh Hr Hc ltac:(lia) ltac:(lia)) as (o & k & r & -> & Ho & Hk & Hro & Hrr).
  change (ooo_count_ (with_records o k c)) with k. case_cond; b2p.
  - exists o.[k := r], (k + 1). split; [reflexivity |]. split; [apply shaped_records; [done | by rewrite zlen_aset | lia] |].
    intros j Hj. cbn in Hj |- *. rewrite aget_aset by lia. case_cond; [exact Hrr |]. b2p. apply (Hro j). cbn. lia.
  - exists o, k. split; [reflexivity |]. split; [apply shaped_records; done || lia | done].
Qed.
End Ranges.

(** ** Joining *)
Definition advanced (o : list Range.t) (k size R : Z) (c : t) : t :=
  with_records o k (set_rx_size size (set_rcv_nxt (seqno iss (1 + (R + size))) c)).

Lemma advanced_self R c : rcv_nxt_ c = seqno iss (1 + (R + rx_size_ c)) -> advanced (ooo_ c) (ooo_count_ c) (rx_size_ c) R c = c.
Proof. destruct c as [? [] ? ? ? ? ? ?]. cbn. by intros ->. Qed.

Lemma joinable_none R c : 0 <= R -> shaped c -> ranges_ok R R c -> rcv_nxt_ c = seqno iss (1 + (R + rx_size_ c)) ->
  joinable c = None -> ranges_ok R (R + rx_size_ c) c.
Proof.
  intros HR (_ & _ & Hsz & _) Hr Hn Hj i Hi. destruct (Hr i Hi) as (s & e & Hs & He & Hl & Hrest). exists s, e. split_and!; try tauto; try lia.
  assert (In i (indices (ooo_count_ c))) as Hin by (apply list_elem_of_In; by apply elem_of_indices).
  pose proof (List.find_none _ _ Hj i Hin) as Hx. cbn beta in Hx. rewrite Hs, Hn in Hx. rewrite after_spec in Hx by (unfold near; lia).
  apply negb_false_iff, Z.ltb_lt in Hx. lia.
Qed.

Lemma join_range_spec R i final c : 0 <= R -> shaped c -> 0 <= i < ooo_count_ c -> unread R c -> ranges_ok R R c -> rcv_nxt_ c = seqno iss (1 + (R + rx_size_ c)) ->
  (final = true -> ends (R + rx_size_ c)) -> negb (after (Range.start (ooo_ c).[i]) (rcv_nxt_ c)) = true ->
  exists o size final', join_range i final c = (advanced o (ooo_count_ c - 1) size R c, final') /\
    let c' := advanced o (ooo_count_ c - 1) size R c in
    shaped c' /\ unread R c' /\ ranges_ok R R c' /\ (final' = true -> ends (R + size)) /\ rx_size_ c <= size.
Proof.
  intros HR Hsh Hi Hu Hr Hn Hf Hst. pose proof Hsh as (H1 & H2 & H3 & H4 & H5). destruct (Hr i Hi) as (s & e & Hs & He & Hl & Hw & Hk & Hfin).
  rewrite Hs, Hn, after_spec in Hst by (unfold near; lia). apply negb_true_iff, Z.ltb_ge in Hst. unfold join_range. rewrite He, Hn, after_spec by (unfold near; lia).
  pose (size := if 1 + (R + rx_size_ c) <? 1 + e then e - R else rx_size_ c).
  assert (rx_size_ c <= size <= RC) as Hsz by (unfold size; case_cond; b2p; lia).
  destruct (remove_range_spec i (set_rcv_nxt (seqno iss (1 + (R + size))) (set_rx_size size c)) ltac:(unfold shaped; cbn; split_and!; done || lia) ltac:(cbn; done))
    as (o & Hrem & Ho & HP).
  assert (shaped (advanced o (ooo_count_ c - 1) size R c)) as Hsh' by (unfold shaped; cbn; split_and!; done || lia).
  assert (unread R (advanced o (ooo_count_ c - 1) size R c)) as Hu'.
  { intros p Hp. cbn in Hp. destruct (decide (p < R + rx_size_ c)); [apply (Hu p); lia |]. unfold size in Hp. revert Hp. case_cond; b2p; [| lia].
    intros Hp. apply (Hk p). lia. }
  assert (ranges_ok R R (advanced o (ooo_count_ c - 1) size R c)) as Hr' by (intros j Hj; apply (HP (range_ok R R c)); [exact Hr | exact Hj]).
  destruct (Z.ltb_spec (1 + (R + rx_size_ c)) (1 + e)) as [Hlt | Hge].
  - assert (size = e - R) as Hse by done. rewrite seqno_diff by lia. replace (1 + e - (1 + (R + rx_size_ c))) with (e - R - rx_size_ c) by lia.
    replace (rx_size_ c + (e - R - rx_size_ c)) with size by lia. replace (1 + e) with (1 + (R + size)) by lia. rewrite Hrem. cbn [rcv_nxt_ set_rcv_nxt].
    do 3 eexists. split; [reflexivity |]. cbv zeta. split_and!; try done; try lia. case_cond; [| done].
    intros _. apply andb_true_iff in E as [E _]. replace (R + size) with e by lia. by apply Hfin.
  - assert (size = rx_size_ c) as Hse by done. replace (set_rcv_nxt (seqno iss (1 + (R + size))) (set_rx_size size c)) with c in Hrem.
    2: { rewrite Hse, <- Hn. by destruct c as [? [] ? ? ? ? ? ?]. }
    clearbody size. subst size. exists o, (rx_size_ c). eexists. split; [rewrite Hrem; f_equal; unfold advanced; rewrite <- Hn; by destruct c as [? [] ? ? ? ? ? ?] |].
    cbv zeta. split; [done |]. split; [done |]. split; [done |]. split; [| lia]. case_cond; [| done].
    intros _. apply andb_true_iff in E as [E He']. rewrite Hn, seqno_eqb in He' by lia. apply Z.eqb_eq in He'. replace (R + rx_size_ c) with e by lia. by apply Hfin.
Qed.

Lemma join_spec R n : 0 <= R -> forall final c, shaped c -> Z.of_nat n = ooo_count_ c -> unread R c -> ranges_ok R R c ->
  rcv_nxt_ c = seqno iss (1 + (R + rx_size_ c)) -> (final = true -> ends (R + rx_size_ c)) ->
  exists o k size final', join n final c = (advanced o k size R c, final') /\
    let c' := advanced o k size R c in
    shaped c' /\ unread R c' /\ ranges_ok R (R + size) c' /\ (final' = true -> ends (R + size)) /\ rx_size_ c <= size.
Proof.
  intros HR. induction n as [| n IH]; intros final c Hsh Hc Hu Hr Hn Hf; cbn [join]; destruct (joinable c) as [i |] eqn:Hj.
  1: { apply List.find_some in Hj as [Hin _]. apply list_elem_of_In, elem_of_indices in Hin. lia. }
  2: { apply List.find_some in Hj as [Hin Hst]. apply list_elem_of_In, elem_of_indices in Hin.
    destruct (join_range_spec R i final c HR Hsh Hin Hu Hr Hn Hf Hst) as (o & size & final' & -> & Hsh' & Hu' & Hr' & Hf' & Hle).
    destruct (IH final' (advanced o (ooo_count_ c - 1) size R c) Hsh' ltac:(cbn; lia) Hu' Hr' eq_refl Hf') as (o' & k' & size' & final'' & -> & ? & ? & ? & ? & Hle').
    exists o', k', size', final''. split; [reflexivity |]. cbn in Hle'. cbv zeta. split_and!; try done; lia. }
  all: exists (ooo_ c), (ooo_count_ c), (rx_size_ c), final; cbv zeta; rewrite advanced_self by done; split_and!; try done; try lia; by apply joinable_none.
Qed.

(** ** Segments of the stream *)

(** The payload of a segment is at position [q] of the stream, and its FIN
    behind the payload. *)
Definition placed (q : Z) (seg : Tcp.t) : Prop :=
  TcpFields.sequence (Tcp.fields seg) = seqno iss (1 + q) /\ (forall k, 0 <= k < zlen (Tcp.payload seg) -> holds (q + k) (Tcp.payload seg).[k]) /\
  (has (Tcp.fields seg) tcp_fin = true -> ends (q + zlen (Tcp.payload seg))).
(** A segment that carries bytes or a FIN has a place around RCV.NXT. *)
Definition genuine (pos : Z) (seg : Tcp.t) : Prop :=
  Tcp.payload seg <> [] \/ has (Tcp.fields seg) tcp_fin = true -> exists q, - 2147483648 <= pos - q < 2147483648 /\ placed q seg.

(** Bytes of the stream written behind the unread ones. *)
Lemma keeps_written R c q data p : shaped c -> R + rx_size_ c <= q -> q + zlen data <= R + RC -> (forall k, 0 <= k < zlen data -> holds (q + k) data.[k]) ->
  R <= p < R + RC -> (q <= p < q + zlen data \/ keeps R c p) ->
  keeps R (set_rx (ring_put RC (rx_ c) (rx_head_ c + rx_size_ c + (q - (R + rx_size_ c))) data) c) p.
Proof.
  intros (H1 & H2 & H3 & _) Hq Hd Hk Hp Hor. unfold keeps in *. cbn. pose proof (zlen_nonneg data).
  replace (rx_head_ c + rx_size_ c + (q - (R + rx_size_ c))) with (rx_head_ c + (q - R)) by lia.
  pose (j := if q <=? p then p - q else p - q + RC).
  assert (0 <= j < RC /\ (rx_head_ c + (p - R)) mod RC = (rx_head_ c + (q - R) + j) mod RC) as [Hj Hm].
  { unfold j. case_cond; b2p; (split; [lia |]); [f_equal; lia |].
    replace (rx_head_ c + (q - R) + (p - q + RC)) with (rx_head_ c + (p - R) + 1 * RC) by lia. by rewrite Z.mod_add by lia. }
  rewrite Hm in *. rewrite ring_put_get by (done || lia). case_cond; b2p.
  - replace p with (q + j) by (unfold j in *; revert E; case_cond; b2p; lia). apply Hk. lia.
  - destruct Hor as [Hr | ?]; [| done]. unfold j in E. revert E. case_cond; b2p; lia.
Qed.

Lemma ranges_written R low c q data : shaped c -> 0 <= R <= low -> R + rx_size_ c <= q -> q + zlen data <= R + RC ->
  (forall k, 0 <= k < zlen data -> holds (q + k) data.[k]) -> ranges_ok R low c ->
  ranges_ok R low (set_rx (ring_put RC (rx_ c) (rx_head_ c + rx_size_ c + (q - (R + rx_size_ c))) data) c).
Proof.
  intros Hsh HR Hq Hd Hk Hr i Hi. destruct (Hr i Hi) as (s & e & Hs & He & Hl & Hw & Hkp & Hf). exists s, e. split_and!; try done; try lia.
  intros p Hp. apply keeps_written; try done; try lia. right. by apply Hkp.
Qed.

Lemma unread_written R c q data : shaped c -> 0 <= R -> R + rx_size_ c <= q -> q + zlen data <= R + RC ->
  (forall k, 0 <= k < zlen data -> holds (q + k) data.[k]) -> unread R c ->
  unread R (set_rx (ring_put RC (rx_ c) (rx_head_ c + rx_size_ c + (q - (R + rx_size_ c))) data) c).
Proof.
  intros Hsh HR Hq Hd Hk Hu p Hp. change (R <= p < R + rx_size_ c) in Hp.
  destruct Hsh as (? & ? & ? & ?). apply keeps_written; try done; try lia. right. by apply Hu.
Qed.

Lemma by_state_data R c : data_state (state_ c) = true -> by_state R c <-> synced R c.
Proof. unfold by_state. by destruct (state_ c). Qed.

Lemma finish_ok R now c : shaped c -> 0 <= R -> unread R c -> rcv_nxt_ c = seqno iss (1 + (R + rx_size_ c)) -> irs_ c = iss ->
  ends (R + rx_size_ c) -> data_state (state_ c) = true -> rcv_ok R (finish now c).
Proof.
  intros (? & ? & ? & ? & ?) HR Hu Hn Hi HP Hs.
  assert (rcv_ok R (set_rcv_nxt (u32_wrap (rcv_nxt_ c + 1)) (set_eof true (set_ooo_count 0 c)))) as [G1 G2 G3 G4 G5].
  { split; try done.
    apply (proj2 (by_state_data R (set_rcv_nxt _ (set_eof _ (set_ooo_count _ c))) Hs)). split; [exact Hi |]. split; [| done]. cbn. rewrite Hn. by rewrite seqno_add. }
  apply (proj1 (by_state_data R (set_rcv_nxt _ (set_eof _ (set_ooo_count _ c))) Hs)) in G5. unfold finish. change (state_ (set_rcv_nxt ?a (set_eof ?b (set_ooo_count ?d c)))) with (state_ c).
  destruct (state_ c) eqn:Hst; try done; split; (exact G1 || exact G2 || exact G3 || exact G4 || (unfold by_state; cbn; rewrite ?Hst; exact G5)).
Qed.

Lemma ranges_lower R low low' c : low' <= low -> ranges_ok R low c -> ranges_ok R low' c.
Proof.
  intros Hl Hr i Hi. destruct (Hr i Hi) as (s & e & ? & ? & ? & ? & ? & ?). exists s, e. split_and!; try done; lia.
Qed.

(** The two ways data is taken: beyond a gap, and next in order. *)
Section Taking.
Context (R : Z) (c : t) (Hc : rcv_ok R c) (Hd : data_state (state_ c) = true) (Heof : eof_ c = false).
Context (q : Z) (data : Bytes) (closes : bool) (Hq : R + rx_size_ c <= q) (HqR : q + zlen data <= R + RC).
Context (Hdata : forall k, 0 <= k < zlen data -> holds (q + k) data.[k]) (Hcl : closes = true -> ends (q + zlen data)).
Local Notation "'taken'" := (set_rx (ring_put RC (rx_ c) (rx_head_ c + rx_size_ c + (q - (R + rx_size_ c))) data) c).

Lemma taken_facts : shaped taken /\ unread R taken /\ ranges_ok R (R + rx_size_ c) taken /\
  irs_ c = iss /\ rcv_nxt_ c = seqno iss (1 + (R + rx_size_ c)) /\ (forall p, q <= p < q + zlen data -> keeps R taken p).
Proof.
  destruct Hc as [Hsh HR Hu He Hs]. apply (proj1 (by_state_data R c Hd)) in Hs as (Hi & Hn & Hr). rewrite Heof, Z.add_0_r in Hn. specialize (Hr Heof).
  pose proof Hsh as (H1 & H2 & H3 & H4 & H5). pose proof (zlen_nonneg data). split_and!; try done.
  - unfold shaped. cbn. by rewrite zlen_ring_put.
  - apply unread_written; done || lia.
  - apply ranges_written; done || lia.
  - intros p Hp. apply keeps_written; done || lia.
Qed.

Lemma take_beyond : R + rx_size_ c < q -> rcv_ok R (remember (seqno iss (1 + q)) (seqno iss (1 + (q + zlen data))) closes taken).
Proof.
  intros Hgap. destruct taken_facts as (Hsh & Hu & Hr & Hi & Hn & Hk). destruct Hc as [Hsh0 HR _ He Hs]. pose proof (zlen_nonneg data).
  destruct (remember_spec R (R + rx_size_ c) ltac:(destruct Hsh0 as (? & ? & ? & _); lia) (seqno iss (1 + q)) (seqno iss (1 + (q + zlen data))) closes taken Hsh Hr)
    as (o & k & -> & Hsh' & Hr').
  { exists q, (q + zlen data). cbn. split_and!; done || lia. }
  split; try done. unfold by_state. cbn. unfold by_state in Hs. destruct (state_ c); try done; split_and!; try done; cbn; by rewrite Heof, Z.add_0_r.
Qed.

Lemma take_next now : q = R + rx_size_ c ->
  let c2 := set_rx_size (rx_size_ c + zlen data) (set_rcv_nxt (u32_wrap (rcv_nxt_ c + zlen data)) taken) in
  rcv_ok R (let '(c, final) := join (Z.to_nat (ooo_count_ c2)) closes c2 in if final && negb (window RC c =? 0) then finish now c else c).
Proof.
  intros Hq0 c2. destruct taken_facts as (Hsh & Hu & Hr & Hi & Hn & Hk). pose proof (zlen_nonneg data). pose proof (rcv_read _ _ Hc) as HR.
  assert (shaped c2) as Hsh2.
  { destruct Hsh as (S1 & S2 & S3 & S4 & S5). split; [exact S1 |]. split; [exact S2 |]. split; [| split; [exact S4 | exact S5]]. cbn in S3 |- *. lia. }
  assert (rcv_nxt_ c2 = seqno iss (1 + (R + rx_size_ c2))) as Hn2 by (cbn; rewrite Hn, seqno_add; f_equal; lia).
  assert (unread R c2) as Hu2.
  { intros p Hp. cbn in Hp. destruct (decide (p < R + rx_size_ c)); [apply (Hu p); cbn; lia | apply (Hk p); lia]. }
  assert (ranges_ok R R c2) as Hr2 by (destruct (rcv_shape _ _ Hc) as (? & ? & ? & _); apply (ranges_lower R (R + rx_size_ c)); [lia | exact Hr]).
  destruct (join_spec R (Z.to_nat (ooo_count_ c2)) HR closes c2 Hsh2 ltac:(destruct Hsh2 as (_ & _ & _ & _ & ?); lia) Hu2 Hr2 Hn2)
    as (o & k & size & final & -> & Hsh3 & Hu3 & Hr3 & Hf3 & Hle); [intros Hx; cbn; replace (R + (rx_size_ c + zlen data)) with (q + zlen data) by lia; by apply Hcl |].
  destruct final; cbn [andb].
  - pose proof (Hf3 eq_refl) as HP. case_cond; [by apply finish_ok |]. split; try done. unfold by_state. cbn. pose proof (rcv_state _ _ Hc) as Hs. unfold by_state in Hs.
    destruct (state_ c); try done; (split; [exact Hi |]); (split; [| intros _; exact Hr3]); cbn; by rewrite Heof, Z.add_0_r.
  - split; try done; [cbn; by rewrite Heof |]. unfold by_state. cbn. pose proof (rcv_state _ _ Hc) as Hs. unfold by_state in Hs.
    destruct (state_ c); try done; (split; [exact Hi |]); (split; [| intros _; exact Hr3]); cbn; by rewrite Heof, Z.add_0_r.
Qed.
End Taking.

(** Bytes from position [q] on, as far as they fit the window. *)
Lemma take_ok R now c q data f : rcv_ok R c -> data_state (state_ c) = true -> eof_ c = false -> R + rx_size_ c <= q <= R + rx_size_ c + 2147483648 ->
  (forall k, 0 <= k < zlen data -> holds (q + k) data.[k]) -> (f = true -> ends (q + zlen data)) ->
  rcv_ok R
    (let free := RC - rx_size_ c in
     let offset := u32_wrap (seqno iss (1 + q) - rcv_nxt_ c) in
     if free <=? offset then c
     else
       let count := Z.min (zlen data) (free - offset) in
       let c := set_rx (ring_put RC (rx_ c) (rx_head_ c + rx_size_ c + offset) (first data count)) c in
       let closes := f && (count =? zlen data) in
       if negb (offset =? 0) then remember (seqno iss (1 + q)) (u32_wrap (seqno iss (1 + q) + count)) closes c
       else
         let c := set_rx_size (rx_size_ c + count) (set_rcv_nxt (u32_wrap (rcv_nxt_ c + count)) c) in
         let '(c, final) := join (Z.to_nat (ooo_count_ c)) closes c in
         if final && negb (window RC c =? 0) then finish now c else c).
Proof.
  intros Hc Hd Heof Hq Hdata Hf. pose proof (proj1 (by_state_data R c Hd) (rcv_state _ _ Hc)) as (_ & Hn & _). rewrite Heof, Z.add_0_r in Hn.
  pose proof (rcv_shape _ _ Hc) as (_ & _ & Hsz & _). pose proof (rcv_read _ _ Hc). pose proof (zlen_nonneg data). cbv zeta.
  assert (u32_wrap (seqno iss (1 + q) - rcv_nxt_ c) = q - (R + rx_size_ c)) as Hoff by (rewrite Hn, seqno_diff by lia; lia).
  rewrite !Hoff. case_cond; [done |]. b2p.
  set (count := Z.min (zlen data) (RC - rx_size_ c - (q - (R + rx_size_ c)))). assert (zlen (first data count) = count) as Hcount by (rewrite zlen_first; lia).
  assert (forall k, 0 <= k < zlen (first data count) -> holds (q + k) (first data count).[k]) as Hdata' by (intros k Hk; rewrite aget_first by lia; apply Hdata; lia).
  assert (f && (count =? zlen data) = true -> ends (q + zlen (first data count))) as Hcl
    by (intros Hx; b2p; rewrite Hcount; replace count with (zlen data) by lia; by apply Hf).
  case_cond; b2p.
  - replace (u32_wrap (seqno iss (1 + q) + count)) with (seqno iss (1 + (q + zlen (first data count)))) by (rewrite seqno_add; f_equal; lia).
    apply take_beyond; try done; lia.
  - pose proof (take_next R c Hc Hd Heof q (first data count) (f && (count =? zlen data)) ltac:(lia) ltac:(lia) Hdata' Hcl now ltac:(lia)) as Ht.
    cbv zeta in Ht. rewrite Hcount in Ht. exact Ht.
Qed.

(** Data of the peer's stream, in any order and any number of times. *)
Lemma consume_ok R seg now c : rcv_ok R c -> data_state (state_ c) = true -> (eof_ c = false -> genuine (R + rx_size_ c) seg) ->
  rcv_ok R (consume RC seg now c).
Proof.
  intros Hc0 Hd0 Hg. unfold consume. case_cond; [done |]. pose proof (rcv_ext R c (set_pending_ack true c) eq_refl eq_refl eq_refl Hc0) as Hc.
  assert (data_state (state_ (set_pending_ack true c)) = true) as Hd by exact Hd0. case_cond; [done |]. rename E0 into Heof.
  destruct (Hg Heof) as (q & Hq & Hseq & Hk & Hfin).
  { apply andb_false_iff in E as [E | E]; [left; intros Hx; by rewrite Hx in E | right; by apply negb_false_iff]. }
  clear Hg. change (rx_size_ c) with (rx_size_ (set_pending_ack true c)) in Hq. set (c0 := set_pending_ack true c) in *. clearbody c0. clear Hc0 Hd0 c.
  set (pay := Tcp.payload seg) in *. set (f := has (Tcp.fields seg) tcp_fin) in *. pose proof (zlen_nonneg pay).
  pose proof (proj1 (by_state_data R c0 Hd) (rcv_state _ _ Hc)) as (_ & Hn & _). rewrite Heof, Z.add_0_r in Hn. pose proof (rcv_shape _ _ Hc) as (_ & _ & Hsz & _).
  assert (before (TcpFields.sequence (Tcp.fields seg)) (rcv_nxt_ c0) = (1 + q <? 1 + (R + rx_size_ c0))) as Hb by (rewrite Hseq, Hn; apply before_wide; lia).
  rewrite Hb, Hseq. clear Hb. destruct (Z.ltb_spec (1 + q) (1 + (R + rx_size_ c0))) as [Hold | Hnew].
  - replace (u32_wrap (rcv_nxt_ c0 - seqno iss (1 + q))) with (R + rx_size_ c0 - q) by (rewrite Hn, seqno_diff by lia; lia). case_cond; [done |]. b2p.
    pose proof (take_ok R now c0 (R + rx_size_ c0) (rest pay (R + rx_size_ c0 - q)) f Hc Hd Heof) as Ht. rewrite zlen_skip in Ht by lia. rewrite <- Hn in Ht.
    rewrite zlen_skip by lia. apply Ht; try lia.
    + intros k Hr. rewrite aget_rest by lia. replace (R + rx_size_ c0 + k) with (q + (R + rx_size_ c0 - q + k)) by lia. apply Hk. lia.
    + intros Hx. replace (R + rx_size_ c0 + Z.max 0 (zlen pay - (R + rx_size_ c0 - q))) with (q + zlen pay) by lia. by apply Hfin.
  - rewrite (proj2 (Z.ltb_ge (zlen pay) 0)) by lia. change (rest pay 0) with pay. apply take_ok; try done; lia.
Qed.

(** ** Reading *)
Lemma keeps_moved R k c c' p : shaped c -> rx_ c' = rx_ c -> rx_head_ c' = (rx_head_ c + k) mod RC -> keeps R c p -> keeps (R + k) c' p.
Proof.
  intros _ Hx Hh. unfold keeps. rewrite Hx, Hh, Zplus_mod_idemp_l. by replace (rx_head_ c + k + (p - (R + k))) with (rx_head_ c + (p - R)) by lia.
Qed.

Lemma rcv_taken R k c c' : 0 <= k <= rx_size_ c -> rcv_ok R c -> 0 < rx_size_ c ->
  receive_side c' = receive_side (set_rx_head ((rx_head_ c + k) mod RC) (set_rx_size (rx_size_ c - k) c)) -> failure_ c' = failure_ c -> state_ c' = state_ c ->
  rcv_ok (R + k) c'.
Proof.
  intros Hk [Hsh HR Hu He Hs] Hpos Er Hf Hst. pose proof Hsh as (S1 & S2 & S3 & S4 & S5).
  assert (rx_ c' = rx_ c /\ rx_head_ c' = (rx_head_ c + k) mod RC /\ rx_size_ c' = rx_size_ c - k /\ rcv_nxt_ c' = rcv_nxt_ c /\ irs_ c' = irs_ c /\ eof_ c' = eof_ c /\
    ooo_ c' = ooo_ c /\ ooo_count_ c' = ooo_count_ c) as (E1 & E2 & E3 & E4 & E5 & E6 & E7 & E8) by (by rewrite Er).
  assert (R + k + (rx_size_ c - k) = R + rx_size_ c) as Hsum by lia.
  assert (synced R c -> synced (R + k) c') as Hsync.
  { intros (H1 & H2 & H3). unfold synced, ranges_ok. rewrite E3, E4, E5, E6, E7, E8, Hsum. split; [done |]. split; [done |]. intros Hx i Hi.
    destruct (H3 Hx i Hi) as (s & e & ? & ? & ? & ? & Hkp & ?). exists s, e. split_and!; try done; try lia. intros p Hp. apply (keeps_moved R k c); try done. by apply Hkp. }
  split.
  - unfold shaped. rewrite E1, E2, E3, E7, E8. split_and!; try done; try lia; apply Z.mod_pos_bound; lia.
  - lia.
  - intros p Hp. rewrite E3 in Hp. apply (keeps_moved R k c); try done. apply Hu. lia.
  - rewrite E3, E6, Hf, Hsum. exact He.
  - unfold by_state in *. rewrite Hst. destruct (state_ c); try done; try (by apply Hsync); try (destruct Hs as [(? & _) _]; lia); destruct Hs as (? & _); lia.
Qed.

(** A read takes the next bytes of the stream; an empty one its end. *)
Lemma read_spec self size R c output c' r : rcv_ok R c -> read RC self size c output = (c', r) ->
  match r with
  | Ok bytes => rcv_ok (R + zlen bytes) c' /\ (forall k, 0 <= k < zlen bytes -> holds (R + k) bytes.[k]) /\ (bytes = [] -> Span.size output <> 0 -> ends R)
  | Err _ => c' = c
  end.
Proof.
  intros Hc. pose proof (rcv_shape _ _ Hc) as (S1 & S2 & S3 & _). pose proof (zlen_nonneg (Span.bytes output)) as Hout. unfold read, Span.size in *. do 2 (case_cond; [by intros [= <- <-] |]).
  case_cond; [by intros [= <- <-] |]. apply negb_false_iff, bool_decide_eq_true in E1. case_cond.
  { intros [= <- <-]. b2p. change (zlen (@nil Z)) with 0. rewrite Z.add_0_r. split_and!; try done; lia. }
  case_cond.
  { intros [= <- <-]. b2p. destruct (eof_ c) eqn:He; [| done]. change (zlen (@nil Z)) with 0. rewrite Z.add_0_r. split_and!; try done; [lia |].
    intros _ _. replace R with (R + rx_size_ c) by lia. by apply (rcv_eof _ _ Hc). }
  intros [= <- <-]. b2p. set (k := Z.min (zlen (Span.bytes output)) (rx_size_ c)). rewrite zlen_ring_get by lia. split_and!.
  - apply (rcv_taken R k c); try done; try lia; by case_cond.
  - intros j Hj. rewrite ring_get_aget by done. pose proof (rcv_unread _ _ Hc (R + j) ltac:(lia)) as Hk. unfold keeps in Hk. by replace (R + j - R) with j in Hk by lia.
  - intros Hx. exfalso. assert (zlen (ring_get RC (rx_ c) (rx_head_ c) k) = k) as Hl by (apply zlen_ring_get; lia). rewrite Hx in Hl. change (zlen (@nil Z)) with 0 in Hl. lia.
Qed.
End Receive.

(** What is known of the stream may grow. *)
Lemma rcv_mono {Policy} RC iss (holds holds' : Z -> Z -> Prop) (ends ends' : Z -> Prop) R (c : t Policy) :
  (forall p b, holds p b -> holds' p b) -> (forall p, ends p -> ends' p) -> rcv_ok RC iss holds ends R c -> rcv_ok RC iss holds' ends' R c.
Proof.
  intros Hh He [H1 H2 H3 H4 H5].
  assert (synced RC iss holds ends R c -> synced RC iss holds' ends' R c) as Hs.
  { intros (K1 & K2 & K3). split; [done |]. split; [done |]. intros Hx i Hi. destruct (K3 Hx i Hi) as (s & e & ? & ? & ? & ? & Hk & Hf). exists s, e. split_and!; try done; try lia.
    - intros p Hp. by apply Hh, Hk.
    - intros Hfin. by apply He, Hf. }
  split; try done.
  - intros p Hp. by apply Hh, H3.
  - intros Hx Hf. by apply He, H4.
  - unfold by_state in *. destruct (state_ c); try done; try (by apply Hs). destruct H5. split; [done | by apply Hs].
Qed.
