(* ===== verification/TransportSend.v ===== *)
(** * The send side of a connection

    [W] is everything written to the connection so far.  The ring holds its
    last [tx_size] bytes; SND.UNA, SND.NXT and SND.MAX are positions of the
    stream counted from the SYN at 0, so that byte [k] is at [1 + k] and the FIN
    behind the last byte. *)

From S2P Require Import Prelude Epoch Wire Checksum Ip Address Congestion TransportState Transport Serial TransportReceive.
Import Connection.

Section Send.
Context {Policy : Type} `{CongestionLaws Policy} (SC SegmentCapacity : Z).
Context (HSC : 0 < SC <= 65535) (HSG : 0 < SegmentCapacity <= 1460).
Local Abbreviation t := (t Policy).
Implicit Types c : t.

(** The first unacknowledged position. *)
Definition una (W : Bytes) (c : t) : Z := 1 + (zlen W - tx_size_ c) + Z.b2z (fin_acknowledged_ c).

Definition buffered (W : Bytes) (c : t) : Prop :=
  tx_size_ c <= zlen W /\ forall k, 0 <= k < tx_size_ c -> (tx_ c).[(tx_head_ c + k) mod SC] = W.[zlen W - tx_size_ c + k].

(** SYN not yet acknowledged: nothing has been written. *)
Definition opening (W : Bytes) (c : t) : Prop :=
  W = [] /\ tx_size_ c = 0 /\ snd_una_ c = iss_ c /\ write_shutdown_ c = false /\ fin_acknowledged_ c = false /\
  exists m, 0 <= m <= 1 /\ snd_nxt_ c = seqno (iss_ c) m /\ snd_max_ c = seqno (iss_ c) m.

(** The FIN has not been sent, has been sent, has been acknowledged. *)
Definition fin_phase (W : Bytes) (c : t) (m : Z) : Prop :=
  match state_ c with
  | State.established | State.close_wait => fin_acknowledged_ c = false /\ m <= 1 + zlen W
  | State.fin_wait_1 | State.closing | State.last_ack => fin_acknowledged_ c = false /\ write_shutdown_ c = true /\ m = 2 + zlen W
  | State.fin_wait_2 | State.time_wait => fin_acknowledged_ c = true /\ write_shutdown_ c = true /\ m = 2 + zlen W /\ tx_size_ c = 0
  | _ => False
  end.

Definition opened (W : Bytes) (n m : Z) (c : t) : Prop :=
  buffered W c /\ snd_una_ c = seqno (iss_ c) (una W c) /\ snd_nxt_ c = seqno (iss_ c) n /\ snd_max_ c = seqno (iss_ c) m /\
  una W c <= n <= m /\ fin_phase W c m.

Definition send_state (W : Bytes) (c : t) : Prop :=
  match state_ c with
  | State.closed => True
  | State.listen => opening W c /\ snd_max_ c = iss_ c
  | State.syn_sent | State.syn_received => opening W c
  | _ => exists n m, opened W n m c
  end.

Definition ring_shape (c : t) : Prop := zlen (tx_ c) = SC /\ 0 <= tx_head_ c < SC /\ 0 <= tx_size_ c <= SC.
Definition sends (W : Bytes) (c : t) : Prop := ring_shape c /\ 0 <= iss_ c < 4294967296 /\ send_state W c.

Lemma snd_shape W c : sends W c -> ring_shape c.
Proof. apply proj1. Qed.
Lemma snd_iss W c : sends W c -> 0 <= iss_ c < 4294967296.
Proof. intros (_ & Hi & _). exact Hi. Qed.
Lemma snd_position W c : sends W c -> send_state W c.
Proof. intros (_ & _ & Hs). exact Hs. Qed.

(** Bounds on the positions of an open connection. *)
Lemma opened_bounds W n m c : sends W c -> opened W n m c -> una W c <= n <= m /\ m - una W c <= SC + 1 /\ m <= 2 + zlen W /\
  (m = 2 + zlen W -> write_shutdown_ c = true) /\ (fin_acknowledged_ c = true -> tx_size_ c = 0 /\ una W c = m) /\ 0 <= tx_size_ c <= Z.min (zlen W) SC.
Proof.
  intros ((_ & _ & Hs) & _) ((Hb & _) & _ & _ & _ & Hn & Hf). unfold una, fin_phase in *.
  destruct (state_ c); try done; destruct (fin_acknowledged_ c); cbn [Z.b2z] in *; try (by destruct Hf); split_and!; try tauto; try lia; intros; split; tauto || lia.
Qed.

(** ** Acknowledgments *)
Local Notation "'seg'" := (segment SegmentCapacity).
Local Notation "'acknowledge'" := (acknowledge SC SegmentCapacity).

Definition cc_ok (c : t) : Prop := policy_ok (seg c) (cc_ c) /\ 1 <= peer_mss_ c <= 65535.
Definition rto_ok (r : Rtt) : Prop := 1000 <= rto_ r <= max_rto_ms.

Lemma seg_ok c : cc_ok c -> segment_ok (seg c).
Proof. intros [_ ?]. unfold segment_ok, segment, segment_of. lia. Qed.

(** What acknowledge() makes of the send side. *)
Definition acked (ack released : Z) (fin : bool) (c : t) : Send :=
  mk_send (tx_ c) ((tx_head_ c + released) mod SC) (tx_size_ c - released) ack (if before (snd_nxt_ c) ack then ack else snd_nxt_ c)
          (snd_max_ c) (iss_ c) (write_shutdown_ c) (fin || fin_acknowledged_ c).

Lemma sample_rtt_ok sample c : exists r, sample_rtt sample c = with_rtt r c /\ rto_ok r.
Proof.
  assert (forall x, 1000 <= Z.min (if x <? 1000 then 1000 else x) max_rto_ms <= max_rto_ms) as Hm by (intros x; unfold max_rto_ms; case_cond; b2p; lia).
  unfold sample_rtt. destruct (rtt_known_ c); (eexists; split; [reflexivity |]); unfold rto_ok; cbn [rto_]; apply Hm.
Qed.

Lemma acknowledge_loss_ok ack released c : cc_ok c -> 0 <= released < 4294967296 -> 0 <= u32_wrap (snd_max_ c - snd_una_ c) <= 2147483648 ->
  exists l, acknowledge_loss SegmentCapacity ack released c = Some (with_loss l c) /\ policy_ok (seg c) (cc_ l).
Proof.
  intros Hc Hr Hf. pose proof (seg_ok c Hc) as Hseg. destruct Hc as [Hcc _]. unfold acknowledge_loss. case_cond; [case_cond |].
  - destruct (law_on (seg c) (cc_ c) (Recovered (u32_wrap (snd_max_ c - snd_una_ c))) Hseg Hcc Hf) as (p & [= <-] & Hp). by eexists.
  - destruct (law_on (seg c) (cc_ c) (Partial released) Hseg Hcc Hr) as (p & [= <-] & Hp). by eexists.
  - case_cond; [| exists (loss c); split; [by destruct c | done]].
    destruct (law_on (seg c) (cc_ c) (Acknowledged released) Hseg Hcc Hr) as (p & He & Hp). cbn [on] in He. rewrite He. by eexists.
Qed.

Lemma acknowledge_eq ack now c : after ack (snd_una_ c) = true -> after ack (snd_max_ c) = false -> cc_ok c -> rto_ok c -> 0 <= tx_size_ c < 4294967296 ->
  0 <= u32_wrap (snd_max_ c - ack) <= 2147483648 ->
  let syn := match state_ c with State.syn_sent | State.syn_received => true | _ => false end in
  let fin := fin_sent c && (ack =? u32_wrap (fin_sequence c + 1)) in
  let released := Z.min (u32_wrap (u32_wrap (ack - snd_una_ c) - (if syn then 1 else 0) - (if fin then 1 else 0))) (tx_size_ c) in
  exists r l tm, rto_ok r /\ policy_ok (seg c) (cc_ l) /\ last_now_ tm = last_now_ c /\
    Timer.active (rtx_ tm) = Timer.active (rtx_ c) && negb (ack =? snd_max_ c) /\
    acknowledge ack now c =
    Some (let c' := mk (acked ack released fin c) (receive_side c) (peer_side c) r l tm (pending c) (control c) in
          if fin then acknowledge_fin now c' else c').
Proof.
  intros H1 H2 Hc Hrto Htx Hfl syn fin released. unfold acknowledge. rewrite H1, H2. cbn [negb orb]. fold syn fin released.
  set (c1 := set_tx_head _ _). 
  assert (exists r, (if rtt_timing_ c1 && negb (before ack (rtt_sequence_ c1))
    then set_rtt_timing false (sample_rtt (u64_wrap (now - rtt_sent_at_ c1)) c1) else c1) = with_rtt r c1 /\ rto_ok r) as (r & -> & Hr).
  { case_cond; [| exists (rtt c1); split; [by destruct c1 | exact Hrto]]. destruct (sample_rtt_ok (u64_wrap (now - rtt_sent_at_ c1)) c1) as (r & -> & Hr).
    eexists. split; [reflexivity | exact Hr]. }
  assert (set_dupacks 0 (let c2 := set_snd_una ack (with_rtt r c1) in
    let c3 := if before (snd_nxt_ c2) (snd_una_ c2) then set_snd_nxt (snd_una_ c2) c2 else c2 in if fin then set_fin_acknowledged true c3 else c3) =
    set_dupacks 0 (with_send (acked ack released fin c) (with_rtt r c))) as He.
  { cbv zeta. unfold acked. change (before (snd_nxt_ (set_snd_una ack (with_rtt r c1))) (snd_una_ (set_snd_una ack (with_rtt r c1)))) with (before (snd_nxt_ c) ack).
    destruct (before (snd_nxt_ c) ack), fin; reflexivity. }
  cbv zeta in He. rewrite He. clear He. set (c5 := set_dupacks 0 _).
  destruct (acknowledge_loss_ok ack released c5) as (l & -> & Hl).
  { exact Hc. }
  { subst released. pose proof (u32_range (u32_wrap (ack - snd_una_ c) - (if syn then 1 else 0) - (if fin then 1 else 0))). lia. }
  { exact Hfl. }
  unfold acknowledge_timer. change (snd_una_ (set_rtx ?v (with_loss l c5))) with ack. change (snd_max_ (set_rtx ?v (with_loss l c5))) with (snd_max_ c).
  destruct (ack =? snd_max_ c); cbn [negb]; (exists r, l; eexists; split_and!; [exact Hr | exact Hl | | | reflexivity]); cbn; by rewrite ?andb_true_r, ?andb_false_r.
Qed.

Lemma fin_facts W n m c : sends W c -> opened W n m c ->
  fin_sequence c = seqno (iss_ c) (una W c + tx_size_ c) /\ fin_sent c = (una W c + tx_size_ c <? m) /\
  (una W c + tx_size_ c < m -> fin_acknowledged_ c = false /\ m = 2 + zlen W).
Proof.
  intros Hs Ho. destruct (opened_bounds W n m c Hs Ho) as (Hn & Hm & Hmx & Hws & Hfa & Htx). destruct Ho as (_ & Hu & _ & Hmax & _ & _).
  assert (fin_sequence c = seqno (iss_ c) (una W c + tx_size_ c)) as Hf by (unfold fin_sequence; rewrite Hu; apply seqno_add).
  assert (una W c + tx_size_ c < m -> fin_acknowledged_ c = false /\ m = 2 + zlen W) as Hlt.
  { intros Hlt. unfold una in *. destruct (fin_acknowledged_ c); cbn [Z.b2z] in *; [destruct (Hfa eq_refl); lia | split; [done | lia]]. }
  split_and!; [done | | done]. unfold fin_sent. rewrite Hf, Hmax, after_spec by (unfold near; lia).
  destruct (Z.ltb_spec (una W c + tx_size_ c) m) as [H2 |]; [| by rewrite andb_false_r]. destruct (Hlt H2) as [_ H3]. by rewrite (Hws H3).
Qed.

(** The states between which an acknowledgment moves. *)
Definition ack_edge (s s' : State.t) : Prop :=
  s' = s \/ (s = State.fin_wait_1 /\ s' = State.fin_wait_2) \/ (s = State.closing /\ s' = State.time_wait) \/ (s = State.last_ack /\ s' = State.closed).

(** What an acknowledgment leaves alone. *)
Definition ack_frame (c c' : t) : Prop :=
  receive_side c' = receive_side c /\ peer_side c' = peer_side c /\ pending c' = pending (set_pending_ack (pending_ack_ c') c) /\
  control c' = control (set_state (state_ c') c) /\ last_now_ c' = last_now_ c /\ iss_ c' = iss_ c /\ write_shutdown_ c' = write_shutdown_ c.

Lemma pending_eta c : pending (set_pending_ack (pending_ack_ c) c) = pending c.
Proof. by destruct c as [? ? ? ? ? ? [] ?]. Qed.
Lemma control_eta c : control (set_state (state_ c) c) = control c.
Proof. by destruct c as [? ? ? ? ? ? ? []]. Qed.
Ltac frame c Hn := unfold ack_frame; split_and!; try reflexivity; exact Hn || exact (eq_sym (pending_eta c)) || exact (eq_sym (control_eta c)).

(** The amount acknowledged, and whether the FIN is among it. *)
Lemma acked_amount W n m c d : sends W c -> opened W n m c -> 0 < d <= m - una W c ->
  let ack := seqno (iss_ c) (una W c + d) in
  let fin := fin_sent c && (ack =? u32_wrap (fin_sequence c + 1)) in
  fin = (d =? tx_size_ c + 1) /\ d <= tx_size_ c + 1 /\ (d = tx_size_ c + 1 -> fin_acknowledged_ c = false /\ m = 2 + zlen W) /\
  Z.min (u32_wrap (u32_wrap (ack - snd_una_ c) - 0 - (if fin then 1 else 0))) (tx_size_ c) = d - (if fin then 1 else 0).
Proof.
  intros Hs Ho Hd ack fin. destruct (fin_facts W n m c Hs Ho) as (Hfs & Hft & Hlt). destruct (opened_bounds W n m c Hs Ho) as (Hn & Hm & Hmx & Hws & Hfa & Htx).
  assert ((ack =? u32_wrap (fin_sequence c + 1)) = (d =? tx_size_ c + 1)) as He.
  { subst ack. rewrite Hfs, seqno_add, seqno_eqb by lia. destruct (Z.eqb_spec d (tx_size_ c + 1)), (Z.eqb_spec (una W c + d) (una W c + tx_size_ c + 1)); done || lia. }
  assert (m - una W c <= tx_size_ c + 1) as Hmax by (destruct (decide (una W c + tx_size_ c < m)) as [Hx |]; [destruct (Hlt Hx) as [Hf0 ?]; unfold una in *; rewrite Hf0 in *; cbn in *; lia | lia]).
  assert (fin = (d =? tx_size_ c + 1)) as Hfin.
  { subst fin. rewrite He, Hft. destruct (Z.eqb_spec d (tx_size_ c + 1)); [| apply andb_false_r]. rewrite andb_true_r. apply Z.ltb_lt. lia. }
  split_and!; [done | lia | intros; apply Hlt; lia |].
  destruct Ho as (_ & Hu & _). subst ack. rewrite Hu, seqno_diff by lia. rewrite Hfin. destruct (Z.eqb_spec d (tx_size_ c + 1)); rewrite u32_small by lia; lia.
Qed.

Lemma acked_opened W n m c c' d : sends W c -> opened W n m c -> 0 < d <= m - una W c -> d <= tx_size_ c + 1 ->
  (d = tx_size_ c + 1 -> fin_acknowledged_ c = false) ->
  let fin := d =? tx_size_ c + 1 in
  send c' = acked (seqno (iss_ c) (una W c + d)) (d - (if fin then 1 else 0)) fin c -> fin_phase W c' m -> 
  ring_shape c' /\ opened W (Z.max n (una W c + d)) m c' /\ snd_una_ c' = seqno (iss_ c) (una W c + d).
Proof.
  intros Hs Ho Hd Hdle Hfa fin He Hph. destruct (opened_bounds W n m c Hs Ho) as (Hn & Hm & _ & _ & _ & Htx). pose proof Ho as ((Hb1 & Hb2) & Hu & Hnx & Hmax & _ & _).
  destruct (snd_shape _ _ Hs) as (S1 & S2 & S3).
  assert (0 <= d - (if fin then 1 else 0) <= tx_size_ c) as Hrel by (unfold fin; case_cond; b2p; lia). set (rel := d - (if fin then 1 else 0)) in *.
  assert (una W c' = una W c + d) as Hu'.
  { unfold una. rewrite He. cbn. unfold rel, fin. destruct (Z.eqb_spec d (tx_size_ c + 1)) as [Hx |]; [rewrite (Hfa Hx) |]; cbn [orb Z.b2z]; lia. }
  unfold opened, buffered, ring_shape. rewrite Hu', He. cbn [tx_ tx_head_ tx_size_ snd_una_ snd_nxt_ snd_max_ iss_ fin_acknowledged_ acked].
  split; [split_and!; try done; try lia; apply Z.mod_pos_bound; lia |]. split; [| done]. split_and!; try done; try lia.
  - intros k Hk. rewrite Zplus_mod_idemp_l. replace (tx_head_ c + rel + k) with (tx_head_ c + (rel + k)) by lia. rewrite Hb2 by lia. f_equal. lia.
  - rewrite Hnx, before_spec by (unfold near; lia). destruct (Z.ltb_spec n (una W c + d)); f_equal; lia.
Qed.

Lemma acknowledge_open W n m ack now c : sends W c -> opened W n m c -> cc_ok c -> rto_ok c -> 0 <= ack < 4294967296 ->
  after ack (snd_una_ c) = true -> after ack (snd_max_ c) = false ->
  exists c', acknowledge ack now c = Some c' /\ sends W c' /\ cc_ok c' /\ rto_ok c' /\ ack_frame c c' /\ ack_edge (state_ c) (state_ c') /\
    Timer.active (rtx_ c') = Timer.active (rtx_ c) && negb (snd_una_ c' =? snd_max_ c') /\
    (state_ c' = State.closed -> pending_ack_ c' = false /\ snd_una_ c' = snd_max_ c').
Proof.
  intros Hs Ho Hc Hr Ha H1 H2. destruct (opened_bounds W n m c Hs Ho) as (Hn & Hm & Hmx & Hws & Hfa & Htx). pose proof Ho as ((Hb1 & Hb2) & Hu & Hnx & Hmax & _ & Hph).
  rewrite Hu in H1. rewrite Hmax in H2. destruct (ack_between (iss_ c) (una W c) m ack Ha ltac:(lia) H1 H2) as (d & Hd & ->). rewrite <- Hu in H1. rewrite <- Hmax in H2.
  destruct (acked_amount W n m c d Hs Ho Hd) as (Hfin & Hdle & Hdf & Hrel).
  destruct (acknowledge_eq (seqno (iss_ c) (una W c + d)) now c H1 H2 Hc Hr) as (r & l & tm & Hr' & Hl & Hln & Htm & ->).
  { pose proof (proj2 (proj2 (snd_shape _ _ Hs))). lia. }
  { rewrite Hmax, seqno_diff by lia. lia. }
  assert (match state_ c with State.syn_sent | State.syn_received => true | _ => false end = false) as Hsyn by (unfold fin_phase in Hph; by destruct (state_ c)).
  rewrite Hsyn, Hrel, Hfin. clear Hsyn Hrel Hfin. cbv zeta.
  set (c1 := mk (acked _ _ _ c) _ _ r l tm _ _). pose proof (acked_opened W n m c) as Hopen. specialize (Hopen) with (d := d). cbv zeta in Hopen.
  assert (forall c', send c' = send c1 -> fin_phase W c' m -> send_state W c' = (exists n m, opened W n m c') -> sends W c' /\ snd_una_ c' = seqno (iss_ c) (una W c + d)) as Hsnd.
  { intros c' He Hp Hst. destruct (Hopen c' Hs Ho Hd Hdle ltac:(intros Hx; apply (Hdf Hx)) He Hp) as (? & Ho' & Hu'). split; [| exact Hu'].
    split; [done |]. split; [rewrite He; exact (snd_iss _ _ Hs) |]. rewrite Hst. by eauto. }
  destruct (Z.eqb_spec d (tx_size_ c + 1)) as [Hx | Hx].
  - destruct (Hdf Hx) as [Hfa0 Hm2]. assert (una W c + d = m) as Hum by (unfold una; rewrite Hfa0; cbn; lia).
    unfold acknowledge_fin. change (state_ c1) with (state_ c). unfold fin_phase in Hph. destruct (state_ c) eqn:Hst; try lia; try (by destruct Hph; congruence).
    + destruct Hph as (_ & Hws1 & _). destruct (Hsnd (set_state State.fin_wait_2 (set_fin_wait_deadline (deadline now (2 * msl_ms)) c1)) eq_refl) as [Hs2 Hu2];
        [unfold fin_phase; cbn; split_and!; done || lia | done |].
      eexists. split; [reflexivity |]. split; [exact Hs2 |]. split; [by split; [exact Hl | apply Hc] |]. split; [exact Hr' |]. split; [frame c Hln |].
      split; [right; left; done |]. split; [exact Htm | done].
    + destruct Hph as (_ & Hws1 & _). destruct (Hsnd (enter_time_wait now c1) eq_refl) as [Hs2 Hu2];
        [unfold fin_phase; cbn; split_and!; done || lia | done |].
      eexists. split; [reflexivity |]. split; [exact Hs2 |]. split; [by split; [exact Hl | apply Hc] |]. split; [exact Hr' |]. split; [frame c Hln |].
      split; [right; right; left; done |]. split; [| done]. rewrite Hu2. cbn. by rewrite Hmax, Hum, Z.eqb_refl, andb_false_r.
    + destruct Hph as (_ & Hws1 & _). destruct (Hopen (set_state State.time_wait c1) Hs Ho Hd Hdle ltac:(done) eq_refl) as (Hsh & _ & _);
        [unfold fin_phase; cbn; split_and!; done || lia |].
      eexists. split; [reflexivity |]. split; [split; [exact Hsh |]; split; [exact (snd_iss _ _ Hs) | done] |]. split; [by split; [exact Hl | apply Hc] |]. split; [exact Hr' |].
      split; [frame c Hln |]. split; [right; right; right; done |]. split; [exact Htm |]. intros _. cbn. by rewrite Hmax, Hum.
  - destruct (Hsnd c1 eq_refl) as [Hs2 Hu2].
    + unfold fin_phase in *. change (state_ c1) with (state_ c). cbn. destruct (state_ c); try done; split_and!; try tauto; try lia; destruct Hph; lia.
    + unfold send_state. change (state_ c1) with (state_ c). unfold fin_phase in Hph. by destruct (state_ c).
    + eexists. split; [reflexivity |]. split; [exact Hs2 |]. split; [by split; [exact Hl | apply Hc] |]. split; [exact Hr' |].
      split; [frame c Hln |]. split; [by left |]. split; [exact Htm |]. intros Hcl. change (state_ c1) with (state_ c) in Hcl. unfold fin_phase in Hph. by rewrite Hcl in Hph.
Qed.

Definition handshake (s : State.t) : bool := match s with State.syn_sent | State.syn_received => true | _ => false end.

Lemma handshake_opening W c : sends W c -> handshake (state_ c) = true -> opening W c.
Proof. intros (_ & _ & Hs). unfold send_state in Hs. by destruct (state_ c). Qed.

(** The acknowledgment of the SYN. *)
Lemma acknowledge_syn W now c : sends W c -> handshake (state_ c) = true -> cc_ok c -> rto_ok c -> snd_max_ c = u32_wrap (iss_ c + 1) ->
  exists c', acknowledge (snd_max_ c) now c = Some c' /\ state_ c' = state_ c /\ sends W (set_state State.established c') /\ cc_ok c' /\ rto_ok c' /\
    ack_frame c c' /\ Timer.active (rtx_ c') = false /\ snd_una_ c' = snd_max_ c'.
Proof.
  intros Hs Hh Hc Hr Hmax. destruct (handshake_opening W c Hs Hh) as (HW & Htx & Hu & Hws & Hfa & m & Hm & Hnx & Hmx).
  pose proof (snd_iss _ _ Hs) as Hi. change (u32_wrap (iss_ c + 1)) with (seqno (iss_ c) 1) in Hmax. rewrite <- (seqno_0 _ Hi) in Hu.
  assert (m = 1) as ->. { rewrite Hmx in Hmax. apply Z.eqb_eq in Hmax. rewrite seqno_eqb in Hmax by lia. by apply Z.eqb_eq in Hmax. }
  assert (after (snd_max_ c) (snd_una_ c) = true) as H1 by (rewrite Hmax, Hu, after_spec by (unfold near; lia); done).
  assert (after (snd_max_ c) (snd_max_ c) = false) as H2 by (rewrite Hmax, after_spec by (unfold near; lia); done).
  destruct (acknowledge_eq (snd_max_ c) now c H1 H2 Hc Hr) as (r & l & tm & Hr' & Hl & Hln & Htm & ->); [lia | rewrite Z.sub_diag; vm_compute; by split |].
  assert (fin_sent c = false) as Hfin by (unfold fin_sent; by rewrite Hws). rewrite Hfin. cbn [andb].
  change (match state_ c with State.syn_sent | State.syn_received => true | _ => false end) with (handshake (state_ c)). rewrite Hh.
  assert (u32_wrap (u32_wrap (snd_max_ c - snd_una_ c) - 1 - 0) = 0) as -> by (rewrite Hmax, Hu, seqno_diff by lia; done). rewrite Htx. change (Z.min 0 0) with 0.
  rewrite Z.eqb_refl, andb_false_r in Htm. eexists. split; [reflexivity |]. split; [done |]. split_and!; [| by split; [exact Hl | apply Hc] | exact Hr' | frame c Hln | exact Htm | done].
  destruct (snd_shape _ _ Hs) as (S1 & S2 & S3). split; [unfold ring_shape; cbn; split_and!; done || lia || (apply Z.mod_pos_bound; lia) |]. split; [exact Hi |].
  exists 1, 1. subst W. unfold opened, buffered, una, fin_phase. cbn. rewrite Hfa, Htx, Hnx, Hmax. split_and!; try done; try lia.
  by destruct (before (seqno (iss_ c) 1) (seqno (iss_ c) 1)).
Qed.

(** ** Planned packets *)

(** The first unacknowledged segment: queued bytes, or the FIN alone. *)
Definition head_ok (W : Bytes) (m : Z) (c : t) (p : Plan.t) : Prop :=
  Plan.offset p = 0 /\ TcpFields.sequence (Plan.fields p) = seqno (iss_ c) (una W c) /\ fin_acknowledged_ c = false /\
  ((0 < Plan.payload p <= Z.min (tx_size_ c) (m - una W c) /\ TcpFields.flags (Plan.fields p) = Z.lor tcp_ack tcp_psh) \/
   (Plan.payload p = 0 /\ tx_size_ c = 0 /\ m = 2 + zlen W /\ write_shutdown_ c = true /\ TcpFields.flags (Plan.fields p) = Z.lor tcp_fin tcp_ack)).
Definition syn_ok (c : t) (p : Plan.t) : Prop :=
  handshake (state_ c) = true /\ Plan.payload p = 0 /\ TcpFields.sequence (Plan.fields p) = iss_ c /\
  (TcpFields.flags (Plan.fields p) = tcp_syn \/ TcpFields.flags (Plan.fields p) = Z.lor tcp_syn tcp_ack).
Definition data_ok (W : Bytes) (n : Z) (c : t) (p : Plan.t) : Prop :=
  fin_acknowledged_ c = false /\ TcpFields.sequence (Plan.fields p) = seqno (iss_ c) n /\ Plan.offset p = n - una W c /\
  0 < Plan.payload p /\ Plan.offset p + Plan.payload p <= tx_size_ c /\ TcpFields.flags (Plan.fields p) = Z.lor tcp_ack tcp_psh.
Definition plan_ok (W : Bytes) (c : t) (p : Plan.t) : Prop :=
  match Plan.kind p with
  | Kind.ack => Plan.payload p = 0 /\ TcpFields.flags (Plan.fields p) = tcp_ack
  | Kind.reset => Plan.payload p = 0 /\ TcpFields.flags (Plan.fields p) = tcp_rst
  | Kind.syn => syn_ok c p
  | Kind.retry => syn_ok c p \/ exists n m, opened W n m c /\ head_ok W m c p
  | Kind.fast => exists n m, opened W n m c /\ head_ok W m c p
  | Kind.data | Kind.probe => exists n m, opened W n m c /\ data_ok W n c p
  | Kind.fin => exists m, opened W (1 + zlen W) m c /\ TcpFields.sequence (Plan.fields p) = seqno (iss_ c) (1 + zlen W) /\ Plan.payload p = 0 /\
      write_shutdown_ c = true /\ fin_acknowledged_ c = false /\ TcpFields.flags (Plan.fields p) = Z.lor tcp_fin tcp_ack
  end.

Definition timer_ok (c : t) : Prop :=
  Timer.active (rtx_ c) = negb (bool_decide (state_ c = State.closed)) && negb (snd_una_ c =? snd_max_ c).

Lemma open_positions W c : sends W c -> data_state (state_ c) = true -> exists n m, opened W n m c.
Proof. intros (_ & _ & Hs). unfold send_state in Hs. by destruct (state_ c). Qed.

Section Choosing.
Context (RC now : Z) (W : Bytes) (c : t).
Context (Hs : sends W c) (Hcc : state_ c <> State.closed -> cc_ok c) (Hsyn : pending_syn_ c = true -> handshake (state_ c) = true) (Htm : timer_ok c).

Lemma head_plan n m payload flags kind : opened W n m c -> head SegmentCapacity c = Some (payload, flags) ->
  head_ok W m c (plan RC c kind (peer_ c) (snd_una_ c) flags payload 0).
Proof.
  intros Ho. destruct (opened_bounds W n m c Hs Ho) as (Hn & Hm & Hmx & Hws & Hfa & Htx). destruct (fin_facts W n m c Hs Ho) as (_ & Hfs & Hlt).
  assert (1 <= seg c) as Hseg.
  { destruct Hcc as [_ ?]; [| unfold segment, segment_of; lia]. destruct Ho as (_ & _ & _ & _ & _ & Hp). unfold fin_phase in Hp. by destruct (state_ c). }
  destruct Ho as (_ & Hu & _ & Hmax & _). unfold head, head_ok. rewrite Hmax, Hu, seqno_diff by lia. cbn. case_cond; b2p.
  - intros [= <- <-]. split_and!; [done | done | | left; split; [lia | done]]. destruct (fin_acknowledged_ c); [destruct (Hfa eq_refl); lia | done].
  - rewrite Hfs. case_cond; [| done]. intros [= <- <-]. b2p. destruct (Hlt ltac:(lia)) as [Hf0 Hm2]. split_and!; try done. right. split_and!; try done; [| by apply Hws].
    unfold una in *. rewrite Hf0 in *. cbn in *. lia.
Qed.

Lemma send_next_ok : sending c = true ->
  exists c' next, send_next RC SegmentCapacity now c = (c', next) /\ (c' = c \/ exists d, c' = set_persist_deadline d c) /\
    match next with
    | Some p => c' = c /\ plan_ok W c p /\ exists kind flags payload offset, p = plan RC c kind (peer_ c) (snd_nxt_ c) flags payload offset /\ 0 <= flags < 256 /\ 0 <= payload
    | None => True
    end.
Proof.
  intros Hsend. destruct (open_positions W c Hs) as (n & m & Ho); [unfold sending in Hsend; by destruct (state_ c) |].
  destruct (opened_bounds W n m c Hs Ho) as (Hn & Hm & Hmx & Hws & Hfa & Htx). destruct (fin_facts W n m c Hs Ho) as (Hfq & Hfs & Hlt). pose proof Ho as (_ & Hu & Hnx & Hmax & _).
  assert (outstanding c = n - una W c) as Hout by (unfold outstanding; rewrite Hnx, Hu, seqno_diff; lia).
  assert (fin_acknowledged_ c = false) as Hf0 by (destruct Ho as (_ & _ & _ & _ & _ & Hp); unfold fin_phase, sending in *; destruct (state_ c); done || tauto).
  assert (una W c + tx_size_ c = 1 + zlen W) as Huz by (unfold una; rewrite Hf0; cbn; lia).
  assert (fin_in_flight c = (n =? 2 + zlen W)) as Hfl.
  { unfold fin_in_flight. rewrite Hfq, Hnx, seqno_add, seqno_eqb by lia. replace (una W c + tx_size_ c + 1) with (2 + zlen W) by lia.
    destruct (Z.eqb_spec n (2 + zlen W)); [| apply andb_false_r]. by rewrite Hws by lia. }
  assert (1 <= seg c) as Hseg by (destruct Hcc as [_ ?]; [intros Hx; unfold sending in Hsend; by rewrite Hx in Hsend | unfold segment, segment_of; lia]).
  assert (sent_data c = if n =? 2 + zlen W then n - una W c - 1 else n - una W c) as Hsd.
  { unfold sent_data. rewrite Hout, Hfl. case_cond; b2p; rewrite u32_small; lia. }
  unfold send_next. rewrite Hsd, Hout. clear Hsd. set (sent := if n =? 2 + zlen W then n - una W c - 1 else n - una W c).
  set (unsent := if sent <? tx_size_ c then tx_size_ c - sent else 0). set (limit := if _ <? peer_window_ c then _ else _).
  assert (unsent <> 0 -> sent = n - una W c /\ sent + unsent = tx_size_ c /\ 0 < unsent) as Hun by (subst unsent sent; repeat case_cond; b2p; lia).
  set (usable := if n - una W c <? limit then limit - (n - una W c) else 0). assert (0 <= usable) as Hus by (subst usable; case_cond; b2p; lia).
  case_cond; b2p.
  { do 2 eexists. split; [reflexivity |]. split; [by left |]. split; [done |]. split; [| do 4 eexists; split; [reflexivity |]; split; [done | lia]]. exists n, m. split; [done |]. destruct Hun as (-> & Hx & Hy); [done |].
    unfold data_ok. cbn. split_and!; try done; lia. }
  case_cond; b2p.
  { case_cond; [do 2 eexists; split; [reflexivity |]; split; [right; by eexists | done] |].
    case_cond; [do 2 eexists; split; [reflexivity |]; split; [by left | done] |].
    do 2 eexists. split; [reflexivity |]. split; [by left |]. split; [done |]. split; [| do 4 eexists; split; [reflexivity |]; split; [done | lia]]. exists n, m. split; [done |]. destruct Hun as (-> & Hx & Hy); [done |].
    unfold data_ok. cbn. split_and!; try done; lia. }
  case_cond; [| do 2 eexists; split; [reflexivity |]; split; [by left | done]]. b2p.
  do 2 eexists. split; [reflexivity |]. split; [by left |]. split; [done |]. split; [| do 4 eexists; split; [reflexivity |]; split; [done | lia]].
  assert (n = una W c + tx_size_ c) as Hne.
  { apply Z.eqb_eq. rewrite <- (seqno_eqb (iss_ c)) by lia. apply Z.eqb_eq. rewrite <- Hnx, <- Hfq. done. }
  exists m. rewrite <- Huz, <- Hne. by split_and!.
Qed.

(** A plan is addressed to the peer, or to the sender of a refused segment. *)
Definition planned (c : t) (p : Plan.t) : Prop :=
  exists kind dest seq flags payload offset, p = plan RC c kind dest seq flags payload offset /\ 0 <= flags < 256 /\ 0 <= payload /\
    ((dest = peer_ c /\ 0 <= seq < 4294967296 /\ state_ c <> State.closed /\ state_ c <> State.listen) \/
     (dest = reset_peer_ c /\ seq = reset_seq_ c /\ reset_pending_ c = true)).
Definition chosen (c c' : t) : Prop := c' = c \/ c' = set_retransmit_head false c \/ exists d, c' = set_persist_deadline d c.

Lemma seqs_typed : handshake (state_ c) = true \/ data_state (state_ c) = true ->
  0 <= snd_una_ c < 4294967296 /\ 0 <= snd_nxt_ c < 4294967296 /\ state_ c <> State.closed /\ state_ c <> State.listen.
Proof.
  intros Hst. assert (state_ c <> State.closed /\ state_ c <> State.listen) as [? ?] by (destruct Hst; by destruct (state_ c)). destruct Hst as [Hh | Hh].
  - destruct (handshake_opening W c Hs Hh) as (_ & _ & -> & _ & _ & m & _ & -> & _). split_and!; try done; try apply (snd_iss _ _ Hs); apply seqno_range.
  - destruct (open_positions W c Hs Hh) as (n & m & _ & -> & -> & _). split_and!; try done; apply seqno_range.
Qed.

Lemma planned_peer kind seq flags payload offset : handshake (state_ c) = true \/ data_state (state_ c) = true -> 0 <= seq < 4294967296 ->
  0 <= flags < 256 -> 0 <= payload -> planned c (plan RC c kind (peer_ c) seq flags payload offset).
Proof.
  intros Hst Hseq Hf Hp. destruct (seqs_typed Hst) as (_ & _ & ? & ?). do 6 eexists. split; [reflexivity |]. split; [done |]. split; [done |]. by left.
Qed.

(** A retransmission of the first segment. *)
Lemma head_chosen kind payload flags : kind = Kind.retry \/ kind = Kind.fast -> data_state (state_ c) = true -> head SegmentCapacity c = Some (payload, flags) ->
  let p := plan RC c kind (peer_ c) (snd_una_ c) flags payload 0 in plan_ok W c p /\ planned c p.
Proof.
  intros Hk Hop Hhd p. destruct (open_positions W c Hs Hop) as (n & m & Ho). pose proof (head_plan n m payload flags kind Ho Hhd) as Hho. split.
  - unfold plan_ok. destruct Hk as [-> | ->]; [right |]; by exists n, m.
  - destruct (seqs_typed (or_intror Hop)) as (? & _). destruct Hho as (_ & _ & _ & [[Hpay Hfl] | (Hpay & _ & _ & _ & Hfl)]); cbn in Hpay, Hfl;
      apply planned_peer; rewrite ?Hfl; done || lia || auto.
Qed.

Lemma choose_ok : (pending_ack_ c = true -> state_ c <> State.closed /\ state_ c <> State.listen) ->
  exists c' next, choose RC SegmentCapacity now c = (c', next) /\ chosen c c' /\
    match next with Some p => plan_ok W c' p /\ planned c' p | None => True end.
Proof.
  intros Hack.
  assert (forall s, s <> State.closed -> s <> State.listen -> handshake s = true \/ data_state s = true) as Hcases by (intros []; cbn; auto).
  unfold choose. destruct (reset_pending_ c) eqn:Hrst.
  { do 2 eexists. split; [reflexivity |]. split; [by left |]. split; [done |]. do 6 eexists. split; [reflexivity |]. split; [done |]. split; [done |]. by right. }
  set (syn_flags := Z.lor tcp_syn _). assert (syn_flags = tcp_syn \/ syn_flags = Z.lor tcp_syn tcp_ack) as Hsf by (subst syn_flags; case_cond; [by right | by left]).
  assert (0 <= syn_flags < 256) as Hsr by (by destruct Hsf as [-> | ->]). pose proof (snd_iss _ _ Hs) as Hi.
  case_eq (pending_syn_ c); intros Hps.
  { pose proof (Hsyn Hps) as Hh. do 2 eexists. split; [reflexivity |]. split; [by left |]. split; [| apply planned_peer; auto; lia].
    unfold plan_ok, syn_ok. cbn. case_cond; [left |]; by split_and!. }
  case_cond.
  { b2p. assert (state_ c <> State.closed /\ snd_una_ c <> snd_max_ c) as [Hncl Hne].
    { match goal with Hx : Timer.active _ = true |- _ => rewrite Htm in Hx end. b2p. split; [by eapply bool_decide_eq_false_1 | done]. }
    change (match state_ c with State.syn_sent | State.syn_received => true | _ => false end) with (handshake (state_ c)). case_eq (handshake (state_ c)); intros Hh.
    - destruct (seqs_typed (or_introl Hh)) as (? & _). do 2 eexists. split; [reflexivity |]. split; [by left |]. split; [| apply planned_peer; auto; lia].
      left. destruct (handshake_opening W c Hs Hh) as (_ & _ & Hu & _). by split_and!.
    - destruct (head SegmentCapacity c) as [[payload flags] |] eqn:Hhd; [| do 2 eexists; split; [reflexivity |]; split; [by left | done]].
      assert (state_ c <> State.listen) as Hnl by (intros Hl; pose proof (snd_position _ _ Hs) as Hp; unfold send_state in Hp; rewrite Hl in Hp; destruct Hp as [(_ & _ & Hu & _) Hm]; congruence).
      destruct (Hcases _ Hncl Hnl) as [? | Hop]; [congruence |]. do 2 eexists. split; [reflexivity |]. split; [by left |]. apply head_chosen; auto. }
  case_cond.
  { b2p. assert (data_state (state_ c) = true) as Hop by (unfold sending in *; by destruct (state_ c)).
    destruct (head SegmentCapacity c) as [[payload flags] |] eqn:Hhd; [| do 2 eexists; split; [reflexivity |]; split; [right; by left | done]].
    do 2 eexists. split; [reflexivity |]. split; [by left |]. apply head_chosen; auto. }
  assert (exists c' next, (if sending c then send_next RC SegmentCapacity now c else (c, None)) = (c', next) /\ (c' = c \/ exists d, c' = set_persist_deadline d c) /\
    match next with Some p => c' = c /\ plan_ok W c p /\ planned c p | None => True end) as (c' & next & -> & Hc' & Hnext).
  { destruct (sending c) eqn:Hsend; [| exists c, None; auto]. destruct (send_next_ok Hsend) as (c' & next & -> & Hc' & Hn). exists c', next. split_and!; try done.
    destruct next as [p |]; [| done]. destruct Hn as (? & Hp & kind & flags & payload & offset & -> & ? & ?). split_and!; try done.
    assert (data_state (state_ c) = true) as Hop by (unfold sending in *; by destruct (state_ c)). destruct (seqs_typed (or_intror Hop)) as (_ & ? & _).
    apply planned_peer; auto. }
  destruct next as [p |].
  - destruct Hnext as (-> & ? & ?). exists c, (Some p). split_and!; try done. by left.
  - do 2 eexists. split; [reflexivity |]. split; [destruct Hc'; [by left | by right; right] |]. destruct (pending_ack_ c') eqn:Hpa; [| done].
    assert (state_ c' = state_ c /\ pending_ack_ c' = pending_ack_ c /\ snd_nxt_ c' = snd_nxt_ c) as (Hst & Hpk & Hnx) by (destruct Hc' as [-> | [d ->]]; done).
    rewrite Hpk in Hpa. destruct (Hack Hpa) as [Hx Hy]. destruct (seqs_typed (Hcases _ Hx Hy)) as (_ & ? & _). split; [done |].
    do 6 eexists. split; [reflexivity |]. split; [done |]. split; [done |]. left. by rewrite Hst, Hnx.
Qed.
End Choosing.

(** Moving SND.NXT and SND.MAX. *)
Lemma opened_move W n m n' m' c c' : opened W n m c -> send c' = send (set_snd_nxt (seqno (iss_ c) n') (set_snd_max (seqno (iss_ c) m') c)) ->
  una W c <= n' <= m' -> fin_phase W c' m' -> opened W n' m' c'.
Proof.
  intros ((Hb1 & Hb2) & Hu & _ & _ & _ & _) He Hn Hph. unfold opened, buffered. assert (una W c' = una W c) as -> by (unfold una; by rewrite He).
  rewrite He. split; [split; [exact Hb1 | exact Hb2] |]. split; [exact Hu |]. split_and!; done || lia.
Qed.

Lemma opened_send_state W n m c : opened W n m c -> send_state W c.
Proof. intros Ho. pose proof Ho as (_ & _ & _ & _ & _ & Hph). unfold send_state, fin_phase in *. destruct (state_ c); try done; by exists n, m. Qed.

Lemma opened_live W n m c : opened W n m c -> state_ c <> State.closed /\ state_ c <> State.listen.
Proof. intros (_ & _ & _ & _ & _ & Hph). unfold fin_phase in Hph. by destruct (state_ c). Qed.
End Send.
