(* ===== verification/TransportInv.v ===== *)
(** * The invariant of a connection

    Every operation, whatever packets arrive, answers and keeps the send side
    in agreement with what was written, the policy started, the retransmission
    timer armed exactly while something is unacknowledged, and the values that
    go into headers within their widths. *)

From S2P Require Import Prelude Epoch Wire Checksum Ip Packets TcpPackets LinkPackets Address Congestion TransportState Transport Serial TransportReceive TransportSend.
Import Connection.

Definition u32 (x : Z) : Prop := 0 <= x < 4294967296.
Definition endpoint_ok (e : Endpoint.t) : Prop := IpAddress.ok (Endpoint.address e) /\ 0 <= Endpoint.port e < 65536.
Definition family (e : Endpoint.t) : Family.t := IpAddress.family (Endpoint.address e).

(** The parts an assignment does not touch are kept by conversion. *)
Ltac keep Hc := let K1 := fresh "K" in let K2 := fresh "K" in let K3 := fresh "K" in let K4 := fresh "K" in
  let K5 := fresh "K" in let K6 := fresh "K" in let K7 := fresh "K" in let K8 := fresh "K" in
  pose proof Hc as [K1 K2 K3 K4 K5 K6 K7 K8];
  split; first [exact K1 | exact K2 | exact K3 | exact K4 | exact K5 | exact K6 | exact K7 | exact K8 | idtac]; clear K1 K2 K3 K4 K5 K6 K7 K8.

Section Invariant.
Context {Policy : Type} `{CongestionLaws Policy} (initial : Policy) (SC RC SG : Z).
Context (HSC : 0 < SC <= 65535) (HRC : 0 < RC <= 65535) (HSG : 0 < SG <= 1460).
Local Abbreviation t := (t Policy).
Implicit Types c : t.

(** What goes into headers. *)
Definition wire_ok (c : t) : Prop :=
  u32 (rcv_nxt_ c) /\ endpoint_ok (local_ c) /\ endpoint_ok (peer_ c) /\
  (state_ c <> State.closed \/ reset_pending_ c = true -> valid_endpoint (local_ c) = true) /\
  (state_ c <> State.closed -> state_ c <> State.listen -> family (peer_ c) = family (local_ c)) /\
  (reset_pending_ c = true -> u32 (reset_seq_ c) /\ endpoint_ok (reset_peer_ c) /\ family (reset_peer_ c) = family (local_ c)).

Record conn_ok (W : Bytes) (c : t) : Prop := {
  ok_sends : sends SC W c;
  ok_cc : state_ c <> State.closed -> cc_ok SG c;
  ok_rto : rto_ok c;
  ok_syn : pending_syn_ c = true -> handshake (state_ c) = true;
  ok_ack : pending_ack_ c = true -> state_ c <> State.closed /\ state_ c <> State.listen;
  ok_timer : timer_ok c;
  ok_plan : Plan.active (plan_ c) = true -> plan_ok SC W c (plan_ c);
  ok_wire : wire_ok c
}.

Lemma keep_last_now W c now : conn_ok W c -> conn_ok W (set_last_now now c).
Proof. intros Hc. keep Hc. Qed.
Lemma keep_pending_ack W c b : conn_ok W c -> state_ c <> State.closed -> state_ c <> State.listen -> conn_ok W (set_pending_ack b c).
Proof. intros Hc H1 H2. keep Hc. by intros _. Qed.

Lemma terminate_ok W c reason : conn_ok W c -> Plan.active (plan_ c) = false -> conn_ok W (terminate reason c).
Proof.
  intros Hc Hp. destruct Hc as [K1 K2 K3 K4 K5 K6 K7 K8]. split; try done.
  - destruct K1 as ((S1 & S2 & S3) & Hi & _). split; [unfold ring_shape; cbn; split_and!; done || lia |]. by split.
  - cbn. by rewrite Hp.
  - destruct K8 as (? & ? & ? & Hv & Hf & Hr). unfold wire_ok. cbn. split_and!; try done. intros [? | ?]; done.
Qed.

Lemma endpoint_none_ok : endpoint_ok Endpoint.none.
Proof. split; [| done]. split; [done |]. split; [| done]. unfold bytes_ok. cbn. repeat (apply Forall_cons_2; [done |]). apply Forall_nil_2. Qed.

Lemma reset_facts W c : conn_ok W c ->
  rto_ok (reset_fields initial SG c) /\ cc_ok SG (reset_fields initial SG c) /\ ring_shape SC (reset_fields initial SG c).
Proof.
  intros Hc. split; [by vm_compute |]. split.
  - split; [apply law_start; unfold segment_ok, segment_of; lia | cbn; lia].
  - destruct (ok_sends _ _ Hc) as ((S1 & S2 & S3) & _). unfold ring_shape. cbn. split_and!; done || lia.
Qed.

Lemma start_opening c : u32 (iss_ c) -> tx_size_ c = 0 -> write_shutdown_ c = false -> fin_acknowledged_ c = false -> snd_una_ c = iss_ c ->
  snd_nxt_ c = iss_ c -> snd_max_ c = iss_ c -> opening [] c.
Proof. intros Hi Ht Hw Hf Hu Hn Hm. unfold opening. split_and!; try done. exists 0. by rewrite (seqno_0 _ Hi). Qed.

Lemma return_to_listen_ok W c : conn_ok W c -> handshake (state_ c) = true -> valid_endpoint (local_ c) = true -> conn_ok W (return_to_listen initial SG c).
Proof.
  intros Hc Hh Hv. destruct (reset_facts W c Hc) as (Hr & Hcc & Hsh). pose proof (snd_iss _ _ _ (ok_sends _ _ Hc)) as Hi.
  destruct (handshake_opening _ _ _ (ok_sends _ _ Hc) Hh) as (-> & _). split; [| by intros _ | done | done | done | | done |].
  - split; [exact Hsh |]. split; [exact Hi |]. split; [by apply start_opening | done].
  - unfold timer_ok. cbn. by rewrite Z.eqb_refl.
  - destruct (ok_wire _ _ Hc) as (_ & ? & _). pose proof endpoint_none_ok. unfold wire_ok. cbn. by split_and!.
Qed.

(** ** Opening *)
Lemma active_open_ok W c local peer iss now c' : conn_ok W c -> endpoint_ok local -> endpoint_ok peer -> u32 iss ->
  active_open initial SG c local peer iss now = (c', StatusCode.ok) -> conn_ok [] c'.
Proof.
  intros Hc Hl Hp Hi. unfold active_open. case_cond; [done |]. case_cond; [done |]. case_cond; [done |]. intros [= <-]. apply orb_false_iff in E0 as [E0 Hfam].
  apply orb_false_iff in E0 as [Hvl Hvp]. apply negb_false_iff in Hvl, Hvp, Hfam. apply bool_decide_eq_true in Hfam.
  destruct (reset_facts W c Hc) as (Hr & Hcc & Hsh). split; [| by intros _ | done | done | done | | done |].
  - split; [exact Hsh |]. split; [exact Hi |]. by apply start_opening.
  - unfold timer_ok. cbn. by rewrite Z.eqb_refl.
  - unfold wire_ok. cbn. by split_and!.
Qed.

Lemma passive_open_ok W c local iss now c' : conn_ok W c -> endpoint_ok local -> u32 iss ->
  passive_open initial SG c local iss now = (c', StatusCode.ok) -> conn_ok [] c'.
Proof.
  intros Hc Hl Hi. unfold passive_open. case_cond; [done |]. case_cond; [done |]. case_cond; [done |]. intros [= <-]. apply negb_false_iff in E0.
  destruct (reset_facts W c Hc) as (Hr & Hcc & Hsh). split; [| by intros _ | done | done | done | | done |].
  - split; [exact Hsh |]. split; [exact Hi |]. split; [by apply start_opening | done].
  - unfold timer_ok. cbn. by rewrite Z.eqb_refl.
  - pose proof endpoint_none_ok. unfold wire_ok. cbn. by split_and!.
Qed.

(** ** The byte stream *)
Lemma write_keeps self size W c input c' n : conn_ok W c -> write SC self size c input = (c', n) ->
  match n with
  | Ok k => 0 <= k <= Span.size input /\ conn_ok (W ++ first (Span.bytes input) k) c' /\ (write_shutdown_ c = true -> k = 0 /\ c' = c)
  | Err _ => c' = c
  end /\ write_shutdown_ c' = write_shutdown_ c /\ iss_ c' = iss_ c /\ local_ c' = local_ c.
Proof.
  intros Hc. pose proof (zlen_nonneg (Span.bytes input)) as Hnn. unfold write, Span.size in *. case_cond; [by intros [= <- <-] |]. case_cond; [by intros [= <- <-] |]. case_cond; [by intros [= <- <-] |].
  apply orb_false_iff in E0 as [Hws Hst]. case_cond.
  { intros [= <- <-]. b2p. split; [| done]. split; [lia |]. split; [| done]. unfold first. cbn. by rewrite app_nil_r. }
  case_cond; [by intros [= <- <-] |]. intros [= <- <-]. b2p.
  set (k := Z.min (zlen (Span.bytes input)) (SC - tx_size_ c)) in *. set (data := first (Span.bytes input) k).
  pose proof (ok_sends _ _ Hc) as Hs. destruct (snd_shape _ _ _ Hs) as (S1 & S2 & S3).
  assert (0 < k <= zlen (Span.bytes input) /\ tx_size_ c + k <= SC) as [Hk Hfit] by (subst k; lia). assert (zlen data = k) as Hdl by (subst data; rewrite zlen_first; lia).
  split; [| done]. split; [lia |]. split; [| congruence].
  assert (state_ c = State.established \/ state_ c = State.close_wait) as Hst2.
  { destruct Hst as [Hx | Hx]; apply negb_false_iff, bool_decide_eq_true in Hx; auto. }
  assert (exists n m, opened SC W n m c) as (n & m & Ho) by (apply (open_positions SC W c Hs); by destruct Hst2 as [-> | ->]).
  assert (opened SC (W ++ data) n m (set_tx_size (tx_size_ c + k) (set_tx (ring_put SC (tx_ c) (tx_head_ c + tx_size_ c) data) c))) as Ho'.
  { destruct Ho as ((Hb1 & Hb2) & Hu & Hnx & Hmax & Hnm & Hph). pose proof (zlen_nonneg W).
    assert (una (W ++ data) (set_tx_size (tx_size_ c + k) (set_tx (ring_put SC (tx_ c) (tx_head_ c + tx_size_ c) data) c)) = una W c) as Hue
      by (unfold una; cbn; rewrite zlen_app, Hdl; lia).
    unfold opened. rewrite Hue. split_and!; try done; try lia.
    - split; [change (tx_size_ c + k <= zlen (W ++ data)); rewrite zlen_app; lia |]. intros j Hj. change (0 <= j < tx_size_ c + k) in Hj.
      change ((ring_put SC (tx_ c) (tx_head_ c + tx_size_ c) data).[(tx_head_ c + j) mod SC] = (W ++ data).[zlen (W ++ data) - (tx_size_ c + k) + j]). rewrite zlen_app, Hdl. destruct (decide (j < tx_size_ c)).
      + replace ((tx_head_ c + j) mod SC) with ((tx_head_ c + tx_size_ c + (j - tx_size_ c + SC)) mod SC).
        2: { replace (tx_head_ c + tx_size_ c + (j - tx_size_ c + SC)) with (tx_head_ c + j + 1 * SC) by lia. apply Z.mod_add. lia. }
        rewrite ring_put_get by (done || lia). rewrite (proj2 (Z.ltb_ge _ _)) by lia.
        replace (tx_head_ c + tx_size_ c + (j - tx_size_ c + SC)) with (tx_head_ c + j + 1 * SC) by lia. rewrite Z.mod_add by lia. rewrite Hb2 by lia.
        rewrite aget_app_l by lia. f_equal. lia.
      + replace (tx_head_ c + j) with (tx_head_ c + tx_size_ c + (j - tx_size_ c)) by lia. rewrite ring_put_get by (done || lia). rewrite (proj2 (Z.ltb_lt _ _)) by lia.
        rewrite aget_app_r by lia. f_equal. lia.
    - unfold fin_phase in *. change (state_ (set_tx_size ?a (set_tx ?b c))) with (state_ c). rewrite zlen_app.
      destruct Hst2 as [Hx | Hx]; rewrite Hx in *; destruct Hph; split; done || lia. }
  keep Hc.
  - split; [unfold ring_shape; cbn; rewrite zlen_ring_put; split_and!; done || lia |]. split; [exact (snd_iss _ _ _ Hs) |].
    unfold send_state. cbn. destruct Hst2 as [-> | ->]; by exists n, m.
  - cbn. by rewrite E.
Qed.

Lemma shutdown_ok W c : conn_ok W c -> conn_ok W (shutdown_write c).1.
Proof.
  intros Hc. unfold shutdown_write. case_cond; [done |]. case_cond; [done |]. cbn [fst].
  assert (state_ c = State.established \/ state_ c = State.close_wait) as Hst.
  { apply andb_false_iff in E0 as [Hx | Hx]; apply negb_false_iff, bool_decide_eq_true in Hx; auto. }
  keep Hc; [| cbn; by rewrite E]. destruct (ok_sends _ _ Hc) as (Hsh & Hi & Hs). split; [exact Hsh |]. split; [exact Hi |].
  unfold send_state, opened, fin_phase in *. cbn in *. destruct Hst as [Hx | Hx]; rewrite Hx in *; exact Hs.
Qed.

Lemma read_ok self size W c output : conn_ok W c -> conn_ok W (read RC self size c output).1.
Proof.
  intros Hc. unfold read. do 5 (case_cond; [done |]). cbn [fst]. case_cond; [| keep Hc].
  apply andb_true_iff in E4 as [H1 H2]. apply negb_true_iff, bool_decide_eq_false in H1, H2. keep Hc. intros _. by split.
Qed.

(** ** Transmitted packets *)
Lemma rtt_eta c : with_rtt (rtt c) c = c.
Proof. by destruct c. Qed.
Lemma state_eta c : set_state (state_ c) c = c.
Proof. by destruct c as [? ? ? ? ? ? ? []]. Qed.
Lemma snd_max_eta c : set_snd_max (snd_max_ c) c = c.
Proof. by destruct c as [[] ? ? ? ? ? ? ?]. Qed.
Lemma arm_frame now c : exists tm, arm now c = with_timers tm c /\ Timer.active (rtx_ tm) = true.
Proof. unfold arm. case_cond; [exists (timers c); split; [by destruct c | done] | by eexists]. Qed.
Lemma time_frame end_ now c : exists r, time end_ now c = with_rtt r c /\ rto_ r = rto_ c.
Proof. unfold time. case_cond; [exists (rtt c); split; [by destruct c | done] | by eexists]. Qed.

Lemma complete_syn_ok W c now : conn_ok W c -> handshake (state_ c) = true -> Plan.active (plan_ c) = false -> conn_ok W (complete_syn (u32_wrap (iss_ c + 1)) now c).
Proof.
  intros Hc Hh Hp. unfold complete_syn. destruct (handshake_opening _ _ _ (ok_sends _ _ Hc) Hh) as (HW & Htx & Hu & Hws & Hfa & m & Hm & Hnx & Hmx).
  pose proof (snd_iss _ _ _ (ok_sends _ _ Hc)) as Hi. case_cond; [| keep Hc; by intros].
  destruct (time_frame (u32_wrap (iss_ c + 1)) now (set_snd_nxt (u32_wrap (iss_ c + 1)) (set_snd_max (u32_wrap (iss_ c + 1)) c))) as (r & -> & Hr).
  destruct (arm_frame now (with_rtt r (set_snd_nxt (u32_wrap (iss_ c + 1)) (set_snd_max (u32_wrap (iss_ c + 1)) c)))) as (tm & -> & Ha).
  keep Hc.
  - split; [exact (snd_shape _ _ _ (ok_sends _ _ Hc)) |]. split; [exact Hi |]. unfold send_state. cbn. destruct (state_ c); try done; unfold opening; cbn; split_and!; try done; exists 1; done.
  - unfold rto_ok in *. cbn. rewrite Hr. exact (ok_rto _ _ Hc).
  - done.
  - unfold timer_ok. cbn. rewrite Ha, Hu. symmetry. apply andb_true_iff. split; [by destruct (state_ c) |]. apply negb_true_iff.
    rewrite <- (seqno_0 (iss_ c) Hi) at 1. change (u32_wrap (iss_ c + 1)) with (seqno (iss_ c) 1). by rewrite seqno_eqb by lia.
  - cbn. by rewrite Hp.
Qed.

Lemma complete_retry_ok W c sent now : conn_ok W c -> Plan.active (plan_ c) = false -> Plan.kind sent = Kind.retry -> plan_ok SC W c sent ->
  let f := Plan.fields sent in
  conn_ok W (complete_retry SG sent (u32_wrap (TcpFields.sequence f + Plan.payload sent + (if has f (Z.lor tcp_syn tcp_fin) then 1 else 0))) now c).
Proof.
  intros Hc Hp Hk Hpl f. unfold plan_ok in Hpl. rewrite Hk in Hpl. unfold complete_retry.
  set (c1 := set_rtx _ (set_rto _ _)). assert (conn_ok W c1) as Hc1.
  { keep Hc. unfold rto_ok. cbn. pose proof (ok_rto _ _ Hc) as Hr. unfold rto_ok, max_rto_ms, u64_wrap in *. rewrite Z.mod_small by lia. lia. }
  assert (state_ c1 = state_ c /\ send c1 = send c /\ plan_ c1 = plan_ c) as (Hst & Hsd & Hpe) by done.
  destruct Hpl as [(Hh & _ & _ & Hfl) | (n & m & Ho & Hoff & Hseq & Hfa & Hpay)].
  { replace (has (Plan.fields sent) tcp_syn) with true by (unfold has; by destruct Hfl as [-> | ->]). keep Hc1. by intros. }
  replace (has (Plan.fields sent) tcp_syn) with false by (unfold has; destruct Hpay as [[_ ->] | (_ & _ & _ & _ & ->)]; done).
  pose proof (opened_bounds SC SG HSC HSG W n m c (ok_sends _ _ Hc) Ho) as (Hn & Hm & Hmx & Hws & _ & Htx).
  assert (exists n', u32_wrap (TcpFields.sequence f + Plan.payload sent + (if has f (Z.lor tcp_syn tcp_fin) then 1 else 0)) = seqno (iss_ c) n' /\ una W c <= n' <= m) as (n' & -> & Hn').
  { fold f in Hseq, Hpay. rewrite Hseq, <- Z.add_assoc, seqno_add. destruct Hpay as [[Hx Hfl] | (Hx & Hz & Hm2 & _ & Hfl)].
    - replace (has f (Z.lor tcp_syn tcp_fin)) with false by (unfold has; by rewrite Hfl). eexists. split; [reflexivity |]. lia.
    - replace (has f (Z.lor tcp_syn tcp_fin)) with true by (unfold has; by rewrite Hfl). eexists. split; [reflexivity |]. unfold una in *. rewrite Hfa in *. cbn in *. lia. }
  assert (exists l, (if negb (peer_window_ c1 =? 0) then set_cc (timeout (cc_ c1) (outstanding c1) (segment SG c1)) c1 else c1) = with_loss l c1 /\ policy_ok (segment SG c1) (cc_ l))
    as (l & -> & Hl).
  { assert (cc_ok SG c1) as Hcc by (apply (ok_cc _ _ Hc1); rewrite Hst; by destruct (opened_live _ _ _ _ _ Ho)).
    case_cond; [| exists (loss c1); split; [by destruct c1 | apply Hcc]].
    assert (outstanding c1 = n - una W c) as Hout by (unfold outstanding; destruct Ho as (_ & Hu & Hx & _); rewrite Hsd, Hx, Hu, seqno_diff; lia).
    destruct (law_on (segment SG c1) (cc_ c1) (Timeout (outstanding c1)) (seg_ok SG HSG c1 Hcc) (proj1 Hcc)) as (p & [= <-] & Hpp); [cbn; rewrite Hout; lia |]. by eexists. }
  keep Hc1.
  - destruct (ok_sends _ _ Hc1) as (Hsh & Hi & Hs). split; [exact Hsh |]. split; [exact Hi |].
    apply (opened_send_state SC W n' m), (opened_move SC W n m n' m c); [done | | done | apply Ho].
    cbn. by rewrite (proj1 (proj2 (proj2 (proj2 Ho)))).
  - intros _. split; [exact Hl | apply (ok_cc _ _ Hc1)]. rewrite Hst. by destruct (opened_live _ _ _ _ _ Ho).
  - cbn. by rewrite Hp.
Qed.

Lemma complete_new_ok W c sent now n m k : conn_ok W c -> Plan.active (plan_ c) = false -> opened SC W n m c -> fin_acknowledged_ c = false ->
  TcpFields.sequence (Plan.fields sent) = seqno (iss_ c) n ->
  (Plan.kind sent <> Kind.fin /\ 0 < k /\ n + k <= 1 + zlen W \/ Plan.kind sent = Kind.fin /\ k = 1 /\ n = 1 + zlen W /\ write_shutdown_ c = true) ->
  conn_ok W (complete_new sent (seqno (iss_ c) (n + k)) now c).
Proof.
  intros Hc Hp Ho Hfa Hseq Hk. pose proof (opened_bounds SC SG HSC HSG W n m c (ok_sends _ _ Hc) Ho) as (Hn & Hm & Hmx & _ & _ & Htx).
  assert (una W c + tx_size_ c = 1 + zlen W) as Huz by (unfold una; rewrite Hfa; cbn; lia). pose proof (snd_shape _ _ _ (ok_sends _ _ Hc)) as (_ & _ & Hsz).
  pose proof Ho as (_ & Hu & Hnx & Hmax & _ & Hph). unfold complete_new. rewrite Hseq, Hmax, before_spec by (unfold near; lia).
  set (c1 := set_snd_nxt _ c). change (snd_max_ c1) with (snd_max_ c). rewrite Hmax, after_spec by (unfold near; lia).
  assert ((if m <? n + k then set_snd_max (seqno (iss_ c) (n + k)) c1 else c1) = set_snd_max (seqno (iss_ c) (Z.max m (n + k))) c1) as ->.
  { destruct (Z.ltb_spec m (n + k)); [by rewrite Z.max_r by lia |]. rewrite Z.max_l, <- Hmax by lia. symmetry. exact (snd_max_eta c1). }
  set (m' := Z.max m (n + k)) in *. set (c2 := set_snd_max _ c1).
  assert (exists r, (if negb (n <? m) then time (seqno (iss_ c) (n + k)) now c2 else c2) = with_rtt r c2 /\ rto_ r = rto_ c) as (r & -> & Hr).
  { case_cond; [exact (time_frame _ now c2) | exists (rtt c2); by rewrite rtt_eta]. }
  destruct (arm_frame now (with_rtt r c2)) as (tm & -> & Ha).
  set (s := if bool_decide (Plan.kind sent = Kind.fin) && negb (n <? m) then if bool_decide (state_ c = State.close_wait) then State.last_ack else State.fin_wait_1 else state_ c).
  set (c3 := set_persist_deadline 0 (with_timers tm (with_rtt r c2))).
  assert ((if bool_decide (Plan.kind sent = Kind.fin) && negb (n <? m) then
    set_state (if bool_decide (state_ c3 = State.close_wait) then State.last_ack else State.fin_wait_1) c3 else c3) = set_state s c3) as ->.
  { subst s. case_cond; [done |]. symmetry. exact (state_eta c3). }
  assert (fin_phase W (set_state s c3) m') as Hph'.
  { subst s. unfold fin_phase in *. change (state_ (set_state ?x c3)) with x. change (fin_acknowledged_ (set_state ?x c3)) with (fin_acknowledged_ c).
    change (write_shutdown_ (set_state ?x c3)) with (write_shutdown_ c). change (tx_size_ (set_state ?x c3)) with (tx_size_ c).
    destruct Hk as [(Hk & Hk0 & Hk1) | (Hk & -> & Hk1 & Hk2)]; [rewrite bool_decide_false by done | rewrite bool_decide_true by done]; cbn [andb].
    - destruct (state_ c); try done; destruct Hph as (? & Hph); split_and!; try tauto; try lia; congruence.
    - destruct (Z.ltb_spec n m); cbn [negb]; destruct (state_ c); try done; try (destruct Hph as (? & Hph)); try (exfalso; lia || congruence); cbn; split_and!; try tauto; lia. }
  assert (una W c < m' /\ m' - una W c <= SC + 1) as [Hlt Hsp] by (subst m'; lia).
  keep Hc.
  - split; [exact (snd_shape _ _ _ (ok_sends _ _ Hc)) |]. split; [exact (snd_iss _ _ _ (ok_sends _ _ Hc)) |].
    apply (opened_send_state SC W (n + k) m'), (opened_move SC W n m _ _ c); [done | done | lia | done].
  - intros _. apply (ok_cc _ _ Hc). by destruct (opened_live _ _ _ _ _ Ho).
  - unfold rto_ok. cbn. rewrite Hr. apply (ok_rto _ _ Hc).
  - intros Hx. pose proof (ok_syn _ _ Hc Hx) as Hh. unfold fin_phase in Hph. by destruct (state_ c).
  - intros Hx. unfold fin_phase in Hph'. change (state_ (set_state s c3)) with s in *. by destruct s.
  - unfold timer_ok. change (rtx_ (set_state s c3)) with (rtx_ tm). change (snd_una_ (set_state s c3)) with (snd_una_ c).
    change (snd_max_ (set_state s c3)) with (seqno (iss_ c) m'). rewrite Ha, Hu, seqno_eqb by lia.
    unfold fin_phase in Hph'. change (state_ (set_state s c3)) with s in *. rewrite (proj2 (Z.eqb_neq _ _)) by lia. by destruct s.
  - cbn. by rewrite Hp.
  - destruct (ok_wire _ _ Hc) as (? & ? & ? & Hv & Hf & Hrs). destruct (opened_live _ _ _ _ _ Ho). unfold wire_ok. cbn. split_and!; auto.
Qed.

Lemma complete_kind_ok W c sent now : conn_ok W c -> Plan.active (plan_ c) = false -> plan_ok SC W c sent -> Plan.kind sent <> Kind.reset ->
  let f := Plan.fields sent in
  let end_ := u32_wrap (TcpFields.sequence f + Plan.payload sent + (if has f (Z.lor tcp_syn tcp_fin) then 1 else 0)) in
  conn_ok W (match Plan.kind sent with
             | Kind.ack => c
             | Kind.syn => complete_syn end_ now c
             | Kind.retry => complete_retry SG sent end_ now c
             | Kind.fast => set_retransmit_head false (set_rtt_timing false c)
             | _ => complete_new sent end_ now c
             end).
Proof.
  intros Hc Hp Hpl Hnr f end_. destruct (Plan.kind sent) eqn:Hk; try done; try (by subst end_ f; apply complete_retry_ok); unfold plan_ok in Hpl; rewrite Hk in Hpl.
  - destruct Hpl as (Hh & Hpay & Hseq & Hfl).
    replace end_ with (u32_wrap (iss_ c + 1)); [by apply complete_syn_ok |]. subst end_ f. unfold has. rewrite Hpay, Hseq, Z.add_0_r. by destruct Hfl as [-> | ->].
  - destruct Hpl as (n & m & Ho & Hfa & Hseq & Hoff & Hpay & Hfit & Hfl). destruct Ho as ((Hb1 & Hb2) & Hu & Hrest).
    replace end_ with (seqno (iss_ c) (n + Plan.payload sent)); [| subst end_ f; unfold has; rewrite Hfl, Hseq; cbn; by rewrite Z.add_0_r, seqno_add].
    eapply complete_new_ok; [done | done | | done | done |]; [by split; [split | split] |]. left. rewrite Hk. unfold una in Hoff. rewrite Hfa in Hoff. cbn in Hoff. split; [done | lia].
  - destruct Hpl as (m & Ho & Hseq & Hpay & Hws & Hfa & Hfl).
    replace end_ with (seqno (iss_ c) (1 + zlen W + 1)); [| subst end_ f; unfold has; by rewrite Hfl, Hseq, Hpay, <- (Z.add_assoc (seqno _ _)), seqno_add].
    eapply complete_new_ok; [done | done | exact Ho | done | done |]. by right.
  - keep Hc.
  - destruct Hpl as (n & m & Ho & Hfa & Hseq & Hoff & Hpay & Hfit & Hfl).
    replace end_ with (seqno (iss_ c) (n + Plan.payload sent)); [| subst end_ f; unfold has; rewrite Hfl, Hseq; cbn; by rewrite Z.add_0_r, seqno_add].
    eapply complete_new_ok; [done | done | exact Ho | done | done |]. left. rewrite Hk. unfold una in Hoff. rewrite Hfa in Hoff. cbn in Hoff. split; [done | lia].
Qed.

Lemma complete_transmit_ok W c token accepted now : conn_ok W c -> conn_ok W (complete_transmit SG c token accepted now).1.
Proof.
  intros Hc. unfold complete_transmit. case_cond; [done |]. case_cond; [done |]. apply orb_false_iff in E as [E1 E2]. apply negb_false_iff in E1.
  assert (conn_ok W (set_last_now now (set_plan Plan.none c))) as Hc1 by (keep Hc; done). pose proof (ok_plan _ _ Hc E1) as Hpl.
  set (c1 := set_last_now now _) in *. case_cond; [done |]. case_cond; [cbn [fst] |].
  - keep Hc1. destruct (ok_wire _ _ Hc1) as (? & ? & ? & Hv & Hf & Hrs). unfold wire_ok. cbn. split_and!; try done. intros [? | ?]; [apply Hv; by left | done].
  - apply bool_decide_eq_false_1 in E3. cbn [fst]. case_cond; [| exact (complete_kind_ok W c1 (plan_ c) now Hc1 eq_refl Hpl E3)].
    refine (complete_kind_ok W (set_pending_ack false c1) (plan_ c) now _ eq_refl Hpl E3). keep Hc1. done.
Qed.

(** ** Timers and transmission *)
Lemma time_wait_idle W c : conn_ok W c -> state_ c = State.time_wait -> Timer.active (rtx_ c) = false.
Proof.
  intros Hc Hst. destruct (open_positions SC W c (ok_sends _ _ Hc)) as (n & m & Ho); [by rewrite Hst |].
  pose proof Ho as (_ & Hu & _ & Hmax & _ & Hph). unfold fin_phase in Hph. rewrite Hst in Hph.
  destruct (opened_bounds SC SG HSC HSG W n m c (ok_sends _ _ Hc) Ho) as (_ & _ & _ & _ & Hfa & _). destruct (Hfa (proj1 Hph)) as [_ He].
  rewrite (ok_timer _ _ Hc), Hu, Hmax, He, Z.eqb_refl. apply andb_false_r.
Qed.

Lemma expire_ok W c : conn_ok W c -> Plan.active (plan_ c) = false -> state_ c = State.time_wait ->
  conn_ok W (set_state State.closed (set_pending_ack false (set_reset_pending false c))).
Proof.
  intros Hc Hp Hst. pose proof (time_wait_idle W c Hc Hst) as Hi. keep Hc; try done.
  - split; [exact (snd_shape _ _ _ (ok_sends _ _ Hc)) |]. split; [exact (snd_iss _ _ _ (ok_sends _ _ Hc)) | done].
  - intros Hx. pose proof (ok_syn _ _ Hc Hx) as Hh. by rewrite Hst in Hh.
  - cbn. by rewrite Hp.
  - destruct (ok_wire _ _ Hc) as (? & ? & ? & _). unfold wire_ok. cbn. split_and!; try done. by intros [? | ?].
Qed.

Lemma tick_ok W c now : conn_ok W c -> conn_ok W (tick initial SG c now).1 /\ Plan.active (plan_ (tick initial SG c now).1) = Plan.active (plan_ c).
Proof.
  intros Hc. unfold tick. case_cond; [by split |]. case_cond; [by split |].
  assert (conn_ok W (set_last_now now c)) as Hc0 by apply keep_last_now, Hc. set (c0 := set_last_now now c) in *. assert (Plan.active (plan_ c0) = false) as Hp0 by exact E. clearbody c0. clear Hc c E E0.
  set (c1 := if _ && _ then set_state _ _ else c0). assert (conn_ok W c1 /\ Plan.active (plan_ c1) = false) as [Hc1 Hp1].
  { subst c1. case_cond; [| done]. b2p. split; [| done]. apply expire_ok; try done. by eapply bool_decide_eq_true_1. }
  clearbody c1. set (c2 := if _ && _ && _ then _ else c1). assert (conn_ok W c2 /\ Plan.active (plan_ c2) = false) as [Hc2 Hp2].
  { subst c2. case_cond; [| done]. case_cond; [| by split; [apply terminate_ok |]]. apply andb_true_iff in E0 as [Hst _]. apply bool_decide_eq_true_1 in Hst. split; [| done].
    apply return_to_listen_ok; [done | by rewrite Hst |]. destruct (ok_wire _ _ Hc1) as (_ & _ & _ & Hv & _). apply Hv. left. congruence. }
  clearbody c2. cbn [fst]. case_cond; [split; [by apply terminate_ok | done] | done].
Qed.

Lemma chosen_ok W c c' : conn_ok W c -> chosen c c' -> conn_ok W c'.
Proof. intros Hc [-> | [-> | [d ->]]]; [done | keep Hc | keep Hc]. Qed.
End Invariant.
