(* ===== verification/TransportPackets.v ===== *)
(** * Packets of a connection

    The packet prepare() emits parses back, at the addresses of the connection,
    to a segment of what was written: payload bytes at their sequence number, a
    FIN only behind the last byte, a SYN only at the initial number. *)

From S2P Require Import Prelude Epoch Wire Checksum Ip Packets TcpPackets LinkPackets Address Congestion TransportState Transport Serial TransportReceive TransportSend TransportInv.
Import Connection.

(** The parsing part of receive(): both addresses and the segment. *)
Definition tcp_packet (packet : Bytes) : option (result (IpAddress.t * IpAddress.t * Tcp.t)) :=
  if ip_version packet =? 6 then
    match ipv6 packet with
    | None => None
    | Some (Err e) => Some (Err e)
    | Some (Ok ip) =>
        match family_tcp ip with
        | None => None
        | Some (Err e) => Some (Err e)
        | Some (Ok seg) => Some (Ok (IpAddress.of_ipv6 (Ipv6Packet.source ip), IpAddress.of_ipv6 (Ipv6Packet.destination ip), seg))
        end
    end
  else
    match ipv4 packet with
    | Err e => Some (Err e)
    | Ok ip =>
        match tcp ip with
        | None => None
        | Some (Err e) => Some (Err e)
        | Some (Ok seg) => Some (Ok (IpAddress.of_ipv4 (Ipv4Packet.source ip), IpAddress.of_ipv4 (Ipv4Packet.destination ip), seg))
        end
    end.

Lemma of_ipv4_ok a : address 4 a -> IpAddress.ok (IpAddress.of_ipv4 a).
Proof.
  intros [Hl Hb]. destruct (four a Hl) as (x & y & z & w & ->). split; [done |]. split; [| done]. unfold bytes_ok in *. cbn. rewrite !Forall_cons in Hb.
  destruct Hb as (? & ? & ? & ? & _). repeat (apply Forall_cons_2; [done |]). apply Forall_nil_2.
Qed.
Lemma of_ipv6_ok a : address 16 a -> IpAddress.ok (IpAddress.of_ipv6 a).
Proof. intros [Hl Hb]. by split. Qed.

Lemma tcp_packet_total b : bytes_ok b -> exists r, tcp_packet b = Some r /\
  match r with
  | Ok (from, to, seg) => IpAddress.ok from /\ IpAddress.ok to /\ IpAddress.family from = IpAddress.family to /\ typed_tcp seg
  | Err _ => True
  end.
Proof.
  intros Hb. unfold tcp_packet. case_cond.
  - destruct (ipv6_total b Hb) as [[ip | e] Hip]; rewrite Hip; [| by eexists]. pose proof (ipv6_typed b ip Hb Hip) as Ht. assert (bytes_ok (Ipv6Packet.payload ip)) as Hpl by (unfold typed_ipv6 in Ht; tauto).
    destruct (family_tcp_total (H := ipv6_family) ip Hpl) as [[seg | e] Hs]; rewrite Hs; (eexists; split; [reflexivity |]); [| done].
    split_and!; [apply of_ipv6_ok, Ht | apply of_ipv6_ok, Ht | done | exact (family_tcp_typed ip seg Hpl Hs)].
  - destruct (ipv4 b) as [ip | e] eqn:Hip; [| by eexists]. pose proof (ipv4_typed b ip Hb Hip) as Ht. assert (bytes_ok (Ipv4Packet.payload ip)) as Hpl by (unfold typed_ipv4 in Ht; tauto). change (tcp ip) with (family_tcp ip).
    destruct (family_tcp_total (H := ipv4_family) ip Hpl) as [[seg | e] Hs]; rewrite Hs; (eexists; split; [reflexivity |]); [| done].
    split_and!; [apply of_ipv4_ok, Ht | apply of_ipv4_ok, Ht | done | exact (family_tcp_typed ip seg Hpl Hs)].
Qed.

Lemma ipv6_version b ip : ipv6 b = Some (Ok ip) -> ip_version b = 6.
Proof.
  unfold ipv6, ip_version. case_cond; [refused |]. case_cond; [refused |]. intros _. b2p. rewrite (proj2 (Z.eqb_neq (zlen b) 0)) by lia. lia.
Qed.
Lemma ipv4_version b ip : ipv4 b = Ok ip -> ip_version b = 4.
Proof.
  unfold ipv4, ip_version. case_cond; [refused |]. case_cond; [refused |]. intros _. b2p. rewrite (proj2 (Z.eqb_neq (zlen b) 0)) by lia. lia.
Qed.

(** A segment of the stream [W] that starts at [iss]; [closed] says whether it is complete. *)
Definition carries (iss : Z) (W : Bytes) (closed : bool) (f : TcpFields.t) (data : Bytes) : Prop :=
  (has f tcp_syn = true -> TcpFields.sequence f = iss /\ data = [] /\ has f tcp_fin = false) /\
  (data <> [] \/ has f tcp_fin = true -> exists q, 0 <= q /\ q + zlen data <= zlen W /\ TcpFields.sequence f = seqno iss (1 + q) /\
     data = subspan W q (zlen data) /\ (has f tcp_fin = true -> closed = true /\ q + zlen data = zlen W)).

Section Packets.
Context {Policy : Type} `{CongestionLaws Policy} `{Arch} (initial : Policy) (SC RC SG : Z) (self sizeof_self mss_address payload_address : Z).
Context (HSC : 0 < SC <= 65535) (HRC : 0 < RC <= 65535) (HSG : 0 < SG <= 1460).
Local Abbreviation t := (t Policy).
Implicit Types c : t.

Lemma receive_packet c packet now : receive initial SC RC SG self sizeof_self c packet now =
  if Plan.active (plan_ c) then Some (c, Err StatusCode.busy)
  else if aliases_self self sizeof_self packet then Some (c, Err StatusCode.invalid_argument)
  else if now <? last_now_ c then Some (c, Err StatusCode.invalid_argument)
  else match tcp_packet (Span.bytes packet) with
       | None => None
       | Some (Err e) => Some (c, Err e)
       | Some (Ok (from, to, seg)) => ingress initial SC RC SG from to seg now c
       end.
Proof.
  unfold receive, tcp_packet. do 3 (case_cond; [done |]). case_cond.
  - destruct (ipv6 _) as [[ip | e] |]; try done. by destruct (family_tcp ip) as [[seg | e] |].
  - destruct (ipv4 _) as [ip | e]; try done. by destruct (tcp ip) as [[seg | e] |].
Qed.

(** ** The payload of a plan *)
Definition plan_data (c : t) (p : Plan.t) : Bytes := ring_get SC (tx_ c) (tx_head_ c + Plan.offset p) (Plan.payload p).

Lemma queued_bytes W n m c off k : opened SC W n m c -> 0 <= off -> 0 <= k -> off + k <= tx_size_ c ->
  ring_get SC (tx_ c) (tx_head_ c + off) k = subspan W (zlen W - tx_size_ c + off) k.
Proof.
  intros ((Hb1 & Hb2) & _) Ho Hk Hs. apply ring_get_eq; try lia. intros j Hj. replace (tx_head_ c + off + j) with (tx_head_ c + (off + j)) by lia.
  rewrite Hb2 by lia. f_equal. lia.
Qed.

Lemma carries_data iss W closed f q k : 0 <= q -> 0 < k -> q + k <= zlen W -> TcpFields.flags f = Z.lor tcp_ack tcp_psh -> TcpFields.sequence f = seqno iss (1 + q) ->
  carries iss W closed f (subspan W q k).
Proof.
  intros Hq Hk Hl Hf Hs. unfold carries, has. rewrite Hf. split; [done |]. intros _. exists q. rewrite zlen_slice by lia. by split_and!.
Qed.
Lemma carries_fin iss W f : TcpFields.flags f = Z.lor tcp_fin tcp_ack -> TcpFields.sequence f = seqno iss (1 + zlen W) -> carries iss W true f [].
Proof.
  intros Hf Hs. pose proof (zlen_nonneg W). unfold carries, has. rewrite Hf. split; [done |]. intros _. exists (zlen W). change (zlen (@nil Z)) with 0. split_and!; try done; lia.
Qed.
Lemma carries_syn iss W closed f : TcpFields.flags f = tcp_syn \/ TcpFields.flags f = Z.lor tcp_syn tcp_ack -> TcpFields.sequence f = iss -> carries iss W closed f [].
Proof.
  intros Hf Hs. unfold carries, has. destruct Hf as [-> | ->]; (split; [done |]); intros [? | ?]; done.
Qed.
Lemma carries_none iss W closed f : TcpFields.flags f = tcp_ack \/ TcpFields.flags f = tcp_rst -> carries iss W closed f [].
Proof. intros Hf. unfold carries, has. destruct Hf as [-> | ->]; (split; [done |]); intros [? | ?]; done. Qed.

Lemma head_carries W n m c p : sends SC W c -> opened SC W n m c -> head_ok W m c p -> carries (iss_ c) W (write_shutdown_ c) (Plan.fields p) (plan_data c p).
Proof.
  intros Hs Ho (Hoff & Hseq & Hfa & Hpay). pose proof (opened_bounds SC SG HSC HSG W n m c Hs Ho) as (_ & _ & _ & _ & _ & Htx).
  unfold plan_data. rewrite Hoff. unfold una in Hseq. rewrite Hfa in Hseq. cbn [Z.b2z] in Hseq. rewrite Z.add_0_r in Hseq.
  destruct Hpay as [[Hpay Hfl] | (-> & Hz & _ & -> & Hfl)].
  - rewrite (queued_bytes W n m c 0 (Plan.payload p) Ho) by lia. rewrite Z.add_0_r. apply carries_data; done || lia.
  - apply carries_fin; [done |]. by rewrite Hz, Z.sub_0_r in Hseq.
Qed.

Lemma plan_carries W c p : sends SC W c -> plan_ok SC W c p -> carries (iss_ c) W (write_shutdown_ c) (Plan.fields p) (plan_data c p).
Proof.
  intros Hs Hp. unfold plan_ok in Hp.
  assert (syn_ok c p -> carries (iss_ c) W (write_shutdown_ c) (Plan.fields p) (plan_data c p)) as Hsyn.
  { intros (_ & Hpay & Hseq & Hfl). unfold plan_data. rewrite Hpay. by apply carries_syn. }
  assert ((exists n m, opened SC W n m c /\ data_ok W n c p) -> carries (iss_ c) W (write_shutdown_ c) (Plan.fields p) (plan_data c p)) as Hdata.
  { intros (n & m & Ho & Hfa & Hseq & Hoff & Hpay & Hfit & Hfl). pose proof (opened_bounds SC SG HSC HSG W n m c Hs Ho) as (Hn & _ & _ & _ & _ & Htx).
    unfold plan_data. rewrite (queued_bytes W n m c) by (done || lia). unfold una in Hoff, Hn. rewrite Hfa in Hoff, Hn. cbn [Z.b2z] in Hoff, Hn.
    apply carries_data; try done; try lia. rewrite Hseq. f_equal. lia. }
  destruct (Plan.kind p); try (by auto).
  - destruct Hp as [Hpay Hfl]. unfold plan_data. rewrite Hpay. apply carries_none. by left.
  - destruct Hp as (m & Ho & Hseq & Hpay & -> & Hfa & Hfl). unfold plan_data. rewrite Hpay. by apply carries_fin.
  - destruct Hp as [Hp | (n & m & Ho & Hh)]; [by apply Hsyn | by apply (head_carries W n m)].
  - destruct Hp as [Hpay Hfl]. unfold plan_data. rewrite Hpay. apply carries_none. by right.
  - destruct Hp as (n & m & Ho & Hh). by apply (head_carries W n m).
Qed.

Lemma carries_ok iss W closed f data : bytes_ok W -> carries iss W closed f data -> bytes_ok data.
Proof.
  intros Hb [_ Hc]. destruct data as [| x data]; [apply Forall_nil_2 |]. destruct Hc as (q & _ & _ & _ & -> & _); [by left |]. by apply subspan_ok.
Qed.

(** ** The packet of a plan *)
Lemma planned_fields c p : wire_ok c -> planned RC c p -> fields_ok (Plan.fields p) /\ endpoint_ok (Plan.destination p) /\
  valid_endpoint (local_ c) = true /\ family (Plan.destination p) = family (local_ c) /\ 0 <= Plan.payload p.
Proof.
  intros (Hn & Hl & Hp & Hv & Hf & Hr) (kind & dest & seq & flags & payload & offset & -> & Hfl & Hpay & Hd). unfold u32 in *.
  assert (endpoint_ok dest /\ valid_endpoint (local_ c) = true /\ family dest = family (local_ c) /\ 0 <= seq < 4294967296) as (He & Hval & Hfam & Hseq).
  { destruct Hd as [(-> & ? & ? & ?) | (-> & -> & Hrp)]; [| destruct (Hr Hrp) as (? & ? & ?)]; split_and!; auto; lia. }
  split; [| done]. destruct Hl as [_ Hlp], He as [_ Hep]. unfold fields_ok, port. cbn. split_and!; try lia; try (case_cond; lia); apply Z.mod_pos_bound; lia.
Qed.

Lemma mss_option_ok : bytes_ok (mss_option SG).
Proof. unfold bytes_ok, mss_option. repeat (apply Forall_cons_2; [lia || (apply Z.mod_pos_bound; lia) |]). apply Forall_nil_2. Qed.

Lemma unicast6 a : IpAddress.family a = Family.ipv6 -> IpAddress.unicast a = true -> multicast6 (IpAddress.ipv6 a) = false.
Proof.
  intros Hf. unfold IpAddress.unicast, IpAddress.v4. rewrite Hf. rewrite bool_decide_false by done. rewrite !andb_true_iff. intros [[[_ Hm] _] _]. by apply negb_true_iff.
Qed.

(** An output with room for any packet, apart from the two local arrays. *)
Definition apart (address size : Z) (output : Span.t) : Prop :=
  address + size <= Span.data output \/ Span.data output + zlen (Span.bytes output) <= address.
Definition room (output : Span.t) : Prop := 1524 <= zlen (Span.bytes output) /\ apart mss_address 4 output /\ apart payload_address SG output.

Lemma apart_overlaps input output length : 0 <= length <= zlen (Span.bytes output) ->
  Span.data input + Span.size input <= Span.data output \/ Span.data output + zlen (Span.bytes output) <= Span.data input -> overlaps input (Span.data output) length = false.
Proof.
  intros Hl Ha. pose proof (zlen_nonneg (Span.bytes input)). unfold overlaps, aliases, Span.size in *. case_cond; [done |]. apply orb_false_iff in E as [E1 E2]. apply Z.eqb_neq in E1, E2.
  case_cond; [apply Z.leb_le in E; apply Z.ltb_ge; lia | apply Z.leb_gt in E; apply Z.ltb_ge; lia].
Qed.

Lemma mss_option_valid flags : Z.land flags tcp_syn <> 0 -> tcp_options (mss_option SG) flags = Some StatusCode.ok.
Proof.
  intros Hf. unfold tcp_options, mss_option. cbn [length options_loop]. unfold TcpOptions.next at 1. cbn. rewrite (proj2 (Z.eqb_neq _ _) Hf). done.
Qed.

Lemma room_fits {Packet : Type} `{FamilyLaws Packet} output f data : header_size Packet <= 40 -> room output -> zlen data <= SG ->
  tcp_fits (Packet := Packet) output 64 f (if has f tcp_syn then Span.mk mss_address (mss_option SG) else Span.mk 0 []) (Span.mk payload_address data).
Proof.
  intros Hh (Hr & Hm & Hp) Hd. destruct law_sizes as [Hs Hx]. pose proof (zlen_nonneg data). set (options := if has f tcp_syn then _ else _). unfold apart in *.
  assert (0 <= Span.size options <= 4 /\ tcp_options (Span.bytes options) (TcpFields.flags f) = Some StatusCode.ok /\
    (Span.size options = 0 \/ Span.data options + Span.size options <= Span.data output \/ Span.data output + zlen (Span.bytes output) <= Span.data options)) as (Hos & Hov & Hoa).
  { subst options. unfold has. case_cond; [| by split_and!; [..| left]]. split; [done |]. split; [| by right]. apply mss_option_valid. apply negb_true_iff, Z.eqb_neq in E. done. }
  assert (20 <= tcp_header (Span.size options) <= 24) as Hth by (rewrite tcp_header_words by lia; dlia).
  unfold tcp_fits. unfold Span.size at 2 4 6 8. cbn [Span.bytes]. split; [done |]. split; [done |]. split; [lia |]. split; [lia |]. split.
  - destruct Hoa as [Hz | Hoa]; [unfold overlaps; by rewrite Hz |]. apply apart_overlaps; [lia | done].
  - apply apart_overlaps; [lia |]. unfold Span.size. cbn. lia.
Qed.

Definition delivers (packet : Bytes) (from to : IpAddress.t) (f : TcpFields.t) (data : Bytes) : Prop :=
  forall padding, exists options, tcp_packet (packet ++ padding) = Some (Ok (from, to, Tcp.mk f options data)).

Lemma build_ok W c output identification p : conn_ok SC SG W c -> bytes_ok W -> plan_ok SC W c p -> planned RC c p -> 0 <= identification < 65536 ->
  exists o r, build SC SG mss_address payload_address c output identification p = Some (o, r) /\
  match r with
  | Ok n => delivers (first o n) (Endpoint.address (local_ c)) (Endpoint.address (Plan.destination p)) (Plan.fields p) (plan_data c p)
  | Err e => o = Span.bytes output /\ ~ (room output /\ Plan.payload p <= SG)
  end.
Proof.
  intros Hc HW Hpl Hpd Hid. destruct (planned_fields c p (ok_wire _ _ _ _ Hc) Hpd) as (Hf & [Hda Hdp] & Hv & Hfam & Hpay).
  destruct (ok_wire _ _ _ _ Hc) as (_ & [Hla _] & _). pose proof (plan_carries W c p (ok_sends _ _ _ _ Hc) Hpl) as Hcar. pose proof (carries_ok _ _ _ _ _ HW Hcar) as Hdata.
  assert (zlen (plan_data c p) = Plan.payload p) as Hdl by (by apply zlen_ring_get).
  set (from := Endpoint.address (local_ c)) in *. set (to := Endpoint.address (Plan.destination p)) in *. change (IpAddress.family to = IpAddress.family from) in Hfam.
  assert (IpAddress.unicast from = true) as Hu by (unfold valid_endpoint in Hv; by b2p).
  unfold build. fold from to (plan_data c p). set (options := if has (Plan.fields p) tcp_syn then _ else _).
  assert (bytes_ok (Span.bytes options)) as Hopt by (subst options; case_cond; [apply mss_option_ok | apply Forall_nil_2]).
  unfold IpAddress.v6. destruct (IpAddress.family from) eqn:Hff; [rewrite bool_decide_false by done | rewrite bool_decide_true by done].
  - destruct (IpAddress.ipv4_ok from Hla) as [Hl4 Hb4], (IpAddress.ipv4_ok to Hda) as [Ht4 Htb4]. rewrite build_tcp_generic by done.
    destruct (family_build_tcp_spec (Packet := Ipv4Packet.t) output (IpAddress.ipv4 from) (IpAddress.ipv4 to) identification 64 (Plan.fields p) options
      (Span.mk payload_address (plan_data c p))) as (o & r & -> & Hr); try done; try (by split). exists o, r. split; [done |].
    destruct r as [n | e]; [| destruct Hr as (Hno & ? & _); split; [done |]; intros [Hroom Hsz]; apply Hno, room_fits; [done | done | lia]]. destruct Hr as (_ & -> & Hr). intros padding. destruct (Hr padding) as (_ & ip & Hip & Hs & Hd & Ht).
    set (b := first _ _ ++ padding) in *. cbn in Hip, Hs, Hd. injection Hip as Hip. unfold tcp_packet. rewrite (ipv4_version _ _ Hip). cbn [Z.eqb]. rewrite Hip. change (tcp ip) with (family_tcp ip). rewrite Ht, Hs, Hd.
    rewrite !IpAddress.of_ipv4_ipv4 by (done || congruence). by eexists.
  - destruct (family_build_tcp_spec (Packet := Ipv6Packet.t) output (IpAddress.ipv6 from) (IpAddress.ipv6 to) identification 64 (Plan.fields p) options
      (Span.mk payload_address (plan_data c p))) as (o & r & -> & Hr); try done; [split; apply Hla | by apply unicast6 | split; apply Hda |]. exists o, r. split; [done |].
    destruct r as [n | e]; [| destruct Hr as (Hno & ? & _); split; [done |]; intros [Hroom Hsz]; apply Hno, room_fits; [done | done | lia]]. destruct Hr as (_ & -> & Hr). intros padding. destruct (Hr padding) as (_ & ip & Hip & Hs & Hd & Ht).
    set (b := first _ _ ++ padding) in *. cbn in Hip, Hs, Hd. unfold tcp_packet. rewrite (ipv6_version _ _ Hip). cbn [Z.eqb Pos.eqb]. rewrite Hip, Ht, Hs, Hd.
    destruct from as [ff fb], to as [tf tb]. cbn in Hff, Hfam. subst ff tf. by eexists.
Qed.
End Packets.
