(* ===== verification/TransportOps.v ===== *)
(** * The operations of a connection but receive()

    Each answers, keeps the invariant, and leaves alone who the connection is:
    its endpoints, its initial sequence number, that its stream is complete, and
    what it has received and not delivered. *)

From S2P Require Import Prelude Epoch Wire Checksum Ip Packets TcpPackets LinkPackets Address Congestion TransportState Transport Serial TransportReceive TransportSend TransportInv TransportPackets.
Import Connection.

Section Kept.
Context {Policy : Type} (RC : Z).
Local Abbreviation t := (t Policy).
Implicit Types c : t.

Definition kept (c c' : t) : Prop :=
  iss_ c' = iss_ c /\ local_ c' = local_ c /\ (write_shutdown_ c = true -> write_shutdown_ c' = true) /\
  (peer_ c' = peer_ c \/ peer_ c' = Endpoint.none) /\
  (forall iss holds ends R, rcv_ok RC iss holds ends R c -> rcv_ok RC iss holds ends R c').

Lemma kept_refl c : kept c c.
Proof. split_and!; auto. Qed.
Lemma kept_trans c1 c2 c3 : kept c1 c2 -> kept c2 c3 -> kept c1 c3.
Proof.
  intros (A1 & A2 & A3 & A4 & A5) (B1 & B2 & B3 & B4 & B5). split_and!; [congruence | congruence | auto | | auto].
  destruct B4 as [-> | ->]; [done | by right].
Qed.
Lemma kept_move c c' : iss_ c' = iss_ c -> local_ c' = local_ c -> write_shutdown_ c' = write_shutdown_ c -> peer_ c' = peer_ c ->
  receive_side c' = receive_side c -> failure_ c' = failure_ c -> state_step (state_ c) (state_ c') -> kept c c'.
Proof. intros K1 K2 K3 K4 K5 K6 K7. split_and!; [done | done | congruence | by left |]. intros iss holds ends R. by apply rcv_move. Qed.
End Kept.
Arguments kept_refl {Policy RC} c.
Arguments kept_trans {Policy RC} c1 c2 c3 _ _.
Ltac unmoved := apply kept_move; try reflexivity; try (by left).

Section Ops.
Context {Policy : Type} `{CongestionLaws Policy} `{Arch} (initial : Policy) (SC RC SG : Z) (self sizeof_self mss_address payload_address : Z).
Context (HSC : 0 < SC <= 65535) (HRC : 0 < RC <= 65535) (HSG : 0 < SG <= 1460).
Local Abbreviation t := (t Policy).
Implicit Types c : t.
Local Notation "'kept'" := (kept RC).

Lemma kept_terminate reason c : reason <> Failure.none -> kept c (terminate reason c).
Proof. intros Hr. split_and!; [done | done | done | by left |]. intros iss holds ends R. by apply rcv_terminate. Qed.

Lemma kept_listen W c : conn_ok SC SG W c -> state_ c = State.syn_received -> kept c (return_to_listen initial SG c).
Proof.
  intros Hc Hst. destruct (handshake_opening SC W c (ok_sends _ _ _ _ Hc)) as (_ & _ & _ & Hws & _); [by rewrite Hst |].
  split_and!; [done | done | congruence | by right |]. intros iss holds ends R Hr. pose proof (rcv_shape _ _ _ _ _ _ Hr) as (? & _ & _ & ? & _).
  pose proof (rcv_state _ _ _ _ _ _ Hr) as Hs. unfold by_state in Hs. rewrite Hst in Hs. destruct Hs as [(_ & _ & _ & ->) _]. by apply rcv_opened; try (by left).
Qed.

(** ** tick() *)
Lemma tick_kept W c now : conn_ok SC SG W c -> kept c (tick initial SG c now).1.
Proof.
  intros Hc. unfold tick. case_cond; [apply kept_refl |]. case_cond; [apply kept_refl |].
  assert (conn_ok SC SG W (set_last_now now c)) as Hc0 by (apply keep_last_now, Hc). assert (kept c (set_last_now now c)) as Hk0 by unmoved.
  set (c0 := set_last_now now c) in *. assert (Plan.active (plan_ c0) = false) as Hp0 by exact E. clearbody c0.
  set (c1 := if _ && _ then set_state _ _ else c0). assert (kept c c1 /\ conn_ok SC SG W c1) as [Hk1 Hc1].
  { subst c1. case_cond; [| done]. apply andb_true_iff in E1 as [Hst _]. apply bool_decide_eq_true_1 in Hst. split; [| by apply (expire_ok SC SG HSC HSG)].
    apply (kept_trans c c0); [done |]. unmoved. right. by left. }
  clearbody c1. set (c2 := if _ && _ && _ then _ else c1). assert (kept c c2) as Hk2.
  { subst c2. case_cond; [| done]. apply (kept_trans c c1); [done |]. case_cond; [| by apply kept_terminate].
    apply andb_true_iff in E2 as [Hst _]. apply bool_decide_eq_true_1 in Hst. by apply (kept_listen W). }
  clearbody c2. cbn [fst]. case_cond; [| done]. apply (kept_trans c c2); [done |]. by apply kept_terminate.
Qed.

(** ** complete_transmit() *)
Lemma complete_new_kept c sent end_ now : (Plan.kind sent = Kind.fin -> data_state (state_ c) = true) -> kept c (complete_new sent end_ now c).
Proof.
  intros Hd. unfold complete_new. set (c1 := set_snd_nxt end_ c). assert (kept c c1 /\ state_ c1 = state_ c) as [Hk1 Hs1] by (split; [unmoved | done]). clearbody c1.
  set (fresh := negb _). set (c2 := if after _ _ then _ else c1). assert (kept c c2 /\ state_ c2 = state_ c) as [Hk2 Hs2].
  { subst c2. case_cond; [| done]. split; [| done]. apply (kept_trans c c1); [done |]. unmoved. }
  clearbody c2. set (c3 := if fresh then _ else c2). assert (kept c c3 /\ state_ c3 = state_ c) as [Hk3 Hs3].
  { subst c3. case_cond; [| done]. destruct (time_frame end_ now c2) as (r & -> & _). split; [| done]. apply (kept_trans c c2); [done |]. unmoved. }
  clearbody c3. destruct (arm_frame now c3) as (tm & -> & _). assert (kept c (set_persist_deadline 0 (with_timers tm c3))) as Hk4.
  { apply (kept_trans c c3); [done |]. unmoved. }
  case_cond; [| done]. apply (kept_trans c _ _ Hk4). apply andb_true_iff in E as [E _]. apply bool_decide_eq_true_1 in E.
  apply kept_move; try reflexivity. right. right. split; [cbn; by case_cond | left]. change (data_state (state_ c3) = true). by rewrite Hs3, Hd.
Qed.

Lemma complete_kept W c token accepted now : conn_ok SC SG W c -> kept c (complete_transmit SG c token accepted now).1.
Proof.
  intros Hc. unfold complete_transmit. case_cond; [apply kept_refl |]. case_cond; [apply kept_refl |]. apply orb_false_iff in E as [E1 _]. apply negb_false_iff in E1.
  pose proof (ok_plan _ _ _ _ Hc E1) as Hpl. set (sent := plan_ c) in *.
  assert (Plan.kind sent = Kind.fin -> data_state (state_ c) = true) as Hd.
  { intros Hk. unfold plan_ok in Hpl. rewrite Hk in Hpl. destruct Hpl as (m & (_ & _ & _ & _ & _ & Hph) & _). unfold fin_phase in Hph. by destruct (state_ c). }
  case_cond; [unmoved |]. case_cond; [unmoved |]. cbn [fst].
  set (c1 := if has _ _ then _ else _). assert (kept c c1 /\ state_ c1 = state_ c) as [Hk1 Hs1] by (subst c1; case_cond; split; (unmoved || done)).
  rewrite <- Hs1 in Hd. clearbody c1. set (end_ := u32_wrap _). clearbody end_. apply (kept_trans c c1); [done |]. pose proof (complete_new_kept c1 sent end_ now Hd) as Hnew.
  destruct (Plan.kind sent); try apply kept_refl; try exact Hnew.
  - unfold complete_syn. case_cond; [| unmoved].
    destruct (time_frame end_ now (set_snd_nxt end_ (set_snd_max end_ c1))) as (r & -> & _). destruct (arm_frame now (with_rtt r (set_snd_nxt end_ (set_snd_max end_ c1)))) as (tm & -> & _). unmoved.
  - unfold complete_retry. case_cond; [unmoved |]. case_cond; unmoved.
  - unmoved.
Qed.

(** ** The byte stream *)
Lemma write_kept c input : kept c (write SC self sizeof_self c input).1.
Proof. unfold write. do 4 (case_cond; [apply kept_refl |]). case_cond; [apply kept_refl | unmoved]. Qed.
Lemma shutdown_kept c : kept c (shutdown_write c).1.
Proof. unfold shutdown_write. do 2 (case_cond; [apply kept_refl |]). split_and!; [done | done | done | by left |]. intros iss holds ends R. by apply rcv_ext. Qed.
Lemma abort_kept c : kept c (abort c).1.
Proof. unfold abort. case_cond; [apply kept_refl | by apply kept_terminate]. Qed.
Lemma read_identity c output : let c' := (read RC self sizeof_self c output).1 in
  iss_ c' = iss_ c /\ local_ c' = local_ c /\ write_shutdown_ c' = write_shutdown_ c /\ peer_ c' = peer_ c.
Proof. unfold read. do 5 (case_cond; [done |]). cbn [fst]. by case_cond. Qed.

(** ** prepare() *)
Lemma chosen_kept c c' : chosen c c' -> kept c c'.
Proof. intros [-> | [-> | [d ->]]]; [apply kept_refl | unmoved | unmoved]. Qed.

(** A packet of the connection: from its local endpoint, with a segment of what
    was written to it. *)
Definition own_packet (W : Bytes) (c : t) (packet : Bytes) : Prop :=
  exists to f data, delivers packet (Endpoint.address (local_ c)) to f data /\ TcpFields.source_port f = Endpoint.port (local_ c) /\
    carries (iss_ c) W (write_shutdown_ c) f data.

Lemma prepare_ok W c output now identification : conn_ok SC SG W c -> bytes_ok W -> 0 <= identification < 65536 ->
  exists c' o r, prepare initial SC RC SG self sizeof_self mss_address payload_address c output now identification = Some (c', o, r) /\
    conn_ok SC SG W c' /\ kept c c' /\
    match r with
    | Ok (Some packet) => own_packet W c' (first o (PreparedPacket.length packet))
    | _ => o = Span.bytes output
    end.
Proof.
  intros Hc HW Hid. unfold prepare. case_cond; [do 3 eexists; split; [reflexivity |]; by split_and!; [| apply kept_refl |] |].
  case_cond; [do 3 eexists; split; [reflexivity |]; by split_and!; [| apply kept_refl |] |].
  destruct (tick_ok initial SC SG HSC HSG W c now Hc) as [Hc1 Hp1]. pose proof (tick_kept W c now Hc) as Hk1.
  destruct (tick initial SG c now) as [c1 status]. cbn [fst] in *. rewrite E in Hp1.
  case_cond; [do 3 eexists; split; [reflexivity |]; by split_and! |]. case_cond; [do 3 eexists; split; [reflexivity |]; by split_and! |].
  destruct (choose_ok SC SG HSC HSG RC now W c1 (ok_sends _ _ _ _ Hc1) (ok_cc _ _ _ _ Hc1) (ok_syn _ _ _ _ Hc1) (ok_timer _ _ _ _ Hc1) (ok_ack _ _ _ _ Hc1))
    as (c2 & next & -> & Hch & Hnext).
  pose proof (chosen_ok SC SG W c1 c2 Hc1 Hch) as Hc2. assert (kept c c2) as Hk2 by (apply (kept_trans c c1); [done | by apply chosen_kept]).
  assert (Plan.active (plan_ c2) = false) as Hp2 by (destruct Hch as [-> | [-> | [d ->]]]; exact Hp1).
  destruct next as [p |]; [| do 3 eexists; split; [reflexivity |]; by split_and!]. destruct Hnext as [Hpl Hpd].
  destruct (build_ok SC RC SG mss_address payload_address HSC HSG W c2 output identification p Hc2 HW Hpl Hpd Hid) as (o & r & -> & Hr).
  destruct r as [n | e]; [| destruct Hr; do 3 eexists; split; [reflexivity |]; by split_and!].
  do 3 eexists. split; [reflexivity |]. split_and!.
  - destruct Hc2 as [K1 K2 K3 K4 K5 K6 K7 K8]. split; first [exact K1 | exact K2 | exact K3 | exact K4 | exact K5 | exact K6 | exact K8 | idtac]. intros _. exact Hpl.
  - apply (kept_trans c c2); [done |]. unmoved.
  - do 3 eexists. split; [exact Hr |]. split; [| exact (plan_carries SC SG HSC HSG W c2 p (ok_sends _ _ _ _ Hc2) Hpl)].
    by destruct Hpd as (? & ? & ? & ? & ? & ? & -> & _).
Qed.
End Ops.
