(* ===== verification/TransportIngress.v ===== *)
(** * Received packets

    Whatever segment arrives, receive() answers, and keeps the invariant and
    who the connection is.  What it delivers afterwards is still a part of the
    peer's stream, as long as the peer's segments are. *)

From S2P Require Import Prelude Epoch Wire Checksum Ip Packets TcpPackets LinkPackets Address Congestion TransportState Transport Serial TransportReceive TransportSend TransportInv TransportPackets TransportOps.
Import Connection.

(** ** The announced segment size *)
Lemma mss_loop_total n c : bytes_ok (TcpOptions.options_ c) -> 0 <= TcpOptions.at_ c <= zlen (TcpOptions.options_ c) ->
  zlen (TcpOptions.options_ c) - TcpOptions.at_ c < Z.of_nat n -> exists v, mss_loop n c = Some v /\ 1 <= v <= 65535.
Proof.
  revert c. induction n as [| n IH]; intros c Hb Ha Hn; [lia |]. cbn [mss_loop]. pose proof (next_cases c Hb Ha) as Hc.
  destruct (TcpOptions.next c) as [c' [[o |] | e]]; [| by exists 536 | by exists 536]. destruct Hc as (Ho & _ & Hat).
  assert (exists v, mss_loop n c' = Some v /\ 1 <= v <= 65535) as Hrec by (apply IH; rewrite Ho; done || lia).
  case_cond; [| done]. case_cond; [| done]. eexists. split; [done |]. b2p. pose proof (be16_port (TcpOption.data o) 0) as Hp. unfold port in Hp. lia.
Qed.

Section Arrivals.
Context {Policy : Type} `{CongestionLaws Policy} `{Arch} (initial : Policy) (SC RC SG : Z).
Context (HSC : 0 < SC <= 65535) (HRC : 0 < RC <= 65535) (HSG : 0 < SG <= 1460).
Local Abbreviation t := (t Policy).
Implicit Types c : t.
Local Notation "'kept'" := (kept RC).
Local Notation "'conn_ok'" := (conn_ok SC SG).

Definition live (c : t) : Prop := state_ c <> State.closed /\ state_ c <> State.listen.
Lemma live_cases c : live c -> handshake (state_ c) = true \/ data_state (state_ c) = true.
Proof. intros [? ?]. destruct (state_ c); cbn; auto. Qed.

Lemma negotiate_ok seg c : typed_tcp seg -> exists mss, 1 <= mss <= 65535 /\
  negotiate_mss SG seg c = Some (set_cc (start (cc_ c) (segment_of SG mss)) (set_peer_mss mss c)).
Proof.
  intros (_ & _ & _ & _ & Hb & _). unfold negotiate_mss. pose proof (zlen_nonneg (Tcp.options seg)).
  destruct (mss_loop_total (S (length (Tcp.options seg))) (TcpOptions.new (Tcp.options seg) (TcpFields.flags (Tcp.fields seg)))) as (v & -> & Hv);
    [done | cbn; lia | cbn; unfold zlen; lia |]. by exists v.
Qed.

Lemma raise_rto_frame c : rto_ok c -> exists r, raise_rto c = with_rtt r c /\ rto_ok r.
Proof.
  intros Hr. unfold raise_rto. case_cond; [| exists (rtt c); by rewrite rtt_eta]. eexists. split; [reflexivity |]. unfold rto_ok, max_rto_ms. cbn. lia.
Qed.

(** ** Answers that are queued *)
Lemma challenge_ok W c now : conn_ok W c -> live c -> conn_ok W (challenge now c).1 /\ kept c (challenge now c).1.
Proof.
  intros Hc [? ?]. unfold challenge. cbn [fst]. case_cond; [| split; [done | apply kept_refl]]. split; [| unmoved].
  keep Hc. by intros _.
Qed.
Lemma pending_ack_ok W c : conn_ok W c -> live c -> conn_ok W (set_pending_ack true c) /\ kept c (set_pending_ack true c).
Proof. intros Hc [? ?]. split; [by apply keep_pending_ack | unmoved]. Qed.
Lemma queue_reset_ok W c dest seq : conn_ok W c -> state_ c <> State.closed -> endpoint_ok dest -> family dest = family (local_ c) -> u32 seq ->
  conn_ok W (queue_reset dest seq c) /\ kept c (queue_reset dest seq c).
Proof.
  intros Hc Hs Hd Hf Hq. split; [| unmoved]. keep Hc. destruct (ok_wire _ _ _ _ Hc) as (? & ? & ? & Hv & Hfm & _). unfold wire_ok. cbn. split_and!; auto.
Qed.

(** ** Acknowledgments *)
Lemma acknowledge_data W c ack now : conn_ok W c -> data_state (state_ c) = true -> Plan.active (plan_ c) = false -> u32 ack ->
  exists c', acknowledge SC SG ack now c = Some c' /\ conn_ok W c' /\ kept c c' /\ receive_side c' = receive_side c /\ plan_ c' = plan_ c /\
    (state_ c' = State.closed \/ data_state (state_ c') = true).
Proof.
  intros Hc Hd Hp Ha. destruct (after ack (snd_una_ c) && negb (after ack (snd_max_ c))) eqn:E.
  2: { exists c. unfold acknowledge. apply andb_false_iff in E. replace (negb (after ack (snd_una_ c)) || after ack (snd_max_ c)) with true.
       - split_and!; try done; [apply kept_refl | by right].
       - symmetry. apply orb_true_iff. destruct E as [-> | E]; [by left | right; by apply negb_false_iff]. }
  apply andb_true_iff in E as [E1 E2]. apply negb_true_iff in E2. destruct (open_positions SC W c (ok_sends _ _ _ _ Hc) Hd) as (n & m & Ho).
  destruct (opened_live _ _ _ _ _ Ho) as [Hl1 Hl2].
  destruct (acknowledge_open SC SG HSC HSG W n m ack now c (ok_sends _ _ _ _ Hc) Ho (ok_cc _ _ _ _ Hc Hl1) (ok_rto _ _ _ _ Hc) Ha E1 E2)
    as (c' & -> & Hs' & Hcc' & Hr' & (F1 & F2 & F3 & F4 & F5 & F6 & F7) & Hedge & Htm & Hcl).
  assert (state_step (state_ c) (state_ c') /\ (state_ c' = State.closed \/ data_state (state_ c') = true)) as [Hstep Hst].
  { unfold state_step. destruct Hedge as [-> | [[-> ->] | [[-> ->] | [-> ->]]]]; auto 6. }
  assert (local_ c' = local_ c /\ peer_ c' = peer_ c /\ failure_ c' = failure_ c /\ plan_ c' = plan_ c) as (L1 & L2 & L3 & L4) by (by rewrite F4).
  assert (pending_syn_ c' = pending_syn_ c /\ reset_pending_ c' = reset_pending_ c /\ reset_peer_ c' = reset_peer_ c /\ reset_seq_ c' = reset_seq_ c)
    as (P1 & P2 & P3 & P4) by (by rewrite F3).
  exists c'. split; [done |]. split_and!; try done; [| by apply kept_move]. split; try done.
  - rewrite P1. intros Hx. pose proof (ok_syn _ _ _ _ Hc Hx) as Hh. by destruct (state_ c).
  - intros Hx. split; [intros Hy; destruct (Hcl Hy); congruence |]. destruct Hst as [-> | Hst]; [done |]. by destruct (state_ c').
  - unfold timer_ok. rewrite Htm, (ok_timer _ _ _ _ Hc). destruct Hst as [Hst | Hst].
    + destruct (Hcl Hst) as [_ Hm]. rewrite Hm, Z.eqb_refl, !andb_false_r. done.
    + rewrite (bool_decide_false (state_ c = State.closed)) by done. rewrite bool_decide_false by (by destruct (state_ c')). cbn [negb andb].
      destruct (snd_una_ c' =? snd_max_ c') eqn:Ex; [apply andb_false_r |]. rewrite andb_true_r. apply negb_true_iff, Z.eqb_neq. intros Hx.
      unfold after, before in E1, E2. rewrite Hx in E1. congruence.
  - rewrite L4. congruence.
  - destruct (ok_wire _ _ _ _ Hc) as (W1 & W2 & W3 & W4 & W5 & W6). unfold wire_ok. rewrite F1, L1, L2, P2, P3, P4. split_and!; auto.
Qed.

(** The acknowledgment of the SYN: whatever the rest of the handler does to the
    peer's window, the retransmission timeout and the pending packets. *)
Lemma acknowledge_handshake W c now : conn_ok W c -> handshake (state_ c) = true -> Plan.active (plan_ c) = false -> snd_max_ c = u32_wrap (iss_ c + 1) ->
  exists c1, acknowledge SC SG (snd_max_ c) now c = Some c1 /\ rto_ok c1 /\
    forall c', send c' = send c1 -> receive_side c' = receive_side c1 -> peer_mss_ c' = peer_mss_ c1 -> loss c' = loss c1 -> rtx_ c' = rtx_ c1 -> rto_ok c' ->
      pending_syn_ c' = false -> reset_pending_ c' = reset_pending_ c1 -> reset_peer_ c' = reset_peer_ c1 -> reset_seq_ c' = reset_seq_ c1 ->
      control c' = control (set_state State.established c1) ->
      conn_ok W c' /\ iss_ c' = iss_ c /\ local_ c' = local_ c /\ write_shutdown_ c' = write_shutdown_ c /\ peer_ c' = peer_ c /\
      receive_side c' = receive_side c /\ failure_ c' = failure_ c /\ plan_ c' = plan_ c.
Proof.
  intros Hc Hh Hp Hm. assert (state_ c <> State.closed) as Hl by (by destruct (state_ c)).
  destruct (acknowledge_syn SC SG HSC HSG W now c (ok_sends _ _ _ _ Hc) Hh (ok_cc _ _ _ _ Hc Hl) (ok_rto _ _ _ _ Hc) Hm)
    as (c1 & -> & Hst & Hs & Hcc & Hr & (F1 & F2 & F3 & F4 & F5 & F6 & F7) & Htm & Hu).
  exists c1. split; [done |]. split; [exact Hr |]. intros c' E1 E2 E3 E4 E5 E6 E7 E8 E9 E10 E11.
  assert (local_ c' = local_ c /\ peer_ c' = peer_ c /\ failure_ c' = failure_ c /\ plan_ c' = plan_ c /\ state_ c' = State.established)
    as (L1 & L2 & L3 & L4 & L5) by (rewrite E11; cbn; by rewrite F4).
  assert (reset_pending_ c1 = reset_pending_ c /\ reset_peer_ c1 = reset_peer_ c /\ reset_seq_ c1 = reset_seq_ c) as (P2 & P3 & P4) by (by rewrite F3).
  split_and!; try done; try (rewrite E1; done); [| by rewrite E2]. destruct (ok_wire _ _ _ _ Hc) as (W1 & W2 & W3 & W4 & W5 & W6). split.
  - unfold sends, ring_shape, send_state, opened, buffered, una, fin_phase in *. rewrite L5, E1. exact Hs.
  - intros _. unfold cc_ok, segment in *. by rewrite E3, E4.
  - exact E6.
  - congruence.
  - intros _. rewrite L5. by split.
  - unfold timer_ok. rewrite E5, Htm, E1, Hu, Z.eqb_refl. by rewrite andb_false_r.
  - rewrite L4, Hp. done.
  - assert (state_ c <> State.listen) as Hnl by (by destruct (state_ c)). unfold wire_ok. rewrite E2, F1, L1, L2, L5, E8, E9, E10, P2, P3, P4. split_and!; auto.
Qed.

Lemma duplicate_ack_ok W c : conn_ok W c -> data_state (state_ c) = true -> conn_ok W (duplicate_ack SG c) /\ kept c (duplicate_ack SG c).
Proof.
  intros Hc Hd. destruct (open_positions SC W c (ok_sends _ _ _ _ Hc) Hd) as (n & m & Ho). pose proof (ok_cc _ _ _ _ Hc (proj1 (opened_live _ _ _ _ _ Ho))) as Hcc.
  destruct (opened_bounds SC SG HSC HSG W n m c (ok_sends _ _ _ _ Hc) Ho) as (Hn & Hm & _). pose proof Ho as (_ & Hu & _ & Hmx & _).
  assert (forall l, policy_ok (segment SG c) (cc_ l) -> conn_ok W (with_loss l c)) as Hl.
  { intros l Hl. keep Hc. intros _. split; [exact Hl | apply Hcc]. }
  unfold duplicate_ack. set (c1 := if _ : bool then set_dupacks _ c else c). assert (exists d, c1 = set_dupacks d c) as [d ->].
  { subst c1. case_cond; [by eexists |]. exists (dupacks_ c). by destruct c as [? ? ? ? [] ? ? ?]. }
  assert (kept c (set_dupacks d c)) as Hk by unmoved. case_cond.
  - destruct (law_on (segment SG c) (cc_ c) Duplicate (seg_ok SG HSG c Hcc) (proj1 Hcc) I) as (p & [= <-] & Hpp).
    split; [apply Hl; exact Hpp | unmoved].
  - case_cond; [| split; [apply Hl; apply Hcc | done]].
    destruct (law_on (segment SG c) (cc_ c) (Third (u32_wrap (snd_max_ c - snd_una_ c))) (seg_ok SG HSG c Hcc) (proj1 Hcc)) as (p & [= <-] & Hpp);
      [cbn; rewrite Hmx, Hu, seqno_diff; lia |].
    split; [apply Hl; exact Hpp | unmoved].
Qed.

(** ** Data *)
Lemma receive_eta c : with_receive_side (receive_side c) c = c.
Proof. by destruct c. Qed.
Lemma remember_loop_frame n : forall i start end_ fin c, exists r g, remember_loop n i start end_ fin c = (with_receive_side r c, g).
Proof.
  induction n as [| n IH]; intros i start end_ fin c; cbn [remember_loop]; [exists (receive_side c); eexists; by rewrite receive_eta |].
  case_cond; [apply IH |]. cbv zeta. match goal with |- context [remember_loop n i ?a ?b ?f ?x] => destruct (IH i a b f x) as (r & g & ->) end. by exists r, g.
Qed.
Lemma remember_frame start end_ fin c : exists r, remember start end_ fin c = with_receive_side r c.
Proof.
  unfold remember. case_cond; [exists (receive_side c); by rewrite receive_eta |].
  destruct (remember_loop_frame (Z.to_nat (ooo_count_ c)) 0 start end_ fin c) as (r & g & ->). case_cond; by eexists.
Qed.
Lemma join_frame n : forall final c, exists r f, join n final c = (with_receive_side r c, f).
Proof.
  induction n as [| n IH]; intros final c; cbn [join]; destruct (joinable c) as [i |]; try (exists (receive_side c); eexists; by rewrite receive_eta).
  unfold join_range. cbv zeta. set (x := if after _ _ then _ else _). assert (exists r g, x = (with_receive_side r c, g)) as (r & g & ->).
  { subst x. case_cond; [by do 2 eexists | exists (receive_side c); eexists; by rewrite receive_eta]. }
  match goal with |- context [join n ?f ?y] => destruct (IH f y) as (r' & f' & ->) end. by exists r', f'.
Qed.

Lemma consume_shape seg now c : consume RC seg now c = c \/
  exists r, consume RC seg now c = with_receive_side r (set_pending_ack true c) \/ consume RC seg now c = finish now (with_receive_side r (set_pending_ack true c)).
Proof.
  unfold consume. case_cond; [by left |]. right. set (c0 := set_pending_ack true c). assert (exists r, c0 = with_receive_side r c0) as [r0 Hr0] by (exists (receive_side c0); by rewrite receive_eta).
  case_cond; [exists r0; by left |]. cbv zeta. set (skip := if before _ _ then u32_wrap _ else 0). case_cond; [exists r0; by left |].
  set (sequence := if before _ _ then _ else _). case_cond; [exists r0; by left |]. case_cond.
  - match goal with |- context [remember ?a ?b ?f ?x] => destruct (remember_frame a b f x) as (r & ->) end. exists r. by left.
  - match goal with |- context [join ?a ?b ?x] => destruct (join_frame a b x) as (r & f & ->) end. exists r. case_cond; [by right | by left].
Qed.

(** A change between states of an open connection with the same send side. *)
Lemma restate_ok W c s tm : conn_ok W c -> data_state (state_ c) = true -> data_state s = true -> (forall m, fin_phase W c m -> fin_phase W (set_state s c) m) ->
  Timer.active (rtx_ tm) = Timer.active (rtx_ c) -> Plan.active (plan_ c) = false -> conn_ok W (set_state s (with_timers tm c)).
Proof.
  intros Hc Hd Hs Hph Ht Hp. destruct (open_positions SC W c (ok_sends _ _ _ _ Hc) Hd) as (n & m & Ho). pose proof (opened_live _ _ _ _ _ Ho) as [Hl1 Hl2].
  assert (s <> State.closed /\ s <> State.listen) as [Hs1 Hs2] by (by destruct s). keep Hc; cbn.
  - split; [exact (snd_shape _ _ _ (ok_sends _ _ _ _ Hc)) |]. split; [exact (snd_iss _ _ _ (ok_sends _ _ _ _ Hc)) |]. apply (opened_send_state SC W n m).
    destruct Ho as (O1 & O2 & O3 & O4 & O5 & O6). split; [exact O1 |]. split; [exact O2 |]. split; [exact O3 |]. split; [exact O4 |]. split; [exact O5 |]. exact (Hph m O6).
  - intros _. exact (ok_cc _ _ _ _ Hc Hl1).
  - intros Hx. pose proof (ok_syn _ _ _ _ Hc Hx). by destruct (state_ c).
  - done.
  - pose proof (ok_timer _ _ _ _ Hc) as K. unfold timer_ok in *. cbn. rewrite Ht, K. by rewrite !bool_decide_false.
  - congruence.
  - destruct (ok_wire _ _ _ _ Hc) as (? & ? & ? & W4 & W5 & W6). unfold wire_ok. cbn. split_and!; auto.
Qed.

Lemma consume_conn W c seg now : conn_ok W c -> data_state (state_ c) = true -> Plan.active (plan_ c) = false -> u32 (rcv_nxt_ (consume RC seg now c)) ->
  let c' := consume RC seg now c in
  conn_ok W c' /\ iss_ c' = iss_ c /\ local_ c' = local_ c /\ write_shutdown_ c' = write_shutdown_ c /\ peer_ c' = peer_ c /\ plan_ c' = plan_ c.
Proof.
  intros Hc Hd Hp. assert (live c) as Hlive by (split; intros Hx; by rewrite Hx in Hd). destruct (consume_shape seg now c) as [-> | (r & [-> | ->])]; [by intros _ | |]; intros Hn; cbv zeta.
  - split; [| done]. destruct (ok_wire _ _ _ _ Hc) as (_ & W2). keep Hc; [| by split]. intros _. exact Hlive.
  - assert (Timer.active (rtx_ c) = true -> state_ c <> State.time_wait /\ state_ c <> State.fin_wait_2) as Hidle.
    { intros Ht. rewrite (ok_timer _ _ _ _ Hc) in Ht. apply andb_true_iff in Ht as [_ Ht]. apply negb_true_iff, Z.eqb_neq in Ht.
      destruct (open_positions SC W c (ok_sends _ _ _ _ Hc) Hd) as (n & m & Ho). pose proof Ho as (_ & Hu & _ & Hmx & _ & Hph).
      destruct (opened_bounds SC SG HSC HSG W n m c (ok_sends _ _ _ _ Hc) Ho) as (_ & _ & _ & _ & Hfa & _). unfold fin_phase in Hph.
      split; intros Hx; rewrite Hx in Hph; destruct (Hfa (proj1 Hph)) as [_ He]; congruence. }
    set (c0 := with_receive_side r (set_pending_ack true c)) in *. set (c1 := set_rcv_nxt (u32_wrap (rcv_nxt_ c0 + 1)) (set_eof true (set_ooo_count 0 c0))).
    assert (rcv_nxt_ (finish now c0) = rcv_nxt_ c1) as Hn1 by (unfold finish; fold c1; by destruct (state_ c1)).
    assert (conn_ok W c1) as Hc1.
    { destruct (ok_wire _ _ _ _ Hc) as (_ & W2). keep Hc; [| split; [rewrite <- Hn1; exact Hn | exact W2]].
      intros _. exact Hlive. }
    assert (data_state (state_ c1) = true) as Hd1 by exact Hd. assert (Plan.active (plan_ c1) = false) as Hp1 by exact Hp.
    unfold finish. fold c1. change (state_ c1) with (state_ c). destruct (state_ c) eqn:Hst; try done; (split; [| done]).
    + apply (restate_ok W c1 State.close_wait (timers c1)); try done. intros m. unfold fin_phase. change (state_ c1) with (state_ c). by rewrite Hst.
    + apply (restate_ok W c1 State.closing (timers c1)); try done. intros m. unfold fin_phase. change (state_ c1) with (state_ c). by rewrite Hst.
    + apply (restate_ok W c1 State.time_wait (timers (enter_time_wait now c1))); try done.
      * intros m. unfold fin_phase. change (state_ c1) with (state_ c). by rewrite Hst.
      * change (false = Timer.active (rtx_ c)). destruct (Timer.active (rtx_ c)); [| done]. by destruct (Hidle eq_refl).
Qed.

Lemma consume_state seg now c : data_state (state_ c) = true -> data_state (state_ (consume RC seg now c)) = true.
Proof.
  intros Hd. destruct (consume_shape seg now c) as [-> | (r & [-> | ->])]; try exact Hd. unfold finish. cbv zeta.
  match goal with |- context [match ?x with _ => _ end] => change x with (state_ c) end. destruct (state_ c) eqn:Hst; try done; change (data_state (state_ c) = true); by rewrite Hst.
Qed.

(** ** Segments of a stream *)
Section Stream.
Context (iss : Z) (holds : Z -> Z -> Prop) (ends : Z -> Prop) (R : Z) (W : Bytes).
Local Notation "'rcv_ok'" := (rcv_ok RC iss holds ends R).

Definition moved (c c' : t) : Prop :=
  iss_ c' = iss_ c /\ local_ c' = local_ c /\ (write_shutdown_ c = true -> write_shutdown_ c' = true) /\
  (peer_ c' = peer_ c \/ peer_ c' = Endpoint.none) /\ rcv_ok c'.
Lemma moved_kept c c' : kept c c' -> rcv_ok c -> moved c c'.
Proof. intros (? & ? & ? & ? & Hr) Hc. split_and!; auto. Qed.
Lemma moved_after c c1 c2 : kept c c1 -> moved c1 c2 -> moved c c2.
Proof.
  intros (A1 & A2 & A3 & A4 & A5) (B1 & B2 & B3 & B4 & B5). split_and!; [congruence | congruence | auto | | auto].
  destruct B4 as [-> | ->]; [done | by right].
Qed.

Definition outcome {A} (c : t) (x : option (t * A)) : Prop := exists c' i, x = Some (c', i) /\ conn_ok W c' /\ moved c c'.
Lemma outcome_kept {A} c c' (i : A) : conn_ok W c' /\ kept c c' -> rcv_ok c -> outcome c (Some (c', i)).
Proof. intros [? ?] ?. do 2 eexists. split; [done |]. split; [done | by apply moved_kept]. Qed.
Lemma outcome_after {A} c c1 (x : option (t * A)) : kept c c1 -> outcome c1 x -> outcome c x.
Proof. intros Hk (c' & i & -> & Hc & Hm). do 2 eexists. split; [done |]. split; [done | by apply (moved_after c c1)]. Qed.

Lemma ingress_data_ok c seg now una window : conn_ok W c -> rcv_ok c -> state_ c = State.closed \/ data_state (state_ c) = true -> Plan.active (plan_ c) = false ->
  (eof_ c = false -> genuine iss holds ends (R + rx_size_ c) seg) -> outcome c (Some (ingress_data RC SG seg now una window c)).
Proof.
  intros Hc Hr Hst Hp Hg. unfold ingress_data. case_cond; [by apply outcome_kept; [split; [| apply kept_refl] |] |].
  apply bool_decide_eq_false_1 in E. destruct Hst as [? | Hd]; [done |].
  set (c1 := if between _ _ _ && _ then _ else c). assert (conn_ok W c1 /\ kept c c1 /\ state_ c1 = state_ c /\ plan_ c1 = plan_ c /\ receive_side c1 = receive_side c) as (Hc1 & Hk1 & Hs1 & Hp1 & Hr1).
  { subst c1. case_cond; split_and!; try done; [keep Hc | unmoved | apply kept_refl]. }
  clearbody c1. set (c2 := if negb _ then set_persist_deadline _ _ else c1).
  assert (conn_ok W c2 /\ kept c c2 /\ state_ c2 = state_ c /\ plan_ c2 = plan_ c /\ receive_side c2 = receive_side c) as (Hc2 & Hk2 & Hs2 & Hp2 & Hr2).
  { subst c2. case_cond; split_and!; try done; [keep Hc1 |]. apply (kept_trans c c1); [done |]. unmoved. }
  clearbody c2. set (c3 := if (_ =? una) && _ && _ && _ && _ && _ && _ then _ else c2).
  assert (conn_ok W c3 /\ kept c c3 /\ state_ c3 = state_ c /\ plan_ c3 = plan_ c /\ receive_side c3 = receive_side c) as (Hc3 & Hk3 & Hs3 & Hp3 & Hr3).
  { subst c3. case_cond; [| done]. destruct (duplicate_ack_ok W c2 Hc2 ltac:(by rewrite Hs2)) as [? ?]. split_and!; [done | by apply (kept_trans c c2) | ..];
      rewrite <- ?Hs2, <- ?Hp2, <- ?Hr2; unfold duplicate_ack; repeat case_cond; done. }
  clearbody c3. apply (outcome_after c c3 _ Hk3). pose proof (proj2 (proj2 (proj2 (proj2 Hk3))) _ _ _ _ Hr) as Hrc.
  case_cond; [by apply outcome_kept; [split; [| apply kept_refl] |] |]. rewrite <- Hs3 in Hd. rewrite <- Hp3 in Hp.
  assert (rcv_ok (consume RC seg now c3)) as Hr4 by (apply consume_ok; [done | done | done |]; rewrite Hr3; exact Hg).
  pose proof (proj1 (by_state_data _ _ _ _ _ _ (consume_state seg now c3 Hd)) (rcv_state _ _ _ _ _ _ Hr4)) as (_ & Hn & _).
  destruct (consume_conn W c3 seg now Hc3 Hd Hp) as (? & ? & ? & ? & ? & ?); [rewrite Hn; apply seqno_range |].
  do 2 eexists. split; [done |]. split; [done |]. split_and!; [done | done | congruence | by left | done].
Qed.

(** The connection is established by an acknowledgment of its SYN. *)
Lemma establish c now : conn_ok W c -> state_ c = State.syn_received -> Plan.active (plan_ c) = false -> snd_max_ c = u32_wrap (iss_ c + 1) ->
  exists c1, acknowledge SC SG (snd_max_ c) now c = Some c1 /\ forall p pe,
    peer_mss_ p = peer_mss_ c1 -> pending_syn_ pe = false -> reset_pending_ pe = reset_pending_ c1 -> reset_peer_ pe = reset_peer_ c1 -> reset_seq_ pe = reset_seq_ c1 ->
    let c' := raise_rto (with_peer_side p (with_pending pe (set_state State.established c1))) in
    conn_ok W c' /\ kept c c' /\ receive_side c' = receive_side c /\ plan_ c' = plan_ c /\ data_state (state_ c') = true.
Proof.
  intros Hc Hst Hp Hm. destruct (acknowledge_handshake W c now Hc) as (c1 & -> & Hr1 & Hfin); [by rewrite Hst | done | done |].
  exists c1. split; [done |]. intros p pe E1 E2 E3 E4 E5. destruct (raise_rto_frame (with_peer_side p (with_pending pe (set_state State.established c1))) Hr1) as (r & -> & Hr).
  destruct (Hfin (with_rtt r (with_peer_side p (with_pending pe (set_state State.established c1)))) eq_refl eq_refl E1 eq_refl eq_refl Hr E2 E3 E4 E5 eq_refl)
    as (? & ? & ? & ? & ? & ? & ? & ?).
  split; [done |]. split; [| done]. apply kept_move; try done. right. right. split; [done | by right].
Qed.

Lemma receive_syn_ok c seg now : conn_ok W c -> rcv_ok c -> live c -> Plan.active (plan_ c) = false -> outcome c (receive_syn SC SG seg now c).
Proof.
  intros Hc Hr Hl Hp. unfold receive_syn. case_cond.
  - rewrite !andb_true_iff in E. destruct E as [[[[[[Hst _] _] _] _] Ha] Hm]. apply bool_decide_eq_true_1 in Hst. apply Z.eqb_eq in Ha, Hm. rewrite Ha.
    destruct (establish c now) as (c1 & -> & Hfin); try done.
    destruct (Hfin (peer_side (set_wl2 (snd_max_ c) (set_wl1 (TcpFields.sequence (Tcp.fields seg)) (set_peer_window (TcpFields.window (Tcp.fields seg)) c1))))
      (pending (set_pending_ack true (set_pending_syn false c1))) eq_refl eq_refl eq_refl eq_refl eq_refl) as (? & ? & _).
    apply outcome_kept; [by split | done].
  - rewrite (surjective_pairing (challenge now c)). apply outcome_kept; [by apply challenge_ok | done].
Qed.

Lemma ingress_open_ok c seg now : conn_ok W c -> rcv_ok c -> live c -> state_ c <> State.syn_sent -> Plan.active (plan_ c) = false -> typed_tcp seg ->
  (has (Tcp.fields seg) tcp_syn = false -> eof_ c = false -> genuine iss holds ends (R + rx_size_ c) seg) ->
  outcome c (ingress_open initial SC RC SG seg now c).
Proof.
  intros Hc Hr Hl Hns Hp Ht Hg. unfold ingress_open. pose proof (proj2 (challenge_ok W c now Hc Hl)) as Hck.
  case_cond; [case_cond; apply outcome_kept; try done; [by apply pending_ack_ok | split; [done | apply kept_refl]] |].
  case_cond.
  { case_cond; [rewrite (surjective_pairing (challenge now c)); apply outcome_kept; [by apply challenge_ok | done] |]. destruct Hl as [Hl1 Hl2]. case_cond.
    - apply andb_true_iff in E2 as [E2 _]. apply bool_decide_eq_true_1 in E2. apply outcome_kept; [| done]. split; [| by eapply kept_listen].
      apply return_to_listen_ok; [done.. | by rewrite E2 |]. destruct (ok_wire _ _ _ _ Hc) as (_ & _ & _ & Hv & _). apply Hv. by left.
    - apply outcome_kept; [| done]. split; [by apply terminate_ok | by apply kept_terminate]. }
  case_cond.
  { destruct (receive_syn_ok c seg now Hc Hr Hl Hp) as (c' & i & -> & ? & ?). by do 2 eexists. }
  case_cond; [apply outcome_kept; [split; [done | apply kept_refl] | done] |].
  case_cond; [rewrite (surjective_pairing (challenge now c)); apply outcome_kept; [by apply challenge_ok | done] |].
  assert (u32 (TcpFields.acknowledgment (Tcp.fields seg))) as Hack by (destruct Ht as ((_ & _ & _ & Ha & _) & _); exact Ha).
  assert (forall c' una window, conn_ok W c' -> kept c c' -> receive_side c' = receive_side c -> plan_ c' = plan_ c -> state_ c' = State.closed \/ data_state (state_ c') = true ->
    outcome c (Some (ingress_data RC SG seg now una window c'))) as Hdata.
  { intros c' una window Hc' Hk' Hr' Hp' Hs'. apply (outcome_after c c' _ Hk'). apply ingress_data_ok; try done; [by apply Hk' | by rewrite Hp' |]. rewrite Hr'. by apply Hg. }
  unfold ingress_ack. destruct (live_cases c Hl) as [Hh | Hd].
  - assert (state_ c = State.syn_received) as Hst by (by destruct (state_ c)). rewrite Hst. case_cond.
    + destruct (ok_wire _ _ _ _ Hc) as (_ & _ & Hpe & _ & Hf & _). destruct Hl. apply outcome_kept; [| done]. apply queue_reset_ok; try done. by apply Hf.
    + apply orb_false_iff in E4 as [E5 E6]. apply negb_false_iff, Z.eqb_eq in E5, E6. rewrite E5. destruct (establish c now) as (c1 & -> & Hfin); try done.
      destruct (Hfin (peer_side c1) (pending (set_pending_syn false c1)) eq_refl eq_refl eq_refl eq_refl eq_refl) as (? & ? & ? & ? & ?). apply Hdata; auto.
  - assert (forall A (x y : A), match state_ c with State.syn_received => x | _ => y end = y) as Hcase by (intros; by destruct (state_ c)). rewrite Hcase. case_cond.
    + destruct (acknowledge_data W c _ now Hc Hd Hp Hack) as (c' & -> & ? & ? & ? & ? & ?). by apply Hdata.
    + apply Hdata; try done; [apply kept_refl | by right].
Qed.

(** ** The peer's SYN *)
Lemma record_ok c f wl2 : conn_ok W c -> conn_ok W (record_syn f wl2 c).
Proof. intros Hc. keep Hc. destruct (ok_wire _ _ _ _ Hc) as (_ & Hw). split; [apply u32_range | exact Hw]. Qed.
Lemma segment_size_ok c mss : conn_ok W c -> 1 <= mss <= 65535 -> conn_ok W (set_cc (start (cc_ c) (segment_of SG mss)) (set_peer_mss mss c)).
Proof. intros Hc Hm. keep Hc. intros _. split; [apply law_start; unfold segment_ok, segment_of; lia | exact Hm]. Qed.

(** A SYN without an acknowledgment: from LISTEN, or crossing an own SYN. *)
Lemma syn_received_ok c : conn_ok W c -> state_ c = State.listen \/ state_ c = State.syn_sent -> Plan.active (plan_ c) = false ->
  family (peer_ c) = family (local_ c) -> conn_ok W (set_pending_syn true (set_state State.syn_received c)).
Proof.
  intros Hc Hst Hp Hf. assert (opening W c) as Ho.
  { pose proof (snd_position _ _ _ (ok_sends _ _ _ _ Hc)) as Hs. unfold send_state in Hs. destruct Hst as [Hx | Hx]; rewrite Hx in Hs; [apply Hs | exact Hs]. }
  assert (state_ c <> State.closed) as Hl by (destruct Hst as [-> | ->]; done). keep Hc.
  - split; [exact (snd_shape _ _ _ (ok_sends _ _ _ _ Hc)) |]. split; [exact (snd_iss _ _ _ (ok_sends _ _ _ _ Hc)) | exact Ho].
  - intros _. exact (ok_cc _ _ _ _ Hc Hl).
  - done.
  - done.
  - pose proof (ok_timer _ _ _ _ Hc) as K. unfold timer_ok in *. cbn. by rewrite K, (bool_decide_false (state_ c = State.closed)).
  - cbn. by rewrite Hp.
  - destruct (ok_wire _ _ _ _ Hc) as (? & ? & ? & W4 & _ & W6). unfold wire_ok. cbn. split_and!; auto.
Qed.

Lemma ingress_syn_sent_ok c seg now : conn_ok W c -> rcv_ok c -> state_ c = State.syn_sent -> Plan.active (plan_ c) = false -> typed_tcp seg ->
  (has (Tcp.fields seg) tcp_syn = true -> TcpFields.sequence (Tcp.fields seg) = iss) -> outcome c (ingress_syn_sent SC SG seg now c).
Proof.
  intros Hc Hr Hst Hp Ht Hseq. pose proof (ok_wire _ _ _ _ Hc) as (_ & _ & Hpe & _ & Hfam & _). rewrite Hst in Hfam. specialize (Hfam ltac:(done) ltac:(done)).
  pose proof Ht as ((_ & _ & Hsq & Hack & _) & _). unfold ingress_syn_sent. case_cond.
  { case_cond; apply outcome_kept; try done; [| split; [done | apply kept_refl]]. apply queue_reset_ok; try done. by rewrite Hst. }
  case_cond; [case_cond; apply outcome_kept; try done; [split; [by apply terminate_ok | by apply kept_terminate] | split; [done | apply kept_refl]] |].
  case_cond; [apply outcome_kept; [split; [done | apply kept_refl] | done] |].
  apply orb_false_iff in E1 as [E1 _]. apply negb_false_iff in E1. specialize (Hseq E1). set (f := Tcp.fields seg) in *. set (ack := has f tcp_ack) in *.
  set (c1 := record_syn f _ c). destruct (negotiate_ok seg c1 Ht) as (mss & Hm & ->).
  pose proof (segment_size_ok c1 mss (record_ok c f _ Hc) Hm) as Hc2. set (c2 := set_cc _ (set_peer_mss mss c1)) in *.
  assert (0 <= iss < 4294967296) as Hi by (rewrite <- Hseq; exact Hsq).
  assert (receive_side c2 = receive_side (set_rcv_nxt (u32_wrap (iss + 1)) (set_irs iss c))) as Hrs by (rewrite <- Hseq; reflexivity).
  destruct ack eqn:Hak.
  - cbn [andb] in E. apply orb_false_iff in E as [E2 E3]. apply negb_false_iff, Z.eqb_eq in E2, E3.
    destruct (acknowledge_handshake W c2 now Hc2 ltac:(change (handshake (state_ c) = true); by rewrite Hst) Hp E3) as (c3 & Hak3 & Hr3 & Hfin).
    change (snd_max_ c2) with (snd_max_ c) in Hak3. rewrite E3, <- E2 in Hak3. rewrite Hak3. destruct (raise_rto_frame (set_state State.established c3) Hr3) as (r & -> & Hrr).
    destruct (Hfin (set_pending_ack true (set_pending_syn false (with_rtt r (set_state State.established c3)))) eq_refl eq_refl eq_refl eq_refl eq_refl Hrr eq_refl eq_refl eq_refl eq_refl eq_refl)
      as (Hok & ? & ? & Hws & ? & Hrv & Hfl & ?).
    do 2 eexists. split; [done |]. split; [exact Hok |]. split_and!; [done | done | by rewrite Hws | by left |].
    apply rcv_record with (c := c); try done; [by right | by rewrite Hrv | by right].
  - do 2 eexists. split; [done |]. split; [apply syn_received_ok; [done | by right | done | done] |]. split_and!; [done | done | done | by left |].
    apply rcv_record with (c := c); try done; [by right | by left].
Qed.

Lemma ingress_listen_ok c seg source : conn_ok W c -> rcv_ok c -> state_ c = State.listen -> Plan.active (plan_ c) = false -> typed_tcp seg ->
  endpoint_ok source -> family source = family (local_ c) -> (has (Tcp.fields seg) tcp_syn = true -> TcpFields.sequence (Tcp.fields seg) = iss) ->
  exists c' i, ingress_listen SG source seg c = Some (c', i) /\ conn_ok W c' /\ iss_ c' = iss_ c /\ local_ c' = local_ c /\
    (write_shutdown_ c = true -> write_shutdown_ c' = true) /\ (peer_ c' = peer_ c /\ state_ c' = State.listen \/ peer_ c' = source) /\ rcv_ok c'.
Proof.
  intros Hc Hr Hst Hp Ht He Hf Hseq. pose proof Ht as ((_ & _ & Hsq & Hack & _) & _). unfold ingress_listen.
  case_cond; [do 2 eexists; split; [done |]; split_and!; try done; by left |].
  case_cond; [do 2 eexists; split; [done |] |].
  { destruct (queue_reset_ok W c source (TcpFields.acknowledgment (Tcp.fields seg)) Hc) as (? & _ & _ & _ & _ & Hrk); try done; [by rewrite Hst |].
    split_and!; try done; [by left | by apply Hrk]. }
  case_cond; [do 2 eexists; split; [done |]; split_and!; try done; by left |]. apply orb_false_iff in E1 as [E1 _]. apply negb_false_iff in E1. specialize (Hseq E1).
  case_cond; [do 2 eexists; split; [done |]; split_and!; try done; by left |].
  set (c0 := set_peer source (set_listener_armed false c)). assert (conn_ok W c0) as Hc0.
  { keep Hc. destruct (ok_wire _ _ _ _ Hc) as (? & ? & ? & W4 & _ & W6). unfold wire_ok. cbn. split_and!; auto. }
  destruct (negotiate_ok seg (record_syn (Tcp.fields seg) 0 c0) Ht) as (mss & Hm & ->).
  pose proof (segment_size_ok _ mss (record_ok c0 (Tcp.fields seg) 0 Hc0) Hm) as Hc2.
  do 2 eexists. split; [done |]. split; [apply syn_received_ok; [done | by left | done | done] |]. split_and!; [done | done | done | by right |].
  apply rcv_record with (c := c); try done; [rewrite <- Hseq; exact Hsq | by left | by rewrite <- Hseq | by left].
Qed.

(** ** Segments and packets *)
(** What a connection relies on when a segment arrives from its peer, or from
    anyone while it listens. *)
Definition fits (c : t) (source : Endpoint.t) (seg : Tcp.t) : Prop := state_ c = State.listen \/ source = peer_ c ->
  (state_ c = State.listen \/ state_ c = State.syn_sent -> has (Tcp.fields seg) tcp_syn = true -> TcpFields.sequence (Tcp.fields seg) = iss) /\
  (state_ c <> State.listen -> state_ c <> State.syn_sent -> has (Tcp.fields seg) tcp_syn = false -> eof_ c = false -> genuine iss holds ends (R + rx_size_ c) seg).

Definition received {A} (source : Endpoint.t) (c : t) (x : option (t * A)) : Prop :=
  exists c' i, x = Some (c', i) /\ conn_ok W c' /\ iss_ c' = iss_ c /\ local_ c' = local_ c /\ (write_shutdown_ c = true -> write_shutdown_ c' = true) /\
    (peer_ c' = peer_ c /\ (state_ c = State.listen -> state_ c' = State.listen) \/ peer_ c' = Endpoint.none \/ (state_ c = State.listen /\ peer_ c' = source)) /\ rcv_ok c'.
Lemma received_outcome {A} source c (x : option (t * A)) : state_ c <> State.listen -> outcome c x -> received source c x.
Proof. intros Hl (c' & i & -> & Hc & A1 & A2 & A3 & A4 & A5). exists c', i. split_and!; try done. destruct A4; [by left | by right; left]. Qed.
Lemma received_same {A} source c (i : A) : conn_ok W c -> rcv_ok c -> received source c (Some (c, i)).
Proof. intros Hc Hr. exists c, i. split_and!; auto. Qed.

Lemma ingress_ok c from to seg now : conn_ok W c -> rcv_ok c -> Plan.active (plan_ c) = false -> IpAddress.ok from -> IpAddress.family from = IpAddress.family to ->
  typed_tcp seg -> fits c (Endpoint.mk from (TcpFields.source_port (Tcp.fields seg))) seg ->
  received (Endpoint.mk from (TcpFields.source_port (Tcp.fields seg))) c (ingress initial SC RC SG from to seg now c).
Proof.
  intros Hc Hr Hp Hfrom Hfam Ht Hfit. set (source := Endpoint.mk from _) in *.
  assert (forall i : result Ingress.t, received source c (Some (c, i))) as Hsame by (intros i; by apply received_same).
  unfold ingress. fold source. case_cond; [apply Hsame |]. case_cond; [apply Hsame |].
  apply orb_false_iff in E as [E _]. apply orb_false_iff in E as [E _]. apply negb_false_iff, bool_decide_eq_true in E.
  apply orb_false_iff in E0 as [_ E0]. assert (state_ c = State.listen \/ source = peer_ c) as Hsrc.
  { apply andb_false_iff in E0 as [E0 | E0]; apply negb_false_iff, bool_decide_eq_true in E0; auto. }
  destruct (Hfit Hsrc) as [Hsyn Hgen]. clear Hfit E0.
  assert (endpoint_ok source) as Hes by (split; [done | destruct Ht as ((Hpt & _) & _); exact Hpt]).
  assert (family source = family (local_ c)) as Hfs by (unfold family; cbn; by rewrite Hfam, E).
  assert (conn_ok W (set_last_now now c)) as Hc0 by (by apply keep_last_now). assert (kept c (set_last_now now c)) as Hk0 by unmoved.
  assert (rcv_ok (set_last_now now c)) as Hr0 by (by apply Hk0). change (state_ c) with (state_ (set_last_now now c)) in Hsyn, Hgen. change (eof_ c) with (eof_ (set_last_now now c)) in Hgen.
  change (rx_size_ c) with (rx_size_ (set_last_now now c)) in Hgen. change (Plan.active (plan_ (set_last_now now c)) = false) in Hp. change (family source = family (local_ (set_last_now now c))) in Hfs.
  assert (forall x, received (A := result Ingress.t) source (set_last_now now c) x -> received source c x) as Hback by (intros x Hx; exact Hx).
  apply Hback. clear Hback Hsame. set (c0 := set_last_now now c) in *. clearbody c0. clear Hc Hr Hsrc Hk0 E c.
  assert (forall i : result Ingress.t, received source c0 (Some (c0, i))) as Hsame by (intros i; by apply received_same).
  case_cond; [apply Hsame |]. apply bool_decide_eq_false_1 in E. case_cond; [apply Hsame |]. case_cond; [apply Hsame |]. case_cond.
  { apply bool_decide_eq_true_1 in E2. destruct (ingress_listen_ok c0 seg source) as (c' & i & -> & ? & ? & ? & ? & Hpe & ?); try done; [by apply Hsyn; left |].
    exists c', i. split_and!; try done. destruct Hpe as [[? ?] | ?]; auto. }
  apply bool_decide_eq_false_1 in E2. assert (live c0) as Hl by done. apply received_outcome; [done |]. case_cond.
  { apply bool_decide_eq_true_1 in E3. apply ingress_syn_sent_ok; try done. by apply Hsyn; right. }
  apply bool_decide_eq_false_1 in E3. case_cond.
  { case_cond; [rewrite (surjective_pairing (challenge now c0)); apply outcome_kept; [by apply challenge_ok | done] |].
    apply outcome_kept; [| done]. split; [| unmoved]. keep Hc0. by intros _. }
  case_cond.
  { rewrite !andb_true_iff in E5. destruct E5 as [[[[Hst _] _] _] _]. apply bool_decide_eq_true_1 in Hst. case_cond; [| by apply outcome_kept; [split; [| apply kept_refl] |]].
    apply outcome_kept; [| done]. split; [| unmoved]. keep Hc0. intros _. by change (handshake (state_ c0) = true); rewrite Hst. }
  case_cond; [| apply ingress_open_ok; try done; by apply Hgen].
  destruct (receive_syn_ok c0 seg now Hc0 Hr0 Hl Hp) as (c' & i & -> & ? & ?). by do 2 eexists.
Qed.
End Stream.
End Arrivals.
