(* ===== verification/TransportHistory.v ===== *)
(** * Histories of a connection

    A side of a connection: the control block, and what has been written to it
    and read from it since it was opened.  Any sequence of calls with any
    arguments answers and keeps the invariants; whoever the packets come from,
    what is received stays within the window that was offered. *)

From S2P Require Import Prelude Epoch Wire Checksum Ip Packets TcpPackets LinkPackets Address Congestion TransportState Transport Serial TransportReceive TransportSend TransportInv TransportPackets TransportOps TransportIngress.
Import Connection.

Inductive call :=
  | ActiveOpen (local peer : Endpoint.t) (iss now : Z) | PassiveOpen (local : Endpoint.t) (iss now : Z) | RearmListener (iss now : Z)
  | Abort | Write (input : Span.t) | ShutdownWrite | Read (output : Span.t)
  | ReceivePacket (packet : Span.t) (now : Z) | Tick (now : Z) | Prepare (output : Span.t) (now identification : Z)
  | CompleteTransmit (token : Z) (accepted : bool) (now : Z).

(** The types of the arguments. *)
Definition call_ok (x : call) : Prop :=
  match x with
  | ActiveOpen local peer iss _ => endpoint_ok local /\ endpoint_ok peer /\ u32 iss
  | PassiveOpen local iss _ => endpoint_ok local /\ u32 iss
  | RearmListener iss _ => u32 iss
  | Write input => bytes_ok (Span.bytes input)
  | ReceivePacket packet _ => bytes_ok (Span.bytes packet)
  | Prepare _ _ identification => 0 <= identification < 65536
  | _ => True
  end.

Record side (Policy : Type) := Side { conn : t Policy; written : Bytes; delivered : Bytes }.
Arguments Side {Policy} _ _ _.
Arguments conn {Policy} _.
Arguments written {Policy} _.
Arguments delivered {Policy} _.

Section History.
Context {Policy : Type} `{CongestionLaws Policy} `{Arch} (initial : Policy) (SC RC SG : Z) (self sizeof_self mss_address payload_address : Z).
Context (HSC : 0 < SC <= 65535) (HRC : 0 < RC <= 65535) (HSG : 0 < SG <= 1460).
Local Abbreviation t := (t Policy).
Local Abbreviation side := (side Policy).
Implicit Types c : t.
Implicit Types s : side.

Definition with_conn (c : t) (s : side) : side := Side c (written s) (delivered s).
Definition open_with (s : side) (r : t * Status) : side := if status_ok r.2 then Side r.1 [] [] else with_conn r.1 s.

(** A call, and the packets it emits. *)
Definition step (s : side) (x : call) : option (side * list Bytes) :=
  match x with
  | ActiveOpen local peer iss now => Some (open_with s (active_open initial SG (conn s) local peer iss now), [])
  | PassiveOpen local iss now => Some (open_with s (passive_open initial SG (conn s) local iss now), [])
  | RearmListener iss now => Some (with_conn (rearm_listener (conn s) iss now).1 s, [])
  | Abort => Some (with_conn (abort (conn s)).1 s, [])
  | Write input =>
      let '(c, n) := write SC self sizeof_self (conn s) input in
      Some (Side c (written s ++ match n with Ok n => first (Span.bytes input) n | Err _ => [] end) (delivered s), [])
  | ShutdownWrite => Some (with_conn (shutdown_write (conn s)).1 s, [])
  | Read output =>
      let '(c, bytes) := read RC self sizeof_self (conn s) output in
      Some (Side c (written s) (delivered s ++ match bytes with Ok bytes => bytes | Err _ => [] end), [])
  | ReceivePacket packet now => '(c, _) ← receive initial SC RC SG self sizeof_self (conn s) packet now; Some (with_conn c s, [])
  | Tick now => Some (with_conn (tick initial SG (conn s) now).1 s, [])
  | Prepare output now identification =>
      '(c, o, r) ← prepare initial SC RC SG self sizeof_self mss_address payload_address (conn s) output now identification;
      Some (with_conn c s, match r with Ok (Some p) => [first o (PreparedPacket.length p)] | _ => [] end)
  | CompleteTransmit token accepted now => Some (with_conn (complete_transmit SG (conn s) token accepted now).1 s, [])
  end.

Fixpoint run (s : side) (calls : list call) : option side :=
  match calls with
  | [] => Some s
  | x :: calls => '(s, _) ← step s x; run s calls
  end.
Definition constructed : side := Side (new initial SC RC) [] [].

(** ** Whoever sends *)
Definition any_byte (_ _ : Z) : Prop := True.
Definition any_end (_ : Z) : Prop := True.
Definition rcv_safe (R : Z) (c : t) : Prop := exists iss, 0 <= iss < 4294967296 /\ rcv_ok RC iss any_byte any_end R c.

(** While it waits for a SYN a connection may receive any stream. *)
Lemma rcv_any R c iss holds ends : rcv_safe R c -> state_ c = State.listen \/ state_ c = State.syn_sent -> rcv_ok RC iss holds ends R c.
Proof.
  intros (i & _ & [S _ _ _ Hs]) Hst. assert (fresh R c) as (F1 & F2 & F3 & ->) by (unfold by_state in Hs; by destruct Hst as [Hx | Hx]; rewrite Hx in Hs).
  split; try done; try congruence; [| unfold by_state; by destruct Hst as [-> | ->]]. intros p Hp. lia.
Qed.

Lemma any_fits R c source seg : rcv_safe R c -> typed_tcp seg -> exists iss, 0 <= iss < 4294967296 /\ rcv_ok RC iss any_byte any_end R c /\ fits iss any_byte any_end R c source seg.
Proof.
  intros Hr Ht. destruct Ht as ((_ & _ & Hsq & _) & _). destruct (decide (state_ c = State.listen \/ state_ c = State.syn_sent)) as [Hst | Hst].
  - exists (TcpFields.sequence (Tcp.fields seg)). split; [exact Hsq |]. split; [by apply rcv_any |]. intros _. split; [done | tauto].
  - destruct Hr as (iss & Hi & Hr). exists iss. split; [done |]. split; [done |]. intros _. split; [tauto |]. intros _ _ _ _ _.
    destruct (seqno_around iss (1 + (R + rx_size_ c)) (TcpFields.sequence (Tcp.fields seg)) Hsq) as (q & Hq & Hd). exists (q - 1). split; [lia |].
    split; [by replace (1 + (q - 1)) with q by lia | done].
Qed.

(** Who a connection is, whatever a call does: its initial number, its local
    endpoint, and that its own stream is complete. *)
Definition same_identity (c c' : t) : Prop :=
  iss_ c' = iss_ c /\ local_ c' = local_ c /\ (write_shutdown_ c = true -> write_shutdown_ c' = true).
Lemma kept_identity c c' : kept RC c c' -> same_identity c c'.
Proof. by intros (? & ? & ? & _). Qed.

Lemma receive_ok W R c packet now : conn_ok SC SG W c -> rcv_safe R c -> bytes_ok (Span.bytes packet) ->
  exists c' i, receive initial SC RC SG self sizeof_self c packet now = Some (c', i) /\ conn_ok SC SG W c' /\ rcv_safe R c' /\ same_identity c c'.
Proof.
  intros Hc Hr Hb. rewrite receive_packet. do 3 (case_cond; [by do 2 eexists |]). destruct (tcp_packet_total _ Hb) as ([[[from to] seg] | e] & -> & Ht); [| by do 2 eexists].
  destruct Ht as (Hfrom & _ & Hfam & Hseg). destruct (any_fits R c (Endpoint.mk from (TcpFields.source_port (Tcp.fields seg))) seg Hr Hseg) as (iss & Hi & Hrc & Hfit).
  destruct (ingress_ok initial SC RC SG HSC HRC HSG iss any_byte any_end R W c from to seg now Hc Hrc E Hfrom Hfam Hseg Hfit) as (c' & i & -> & ? & ? & ? & ? & _ & ?).
  exists c', i. split; [done |]. split; [done |]. split; [by exists iss | done].
Qed.

(** ** Every call *)
Definition safe (s : side) : Prop := bytes_ok (written s) /\ conn_ok SC SG (written s) (conn s) /\ rcv_safe (zlen (delivered s)) (conn s).

Lemma rcv_safe_kept R c c' : kept RC c c' -> rcv_safe R c -> rcv_safe R c'.
Proof. intros Hk (iss & Hi & Hr). exists iss. split; [done |]. by apply Hk. Qed.
Lemma safe_kept s c' : safe s -> conn_ok SC SG (written s) c' -> kept RC (conn s) c' -> safe (with_conn c' s).
Proof. intros (Hb & _ & Hr) Hc Hk. split; [done |]. split; [done |]. by apply (rcv_safe_kept _ (conn s)). Qed.

Lemma constructed_safe : safe constructed.
Proof.
  split; [apply Forall_nil_2 |]. split.
  - split; try done.
    + split; [split; [cbn; rewrite zlen_replicate; lia | cbn; lia] |]. by split.
    + pose proof endpoint_none_ok. unfold wire_ok. cbn. split_and!; try done. by intros [? | ?].
  - exists 0. split; [lia |]. split; try done. unfold shaped. cbn. rewrite zlen_replicate. split_and!; lia || done.
Qed.

Lemma rearm_ok W c iss now : conn_ok SC SG W c -> u32 iss -> conn_ok SC SG W (rearm_listener c iss now).1 /\
  forall R, rcv_safe R c -> rcv_safe R (rearm_listener c iss now).1.
Proof.
  intros Hc Hi. unfold rearm_listener. case_cond; [done |]. case_cond; [done |]. cbn [fst].
  apply orb_false_iff in E as [E _]. apply orb_false_iff in E as [E _]. apply orb_false_iff in E as [Hp Hst]. apply negb_false_iff, bool_decide_eq_true in Hst.
  pose proof (snd_position _ _ _ (ok_sends _ _ _ _ Hc)) as Hs. unfold send_state in Hs. rewrite Hst in Hs. destruct Hs as [(HW & Htx & _ & Hws & Hfa & _) _].
  split.
  - subst W. keep Hc.
    + split; [exact (snd_shape _ _ _ (ok_sends _ _ _ _ Hc)) |]. split; [exact Hi |]. unfold send_state. cbn. rewrite Hst. split; [by apply start_opening | done].
    + pose proof (ok_timer _ _ _ _ Hc) as K. unfold timer_ok in *. cbn. rewrite K, Z.eqb_refl.
      pose proof (snd_position _ _ _ (ok_sends _ _ _ _ Hc)) as Hs. unfold send_state in Hs. rewrite Hst in Hs. destruct Hs as [(_ & _ & Hu & _) Hm]. by rewrite Hu, Hm, Z.eqb_refl.
    + cbn. by rewrite Hp.
  - intros R (i & Hi' & Hr). exists i. split; [done |]. by apply (rcv_ext _ _ _ _ R c).
Qed.

(** What a successful open starts from. *)
Lemma opened_safe s c' : safe s -> receive_side c' = receive_side (reset_fields initial SG (conn s)) -> state_ c' = State.listen \/ state_ c' = State.syn_sent ->
  conn_ok SC SG [] c' -> safe (Side c' [] []).
Proof.
  intros (_ & _ & iss & Hi & Hr) Hrs Hst Hc. split; [apply Forall_nil_2 |]. split; [done |]. exists iss. split; [done |].
  pose proof (rcv_shape _ _ _ _ _ _ Hr) as (? & _ & _ & ? & _). apply rcv_opened; cbn [conn]; by rewrite ?Hrs.
Qed.
Lemma active_open_safe s local peer iss now : safe s -> endpoint_ok local -> endpoint_ok peer -> u32 iss ->
  safe (open_with s (active_open initial SG (conn s) local peer iss now)).
Proof.
  intros Hs Hl Hp Hi. unfold open_with. destruct (active_open initial SG (conn s) local peer iss now) as [c st] eqn:Ho. cbn [fst snd].
  destruct (status_ok st) eqn:Hst.
  - assert (st = StatusCode.ok) as -> by (by destruct st). apply (opened_safe s); [done | | | by apply (active_open_ok initial SC SG HSC HSG (written s) (conn s) local peer iss now); [apply Hs | ..]];
      unfold active_open in Ho; do 3 (case_in Ho; [done |]); injection Ho as <-; [done | by right].
  - assert (c = conn s) as -> by (unfold active_open in Ho; do 3 (case_in Ho; [by injection Ho |]); by injection Ho as <- <-). by destruct s.
Qed.
Lemma passive_open_safe s local iss now : safe s -> endpoint_ok local -> u32 iss -> safe (open_with s (passive_open initial SG (conn s) local iss now)).
Proof.
  intros Hs Hl Hi. unfold open_with. destruct (passive_open initial SG (conn s) local iss now) as [c st] eqn:Ho. cbn [fst snd].
  destruct (status_ok st) eqn:Hst.
  - assert (st = StatusCode.ok) as -> by (by destruct st). apply (opened_safe s); [done | | | by apply (passive_open_ok initial SC SG HSC HSG (written s) (conn s) local iss now); [apply Hs | ..]];
      unfold passive_open in Ho; do 3 (case_in Ho; [done |]); injection Ho as <-; [done | by left].
  - assert (c = conn s) as -> by (unfold passive_open in Ho; do 3 (case_in Ho; [by injection Ho |]); by injection Ho as <- <-). by destruct s.
Qed.

Lemma write_safe s input : safe s -> bytes_ok (Span.bytes input) -> exists s', step s (Write input) = Some (s', []) /\ safe s'.
Proof.
  intros (Hb & Hc & Hr) Hi. cbn [step]. pose proof (write_kept SC RC self sizeof_self (conn s) input) as Hk.
  destruct (write SC self sizeof_self (conn s) input) as [c' n] eqn:Hw. cbn [fst] in Hk. eexists. split; [done |].
  destruct (write_keeps SC SG HSC self sizeof_self (written s) (conn s) input c' n Hc Hw) as [Hok _]. split; [| split; [| by apply (rcv_safe_kept _ (conn s))]]; cbn [written conn].
  - apply bytes_ok_app. split; [done |]. destruct n; [by apply Forall_take | apply Forall_nil_2].
  - destruct n as [k | e]; [apply Hok | subst c'; by rewrite app_nil_r].
Qed.
Lemma read_safe s output : safe s -> exists s', step s (Read output) = Some (s', []) /\ safe s'.
Proof.
  intros (Hb & Hc & iss & Hi & Hr). cbn [step]. pose proof (read_ok SC RC SG self sizeof_self (written s) (conn s) output Hc) as Hok.
  destruct (read RC self sizeof_self (conn s) output) as [c' r] eqn:Hd. cbn [fst] in Hok. pose proof (read_spec RC HRC iss any_byte any_end self sizeof_self _ (conn s) output c' r Hr Hd) as Hs.
  eexists. split; [done |]. split; [done |]. split; [done |]. exists iss. split; [done |]. cbn [conn delivered]. rewrite zlen_app.
  destruct r as [bytes | e]; [apply Hs | subst c'; change (zlen (@nil Z)) with 0; by rewrite Z.add_0_r].
Qed.

Lemma step_safe s x : safe s -> call_ok x -> exists s' out, step s x = Some (s', out) /\ safe s'.
Proof.
  intros Hs Hx. pose proof Hs as (Hb & Hc & Hr). destruct x; cbn in Hx.
  - destruct Hx as (? & ? & ?). do 2 eexists. split; [done |]. by apply active_open_safe.
  - destruct Hx as (? & ?). do 2 eexists. split; [done |]. by apply passive_open_safe.
  - do 2 eexists. split; [done |]. destruct (rearm_ok (written s) (conn s) iss now Hc Hx) as [? ?]. split; [done |]. match goal with Hx : forall R, rcv_safe R _ -> _ |- _ => by split; [| apply Hx] end.
  - do 2 eexists. split; [done |]. apply safe_kept; [done | | by apply abort_kept].
    unfold abort. destruct (Plan.active (plan_ (conn s))) eqn:Hp; [exact Hc | by apply terminate_ok].
  - destruct (write_safe s input Hs Hx) as (s' & -> & ?). by eauto.
  - do 2 eexists. split; [done |]. apply safe_kept; [done | by apply shutdown_ok | by apply shutdown_kept].
  - destruct (read_safe s output Hs) as (s' & -> & ?). by eauto.
  - cbn [step]. destruct (receive_ok (written s) _ (conn s) packet now Hc Hr Hx) as (c' & i & -> & ? & ? & _). do 2 eexists. split; [done |]. by split.
  - do 2 eexists. split; [done |]. apply safe_kept; [done | by apply (tick_ok initial SC SG HSC HSG) | by apply (tick_kept initial SC RC SG HSC HRC HSG (written s))].
  - cbn [step]. destruct (prepare_ok initial SC RC SG self sizeof_self mss_address payload_address HSC HRC HSG (written s) (conn s) output now identification Hc Hb Hx)
      as (c' & o & r & -> & ? & ? & _). do 2 eexists. split; [done |]. by apply safe_kept.
  - do 2 eexists. split; [done |]. apply safe_kept; [done | by eapply complete_transmit_ok | by eapply complete_kept].
Qed.

(** A call that does not open the connection again: what was written grows at
    the end, and not once the stream is complete; packets carry what was written. *)
Definition opens (x : call) : bool := match x with ActiveOpen _ _ _ _ | PassiveOpen _ _ _ | RearmListener _ _ => true | _ => false end.
Definition grows (s s' : side) : Prop :=
  exists more, written s' = written s ++ more /\ (write_shutdown_ (conn s) = true -> more = []) /\ same_identity (conn s) (conn s').
Lemma grows_same s c' : same_identity (conn s) c' -> grows s (with_conn c' s).
Proof. intros Hi. exists []. cbn. rewrite app_nil_r. by split_and!. Qed.

Lemma step_grows s x s' out : safe s -> call_ok x -> opens x = false -> step s x = Some (s', out) -> grows s s' /\ Forall (own_packet (written s') (conn s')) out.
Proof.
  intros Hs Hx Ho. pose proof Hs as (Hb & Hc & Hr).
  destruct x; try done; cbn in Hx; cbn [step].
  - intros [= <- <-]. split; [by apply grows_same, kept_identity, abort_kept | apply Forall_nil_2].
  - pose proof (write_kept SC RC self sizeof_self (conn s) input) as Hk. destruct (write SC self sizeof_self (conn s) input) as [c' n] eqn:Hw. cbn [fst] in Hk.
    intros [= <- <-]. split; [| apply Forall_nil_2]. eexists. split; [reflexivity |]. split; [| by apply kept_identity].
    intros Hws. destruct (write_keeps SC SG HSC self sizeof_self (written s) (conn s) input c' n Hc Hw) as [Hok _]. destruct n as [k | e]; [| done].
    destruct Hok as (_ & _ & Hsh). by destruct (Hsh Hws) as [-> _].
  - intros [= <- <-]. split; [by apply grows_same, kept_identity, shutdown_kept | apply Forall_nil_2].
  - pose proof (read_identity RC self sizeof_self (conn s) output) as (? & ? & Hws & _). destruct (read RC self sizeof_self (conn s) output) as [c' r].
    intros [= <- <-]. split; [| apply Forall_nil_2]. exists []. cbn in *. rewrite app_nil_r. unfold same_identity. cbn. rewrite Hws. by split_and!.
  - destruct (receive_ok (written s) _ (conn s) packet now Hc Hr Hx) as (c' & i & -> & _ & _ & ?). intros [= <- <-]. split; [by apply grows_same | apply Forall_nil_2].
  - intros [= <- <-]. split; [apply grows_same, kept_identity; by apply (tick_kept initial SC RC SG HSC HRC HSG (written s)) | apply Forall_nil_2].
  - destruct (prepare_ok initial SC RC SG self sizeof_self mss_address payload_address HSC HRC HSG (written s) (conn s) output now identification Hc Hb Hx)
      as (c' & o & r & -> & ? & ? & Hp). intros [= <- <-]. split; [by apply grows_same, kept_identity |]. destruct r as [[p |] | e]; [| apply Forall_nil_2 ..].
    apply Forall_cons_2; [exact Hp | apply Forall_nil_2].
  - intros [= <- <-]. split; [apply grows_same, kept_identity; by eapply complete_kept | apply Forall_nil_2].
Qed.

Lemma run_safe calls : Forall call_ok calls -> forall s, safe s -> exists s', run s calls = Some s' /\ safe s'.
Proof.
  induction 1 as [| x calls Hx _ IH]; intros s Hs; [by exists s |]. cbn [run]. destruct (step_safe s x Hs Hx) as (s' & out & -> & Hs'). cbn [mbind option_bind]. by apply IH.
Qed.
End History.
