(* ===== verification/TransportWorld.v ===== *)
(** * Two connections and a network

    Side [a] sends, side [b] receives; every packet [a] emits may be delivered
    to [b] never, once or often, in any order and with bytes added behind it,
    and so may any packet that does not come from the endpoint of [a].  What
    [a] receives is arbitrary. *)

From S2P Require Import Prelude Epoch Wire Checksum Ip Packets TcpPackets LinkPackets Address Congestion TransportState Transport Serial TransportReceive TransportSend TransportInv TransportPackets TransportOps TransportIngress TransportHistory.
Import Connection.

(** Streams are shorter than a quarter of the sequence space, so that no old
    segment can be mistaken for a new one. *)
Definition stream_limit : Z := 1073741824.

Record world (Policy : Type) := World { a : side Policy; b : side Policy; sent : list Bytes; answered : list Bytes }.
Arguments World {Policy} _ _ _ _.
Arguments a {Policy} _.
Arguments b {Policy} _.
Arguments sent {Policy} _.
Arguments answered {Policy} _.

Section World.
Context {Policy : Type} `{CongestionLaws Policy} `{Arch} (initial : Policy) (SC RC SG : Z) (self sizeof_self mss_address payload_address : Z).
Context (HSC : 0 < SC <= 65535) (HRC : 0 < RC <= 65535) (HSG : 0 < SG <= 1460).
Local Abbreviation t := (t Policy).
Local Abbreviation side := (side Policy).
Local Abbreviation world := (world Policy).
Implicit Types c : t.
Implicit Types s : side.
Implicit Types w : world.
Local Notation "'step'" := (step initial SC RC SG self sizeof_self mss_address payload_address).
Local Notation "'run'" := (run initial SC RC SG self sizeof_self mss_address payload_address).
Local Notation "'constructed'" := (constructed initial SC RC).
Local Notation "'safe'" := (safe SC RC SG).

(** A side that has been opened, after any history. *)
Definition just_opened (s : side) : Prop :=
  (exists calls, Forall call_ok calls /\ run constructed calls = Some s) /\ (state_ (conn s) = State.listen \/ state_ (conn s) = State.syn_sent).

(** Nobody else sends from the endpoint of [a]. *)
Definition no_forgery (w : world) (packet : Bytes) : Prop := forall from to seg, tcp_packet packet = Some (Ok (from, to, seg)) ->
  Endpoint.mk from (TcpFields.source_port (Tcp.fields seg)) = local_ (conn (a w)) -> exists p padding, In p (sent w) /\ packet = p ++ padding.

Inductive reachable : world -> Prop :=
  | reach_start s s' : just_opened s -> just_opened s' -> reachable (World s s' [] [])
  | reach_a w x s out : reachable w -> call_ok x -> opens x = false -> step (a w) x = Some (s, out) -> reachable (World s (b w) (sent w ++ out) (answered w))
  | reach_b w x s out : reachable w -> call_ok x -> opens x = false -> (forall packet now, x = ReceivePacket packet now -> no_forgery w (Span.bytes packet)) ->
      step (b w) x = Some (s, out) -> reachable (World (a w) s (sent w) (answered w ++ out)).

(** ** The stream of [a] *)
Definition holds (W : Bytes) (p x : Z) : Prop := 0 <= p < zlen W /\ x = W.[p].
Definition ends (W : Bytes) (closed : bool) (p : Z) : Prop := closed = true /\ p = zlen W.
Definition stream_ok (sender receiver : side) : Prop :=
  rcv_ok RC (iss_ (conn sender)) (holds (written sender)) (ends (written sender) (write_shutdown_ (conn sender))) (zlen (delivered receiver)) (conn receiver) /\
  exists more, written sender = delivered receiver ++ more.

Record inv (w : world) : Prop := {
  inv_a : safe (a w);
  inv_b : safe (b w);
  inv_local : valid_endpoint (local_ (conn (a w))) = true;
  inv_sent : Forall (own_packet (written (a w)) (conn (a w))) (sent w);
  inv_stream : peer_ (conn (b w)) = local_ (conn (a w)) -> zlen (written (a w)) <= stream_limit -> stream_ok (a w) (b w)
}.

Lemma listen_stream sender s : safe s -> state_ (conn s) = State.listen \/ state_ (conn s) = State.syn_sent -> stream_ok sender s.
Proof.
  intros (_ & _ & Hr) Hst. split; [by apply rcv_any |]. destruct Hr as (i & _ & Hr). pose proof (rcv_state _ _ _ _ _ _ Hr) as Hs. unfold by_state in Hs.
  assert (zlen (delivered s) = 0) as Hz by (destruct Hst as [Hx | Hx]; rewrite Hx in Hs; apply Hs).
  exists (written sender). destruct (delivered s); [done |]. rewrite zlen_cons in Hz. pose proof (zlen_nonneg l). lia.
Qed.

(** ** The sender *)
Lemma carries_more iss W more closed closed' f data : (closed = true -> more = []) -> (closed = true -> closed' = true) ->
  carries iss W closed f data -> carries iss (W ++ more) closed' f data.
Proof.
  intros Hm Hc [H1' H2]. split; [done |]. intros Hx. destruct (H2 Hx) as (q & Hq & Hl & Hs & Hd & Hf). pose proof (zlen_nonneg more). pose proof (zlen_nonneg data).
  exists q. split_and!; try done.
  - rewrite zlen_app. lia.
  - rewrite Hd at 1. unfold subspan. rewrite drop_app_le by (unfold zlen in *; lia). symmetry. apply take_app_le. rewrite length_drop. unfold zlen in *. lia.
  - intros Hfin. destruct (Hf Hfin) as [Hcl Hq']. rewrite (Hm Hcl), app_nil_r. auto.
Qed.

Lemma own_packet_more s s' packet : grows s s' -> own_packet (written s) (conn s) packet -> own_packet (written s') (conn s') packet.
Proof.
  intros (more & Hw & Hm & Hi & Hl & Hws) (to & f & data & Hd & Hp & Hc). exists to, f, data. rewrite Hl, Hi, Hw. split_and!; try done.
  by apply (carries_more _ _ _ (write_shutdown_ (conn s))).
Qed.

Lemma stream_more s s' receiver : grows s s' -> stream_ok s receiver -> stream_ok s' receiver.
Proof.
  intros (more & Hw & Hm & Hi & Hl & Hws) (Hr & m & Hp). split; [| exists (m ++ more); by rewrite Hw, Hp, app_assoc]. rewrite Hi. revert Hr. apply rcv_mono.
  - intros p x [Hp' ->]. pose proof (zlen_nonneg more). split; [rewrite Hw, zlen_app; lia |]. rewrite Hw. by rewrite aget_app_l.
  - intros p [Hc ->]. split; [auto |]. by rewrite Hw, (Hm Hc), app_nil_r.
Qed.

Lemma inv_at_a w x s out : inv w -> call_ok x -> opens x = false -> step (a w) x = Some (s, out) -> inv (World s (b w) (sent w ++ out) (answered w)).
Proof.
  intros [Ha Hb Hl Hs Hi] Hx Ho Hstep. destruct (step_safe initial SC RC SG self sizeof_self mss_address payload_address HSC HRC HSG (a w) x Ha Hx) as (s' & out' & Hst & Hsafe).
  rewrite Hstep in Hst. injection Hst as <- <-.
  destruct (step_grows initial SC RC SG self sizeof_self mss_address payload_address HSC HRC HSG (a w) x s out Ha Hx Ho Hstep) as [Hg Hout]. pose proof Hg as (more & Hw & _ & _ & Hloc & _).
  split; cbn [a b sent]; try done.
  - by rewrite Hloc.
  - apply Forall_app. split; [| done]. eapply Forall_impl; [exact Hs |]. intros p. by apply own_packet_more.
  - rewrite Hloc. intros Hp Hz. apply (stream_more (a w)); [done |]. apply Hi; [done |]. rewrite Hw, zlen_app in Hz. pose proof (zlen_nonneg more). lia.
Qed.

(** ** The receiver *)
Lemma step_kept s x s' out : safe s -> call_ok x -> opens x = false -> (forall packet now, x <> ReceivePacket packet now) -> (forall output, x <> Read output) ->
  step s x = Some (s', out) -> kept RC (conn s) (conn s') /\ delivered s' = delivered s.
Proof.
  intros (Hb & Hc & _) Hx Ho Hnr Hnd. destruct x; try done; try (by destruct (Hnr packet now)); try (by destruct (Hnd output)); cbn [TransportHistory.step]; cbn in Hx.
  - intros [= <- <-]. split; [by apply abort_kept | done].
  - pose proof (write_kept SC RC self sizeof_self (conn s) input) as Hk. destruct (write SC self sizeof_self (conn s) input) as [c' n]. by intros [= <- <-].
  - intros [= <- <-]. split; [by apply shutdown_kept | done].
  - intros [= <- <-]. split; [by apply (tick_kept initial SC RC SG HSC HRC HSG (written s)) | done].
  - destruct (prepare_ok initial SC RC SG self sizeof_self mss_address payload_address HSC HRC HSG (written s) (conn s) output now identification Hc Hb Hx)
      as (c' & o & r & -> & ? & ? & _). by intros [= <- <-].
  - intros [= <- <-]. split; [by eapply complete_kept | done].
Qed.

Lemma stream_kept sender s s' : kept RC (conn s) (conn s') -> delivered s' = delivered s -> stream_ok sender s -> stream_ok sender s'.
Proof. intros Hk Hd (Hr & Hm). unfold stream_ok. rewrite Hd. split; [by apply Hk | done]. Qed.

(** Reading takes the next bytes of the stream. *)
Lemma stream_read sender s c' r output : stream_ok sender s -> read RC self sizeof_self (conn s) output = (c', r) ->
  stream_ok sender (Side c' (written s) (delivered s ++ match r with Ok bytes => bytes | Err _ => [] end)) /\
  (r = Ok [] -> Span.size output <> 0 -> delivered s = written sender /\ write_shutdown_ (conn sender) = true).
Proof.
  intros (Hr & more & Hm) Hd. pose proof (read_spec _ HRC _ _ _ _ _ _ _ _ _ _ Hr Hd) as Hs. pose proof (zlen_nonneg more). destruct r as [bytes | e].
  - destruct Hs as (Hr' & Hk & He). split.
    + split; [cbn [delivered conn]; by rewrite zlen_app |]. cbn [delivered]. exists (rest more (zlen bytes)). rewrite Hm, <- app_assoc. f_equal.
      assert (zlen bytes <= zlen more) as Hle.
      { destruct (decide (zlen bytes = 0)); [lia |]. pose proof (zlen_nonneg bytes). destruct (Hk (zlen bytes - 1) ltac:(lia)) as [Hx _]. rewrite Hm, zlen_app in Hx. lia. }
      rewrite <- (take_drop (length bytes) more) at 1. unfold rest. replace (Z.to_nat (zlen bytes)) with (length bytes) by (unfold zlen; lia). f_equal.
      symmetry. apply list_eq_aget; [rewrite zlen_take; unfold zlen in *; lia |]. intros k Hr0. destruct (Hk k Hr0) as [_ ->].
      rewrite Hm, aget_app_r, aget_take by (unfold zlen in *; lia). f_equal. lia.
    + intros [= ->] Hz. destruct (He eq_refl Hz) as [Hc Hl]. split; [| done]. rewrite Hm, zlen_app in Hl. destruct more; [by rewrite Hm, app_nil_r |].
      rewrite zlen_cons in Hl. pose proof (zlen_nonneg more). lia.
  - subst c'. split; [| done]. cbn [delivered]. rewrite app_nil_r. split; [exact Hr | by exists more].
Qed.

Lemma stream_position sender s : stream_ok sender s -> 0 <= zlen (delivered s) + rx_size_ (conn s) <= zlen (written sender).
Proof.
  intros (Hr & more & Hm). pose proof (rcv_shape _ _ _ _ _ _ Hr) as (_ & _ & Hs & _). pose proof (zlen_nonneg (delivered s)). pose proof (zlen_nonneg more).
  split; [lia |]. destruct (decide (rx_size_ (conn s) = 0)); [rewrite Hm, zlen_app; lia |].
  destruct (rcv_unread _ _ _ _ _ _ Hr (zlen (delivered s) + rx_size_ (conn s) - 1) ltac:(lia)) as [Hx _]. lia.
Qed.

Lemma carried_fits sender s source f options data : stream_ok sender s -> zlen (written sender) <= stream_limit ->
  carries (iss_ (conn sender)) (written sender) (write_shutdown_ (conn sender)) f data ->
  fits (iss_ (conn sender)) (holds (written sender)) (ends (written sender) (write_shutdown_ (conn sender))) (zlen (delivered s)) (conn s) source (Tcp.mk f options data).
Proof.
  intros Hs Hl [Hsyn Hdata] _. split; [intros _ Hx; by apply Hsyn |]. intros _ _ _ _ Hx. destruct (Hdata Hx) as (q & Hq & Hfit & Hseq & Hd & Hf).
  pose proof (stream_position sender s Hs). pose proof (zlen_nonneg data). unfold stream_limit in Hl. exists q. split; [lia |]. split; [exact Hseq |]. split; cbn [Tcp.payload].
  - intros k Hk. split; [lia |]. rewrite Hd. apply aget_subspan; lia.
  - intros Hfin. destruct (Hf Hfin). by split.
Qed.

(** A segment that claims to come from [a] was sent by it. *)
Lemma genuine_fits w packet from to seg : inv w -> stream_ok (a w) (b w) -> zlen (written (a w)) <= stream_limit -> no_forgery w packet -> tcp_packet packet = Some (Ok (from, to, seg)) ->
  let source := Endpoint.mk from (TcpFields.source_port (Tcp.fields seg)) in
  state_ (conn (b w)) = State.listen /\ source = local_ (conn (a w)) \/ state_ (conn (b w)) <> State.listen /\ peer_ (conn (b w)) = local_ (conn (a w)) ->
  fits (iss_ (conn (a w))) (holds (written (a w))) (ends (written (a w)) (write_shutdown_ (conn (a w)))) (zlen (delivered (b w))) (conn (b w)) source seg.
Proof.
  intros Hi Hs Hl Hn Hp source Hc Hsrc. assert (source = local_ (conn (a w))) as He by (destruct Hc as [[_ ?] | [? <-]]; [done | by destruct Hsrc]).
  destruct (Hn from to seg Hp He) as (p & padding & Hin & ->).
  assert (own_packet (written (a w)) (conn (a w)) p) as (to' & f & data & Hdel & _ & Hcar) by (apply (proj1 (List.Forall_forall _ _) (inv_sent _ Hi) p Hin)).
  destruct (Hdel padding) as (options & Hd). rewrite Hd in Hp. injection Hp as <- <- <-. exact (carried_fits (a w) (b w) source f options data Hs Hl Hcar Hsrc).
Qed.

Lemma stream_receive w packet now c' i : inv w -> bytes_ok (Span.bytes packet) -> no_forgery w (Span.bytes packet) -> safe (with_conn c' (b w)) ->
  receive initial SC RC SG self sizeof_self (conn (b w)) packet now = Some (c', i) -> peer_ c' = local_ (conn (a w)) -> zlen (written (a w)) <= stream_limit ->
  stream_ok (a w) (with_conn c' (b w)).
Proof.
  intros Hi Hb Hn Hsafe Hrec Hpeer Hl. pose proof (inv_b _ Hi) as (Hbw & Hbc & Hbr). rewrite receive_packet in Hrec.
  assert (c' = conn (b w) -> stream_ok (a w) (with_conn c' (b w))) as Hsame.
  { intros ->. destruct (inv_stream _ Hi Hpeer Hl) as [? ?]. by split. }
  do 3 (case_in Hrec; [injection Hrec as <- _; by apply Hsame |]). destruct (tcp_packet_total _ Hb) as ([[[from to] seg] | e] & Hp & Ht); rewrite Hp in Hrec; [| injection Hrec as <- _; by apply Hsame].
  destruct Ht as (Hfrom & _ & Hfam & Hseg). set (source := Endpoint.mk from (TcpFields.source_port (Tcp.fields seg))) in *.
  destruct (decide (state_ (conn (b w)) = State.listen /\ source = local_ (conn (a w)) \/ state_ (conn (b w)) <> State.listen /\ peer_ (conn (b w)) = local_ (conn (a w)))) as [Hc | Hc].
  - assert (stream_ok (a w) (b w)) as Hs by (destruct Hc as [[Hst _] | [_ Hpe]]; [apply listen_stream; [apply Hi | by left] | by apply (inv_stream _ Hi)]).
    destruct (ingress_ok initial SC RC SG HSC HRC HSG _ _ _ _ _ (conn (b w)) from to seg now Hbc (proj1 Hs) E Hfrom Hfam Hseg (genuine_fits w (Span.bytes packet) from to seg Hi Hs Hl Hn Hp Hc))
      as (c1 & i1 & He & _ & _ & _ & _ & _ & Hr). rewrite He in Hrec. injection Hrec as <- _. split; [exact Hr | apply Hs].
  - destruct (any_fits SC RC SG HSC HRC HSG (zlen (delivered (b w))) (conn (b w)) source seg Hbr Hseg) as (iss & _ & Hrc & Hfit).
    destruct (ingress_ok initial SC RC SG HSC HRC HSG iss any_byte any_end _ _ (conn (b w)) from to seg now Hbc Hrc E Hfrom Hfam Hseg Hfit) as (c1 & i1 & He & _ & _ & _ & _ & Hpe & _).
    rewrite He in Hrec. injection Hrec as -> _. fold source in Hpe. destruct Hpe as [[Hpe Hst] | [Hpe | [Hst Hpe]]].
    + destruct (decide (state_ (conn (b w)) = State.listen)) as [Hx |]; [apply listen_stream; [done | left; by apply Hst] |]. exfalso. apply Hc. right. split; congruence.
    + exfalso. pose proof (inv_local _ Hi) as Hv. rewrite <- Hpeer, Hpe in Hv. done.
    + exfalso. apply Hc. left. split; congruence.
Qed.

Lemma inv_at_b w x s out : inv w -> call_ok x -> opens x = false -> (forall packet now, x = ReceivePacket packet now -> no_forgery w (Span.bytes packet)) ->
  step (b w) x = Some (s, out) -> inv (World (a w) s (sent w) (answered w ++ out)).
Proof.
  intros Hi Hx Ho Hn Hstep. destruct (step_safe initial SC RC SG self sizeof_self mss_address payload_address HSC HRC HSG (b w) x (inv_b _ Hi) Hx) as (s' & out' & Hst & Hsafe).
  rewrite Hstep in Hst. injection Hst as <- <-. split; cbn [a b sent]; [exact (inv_a _ Hi) | done | exact (inv_local _ Hi) | exact (inv_sent _ Hi) |]. intros Hpeer Hl.
  assert ((exists p n, x = ReceivePacket p n) \/ (exists o, x = Read o) \/ ((forall p n, x <> ReceivePacket p n) /\ forall o, x <> Read o))
    as [(packet & now & ->) | [(output & ->) | [Hnr Hnd]]] by (destruct x; eauto; right; right; done).
  - cbn [TransportHistory.step] in Hstep. destruct (receive _ _ _ _ _ _ _ _ _) as [[c' i] |] eqn:Hrec; [| done]. injection Hstep as <- <-.
    exact (stream_receive w packet now c' i Hi Hx (Hn packet now eq_refl) Hsafe Hrec Hpeer Hl).
  - cbn [TransportHistory.step] in Hstep. pose proof (read_identity RC self sizeof_self (conn (b w)) output) as (_ & _ & _ & Hpe).
    destruct (read RC self sizeof_self (conn (b w)) output) as [c' r] eqn:Hrd. injection Hstep as <- <-. cbn in Hpeer, Hpe. rewrite Hpe in Hpeer.
    exact (proj1 (stream_read (a w) (b w) c' r output (inv_stream _ Hi Hpeer Hl) Hrd)).
  - destruct (step_kept (b w) x s out (inv_b _ Hi) Hx Ho Hnr Hnd Hstep) as [Hk Hd].
    apply (stream_kept (a w) (b w)); try done. apply (inv_stream _ Hi); [| done]. destruct Hk as (_ & _ & _ & [<- | Hnone] & _); [done |].
    exfalso. pose proof (inv_local _ Hi) as Hv. by rewrite <- Hpeer, Hnone in Hv.
Qed.

Lemma opened_inv s s' : just_opened s -> just_opened s' -> inv (World s s' [] []).
Proof.
  assert (forall s, just_opened s -> safe s) as Hsafe.
  { intros s0 ((calls & Hcalls & Hrun) & _). destruct (run_safe initial SC RC SG self sizeof_self mss_address payload_address HSC HRC HSG calls Hcalls constructed) as (s1 & Hrun' & ?);
      [by apply constructed_safe |]. congruence. }
  intros Hs Hs'. split; cbn [a b sent]; [by apply Hsafe | by apply Hsafe | | apply Forall_nil_2 | intros _ _; apply listen_stream; [by apply Hsafe | apply Hs']].
  destruct (Hsafe s Hs) as (_ & Hc & _). destruct (ok_wire _ _ _ _ Hc) as (_ & _ & _ & Hv & _). apply Hv. left. destruct Hs as [_ [-> | ->]]; done.
Qed.

Lemma reachable_inv w : reachable w -> inv w.
Proof.
  induction 1 as [s s' Hs Hs' | w x s out _ IH Hx Ho Hst | w x s out _ IH Hx Ho Hn Hst]; [by apply opened_inv | by apply (inv_at_a w x) | by apply (inv_at_b w x)].
Qed.

(** ** Scenarios *)
(** A call at either side, or the delivery of a packet of the other one. *)
Inductive event := AtA (x : call) | AtB (x : call) | ToA (i now : Z) | ToB (i now : Z).
Definition event_ok (e : event) : Prop :=
  match e with AtA x => call_ok x /\ opens x = false | AtB x => call_ok x /\ opens x = false /\ forall packet now, x <> ReceivePacket packet now | _ => True end.
Definition happens (w : world) (e : event) : option world :=
  let at_a x := '(s, out) ← step (a w) x; Some (World s (b w) (sent w ++ out) (answered w)) in
  let at_b x := '(s, out) ← step (b w) x; Some (World (a w) s (sent w) (answered w ++ out)) in
  let bytes p := forallb (fun x => (0 <=? x) && (x <? 256)) p in
  match e with
  | AtA x => at_a x
  | AtB x => at_b x
  | ToA i now => let p := (answered w).[i] in if bytes p then at_a (ReceivePacket (Span.mk 0x100000 p) now) else None
  | ToB i now => let p := (sent w).[i] in if (0 <=? i) && (i <? zlen (sent w)) && bytes p then at_b (ReceivePacket (Span.mk 0x100000 p) now) else None
  end.
Fixpoint play (w : world) (events : list event) : option world :=
  match events with
  | [] => Some w
  | e :: events => w ← happens w e; play w events
  end.

Lemma checked_bytes p : forallb (fun x => (0 <=? x) && (x <? 256)) p = true -> bytes_ok p.
Proof. intros Hp. apply List.Forall_forall. intros x Hx. apply (proj1 (forallb_forall _ _) Hp) in Hx. b2p. lia. Qed.

Lemma happens_reachable w e w' : reachable w -> event_ok e -> happens w e = Some w' -> reachable w'.
Proof.
  intros Hw He. unfold happens. destruct e as [x | x | i now | i now]; cbn in He.
  - destruct (step (a w) x) as [[s out] |] eqn:Hst; [| done]. intros [= <-]. by apply (reach_a w x); [| apply He | apply He |].
  - destruct (step (b w) x) as [[s out] |] eqn:Hst; [| done]. intros [= <-]. apply (reach_b w x); [done | apply He | apply He | | done]. intros packet now ->. by destruct (proj2 (proj2 He) packet now).
  - case_cond; [| done]. destruct (step (a w) _) as [[s out] |] eqn:Hst; [| done]. intros [= <-]. eapply (reach_a w); [done | | | exact Hst]; [by apply checked_bytes | done].
  - case_cond; [| done]. apply andb_true_iff in E as [E Hp]. b2p. destruct (step (b w) _) as [[s out] |] eqn:Hst; [| done]. intros [= <-].
    eapply (reach_b w); [done | | | | exact Hst]; [by apply checked_bytes | done |]. intros packet now' [= <- <-] from to seg _ _. exists (sent w).[i], []. rewrite app_nil_r.
    split; [| done]. apply list_elem_of_In, list_elem_of_lookup_total_2. unfold zlen in *. lia.
Qed.
Lemma play_reachable events : Forall event_ok events -> forall w w', reachable w -> play w events = Some w' -> reachable w'.
Proof.
  induction 1 as [| e events He _ IH]; intros w w' Hw; cbn [play]; [by intros [= <-] |]. destruct (happens w e) as [w1 |] eqn:H1'; [| done]. intros Hp. cbn [mbind option_bind] in Hp.
  apply (IH w1); [by apply (happens_reachable w e) | done].
Qed.
End World.
