(* ===== verification/TransportClaims.v ===== *)
(** * Theorems about TCP connections

    A connection answers every call and stays within its bounds, its packets
    carry what was written to it, what is due is sent again, and what one side
    delivers is what the other was given. *)

From S2P Require Import Prelude Epoch Wire Checksum Ip Packets TcpPackets LinkPackets Address Congestion TransportState Transport Serial TransportReceive TransportSend TransportInv TransportPackets TransportOps TransportIngress TransportHistory TransportWorld.
Import Connection.

Section Claims.
Context {Policy : Type} `{CongestionLaws Policy} `{Arch} (initial : Policy) (SC RC SG : Z) (self sizeof_self mss_address payload_address : Z).
Local Abbreviation t := (t Policy).
Local Notation "'run'" := (run initial SC RC SG self sizeof_self mss_address payload_address).
Local Notation "'constructed'" := (constructed initial SC RC).
Local Notation "'prepare'" := (prepare initial SC RC SG self sizeof_self mss_address payload_address).
Implicit Types c : t.

(** The capacities of the template. *)
Definition capacities : Prop := 0 < SC <= 65535 /\ 0 < RC <= 65535 /\ 0 < SG <= 1460.

(** Rings and records within their arrays, no more in flight than is kept for
    retransmission, the timeout within its limits, and the timer armed exactly
    while something is unacknowledged. *)
Definition bounded (c : t) : Prop :=
  0 <= tx_size_ c <= SC /\ 0 <= tx_head_ c < SC /\ 0 <= rx_size_ c <= RC /\ 0 <= rx_head_ c < RC /\ 0 <= ooo_count_ c <= max_out_of_order /\
  (data_state (state_ c) = true -> 0 <= outstanding c <= u32_wrap (snd_max_ c - snd_una_ c) /\ u32_wrap (snd_max_ c - snd_una_ c) <= tx_size_ c + 1) /\
  1000 <= rto_ c <= max_rto_ms /\
  (Timer.active (rtx_ c) = true <-> state_ c <> State.closed /\ snd_una_ c <> snd_max_ c).

Lemma safe_bounded s : capacities -> safe SC RC SG s -> bounded (conn s).
Proof.
  intros (HSC & HRC & HSG) (_ & Hc & iss & _ & Hr). destruct (snd_shape _ _ _ (ok_sends _ _ _ _ Hc)) as (_ & ? & ?). pose proof (rcv_shape _ _ _ _ _ _ Hr) as (_ & ? & ? & _ & ?).
  split_and!; try lia; try apply (ok_rto _ _ _ _ Hc).
  - intros Hd. destruct (open_positions _ _ _ (ok_sends _ _ _ _ Hc) Hd) as (n & m & Ho). destruct (opened_bounds SC SG HSC HSG _ n m _ (ok_sends _ _ _ _ Hc) Ho) as (Hn & Hm & Hmx & _ & _ & Htx).
    pose proof Ho as (_ & Hu & Hnx & Hmax & _). unfold outstanding. rewrite Hu, Hnx, Hmax, !seqno_diff by lia. unfold una in *. destruct (fin_acknowledged_ (conn s)); cbn [Z.b2z] in *; lia.
  - rewrite (ok_timer _ _ _ _ Hc), andb_true_iff, !negb_true_iff, bool_decide_eq_false, Z.eqb_neq. done.
Qed.

(** C5: a connection answers every call.  After any sequence of calls with
    arguments of their types, packets from anyone included, none of them ran
    out of anything, the rings and the records of out-of-order data are within
    their arrays, no more is in flight than is kept for retransmission, the
    timeout is between one and sixty seconds, and the retransmission timer is
    armed exactly while something is unacknowledged. *)
Theorem calls_always_answered calls : capacities -> Forall call_ok calls ->
  exists s, run constructed calls = Some s /\ bounded (conn s).
Proof.
  intros Hcap Hcalls. pose proof Hcap as (HSC & HRC & HSG).
  destruct (run_safe initial SC RC SG self sizeof_self mss_address payload_address HSC HRC HSG calls Hcalls constructed) as (s & Hs & Hsafe); [by apply constructed_safe |].
  exists s. split; [done |]. by apply safe_bounded.
Qed.

(** C12: every packet prepare() emits parses back, whatever follows it, to a
    segment from the local endpoint that belongs to the stream written since
    the connection was opened: payload bytes at their sequence number, a FIN
    only behind the last byte of a stream that was shut down, a SYN only at the
    initial sequence number. *)
Theorem packets_carry_the_stream calls s output now identification c' o p : capacities -> Forall call_ok calls -> run constructed calls = Some s ->
  0 <= identification < 65536 -> prepare (conn s) output now identification = Some (c', o, Ok (Some p)) ->
  exists to f data, delivers (first o (PreparedPacket.length p)) (Endpoint.address (local_ c')) to f data /\
    TcpFields.source_port f = Endpoint.port (local_ c') /\ carries (iss_ c') (written s) (write_shutdown_ c') f data.
Proof.
  intros (HSC & HRC & HSG) Hcalls Hrun Hid Hprep.
  destruct (run_safe initial SC RC SG self sizeof_self mss_address payload_address HSC HRC HSG calls Hcalls constructed) as (s' & Hs & Hsafe); [by apply constructed_safe |].
  rewrite Hrun in Hs. injection Hs as <-. destruct Hsafe as (Hb & Hc & _).
  destruct (prepare_ok initial SC RC SG self sizeof_self mss_address payload_address HSC HRC HSG (written s) (conn s) output now identification Hc Hb Hid) as (c1 & o1 & r & He & _ & _ & Hp).
  rewrite Hprep in He. injection He as <- <- <-. exact Hp.
Qed.

(** ** Retransmission *)
Lemma due_state W c : capacities -> conn_ok SC SG W c -> Timer.active (rtx_ c) = true ->
  (handshake (state_ c) = true \/ exists n m, opened SC W n m c /\ una W c < m) /\ state_ c <> State.closed /\ state_ c <> State.time_wait /\ state_ c <> State.fin_wait_2.
Proof.
  intros (HSC & HRC & HSG) Hc Ht. rewrite (ok_timer _ _ _ _ Hc) in Ht. rewrite andb_true_iff, !negb_true_iff, bool_decide_eq_false, Z.eqb_neq in Ht. destruct Ht as [Hcl Hne].
  assert (state_ c <> State.listen) as Hnl.
  { intros Hl. pose proof (snd_position _ _ _ (ok_sends _ _ _ _ Hc)) as Hp. unfold send_state in Hp. rewrite Hl in Hp. destruct Hp as [(_ & _ & Hu & _) Hm]. congruence. }
  destruct (live_cases c (conj Hcl Hnl)) as [Hh | Hd]; [split; [by left |]; by destruct (state_ c) |].
  destruct (open_positions _ _ _ (ok_sends _ _ _ _ Hc) Hd) as (n & m & Ho). destruct (opened_bounds SC SG HSC HSG _ n m _ (ok_sends _ _ _ _ Hc) Ho) as (Hn & _ & _ & _ & Hfa & _).
  pose proof Ho as (_ & Hu & _ & Hmax & _ & Hph). assert (una W c < m) as Hlt by (destruct (decide (una W c = m)); [congruence | lia]).
  split; [right; by exists n, m |]. unfold fin_phase in Hph.
  split_and!; [done | intros Hx | intros Hx]; rewrite Hx in Hph; destruct (Hfa (proj1 Hph)); lia.
Qed.

Lemma retry_chosen W c now : capacities -> conn_ok SC SG W c -> Timer.active (rtx_ c) = true -> Timer.deadline (rtx_ c) <= now -> reset_pending_ c = false -> pending_syn_ c = false ->
  exists p, choose RC SG now c = (c, Some p) /\ TcpFields.sequence (Plan.fields p) = snd_una_ c /\ Plan.destination p = peer_ c /\ 0 <= Plan.payload p <= SG /\
    (0 < Plan.payload p \/ has (Plan.fields p) (Z.lor tcp_syn tcp_fin) = true).
Proof.
  intros Hcap Hc Ht Hdl Hr Hps. pose proof Hcap as (HSC & HRC & HSG). destruct (due_state W c Hcap Hc Ht) as (Hst & Hcl & _). unfold choose. rewrite Hr, Hps, Ht, (proj2 (Z.leb_le _ _) Hdl). cbn [andb].
  change (match state_ c with State.syn_sent | State.syn_received => true | _ => false end) with (handshake (state_ c)).
  destruct Hst as [Hh | (n & m & Ho & Hlt)].
  - rewrite Hh. eexists. split; [reflexivity |]. cbn. split_and!; try done; try lia. right. unfold has. cbn. by case_cond.
  - assert (handshake (state_ c) = false) as -> by (destruct Ho as (_ & _ & _ & _ & _ & Hph); unfold fin_phase in Hph; by destruct (state_ c)).
    destruct (opened_bounds SC SG HSC HSG _ n m _ (ok_sends _ _ _ _ Hc) Ho) as (Hn & Hm & _ & _ & _ & Htx). destruct (fin_facts SC SG HSC HSG W n m c (ok_sends _ _ _ _ Hc) Ho) as (_ & Hfs & _).
    pose proof (ok_cc _ _ _ _ Hc Hcl) as [_ Hmss]. pose proof Ho as (_ & Hu & _ & Hmax & _). unfold head, segment, segment_of. rewrite Hmax, Hu, seqno_diff, Hfs by lia.
    case_cond.
    + eexists. split; [reflexivity |]. cbn. apply negb_true_iff, Z.eqb_neq in E. split_and!; done || lia.
    + apply negb_false_iff, Z.eqb_eq in E. rewrite (proj2 (Z.ltb_lt _ _)) by lia. eexists. split; [reflexivity |]. cbn. split_and!; try done; lia || by right.
Qed.

Lemma due_tick W c now : capacities -> conn_ok SC SG W c -> Plan.active (plan_ c) = false -> last_now_ c <= now -> Timer.active (rtx_ c) = true -> Timer.deadline (rtx_ c) <= now ->
  if Timer.retries (rtx_ c) <? max_retransmissions then tick initial SG c now = (set_last_now now c, StatusCode.ok)
  else exists c', tick initial SG c now = (c', StatusCode.ok) /\ (state_ c' = State.closed /\ failure_ c' = Failure.timed_out \/ state_ c' = State.listen).
Proof.
  intros Hcap Hc Hp Hn Ht Hd. destruct (due_state W c Hcap Hc Ht) as (_ & _ & Htw & Hf2). unfold tick. rewrite Hp, (proj2 (Z.ltb_ge _ _) Hn). cbv zeta.
  change (state_ (set_last_now now c)) with (state_ c). rewrite (bool_decide_false (state_ c = State.time_wait)) by done. cbn [andb].
  change (rtx_ (set_last_now now c)) with (rtx_ c). rewrite Ht, (proj2 (Z.leb_le _ _) Hd). cbn [andb]. change (state_ (set_last_now now c)) with (state_ c).
  destruct (Z.ltb_spec (Timer.retries (rtx_ c)) max_retransmissions) as [Hlt | Hge].
  - rewrite (proj2 (Z.leb_gt _ _) Hlt). change (state_ (set_last_now now c)) with (state_ c). by rewrite (bool_decide_false (state_ c = State.fin_wait_2)).
  - rewrite (proj2 (Z.leb_le _ _) Hge). destruct (bool_decide (state_ c = State.syn_received) && passive_ (set_last_now now c));
      eexists; (split; [reflexivity |]); [by right | by left].
Qed.

(** C13: what is unacknowledged is sent again.  When the retransmission timer of
    a connection is due, nothing more urgent is queued and the output has room,
    prepare() emits the first unacknowledged segment to the peer, with its
    bytes, its SYN or its FIN; after eight retransmissions the connection fails
    as timed out, or the listener listens again. *)
Theorem due_timer_retransmits calls s output now identification : capacities -> Forall call_ok calls -> run constructed calls = Some s ->
  let c := conn s in
  Plan.active (plan_ c) = false -> reset_pending_ c = false -> pending_syn_ c = false -> last_now_ c <= now -> next_token_ c <> u64_max ->
  Timer.active (rtx_ c) = true -> Timer.deadline (rtx_ c) <= now ->
  0 <= identification < 65536 -> aliases_self self sizeof_self output = false -> room SG mss_address payload_address output ->
  if Timer.retries (rtx_ c) <? max_retransmissions
  then exists c' o p f data, prepare c output now identification = Some (c', o, Ok (Some p)) /\
    delivers (first o (PreparedPacket.length p)) (Endpoint.address (local_ c)) (Endpoint.address (peer_ c)) f data /\
    TcpFields.sequence f = snd_una_ c /\ (data <> [] \/ has f (Z.lor tcp_syn tcp_fin) = true)
  else exists c', tick initial SG c now = (c', StatusCode.ok) /\ (state_ c' = State.closed /\ failure_ c' = Failure.timed_out \/ state_ c' = State.listen).
Proof.
  intros Hcap Hcalls Hrun c Hp Hrp Hps Hn Htok Ht Hd Hid Hal Hroom. pose proof Hcap as (HSC & HRC & HSG).
  destruct (run_safe initial SC RC SG self sizeof_self mss_address payload_address HSC HRC HSG calls Hcalls constructed) as (s' & Hs & Hsafe); [by apply constructed_safe |].
  rewrite Hrun in Hs. injection Hs as <-. destruct Hsafe as (Hb & Hc & _). fold c in Hc.
  pose proof (due_tick (written s) c now Hcap Hc Hp Hn Ht Hd) as Htick. destruct (Timer.retries (rtx_ c) <? max_retransmissions); [| exact Htick].
  pose proof (keep_last_now SC SG (written s) c now Hc) as Hc1. destruct (retry_chosen (written s) (set_last_now now c) now Hcap Hc1 Ht Hd Hrp Hps) as (p & Hch & Hseq & Hdest & Hpay & Hdata).
  destruct (choose_ok SC SG HSC HSG RC now (written s) _ (ok_sends _ _ _ _ Hc1) (ok_cc _ _ _ _ Hc1) (ok_syn _ _ _ _ Hc1) (ok_timer _ _ _ _ Hc1) (ok_ack _ _ _ _ Hc1))
    as (c2 & next & Hch' & _ & Hnext). rewrite Hch in Hch'. injection Hch' as <- <-. destruct Hnext as [Hpl Hpd].
  destruct (build_ok SC RC SG mss_address payload_address HSC HSG (written s) (set_last_now now c) output identification p Hc1 Hb Hpl Hpd Hid) as (o & r & Hbuild & Hr).
  destruct r as [n | e]; [| destruct Hr as [_ Hno]; exfalso; apply Hno; split; [done | lia]].
  unfold Transport.prepare. rewrite Hp, Hal, Htick. change (negb (status_ok StatusCode.ok)) with false. change (next_token_ (set_last_now now c)) with (next_token_ c).
  rewrite (proj2 (Z.eqb_neq _ _) Htok), Hch, Hbuild. rewrite Hdest in Hr. do 5 eexists. split; [reflexivity |]. split; [exact Hr |]. split; [exact Hseq |].
  destruct Hdata as [Hx | Hx]; [left | by right]. intros He. assert (zlen (plan_data SC (set_last_now now c) p) = Plan.payload p) as Hz by (apply zlen_ring_get; lia).
  rewrite He in Hz. change (zlen (@nil Z)) with 0 in Hz. lia.
Qed.

(** C1: the stream is delivered as it was written.  Two connections over a
    network that loses, repeats, reorders and pads the packets of one of them,
    and carries any other packet that does not claim to come from its endpoint:
    what has been read from the other connection is a prefix of what was
    written, and it reports the end of the stream only when everything has been
    read and nothing more can be written. *)
Theorem stream_delivered w : capacities -> reachable initial SC RC SG self sizeof_self mss_address payload_address w ->
  zlen (written (a w)) <= stream_limit -> peer_ (conn (b w)) = local_ (conn (a w)) ->
  (exists more, written (a w) = delivered (b w) ++ more) /\
  forall output c', read RC self sizeof_self (conn (b w)) output = (c', Ok []) -> Span.size output <> 0 ->
    delivered (b w) = written (a w) /\ write_shutdown_ (conn (a w)) = true.
Proof.
  intros (HSC & HRC & HSG) Hw Hl Hp. pose proof (reachable_inv initial SC RC SG self sizeof_self mss_address payload_address HSC HRC HSG w Hw) as Hi.
  pose proof (inv_stream _ _ _ _ Hi Hp Hl) as Hs. split; [apply Hs |]. intros output c' Hr Hz.
  by destruct (stream_read RC self sizeof_self HRC (a w) (b w) c' (Ok []) output Hs Hr) as [_ He]; apply He.
Qed.
End Claims.

(** ** Examples *)
Definition host (n port : Z) : Endpoint.t := Endpoint.mk (IpAddress.of_ipv4 [10; 0; 0; n]) port.
Definition output : Span.t := Span.mk 0x30000 (replicate 1600 0).
Definition packet : Span.t := Span.mk 0x30000 (replicate 64 0).
Definition hello : Span.t := Span.mk 0x40000 [104; 101; 108; 108; 111].
Abbreviation run16 := (run (H1 := arch64) NewReno.new 16 16 8 0x10000 0x1000 0x20000 0x21000).
Abbreviation prepare16 := (prepare (H0 := arch64) NewReno.new 16 16 8 0x10000 0x1000 0x20000 0x21000).
Abbreviation constructed16 := (constructed NewReno.new 16 16).
Definition after_calls (calls : list call) : side NewReno.t := default constructed16 (run16 constructed16 calls).

Definition open_a : list call := [ActiveOpen (host 1 40000) (host 2 80) 1000 0].
Definition open_b : list call := [PassiveOpen (host 2 80) 5000 0].
(** The SYN is sent and a packet that is no packet arrives. *)
Definition syn_sent : list call := open_a ++ [Prepare packet 1 7; CompleteTransmit 1 true 1; ReceivePacket (Span.mk 0x100000 [69; 0; 0; 1]) 2].
(** The handshake, five bytes delivered twice, and a read of them. *)
Definition talk : list event := [
  AtA (Prepare packet 1 7); AtA (CompleteTransmit 1 true 1); ToB 0 2; AtB (Prepare packet 2 7); AtB (CompleteTransmit 1 true 2); ToA 0 3;
  AtA (Write hello); AtA (Prepare packet 4 7); AtA (CompleteTransmit 2 true 4); ToB 1 5; ToB 1 6; AtB (Read packet)].
Definition world16 : world NewReno.t := World (after_calls open_a) (after_calls open_b) [] [].
Definition after_talk : world NewReno.t := default world16 (play (H1 := arch64) NewReno.new 16 16 8 0x10000 0x1000 0x20000 0x21000 world16 talk).

Lemma capacities16 : capacities 16 16 8.
Proof. unfold capacities. lia. Qed.
Lemma host_ok n port : 0 <= n < 256 -> 0 <= port < 65536 -> endpoint_ok (host n port).
Proof. intros Hn Hp. split; [| done]. apply of_ipv4_ok. split; [done |]. unfold bytes_ok. repeat (apply Forall_cons_2; [lia |]). apply Forall_nil_2. Qed.
Lemma open_a_ok : Forall call_ok open_a.
Proof. apply Forall_cons_2; [| apply Forall_nil_2]. split; [by apply host_ok |]. split; [by apply host_ok | by vm_compute]. Qed.
Lemma open_b_ok : Forall call_ok open_b.
Proof. apply Forall_cons_2; [| apply Forall_nil_2]. split; [by apply host_ok | by vm_compute]. Qed.
Lemma syn_sent_ok : Forall call_ok syn_sent.
Proof.
  apply Forall_app. split; [apply open_a_ok |]. apply Forall_cons_2; [by vm_compute |]. apply Forall_cons_2; [done |]. apply Forall_cons_2; [| apply Forall_nil_2].
  cbn. unfold bytes_ok. repeat (apply Forall_cons_2; [lia |]). apply Forall_nil_2.
Qed.
Lemma talk_ok : Forall event_ok talk.
Proof.
  repeat (apply Forall_cons_2; [cbn; try done; split_and!; try done; try lia |]); [| apply Forall_nil_2].
  unfold bytes_ok. repeat (apply Forall_cons_2; [lia |]). apply Forall_nil_2.
Qed.

Lemma calls_witness : exists s, run16 constructed16 syn_sent = Some s /\ bounded 16 16 (conn s).
Proof. exact (calls_always_answered (H1 := arch64) NewReno.new 16 16 8 0x10000 0x1000 0x20000 0x21000 syn_sent capacities16 syn_sent_ok). Defined.

Lemma packets_witness :
  match prepare16 (conn (after_calls open_a)) packet 1 7 with
  | Some (c', o, Ok (Some p)) => exists to f data, delivers (first o (PreparedPacket.length p)) (Endpoint.address (local_ c')) to f data /\
      TcpFields.source_port f = Endpoint.port (local_ c') /\ carries (iss_ c') [] (write_shutdown_ c') f data
  | _ => False
  end.
Proof.
  destruct (prepare16 (conn (after_calls open_a)) packet 1 7) as [[[c' o] [[p |] | e]] |] eqn:He; try (vm_compute in He; discriminate He).
  exact (packets_carry_the_stream (H1 := arch64) NewReno.new 16 16 8 0x10000 0x1000 0x20000 0x21000 open_a (after_calls open_a) packet 1 7 c' o p
    capacities16 open_a_ok ltac:(by vm_compute) ltac:(lia) He).
Defined.

Lemma due_timer_witness : let c := conn (after_calls syn_sent) in
  exists c' o p f data, prepare16 c output 5000 9 = Some (c', o, Ok (Some p)) /\
  delivers (first o (PreparedPacket.length p)) (Endpoint.address (local_ c)) (Endpoint.address (peer_ c)) f data /\
  TcpFields.sequence f = snd_una_ c /\ (data <> [] \/ has f (Z.lor tcp_syn tcp_fin) = true).
Proof.
  pose proof (due_timer_retransmits (H1 := arch64) NewReno.new 16 16 8 0x10000 0x1000 0x20000 0x21000 syn_sent (after_calls syn_sent) output 5000 9 capacities16 syn_sent_ok) as K.
  cbv zeta in K |- *. assert ((Timer.retries (rtx_ (conn (after_calls syn_sent))) <? max_retransmissions) = true) as Hr by (by vm_compute). rewrite Hr in K.
  clear Hr. apply K; clear K; try lia; try (by vm_compute). split; [by vm_compute |]. split; left; by vm_compute.
Defined.

Lemma stream_witness : delivered (b after_talk) = [104; 101; 108; 108; 111] /\ exists more, written (a after_talk) = delivered (b after_talk) ++ more.
Proof.
  split; [by vm_compute |]. apply (stream_delivered (H1 := arch64) NewReno.new 16 16 8 0x10000 0x1000 0x20000 0x21000 after_talk capacities16); [| by vm_compute | by vm_compute].
  apply (play_reachable (H1 := arch64) NewReno.new 16 16 8 0x10000 0x1000 0x20000 0x21000 talk talk_ok world16); [| by vm_compute].
  apply reach_start; (split; [| vm_compute; auto]); [exists open_a | exists open_b]; (split; [| by vm_compute]); [apply open_a_ok | apply open_b_ok].
Defined.
