(* ===== verification/Firmware.v ===== *)
(** * Firmware memory maps (include/ok/boot/fdt.hpp, src/boot/fdt.cpp, include/ok/boot/e820.hpp)

    The parsers of the two firmware formats: flattened device trees and the
    table of the BIOS collector.  A blob is its list of bytes; a read outside
    it, a division by 0 or a loop that does not end is the value [None].  The
    used prefixes of the fixed arrays are lists. *)

From S2P Require Import Prelude Wire.
From Stdlib Require String Ascii.
Import String.StringSyntax.

(** A step that reports a status, and what follows a success. *)
Notation "'try' x := m 'in' k" :=
  (match m with Some (Ok x) => k | Some (Err e) => Some (Err e) | None => None end)
  (at level 10, x name, m at level 100, k at level 200).
Notation "'check' s 'in' k" := (if negb (status_ok s) then Some (Err s) else k) (at level 10, s at level 100, k at level 200).

Definition text (s : String.string) : Bytes := map (fun c => Z.of_N (Ascii.N_of_ascii c)) (String.list_ascii_of_string s).
Arguments text s%_string_scope.
Definition same (a b : Bytes) : bool := bool_decide (a = b).

Module PhysicalRange.
Record t := mk { address : Z; size : Z }.
#[global] Instance t_eq_dec : EqDecision t.
Proof. solve_decision. Defined.
Definition none : t := mk 0 0.
End PhysicalRange.

Module ReservationSource.
Inductive t := reserve_table | reserved_memory.
End ReservationSource.

Module FirmwareReservation.
Record t := mk { range : PhysicalRange.t; source : ReservationSource.t; no_map : bool; reusable : bool }.
End FirmwareReservation.

Module Fdt.
Definition max_fdt_bytes : Z := 2 * 1024 * 1024.
Definition max_fdt_depth : Z := 32.
Definition max_fdt_ram_ranges : Z := 64.
Definition max_fdt_reservations : Z := 128.

Module FdtMemoryMap.
Record t := mk { ram : list PhysicalRange.t; reservations : list FirmwareReservation.t; blob_size : Z; boot_cpu_id : Z }.
Definition new : t := mk [] [] 0 0.
Definition with_ram (m : t) (v : list PhysicalRange.t) : t := mk v (reservations m) (blob_size m) (boot_cpu_id m).
Definition with_reservations (m : t) (v : list FirmwareReservation.t) : t := mk (ram m) v (blob_size m) (boot_cpu_id m).
End FdtMemoryMap.

(** ** Reading the blob *)
Definition byte_at (b : Bytes) (p : Z) : option Z := if (0 <=? p) && (p <? zlen b) then Some b.[p] else None.
Definition be32 (b : Bytes) (p : Z) : option Z :=
  b0 ← byte_at b p; b1 ← byte_at b (p + 1); b2 ← byte_at b (p + 2); b3 ← byte_at b (p + 3);
  Some (Z.lor (Z.lor (Z.lor (Z.shiftl b0 24) (Z.shiftl b1 16)) (Z.shiftl b2 8)) b3).
Definition be64 (b : Bytes) (p : Z) : option Z :=
  high ← be32 b p; low ← be32 b (p + 4); Some (Z.lor (Z.shiftl high 32) low).

Definition malformed : Status := StatusCode.invalid_argument.
Definition validate_range (range : PhysicalRange.t) : Status :=
  if PhysicalRange.size range =? 0 then StatusCode.invalid_argument
  else if u64_max - PhysicalRange.address range <? PhysicalRange.size range then StatusCode.overflow
  else StatusCode.ok.
Definition memory_name (name : Bytes) : bool := same name (text "memory") || same (first name 7) (text "memory@").
Definition string_value (value : Bytes) : result Bytes :=
  if (zlen value =? 0) || negb (value.[zlen value - 1] =? 0) then Err malformed
  else
    let result := first value (zlen value - 1) in
    if existsb (fun c => c =? 0) result then Err malformed else Ok result.

(** [while (position < end && blob_[position] != 0) ++position]. *)
Fixpoint until_zero (n : nat) (b : Bytes) (position : Z) : option Z :=
  match n with
  | O => Some position
  | S n' => c ← byte_at b position; if c =? 0 then Some position else until_zero n' b (position + 1)
  end.

Module Kind.
Inductive t := root | memory | reserved_root | reservation | other.
#[global] Instance t_eq_dec : EqDecision t.
Proof. solve_decision. Defined.
End Kind.

Module Node.
Record t := mk {
  kind : Kind.t; address_cells : Z; size_cells : Z; reg_offset : Z; reg_size : Z;
  address_seen : bool; size_seen : bool; reg_seen : bool; ranges_seen : bool; ranges_nonempty : bool; status_seen : bool; type_seen : bool;
  enabled : bool; children : bool; dynamic : bool; no_map : bool; reusable : bool; memory_named : bool
}.
Definition new : t := mk Kind.other 2 1 0 0 false false false false false false false true false false false false false.
#[global] Instance t_inhabited : Inhabited t := populate new.
Definition opened (k : Kind.t) (e named : bool) : t := mk k 2 1 0 0 false false false false false false false e false false false false named.
Definition with_address_cells (v : Z) (n : t) : t :=
  mk (kind n) v (size_cells n) (reg_offset n) (reg_size n) true (size_seen n) (reg_seen n) (ranges_seen n) (ranges_nonempty n) (status_seen n) (type_seen n)
    (enabled n) (children n) (dynamic n) (no_map n) (reusable n) (memory_named n).
Definition with_size_cells (v : Z) (n : t) : t :=
  mk (kind n) (address_cells n) v (reg_offset n) (reg_size n) (address_seen n) true (reg_seen n) (ranges_seen n) (ranges_nonempty n) (status_seen n) (type_seen n)
    (enabled n) (children n) (dynamic n) (no_map n) (reusable n) (memory_named n).
Definition with_reg (offset size : Z) (n : t) : t :=
  mk (kind n) (address_cells n) (size_cells n) offset size (address_seen n) (size_seen n) true (ranges_seen n) (ranges_nonempty n) (status_seen n) (type_seen n)
    (enabled n) (children n) (dynamic n) (no_map n) (reusable n) (memory_named n).
Definition with_ranges (nonempty : bool) (n : t) : t :=
  mk (kind n) (address_cells n) (size_cells n) (reg_offset n) (reg_size n) (address_seen n) (size_seen n) (reg_seen n) true nonempty (status_seen n) (type_seen n)
    (enabled n) (children n) (dynamic n) (no_map n) (reusable n) (memory_named n).
Definition with_status (e : bool) (n : t) : t :=
  mk (kind n) (address_cells n) (size_cells n) (reg_offset n) (reg_size n) (address_seen n) (size_seen n) (reg_seen n) (ranges_seen n) (ranges_nonempty n) true (type_seen n)
    e (children n) (dynamic n) (no_map n) (reusable n) (memory_named n).
Definition with_type (k : Kind.t) (n : t) : t :=
  mk k (address_cells n) (size_cells n) (reg_offset n) (reg_size n) (address_seen n) (size_seen n) (reg_seen n) (ranges_seen n) (ranges_nonempty n) (status_seen n) true
    (enabled n) (children n) (dynamic n) (no_map n) (reusable n) (memory_named n).
Definition with_children (n : t) : t :=
  mk (kind n) (address_cells n) (size_cells n) (reg_offset n) (reg_size n) (address_seen n) (size_seen n) (reg_seen n) (ranges_seen n) (ranges_nonempty n) (status_seen n) (type_seen n)
    (enabled n) true (dynamic n) (no_map n) (reusable n) (memory_named n).
Definition with_flags (d nm re : bool) (n : t) : t :=
  mk (kind n) (address_cells n) (size_cells n) (reg_offset n) (reg_size n) (address_seen n) (size_seen n) (reg_seen n) (ranges_seen n) (ranges_nonempty n) (status_seen n) (type_seen n)
    (enabled n) (children n) d nm re (memory_named n).
End Node.
Import Node.

(** ** The parser *)
Module Parser.
(** The variables of the loop of run(), with map_ and stack_. *)
Module Scan.
Record t := mk { position : Z; depth : Z; root_seen : bool; root_closed : bool; stack_ : list Node.t; map_ : FdtMemoryMap.t }.
Definition at_ (s : t) (position : Z) : t := mk position (depth s) (root_seen s) (root_closed s) (stack_ s) (map_ s).
End Scan.
Import Scan.

Section Parser.
Context `{Arch}.

(** The fields header() sets: the blob cut to its size, and its blocks. *)
Record t := mk { blob_ : Bytes; structure_ : Z; structure_size_ : Z; strings_ : Z; strings_size_ : Z; reserve_ : Z }.

Definition overlaps (a an b bn : Z) : bool :=
  negb (an =? 0) && negb (bn =? 0) && (a <? usize_wrap (b + bn)) && (b <? usize_wrap (a + an)).
Definition bounded (total start size : Z) : bool := (40 <=? start) && (start <=? total) && (size <=? total - start).

Definition header (blob : Bytes) : option (result (t * FdtMemoryMap.t)) :=
  if zlen blob <? 40 then Some (Err malformed)
  else
    magic ← be32 blob 0;
    if negb (magic =? 0xd00dfeed) then Some (Err malformed)
    else
      total ← be32 blob 4; version ← be32 blob 20; compatible ← be32 blob 24;
      if (total <? 40) || (zlen blob <? total) then Some (Err malformed)
      else if max_fdt_bytes <? total then Some (Err StatusCode.overflow)
      else if negb (version =? 17) || (17 <? compatible) then Some (Err StatusCode.unsupported)
      else
        structure ← be32 blob 8; strings ← be32 blob 12; reserve ← be32 blob 16; strings_size ← be32 blob 32; structure_size ← be32 blob 36;
        if negb (Z.land structure 3 =? 0) || negb (Z.land reserve 7 =? 0) || negb (Z.land structure_size 3 =? 0) || (structure_size <? 12) ||
           negb (bounded total structure structure_size) || negb (bounded total strings strings_size) || negb (bounded total reserve 16) ||
           overlaps structure structure_size strings strings_size
        then Some (Err malformed)
        else
          boot_cpu_id ← be32 blob 28;
          Some (Ok (mk (first blob total) structure structure_size strings strings_size reserve, FdtMemoryMap.mk [] [] total boot_cpu_id)).

Definition add_reservation (m : FdtMemoryMap.t) (range : PhysicalRange.t) (source : ReservationSource.t) (no_map reusable : bool) : result FdtMemoryMap.t :=
  if negb (status_ok (validate_range range)) then Err (validate_range range)
  else if zlen (FdtMemoryMap.reservations m) =? max_fdt_reservations then Err StatusCode.overflow
  else Ok (FdtMemoryMap.with_reservations m (FdtMemoryMap.reservations m ++ [FirmwareReservation.mk range source no_map reusable])).

(** reserves(), from [position] on. *)
Fixpoint reserves_loop (n : nat) (p : t) (position : Z) (m : FdtMemoryMap.t) : option (result FdtMemoryMap.t) :=
  match n with
  | O => None
  | S n' =>
      if zlen (blob_ p) - 16 <? position then Some (Err malformed)
      else if overlaps position 16 (structure_ p) (structure_size_ p) || overlaps position 16 (strings_ p) (strings_size_ p) then Some (Err malformed)
      else
        address ← be64 (blob_ p) position; size ← be64 (blob_ p) (position + 8);
        if (address =? 0) && (size =? 0) then Some (Ok m)
        else
          try m := Some (add_reservation m (PhysicalRange.mk address size) ReservationSource.reserve_table false false) in
          reserves_loop n' p (usize_wrap (position + 16)) m
  end.
Definition reserves (p : t) (m : FdtMemoryMap.t) : option (result FdtMemoryMap.t) := reserves_loop (S (length (blob_ p))) p (reserve_ p) m.

Definition one_or_two (cells : Z) : bool := (cells =? 1) || (cells =? 2).
Definition validate_parent (root node : Node.t) : Status :=
  if negb (enabled node) then StatusCode.ok
  else if bool_decide (kind node = Kind.root) || bool_decide (kind node = Kind.reserved_root) then
    if negb (one_or_two (address_cells node)) || negb (one_or_two (size_cells node)) then StatusCode.unsupported
    else if bool_decide (kind node = Kind.reserved_root) &&
        (negb (address_seen node) || negb (size_seen node) || negb (ranges_seen node) || ranges_nonempty node ||
         negb (address_cells node =? address_cells root) || negb (size_cells node =? size_cells root))
    then StatusCode.unsupported
    else StatusCode.ok
  else StatusCode.ok.

Definition property (p : t) (node : Node.t) (depth : Z) (name : Bytes) (offset size : Z) : option (result Node.t) :=
  let value := subspan (blob_ p) offset size in
  if same name (text "#address-cells") then
    if address_seen node || negb (size =? 4) then Some (Err malformed)
    else cells ← be32 value 0; Some (Ok (with_address_cells cells node))
  else if same name (text "#size-cells") then
    if size_seen node || negb (size =? 4) then Some (Err malformed)
    else cells ← be32 value 0; Some (Ok (with_size_cells cells node))
  else if same name (text "reg") then
    if reg_seen node then Some (Err malformed) else Some (Ok (with_reg offset size node))
  else if same name (text "ranges") then
    if ranges_seen node then Some (Err malformed) else Some (Ok (with_ranges (negb (size =? 0)) node))
  else if same name (text "status") then
    if status_seen node then Some (Err malformed)
    else try value := Some (string_value value) in
      Some (Ok (with_status (enabled node && (same value (text "ok") || same value (text "okay"))) node))
  else if same name (text "device_type") then
    if type_seen node then Some (Err malformed)
    else try value := Some (string_value value) in
      if same value (text "memory") then
        if negb (depth =? 2) || bool_decide (kind node = Kind.reserved_root) then Some (Err StatusCode.unsupported)
        else Some (Ok (with_type Kind.memory node))
      else if bool_decide (kind node = Kind.memory) then Some (Err malformed)
      else Some (Ok (with_type (kind node) node))
  else if bool_decide (kind node = Kind.reservation) && (same name (text "size") || same name (text "alignment") || same name (text "alloc-ranges")) then
    Some (Ok (with_flags true (no_map node) (reusable node) node))
  else if bool_decide (kind node = Kind.reservation) && (same name (text "no-map") || same name (text "reusable")) then
    let first := same name (text "no-map") in
    if negb (size =? 0) || (if first then no_map node else reusable node) then Some (Err malformed)
    else
      let node := if first then with_flags (dynamic node) true (reusable node) node else with_flags (dynamic node) (no_map node) true node in
      if no_map node && reusable node then Some (Err malformed) else Some (Ok node)
  else Some (Ok node).

(** The ranges of a reg property, from [position] on. *)
Fixpoint reg_loop (n : nat) (p : t) (root node : Node.t) (stride position : Z) (m : FdtMemoryMap.t) : option (result FdtMemoryMap.t) :=
  if reg_size node <=? position then Some (Ok m)
  else
    match n with
    | O => None
    | S n' =>
        let at_ := reg_offset node + position in
        let sizes_at := at_ + address_cells root * 4 in
        address ← (if address_cells root =? 2 then be64 (blob_ p) at_ else be32 (blob_ p) at_);
        size ← (if size_cells root =? 2 then be64 (blob_ p) sizes_at else be32 (blob_ p) sizes_at);
        let range := PhysicalRange.mk address size in
        check validate_range range in
        try m := Some (if bool_decide (kind node = Kind.reservation)
                       then add_reservation m range ReservationSource.reserved_memory (no_map node) (reusable node)
                       else if zlen (FdtMemoryMap.ram m) =? max_fdt_ram_ranges then Err StatusCode.overflow
                       else Ok (FdtMemoryMap.with_ram m (FdtMemoryMap.ram m ++ [range]))) in
        reg_loop n' p root node stride (usize_wrap (position + stride)) m
    end.

Definition finish (p : t) (root node : Node.t) (m : FdtMemoryMap.t) : option (result FdtMemoryMap.t) :=
  check validate_parent root node in
  if enabled node && bool_decide (kind node = Kind.other) && memory_named node then Some (Err StatusCode.unsupported)
  else if negb (enabled node) || (negb (bool_decide (kind node = Kind.memory)) && negb (bool_decide (kind node = Kind.reservation))) then Some (Ok m)
  else if ranges_nonempty node || (bool_decide (kind node = Kind.reservation) && negb (reg_seen node) && dynamic node) then Some (Err StatusCode.unsupported)
  else if negb (reg_seen node) || (reg_size node =? 0) then Some (Err malformed)
  else
    let stride := u32_wrap ((address_cells root + size_cells root) * 4) in
    if stride =? 0 then None
    else if negb (reg_size node mod stride =? 0) then Some (Err malformed)
    else reg_loop (Z.to_nat (reg_size node)) p root node stride 0 m.


Definition align4 (x : Z) : Z := Z.land (usize_wrap x) (usize_not 3).
Definition end_ (p : t) : Z := usize_wrap (structure_ p + structure_size_ p).

(** The kind of a node below [parent]. *)
Definition child_kind (depth : Z) (name : Bytes) (parent : Node.t) : result Kind.t :=
  if (depth =? 1) && same name (text "reserved-memory") then Ok Kind.reserved_root
  else if (depth =? 1) && memory_name name then Ok Kind.memory
  else if bool_decide (kind parent = Kind.reserved_root) then Ok Kind.reservation
  else if bool_decide (kind parent = Kind.reservation) && enabled parent then Err StatusCode.unsupported
  else Ok Kind.other.

Definition begin_node (p : t) (s : Scan.t) : option (result Scan.t) :=
  if root_closed s || (depth s =? max_fdt_depth) then Some (Err (if root_closed s then malformed else StatusCode.overflow))
  else
    let start := position s in
    zero ← until_zero (Z.to_nat (end_ p - start)) (blob_ p) start;
    if (zero =? end_ p) || (255 <? zero - start) then Some (Err malformed)
    else
      let name := subspan (blob_ p) start (zero - start) in
      let position := align4 (zero + 4) in
      if (end_ p <? position) || existsb (fun c => c =? 47) name then Some (Err malformed)
      else if depth s =? 0 then
        if root_seen s || negb (zlen name =? 0) then Some (Err malformed)
        else Some (Ok (Scan.mk position 1 true (root_closed s) (stack_ s).[0 := opened Kind.root true (memory_name name)] (map_ s)))
      else if zlen name =? 0 then Some (Err malformed)
      else
        let parent := (stack_ s).[depth s - 1] in
        check validate_parent (stack_ s).[0] parent in
        try kind := Some (child_kind (depth s) name parent) in
        Some (Ok (Scan.mk position (depth s + 1) (root_seen s) (root_closed s)
          (stack_ s).[depth s - 1 := with_children parent].[depth s := opened kind (enabled parent) (memory_name name)] (map_ s))).

Definition end_node (p : t) (s : Scan.t) : option (result Scan.t) :=
  if depth s =? 0 then Some (Err malformed)
  else
    try m := finish p (stack_ s).[0] (stack_ s).[depth s - 1] (map_ s) in
    Some (Ok (Scan.mk (position s) (depth s - 1) (root_seen s) (root_closed s || (depth s - 1 =? 0)) (stack_ s) m)).

Definition prop_node (p : t) (s : Scan.t) : option (result Scan.t) :=
  if (depth s =? 0) || children (stack_ s).[depth s - 1] || (end_ p - position s <? 8) then Some (Err malformed)
  else
    size ← be32 (blob_ p) (position s); name_offset ← be32 (blob_ p) (position s + 4);
    let offset := position s + 8 in
    if (end_ p - offset <? size) || (strings_size_ p <=? name_offset) then Some (Err malformed)
    else
      name_end ← until_zero (Z.to_nat (strings_size_ p - name_offset)) (blob_ p) (strings_ p + name_offset);
      if (name_end =? strings_ p + strings_size_ p) || (name_end =? strings_ p + name_offset) then Some (Err malformed)
      else
        let name := subspan (blob_ p) (strings_ p + name_offset) (name_end - (strings_ p + name_offset)) in
        try node := property p (stack_ s).[depth s - 1] (depth s) name offset size in
        let position := align4 (offset + size + 3) in
        if end_ p <? position then Some (Err malformed)
        else Some (Ok (Scan.mk position (depth s) (root_seen s) (root_closed s) (stack_ s).[depth s - 1 := node] (map_ s))).

Fixpoint scan (n : nat) (p : t) (s : Scan.t) : option (result FdtMemoryMap.t) :=
  match n with
  | O => None
  | S n' =>
      if end_ p <=? position s then Some (Err malformed)
      else if end_ p - position s <? 4 then Some (Err malformed)
      else
        token ← be32 (blob_ p) (position s);
        let s := at_ s (position s + 4) in
        if token =? 4 then scan n' p s
        else if token =? 1 then try s := begin_node p s in scan n' p s
        else if token =? 2 then try s := end_node p s in scan n' p s
        else if token =? 3 then try s := prop_node p s in scan n' p s
        else if token =? 9 then
          if negb (root_seen s) || negb (root_closed s) || negb (depth s =? 0) || negb (position s =? end_ p) then Some (Err malformed)
          else if zlen (FdtMemoryMap.ram (map_ s)) =? 0 then Some (Err StatusCode.not_found)
          else Some (Ok (map_ s))
        else Some (Err malformed)
  end.

Definition run (blob : Bytes) : option (result FdtMemoryMap.t) :=
  try parsed := header blob in
  let '(p, m) := parsed in
  try m := reserves p m in
  scan (S (length (blob_ p))) p (Scan.mk (structure_ p) 0 false false (replicate (Z.to_nat max_fdt_depth) Node.new) m).
End Parser.
End Parser.

(** The new contents of the output, and the status. *)
Definition parse_fdt_memory `{Arch} (blob : Bytes) (output : FdtMemoryMap.t) : option (FdtMemoryMap.t * Status) :=
  match Parser.run blob with
  | Some (Ok m) => Some (m, StatusCode.ok)
  | Some (Err e) => Some (output, e)
  | None => None
  end.
End Fdt.

(** ** The table of the BIOS collector *)
Module E820.
Definition e820_handoff_magic : Z := 0x30323845.
Definition e820_record_capacity : Z := 128.
Definition e820_header_bytes : Z := 16.
Definition e820_record_bytes : Z := 24.

Module E820Record.
Record t := mk { address : Z; size : Z; type : Z; attributes : Z }.
Definition usable (r : t) : bool := (type r =? 1) && negb (size r =? 0) && negb (Z.land (attributes r) 1 =? 0).
End E820Record.

(** [records] is the used prefix of the array. *)
Definition E820Map : Type := list E820Record.t.

Definition little32 (b : Bytes) (offset : Z) : option Z :=
  b0 ← Fdt.byte_at b offset; b1 ← Fdt.byte_at b (offset + 1); b2 ← Fdt.byte_at b (offset + 2); b3 ← Fdt.byte_at b (offset + 3);
  Some (Z.lor (Z.lor (Z.lor b0 (Z.shiftl b1 8)) (Z.shiftl b2 16)) (Z.shiftl b3 24)).

(** [n] records from number [i] on. *)
Fixpoint records (n : nat) (b : Bytes) (i : Z) : option (result E820Map) :=
  match n with
  | O => Some (Ok [])
  | S n' =>
      let offset := e820_header_bytes + i * e820_record_bytes in
      a0 ← little32 b offset; a1 ← little32 b (offset + 4); s0 ← little32 b (offset + 8); s1 ← little32 b (offset + 12);
      let address := Z.lor a0 (Z.shiftl a1 32) in
      let size := Z.lor s0 (Z.shiftl s1 32) in
      if u64_max - address <? size then Some (Err StatusCode.invalid_argument)
      else
        type ← little32 b (offset + 16); attributes ← little32 b (offset + 20);
        try rest := records n' b (i + 1) in Some (Ok (E820Record.mk address size type attributes :: rest))
  end.

Definition parse_e820_handoff (bytes : Bytes) (output : E820Map) : option (E820Map * Status) :=
  if zlen bytes <? e820_header_bytes then Some (output, StatusCode.invalid_argument)
  else
    magic ← little32 bytes 0; state ← little32 bytes 4; record ← little32 bytes 12;
    if negb (magic =? e820_handoff_magic) || negb (state =? 1) || negb (record =? e820_record_bytes) then Some (output, StatusCode.invalid_argument)
    else
      count ← little32 bytes 8;
      if (count =? 0) || (e820_record_capacity <? count) || ((zlen bytes - e820_header_bytes) / e820_record_bytes <? count)
      then Some (output, StatusCode.invalid_argument)
      else
        match records (Z.to_nat count) bytes 0 with
        | Some (Ok m) => Some (m, StatusCode.ok)
        | Some (Err e) => Some (output, e)
        | None => None
        end.
End E820.
