(* ===== verification/FdtTree.v ===== *)
(** * Device trees

    What a flattened device tree says, apart from how it is parsed: the events
    of its structure block, the tree they spell, and the memory and the
    reservations the tree describes.  Then the loops that read the blob. *)

From S2P Require Import Prelude Epoch Wire Checksum PhysicalMap Firmware.
Import Fdt.

(** The number a big-endian field spells. *)
Definition number (v : Bytes) : Z := foldl (fun a b => a * 256 + b) 0 v.

(** ** Trees *)
Inductive tree := Tree (name : Bytes) (props : list (Bytes * Bytes)) (children : list tree).
Definition tname (t : tree) : Bytes := match t with Tree n _ _ => n end.
Definition tprops (t : tree) : list (Bytes * Bytes) := match t with Tree _ p _ => p end.
Definition tchildren (t : tree) : list tree := match t with Tree _ _ c => c end.

Inductive event := Begin (name : Bytes) | Property (name value : Bytes) | End_.
Definition property_events (props : list (Bytes * Bytes)) : list event := map (fun p => Property p.1 p.2) props.
Fixpoint events (t : tree) : list event :=
  match t with
  | Tree name props children => Begin name :: property_events props ++ flat_map events children ++ [End_]
  end.

(** ** What a tree says *)
Definition attribute (props : list (Bytes * Bytes)) (name : String.string) : option Bytes :=
  snd <$> List.find (fun p => same p.1 (text name)) props.
Arguments attribute props name%_string_scope.
Definition present (props : list (Bytes * Bytes)) (name : String.string) : bool := bool_decide (is_Some (attribute props name)).
Arguments present props name%_string_scope.
Import String.StringSyntax.

Definition zero_ended (s : String.string) : Bytes := text s ++ [0].
Arguments zero_ended s%_string_scope.
Definition okay (props : list (Bytes * Bytes)) : bool :=
  match attribute props "status" with None => true | Some v => same v (zero_ended "ok") || same v (zero_ended "okay") end.
Definition cells (props : list (Bytes * Bytes)) : Z * Z :=
  (from_option number 2 (attribute props "#address-cells"), from_option number 1 (attribute props "#size-cells")).
Definition typed_memory (props : list (Bytes * Bytes)) : bool := bool_decide (attribute props "device_type" = Some (zero_ended "memory")).

(** The ranges of a reg property: pairs of an address and a size. *)
Definition ranges (c : Z * Z) (v : Bytes) : list PhysicalRange.t :=
  let stride := (c.1 + c.2) * 4 in
  map (fun i => PhysicalRange.mk (number (subspan v (i * stride) (c.1 * 4))) (number (subspan v (i * stride + c.1 * 4) (c.2 * 4)))) (indices (zlen v / stride)).
Definition reg_ranges (root props : list (Bytes * Bytes)) : list PhysicalRange.t := ranges (cells root) (default [] (attribute props "reg")).

(** RAM is below the root, in enabled nodes that are named or typed memory. *)
Definition is_memory (name : Bytes) (props : list (Bytes * Bytes)) : bool :=
  negb (same name (text "reserved-memory")) && (memory_name name || typed_memory props).
Definition ram_child (root : list (Bytes * Bytes)) (t : tree) : list PhysicalRange.t :=
  if okay root && okay (tprops t) && is_memory (tname t) (tprops t) then reg_ranges root (tprops t) else [].
Definition ram_of (t : tree) : list PhysicalRange.t := flat_map (ram_child (tprops t)) (tchildren t).

(** Reservations are the enabled children of enabled reserved-memory nodes. *)
Definition reserved_entry (root : list (Bytes * Bytes)) (t : tree) : list FirmwareReservation.t :=
  if okay (tprops t)
  then map (fun r => FirmwareReservation.mk r ReservationSource.reserved_memory (present (tprops t) "no-map") (present (tprops t) "reusable")) (reg_ranges root (tprops t))
  else [].
Definition reserved_child (root : list (Bytes * Bytes)) (t : tree) : list FirmwareReservation.t :=
  if okay root && okay (tprops t) && same (tname t) (text "reserved-memory") then flat_map (reserved_entry root) (tchildren t) else [].
Definition reserved_of (t : tree) : list FirmwareReservation.t := flat_map (reserved_child (tprops t)) (tchildren t).
Definition table_entry (r : PhysicalRange.t) : FirmwareReservation.t := FirmwareReservation.mk r ReservationSource.reserve_table false false.

(** ** What a blob spells *)
Definition up4 (x : Z) : Z := (x + 3) / 4 * 4.
Definition string_at (b : Bytes) (q : Z) (name : Bytes) : Prop :=
  0 <= q /\ q + zlen name < zlen b /\ subspan b q (zlen name) = name /\ b.[q + zlen name] = 0 /\ Forall (fun c => c <> 0) name.

(** The events of the structure block at [structure], up to [q]. *)
Inductive spells (b : Bytes) (structure strings : Z) : Z -> list event -> Prop :=
  | spells_start : spells b structure strings structure []
  | spells_nop q l : spells b structure strings q l -> be32 b q = Some 4 -> spells b structure strings (q + 4) l
  | spells_begin q l name : spells b structure strings q l -> be32 b q = Some 1 -> string_at b (q + 4) name ->
      spells b structure strings (up4 (q + 4 + zlen name + 1)) (l ++ [Begin name])
  | spells_property q l name value offset : spells b structure strings q l -> be32 b q = Some 3 ->
      be32 b (q + 4) = Some (zlen value) -> be32 b (q + 8) = Some offset -> string_at b (strings + offset) name -> subspan b (q + 12) (zlen value) = value ->
      spells b structure strings (up4 (q + 12 + zlen value)) (l ++ [Property name value])
  | spells_end q l : spells b structure strings q l -> be32 b q = Some 2 -> spells b structure strings (q + 4) (l ++ [End_]).

(** The reservation table at [q]. *)
Inductive table (b : Bytes) : Z -> list PhysicalRange.t -> Prop :=
  | table_end q : be64 b q = Some 0 -> be64 b (q + 8) = Some 0 -> table b q []
  | table_next q r l : r <> PhysicalRange.none -> be64 b q = Some (PhysicalRange.address r) -> be64 b (q + 8) = Some (PhysicalRange.size r) -> table b (q + 16) l -> table b q (r :: l).

(** A blob with the tree [t] and the reservation table [l]. *)
Definition holds_tree (blob : Bytes) (l : list PhysicalRange.t) (t : tree) : Prop :=
  exists total structure strings reserve structure_size q,
    be32 blob 0 = Some 0xd00dfeed /\ be32 blob 4 = Some total /\ be32 blob 8 = Some structure /\ be32 blob 12 = Some strings /\ be32 blob 16 = Some reserve /\
    be32 blob 36 = Some structure_size /\ total <= zlen blob /\
    let b := first blob total in
    table b reserve l /\ spells b structure strings q (events t) /\ be32 b q = Some 9 /\ q + 4 = structure + structure_size.

(** ** Reading *)
Lemma number_app v w : number (v ++ w) = number v * 256 ^ zlen w + number w.
Proof.
  unfold number. rewrite foldl_app. generalize (foldl (fun a b => a * 256 + b) 0 v). induction w as [| x w IH] using rev_ind; intros a; [cbn; change (zlen (@nil Z)) with 0; lia |].
  rewrite !foldl_app, IH, zlen_app. cbn. change (zlen [x]) with 1. rewrite Z.pow_add_r, Z.pow_1_r by (try lia; apply zlen_nonneg). lia.
Qed.

Lemma number_range v : bytes_ok v -> 0 <= number v < 256 ^ zlen v.
Proof.
  induction v as [| x v IH] using rev_ind; intros Hv; [cbn; change (zlen (@nil Z)) with 0; lia |].
  apply Forall_app in Hv as [Hv [Hx _]%Forall_cons]. rewrite number_app, zlen_app. change (zlen [x]) with 1. cbn [number foldl]. specialize (IH Hv).
  rewrite Z.pow_add_r, Z.pow_1_r by (try lia; apply zlen_nonneg). unfold number in *. cbn. lia.
Qed.

Lemma byte_at_ok b p : 0 <= p < zlen b -> byte_at b p = Some b.[p].
Proof. intros Hp. unfold byte_at. by cmp. Qed.

Lemma byte_at_inv b p v : byte_at b p = Some v -> 0 <= p < zlen b.
Proof. unfold byte_at. case_cond; [| done]. b2p. lia. Qed.

Lemma subspan_cons b p n : 0 <= p < zlen b -> 0 < n -> subspan b p n = b.[p] :: subspan b (p + 1) (n - 1).
Proof.
  intros Hp Hn. unfold subspan. pose proof (drop_S b b.[p] (Z.to_nat p) ltac:(by apply lookup_aget)) as ->.
  replace (Z.to_nat n) with (S (Z.to_nat (n - 1))) by lia. cbn [take]. replace (Z.to_nat (p + 1)) with (S (Z.to_nat p)) by lia. done.
Qed.
Lemma subspan_nil b p : subspan b p 0 = [].
Proof. done. Qed.

Lemma word_at b p : 0 <= p -> p + 4 <= zlen b -> subspan b p 4 = [b.[p]; b.[p + 1]; b.[p + 2]; b.[p + 3]].
Proof.
  intros Hp Hb. rewrite !subspan_cons by lia. replace (4 - 1 - 1 - 1 - 1) with 0 by lia. rewrite subspan_nil, <- !Z.add_assoc. done.
Qed.

Lemma be32_eq b p : bytes_ok b -> 0 <= p -> p + 4 <= zlen b -> be32 b p = Some (number (subspan b p 4)).
Proof.
  intros Hok Hp Hb. unfold be32. rewrite !byte_at_ok by lia. cbn [mbind option_bind]. rewrite word_at by done. f_equal.
  pose proof (bytes_ok_aget b p Hok ltac:(lia)). pose proof (bytes_ok_aget b (p + 1) Hok ltac:(lia)). pose proof (bytes_ok_aget b (p + 2) Hok ltac:(lia)).
  pose proof (bytes_ok_aget b (p + 3) Hok ltac:(lia)). unfold number. cbn [foldl].
  rewrite <- !Z.lor_assoc. rewrite (lor_shift b.[p + 2] b.[p + 3] 8), (lor_shift b.[p + 1] _ 16), (lor_shift b.[p] _ 24) by lia. lia.
Qed.

Lemma be32_inv b p v : be32 b p = Some v -> 0 <= p /\ p + 4 <= zlen b.
Proof.
  unfold be32. destruct (byte_at b p) as [x |] eqn:E0; [| done]. destruct (byte_at b (p + 1)); [| done]. destruct (byte_at b (p + 2)); [| done].
  destruct (byte_at b (p + 3)) as [y |] eqn:E3; [| done]. intros _. apply byte_at_inv in E0, E3. lia.
Qed.

Lemma bytes_ok_subspan b p n : bytes_ok b -> bytes_ok (subspan b p n).
Proof. intros Hb. by apply Forall_take, Forall_drop. Qed.

Lemma word_range b p v : bytes_ok b -> be32 b p = Some v -> 0 <= v < 2 ^ 32.
Proof.
  intros Hok Hv. destruct (be32_inv b p v Hv). rewrite be32_eq in Hv by done. injection Hv as <-.
  pose proof (number_range _ (bytes_ok_subspan b p 4 Hok)) as Hr. rewrite zlen_slice in Hr by lia. done.
Qed.

Lemma be64_eq b p : bytes_ok b -> 0 <= p -> p + 8 <= zlen b -> be64 b p = Some (number (subspan b p 8)).
Proof.
  intros Hok Hp Hb. unfold be64. rewrite !be32_eq by (done || lia). cbn [mbind option_bind].
  assert (subspan b p 8 = subspan b p 4 ++ subspan b (p + 4) 4) as ->.
  { unfold subspan. rewrite <- (take_drop 4 (take (Z.to_nat 8) _)), take_take, skipn_firstn_comm, drop_drop. repeat f_equal; lia. }
  pose proof (number_range _ (bytes_ok_subspan b (p + 4) 4 Hok)) as Hr. rewrite number_app. rewrite zlen_slice in * by lia. by rewrite lor_shift.
Qed.

Lemma bytes_ok_first b n : bytes_ok b -> bytes_ok (first b n).
Proof. intros Hb. by apply Forall_take. Qed.

Lemma until_zero_spec n b q : 0 <= q -> q + Z.of_nat n <= zlen b ->
  exists z, until_zero n b q = Some z /\ q <= z <= q + Z.of_nat n /\ Forall (fun c => c <> 0) (subspan b q (z - q)) /\ (z < q + Z.of_nat n -> b.[z] = 0).
Proof.
  revert q. induction n as [| n IH]; intros q Hq Hn; cbn [until_zero].
  { exists q. split_and!; try lia; [done |]. rewrite Z.sub_diag. constructor. }
  rewrite byte_at_ok by lia. cbn [mbind option_bind]. destruct (Z.eqb_spec b.[q] 0) as [E | E].
  { exists q. split_and!; try lia; [done |]. rewrite Z.sub_diag. constructor. }
  destruct (IH (q + 1) ltac:(lia) ltac:(lia)) as (z & -> & Hz & Hf & H0). exists z. split_and!; try done; try lia.
  rewrite subspan_cons by lia. constructor; [done |]. by replace (z - q - 1) with (z - (q + 1)) by lia.
Qed.

(** A string that ends before the limit of the search. *)
Lemma string_found n b q z : 0 <= q -> q + Z.of_nat n <= zlen b -> until_zero n b q = Some z -> z <> q + Z.of_nat n ->
  q <= z < q + Z.of_nat n /\ string_at b q (subspan b q (z - q)) /\ zlen (subspan b q (z - q)) = z - q.
Proof.
  intros Hq Hn Hu Hz. destruct (until_zero_spec n b q Hq Hn) as (z' & Hz' & Hr & Hf & H0). rewrite Hu in Hz'. injection Hz' as <-.
  pose proof (zlen_slice b q (z - q) ltac:(lia) ltac:(lia) ltac:(lia)) as Hl. split_and!; try lia. unfold string_at. rewrite Hl. replace (q + (z - q)) with z by lia.
  split_and!; try done; try lia.
Qed.

Lemma align4_eq `{Arch} x : 0 <= x <= usize_max -> Parser.align4 x = x / 4 * 4.
Proof.
  intros Hx. unfold Parser.align4. rewrite usize_wrap_small by done.
  change 3 with (2 ^ 2 - 1). rewrite (land_not_mask x 2 Hx ltac:(lia)). change (2 ^ 2) with 4. dlia.
Qed.

Lemma be32_some b p : bytes_ok b -> 0 <= p -> p + 4 <= zlen b -> exists v, be32 b p = Some v /\ 0 <= v < 2 ^ 32.
Proof. intros Hok Hp Hb. pose proof (be32_eq b p Hok Hp Hb) as E. eexists. split; [exact E | by apply (word_range b p)]. Qed.
Lemma be64_some b p : bytes_ok b -> 0 <= p -> p + 8 <= zlen b -> exists v, be64 b p = Some v /\ 0 <= v <= u64_max.
Proof.
  intros Hok Hp Hb. rewrite be64_eq by done. eexists. split; [done |]. pose proof (number_range _ (bytes_ok_subspan b p 8 Hok)) as Hr.
  rewrite zlen_slice in Hr by lia. unfold u64_max. change (256 ^ 8) with (2 ^ 64) in Hr. lia.
Qed.

(** Reads a word of the goal. *)
Ltac read_word p v :=
  match goal with
  | |- context [be32 ?b p] => let E := fresh "E" v in let R := fresh "R" v in
      destruct (be32_some b p) as (v & E & R); [try done | try lia | try lia |]; rewrite E; cbn [mbind option_bind]
  end.
Ltac read_long p v :=
  match goal with
  | |- context [be64 ?b p] => let E := fresh "E" v in let R := fresh "R" v in
      destruct (be64_some b p) as (v & E & R); [try done | try lia | try lia |]; rewrite E; cbn [mbind option_bind]
  end.

(** ** Header and reservation table *)
Record layout (p : Parser.t) : Prop := {
  lay_bytes : bytes_ok (Parser.blob_ p);
  lay_size : 40 <= zlen (Parser.blob_ p) <= max_fdt_bytes;
  lay_structure : 40 <= Parser.structure_ p /\ Parser.structure_ p mod 4 = 0 /\ 12 <= Parser.structure_size_ p /\ Parser.structure_ p + Parser.structure_size_ p <= zlen (Parser.blob_ p);
  lay_strings : 40 <= Parser.strings_ p /\ 0 <= Parser.strings_size_ p /\ Parser.strings_ p + Parser.strings_size_ p <= zlen (Parser.blob_ p);
  lay_reserve : 40 <= Parser.reserve_ p /\ Parser.reserve_ p + 16 <= zlen (Parser.blob_ p)
}.

Section Header.
Context `{Arch}.

Lemma header_spec blob : bytes_ok blob -> exists r, Parser.header blob = Some r /\
  match r with
  | Err e => e <> StatusCode.ok
  | Ok (p, m) => layout p /\ FdtMemoryMap.ram m = [] /\ FdtMemoryMap.reservations m = [] /\
      exists total, total <= zlen blob /\ Parser.blob_ p = first blob total /\ be32 blob 0 = Some 0xd00dfeed /\ be32 blob 4 = Some total /\
        be32 blob 8 = Some (Parser.structure_ p) /\ be32 blob 12 = Some (Parser.strings_ p) /\ be32 blob 16 = Some (Parser.reserve_ p) /\ be32 blob 36 = Some (Parser.structure_size_ p)
  end.
Proof.
  intros Hok. unfold Parser.header. destruct (Z.ltb_spec (zlen blob) 40) as [Hl | Hl]; [by eexists |]. read_word 0 magic.
  destruct (Z.eqb_spec magic 0xd00dfeed) as [-> |]; cbn [negb]; [| by eexists].
  read_word 4 size_. read_word 20 version. read_word 24 compatible. case_cond; [by eexists |]. b2p.
  destruct (Z.ltb_spec max_fdt_bytes size_); [by eexists |]. case_cond; [by eexists |].
  read_word 8 structure. read_word 12 strings. read_word 16 reserve. read_word 32 strings_size. read_word 36 structure_size.
  case_cond; [by eexists |]. read_word 28 cpu. eexists. split; [reflexivity |]. unfold Parser.bounded in *. b2p.
  assert (zlen (first blob size_) = size_) as Hz by (rewrite zlen_first; lia).
  split; [| split_and!; try done; exists size_; by split_and!].
  split; cbn; rewrite ?Hz; [by apply bytes_ok_first | ..]; split_and!; try lia.
  pose proof (Z.land_ones structure 2 ltac:(lia)) as E. change (Z.ones 2) with 3 in E. change (2 ^ 2) with 4 in E. lia.
Qed.

Definition valid_range (r : PhysicalRange.t) : Prop := 0 <= PhysicalRange.address r /\ 0 < PhysicalRange.size r /\ PhysicalRange.address r + PhysicalRange.size r <= u64_max.

Lemma validate_range_ok r : 0 <= PhysicalRange.address r -> 0 <= PhysicalRange.size r -> validate_range r = StatusCode.ok <-> valid_range r.
Proof.
  intros Ha Hs. unfold validate_range, valid_range. destruct (Z.eqb_spec (PhysicalRange.size r) 0), (Z.ltb_spec (u64_max - PhysicalRange.address r) (PhysicalRange.size r));
    split; intros Hx; try done; lia.
Qed.

Lemma add_reservation_spec m r source nm re : 0 <= PhysicalRange.address r -> 0 <= PhysicalRange.size r ->
  match Parser.add_reservation m r source nm re with
  | Ok m' => valid_range r /\ m' = FdtMemoryMap.with_reservations m (FdtMemoryMap.reservations m ++ [FirmwareReservation.mk r source nm re]) /\
      zlen (FdtMemoryMap.reservations m) <> max_fdt_reservations
  | Err e => e <> StatusCode.ok
  end.
Proof.
  intros Ha Hs. unfold Parser.add_reservation. pose proof (validate_range_ok r Ha Hs) as Hv. destruct (validate_range r) eqn:E; cbn [status_ok negb]; try done.
  destruct (Z.eqb_spec (zlen (FdtMemoryMap.reservations m)) max_fdt_reservations); [done |]. split_and!; [by apply Hv | done | done].
Qed.

Lemma small_usize x : 0 <= x <= 2 * max_fdt_bytes -> usize_wrap x = x.
Proof. intros Hx. apply usize_wrap_small. pose proof usize_max_pos. unfold max_fdt_bytes in *. lia. Qed.

(** [m'] is [m] with the reservations [l] added. *)
Definition reserved_more (m m' : FdtMemoryMap.t) (l : list FirmwareReservation.t) : Prop :=
  FdtMemoryMap.ram m' = FdtMemoryMap.ram m /\ FdtMemoryMap.reservations m' = FdtMemoryMap.reservations m ++ l /\
  Forall (fun r => valid_range (FirmwareReservation.range r)) l /\
  (zlen (FdtMemoryMap.reservations m) <= max_fdt_reservations -> zlen (FdtMemoryMap.reservations m') <= max_fdt_reservations).

Lemma reserved_nil m : reserved_more m m [].
Proof. split_and!; try done. by rewrite app_nil_r. Qed.
Lemma reserved_trans m1 m2 m3 l k : reserved_more m1 m2 l -> reserved_more m2 m3 k -> reserved_more m1 m3 (l ++ k).
Proof.
  intros (Hr & He & Hf & Hz) (Hr' & He' & Hf' & Hz'). split_and!; [congruence | rewrite He', He; by rewrite app_assoc | by apply Forall_app | auto].
Qed.
Lemma reserved_one m r source nm re m' : 0 <= PhysicalRange.address r -> 0 <= PhysicalRange.size r ->
  Parser.add_reservation m r source nm re = Ok m' -> reserved_more m m' [FirmwareReservation.mk r source nm re].
Proof.
  intros Ha Hs He. pose proof (add_reservation_spec m r source nm re Ha Hs) as Hx. rewrite He in Hx. destruct Hx as (Hv & -> & Hz).
  split_and!; try done; [by apply Forall_cons |]. cbn. rewrite zlen_app. change (zlen [_]) with 1. lia.
Qed.

Lemma reserves_loop_spec p n : layout p -> forall q m, 0 <= q -> (0 < n)%nat -> zlen (Parser.blob_ p) < q + Z.of_nat n ->
  exists r, Parser.reserves_loop n p q m = Some r /\
    match r with
    | Ok m' => exists l, table (Parser.blob_ p) q l /\ reserved_more m m' (map table_entry l)
    | Err e => e <> StatusCode.ok
    end.
Proof.
  intros Hlay. pose proof (lay_bytes p Hlay) as Hok. pose proof (lay_size p Hlay). induction n as [| n IH]; intros q m Hq Hn Hz; [lia |]. cbn [Parser.reserves_loop].
  destruct (Z.ltb_spec (zlen (Parser.blob_ p) - 16) q) as [Hlt | Hge]; [by eexists |]. case_cond; [by eexists |].
  read_long q from. read_long (q + 8) len. case_cond.
  { b2p. subst. eexists. split; [reflexivity |]. exists []. split; [by constructor | apply reserved_nil]. }
  pose proof (add_reservation_spec m (PhysicalRange.mk from len) ReservationSource.reserve_table false false ltac:(cbn; lia) ltac:(cbn; lia)) as Ha.
  destruct (Parser.add_reservation _ _ _ _ _) as [m' | e] eqn:Em; [| by eexists]. rewrite small_usize by lia.
  apply reserved_one in Em; [| cbn; lia | cbn; lia]. destruct (IH (q + 16) m' ltac:(lia) ltac:(lia) ltac:(lia)) as (r & -> & Hr). eexists. split; [reflexivity |].
  destruct r as [m'' | e]; [| done]. destruct Hr as (l & Ht & Hl). exists (PhysicalRange.mk from len :: l). split; [apply table_next; try done; intros [= -> ->]; done |].
  by apply (reserved_trans _ _ _ [_] _ Em).
Qed.
End Header.
