(* ===== verification/FdtUnique.v ===== *)
(** * A blob spells one tree

    The positions of the events of a structure block are determined one after
    the other, and the events determine the tree. *)

From S2P Require Import Prelude Epoch Wire Checksum Firmware FdtTree.
Import Fdt.

(** ** Events determine the tree *)
Fixpoint tree_size (t : tree) : nat := match t with Tree _ _ children => S (foldr (fun c n => tree_size c + n)%nat O children) end.

Lemma property_events_split ps ps' r r' : (forall n v k, r <> Property n v :: k) -> (forall n v k, r' <> Property n v :: k) ->
  property_events ps ++ r = property_events ps' ++ r' -> ps = ps' /\ r = r'.
Proof.
  intros Hr Hr'. revert ps'. induction ps as [| [n v] ps IH]; intros [| [n' v'] ps']; cbn; intros E.
  - done.
  - by destruct (Hr n' v' (property_events ps' ++ r')).
  - by destruct (Hr' n v (property_events ps ++ r)).
  - injection E as -> -> E. by destruct (IH ps' E) as [-> ->].
Qed.

Lemma children_head cs r n v k : flat_map events cs ++ End_ :: r <> Property n v :: k.
Proof. by destruct cs as [| [m p c] cs]. Qed.

Lemma events_split n : forall t t' r r', (tree_size t < n)%nat -> events t ++ r = events t' ++ r' -> t = t' /\ r = r'.
Proof.
  induction n as [| n IH]; intros [name ps cs] [name' ps' cs'] r r' Hn; [lia |]. cbn [events tree_size] in *. cbn [app]. rewrite <- !app_assoc. cbn [app]. intros [= <- E].
  rewrite <- ?app_assoc in E. cbn [app] in E. apply property_events_split in E as [<- E]; [| intros; apply children_head | intros; apply children_head].
  assert (cs = cs' /\ r = r') as [<- <-]; [| done]. clear name ps. revert cs' E Hn. induction cs as [| c cs IHc]; intros [| c' cs']; cbn [flat_map app foldr]; intros E Hn.
  - by injection E as <-.
  - by destruct c'.
  - by destruct c.
  - rewrite <- !app_assoc in E. destruct (IH c c' _ _ ltac:(lia) E) as [<- E']. by destruct (IHc cs' E' ltac:(lia)) as [<- <-].
Qed.

Lemma events_inj t t' : events t = events t' -> t = t'.
Proof. intros E. apply (events_split (S (tree_size t)) t t' [] []); [lia | by rewrite !app_nil_r]. Qed.

(** ** The blob determines the events *)
Lemma string_at_unique b q n n' : string_at b q n -> string_at b q n' -> n = n'.
Proof.
  intros (Hq & Hb & Hn & Hz & Hf) (_ & Hb' & Hn' & Hz' & Hf').
  assert (zlen n = zlen n') as E; [| congruence].
  assert (forall m m' : Bytes, zlen m < zlen m' -> q + zlen m' < zlen b -> subspan b q (zlen m') = m' -> Forall (fun c => c <> 0) m' -> b.[q + zlen m] = 0 -> False) as Hno.
  { intros m m' Hlt Hm' Hs Hf0 H0. pose proof (zlen_nonneg m). pose proof (lookup_aget m' (zlen m) ltac:(lia)) as Hl. apply (Forall_lookup_1 _ _ _ _ Hf0) in Hl. apply Hl.
    rewrite <- Hs, aget_subspan by lia. done. }
  destruct (Z.lt_trichotomy (zlen n) (zlen n')) as [Hlt | [? | Hlt]]; [exfalso; by eapply Hno | done | exfalso; by eapply Hno].
Qed.

Lemma table_unique b q l l' : table b q l -> table b q l' -> l = l'.
Proof.
  intros Ht. revert l'. induction Ht as [q Ha Hs | q r l Hr Ha Hs Ht IH]; intros l' Ht'; inversion Ht' as [q' Ha' Hs' | q' r' k Hr' Ha' Hs' Hk]; subst; try done.
  - exfalso. apply Hr'. destruct r'. cbn in *. unfold PhysicalRange.none. congruence.
  - exfalso. apply Hr. destruct r. cbn in *. unfold PhysicalRange.none. congruence.
  - f_equal; [destruct r, r'; cbn in *; congruence | by apply IH].
Qed.

Section Events.
Context (b : Bytes) (structure strings : Z).

(** One token of the structure block, with the event it is. *)
Inductive token : Z -> Z -> list event -> Prop :=
  | token_nop q : be32 b q = Some 4 -> token q (q + 4) []
  | token_begin q name : be32 b q = Some 1 -> string_at b (q + 4) name -> token q (up4 (q + 4 + zlen name + 1)) [Begin name]
  | token_property q name value offset : be32 b q = Some 3 -> be32 b (q + 4) = Some (zlen value) -> be32 b (q + 8) = Some offset ->
      string_at b (strings + offset) name -> subspan b (q + 12) (zlen value) = value -> token q (up4 (q + 12 + zlen value)) [Property name value]
  | token_end q : be32 b q = Some 2 -> token q (q + 4) [End_].

Lemma token_unique q q1 e1 q2 e2 : token q q1 e1 -> token q q2 e2 -> q1 = q2 /\ e1 = e2.
Proof.
  intros Ht1 Ht2. destruct Ht1 as [q H1 | q n1 H1 Hs1 | q n1 v1 o1 H1 Hl1 Ho1 Hs1 Hv1 | q H1]; inversion Ht2 as [q' H2 | q' n2 H2 Hs2 | q' n2 v2 o2 H2 Hl2 Ho2 Hs2 Hv2 | q' H2]; subst q'; rewrite H1 in H2; try done.
  - by rewrite (string_at_unique b _ _ _ Hs1 Hs2).
  - rewrite Ho1 in Ho2. injection Ho2 as <-. rewrite Hl1 in Hl2. injection Hl2 as E. pose proof (string_at_unique b _ _ _ Hs1 Hs2) as <-. assert (v1 = v2) as <- by congruence. done.
Qed.

Lemma token_forward q q' e : token q q' e -> q < q'.
Proof. intros [? ? | ? n | ? ? v | ? ?]; unfold up4; try pose proof (zlen_nonneg n); try pose proof (zlen_nonneg v); dlia. Qed.

(** The first [n] tokens. *)
Inductive path : nat -> Z -> list event -> Prop :=
  | path_start : path O structure []
  | path_token n q l q' e : path n q l -> token q q' e -> path (S n) q' (l ++ e).

Lemma spells_path q l : spells b structure strings q l -> exists n, path n q l.
Proof.
  intros Hs. induction Hs as [| q l Hs [n IH] H4 | q l name Hs [n IH] H1 Hn | q l name v o Hs [n IH] H3 Hl Ho Hn Hv | q l Hs [n IH] H2].
  - exists O. constructor.
  - exists (S n). rewrite <- (app_nil_r l). by eapply path_token, token_nop.
  - exists (S n). by eapply path_token, token_begin.
  - exists (S n). by eapply path_token, token_property.
  - exists (S n). by eapply path_token, token_end.
Qed.

Lemma path_unique n : forall q l q' l', path n q l -> path n q' l' -> q = q' /\ l = l'.
Proof.
  induction n as [| n IH]; intros q l q' l' Hp Hp'; inversion Hp as [| ? q0 l0 ? e Hp0 Ht]; inversion Hp' as [| ? q0' l0' ? e' Hp0' Ht']; subst; [done |].
  destruct (IH _ _ _ _ Hp0 Hp0') as [<- <-]. by destruct (token_unique _ _ _ _ _ Ht Ht') as [<- <-].
Qed.

Lemma path_before m q l n : path m q l -> (n < m)%nat -> exists q' l', path n q' l' /\ q' < q.
Proof.
  intros Hp. revert n. induction Hp as [| m q l q' e Hp IH Ht]; intros n Hn; [lia |]. apply token_forward in Ht.
  destruct (decide (n = m)) as [-> |]; [by exists q, l |]. destruct (IH n ltac:(lia)) as (q0 & l0 & Hp0 & Hlt). exists q0, l0. split; [done | lia].
Qed.

Lemma spells_unique q l l' : spells b structure strings q l -> spells b structure strings q l' -> l = l'.
Proof.
  intros [n Hn]%spells_path [m Hm]%spells_path. destruct (Nat.lt_trichotomy n m) as [Hlt | [<- | Hlt]].
  - destruct (path_before m q l' n Hm Hlt) as (q' & k & Hp & Hq). destruct (path_unique n _ _ _ _ Hn Hp). lia.
  - by destruct (path_unique n _ _ _ _ Hn Hm).
  - destruct (path_before n q l m Hn Hlt) as (q' & k & Hp & Hq). destruct (path_unique m _ _ _ _ Hm Hp). lia.
Qed.
End Events.

Lemma holds_tree_unique blob l t l' t' : holds_tree blob l t -> holds_tree blob l' t' -> l = l' /\ t = t'.
Proof.
  intros (total & structure & strings & reserve & size & q & _ & Ht & Hst & Hstr & Hr & Hsz & _ & Htab & Hsp & _ & Hq)
    (total' & structure' & strings' & reserve' & size' & q' & _ & Ht' & Hst' & Hstr' & Hr' & Hsz' & _ & Htab' & Hsp' & _ & Hq').
  simplify_eq. split; [by eapply table_unique |]. apply events_inj. replace q' with q in Hsp' by lia. by eapply spells_unique.
Qed.
