(* ===== verification/FdtNodes.v ===== *)
(** * Nodes of a device tree being parsed

    The record the parser keeps for an open node holds what the properties seen
    so far say, and finish() adds the ranges of its reg property to the map. *)

From S2P Require Import Prelude Epoch Wire Checksum Firmware FdtTree.
From Stdlib Require String.
Import String.StringSyntax.
Import Fdt Node.

Lemma same_true a b : same a b = true -> a = b.
Proof. unfold same. by intros ?%bool_decide_eq_true. Qed.

Lemma attribute_other props name v k : same name (text k) = false -> attribute (props ++ [(name, v)]) k = attribute props k.
Proof.
  intros Hn. unfold attribute. induction props as [| p props IH]; cbn; [by rewrite Hn |]. by destruct (same p.1 (text k)).
Qed.
Lemma attribute_new props name v k : same name (text k) = true -> attribute props k = None -> attribute (props ++ [(name, v)]) k = Some v.
Proof.
  intros Hn. unfold attribute. induction props as [| p props IH]; cbn; [by rewrite Hn |]. by destruct (same p.1 (text k)).
Qed.

Lemma string_value_spec v : match string_value v with Ok t => v = t ++ [0] | Err e => e <> StatusCode.ok end.
Proof.
  unfold string_value. case_cond; [done |]. case_cond; [done |]. b2p. pose proof (zlen_nonneg v).
  unfold first. rewrite <- (take_drop (Z.to_nat (zlen v - 1)) v) at 1. f_equal.
  pose proof (drop_S v v.[zlen v - 1] (Z.to_nat (zlen v - 1)) ltac:(apply lookup_aget; lia)) as ->. rewrite drop_ge by (unfold zlen in *; lia). by f_equal.
Qed.

Lemma same_zero_ended t s : same (t ++ [0]) (zero_ended s) = same t (text s).
Proof.
  unfold same, zero_ended. apply bool_decide_ext. split; [| by intros ->]. by intros [? _]%app_inj_tail.
Qed.

Lemma typed_snoc t props : attribute props "device_type" = Some (t ++ [0]) -> typed_memory props = same t (text "memory").
Proof. intros E. unfold typed_memory. rewrite E, <- same_zero_ended. unfold same. apply bool_decide_ext. split; [by intros [= ->] | by intros ->]. Qed.

Lemma subspan_all v n : n = zlen v -> subspan v 0 n = v.
Proof. intros ->. unfold subspan, zlen. rewrite drop_0, take_ge; [done | lia]. Qed.

(** What the node of a tree node with these properties holds; [level] is its
    depth, [kind0] and [enabled0] are the kind and the state it was opened with. *)
Record node_ok (b : Bytes) (level : Z) (kind0 : Kind.t) (enabled0 : bool) (props : list (Bytes * Bytes)) (node : Node.t) : Prop := {
  nk_kind : kind node = if typed_memory props then Kind.memory else kind0;
  nk_typed : typed_memory props = true -> level = 2 /\ (kind0 = Kind.memory \/ kind0 = Kind.other);
  nk_address : address_cells node = (cells props).1;
  nk_size : size_cells node = (cells props).2;
  nk_address_seen : address_seen node = present props "#address-cells";
  nk_size_seen : size_seen node = present props "#size-cells";
  nk_status_seen : status_seen node = present props "status";
  nk_type_seen : type_seen node = present props "device_type";
  nk_reg_seen : reg_seen node = present props "reg";
  nk_reg : forall v, attribute props "reg" = Some v ->
    reg_size node = zlen v /\ 0 <= reg_offset node /\ reg_offset node + zlen v <= zlen b /\ subspan b (reg_offset node) (zlen v) = v;
  nk_enabled : enabled node = enabled0 && okay props;
  nk_no_map : kind0 = Kind.reservation -> no_map node = present props "no-map";
  nk_reusable : kind0 = Kind.reservation -> reusable node = present props "reusable"
}.

Lemma node_opened b level kind0 enabled0 named : node_ok b level kind0 enabled0 [] (opened kind0 enabled0 named).
Proof. split; try done. cbn. by rewrite andb_true_r. Qed.

Lemma present_none props k : present props k = false -> attribute props k = None.
Proof. unfold present. intros Hp%bool_decide_eq_false. destruct (attribute props k); [by destruct Hp | done]. Qed.

(** The attributes of a node with one more property. *)
Ltac attrs :=
  unfold okay, cells, typed_memory, present in *; cbn [fst snd] in *;
  repeat first [rewrite attribute_other by (first [assumption | vm_compute; reflexivity])
               | rewrite attribute_new by (first [assumption | vm_compute; reflexivity | apply present_none; unfold present; congruence])].

Section Property.
Context `{Arch} (p : Parser.t).
Hypothesis Hlay : layout p.
Local Abbreviation b := (Parser.blob_ p).

Lemma property_spec node depth name off size kind0 enabled0 props : 0 <= off -> 0 <= size -> off + size <= zlen b ->
  node_ok b depth kind0 enabled0 props node -> (depth = 2 -> kind0 <> Kind.root /\ kind0 <> Kind.reservation) ->
  exists r, Parser.property p node depth name off size = Some r /\
    match r with
    | Ok node' => node_ok b depth kind0 enabled0 (props ++ [(name, subspan b off size)]) node' /\ children node' = children node /\ memory_named node' = memory_named node
    | Err e => e <> StatusCode.ok
    end.
Proof.
  intros Ho Hs Hb Hn Hd. pose proof (lay_bytes p Hlay) as Hok. pose proof (zlen_slice b off size Ho Hs Hb) as Hz. set (v := subspan b off size) in *.
  pose proof (bytes_ok_subspan b off size Hok) as Hv. fold v in Hv.
  unfold Parser.property. fold v. destruct Hn as [Hk Ht Hac Hsc Has Hss Hst Hty Hrs Hrg He Hnm Hre].
  destruct (same name (text "#address-cells")) eqn:E1.
  { apply same_true in E1. subst name. case_cond; [by eexists |]. b2p. rewrite be32_eq by (done || lia). cbn [mbind option_bind]. eexists. split; [reflexivity |].
    split; [| done]. split; attrs; try done. cbn [with_address_cells with_size_cells address_cells size_cells from_option]. by rewrite subspan_all by lia. }
  destruct (same name (text "#size-cells")) eqn:E2.
  { apply same_true in E2. subst name. case_cond; [by eexists |]. b2p. rewrite be32_eq by (done || lia). cbn [mbind option_bind]. eexists. split; [reflexivity |].
    split; [| done]. split; attrs; try done. cbn [with_address_cells with_size_cells address_cells size_cells from_option]. by rewrite subspan_all by lia. }
  destruct (same name (text "reg")) eqn:E3.
  { apply same_true in E3. subst name. destruct (reg_seen node) eqn:Er; [by eexists |]. eexists. split; [reflexivity |].
    split; [| done]. split; attrs; try done. intros v' [= <-]. cbn. rewrite Hz. by split_and!. }
  destruct (same name (text "ranges")) eqn:E4.
  { apply same_true in E4. subst name. case_cond; [by eexists |]. eexists. split; [reflexivity |]. split; [| done]. by split; attrs. }
  destruct (same name (text "status")) eqn:E5.
  { apply same_true in E5. subst name. destruct (status_seen node) eqn:Er; [by eexists |]. pose proof (string_value_spec v) as Hsv. destruct (string_value v) as [t | e]; [| by eexists].
    eexists. split; [reflexivity |]. split; [| done]. split; attrs; try done. cbn [with_status enabled].
    assert (attribute props "status" = None) as Hnone by (apply present_none; unfold present; congruence). rewrite He, Hnone, Hsv, !same_zero_ended. by destruct enabled0. }
  destruct (same name (text "device_type")) eqn:E6.
  { apply same_true in E6. subst name. destruct (type_seen node) eqn:Er; [by eexists |]. pose proof (string_value_spec v) as Hsv. destruct (string_value v) as [t | e]; [| by eexists].
    assert (attribute props "device_type" = None) as Hnone by (apply present_none; congruence).
    assert (typed_memory (props ++ [(text "device_type", v)]) = same t (text "memory")) as Htm by (apply typed_snoc; rewrite attribute_new; by rewrite ?Hsv).
    assert (typed_memory props = false) as Htf by (unfold typed_memory; by rewrite Hnone). rewrite Htf in Hk.
    destruct (same t (text "memory")).
    - destruct (Z.eqb_spec depth 2) as [E | E]; cbn [negb orb]; [| by eexists]. case_bool_decide as Hkr; [by eexists |]. eexists. split; [reflexivity |].
      split; [| done]. split; rewrite ?Htm; attrs; try done. intros _. destruct (Hd E). split; [done |]. destruct kind0; try done; auto; congruence.
    - case_bool_decide as Hkm; [by eexists |]. eexists. split; [reflexivity |]. split; [| done]. by split; rewrite ?Htm; attrs. }
  assert (kind0 = Kind.reservation -> kind node = Kind.reservation) as Hres.
  { intros Hr. rewrite Hk. destruct (typed_memory props); [| done]. by destruct Ht as [_ [? | ?]]; congruence. }
  destruct (bool_decide (kind node = Kind.reservation) && _) eqn:E7.
  { apply andb_true_iff in E7 as [_ E7]. eexists. split; [reflexivity |]. split; [| done].
    assert (same name (text "no-map") = false /\ same name (text "reusable") = false) as [Hf1 Hf2].
    { rewrite !orb_true_iff in E7. destruct E7 as [[E7 | E7] | E7]; apply same_true in E7; subst name; by vm_compute. }
    by split; attrs. }
  destruct (bool_decide (kind node = Kind.reservation) && (same name (text "no-map") || _)) eqn:E8.
  { apply andb_true_iff in E8 as [Hkr%bool_decide_eq_true E8].
    assert (kind0 = Kind.reservation) as Hk0 by (rewrite Hk in Hkr; by destruct (typed_memory props)). specialize (Hnm Hk0). specialize (Hre Hk0).
    destruct (same name (text "no-map")) eqn:Ef.
    - apply same_true in Ef. subst name. case_cond; [by eexists |]. b2p. case_cond; [by eexists |]. eexists. split; [reflexivity |]. split; [| done]. by split; attrs.
    - cbn [orb] in E8. apply same_true in E8. subst name. case_cond; [by eexists |]. b2p. case_cond; [by eexists |]. eexists. split; [reflexivity |]. split; [| done]. by split; attrs. }
  eexists. split; [reflexivity |]. split; [| done].
  assert (kind0 = Kind.reservation -> same name (text "no-map") = false /\ same name (text "reusable") = false) as Hf.
  { intros Hr. rewrite (bool_decide_true (kind node = Kind.reservation)) in E8 by auto. cbn [andb] in E8. by apply orb_false_iff in E8. }
  split; attrs; try done; intros Hr; destruct (Hf Hr); attrs; auto.
Qed.

(** [m'] is [m] with the RAM ranges [l] added. *)
Definition ram_more (m m' : FdtMemoryMap.t) (l : list PhysicalRange.t) : Prop :=
  FdtMemoryMap.reservations m' = FdtMemoryMap.reservations m /\ FdtMemoryMap.ram m' = FdtMemoryMap.ram m ++ l /\ Forall valid_range l /\
  (zlen (FdtMemoryMap.ram m) <= max_fdt_ram_ranges -> zlen (FdtMemoryMap.ram m') <= max_fdt_ram_ranges).
Definition added (node : Node.t) (m m' : FdtMemoryMap.t) (l : list PhysicalRange.t) : Prop :=
  if bool_decide (kind node = Kind.reservation)
  then reserved_more m m' (map (fun r => FirmwareReservation.mk r ReservationSource.reserved_memory (no_map node) (reusable node)) l)
  else ram_more m m' l.

Lemma added_nil node m : added node m m [].
Proof. unfold added. case_bool_decide; [apply reserved_nil |]. split_and!; try done. by rewrite app_nil_r. Qed.
Lemma added_cons node m1 m2 m3 x l : added node m1 m2 [x] -> added node m2 m3 l -> added node m1 m3 (x :: l).
Proof.
  unfold added. case_bool_decide; [intros H1 H2; exact (reserved_trans _ _ _ _ _ H1 H2) |].
  intros (Hr & He & Hf & Hz) (Hr' & He' & Hf' & Hz'). split_and!; [congruence | rewrite He', He; by rewrite <- app_assoc | by apply (Forall_app_2 _ [x] l) | auto].
Qed.

Lemma subspan_subspan (v : Bytes) o n j k : 0 <= o -> 0 <= j -> 0 <= k -> j + k <= n -> subspan (subspan v o n) j k = subspan v (o + j) k.
Proof.
  intros Ho Hj Hk Hn. unfold subspan. rewrite skipn_firstn_comm, drop_drop, take_take. f_equal; [lia |]. f_equal. lia.
Qed.

Lemma field_at (c o : Z) : c = 1 \/ c = 2 -> 0 <= o -> o + c * 4 <= zlen b ->
  (if c =? 2 then be64 b o else be32 b o) = Some (number (subspan b o (c * 4))) /\ 0 <= number (subspan b o (c * 4)).
Proof.
  intros Hc Ho Hb. pose proof (lay_bytes p Hlay) as Hok. split; [| apply number_range, bytes_ok_subspan, Hok].
  destruct Hc as [-> | ->]; [apply be32_eq | apply be64_eq]; done.
Qed.

Section Reg.
Context (root node : Node.t) (v : Bytes).
Hypothesis Hac : address_cells root = 1 \/ address_cells root = 2.
Hypothesis Hsc : size_cells root = 1 \/ size_cells root = 2.
Hypothesis Hsize : reg_size node = zlen v.
Hypothesis Hoffset : 0 <= reg_offset node /\ reg_offset node + zlen v <= zlen b /\ subspan b (reg_offset node) (zlen v) = v.
Local Abbreviation stride := ((address_cells root + size_cells root) * 4).
Hypothesis Hmod : zlen v mod stride = 0.
Local Abbreviation range_of i := (PhysicalRange.mk (number (subspan v (i * stride) (address_cells root * 4)))
  (number (subspan v (i * stride + address_cells root * 4) (size_cells root * 4)))).

Lemma step_added m x : 0 <= PhysicalRange.address x -> 0 <= PhysicalRange.size x ->
  match (if bool_decide (kind node = Kind.reservation)
         then Parser.add_reservation m x ReservationSource.reserved_memory (no_map node) (reusable node)
         else if zlen (FdtMemoryMap.ram m) =? max_fdt_ram_ranges then Err StatusCode.overflow
         else Ok (FdtMemoryMap.with_ram m (FdtMemoryMap.ram m ++ [x]))) with
  | Ok m' => valid_range x -> added node m m' [x]
  | Err e => e <> StatusCode.ok
  end.
Proof.
  intros Ha Hs. unfold added. case_bool_decide.
  - pose proof (add_reservation_spec m x ReservationSource.reserved_memory (no_map node) (reusable node) Ha Hs) as Hx.
    destruct (Parser.add_reservation _ _ _ _ _) eqn:E; [| done]. intros _. by apply reserved_one.
  - destruct (Z.eqb_spec (zlen (FdtMemoryMap.ram m)) max_fdt_ram_ranges); [done |]. intros Hv.
    split_and!; try done; [by apply Forall_cons |]. cbn. rewrite zlen_app. change (zlen [_]) with 1. lia.
Qed.

Lemma reg_loop_spec n : forall i m, 0 <= i <= zlen v / stride -> zlen v / stride - i <= Z.of_nat n ->
  exists r, Parser.reg_loop n p root node stride (i * stride) m = Some r /\
    match r with
    | Ok m' => added node m m' (map (fun i => range_of i) (seqZ i (zlen v / stride - i)))
    | Err e => e <> StatusCode.ok
    end.
Proof.
  pose proof (lay_size p Hlay) as Hz. destruct Hoffset as (Ho & Hob & Hv).
  assert (8 <= stride <= 16) as Hst by lia. assert (zlen v = zlen v / stride * stride) as Hk by dlia. set (k := zlen v / stride) in *.
  induction n as [| n IH]; intros i m Hi Hn; cbn [Parser.reg_loop]; rewrite Hsize.
  all: destruct (Z.leb_spec (zlen v) (i * stride)) as [Hle | Hlt];
    [eexists; split; [reflexivity |]; assert (i = k) as -> by nia; rewrite Z.sub_diag; apply added_nil |].
  { exfalso. nia. }
  assert (i < k) as Hik by nia. assert ((i + 1) * stride <= zlen v) as Hnext by nia. assert (0 <= i * stride) as Hi0 by nia.
  destruct (field_at (address_cells root) (reg_offset node + i * stride) Hac ltac:(lia) ltac:(lia)) as [-> Ha0]. cbn [mbind option_bind].
  destruct (field_at (size_cells root) (reg_offset node + i * stride + address_cells root * 4) Hsc ltac:(lia) ltac:(lia)) as [-> Hs0]. cbn [mbind option_bind].
  assert (forall j c, 0 <= j -> 0 <= c -> j + c <= zlen v -> subspan b (reg_offset node + j) c = subspan v j c) as Hsub
    by (intros j c Hj Hc Hjc; rewrite <- (subspan_subspan b _ (zlen v)) by lia; by rewrite Hv).
  rewrite <- Z.add_assoc in Hs0 |- *. rewrite (Hsub (i * stride) (address_cells root * 4)) in Ha0 |- * by lia. rewrite (Hsub (i * stride + address_cells root * 4) (size_cells root * 4)) in Hs0 |- * by lia.
  pose proof (step_added m (range_of i) Ha0 Hs0) as Hstep. pose proof (validate_range_ok (range_of i) Ha0 Hs0) as Hval.
  destruct (validate_range (range_of i)) eqn:Ev; cbn [status_ok negb]; try by eexists. specialize (proj1 Hval eq_refl) as Hvalid.
  destruct (if bool_decide (kind node = Kind.reservation) then _ else _) as [m1 | e]; [| by eexists].
  rewrite small_usize by (unfold max_fdt_bytes in *; lia). replace (i * stride + stride) with ((i + 1) * stride) by lia.
  destruct (IH (i + 1) m1 ltac:(lia) ltac:(lia)) as (r & -> & Hr). eexists. split; [reflexivity |]. destruct r as [m2 | e]; [| done].
  rewrite seqZ_cons by lia. cbn [map]. eapply added_cons; [by apply Hstep |]. replace (Z.pred (k - i)) with (k - (i + 1)) by lia. exact Hr.
Qed.
End Reg.

Lemma one_or_two_cases c : Parser.one_or_two c = true -> c = 1 \/ c = 2.
Proof. unfold Parser.one_or_two. intros Hc. b2p. destruct Hc; b2p; lia. Qed.

(** What a node adds to the map when it is closed. *)
Definition closes (root props : list (Bytes * Bytes)) (node : Node.t) (m m' : FdtMemoryMap.t) : Prop :=
  if enabled node && (bool_decide (kind node = Kind.memory) || bool_decide (kind node = Kind.reservation))
  then added node m m' (reg_ranges root props) else m' = m.

Lemma finish_spec root node m rootprops props level kind0 enabled0 : address_cells root = (cells rootprops).1 -> size_cells root = (cells rootprops).2 ->
  (enabled node = true -> kind node = Kind.memory \/ kind node = Kind.reservation -> Parser.one_or_two (address_cells root) = true /\ Parser.one_or_two (size_cells root) = true) ->
  node_ok b level kind0 enabled0 props node ->
  exists r, Parser.finish p root node m = Some r /\ match r with Ok m' => closes rootprops props node m m' | Err e => e <> StatusCode.ok end.
Proof.
  intros Ha Hs Hcells Hn. unfold Parser.finish, closes. destruct (Parser.validate_parent root node) eqn:Ev; cbn [status_ok negb]; try by eexists.
  case_cond; [by eexists |]. destruct (enabled node) eqn:He; cbn [negb orb andb]; [| by eexists].
  destruct (bool_decide (kind node = Kind.memory) || bool_decide (kind node = Kind.reservation)) eqn:Hk.
  2: { apply orb_false_iff in Hk as [-> ->]. by eexists. }
  rewrite <- negb_orb, Hk. cbn [negb]. case_cond; [by eexists |]. case_cond; [by eexists |]. apply orb_false_iff in E1 as [Hseen Hnz]. apply negb_false_iff in Hseen.
  destruct Hcells as [Hac%one_or_two_cases Hsc%one_or_two_cases]; [done | |].
  { apply orb_true_iff in Hk as [Hk%bool_decide_eq_true | Hk%bool_decide_eq_true]; auto. }
  assert (u32_wrap ((address_cells root + size_cells root) * 4) = (address_cells root + size_cells root) * 4) as -> by (apply Z.mod_small; lia).
  destruct (Z.eqb_spec ((address_cells root + size_cells root) * 4) 0); [lia |]. case_cond; [by eexists |]. b2p.
  rewrite (nk_reg_seen _ _ _ _ _ _ Hn) in Hseen. unfold present in Hseen. apply bool_decide_eq_true in Hseen as [v Hv].
  destruct (nk_reg _ _ _ _ _ _ Hn v Hv) as (Hsz & Hoff). rewrite Hsz in *.
  destruct (reg_loop_spec root node v Hac Hsc Hsz Hoff ltac:(done) (Z.to_nat (zlen v)) 0 m) as (r & Hr & Hm).
  { split; [lia |]. apply Z.div_pos; [apply zlen_nonneg | lia]. }
  { pose proof (zlen_nonneg v). dlia. }
  exists r. rewrite Z.mul_0_l in Hr. split; [exact Hr |]. destruct r as [m' |]; [| done]. unfold reg_ranges, ranges. rewrite Hv, <- Ha, <- Hs. cbn [default fst snd].
  by rewrite Z.sub_0_r in Hm.
Qed.
End Property.
