(* ===== verification/FdtClaims.v ===== *)
(** * Theorems about the parser of device trees

    The loop of the parser keeps the nodes that are open; what it has read is
    the beginning of a tree, and the map holds what the closed nodes of that
    tree say.  It ends on every input and reads nothing outside the blob. *)

From S2P Require Import Prelude Epoch Wire Checksum Firmware FdtTree FdtUnique FdtNodes.
From Stdlib Require String.
Import String.StringSyntax.
Import Fdt Node Parser.Scan.

(** An open node: its name, its properties and its closed children. *)
Record frame := mk_frame { fname : Bytes; fprops : list (Bytes * Bytes); fdone : list tree }.
#[global] Instance frame_inhabited : Inhabited frame := populate (mk_frame [] [] []).
Definition closed_tree (f : frame) : tree := Tree (fname f) (fprops f) (fdone f).
Definition frame_events (f : frame) : list event := Begin (fname f) :: property_events (fprops f) ++ flat_map events (fdone f).
Definition open_events (fs : list frame) : list event := flat_map frame_events fs.

(** The kind a node is opened with, by its level below the root. *)
Definition kind_below (j : Z) (name : Bytes) (parent : Kind.t) : Kind.t :=
  if j =? 0 then Kind.root
  else if j =? 1 then if same name (text "reserved-memory") then Kind.reserved_root else if memory_name name then Kind.memory else Kind.other
  else if bool_decide (parent = Kind.reserved_root) then Kind.reservation else Kind.other.

(** RAM and reservations of the nodes that are closed. *)
Definition ram_open (fs : list frame) : list PhysicalRange.t := match fs with [] => [] | f :: _ => ram_of (closed_tree f) end.
Definition reserved_open (fs : list frame) : list FirmwareReservation.t :=
  match fs with
  | [] => []
  | f :: rest => reserved_of (closed_tree f) ++ match rest with [] => [] | g :: _ => reserved_child (fprops f) (closed_tree g) end
  end.

(** ** Lists of frames *)
Lemma open_events_snoc fs f : open_events (fs ++ [f]) = open_events fs ++ frame_events f.
Proof. unfold open_events. rewrite flat_map_app. cbn. by rewrite app_nil_r. Qed.
Lemma last_frame (fs : list frame) f : (fs ++ [f]).[zlen fs] = f.
Proof. rewrite aget_app_r by lia. by rewrite Z.sub_diag. Qed.

Lemma ram_of_snoc f t : ram_of (closed_tree (mk_frame (fname f) (fprops f) (fdone f ++ [t]))) = ram_of (closed_tree f) ++ ram_child (fprops f) t.
Proof. unfold ram_of. cbn. rewrite flat_map_app. cbn. by rewrite app_nil_r. Qed.
Lemma reserved_of_snoc f t : reserved_of (closed_tree (mk_frame (fname f) (fprops f) (fdone f ++ [t]))) = reserved_of (closed_tree f) ++ reserved_child (fprops f) t.
Proof. unfold reserved_of. cbn. rewrite flat_map_app. cbn. by rewrite app_nil_r. Qed.
Lemma reserved_child_snoc root f t : reserved_child root (closed_tree (mk_frame (fname f) (fprops f) (fdone f ++ [t]))) =
  reserved_child root (closed_tree f) ++ if okay root && okay (fprops f) && same (fname f) (text "reserved-memory") then reserved_entry root t else [].
Proof. unfold reserved_child. cbn [closed_tree tprops tname tchildren fname fprops fdone]. case_cond; [| done]. rewrite flat_map_app. cbn. by rewrite app_nil_r. Qed.

Section Loop.
Context `{Arch} (p : Parser.t) (table_ : list PhysicalRange.t).
Hypothesis Hlay : layout p.
Local Abbreviation b := (Parser.blob_ p).
Local Abbreviation limit := (Parser.structure_ p + Parser.structure_size_ p).

(** The node at level [j] holds what the frame at level [j] says. *)
Definition node_at (stack : list Node.t) (fs : list frame) (j : Z) : Prop :=
  node_ok b (j + 1) (kind_below j (fname fs.[j]) (kind stack.[j - 1])) (if j =? 0 then true else enabled stack.[j - 1]) (fprops fs.[j]) stack.[j].

(** What the map holds. *)
Record map_ok (m : FdtMemoryMap.t) (ram : list PhysicalRange.t) (reserved : list FirmwareReservation.t) : Prop := {
  mo_ram : FdtMemoryMap.ram m = ram;
  mo_reserved : FdtMemoryMap.reservations m = map table_entry table_ ++ reserved;
  mo_ram_valid : Forall valid_range ram;
  mo_reserved_valid : Forall (fun r => valid_range (FirmwareReservation.range r)) (FdtMemoryMap.reservations m);
  mo_counts : zlen (FdtMemoryMap.ram m) <= max_fdt_ram_ranges /\ zlen (FdtMemoryMap.reservations m) <= max_fdt_reservations
}.

Record scanning (s : Parser.Scan.t) (fs : list frame) : Prop := {
  sc_position : Parser.structure_ p <= position s <= limit;
  sc_depth : depth s = zlen fs /\ zlen fs <= max_fdt_depth;
  sc_stack : zlen (stack_ s) = max_fdt_depth;
  sc_flags : root_closed s = false /\ root_seen s = bool_decide (fs <> []);
  sc_nodes : forall j, 0 <= j < zlen fs -> node_at (stack_ s) fs j;
  sc_children : forall j, 0 <= j < zlen fs -> children (stack_ s).[j] = bool_decide (j < zlen fs - 1 \/ fdone fs.[j] <> []);
  sc_cells : 1 < zlen fs -> enabled (stack_ s).[0] = true ->
    Parser.one_or_two (address_cells (stack_ s).[0]) = true /\ Parser.one_or_two (size_cells (stack_ s).[0]) = true;
  sc_spells : spells b (Parser.structure_ p) (Parser.strings_ p) (position s) (open_events fs);
  sc_map : map_ok (map_ s) (ram_open fs) (reserved_open fs)
}.
Record scanned (s : Parser.Scan.t) (t : tree) : Prop := {
  sd_position : Parser.structure_ p <= position s <= limit;
  sd_flags : depth s = 0 /\ root_closed s = true;
  sd_spells : spells b (Parser.structure_ p) (Parser.strings_ p) (position s) (events t);
  sd_map : map_ok (map_ s) (ram_of t) (reserved_of t)
}.

Lemma end_eq : Parser.end_ p = limit.
Proof. pose proof (lay_structure p Hlay). pose proof (lay_size p Hlay). apply small_usize. lia. Qed.

Lemma node_ok_children level kind0 enabled0 props node : node_ok b level kind0 enabled0 props node -> node_ok b level kind0 enabled0 props (with_children node).
Proof. by intros []. Qed.

Lemma node_ok_with stack' stack fs j : 0 <= j -> node_at stack fs j -> stack'.[j] = stack.[j] \/ stack'.[j] = with_children stack.[j] ->
  (0 < j -> kind stack'.[j - 1] = kind stack.[j - 1] /\ enabled stack'.[j - 1] = enabled stack.[j - 1]) -> node_at stack' fs j.
Proof.
  unfold node_at, kind_below. intros Hj Hn Hs Hp.
  assert (forall k e, node_ok b (j + 1) k e (fprops fs.[j]) stack.[j] -> node_ok b (j + 1) k e (fprops fs.[j]) stack'.[j]) as Hc
    by (intros k e Hk; destruct Hs as [-> | ->]; [done | by apply node_ok_children]).
  destruct (Z.eqb_spec j 0) as [| Hne]; [by apply Hc |]. destruct Hp as [-> ->]; [lia |]. by apply Hc.
Qed.

Lemma ram_open_push fs name : ram_open (fs ++ [mk_frame name [] []]) = ram_open fs.
Proof. by destruct fs. Qed.
Lemma reserved_open_push fs name : reserved_open (fs ++ [mk_frame name [] []]) = reserved_open fs.
Proof.
  destruct fs as [| f [| g fs]]; [done | | done]. cbn [app reserved_open fprops]. unfold reserved_child at 1. cbn [closed_tree tprops tname tchildren fdone flat_map].
  by case_cond.
Qed.

(** The innermost node is one level deeper. *)
Lemma scanning_push s fs name stack kind0 enabled0 named q : scanning s fs -> zlen fs < max_fdt_depth -> zlen stack = max_fdt_depth ->
  (forall j, 0 <= j < zlen fs -> stack.[j] = if j =? zlen fs - 1 then with_children (stack_ s).[j] else (stack_ s).[j]) -> stack.[zlen fs] = opened kind0 enabled0 named ->
  kind0 = kind_below (zlen fs) name (kind (stack_ s).[zlen fs - 1]) -> enabled0 = (if zlen fs =? 0 then true else enabled (stack_ s).[zlen fs - 1]) ->
  (zlen fs = 1 -> enabled (stack_ s).[0] = true -> Parser.one_or_two (address_cells (stack_ s).[0]) = true /\ Parser.one_or_two (size_cells (stack_ s).[0]) = true) ->
  spells b (Parser.structure_ p) (Parser.strings_ p) q (open_events fs ++ [Begin name]) -> Parser.structure_ p <= q <= limit ->
  scanning (Parser.Scan.mk q (zlen fs + 1) true false stack (map_ s)) (fs ++ [mk_frame name [] []]).
Proof.
  intros Hs Hd Hz Hold Hnew Hk He Hcells Hsp Hq. pose proof (zlen_nonneg fs) as H0. set (f := mk_frame name [] []).
  assert (zlen (fs ++ [f]) = zlen fs + 1) as Hl by (by rewrite zlen_app).
  assert (forall j, 0 <= j < zlen fs -> kind stack.[j] = kind (stack_ s).[j] /\ enabled stack.[j] = enabled (stack_ s).[j] /\
    address_cells stack.[j] = address_cells (stack_ s).[j] /\ size_cells stack.[j] = size_cells (stack_ s).[j]) as Hsame by (intros j Hj; rewrite Hold by done; by destruct (j =? zlen fs - 1)).
  split; cbn [position depth root_seen root_closed stack_ map_]; rewrite ?Hl; try done; try lia.
  - split; [done |]. symmetry. apply bool_decide_eq_true. by destruct fs.
  - intros j Hj. unfold node_at. destruct (Z.eq_dec j (zlen fs)) as [-> | Hne].
    + unfold f at 1 2. rewrite last_frame, Hnew. cbn [fname fprops]. destruct (Z.eqb_spec (zlen fs) 0) as [E |].
      * subst kind0 enabled0. unfold kind_below. rewrite E. apply node_opened.
      * destruct (Hsame (zlen fs - 1) ltac:(lia)) as (-> & -> & _). subst kind0 enabled0. apply node_opened.
    + rewrite aget_app_l by lia. apply (node_ok_with stack (stack_ s) fs j); [lia | apply (sc_nodes s fs Hs); lia | | intros; split; apply Hsame; lia].
      rewrite Hold by lia. by destruct (j =? zlen fs - 1); auto.
  - intros j Hj. destruct (Z.eq_dec j (zlen fs)) as [-> | Hne].
    + unfold f. rewrite last_frame, Hnew. cbn. symmetry. apply bool_decide_eq_false. intros [? | ?]; [lia | done].
    + symmetry. rewrite Hold by lia. rewrite bool_decide_true by lia. destruct (Z.eqb_spec j (zlen fs - 1)); [done |].
      rewrite (sc_children s fs Hs) by lia. symmetry. rewrite bool_decide_true by lia. done.
  - intros Hlt. destruct (Hsame 0 ltac:(lia)) as (_ & -> & -> & ->). destruct (Z.eq_dec (zlen fs) 1); [by apply Hcells | apply (sc_cells s fs Hs); lia].
  - unfold f. rewrite open_events_snoc. exact Hsp.
  - unfold f. rewrite ram_open_push, reserved_open_push. apply (sc_map s fs Hs).
Qed.

Lemma child_kind_err depth name parent : Parser.child_kind depth name parent <> Err StatusCode.ok.
Proof. unfold Parser.child_kind. repeat (case_cond; [done |]). done. Qed.

Lemma child_kind_below depth name parent k : depth <> 0 -> (depth = 1 -> kind parent = Kind.root) -> Parser.child_kind depth name parent = Ok k -> k = kind_below depth name (kind parent).
Proof.
  intros Hd Hr. unfold Parser.child_kind, kind_below. rewrite (proj2 (Z.eqb_neq _ _) Hd). destruct (Z.eqb_spec depth 1) as [-> |]; cbn [andb].
  - rewrite Hr by done. repeat (case_cond; [by intros [= <-] |]). by intros [= <-].
  - case_cond; [by intros [= <-] |]. case_cond; [done |]. by intros [= <-].
Qed.

(** The root is opened as the root and stays it. *)
Lemma root_kind s fs : scanning s fs -> 0 < zlen fs -> kind (stack_ s).[0] = Kind.root.
Proof.
  intros Hs Hz. pose proof (sc_nodes s fs Hs 0 ltac:(lia)) as Hn. rewrite (nk_kind _ _ _ _ _ _ Hn). pose proof (nk_typed _ _ _ _ _ _ Hn) as Ht.
  destruct (typed_memory _); [| done]. by destruct Ht.
Qed.

Lemma root_validated s fs : scanning s fs -> 0 < zlen fs -> enabled (stack_ s).[0] = true -> Parser.validate_parent (stack_ s).[0] (stack_ s).[0] = StatusCode.ok ->
  Parser.one_or_two (address_cells (stack_ s).[0]) = true /\ Parser.one_or_two (size_cells (stack_ s).[0]) = true.
Proof.
  intros Hs Hz He. unfold Parser.validate_parent. rewrite He, (root_kind s fs Hs Hz). cbn [negb].
  destruct (Parser.one_or_two (address_cells _)), (Parser.one_or_two (size_cells _)); done.
Qed.

Lemma up4_range x : x <= up4 x.
Proof. unfold up4. dlia. Qed.

(** FDT_BEGIN_NODE at the position of [s]. *)
Lemma begin_step s fs : scanning s fs -> be32 b (position s) = Some 1 -> position s + 4 <= limit ->
  exists r, Parser.begin_node p (at_ s (position s + 4)) = Some r /\
    match r with Ok s' => exists fs', scanning s' fs' /\ position s < position s' | Err e => e <> StatusCode.ok end.
Proof.
  intros Hs Htok Hroom. destruct (sc_position s fs Hs) as [Hq _]. destruct (sc_depth s fs Hs) as [Hd Hdm]. destruct (sc_flags s fs Hs) as [Hrc Hrs].
  pose proof (lay_structure p Hlay) as (Hs0 & _ & _ & Hsb). pose proof (lay_size p Hlay) as Hsz. pose proof (sc_stack s fs Hs) as Hst. pose proof (zlen_nonneg fs) as H0.
  unfold Parser.begin_node. cbn [position depth root_seen root_closed stack_ map_ at_]. rewrite Hrc, Hd, end_eq. cbn [orb].
  destruct (Z.eqb_spec (zlen fs) max_fdt_depth) as [| Hlt]; [by eexists |]. set (start := position s + 4).
  destruct (until_zero_spec (Z.to_nat (limit - start)) b start ltac:(lia) ltac:(lia)) as (z & Hz & _). rewrite Hz. cbn [mbind option_bind].
  destruct (Z.eqb_spec z limit) as [| Hne]; cbn [orb]; [by eexists |]. destruct (string_found (Z.to_nat (limit - start)) b start z ltac:(lia) ltac:(lia) Hz ltac:(lia)) as (Hzr & Hstr & Hname).
  set (name := subspan b start (z - start)) in *. case_cond; [by eexists |].
  assert (Parser.align4 (z + 4) = up4 (position s + 4 + zlen name + 1)) as ->.
  { pose proof usize_max_pos. rewrite align4_eq by (unfold max_fdt_bytes in *; lia). unfold up4. f_equal. f_equal. lia. }
  pose proof (up4_range (position s + 4 + zlen name + 1)). set (q := up4 _) in *. case_cond; [by eexists |]. apply orb_false_iff in E0 as [Eq _]. b2p.
  assert (spells b (Parser.structure_ p) (Parser.strings_ p) q (open_events fs ++ [Begin name])) as Hsp by (apply spells_begin; [apply (sc_spells s fs Hs) | done | done]).
  destruct (Z.eqb_spec (zlen fs) 0) as [E0 | Hne0].
  - case_cond; [by eexists |]. eexists. split; [reflexivity |]. exists (fs ++ [mk_frame name [] []]). split; [| cbn; lia].
    replace 1 with (zlen fs + 1) at 1 by lia. eapply (scanning_push s fs name _ Kind.root true (memory_name name)); rewrite ?zlen_aset, ?E0; try done; try lia.
    by rewrite aget_aset_eq by lia.
  - case_cond; [by eexists |]. set (parent := (stack_ s).[zlen fs - 1]). destruct (Parser.validate_parent (stack_ s).[0] parent) eqn:Ev; cbn [status_ok negb]; try by eexists.
    destruct (Parser.child_kind (zlen fs) name parent) as [k | e] eqn:Ek; [| eexists; split; [reflexivity |]; intros ->; by apply child_kind_err in Ek].
    eexists. split; [reflexivity |]. exists (fs ++ [mk_frame name [] []]). split; [| cbn; lia]. rewrite Hrs, bool_decide_true by (by intros ->).
    apply (scanning_push s fs name _ k (enabled parent) (memory_name name)); try done; try lia.
    + by rewrite !zlen_aset.
    + intros j Hj. rewrite (aget_aset_ne _ (zlen fs) j) by lia. destruct (Z.eqb_spec j (zlen fs - 1)) as [-> |]; [by rewrite aget_aset_eq by lia | by rewrite aget_aset_ne by lia].
    + by rewrite aget_aset_eq by (rewrite zlen_aset; lia).
    + apply child_kind_below in Ek; [done | done |]. intros E1. unfold parent. rewrite E1. apply (root_kind s fs Hs). lia.
    + by rewrite (proj2 (Z.eqb_neq _ _) Hne0).
    + intros E1 He. apply (root_validated s fs Hs); [lia | done |]. unfold parent in Ev. by rewrite E1 in Ev.
Qed.

Lemma ram_open_props fs name props props' : ram_open (fs ++ [mk_frame name props []]) = ram_open (fs ++ [mk_frame name props' []]).
Proof. by destruct fs. Qed.
Lemma reserved_open_props fs name props props' : reserved_open (fs ++ [mk_frame name props []]) = reserved_open (fs ++ [mk_frame name props' []]).
Proof.
  destruct fs as [| f [| g fs]]; [done | | done]. cbn [app reserved_open fprops]. unfold reserved_child at 1 2. cbn [closed_tree tprops tname tchildren fdone flat_map].
  by repeat case_cond.
Qed.

Lemma kind_below_one name parent : kind_below 1 name parent <> Kind.root /\ kind_below 1 name parent <> Kind.reservation.
Proof. unfold kind_below. cbn. by repeat case_cond. Qed.

(** The innermost node has one more property. *)
Lemma scanning_property s fs name props name' value node q : scanning s (fs ++ [mk_frame name props []]) ->
  let fs' := fs ++ [mk_frame name (props ++ [(name', value)]) []] in
  node_ok b (zlen fs + 1) (kind_below (zlen fs) name (kind (stack_ s).[zlen fs - 1])) (if zlen fs =? 0 then true else enabled (stack_ s).[zlen fs - 1]) (props ++ [(name', value)]) node ->
  children node = false -> spells b (Parser.structure_ p) (Parser.strings_ p) q (open_events (fs ++ [mk_frame name props []]) ++ [Property name' value]) ->
  Parser.structure_ p <= q <= limit ->
  scanning (Parser.Scan.mk q (depth s) (root_seen s) (root_closed s) (stack_ s).[depth s - 1 := node] (map_ s)) fs'.
Proof.
  intros Hs fs' Hn Hc Hsp Hq. pose proof (zlen_nonneg fs) as H0. set (f := mk_frame name props []) in *.
  assert (zlen (fs ++ [f]) = zlen fs + 1 /\ zlen fs' = zlen fs + 1) as [Hl Hl'] by (split; [| unfold fs']; by rewrite zlen_app).
  destruct (sc_depth s _ Hs) as [Hd Hdm]. pose proof (sc_stack s _ Hs) as Hst. rewrite Hl in *. replace (depth s - 1) with (zlen fs) by lia.
  split; cbn [position depth root_seen root_closed stack_ map_]; rewrite ?Hl', ?zlen_aset; try done; try lia.
  - destruct (sc_flags s _ Hs) as [-> ->]. split; [done |]. apply bool_decide_ext. unfold fs'. by destruct fs.
  - intros j Hj. unfold node_at. unfold fs'. destruct (Z.eq_dec j (zlen fs)) as [-> | Hne].
    + rewrite last_frame, aget_aset_eq by lia. cbn [fname fprops]. destruct (Z.eq_dec (zlen fs) 0) as [E |]; [by rewrite E in * |]. by rewrite aget_aset_ne by lia.
    + rewrite (aget_aset_ne _ _ j) by lia. rewrite aget_app_l by lia. pose proof (sc_nodes s _ Hs j ltac:(lia)) as Hj'. unfold node_at in Hj'. rewrite aget_app_l in Hj' by lia.
      destruct (Z.eq_dec j 0) as [-> |]; [exact Hj' |]. by rewrite aget_aset_ne by lia.
  - intros j Hj. unfold fs'. destruct (Z.eq_dec j (zlen fs)) as [-> | Hne].
    + rewrite last_frame, aget_aset_eq, Hc by lia. cbn. symmetry. apply bool_decide_eq_false. intros [? | ?]; [lia | done].
    + rewrite aget_aset_ne by lia. rewrite (sc_children s _ Hs), Hl by lia. apply bool_decide_ext. split; intros _; lia.
  - intros Hlt. rewrite aget_aset_ne by lia. apply (sc_cells s _ Hs). lia.
  - unfold fs'. rewrite open_events_snoc in *. unfold frame_events in *. cbn [fname fprops fdone f flat_map] in *. rewrite !app_nil_r in *. unfold property_events in *.
    rewrite map_app. cbn [map fst snd]. rewrite <- app_assoc in Hsp. exact Hsp.
  - unfold fs'. rewrite (ram_open_props fs name _ props), (reserved_open_props fs name _ props). apply (sc_map s _ Hs).
Qed.

(** FDT_PROP at the position of [s]. *)
Lemma property_step s fs : scanning s fs -> be32 b (position s) = Some 3 -> position s + 4 <= limit ->
  exists r, Parser.prop_node p (at_ s (position s + 4)) = Some r /\
    match r with Ok s' => exists fs', scanning s' fs' /\ position s < position s' | Err e => e <> StatusCode.ok end.
Proof.
  intros Hs Htok Hroom. destruct (sc_position s fs Hs) as [Hq _]. destruct (sc_depth s fs Hs) as [Hd Hdm]. pose proof (lay_bytes p Hlay) as Hok.
  pose proof (lay_structure p Hlay) as (Hs0 & _ & _ & Hsb). pose proof (lay_size p Hlay) as Hsz. pose proof (lay_strings p Hlay) as (Ht0 & Ht1 & Htb).
  unfold Parser.prop_node. cbn [position depth root_seen root_closed stack_ map_ at_]. rewrite end_eq.
  destruct fs as [| f fs _] using rev_ind; [rewrite Hd; by eexists |]. rewrite zlen_app in Hd, Hdm. change (zlen [f]) with 1 in *. pose proof (zlen_nonneg fs) as H0.
  rewrite (proj2 (Z.eqb_neq (depth s) 0)) by lia. cbn [orb]. replace (depth s - 1) with (zlen fs) by lia.
  pose proof (sc_children s _ Hs (zlen fs)) as Hc. rewrite zlen_app in Hc. change (zlen [f]) with 1 in Hc. rewrite last_frame in Hc. rewrite Hc by lia.
  case_bool_decide as Hfd; [by eexists |]. cbn [orb]. destruct (Z.ltb_spec (limit - (position s + 4)) 8); [by eexists |].
  assert (fdone f = []) as Hdone by (destruct (fdone f); [done | exfalso; apply Hfd; by right]).
  destruct (be32_some b (position s + 4) Hok ltac:(lia) ltac:(lia)) as (size & Esz & Rsz). destruct (be32_some b (position s + 4 + 4) Hok ltac:(lia) ltac:(lia)) as (at' & Eat & Rat).
  rewrite Esz, Eat. cbn [mbind option_bind]. case_cond; [by eexists |]. b2p. set (sq := Parser.strings_ p + at').
  destruct (until_zero_spec (Z.to_nat (Parser.strings_size_ p - at')) b sq ltac:(lia) ltac:(lia)) as (z & Hz & _). rewrite Hz. cbn [mbind option_bind].
  case_cond; [by eexists |]. b2p. destruct (string_found (Z.to_nat (Parser.strings_size_ p - at')) b sq z ltac:(lia) ltac:(lia) Hz ltac:(lia)) as (Hzr & Hstr & Hname).
  set (name := subspan b sq (z - sq)) in *. pose proof (sc_nodes s _ Hs (zlen fs) ltac:(rewrite zlen_app; change (zlen [f]) with 1; lia)) as Hn. unfold node_at in Hn. rewrite last_frame in Hn.
  set (off := position s + 4 + 8) in *. rewrite Hd.
  destruct (property_spec p Hlay (stack_ s).[zlen fs] (zlen fs + 1) name off size _ _ _ ltac:(lia) ltac:(lia) ltac:(lia) Hn) as (r & -> & Hr).
  { intros E2. replace (zlen fs) with 1 by lia. apply kind_below_one. }
  destruct r as [node | e]; [| by eexists]. destruct Hr as (Hn' & Hch & _). pose proof (zlen_slice b off size ltac:(lia) ltac:(lia) ltac:(lia)) as Hzv. set (value := subspan b off size) in *.
  assert (Parser.align4 (off + size + 3) = up4 (position s + 12 + zlen value)) as ->.
  { pose proof usize_max_pos. rewrite align4_eq by (unfold max_fdt_bytes in *; lia). unfold up4. f_equal. f_equal. lia. }
  pose proof (up4_range (position s + 12 + zlen value)). set (q := up4 _) in *. destruct (Z.ltb_spec limit q); [by eexists |]. eexists. split; [reflexivity |].
  exists (fs ++ [mk_frame (fname f) (fprops f ++ [(name, value)]) []]). split; [| cbn; lia].
  assert (f = mk_frame (fname f) (fprops f) []) as Ef by (rewrite <- Hdone; by destruct f). rewrite Ef in Hs. rewrite <- Hd. replace (zlen fs) with (depth s - 1) at 1 by lia.
  apply scanning_property; try done; try lia.
  - by rewrite Hch, Hc by lia.
  - apply spells_property with at'; try done; [apply (sc_spells s _ Hs) | by rewrite Hzv | by rewrite <- Eat; f_equal; lia |]. rewrite Hzv. unfold value, off. f_equal. lia.
Qed.

(** ** Closing a node *)
Lemma map_ok_ram m m' ram reserved l : map_ok m ram reserved -> ram_more m m' l -> map_ok m' (ram ++ l) reserved.
Proof.
  intros [Hr He Hv Hw [Hc Hc']] (Er & Em & Hl & Hz). split; rewrite ?Er, ?Em, ?Hr; try done; [by apply Forall_app |]. split; [| done]. rewrite <- Hr, <- Em. auto.
Qed.
Lemma map_ok_reserved m m' ram reserved l : map_ok m ram reserved -> reserved_more m m' l -> map_ok m' ram (reserved ++ l).
Proof.
  intros [Hr He Hv Hw [Hc Hc']] (Er & Em & Hl & Hz). split; rewrite ?Er, ?Em; try done; [by rewrite He, app_assoc | by apply Forall_app |]. rewrite <- Em. auto.
Qed.

(** The kinds of the levels, and when their nodes are enabled. *)
Lemma level_one s f g fs : scanning s (f :: g :: fs) ->
  bool_decide (kind (stack_ s).[1] = Kind.memory) = is_memory (fname g) (fprops g) /\ kind (stack_ s).[1] <> Kind.reservation /\
  bool_decide (kind (stack_ s).[1] = Kind.reserved_root) = same (fname g) (text "reserved-memory") /\ enabled (stack_ s).[1] = okay (fprops f) && okay (fprops g) /\
  enabled (stack_ s).[0] = okay (fprops f).
Proof.
  intros Hs. pose proof (zlen_nonneg fs). pose proof (sc_nodes s _ Hs 0 ltac:(rewrite !zlen_cons; lia)) as Hn0. pose proof (sc_nodes s _ Hs 1 ltac:(rewrite !zlen_cons; lia)) as Hn1.
  pose proof (nk_enabled _ _ _ _ _ _ Hn0) as He0. pose proof (nk_enabled _ _ _ _ _ _ Hn1) as He1. change (1 - 1) with 0 in *. cbn in He0, He1. rewrite He0 in He1.
  pose proof (nk_kind _ _ _ _ _ _ Hn1) as Hk. pose proof (nk_typed _ _ _ _ _ _ Hn1) as Ht. change ((f :: g :: fs).[1]) with g in *. change ((f :: g :: fs).[0]) with f in *.
  rewrite Hk. unfold kind_below in *. cbn [Z.eqb Pos.eqb] in *. unfold is_memory.
  destruct (typed_memory (fprops g)).
  - destruct Ht as [_ Ht]; [done |]. destruct (same (fname g) (text "reserved-memory")); [by destruct Ht |]. by rewrite orb_true_r.
  - by destruct (same (fname g) (text "reserved-memory")), (memory_name (fname g)).
Qed.

Lemma level_two s f g h fs : scanning s (f :: g :: h :: fs) ->
  kind (stack_ s).[2] = (if same (fname g) (text "reserved-memory") then Kind.reservation else Kind.other) /\
  enabled (stack_ s).[2] = okay (fprops f) && okay (fprops g) && okay (fprops h).
Proof.
  intros Hs. destruct (level_one s f g (h :: fs) Hs) as (_ & _ & Hrr & He & _). pose proof (zlen_nonneg fs).
  pose proof (sc_nodes s _ Hs 2 ltac:(rewrite !zlen_cons; lia)) as Hn2. pose proof (nk_enabled _ _ _ _ _ _ Hn2) as He2. pose proof (nk_kind _ _ _ _ _ _ Hn2) as Hk.
  pose proof (nk_typed _ _ _ _ _ _ Hn2) as Ht. change (2 - 1) with 1 in *. change ((f :: g :: h :: fs).[2]) with h in *. cbn in He2. rewrite He in He2. split; [| done].
  rewrite Hk. destruct (typed_memory (fprops h)); [by destruct Ht |]. unfold kind_below. cbn [Z.eqb Pos.eqb]. by rewrite Hrr.
Qed.

Lemma level_deep s fs j : scanning s fs -> 3 <= j < zlen fs -> kind (stack_ s).[j] = Kind.other.
Proof.
  intros Hs Hj. assert (forall i, 2 <= i < zlen fs -> kind (stack_ s).[i] = if bool_decide (kind (stack_ s).[i - 1] = Kind.reserved_root) then Kind.reservation else Kind.other) as Hi.
  { intros i Hi. pose proof (sc_nodes s _ Hs i ltac:(lia)) as Hn. rewrite (nk_kind _ _ _ _ _ _ Hn). pose proof (nk_typed _ _ _ _ _ _ Hn) as Ht.
    destruct (typed_memory _); [destruct Ht; [done | lia] |]. unfold kind_below. by rewrite (proj2 (Z.eqb_neq i 0)), (proj2 (Z.eqb_neq i 1)) by lia. }
  rewrite Hi, (Hi (j - 1)) by lia. by destruct (bool_decide (kind (stack_ s).[j - 1 - 1] = Kind.reserved_root)).
Qed.

Lemma finish_step s fs f : scanning s (fs ++ [f]) -> exists r, Parser.finish p (stack_ s).[0] (stack_ s).[zlen fs] (map_ s) = Some r /\
  match r with Ok m' => closes (fprops (fs ++ [f]).[0]) (fprops f) (stack_ s).[zlen fs] (map_ s) m' | Err e => e <> StatusCode.ok end.
Proof.
  intros Hs. pose proof (zlen_nonneg fs). assert (zlen (fs ++ [f]) = zlen fs + 1) as Hl by (by rewrite zlen_app).
  pose proof (sc_nodes s _ Hs 0 ltac:(lia)) as Hn0. pose proof (sc_nodes s _ Hs (zlen fs) ltac:(lia)) as Hn. unfold node_at in Hn. rewrite last_frame in Hn.
  eapply finish_spec; [done | apply (nk_address _ _ _ _ _ _ Hn0) | apply (nk_size _ _ _ _ _ _ Hn0) | | exact Hn].
  intros He Hk. destruct (Z.eq_dec (zlen fs) 0) as [E | Hne].
  { rewrite E, (root_kind s _ Hs) in Hk by lia. by destruct Hk. }
  apply (sc_cells s _ Hs); [lia |]. clear Hn Hn0.
  destruct fs as [| f0 [| f1 [| f2 fs]]]; rewrite ?zlen_cons, ?zlen_nil in *; [lia | | | exfalso].
  - destruct (level_one s f0 f [] Hs) as (_ & _ & _ & He1 & ->). change (0 + 1) with 1 in He. rewrite He1 in He. by destruct (okay (fprops f0)).
  - destruct (level_one s f0 f1 [f] Hs) as (_ & _ & _ & _ & ->). destruct (level_two s f0 f1 f [] Hs) as [_ He2]. change (0 + 1 + 1) with 2 in He. rewrite He2 in He. by destruct (okay (fprops f0)).
  - pose proof (zlen_nonneg fs). rewrite (level_deep s _ _ Hs) in Hk by lia. by destruct Hk.
Qed.

(** What closing the innermost node does to the map. *)
Lemma map_closed s fs g f m' : scanning s (fs ++ [g] ++ [f]) -> closes (fprops (fs ++ [g] ++ [f]).[0]) (fprops f) (stack_ s).[zlen fs + 1] (map_ s) m' ->
  let fs' := fs ++ [mk_frame (fname g) (fprops g) (fdone g ++ [closed_tree f])] in map_ok m' (ram_open fs') (reserved_open fs').
Proof.
  intros Hs Hc fs'. pose proof (sc_map s _ Hs) as Hm. unfold closes, added in Hc. destruct fs as [| h [| h' fs]]; cbn [app] in *; unfold fs'.
  - destruct (level_one s g f [] Hs) as (Hmem & Hnr & _ & He & _). change (zlen [] + 1) with 1 in Hc. rewrite He, Hmem, (bool_decide_false (kind _ = Kind.reservation)), orb_false_r in Hc by done.
    cbn [ram_open reserved_open] in *. rewrite ram_of_snoc, reserved_of_snoc, app_nil_r. unfold ram_child at 1. cbn [closed_tree tprops tname].
    destruct (okay (fprops g) && okay (fprops f) && is_memory (fname f) (fprops f)); [by apply map_ok_ram with (map_ s) | subst m'; by rewrite app_nil_r].
  - destruct (level_two s h g f [] Hs) as [Hk He]. change (zlen [h] + 1) with 2 in Hc. rewrite Hk, He in Hc.
    pose proof (sc_nodes s _ Hs 2 ltac:(done)) as Hn. unfold node_at in Hn. change ([h; g; f].[2]) with f in Hn. cbn [ram_open reserved_open fprops] in *. rewrite reserved_child_snoc, app_assoc.
    destruct (same (fname g) (text "reserved-memory")) eqn:Eg.
    2: { rewrite !andb_false_r, app_nil_r. cbn in Hc. rewrite andb_false_r in Hc. by subst m'. }
    change (bool_decide (Kind.reservation = Kind.memory)) with false in Hc. change (bool_decide (Kind.reservation = Kind.reservation)) with true in Hc. cbn [orb] in Hc.
    destruct (level_one s h g [f] Hs) as (_ & _ & Hrr & _). rewrite Eg in Hrr.
    assert (kind_below 2 (fname f) (kind (stack_ s).[2 - 1]) = Kind.reservation) as Hk0 by (unfold kind_below; change (2 - 1) with 1; by rewrite Hrr).
    rewrite Hk0 in Hn. rewrite (nk_no_map _ _ _ _ _ _ Hn), (nk_reusable _ _ _ _ _ _ Hn) in Hc by done. rewrite andb_true_r in Hc |- *.
    unfold reserved_entry. cbn [closed_tree tprops]. destruct (okay (fprops h) && okay (fprops g)); cbn [andb] in Hc; [| subst m'; by rewrite app_nil_r].
    destruct (okay (fprops f)); cbn [andb] in Hc; [by apply map_ok_reserved with (map_ s) | subst m'; by rewrite app_nil_r].
  - pose proof (zlen_nonneg fs). rewrite (level_deep s _ _ Hs) in Hc by (rewrite !zlen_cons, zlen_app, !zlen_cons, zlen_nil; lia).
    rewrite !(bool_decide_false (Kind.other = _)) in Hc by done. cbn [orb] in Hc. rewrite andb_false_r in Hc. by subst m'.
Qed.

(** The innermost node is closed below another one. *)
Lemma scanning_pop s fs g f m' q : scanning s (fs ++ [g] ++ [f]) -> closes (fprops (fs ++ [g] ++ [f]).[0]) (fprops f) (stack_ s).[zlen fs + 1] (map_ s) m' ->
  spells b (Parser.structure_ p) (Parser.strings_ p) q (open_events (fs ++ [g] ++ [f]) ++ [End_]) -> Parser.structure_ p <= q <= limit ->
  scanning (Parser.Scan.mk q (zlen fs + 1) (root_seen s) (root_closed s) (stack_ s) m') (fs ++ [mk_frame (fname g) (fprops g) (fdone g ++ [closed_tree f])]).
Proof.
  intros Hs Hc Hsp Hq. pose proof (zlen_nonneg fs) as H0. pose proof (map_closed s fs g f m' Hs Hc) as Hm. cbv zeta in Hm. set (g' := mk_frame _ _ _) in *.
  assert (zlen (fs ++ [g']) = zlen fs + 1) as Hl' by (by rewrite zlen_app). assert (zlen (fs ++ [g] ++ [f]) = zlen fs + 2) as Hl by (by rewrite zlen_app).
  assert (forall j, 0 <= j <= zlen fs -> fname (fs ++ [g']).[j] = fname (fs ++ [g] ++ [f]).[j] /\ fprops (fs ++ [g']).[j] = fprops (fs ++ [g] ++ [f]).[j]) as Hsame.
  { intros j Hj. destruct (Z.eq_dec j (zlen fs)) as [-> |]; [| by rewrite !aget_app_l by lia].
    rewrite last_frame, aget_app_r by lia. by rewrite Z.sub_diag. }
  destruct (sc_depth s _ Hs) as [Hd Hdm]. destruct (sc_flags s _ Hs) as [Hrc Hrs].
  split; cbn [position depth root_seen root_closed stack_ map_]; rewrite ?Hl'; try done; try lia.
  - apply (sc_stack s _ Hs).
  - rewrite Hrs. split; [done |]. apply bool_decide_ext. by destruct fs.
  - intros j Hj. pose proof (sc_nodes s _ Hs j ltac:(lia)) as Hn. unfold node_at in *. destruct (Hsame j ltac:(lia)) as [-> ->]. exact Hn.
  - intros j Hj. rewrite (sc_children s _ Hs), Hl by lia. apply bool_decide_ext. split; [intros _ | intros _; lia].
    destruct (Z.eq_dec j (zlen fs)) as [-> |]; [right; rewrite last_frame; by destruct (fdone g) | left; lia].
  - intros Hlt. apply (sc_cells s _ Hs). lia.
  - rewrite !app_assoc, open_events_snoc in Hsp. rewrite open_events_snoc in Hsp |- *. rewrite <- !app_assoc in Hsp. unfold frame_events in *. cbn [fname fprops fdone g'].
    rewrite flat_map_app. cbn [flat_map events closed_tree]. rewrite app_nil_r. cbn [app] in Hsp |- *. rewrite <- ?app_assoc in Hsp. rewrite <- ?app_assoc. exact Hsp.
Qed.

(** FDT_END_NODE at the position of [s]. *)
Lemma end_step s fs : scanning s fs -> be32 b (position s) = Some 2 -> position s + 4 <= limit ->
  exists r, Parser.end_node p (at_ s (position s + 4)) = Some r /\
    match r with
    | Ok s' => position s < position s' /\ ((exists fs', scanning s' fs') \/ exists t, scanned s' t)
    | Err e => e <> StatusCode.ok
    end.
Proof.
  intros Hs Htok Hroom. destruct (sc_position s fs Hs) as [Hq _]. destruct (sc_depth s fs Hs) as [Hd Hdm]. destruct (sc_flags s fs Hs) as [Hrc Hrs].
  unfold Parser.end_node. cbn [position depth root_seen root_closed stack_ map_ at_]. destruct fs as [| f fs _] using rev_ind; [rewrite Hd; by eexists |].
  rewrite zlen_app in Hd, Hdm. change (zlen [f]) with 1 in *. pose proof (zlen_nonneg fs) as H0. rewrite (proj2 (Z.eqb_neq (depth s) 0)) by lia.
  replace (depth s - 1) with (zlen fs) by lia. destruct (finish_step s fs f Hs) as (r & -> & Hr). destruct r as [m' | e]; [| by eexists]. eexists. split; [reflexivity |].
  cbn [position]. split; [lia |]. rewrite Hrc. cbn [orb].
  assert (spells b (Parser.structure_ p) (Parser.strings_ p) (position s + 4) (open_events (fs ++ [f]) ++ [End_])) as Hsp by (apply spells_end; [apply (sc_spells s _ Hs) | done]).
  destruct fs as [| g fs _] using rev_ind.
  - right. exists (closed_tree f). assert (m' = map_ s) as ->.
    { unfold closes in Hr. change (zlen []) with 0 in Hr. rewrite (root_kind s _ Hs) in Hr by done. rewrite !(bool_decide_false (Kind.root = _)) in Hr by done. by rewrite andb_false_r in Hr. }
    split; cbn [position depth root_closed map_]; try lia; [done | |].
    + rewrite open_events_snoc in Hsp. unfold frame_events in Hsp. cbn [events closed_tree]. cbn [app open_events flat_map] in Hsp. by rewrite <- app_assoc in Hsp.
    + pose proof (sc_map s _ Hs) as Hm. cbn [app ram_open reserved_open] in Hm. by rewrite app_nil_r in Hm.
  - left. rewrite <- app_assoc in *. rewrite zlen_app in *. change (zlen [g]) with 1 in *. eexists. rewrite (proj2 (Z.eqb_neq (zlen fs + 1) 0)) by (pose proof (zlen_nonneg fs); lia). rewrite <- Hrc.
    eapply scanning_pop; [done | done | done | lia].
Qed.

Lemma scanning_nop s fs : scanning s fs -> be32 b (position s) = Some 4 -> position s + 4 <= limit -> scanning (at_ s (position s + 4)) fs.
Proof. intros [] Ht Hr. split; cbn; try done; [lia | by apply spells_nop]. Qed.
Lemma scanned_nop s t : scanned s t -> be32 b (position s) = Some 4 -> position s + 4 <= limit -> scanned (at_ s (position s + 4)) t.
Proof. intros [] Ht Hr. split; cbn; try done; [lia | by apply spells_nop]. Qed.

Lemma scan_spec n : forall s, (exists fs, scanning s fs) \/ (exists t, scanned s t) -> limit - position s < Z.of_nat n ->
  exists r, Parser.scan n p s = Some r /\
    match r with
    | Ok m => FdtMemoryMap.ram m <> [] /\ exists t q, spells b (Parser.structure_ p) (Parser.strings_ p) q (events t) /\ be32 b q = Some 9 /\ q + 4 = limit /\ map_ok m (ram_of t) (reserved_of t)
    | Err e => e <> StatusCode.ok
    end.
Proof.
  induction n as [| n IH]; intros s Hs Hn.
  { exfalso. destruct Hs as [[fs Hs] | [t Hs]]; [pose proof (sc_position s fs Hs) | pose proof (sd_position s t Hs)]; lia. }
  assert (Parser.structure_ p <= position s) as Hq by (destruct Hs as [[fs Hs] | [t Hs]]; [apply (sc_position s fs Hs) | apply (sd_position s t Hs)]).
  pose proof (lay_structure p Hlay) as (Hs0 & _ & _ & Hsb). cbn [Parser.scan]. rewrite end_eq.
  destruct (Z.leb_spec limit (position s)); [by eexists |]. destruct (Z.ltb_spec (limit - position s) 4) as [| Hroom]; [by eexists |].
  destruct (be32_some b (position s) (lay_bytes p Hlay) ltac:(lia) ltac:(lia)) as (token & Et & _). rewrite Et. cbn [mbind option_bind].
  destruct (Z.eqb_spec token 4) as [-> |].
  { apply IH; [| cbn; lia]. destruct Hs as [[fs Hs] | [t Hs]]; [left; exists fs; apply scanning_nop | right; exists t; apply scanned_nop]; done || lia. }
  destruct Hs as [[fs Hs] | [t Hs]].
  - destruct (Z.eqb_spec token 1) as [-> |].
    { destruct (begin_step s fs Hs Et ltac:(lia)) as (r & -> & Hr). destruct r as [s' | e]; [| by eexists]. destruct Hr as (fs' & Hs' & Hlt). apply IH; [left; by exists fs' | lia]. }
    destruct (Z.eqb_spec token 2) as [-> |].
    { destruct (end_step s fs Hs Et ltac:(lia)) as (r & -> & Hr). destruct r as [s' | e]; [| by eexists]. destruct Hr as [Hlt Hs']. apply IH; [done | lia]. }
    destruct (Z.eqb_spec token 3) as [-> |].
    { destruct (property_step s fs Hs Et ltac:(lia)) as (r & -> & Hr). destruct r as [s' | e]; [| by eexists]. destruct Hr as (fs' & Hs' & Hlt). apply IH; [left; by exists fs' | lia]. }
    destruct (Z.eqb_spec token 9); [| by eexists]. destruct (sc_flags s fs Hs) as [Hrc _]. cbn [at_ root_closed]. rewrite Hrc, orb_true_r. by eexists.
  - destruct (sd_flags s t Hs) as [Hd Hrc]. unfold Parser.begin_node, Parser.end_node, Parser.prop_node. cbn [at_ position depth root_seen root_closed stack_ map_]. rewrite Hd, Hrc.
    destruct (Z.eqb_spec token 1); [by eexists |]. destruct (Z.eqb_spec token 2); [by eexists |]. destruct (Z.eqb_spec token 3); [by eexists |].
    destruct (Z.eqb_spec token 9) as [-> |]; [| by eexists]. case_cond; [by eexists |]. destruct (Z.eqb_spec (zlen (FdtMemoryMap.ram (map_ s))) 0) as [| Hram]; [by eexists |].
    eexists. split; [reflexivity |]. b2p. split; [intros E'; by rewrite E' in Hram |]. exists t, (position s). split_and!; [apply (sd_spells s t Hs) | done | lia | apply (sd_map s t Hs)].
Qed.
End Loop.

Lemma run_spec `{Arch} blob : bytes_ok blob -> exists r, Parser.run blob = Some r /\
  match r with
  | Ok m => FdtMemoryMap.ram m <> [] /\ exists l t, holds_tree blob l t /\ map_ok l m (ram_of t) (reserved_of t)
  | Err e => e <> StatusCode.ok
  end.
Proof.
  intros Hok. unfold Parser.run. destruct (header_spec blob Hok) as (r & -> & Hr). destruct r as [[p m] | e]; [| by eexists].
  destruct Hr as (Hlay & Hm & Hres & total & Htot & Hb & H0 & H4 & H8 & H12 & H16 & H36). pose proof (lay_structure p Hlay) as (Hs0 & _ & Hs1 & Hsb). pose proof (lay_reserve p Hlay).
  unfold Parser.reserves. destruct (reserves_loop_spec p (S (length (Parser.blob_ p))) Hlay (Parser.reserve_ p) m) as (r & -> & Hr); [lia | lia | unfold zlen; lia |].
  destruct r as [m1 | e]; [| by eexists]. destruct Hr as (l & Htab & Hmore). destruct Hmore as (Eram & Eres & Hval & Hcnt). rewrite Hm in Eram. rewrite Hres in Eres, Hcnt. cbn [app] in Eres.
  destruct (scan_spec p l Hlay (S (length (Parser.blob_ p))) (Parser.Scan.mk (Parser.structure_ p) 0 false false (replicate (Z.to_nat max_fdt_depth) Node.new) m1)) as (r & -> & Hr).
  - left. exists []. split; cbn [position depth root_seen root_closed stack_ map_ ram_open reserved_open open_events flat_map]; try done; try lia.
    + intros j Hj. change (zlen []) with 0 in Hj. lia.
    + intros j Hj. change (zlen []) with 0 in Hj. lia.
    + constructor.
    + split; rewrite ?Eram, ?Eres, ?app_nil_r; try done. split; [done |]. rewrite <- Eres. by apply Hcnt.
  - cbn [position]. unfold zlen in *. lia.
  - eexists. split; [reflexivity |]. destruct r as [m2 | e]; [| done]. destruct Hr as (Hne & t & q & Hsp & H9 & Hend & Hmap). split; [done |]. exists l, t. split; [| done].
    exists total, (Parser.structure_ p), (Parser.strings_ p), (Parser.reserve_ p), (Parser.structure_size_ p), q. rewrite Hb in *. by split_and!.
Qed.

(** C8: the parser of device trees answers on every input, reads nothing
    outside the blob, and leaves the output as it was unless it succeeds; a map
    it returns has RAM, fits its arrays, and every range of it is nonempty and
    does not wrap. *)
Theorem fdt_parser_total `{Arch} blob output : bytes_ok blob -> exists m st, parse_fdt_memory blob output = Some (m, st) /\
  (st <> StatusCode.ok -> m = output) /\
  (st = StatusCode.ok -> 0 < zlen (FdtMemoryMap.ram m) <= max_fdt_ram_ranges /\ zlen (FdtMemoryMap.reservations m) <= max_fdt_reservations /\
     Forall valid_range (FdtMemoryMap.ram m) /\ Forall (fun r => valid_range (FirmwareReservation.range r)) (FdtMemoryMap.reservations m)).
Proof.
  intros Hok. unfold parse_fdt_memory. destruct (run_spec blob Hok) as (r & -> & Hr). destruct r as [m | e].
  - exists m, StatusCode.ok. split_and!; [done | done |]. intros _. destruct Hr as (Hne & l & t & _ & [Hram _ Hv Hw [Hc Hc']]).
    split_and!; try done; [| by rewrite Hram]. destruct (FdtMemoryMap.ram m); [done |]. rewrite zlen_cons. pose proof (zlen_nonneg l0). lia.
  - exists output, e. by split_and!.
Qed.

(** C7: a map the parser returns is what the device tree says: the blob spells
    one tree, RAM is the reg ranges of the enabled memory nodes below its root in
    order, and the reservations are the entries of the reservation table and
    the reg ranges of the enabled children of reserved-memory with their flags. *)
Theorem fdt_map_is_the_tree `{Arch} blob output m : bytes_ok blob -> parse_fdt_memory blob output = Some (m, StatusCode.ok) ->
  exists l t, holds_tree blob l t /\ (forall l' t', holds_tree blob l' t' -> l' = l /\ t' = t) /\
    FdtMemoryMap.ram m = ram_of t /\ FdtMemoryMap.reservations m = map table_entry l ++ reserved_of t.
Proof.
  intros Hok. unfold parse_fdt_memory. destruct (run_spec blob Hok) as (r & -> & Hr). destruct r as [m' | e].
  - intros [= <-]. destruct Hr as (_ & l & t & Ht & Hm). exists l, t. split_and!; [done | intros l' t' Ht'; by apply (holds_tree_unique blob) | apply (mo_ram _ _ _ _ Hm) | apply (mo_reserved _ _ _ _ Hm)].
  - by intros [= _ ->].
Qed.

(** ** Examples *)

(** 128 MiB of RAM at 0x40000000, the first 512 KiB of it for the firmware, a
    reserved page, and a memory node that is disabled. *)
Definition sample_blob : Bytes :=
  [208; 13; 254; 237; 0; 0; 1; 184; 0; 0; 0; 72; 0; 0; 1; 120; 0; 0; 0; 40; 0; 0; 0; 17; 0; 0; 0; 16; 0; 0; 0; 0; 0; 0;
   0; 64; 0; 0; 1; 48; 0; 0; 0; 0; 71; 0; 0; 0; 0; 0; 0; 0; 0; 0; 16; 0; 0; 0; 0; 0; 0; 0; 0; 0; 0; 0; 0; 0; 0; 0; 0; 0;
   0; 0; 0; 1; 0; 0; 0; 0; 0; 0; 0; 3; 0; 0; 0; 4; 0; 0; 0; 0; 0; 0; 0; 1; 0; 0; 0; 3; 0; 0; 0; 4; 0; 0; 0; 15; 0; 0; 0;
   1; 0; 0; 0; 1; 109; 101; 109; 111; 114; 121; 64; 52; 48; 48; 48; 48; 48; 48; 48; 0; 0; 0; 0; 3; 0; 0; 0; 7; 0; 0; 0;
   27; 109; 101; 109; 111; 114; 121; 0; 0; 0; 0; 0; 3; 0; 0; 0; 8; 0; 0; 0; 39; 64; 0; 0; 0; 8; 0; 0; 0; 0; 0; 0; 2; 0;
   0; 0; 4; 0; 0; 0; 1; 114; 101; 115; 101; 114; 118; 101; 100; 45; 109; 101; 109; 111; 114; 121; 0; 0; 0; 0; 3; 0; 0;
   0; 4; 0; 0; 0; 0; 0; 0; 0; 1; 0; 0; 0; 3; 0; 0; 0; 4; 0; 0; 0; 15; 0; 0; 0; 1; 0; 0; 0; 3; 0; 0; 0; 0; 0; 0; 0; 43;
   0; 0; 0; 1; 102; 119; 64; 52; 48; 48; 48; 48; 48; 48; 48; 0; 0; 0; 0; 3; 0; 0; 0; 8; 0; 0; 0; 39; 64; 0; 0; 0; 0; 8;
   0; 0; 0; 0; 0; 3; 0; 0; 0; 0; 0; 0; 0; 50; 0; 0; 0; 2; 0; 0; 0; 2; 0; 0; 0; 1; 109; 101; 109; 111; 114; 121; 64; 57;
   48; 48; 48; 48; 48; 48; 48; 0; 0; 0; 0; 3; 0; 0; 0; 9; 0; 0; 0; 57; 100; 105; 115; 97; 98; 108; 101; 100; 0; 0; 0; 0;
   0; 0; 0; 3; 0; 0; 0; 8; 0; 0; 0; 39; 144; 0; 0; 0; 0; 0; 16; 0; 0; 0; 0; 2; 0; 0; 0; 2; 0; 0; 0; 9; 35; 97; 100; 100;
   114; 101; 115; 115; 45; 99; 101; 108; 108; 115; 0; 35; 115; 105; 122; 101; 45; 99; 101; 108; 108; 115; 0; 100; 101;
   118; 105; 99; 101; 95; 116; 121; 112; 101; 0; 114; 101; 103; 0; 114; 97; 110; 103; 101; 115; 0; 110; 111; 45; 109;
   97; 112; 0; 115; 116; 97; 116; 117; 115; 0].
Definition sample_map : FdtMemoryMap.t :=
  FdtMemoryMap.mk [PhysicalRange.mk 0x40000000 0x8000000]
    [FirmwareReservation.mk (PhysicalRange.mk 0x47000000 0x1000) ReservationSource.reserve_table false false;
     FirmwareReservation.mk (PhysicalRange.mk 0x40000000 0x80000) ReservationSource.reserved_memory true false] 440 0.

Lemma fdt_total_witness : bytes_ok sample_blob /\ exists m st, parse_fdt_memory (H := arch32) sample_blob FdtMemoryMap.new = Some (m, st) /\ (st <> StatusCode.ok -> m = FdtMemoryMap.new).
Proof.
  assert (bytes_ok sample_blob) as Hok by concrete. split; [exact Hok |].
  destruct (@fdt_parser_total arch32 sample_blob FdtMemoryMap.new Hok) as (m & st & Hp & Hf & _). exists m, st. exact (conj Hp Hf).
Defined.

Lemma fdt_tree_witness : parse_fdt_memory (H := arch64) sample_blob FdtMemoryMap.new = Some (sample_map, StatusCode.ok) /\
  exists l t, holds_tree sample_blob l t /\ FdtMemoryMap.ram sample_map = ram_of t /\ FdtMemoryMap.reservations sample_map = map table_entry l ++ reserved_of t.
Proof.
  assert (bytes_ok sample_blob) as Hok by concrete.
  assert (parse_fdt_memory (H := arch64) sample_blob FdtMemoryMap.new = Some (sample_map, StatusCode.ok)) as Hp by (vm_compute; reflexivity). split; [exact Hp |].
  destruct (@fdt_map_is_the_tree arch64 sample_blob FdtMemoryMap.new sample_map Hok Hp) as (l & t & Ht & _ & Hr & Hres). exists l, t. exact (conj Ht (conj Hr Hres)).
Defined.
