(* ===== verification/E820Claims.v ===== *)
(** * The table of the BIOS collector

    The parser answers on every input, and the records it returns are the
    fields of the table. *)

From S2P Require Import Prelude Epoch Wire Checksum Firmware FdtTree.
Import E820.

(** The number a little-endian field of [n] bytes at [p] spells. *)
Definition little (b : Bytes) (p n : Z) : Z := number (rev (subspan b p n)).

Lemma subspan_split b p n k : 0 <= p -> 0 <= n -> 0 <= k -> subspan b p (n + k) = subspan b p n ++ subspan b (p + n) k.
Proof.
  intros Hp Hn Hk. unfold subspan. rewrite <- (take_drop (Z.to_nat n) (take (Z.to_nat (n + k)) _)), take_take, skipn_firstn_comm, drop_drop. f_equal; f_equal; try lia. f_equal. lia.
Qed.

Lemma little_range b p n : bytes_ok b -> 0 <= p -> 0 <= n -> p + n <= zlen b -> 0 <= little b p n < 256 ^ n.
Proof.
  intros Hok Hp Hn Hb. unfold little. pose proof (number_range (rev (subspan b p n))) as Hr. unfold zlen in Hr. rewrite length_rev in Hr. fold (zlen (subspan b p n)) in Hr.
  rewrite zlen_slice in Hr by lia. apply Hr, Forall_rev, bytes_ok_subspan, Hok.
Qed.

Lemma little32_eq b p : bytes_ok b -> 0 <= p -> p + 4 <= zlen b -> little32 b p = Some (little b p 4).
Proof.
  intros Hok Hp Hb. unfold little32, little. rewrite !byte_at_ok by lia. cbn [mbind option_bind]. rewrite word_at by done. f_equal. cbn [rev app].
  pose proof (bytes_ok_aget b p Hok ltac:(lia)). pose proof (bytes_ok_aget b (p + 1) Hok ltac:(lia)). pose proof (bytes_ok_aget b (p + 2) Hok ltac:(lia)).
  pose proof (bytes_ok_aget b (p + 3) Hok ltac:(lia)). unfold number. cbn [foldl].
  rewrite (Z.lor_comm b.[p]), (lor_shift b.[p + 1] b.[p] 8), (Z.lor_comm (b.[p + 1] * 2 ^ 8 + _)), (lor_shift b.[p + 2] _ 16) by lia.
  rewrite (Z.lor_comm (b.[p + 2] * 2 ^ 16 + _)), (lor_shift b.[p + 3] _ 24) by lia. lia.
Qed.

Lemma little64_eq b p : bytes_ok b -> 0 <= p -> p + 8 <= zlen b -> Z.lor (little b p 4) (Z.shiftl (little b (p + 4) 4) 32) = little b p 8.
Proof.
  intros Hok Hp Hb. pose proof (little_range b p 4 Hok Hp ltac:(lia) ltac:(lia)). rewrite Z.lor_comm, lor_shift by (change (256 ^ 4) with (2 ^ 32) in *; lia).
  unfold little. change 8 with (4 + 4). rewrite subspan_split, rev_app_distr, number_app by lia. unfold zlen. rewrite length_rev. fold (zlen (subspan b p 4)). by rewrite zlen_slice by lia.
Qed.

(** Record number [i] of the table. *)
Definition table_record (b : Bytes) (i : Z) : E820Record.t :=
  let at_ := e820_header_bytes + i * e820_record_bytes in
  E820Record.mk (little b at_ 8) (little b (at_ + 8) 8) (little b (at_ + 16) 4) (little b (at_ + 20) 4).
Definition fits_physical (r : E820Record.t) : Prop := E820Record.address r + E820Record.size r <= u64_max.

Lemma records_spec b n : bytes_ok b -> forall i, 0 <= i -> e820_header_bytes + (i + Z.of_nat n) * e820_record_bytes <= zlen b ->
  records n b i = Some (if forallb (fun r => E820Record.size r <=? u64_max - E820Record.address r) (map (table_record b) (seqZ i (Z.of_nat n)))
                        then Ok (map (table_record b) (seqZ i (Z.of_nat n))) else Err StatusCode.invalid_argument).
Proof.
  intros Hok. unfold e820_header_bytes, e820_record_bytes in *. induction n as [| n IH]; intros i Hi Hb; [done |]. cbn [records]. unfold e820_header_bytes, e820_record_bytes.
  rewrite !little32_eq by (done || lia). cbn [mbind option_bind]. rewrite little64_eq by (done || lia).
  replace (16 + i * 24 + 12) with (16 + i * 24 + 8 + 4) by lia. rewrite little64_eq by (done || lia). rewrite seqZ_cons by lia. cbn [map forallb].
  replace (Z.pred (Z.of_nat (S n))) with (Z.of_nat n) by lia. replace (Z.succ i) with (i + 1) by lia.
  change (E820Record.size (table_record b i)) with (little b (16 + i * 24 + 8) 8). change (E820Record.address (table_record b i)) with (little b (16 + i * 24) 8).
  rewrite Z.ltb_antisym. destruct (little b (16 + i * 24 + 8) 8 <=? u64_max - little b (16 + i * 24) 8); cbn [negb andb]; [| done].
  rewrite IH by lia. by destruct (forallb _ _).
Qed.

(** The parser answers on every table and leaves the output as it was unless it
    succeeds; then the records are those of the table, as many as its header
    says, and no range wraps. *)
Theorem e820_table_exact bytes output : bytes_ok bytes -> exists m st, parse_e820_handoff bytes output = Some (m, st) /\
  (st <> StatusCode.ok -> m = output) /\
  (st = StatusCode.ok -> 0 < zlen m <= e820_record_capacity /\ little bytes 0 4 = e820_handoff_magic /\ little bytes 8 4 = zlen m /\
     m = map (table_record bytes) (indices (zlen m)) /\ Forall fits_physical m).
Proof.
  intros Hok. unfold parse_e820_handoff. destruct (Z.ltb_spec (zlen bytes) e820_header_bytes) as [| Hl]; [by exists output, StatusCode.invalid_argument |].
  unfold e820_header_bytes in Hl. rewrite !little32_eq by (done || lia). cbn [mbind option_bind]. case_cond; [by exists output, StatusCode.invalid_argument |].
  case_cond; [by exists output, StatusCode.invalid_argument |]. b2p. pose proof (little_range bytes 8 4 Hok ltac:(lia) ltac:(lia) ltac:(lia)) as Hr. set (count := little bytes 8 4) in *.
  rewrite records_spec by (done || (unfold e820_header_bytes, e820_record_bytes in *; dlia)). rewrite Z2Nat.id by lia. set (rs := map (table_record bytes) (seqZ 0 count)).
  destruct (forallb _ rs) eqn:Hf; [| by exists output, StatusCode.invalid_argument]. exists rs, StatusCode.ok. split_and!; [done | done |]. intros _.
  assert (zlen rs = count) as Hz by (unfold rs, zlen; rewrite length_map; fold (zlen (seqZ 0 count)); rewrite zlen_indices by lia; done). rewrite Hz. split_and!; try done; [lia |].
  apply Forall_forall. intros r Hin. rewrite forallb_forall in Hf. apply list_elem_of_In in Hin. specialize (Hf r Hin). unfold fits_physical. lia.
Qed.
